(* ===== verification/_CoqProject ===== *)
-Q . S2P
Prelude.v
SegmentMask.v
BookingDomain.v
StateMachine.v
PaymentDomain.v
Sharding.v
RouteCache.v
BookingDb.v
Occupancy.v
Router.v
BookingStore.v
BookingInvariant.v
BookingAudit.v
BookingCommands.v
BookingAllocation.v
BookingIdempotency.v
BookingTickets.v
WaitingRoom.v
AdmissionSteps.v
AdmissionSafety.v
PaymentDb.v
PaymentClaims.v
PaymentFinalize.v
PaymentControl.v
PaymentWorker.v
PaymentLogic.v
PaymentSafety.v
PaymentHistory.v
PaymentWorkerSafety.v
PaymentScenarios.v
PaymentReconcile.v
PaymentReconcileSafety.v
PaymentIdempotency.v
Transaction.v
ShardDb.v
ShardBooking.v
ShardPayment.v
ShardExpiry.v
ShardLogic.v
ShardDurable.v
ShardInvariant.v
ShardSafety.v
ShardCalls.v
ShardHistory.v
ShardProperties.v
ShardReplay.v
ShardIssuance.v
ShardScenarios.v
ShardReceipts.v
CommandDb.v
CommandControl.v
PhysicalRouter.v
CommandReconcile.v
CommandLogic.v
CommandSaga.v
CommandQuota.v
CommandProperties.v
CommandScenarios.v
CrashProgram.v
MigrationDb.v
MigrationEngine.v
MigrationControl.v
MigrationShards.v
MigrationValidator.v
MigrationCutover.v
MigrationLedger.v
MigrationAdmin.v
MigrationFences.v
MigrationWriters.v
MigrationSafety.v
MigrationOperations.v
MigrationOneWriter.v
MigrationGaps.v
MigrationMirror.v
MigrationReplay.v
MigrationPhases.v
MigrationConvergence.v
MigrationScenarios.v
MigrationCopySample.v
MigrationBookings.v
