(* ===== verification/Prelude.v ===== *)
(** * Scalable Railway Ticketing Platform: verification development

    The platform sells seats on train runs.  A Go API and its workers keep
    their state in PostgreSQL (offerings, reservations, payments, routing
    catalog) and Redis (the admission waiting room), and reach a payment
    provider over HTTP.  Booking data is split over shards: a train run is
    assigned to a shard, a router resolves the assignment and every write is
    fenced by the generation of the route.  Each part below is a translation
    of Go functions, SQL statements or Lua scripts of [src/] into executable
    definitions, followed by the theorems that make it correct.

    ** Parts, sources and files

    - Booking domain ([internal/booking/domain]): [SegmentMask] has the
      route-segment bit masks and their PostgreSQL encoding, [BookingDomain]
      money (int64 with wrap-around) and the reservation lifecycle.
    - Routing ([internal/sharding]): [Sharding] has shard ids, routes and the
      logical and physical migration machines; [RouteCache] the pointer-based
      LRU cache; [Router] resolution, locators and fenced transactions.
    - Booking store ([internal/booking/postgres]): [BookingDb] has the tables
      and the transaction monad, [BookingStore] every command (hold, confirm,
      cancel, expire, audit, inventory initialisation) with idempotency,
      quota, admission recheck, locators and outbox.
    - Waiting room ([internal/admission/redis]): [WaitingRoom] has the Lua
      scripts of one policy generation.
    - Payment ([internal/payment]): [PaymentDomain] has the intent, operation
      and saga machines; [PaymentDb] the tables of migration 000010 with their
      constraints and guard triggers; [PaymentControl] the intent store, the
      application service and webhook ingress; [PaymentClaims] and
      [PaymentFinalize] the worker's transactions; [PaymentWorker] one pass of
      the worker over provider and shard interfaces; [PaymentReconcile] the
      reconciler over store, provider and repairer interfaces.
    - Physical shards (databases of their own that run the booking and payment
      commands of the runs assigned to them): [ShardDb] has the tables of
      [migrations/booking-shard] with their constraints and guards,
      [ShardBooking] the command executor ([internal/booking/command/physical]:
      create, confirm, cancel, receipts, savepoints, durable rejections, run
      cancellation), [ShardPayment] the payment commands and the gateway
      ([internal/payment/shard]), [ShardExpiry] the hold expiration processor
      ([internal/sharding/physicalworker]).
    - Booking command saga ([internal/booking/command] and its postgres and
      reconcile packages): [CommandDb] has the control tables of migration
      000009, [CommandControl] the repository (Reserve, ReserveLifecycle,
      Finalize) and the coordinator, [CommandReconcile] the reconciler (store,
      shard inspector, service), [PhysicalRouter] the registry and the catalog
      router ([internal/sharding/physical]) that lead to the shards.
    - Physical migration ([internal/sharding/physicalmigration] and
      [cmd/physical-shard-admin]: moving a run between the physical shards while
      it is being booked): [CrashProgram] has programs made of transactions on
      several databases, their runs with interference and crashes, and a program
      logic; [MigrationDb] the shard's migration tables, row statements and
      capture triggers and the control ledger; [MigrationEngine] the engine over
      its two interfaces; [MigrationControl] the control store;
      [MigrationShards], [MigrationValidator] and [MigrationCutover] the shard
      operations; [MigrationAdmin] the operator's commands and their histories.
    - [Transaction] is the transaction monad of the shards and of the control
      database, with its inversion lemmas.  [StateMachine] holds what the edge-table machines share; this file holds
      results, Go conversions, the tactics and the generic lemmas.

    A stateful operation is a function from the state it reads to a result and
    the state it leaves.  Booking commands are computations of a monad that
    threads the database and rolls back on error; payment transactions
    likewise, every statement checking the constraints and guards of its
    table; a Redis script maps the keys of a generation to a reply and new
    keys.  Clock readings, new identifiers, the routing of a command, and the
    failures of the infrastructure are arguments, so a theorem over all of
    them covers retries and crashes between transactions.  Interfaces
    (hashing, provider clients, shard gateways, webhook verification) are
    classes or records of operations.

    ** What the theorems show

    - [BookingInvariant]: every command keeps each inventory row equal to the
      active seats on it, so no seat is sold twice for a segment; expiry
      drains.  [BookingAudit]: the audit query decides that invariant.
      [BookingAllocation]: allocation fails exactly when seats are missing.
    - [BookingCommands], [BookingTickets], [BookingIdempotency]: what a hold
      and a confirmation write and return, at most one seat per passenger and
      run, quota limits, one order and one ticket per seat, and that a retry
      replays the stored result.
    - [Router], [RouteCache]: a routed write is fenced by the catalog's
      current route whatever the cache says, a stale cache costs one refresh,
      and the cache refines a bounded recency list.
    - [AdmissionSteps], [AdmissionSafety]: a token is used once and delivered
      once, older lease holders are fenced, the inflight and rate limits hold,
      and an owner has one live place.
    - [PaymentLogic], [PaymentSafety], [PaymentHistory]: after any interleaving
      of control transactions the payment states are backed by succeeded
      operations, the operations form a sound ledger, and the actions sent to
      the shards are proved by it.  [PaymentWorkerSafety]: a pass of the worker
      is such a history; an uncertain operation is only queried; retry delays
      are a capped exponential.  [PaymentIdempotency]: intents are idempotent,
      conflicting events are quarantined, lost leases are fenced, and the
      guards agree with the domain tables but for one edge.
      [PaymentScenarios]: concrete runs, among them three in which a payment
      stalls or an effect is issued twice.  [PaymentReconcileSafety]: the
      reconciler replays only what the shard recorded, once and confirmed,
      escalates the rest, and reports clean only what is consistent.

    - [ShardLogic], [ShardDurable], [ShardInvariant], [ShardSafety] are the
      program logic of shard transactions; [ShardCalls] and [ShardHistory] the
      steps a fleet of shards can take; [ShardReceipts] who writes command
      receipts.  [ShardProperties]: over any history seats are never
      sold twice, tickets, orders and money agree, the lifecycle is the
      domain's but for three edges, the fence guards every change, and receipts
      are final.  [ShardReplay]: a repeated command returns its receipt and
      changes nothing, rejections included.  [ShardIssuance]: the expirer
      drains what is overdue, and what the retry of an issued action does.
      [ShardScenarios]: a concrete fleet that meets the hypotheses.

    - [CommandLogic] is the program logic of the control transactions,
      [CommandSaga] the histories of control database and shards together and
      their invariant.  [CommandProperties]: a command, its quota lease, its
      directory entry, its receipt and its reservation always agree; the
      coordinator and the reconciler are runs of the saga; a request is
      answered with one reservation; a saga cut short is completed by the next
      attempt; what the error paths answer.  [CommandQuota]: the limits of a
      user hold as long as nothing is repaired, and a repair counts a released
      hold again.  [PhysicalRouter]: the cache is bounded and its answers are
      recent.  [CommandScenarios]: a booking, its cancellation, its
      confirmation and an interrupted one.

    - [MigrationLedger], [MigrationFences] are the effects of the migration's
      transactions on ledger and fences; [MigrationWriters] the invariant of
      the write fences, [MigrationSafety] and [MigrationOperations] the triples
      of the operations under it.  [MigrationOneWriter]: over any history of
      commands, stopped anywhere, a run never has two enabled write fences.
      [MigrationMirror] says what a copy of a run is and how the journal grows
      with the writes of clients, [MigrationReplay] what a batch of the base
      copy and an entry of the journal write on the target, [MigrationPhases]
      what a migration has reached in each state.  [MigrationConvergence]: over
      any sequence of Advances, stopped anywhere, between the writes of
      clients, the target has the source's rows once the final catch-up is
      reached; [MigrationCopySample] runs one with a seat added behind the copy.
      [MigrationGaps], [MigrationBookings]: where commands fall short (a
      rollback repeated, the reverse of a completed migration, a second
      migration to a rolled-back target, a cleanup with payments, a cutover
      after a confirmation).  [MigrationScenarios]: a run moved from one shard
      to the other.

    ** Bounds and fuel

    The loop of ExpireDue adds to its results at every turn, so its limit is
    enough fuel ([expireLoop]); the pass over the shards ends when a turn makes
    no progress or the limit is reached, so one turn more than the limit is
    enough ([passLoop]); CreateHold retries a constant number of times; the
    backoff loop runs attempt - 1 times; a pass of the shard expirer expires a
    hold at every turn but the last, so its limit is enough.  No other definition has fuel, and
    every definition is total.

    ** Abstractions

    Transactions run one after another: the row, advisory and assignment locks
    of the code serialise those that touch the same rows.  A transaction reads
    one clock.  Failures of the infrastructure other than deadlock and an
    aborted commit appear as the absence of the step.  In the booking tables
    the SQL triggers, foreign keys, created_at and updated_at are not
    modelled; text collation and the length of a JSON document are parameters.
    ToLower and TrimSpace act on ASCII.  Cancellation of the context between
    the attempts of CreateHold, the life times of whole Redis keys, the
    truncation of timestamps to microseconds and all metrics are left out.
    The route cache reads its clock once per operation.

    Migration commands run one at a time, each as a sequence of transactions
    between which other clients act and at any of which it may stop; the other
    clients write neither fences, nor the ledger, nor assignments.  A row of a
    shard table is its run, its generation and its columns; constraints of the
    tables that a copied row could violate are a predicate on the store.

    ** Not modelled

    The saga of the operators' mutations of a run
    ([internal/booking/operatorcommand]), of the shape of the booking command
    saga over tables of its own; the queries and replays behind the payment
    reconciler's interfaces; the quota reconciliation, which only reports; the admission policy store; the
    logical-shard control plane and the shard reconciler beyond their state
    machine; the adapter that migrates a run out of the control database;
    offering; the query cache.  Left out as glue or third-party behaviour: HTTP
    handlers, process wiring, configuration, metrics, the polling loops, account
    authentication, the event relay, the HTTP provider client. *)

From Stdlib Require Export ZArith Lia ZifyBool Ascii.
From stdpp Require Export base gmap strings list numbers sorting.
Export stdpp.list_basics.list stdpp.list_relations.list stdpp.list_monad.list stdpp.list_misc.list.

#[global] Open Scope Z_scope.

(** ** Results

    A Go function that returns [(T, error)] returns [res E T] here: the value
    with a nil error, or the error.  No caller of the modelled code looks at
    the value that accompanies a non-nil error. *)
Inductive res (E A : Type) : Type :=
| Ok (a : A)
| Err (e : E).
Arguments Ok {E A} _.
Arguments Err {E A} _.

Declare Scope go_scope.
Delimit Scope go_scope with go.

(** [let* x := m in k]: the [if err != nil { return err }] idiom. *)
Notation "'let*' p := m 'in' k" :=
  (match m with Ok p => k | Err e => Err e end)
  (at level 10, p pattern, m at level 200, k at level 200) : go_scope.
(** [failif b with e else k]: [if b { return e }]. *)
Notation "'failif' b 'with' e 'else' k" :=
  (if b then Err e else k)
  (at level 10, b at level 200, e at level 200, k at level 200) : go_scope.
#[global] Open Scope go_scope.

Definition is_ok {E A} (r : res E A) : bool :=
  match r with Ok _ => true | Err _ => false end.

#[export] Instance res_eq_dec {E A} `{!EqDecision E, !EqDecision A} : EqDecision (res E A).
Proof. solve_decision. Defined.

Lemma failif_Ok {E A} (b : bool) (e : E) (k : res E A) x :
  (if b then Err e else k) = Ok x <-> b = false /\ k = Ok x.
Proof. destruct b; split; naive_solver. Qed.

Lemma bind_Ok {E A B} (m : res E A) (k : A -> res E B) y :
  (match m with Ok x => k x | Err e => Err e end) = Ok y <-> exists x, m = Ok x /\ k x = Ok y.
Proof. destruct m; split; naive_solver. Qed.

(** ** Machine integers *)
Definition MaxInt64 : Z := 2 ^ 63 - 1.
Definition MinInt64 : Z := - 2 ^ 63.
Definition in_int64 (z : Z) : Prop := MinInt64 <= z <= MaxInt64.
Definition MaxUint64 : Z := 2 ^ 64 - 1.
(** Go's int64 arithmetic wraps around. *)
Definition wrap64 (z : Z) : Z := (z + 2 ^ 63) mod 2 ^ 64 - 2 ^ 63.
(** Conversion to int32. *)
Definition wrap32 (z : Z) : Z := (z + 2 ^ 31) mod 2 ^ 32 - 2 ^ 31.
(** Go's uint64 arithmetic wraps around. *)
Definition wrapu64 (z : Z) : Z := z mod 2 ^ 64.

Lemma wrap64_id z : in_int64 z -> wrap64 z = z.
Proof.
  unfold in_int64, MinInt64, MaxInt64, wrap64. intros H.
  rewrite Z.mod_small; lia.
Qed.

Lemma wrap32_id z : - 2 ^ 31 <= z < 2 ^ 31 -> wrap32 z = z.
Proof. unfold wrap32. intros H. rewrite Z.mod_small; lia. Qed.

Lemma wrap64_range z : in_int64 (wrap64 z).
Proof.
  unfold in_int64, MinInt64, MaxInt64, wrap64.
  pose proof (Z.mod_pos_bound (z + 2 ^ 63) (2 ^ 64)). lia.
Qed.

Lemma wrapu64_id z : 0 <= z <= MaxUint64 -> wrapu64 z = z.
Proof. unfold MaxUint64, wrapu64. intros H. apply Z.mod_small. lia. Qed.

(** A UUID is its 128-bit value; the nil UUID is 0.  The order of the values is
    that of the bytes and of the canonical strings. *)
Abbreviation uuid := N.
Definition uuidNil : uuid := 0%N.

(** strings.ToLower on the ASCII range. *)
Definition lowerChar (c : ascii) : ascii :=
  let n := nat_of_ascii c in if ((65 <=? n) && (n <=? 90))%nat then ascii_of_nat (n + 32) else c.
Fixpoint toLower (s : string) : string :=
  match s with
  | EmptyString => EmptyString
  | String c s' => String (lowerChar c) (toLower s')
  end.

(** A byte is an integer in [0, 255]. *)
Definition is_byte (b : Z) : Prop := 0 <= b < 256.

(** [lia] for goals with divisions and remainders. *)
Ltac div_lia := Z.div_mod_to_equations; lia.

(** ** Bit lemmas *)
Lemma testbit_above (p n i : Z) : 0 <= n < 2 ^ p -> 0 <= p <= i -> Z.testbit n i = false.
Proof.
  intros Hn Hi. destruct (decide (n = 0)) as [->|Hz]; [apply Z.bits_0|].
  apply Z.bits_above_log2; [lia|].
  assert (Z.log2 n < p) by (apply Z.log2_lt_pow2; lia). lia.
Qed.

Lemma is_byte_spec b : is_byte b <-> 0 <= b /\ forall i, 8 <= i -> Z.testbit b i = false.
Proof.
  unfold is_byte. split.
  - intros H. split; [lia|]. intros i Hi. apply (testbit_above 8); lia.
  - intros [H0 H]. split; [lia|].
    destruct (Z.lt_ge_cases b 256); [done|]. exfalso.
    assert (Hlog : 8 <= Z.log2 b) by (apply Z.log2_le_pow2; lia).
    specialize (H (Z.log2 b) Hlog). rewrite Z.bit_log2 in H; [done|lia].
Qed.

Lemma byte_lor a b : is_byte a -> is_byte b -> is_byte (Z.lor a b).
Proof.
  rewrite !is_byte_spec. intros [? Ha] [? Hb]. split; [by apply Z.lor_nonneg|].
  intros i Hi. by rewrite Z.lor_spec, Ha, Hb.
Qed.

Lemma byte_ldiff a b : is_byte a -> is_byte (Z.ldiff a b).
Proof.
  rewrite !is_byte_spec. intros [? Ha]. split; [apply Z.ldiff_nonneg; auto|].
  intros i Hi. by rewrite Z.ldiff_spec, Ha.
Qed.

Lemma land_eq_0 a b : Z.land a b = 0 <-> forall i, 0 <= i -> Z.testbit a i && Z.testbit b i = false.
Proof.
  split.
  - intros H i Hi. by rewrite <- Z.land_spec, H, Z.bits_0.
  - intros H. apply Z.bits_inj'. intros i Hi. rewrite Z.land_spec, Z.bits_0. auto.
Qed.

Lemma testbit_pow2 k i : 0 <= k -> Z.testbit (2 ^ k) i = (k =? i).
Proof. intros. rewrite Z.pow2_bits_eqb by lia. done. Qed.

(** ** Lists *)

(** [Forall2]-free reading of a zip at an index where both lists have one. *)
Lemma lookup_zip_with_total (f : Z -> Z -> Z) (l k : list Z) (i : nat) :
  f 0 0 = 0 -> length l = length k ->
  nth i (zip_with f l k) 0 = f (nth i l 0) (nth i k 0).
Proof.
  intros Hf. revert k i. induction l as [|x l IH]; intros [|y k] [|i]; simpl; intros; try done; auto with lia.
Qed.

Lemma nth_alter_eq (f : Z -> Z) (l : list Z) (i : nat) :
  (i < length l)%nat -> nth i (alter f i l) 0 = f (nth i l 0).
Proof. revert i. induction l as [|x l IH]; intros [|i]; simpl; intros; try lia; try done. apply IH. lia. Qed.

Lemma nth_alter_ne (f : Z -> Z) (l : list Z) (i j : nat) :
  i <> j -> nth j (alter f i l) 0 = nth j l 0.
Proof. revert i j. induction l as [|x l IH]; intros [|i] [|j]; simpl; intros; try done. apply IH. lia. Qed.

Lemma Forall_nth_byte (l : list Z) i : Forall is_byte l -> is_byte (nth i l 0).
Proof.
  intros H. destruct (nth_in_or_default i l 0) as [Hin|Heq].
  - rewrite List.Forall_forall in H. auto.
  - rewrite Heq. unfold is_byte. lia.
Qed.

Lemma nth_replicate_0 (n i : nat) : nth i (replicate n 0) 0 = 0.
Proof. revert i. induction n as [|n IH]; intros [|i]; simpl; auto. Qed.

Lemma filter_all {A} (P : A -> Prop) `{!forall x, Decision (P x)} (l : list A) :
  (forall x, x ∈ l -> P x) -> filter P l = l.
Proof.
  induction l as [|x l IH]; intros Hall; [done|]. rewrite filter_cons_True by (apply Hall; by left).
  f_equal. apply IH. intros. apply Hall. by right.
Qed.

Lemma filter_none {A} (P : A -> Prop) `{!forall x, Decision (P x)} (l : list A) :
  (forall x, x ∈ l -> ~ P x) -> filter P l = [].
Proof.
  induction l as [|x l IH]; intros Hno; [done|]. rewrite filter_cons_False by (apply Hno; by left).
  apply IH. intros. apply Hno. by right.
Qed.

Lemma NoDup_map_inj {A B} (f : A -> B) (l : list A) x y :
  NoDup (map f l) -> x ∈ l -> y ∈ l -> f x = f y -> x = y.
Proof.
  induction l as [|z l IH]; intros Hn Hx Hy Hf; [by apply not_elem_of_nil in Hx|]. simpl in Hn.
  apply NoDup_cons in Hn as [Hz Hn].
  apply elem_of_cons in Hx as [->|Hx], Hy as [->|Hy]; auto; exfalso; apply Hz.
  - rewrite Hf. apply list_elem_of_fmap. eauto.
  - rewrite <- Hf. apply list_elem_of_fmap. eauto.
Qed.

(** ORDER BY: a sort by a boolean comparison. *)
Definition sortBy {A} (leb : A -> A -> bool) : list A -> list A :=
  merge_sort (fun x y => Is_true (leb x y)).

Lemma sortBy_Permutation {A} (leb : A -> A -> bool) l : sortBy leb l ≡ₚ l.
Proof. apply merge_sort_Permutation. Qed.

Lemma elem_of_sortBy {A} (leb : A -> A -> bool) l x : x ∈ sortBy leb l <-> x ∈ l.
Proof. by rewrite sortBy_Permutation. Qed.

Lemma length_sortBy {A} (leb : A -> A -> bool) l : length (sortBy leb l) = length l.
Proof. by rewrite sortBy_Permutation. Qed.

(** ** Automation *)
Create HintDb railway discriminated.
#[export] Hint Resolve byte_lor byte_ldiff Forall_nth_byte : railway.

(** Break a chain of Go early returns: every [failif] and [<--] hypothesis that
    ends in [Ok] is decomposed into its guards. *)
Ltac inv_ok :=
  repeat match goal with
  | H : (if _ then Err _ else _) = Ok _ |- _ => apply failif_Ok in H as [? H]
  | H : (match ?m with Ok _ => _ | Err _ => Err _ end) = Ok _ |- _ =>
      let E := fresh "Hm" in destruct m eqn:E; [|discriminate H]
  | H : Ok _ = Ok _ |- _ => injection H as H
  | H : Err _ = Ok _ |- _ => discriminate H
  end.
