(* ===== verification/SegmentMask.v ===== *)
(** * Booking: route segment masks

    Models [src/internal/booking/domain/segment_mask.go] (the route-ordered
    bit mask of occupied segments) and the PostgreSQL boundary
    [src/internal/booking/postgres/segment_bits.go].

    A byte is a [Z] in [0, 255] and the bit operations are those of [Z]; an
    [int] is a [Z].  The only sum that could leave the 64-bit range is
    [segmentCount + 7], for a mask whose bytes no process can allocate.
    [bit_at] is the abstraction the theorems are stated with: bit [i] of a mask
    is the occupation of route segment [i]. *)

From S2P Require Import Prelude.

(** ** The Go definitions *)

Inductive MaskError :=
| ErrInvalidSegmentRange
| ErrInvalidSegmentMask
| ErrSegmentMaskLengthMismatch.

#[export] Instance MaskError_eq_dec : EqDecision MaskError.
Proof. solve_decision. Defined.

Record SegmentMask := mkSegmentMask { bits : list Z; bitLength : Z }.

#[export] Instance SegmentMask_eq_dec : EqDecision SegmentMask.
Proof. solve_decision. Defined.

(** [byte(0x80 >> (index % 8))] *)
Definition segmentBit (index : Z) : Z := Z.shiftr 128 (index mod 8).

(** The loop of NewSegmentMask, with [n] iterations left. *)
Fixpoint setSegments (n : nat) (index : Z) (bs : list Z) : list Z :=
  match n with
  | O => bs
  | S n' =>
      setSegments n' (index + 1)
        (alter (fun b => Z.lor b (segmentBit index)) (Z.to_nat (index / 8)) bs)
  end.

Definition NewSegmentMask (segmentCount fromIndex toIndex : Z) : res MaskError SegmentMask :=
  failif (segmentCount <=? 0) || (fromIndex <? 0) || (fromIndex >=? toIndex) || (toIndex >? segmentCount)
    with ErrInvalidSegmentRange else
  let bs := replicate (Z.to_nat ((segmentCount + 7) / 8)) 0 in
  Ok (mkSegmentMask (setSegments (Z.to_nat (toIndex - fromIndex)) fromIndex bs) segmentCount).

(** The padding test shared by SegmentMaskFromBytes and valid:
    [source[len-1] & byte((1<<unused)-1)]. *)
Definition paddingOf (bitLen : Z) (source : list Z) : Z :=
  let unusedBits := Z.of_nat (length source) * 8 - bitLen in
  Z.land (List.last source 0) (Z.shiftl 1 unusedBits - 1).

Definition SegmentMaskFromBytes (bitLen : Z) (source : list Z) : res MaskError SegmentMask :=
  failif (bitLen <=? 0) || negb (Z.of_nat (length source) =? (bitLen + 7) / 8)
    with ErrInvalidSegmentMask else
  let unusedBits := Z.of_nat (length source) * 8 - bitLen in
  failif (unusedBits >? 0) && negb (paddingOf bitLen source =? 0)
    with ErrInvalidSegmentMask else
  Ok (mkSegmentMask source bitLen).

Definition valid (m : SegmentMask) : bool :=
  if (bitLength m <=? 0) || negb (Z.of_nat (length (bits m)) =? (bitLength m + 7) / 8) then false
  else
    let unusedBits := Z.of_nat (length (bits m)) * 8 - bitLength m in
    (unusedBits =? 0) || (paddingOf (bitLength m) (bits m) =? 0).

(** [m.bits[index/8] & byte(0x80 >> (index%8)) != 0] *)
Definition segmentSet (m : SegmentMask) (index : Z) : bool :=
  negb (Z.land (nth (Z.to_nat (index / 8)) (bits m) 0) (segmentBit index) =? 0).

Definition MaskString (m : SegmentMask) : string :=
  String.string_of_list_ascii
    (map (fun i : nat => if segmentSet m (Z.of_nat i) then "1"%char else "0"%char)
         (List.seq 0 (Z.to_nat (bitLength m)))).

Definition checkOperands (m other : SegmentMask) : res MaskError unit :=
  failif negb (valid m) || negb (valid other) with ErrInvalidSegmentMask else
  failif negb (bitLength m =? bitLength other) with ErrSegmentMaskLengthMismatch else
  Ok tt.

Definition Overlaps (m other : SegmentMask) : res MaskError bool :=
  let* _ := checkOperands m other in
  Ok (existsb (fun b => negb (b =? 0)) (zip_with Z.land (bits m) (bits other))).

Definition Union (m other : SegmentMask) : res MaskError SegmentMask :=
  let* _ := checkOperands m other in
  Ok (mkSegmentMask (zip_with Z.lor (bits m) (bits other)) (bitLength m)).

Definition Subtract (m other : SegmentMask) : res MaskError SegmentMask :=
  let* _ := checkOperands m other in
  Ok (mkSegmentMask (zip_with Z.ldiff (bits m) (bits other)) (bitLength m)).

Definition IsZero (m : SegmentMask) : bool := forallb (fun b => b =? 0) (bits m).

Definition MaskEqual (m other : SegmentMask) : bool :=
  if negb (bitLength m =? bitLength other) || negb (Nat.eqb (length (bits m)) (length (bits other)))
  then false
  else forallb (fun p : Z * Z => p.1 =? p.2) (zip (bits m) (bits other)).

(** ** The PostgreSQL boundary *)

(** [pgtype.Bits] *)
Record PgBits := mkPgBits { pg_Bytes : list Z; pg_Len : Z; pg_Valid : bool }.

Inductive BitsError := ErrInvalidSegmentBits.

Definition EncodeSegmentMask (mask : SegmentMask) : PgBits :=
  mkPgBits (bits mask) (wrap32 (bitLength mask)) true.

Definition DecodeSegmentMask (b : PgBits) : res BitsError SegmentMask :=
  failif negb (pg_Valid b) || (pg_Len b <=? 0) || (pg_Len b >? MaxInt64) with ErrInvalidSegmentBits else
  failif negb (Z.of_nat (length (pg_Bytes b)) =? (pg_Len b + 7) / 8) with ErrInvalidSegmentBits else
  match SegmentMaskFromBytes (pg_Len b) (pg_Bytes b) with
  | Ok mask => Ok mask
  | Err _ => Err ErrInvalidSegmentBits
  end.

(** ** Abstraction *)

(** Bit [i] of the mask: the occupation of route segment [i]. *)
Definition bit_at (m : SegmentMask) (i : Z) : bool :=
  Z.testbit (nth (Z.to_nat (i / 8)) (bits m) 0) (7 - i mod 8).

(** What the unexported fields keep: a valid mask made of bytes. *)
Definition mask_wf (m : SegmentMask) : Prop := valid m = true /\ Forall is_byte (bits m).

Example new_mask_A_C : option_map MaskString
  (match NewSegmentMask 3 0 2 with Ok m => Some m | Err _ => None end) = Some "110"%string.
Proof. reflexivity. Qed.

(** ** Lemmas *)

Lemma segmentBit_pow2 i : segmentBit i = 2 ^ (7 - i mod 8).
Proof.
  unfold segmentBit. pose proof (Z.mod_pos_bound i 8 ltac:(lia)) as H.
  assert (Hc : i mod 8 = 0 \/ i mod 8 = 1 \/ i mod 8 = 2 \/ i mod 8 = 3 \/
               i mod 8 = 4 \/ i mod 8 = 5 \/ i mod 8 = 6 \/ i mod 8 = 7) by lia.
  repeat destruct Hc as [Hc|Hc]; rewrite Hc; reflexivity.
Qed.

Lemma segmentBit_testbit i j : Z.testbit (segmentBit i) j = (7 - i mod 8 =? j).
Proof.
  rewrite segmentBit_pow2. pose proof (Z.mod_pos_bound i 8 ltac:(lia)).
  apply testbit_pow2. lia.
Qed.

Lemma is_byte_segmentBit i : is_byte (segmentBit i).
Proof.
  rewrite segmentBit_pow2. pose proof (Z.mod_pos_bound i 8 ltac:(lia)).
  unfold is_byte. change 256 with (2 ^ 8).
  split; [lia|]. apply Z.pow_lt_mono_r; lia.
Qed.
#[export] Hint Resolve is_byte_segmentBit : railway.

(** The test of the Go code on one segment is the abstraction's bit. *)
Lemma segmentSet_bit_at m i : segmentSet m i = bit_at m i.
Proof.
  unfold segmentSet, bit_at. set (b := nth _ _ _).
  pose proof (Z.mod_pos_bound i 8 ltac:(lia)).
  destruct (Z.testbit b (7 - i mod 8)) eqn:E.
  - apply negb_true_iff, Z.eqb_neq. intros H0.
    apply land_eq_0 with (i := 7 - i mod 8) in H0; [|lia].
    rewrite E, segmentBit_testbit, Z.eqb_refl in H0. done.
  - apply negb_false_iff, Z.eqb_eq, land_eq_0. intros j Hj.
    rewrite segmentBit_testbit. destruct (Z.eqb_spec (7 - i mod 8) j) as [<-|]; [|apply andb_false_r].
    by rewrite E.
Qed.

Lemma setSegments_length n i bs : length (setSegments n i bs) = length bs.
Proof. revert i bs. induction n; intros; simpl; [done|]. rewrite IHn. apply length_alter. Qed.

Lemma setSegments_bytes n i bs : Forall is_byte bs -> Forall is_byte (setSegments n i bs).
Proof.
  revert i bs. induction n; intros i bs H; simpl; [done|].
  apply IHn, Forall_alter; auto with railway.
Qed.

(** A loop of [n] steps from [i] sets exactly the segments [i, i+n). *)
Lemma setSegments_bit n i bs len j :
  0 <= i -> (i + Z.of_nat n + 7) / 8 <= Z.of_nat (length bs) -> 0 <= j ->
  bit_at (mkSegmentMask (setSegments n i bs) len) j =
  bit_at (mkSegmentMask bs len) j || ((i <=? j) && (j <? i + Z.of_nat n)).
Proof.
  revert i bs. induction n as [|n IH]; intros i bs Hi Hlen Hj.
  { assert ((i <=? j) && (j <? i + Z.of_nat 0) = false) as -> by lia.
    simpl. destruct (bit_at _ _); done. }
  simpl setSegments. rewrite IH; [|lia|rewrite length_alter; div_lia|lia].
  assert (Hpos : (Z.to_nat (i / 8) < length bs)%nat).
  { div_lia. }
  assert (Hstep : bit_at (mkSegmentMask (alter (fun b => Z.lor b (segmentBit i)) (Z.to_nat (i / 8)) bs) len) j
                  = bit_at (mkSegmentMask bs len) j || (i =? j)).
  { unfold bit_at; simpl. destruct (decide (i / 8 = j / 8)) as [Hd|Hd].
    - rewrite <- Hd, nth_alter_eq by done. rewrite Z.lor_spec, segmentBit_testbit.
      f_equal. div_lia.
    - rewrite nth_alter_ne by div_lia.
      assert (Hij : (i =? j) = false) by (apply Z.eqb_neq; congruence).
      rewrite Hij. destruct (Z.testbit _ _); done. }
  rewrite Hstep. clear Hstep. destruct (bit_at _ j); [done|]. lia.

Qed.

Lemma bit_at_zero n len j : bit_at (mkSegmentMask (replicate n 0) len) j = false.
Proof. unfold bit_at; simpl. by rewrite nth_replicate_0, Z.bits_0. Qed.

Lemma last_nth (l : list Z) : l <> [] -> List.last l 0 = nth (length l - 1) l 0.
Proof.
  induction l as [|x [|y l] IH]; intros H; [done|done|].
  change (List.last (x :: y :: l) 0) with (List.last (y :: l) 0). rewrite IH by done.
  simpl. by rewrite Nat.sub_0_r.
Qed.

(** The padding test says that no bit at or after [bitLength] is set. *)
Lemma padding_zero m :
  0 < bitLength m -> Z.of_nat (length (bits m)) = (bitLength m + 7) / 8 ->
  paddingOf (bitLength m) (bits m) = 0 <->
  forall i, bitLength m <= i < 8 * Z.of_nat (length (bits m)) -> bit_at m i = false.
Proof.
  intros Hpos Hlen. unfold paddingOf.
  assert (Hq : 8 * ((bitLength m + 7) / 8) <= bitLength m + 7) by div_lia.
  assert (Hr : bitLength m <= 8 * ((bitLength m + 7) / 8)) by div_lia.
  assert (Hne : bits m <> []) by (intros Hb; rewrite Hb in Hlen; simpl in Hlen; lia).
  rewrite last_nth by done. set (n := Z.of_nat (length (bits m))) in *.
  set (u := n * 8 - bitLength m). rewrite Z.shiftl_1_l.
  rewrite land_eq_0. split.
  - intros H i Hi. unfold bit_at. pose proof (Z.mod_pos_bound i 8 ltac:(lia)) as Hm.
    pose proof (Z.div_mod i 8 ltac:(lia)) as Hdm.
    assert (Hdiv : i / 8 = n - 1) by lia.
    specialize (H (7 - i mod 8) ltac:(lia)).
    replace (Z.to_nat (i / 8)) with (length (bits m) - 1)%nat by lia.
    apply andb_false_iff in H as [H|H]; [done|]. exfalso. revert H.
    replace (2 ^ u - 1) with (Z.ones u) by (rewrite Z.ones_equiv; lia).
    rewrite Z.ones_spec_low; [done|lia].
  - intros H j Hj. replace (2 ^ u - 1) with (Z.ones u) by (rewrite Z.ones_equiv; lia).
    destruct (Z.lt_ge_cases j u) as [Hlt|Hge].
    + rewrite Z.ones_spec_low by lia. rewrite andb_true_r.
      specialize (H (8 * (n - 1) + (7 - j)) ltac:(lia)). unfold bit_at in H.
      replace ((8 * (n - 1) + (7 - j)) / 8) with (n - 1) in H by div_lia.
      replace ((8 * (n - 1) + (7 - j)) mod 8) with (7 - j) in H by div_lia.
      replace (7 - (7 - j)) with j in H by lia.
      replace (Z.to_nat (n - 1)) with (length (bits m) - 1)%nat in H by lia. done.
    + rewrite Z.ones_spec_high by lia. apply andb_false_r.
Qed.

Lemma valid_spec m :
  valid m = true <->
  0 < bitLength m /\ Z.of_nat (length (bits m)) = (bitLength m + 7) / 8 /\
  (forall i, bitLength m <= i < 8 * Z.of_nat (length (bits m)) -> bit_at m i = false).
Proof.
  unfold valid. destruct (_ || _) eqn:E.
  { split; [done|]. intros (H1 & H2 & _). lia. }
  apply orb_false_iff in E as [E1 E2].
  assert (Hp : 0 < bitLength m) by lia.
  assert (Hl : Z.of_nat (length (bits m)) = (bitLength m + 7) / 8) by lia.
  pose proof (padding_zero m Hp Hl) as Hz. rewrite orb_true_iff, !Z.eqb_eq, Hz.
  split; [|tauto]. intros [H|H]; split_and!; auto. intros i Hi. lia.
Qed.

Lemma checkOperands_Ok m other u :
  checkOperands m other = Ok u <->
  valid m = true /\ valid other = true /\ bitLength m = bitLength other.
Proof.
  unfold checkOperands. rewrite !failif_Ok. destruct u.
  rewrite orb_false_iff, !negb_false_iff, Z.eqb_eq. naive_solver.
Qed.

Lemma checkOperands_lengths m other :
  valid m = true -> valid other = true -> bitLength m = bitLength other ->
  length (bits m) = length (bits other).
Proof. rewrite !valid_spec. intros (_ & H1 & _) (_ & H2 & _) H. rewrite H in H1. lia. Qed.

(** A bytewise combination of two valid masks of one length is valid and acts
    segment by segment, when the byte operation acts bit by bit and keeps 0. *)
Lemma zip_mask_bit (f : Z -> Z -> Z) (g : bool -> bool -> bool) m other i :
  f 0 0 = 0 -> (forall a b k, Z.testbit (f a b) k = g (Z.testbit a k) (Z.testbit b k)) ->
  length (bits m) = length (bits other) ->
  bit_at (mkSegmentMask (zip_with f (bits m) (bits other)) (bitLength m)) i =
  g (bit_at m i) (bit_at other i).
Proof.
  intros Hf Hg Hl. unfold bit_at; simpl. by rewrite lookup_zip_with_total, Hg by done.
Qed.

Lemma zip_mask_wf (f : Z -> Z -> Z) (g : bool -> bool -> bool) m other :
  f 0 0 = 0 -> (forall a b k, Z.testbit (f a b) k = g (Z.testbit a k) (Z.testbit b k)) ->
  g false false = false -> (forall a b, is_byte a -> is_byte b -> is_byte (f a b)) ->
  mask_wf m -> mask_wf other -> bitLength m = bitLength other ->
  mask_wf (mkSegmentMask (zip_with f (bits m) (bits other)) (bitLength m)).
Proof.
  intros Hf Hg Hgf Hb [Hv1 Hb1] [Hv2 Hb2] Hlen.
  pose proof (checkOperands_lengths _ _ Hv1 Hv2 Hlen) as Hl.
  assert (Hzl : length (zip_with f (bits m) (bits other)) = length (bits m)) by (rewrite length_zip_with; lia).
  split.
  - apply valid_spec in Hv1 as (P1 & L1 & Z1), Hv2 as (P2 & L2 & Z2). apply valid_spec. simpl.
    rewrite Hzl. split_and!; [done|done|]. intros i Hi.
    rewrite (zip_mask_bit f g) by done. rewrite Z1 by lia. rewrite Z2 by lia. done.
  - simpl. clear Hzl Hv1 Hv2 Hlen.
    revert Hb2 Hl. generalize (bits other). induction Hb1 as [|x l Hx Hl1 IH]; intros [|y k]; simpl; intros Hk Hlk;
      try constructor; try lia.
    + inversion Hk; subst. auto.
    + inversion Hk; subst. apply IH; [done|lia].
Qed.

(** ** Specifications *)

Lemma NewSegmentMask_Ok n from to m :
  NewSegmentMask n from to = Ok m <->
  0 <= from < to /\ to <= n /\
  m = mkSegmentMask (setSegments (Z.to_nat (to - from)) from (replicate (Z.to_nat ((n + 7) / 8)) 0)) n.
Proof.
  unfold NewSegmentMask. rewrite failif_Ok. split.
  - intros [H [= <-]]. split_and!; auto; lia.
  - intros (H1 & H2 & ->). split; [lia|done].
Qed.

(** NewSegmentMask sets exactly the requested segments. *)
Lemma NewSegmentMask_bit n from to m i :
  NewSegmentMask n from to = Ok m -> 0 <= i -> bit_at m i = (from <=? i) && (i <? to).
Proof.
  rewrite NewSegmentMask_Ok. intros (H1 & H2 & ->) Hi.
  rewrite setSegments_bit; [|lia| |lia].
  - rewrite bit_at_zero, orb_false_l. f_equal. lia.
  - rewrite length_replicate. div_lia.
Qed.

Lemma NewSegmentMask_wf n from to m : NewSegmentMask n from to = Ok m -> mask_wf m.
Proof.
  intros H. pose proof (fun i => NewSegmentMask_bit _ _ _ _ i H) as Hbit.
  apply NewSegmentMask_Ok in H as (H1 & H2 & Hm). split.
  - apply valid_spec. rewrite Hm at 1 2 3. simpl. rewrite setSegments_length, length_replicate.
    split_and!; [lia|div_lia|]. intros i Hi. rewrite Hbit by (subst m; simpl in *; lia).
    subst m. simpl in Hi. lia.
  - subst m. apply setSegments_bytes, Forall_replicate. unfold is_byte. lia.
Qed.

Lemma existsb_zip_nonzero (l k : list Z) :
  existsb (fun b => negb (b =? 0)) (zip_with Z.land l k) = true <->
  exists j : nat, Z.land (nth j l 0) (nth j k 0) <> 0.
Proof.
  revert k. induction l as [|x l IH]; intros k; simpl.
  - split; [done|]. intros [[|j] H]; rewrite Z.land_0_l in H; done.
  - destruct k as [|y k]; simpl.
    + split; [done|]. intros [[|j] H]; rewrite Z.land_0_r in H; done.
    + rewrite orb_true_iff, negb_true_iff, Z.eqb_neq, IH. split.
      * intros [H|[j H]]; [by exists 0%nat|by exists (S j)].
      * intros [[|j] H]; [by left|right; by exists j].
Qed.

(** Overlaps reports a common segment, exactly. *)
Lemma Overlaps_spec m other :
  mask_wf m -> mask_wf other -> bitLength m = bitLength other ->
  exists b, Overlaps m other = Ok b /\
    (b = true <-> exists i, 0 <= i < bitLength m /\ bit_at m i = true /\ bit_at other i = true).
Proof.
  intros [Hv1 Hb1] [Hv2 Hb2] Hlen. unfold Overlaps.
  assert (checkOperands m other = Ok tt) as -> by (by apply checkOperands_Ok).
  eexists. split; [done|]. rewrite existsb_zip_nonzero.
  pose proof (checkOperands_lengths _ _ Hv1 Hv2 Hlen) as Hl.
  apply valid_spec in Hv1 as (P1 & L1 & Z1). split.
  - intros [j Hj]. assert (Hjl : (j < length (bits m))%nat).
    { destruct (Nat.lt_ge_cases j (length (bits m))); [done|].
      rewrite nth_overflow in Hj by lia. rewrite Z.land_0_l in Hj. done. }
    destruct (existsb (fun k => Z.testbit (nth j (bits m) 0) k && Z.testbit (nth j (bits other) 0) k)
                [0;1;2;3;4;5;6;7]) eqn:E.
    + apply existsb_exists in E as (k & Hk & E). apply andb_true_iff in E as [E1 E2].
      assert (0 <= k < 8) by (simpl in Hk; lia).
      assert (Hd : (8 * Z.of_nat j + (7 - k)) / 8 = Z.of_nat j) by div_lia.
      assert (Hm : (8 * Z.of_nat j + (7 - k)) mod 8 = 7 - k) by div_lia.
      assert (Hb : forall mm, bit_at mm (8 * Z.of_nat j + (7 - k)) = Z.testbit (nth j (bits mm) 0) k).
      { intros mm. unfold bit_at. rewrite Hd, Hm, Nat2Z.id. f_equal. lia. }
      exists (8 * Z.of_nat j + (7 - k)). rewrite !Hb, E1, E2. split_and!; auto; [lia|].
      destruct (Z.lt_ge_cases (8 * Z.of_nat j + (7 - k)) (bitLength m)) as [?|Hge]; [done|].
      specialize (Z1 (8 * Z.of_nat j + (7 - k)) ltac:(lia)). rewrite Hb, E1 in Z1. done.
    + exfalso. apply Hj, land_eq_0. intros k Hk. destruct (Z.lt_ge_cases k 8) as [Hk8|Hk8].
      * assert (HF := E). rewrite <- not_true_iff_false, existsb_exists in HF.
        apply not_true_iff_false. intros Hc. apply HF. exists k. split; [|done]. simpl. lia.
      * apply (Forall_nth_byte _ j) in Hb1. apply is_byte_spec in Hb1 as [_ Hb1]. by rewrite Hb1.
  - intros (i & Hi & H1 & H2). exists (Z.to_nat (i / 8)). intros H0.
    apply land_eq_0 with (i := 7 - i mod 8) in H0; [|div_lia].
    unfold bit_at in H1, H2. by rewrite H1, H2 in H0.
Qed.

Lemma Union_Ok m other u :
  Union m other = Ok u <->
  (valid m = true /\ valid other = true /\ bitLength m = bitLength other) /\
  u = mkSegmentMask (zip_with Z.lor (bits m) (bits other)) (bitLength m).
Proof.
  unfold Union. rewrite bind_Ok. setoid_rewrite checkOperands_Ok. split.
  - intros [[] [H [= <-]]]. done.
  - intros [H ->]. by exists tt.
Qed.

Lemma Subtract_Ok m other u :
  Subtract m other = Ok u <->
  (valid m = true /\ valid other = true /\ bitLength m = bitLength other) /\
  u = mkSegmentMask (zip_with Z.ldiff (bits m) (bits other)) (bitLength m).
Proof.
  unfold Subtract. rewrite bind_Ok. setoid_rewrite checkOperands_Ok. split.
  - intros [[] [H [= <-]]]. done.
  - intros [H ->]. by exists tt.
Qed.

Lemma Union_wf m other u : mask_wf m -> mask_wf other -> Union m other = Ok u -> mask_wf u.
Proof.
  intros H1 H2 [(? & ? & Hl) ->]%Union_Ok.
  by apply (zip_mask_wf _ orb); auto using Z.lor_spec with railway.
Qed.

Lemma Subtract_wf m other u : mask_wf m -> mask_wf other -> Subtract m other = Ok u -> mask_wf u.
Proof.
  intros H1 H2 [(? & ? & Hl) ->]%Subtract_Ok.
  by apply (zip_mask_wf _ (fun a b => a && negb b)); auto using Z.ldiff_spec with railway.
Qed.

Lemma Union_bit m other u i : Union m other = Ok u -> bit_at u i = bit_at m i || bit_at other i.
Proof.
  intros [(H1 & H2 & Hl) ->]%Union_Ok.
  apply (zip_mask_bit Z.lor orb); auto using Z.lor_spec, checkOperands_lengths.
Qed.

Lemma Subtract_bit m other u i :
  Subtract m other = Ok u -> bit_at u i = bit_at m i && negb (bit_at other i).
Proof.
  intros [(H1 & H2 & Hl) ->]%Subtract_Ok.
  apply (zip_mask_bit Z.ldiff (fun a b => a && negb b)); auto using Z.ldiff_spec, checkOperands_lengths.
Qed.

Lemma zip_ldiff_lor (l k : list Z) :
  length l = length k -> existsb (fun b => negb (b =? 0)) (zip_with Z.land l k) = false ->
  zip_with Z.ldiff (zip_with Z.lor l k) l = k.
Proof.
  revert k. induction l as [|x l IH]; intros [|y k]; simpl; intros Hl Hz; try done.
  apply orb_false_iff in Hz as [Hxy Hz]. apply negb_false_iff, Z.eqb_eq in Hxy.
  f_equal; [|apply IH; [lia|done]].
  apply Z.bits_inj'. intros i Hi. rewrite Z.ldiff_spec, Z.lor_spec.
  rewrite land_eq_0 in Hxy. specialize (Hxy i Hi). destruct (Z.testbit x i), (Z.testbit y i); done.
Qed.

(** ** Properties *)

(** two journey masks of one route overlap exactly when their half-open
    stop intervals intersect (what decides whether two bookings may share a
    seat), and every accepted journey mask is well formed. *)
Theorem overlaps_iff_intervals_intersect n fromA toA fromB toB a b :
  NewSegmentMask n fromA toA = Ok a -> NewSegmentMask n fromB toB = Ok b ->
  mask_wf a /\ mask_wf b /\ Overlaps a b = Ok ((fromA <? toB) && (fromB <? toA)).
Proof.
  intros Ha Hb. pose proof (NewSegmentMask_wf _ _ _ _ Ha) as Wa. pose proof (NewSegmentMask_wf _ _ _ _ Hb) as Wb.
  assert (La : bitLength a = n) by (by apply NewSegmentMask_Ok in Ha as (? & ? & ->)).
  assert (Lb : bitLength b = n) by (by apply NewSegmentMask_Ok in Hb as (? & ? & ->)).
  destruct (Overlaps_spec a b Wa Wb ltac:(congruence)) as (r & Hr & Hspec).
  split_and!; [done..|]. rewrite Hr. f_equal. apply eq_true_iff_eq. rewrite Hspec.
  pose proof Ha as (? & ? & _)%NewSegmentMask_Ok. pose proof Hb as (? & ? & _)%NewSegmentMask_Ok. split.
  - intros (i & Hi & Hia & Hib). rewrite (NewSegmentMask_bit _ _ _ _ _ Ha) in Hia by lia.
    rewrite (NewSegmentMask_bit _ _ _ _ _ Hb) in Hib by lia. lia.
  - intros Hc. exists (Z.max fromA fromB). rewrite (NewSegmentMask_bit _ _ _ _ _ Ha) by lia.
    rewrite (NewSegmentMask_bit _ _ _ _ _ Hb) by lia. lia.
Qed.

Lemma overlaps_iff_intervals_intersect_witness :
  exists a b, NewSegmentMask 129 0 64 = Ok a /\ NewSegmentMask 129 63 129 = Ok b /\ Overlaps a b = Ok true.
Proof.
  eexists _, _. split; [reflexivity|]. split; [reflexivity|].
  refine (proj2 (proj2 (overlaps_iff_intervals_intersect 129 0 64 63 129 _ _ _ _))); reflexivity.
Defined.

(** releasing the first of two disjoint holds from a seat's occupied mask
    gives back exactly the second: Union then Subtract is the identity on
    disjoint masks, byte for byte. *)
Theorem subtract_union_restores a b u :
  Overlaps a b = Ok false -> Union a b = Ok u -> Subtract u a = Ok b.
Proof.
  intros Ho [(Va & Vb & Hl) Hu]%Union_Ok. unfold Overlaps in Ho.
  assert (checkOperands a b = Ok tt) as E by (by apply checkOperands_Ok). rewrite E in Ho. clear E.
  injection Ho as Ho. pose proof (checkOperands_lengths _ _ Va Vb Hl) as Hlen.
  apply Subtract_Ok. subst u; simpl. split; [split_and!; auto|].
  - apply valid_spec. simpl. rewrite length_zip_with, Hlen, Nat.min_id, <- Hlen.
    apply valid_spec in Va as (P1 & L1 & Z1). apply valid_spec in Vb as (P2 & L2 & Z2).
    split_and!; [done|done|]. intros i Hi.
    rewrite (zip_mask_bit Z.lor orb), Z1, Z2; auto using Z.lor_spec; lia.
  - destruct b as [bb bl]. simpl in *. f_equal; [|done]. by rewrite zip_ldiff_lor.
Qed.

Lemma subtract_union_restores_witness :
  exists a b u, Overlaps a b = Ok false /\ Union a b = Ok u /\ Subtract u a = Ok b.
Proof.
  exists (mkSegmentMask [240; 0] 12), (mkSegmentMask [3; 240] 12), (mkSegmentMask [243; 240] 12).
  split; [reflexivity|]. split; [reflexivity|].
  apply subtract_union_restores; reflexivity.
Defined.

(** Union and Subtract are defined exactly on two valid masks of one length,
    their result is again well formed, and they act segment by segment as
    set union and set difference. *)
Theorem mask_algebra a b :
  mask_wf a -> mask_wf b ->
  (forall u, Union a b = Ok u ->
     mask_wf u /\ bitLength u = bitLength a /\ forall i, bit_at u i = bit_at a i || bit_at b i) /\
  (forall d, Subtract a b = Ok d ->
     mask_wf d /\ bitLength d = bitLength a /\ forall i, bit_at d i = bit_at a i && negb (bit_at b i)) /\
  (bitLength a = bitLength b <-> is_ok (Union a b)) /\
  (bitLength a = bitLength b <-> is_ok (Subtract a b)).
Proof.
  intros Wa Wb. split_and!.
  - intros u Hu. split_and!; eauto using Union_wf, Union_bit. by apply Union_Ok in Hu as [_ ->].
  - intros u Hu. split_and!; eauto using Subtract_wf, Subtract_bit. by apply Subtract_Ok in Hu as [_ ->].
  - unfold Union, checkOperands. rewrite (proj1 Wa), (proj1 Wb). simpl.
    destruct (Z.eqb_spec (bitLength a) (bitLength b)); simpl; naive_solver.
  - unfold Subtract, checkOperands. rewrite (proj1 Wa), (proj1 Wb). simpl.
    destruct (Z.eqb_spec (bitLength a) (bitLength b)); simpl; naive_solver.
Qed.

Lemma mask_algebra_witness :
  exists u, Union (mkSegmentMask [240; 0] 12) (mkSegmentMask [3; 240] 12) = Ok u /\ mask_wf u.
Proof.
  assert (W1 : mask_wf (mkSegmentMask [240; 0] 12)).
  { split; [reflexivity|]. repeat constructor; unfold is_byte; lia. }
  assert (W2 : mask_wf (mkSegmentMask [3; 240] 12)).
  { split; [reflexivity|]. repeat constructor; unfold is_byte; lia. }
  eexists. split; [reflexivity|]. refine (proj1 (proj1 (mask_algebra _ _ W1 W2) _ _)). reflexivity.
Defined.

(** C39: a mask written to PostgreSQL is read back unchanged, and every value
    DecodeSegmentMask accepts is a valid mask whose encoding is that value. *)
Theorem decode_encode_mask m :
  valid m = true -> bitLength m < 2 ^ 31 ->
  DecodeSegmentMask (EncodeSegmentMask m) = Ok m /\
  forall b m', pg_Len b < 2 ^ 31 -> DecodeSegmentMask b = Ok m' ->
    valid m' = true /\ EncodeSegmentMask m' = b.
Proof.
  intros Hv Hb. split.
  - pose proof Hv as (P & L & Zp)%valid_spec. pose proof (padding_zero m P L) as Hz.
    unfold DecodeSegmentMask, EncodeSegmentMask; simpl. rewrite wrap32_id by lia.
    assert (in_range : (bitLength m <=? 0) || (bitLength m >? MaxInt64) = false) by (unfold MaxInt64; lia).
    rewrite in_range, L, Z.eqb_refl. simpl. unfold SegmentMaskFromBytes.
    rewrite L, Z.eqb_refl. replace (bitLength m <=? 0) with false by lia. simpl.
    apply Hz in Zp. rewrite Zp, Z.eqb_refl, andb_false_r. by destruct m.
  - intros b m' Hlen. unfold DecodeSegmentMask. intros H. inv_ok. subst.
    unfold SegmentMaskFromBytes in Hm. inv_ok. subst m'. unfold EncodeSegmentMask, valid; simpl.
    split; [|rewrite wrap32_id by lia; destruct b as [? ? []]; simpl in *; [done|lia]].
    rewrite H. assert ((pg_Len b + 7) / 8 * 8 >= pg_Len b) by div_lia. lia.
Qed.

Lemma decode_encode_mask_witness :
  DecodeSegmentMask (EncodeSegmentMask (mkSegmentMask [240; 16] 12)) = Ok (mkSegmentMask [240; 16] 12).
Proof. apply decode_encode_mask; [reflexivity|simpl; lia]. Defined.
