(* ===== verification/BookingDomain.v ===== *)
(** * Booking domain: money and the reservation lifecycle

    Module [MoneyModel] models [src/internal/booking/domain/money.go], module
    [ReservationModel] models [src/internal/booking/domain/reservation.go].
    A string is its bytes, an [int64] is a [Z] whose sums and products wrap
    around, and a [time.Time] is its instant in nanoseconds after Go's zero
    time (so [IsZero] is the test against 0 and [UTC] is the identity). *)

From S2P Require Import Prelude.

Abbreviation time := Z.
Definition IsZeroTime (t : time) : bool := t =? 0.
Definition Before (a b : time) : bool := a <? b.
Definition After (a b : time) : bool := b <? a.

Module MoneyModel.

Inductive MoneyError := ErrInvalidMoney | ErrCurrencyMismatch | ErrMoneyOverflow.

Record Money := mkMoney { amountMinor : Z; currency : string }.

#[export] Instance Money_eq_dec : EqDecision Money.
Proof. solve_decision. Defined.
#[export] Instance MoneyError_eq_dec : EqDecision MoneyError.
Proof. solve_decision. Defined.

(** A byte of a string, and the A-Z test of the code.  The Go loop visits the
    bytes that start a rune; a byte it skips follows one outside A-Z. *)
Definition isUpperAZ (c : ascii) : bool :=
  let n := Z.of_N (N_of_ascii c) in negb ((n <? 65) || (n >? 90)).

Definition validCurrency (value : string) : bool :=
  if negb (Nat.eqb (String.length value) 3) then false
  else forallb isUpperAZ (String.list_ascii_of_string value).

Definition NewMoney (amount : Z) (cur : string) : res MoneyError Money :=
  failif (amount <? 0) || negb (validCurrency cur) with ErrInvalidMoney else
  Ok (mkMoney amount cur).

Definition Add (m other : Money) : res MoneyError Money :=
  failif negb (bool_decide (currency m = currency other)) with ErrCurrencyMismatch else
  failif (amountMinor other >? 0) && (amountMinor m >? wrap64 (MaxInt64 - amountMinor other))
    with ErrMoneyOverflow else
  Ok (mkMoney (wrap64 (amountMinor m + amountMinor other)) (currency m)).

(** Go's [/] on int64 truncates; both operands are non-negative here. *)
Definition Multiply (m : Money) (multiplier : Z) : res MoneyError Money :=
  failif multiplier <? 0 with ErrInvalidMoney else
  failif negb (multiplier =? 0) && (amountMinor m >? Z.quot MaxInt64 multiplier)
    with ErrMoneyOverflow else
  Ok (mkMoney (wrap64 (amountMinor m * multiplier)) (currency m)).

(** What NewMoney establishes: the unexported fields keep it. *)
Definition money_wf (m : Money) : Prop :=
  0 <= amountMinor m <= MaxInt64 /\ validCurrency (currency m) = true.

Lemma NewMoney_wf a c m : in_int64 a -> NewMoney a c = Ok m -> money_wf m.
Proof.
  unfold NewMoney, money_wf, in_int64. intros Ha H. inv_ok. subst; simpl.
  apply orb_false_iff in H0 as [? ?%negb_false_iff]. split; [lia|done].
Qed.

(** on well-formed money, Add and Multiply compute the exact mathematical
    sum and product in the same currency and keep the value well formed; they
    report ErrMoneyOverflow exactly when the exact result does not fit in an
    int64, so no amount ever wraps around. *)
Theorem money_arithmetic_exact m o k :
  money_wf m -> money_wf o -> in_int64 k ->
  (currency m = currency o ->
     Add m o = (if amountMinor m + amountMinor o <=? MaxInt64
                then Ok (mkMoney (amountMinor m + amountMinor o) (currency m))
                else Err ErrMoneyOverflow)) /\
  (currency m <> currency o -> Add m o = Err ErrCurrencyMismatch) /\
  Multiply m k = (if k <? 0 then Err ErrInvalidMoney
                  else if amountMinor m * k <=? MaxInt64
                  then Ok (mkMoney (amountMinor m * k) (currency m))
                  else Err ErrMoneyOverflow) /\
  (forall r, Add m o = Ok r \/ Multiply m k = Ok r -> money_wf r).
Proof.
  intros [Hm Hcm] [Ho Hco] Hk. unfold in_int64, MinInt64 in Hk.
  assert (HA : currency m = currency o ->
     Add m o = (if amountMinor m + amountMinor o <=? MaxInt64
                then Ok (mkMoney (amountMinor m + amountMinor o) (currency m))
                else Err ErrMoneyOverflow)).
  { intros Hc. unfold Add. rewrite bool_decide_true by done. simpl.
    rewrite (wrap64_id (MaxInt64 - _)) by (unfold in_int64, MinInt64, MaxInt64 in *; lia).
    destruct (Z.leb_spec (amountMinor m + amountMinor o) MaxInt64).
    - replace (_ && _) with false by lia. rewrite wrap64_id; [done|].
      unfold in_int64, MinInt64, MaxInt64 in *. lia.
    - by replace (_ && _) with true by lia. }
  assert (HM : Multiply m k = (if k <? 0 then Err ErrInvalidMoney
                  else if amountMinor m * k <=? MaxInt64
                  then Ok (mkMoney (amountMinor m * k) (currency m))
                  else Err ErrMoneyOverflow)).
  { unfold Multiply. destruct (Z.ltb_spec k 0); [done|].
    destruct (Z.eqb_spec k 0) as [->|Hk0]; simpl.
    { rewrite Z.mul_0_r. unfold MaxInt64. by rewrite wrap64_id by (unfold in_int64, MinInt64, MaxInt64; lia). }
    rewrite Z.quot_div_nonneg by (unfold MaxInt64; lia).
    destruct (Z.leb_spec (amountMinor m * k) MaxInt64) as [Hle|Hgt].
    - assert (amountMinor m <= MaxInt64 / k) by (apply Z.div_le_lower_bound; lia).
      replace (_ >? _) with false by lia. rewrite wrap64_id; [done|].
      unfold in_int64, MinInt64, MaxInt64 in *. nia.
    - assert (MaxInt64 / k < amountMinor m) by (apply Z.div_lt_upper_bound; lia).
      by replace (_ >? _) with true by lia. }
  split_and!; [done| |done|].
  - intros Hc. unfold Add. by rewrite bool_decide_false by done.
  - intros r [H|H].
    + destruct (decide (currency m = currency o)) as [Hc|Hc].
      * rewrite HA in H by done. destruct (Z.leb_spec (amountMinor m + amountMinor o) MaxInt64); [|done].
        injection H as <-. split; [simpl; lia|done].
      * unfold Add in H. by rewrite bool_decide_false in H by done.
    + rewrite HM in H. destruct (Z.ltb_spec k 0); [done|].
      destruct (Z.leb_spec (amountMinor m * k) MaxInt64); [|done]. injection H as <-.
      split; [simpl; nia|done].
Qed.

Lemma money_arithmetic_exact_witness :
  Add (mkMoney 12550 "TWD") (mkMoney 450 "TWD") = Ok (mkMoney 13000 "TWD") /\
  Multiply (mkMoney (2 ^ 62) "TWD") 2 = Err ErrMoneyOverflow.
Proof.
  assert (W1 : money_wf (mkMoney 12550 "TWD")) by (split; [unfold MaxInt64; simpl; lia|reflexivity]).
  assert (W2 : money_wf (mkMoney 450 "TWD")) by (split; [unfold MaxInt64; simpl; lia|reflexivity]).
  assert (W3 : money_wf (mkMoney (2 ^ 62) "TWD")) by (split; [unfold MaxInt64; simpl; lia|reflexivity]).
  split.
  - rewrite (proj1 (money_arithmetic_exact _ _ 0 W1 W2 ltac:(unfold in_int64, MinInt64, MaxInt64; lia)));
      reflexivity.
  - rewrite (proj1 (proj2 (proj2 (money_arithmetic_exact _ _ 2 W3 W2 ltac:(unfold in_int64, MinInt64, MaxInt64; lia)))));
      reflexivity.
Defined.

End MoneyModel.

Module ReservationModel.

Inductive ReservationStatus :=
| Held | Confirmed | Expired | Cancelled | PaymentPending | PaymentReview | RefundPending.

#[export] Instance ReservationStatus_eq_dec : EqDecision ReservationStatus.
Proof. solve_decision. Defined.

Inductive ReservationError :=
| ErrInvalidReservation | ErrReservationExpired | ErrReservationNotExpired | ErrInvalidReservationTransition.

#[export] Instance ReservationError_eq_dec : EqDecision ReservationError.
Proof. solve_decision. Defined.

Record Reservation := mkReservation { status : ReservationStatus; expiresAt : time }.

#[local] Notation "a == b" := (bool_decide (a = b)) (at level 70).
#[local] Notation "a != b" := (negb (bool_decide (a = b))) (at level 70).

Definition NewHeldReservation (exp : time) : res ReservationError Reservation :=
  failif IsZeroTime exp with ErrInvalidReservation else
  Ok (mkReservation Held exp).

Definition setStatus (r : Reservation) (s : ReservationStatus) : Reservation :=
  mkReservation s (expiresAt r).

(** A method on [*Reservation] returns the reservation it leaves behind and
    what it returns. *)
Definition Step := (Reservation * res ReservationError bool)%type.

Definition Confirm (r : Reservation) (now : time) : Step :=
  if status r == Confirmed then (r, Ok false) else
  if status r != Held then (r, Err ErrInvalidReservationTransition) else
  if negb (Before now (expiresAt r)) then (r, Err ErrReservationExpired) else
  (setStatus r Confirmed, Ok true).

Definition Expire (r : Reservation) (now : time) : Step :=
  if status r == Expired then (r, Ok false) else
  if status r != Held then (r, Err ErrInvalidReservationTransition) else
  if Before now (expiresAt r) then (r, Err ErrReservationNotExpired) else
  (setStatus r Expired, Ok true).

Definition Cancel (r : Reservation) : Step :=
  if status r == Cancelled then (r, Ok false) else
  if (status r != Held) && (status r != Confirmed) then (r, Err ErrInvalidReservationTransition) else
  (setStatus r Cancelled, Ok true).

Definition BeginPayment (r : Reservation) (now : time) : Step :=
  if status r == PaymentPending then (r, Ok false) else
  if status r != Held then (r, Err ErrInvalidReservationTransition) else
  if negb (Before now (expiresAt r)) then (r, Err ErrReservationExpired) else
  (setStatus r PaymentPending, Ok true).

Definition ReviewPayment (r : Reservation) : Step :=
  if status r == PaymentReview then (r, Ok false) else
  if status r != PaymentPending then (r, Err ErrInvalidReservationTransition) else
  (setStatus r PaymentReview, Ok true).

Definition ResumePayment (r : Reservation) : Step :=
  if status r == PaymentPending then (r, Ok false) else
  if status r != PaymentReview then (r, Err ErrInvalidReservationTransition) else
  (setStatus r PaymentPending, Ok true).

Definition ConfirmPayment (r : Reservation) : Step :=
  if status r == Confirmed then (r, Ok false) else
  if (status r != PaymentPending) && (status r != PaymentReview)
  then (r, Err ErrInvalidReservationTransition) else
  (setStatus r Confirmed, Ok true).

Definition BeginRefund (r : Reservation) : Step :=
  if status r == RefundPending then (r, Ok false) else
  if (status r != Confirmed) && (status r != PaymentReview)
  then (r, Err ErrInvalidReservationTransition) else
  (setStatus r RefundPending, Ok true).

Definition CompleteCompensation (r : Reservation) : Step :=
  if status r == Cancelled then (r, Ok false) else
  if status r != RefundPending then (r, Err ErrInvalidReservationTransition) else
  (setStatus r Cancelled, Ok true).

(** ** The lifecycle as a transition system *)

Inductive Command :=
| CConfirm | CExpire | CCancel | CBeginPayment | CReviewPayment | CResumePayment
| CConfirmPayment | CBeginRefund | CCompleteCompensation.

(** One call of a method at instant [now]. *)
Definition exec (c : Command) (now : time) (r : Reservation) : Step :=
  match c with
  | CConfirm => Confirm r now
  | CExpire => Expire r now
  | CCancel => Cancel r
  | CBeginPayment => BeginPayment r now
  | CReviewPayment => ReviewPayment r
  | CResumePayment => ResumePayment r
  | CConfirmPayment => ConfirmPayment r
  | CBeginRefund => BeginRefund r
  | CCompleteCompensation => CompleteCompensation r
  end.

(** The edges of the lifecycle.  Confirmation and payment start strictly before
    the deadline, expiration at or after it. *)
Inductive edge (now exp : time) : ReservationStatus -> ReservationStatus -> Prop :=
| held_confirmed : now < exp -> edge now exp Held Confirmed
| held_expired : exp <= now -> edge now exp Held Expired
| held_cancelled : edge now exp Held Cancelled
| confirmed_cancelled : edge now exp Confirmed Cancelled
| held_pending : now < exp -> edge now exp Held PaymentPending
| pending_review : edge now exp PaymentPending PaymentReview
| review_pending : edge now exp PaymentReview PaymentPending
| pending_confirmed : edge now exp PaymentPending Confirmed
| review_confirmed : edge now exp PaymentReview Confirmed
| confirmed_refund : edge now exp Confirmed RefundPending
| review_refund : edge now exp PaymentReview RefundPending
| refund_cancelled : edge now exp RefundPending Cancelled.

#[local] Hint Constructors edge : railway.

(** Evaluate a method on a known status, up to the clock comparison. *)
#[local] Ltac compute_step :=
  lazy beta iota delta [exec Confirm Expire Cancel BeginPayment ReviewPayment ResumePayment
    ConfirmPayment BeginRefund CompleteCompensation bool_decide decide decide_rel
    ReservationStatus_eq_dec status expiresAt setStatus Before negb andb
    ReservationStatus_rect ReservationStatus_rec sumbool_rec sumbool_rect].

Lemma exec_edge c now r r' :
  exec c now r = (r', Ok true) ->
  edge now (expiresAt r) (status r) (status r') /\ expiresAt r' = expiresAt r.
Proof.
  destruct r as [s e].
  destruct c, s; compute_step; try discriminate; try destruct (Z.ltb_spec now e);
    intros [= <-]; cbn; auto with railway.
Qed.

Lemma exec_stutter c now r r' o : exec c now r = (r', o) -> o <> Ok true -> r' = r.
Proof.
  destruct r as [s e].
  destruct c, s; compute_step; try destruct (now <? e); intros [= <- <-]; done.
Qed.

(** The states a sequence of calls can lead to, each call at its own instant. *)
Inductive reach (r : Reservation) : Reservation -> Prop :=
| reach_refl : reach r r
| reach_step r1 c now : reach r r1 -> reach r (exec c now r1).1.

(** a method of Reservation that reports a change moved the status along
    one edge of the documented lifecycle at an instant that edge allows; one
    that reports no change or an error left the reservation as it was; the
    expiry never changes; and conversely every edge is taken by some method. *)
Theorem reservation_lifecycle c now r r' o :
  exec c now r = (r', o) ->
  expiresAt r' = expiresAt r /\
  (o = Ok true -> edge now (expiresAt r) (status r) (status r')) /\
  (o <> Ok true -> r' = r) /\
  (forall s2, edge now (expiresAt r) (status r) s2 ->
     exists c2, exec c2 now r = (setStatus r s2, Ok true)).
Proof.
  intros H. split_and!.
  - destruct (decide (o = Ok true)) as [->|Hn]; [by apply exec_edge in H as [_ ?]|].
    by apply exec_stutter in H as ->.
  - intros ->. by apply exec_edge in H as [? _].
  - intros Hn. by eapply exec_stutter.
  - clear. destruct r as [s e]. cbn. intros s2 He.
    inversion He; subst;
      [exists CConfirm|exists CExpire|exists CCancel|exists CCancel|exists CBeginPayment
      |exists CReviewPayment|exists CResumePayment|exists CConfirmPayment|exists CConfirmPayment
      |exists CBeginRefund|exists CBeginRefund|exists CCompleteCompensation];
      compute_step; try (destruct (Z.ltb_spec now e); [|lia]); try reflexivity.
    destruct (Z.ltb_spec now e); [lia|reflexivity].
Qed.

Lemma reservation_lifecycle_witness :
  edge 5 9 Held PaymentPending.
Proof.
  exact (proj1 (proj2 (reservation_lifecycle CBeginPayment 5 (mkReservation Held 9)
                         (mkReservation PaymentPending 9) (Ok true) eq_refl)) eq_refl).
Defined.

Lemma reach_terminal r r' :
  reach r r' -> status r = Expired \/ status r = Cancelled -> r' = r.
Proof.
  induction 1 as [|r1 c now Hr IH]; intros Ht; [done|]. specialize (IH Ht) as ->.
  destruct r as [s e]; cbn in Ht.
  destruct Ht as [-> | ->], c; compute_step; done.
Qed.

Lemma reach_after_payment r r' :
  reach r r' -> status r <> Held -> status r <> Expired -> status r' <> Expired /\ status r' <> Held.
Proof.
  induction 1 as [|r1 c now Hr IH]; intros Hh He; [done|]. specialize (IH Hh He) as [H1 H2].
  destruct (exec c now r1) as [r2 o] eqn:E; cbn.
  destruct (decide (o = Ok true)) as [->|Hn].
  - apply exec_edge in E as [Hed _]. inversion Hed; subst; done || congruence.
  - apply exec_stutter in E as ->; done.
Qed.

(** along any sequence of calls, an expired or cancelled reservation never
    changes again, and one that left Held for payment or confirmation is never
    expired (so its seats are never released by the expiration worker). *)
Theorem reservation_terminal_and_paid_safe r r' :
  reach r r' ->
  (status r = Expired \/ status r = Cancelled -> r' = r) /\
  (status r <> Held -> status r <> Expired -> status r' <> Expired /\ status r' <> Held).
Proof. eauto using reach_terminal, reach_after_payment. Qed.

Lemma reservation_terminal_and_paid_safe_witness :
  status (exec CExpire 20 (mkReservation PaymentPending 9)).1 <> Expired.
Proof.
  exact (proj1 (proj2 (reservation_terminal_and_paid_safe (mkReservation PaymentPending 9) _
           (reach_step _ _ CExpire 20 (reach_refl _))) ltac:(done) ltac:(done))).
Defined.

(** repeating a call that succeeded, at any later instant, reports
    [false, nil] and changes nothing: commands are idempotent. *)
Theorem reservation_command_idempotent c now now' r r' :
  exec c now r = (r', Ok true) -> exec c now' r' = (r', Ok false).
Proof.
  destruct r as [s e].
  destruct c, s; compute_step; try discriminate; try destruct (now <? e); intros [= <-]; reflexivity.
Qed.

Lemma reservation_command_idempotent_witness :
  exec CExpire 30 (mkReservation Expired 9) = (mkReservation Expired 9, Ok false).
Proof. apply (reservation_command_idempotent CExpire 20 30 (mkReservation Held 9)). reflexivity. Defined.

End ReservationModel.
