(* ===== verification/StateMachine.v ===== *)
(** * Edge-table state machines

    The payment and migration state machines of the code are tables of allowed
    edges.  This file has what their theorems share: paths of a table that
    avoid a set of states, and the argument that a set closed under the table
    contains every state on such a path, decided by evaluation. *)

From S2P Require Import Prelude.

Section EdgeTable.
Context {S : Type} `{!EqDecision S}.
Variable edges : S -> list S.

(** [path allowed s t]: edges lead from [s] to [t] through states that satisfy
    [allowed] (the end included, the start not). *)
Inductive path (allowed : S -> bool) : S -> S -> Prop :=
| path_refl s : path allowed s s
| path_step s t u : path allowed s t -> u ∈ edges t -> allowed u = true -> path allowed s u.

(** [K] is closed under the allowed edges. *)
Definition closed (allowed : S -> bool) (K : list S) : bool :=
  forallb (fun s => forallb (fun u => negb (allowed u) || bool_decide (u ∈ K)) (edges s)) K.

Lemma path_closed allowed K s t :
  closed allowed K = true -> path allowed s t -> s ∈ K -> t ∈ K.
Proof.
  intros HK. induction 1 as [|s t u Hp IH Hu Ha]; intros Hs; [done|].
  specialize (IH Hs). unfold closed in HK. rewrite forallb_forall in HK.
  specialize (HK t (proj1 (list_elem_of_In _ _) IH)). rewrite forallb_forall in HK.
  specialize (HK u (proj1 (list_elem_of_In _ _) Hu)). rewrite Ha in HK. simpl in HK.
  by apply bool_decide_eq_true in HK.
Qed.

(** A walk given by its states. *)
Fixpoint walk (s : S) (ts : list S) : bool :=
  match ts with
  | [] => true
  | t :: ts' => bool_decide (t ∈ edges s) && walk t ts'
  end.

(** States from which the table leads nowhere. *)
Definition terminal (s : S) : bool := bool_decide (edges s = []).

End EdgeTable.

#[export] Hint Constructors path : railway.

(** What a Transition method does once the receiver is known not to be nil. *)
Definition tableTransition {S E : Type} `{!EqDecision S} (table : S -> list S) (bad : E)
    (current next : S) : S * res E bool :=
  if bool_decide (next = current) then (current, Ok false) else
  if negb (bool_decide (next ∈ table current)) then (current, Err bad) else
  (next, Ok true).

Lemma tableTransition_Ok {S E} `{!EqDecision S} (table : S -> list S) (bad : E) cur next cur' o :
  tableTransition table bad cur next = (cur', o) ->
  (o = Ok true /\ cur' = next /\ next <> cur /\ next ∈ table cur) \/
  (cur' = cur /\ (o = Ok false /\ next = cur \/ o = Err bad /\ next ∉ table cur)).
Proof.
  unfold tableTransition. repeat case_bool_decide; simpl; intros [= <- <-]; naive_solver.
Qed.

(** A sequence of attempted transitions, refused ones leaving the state. *)
Definition attempts {S E : Type} `{!EqDecision S} (table : S -> list S) (bad : E) (s : S) (ns : list S) : S :=
  fold_left (fun cur next => (tableTransition table bad cur next).1) ns s.

(** Attempts that only name allowed states stay in a closed set. *)
Lemma attempts_closed {S E} `{!EqDecision S} (table : S -> list S) (bad : E) allowed K ns s :
  closed table allowed K = true -> (forall n, n ∈ ns -> allowed n = true) -> s ∈ K ->
  attempts table bad s ns ∈ K.
Proof.
  intros HK. revert s. induction ns as [|n ns IH]; intros s Ha Hs; [done|]. simpl.
  apply IH; [intros m Hm; apply Ha; by right|].
  destruct (tableTransition table bad s n) as [s' o] eqn:Et. simpl.
  apply tableTransition_Ok in Et as [(_ & -> & _ & Hin)|[-> _]]; [|done].
  eapply path_closed; [exact HK| |exact Hs].
  eapply path_step; [apply path_refl|done|apply Ha; by left].
Qed.
