(* ===== verification/PaymentDomain.v ===== *)
(** * Payment domain: intent, operation and saga state machines

    Models [src/internal/payment/domain/intent.go], [operation.go] and
    [saga.go].  The Go transition tables are maps of maps of booleans built by
    [transitions], [operationEdges] and [sagaEdges]; a table is here the
    function from a state to the list of its successors, a missing key giving
    the empty list.  Receivers are pointers that may be nil: [option]. *)

From S2P Require Import Prelude StateMachine BookingDomain.
Import MoneyModel.

Module IntentModel.

Inductive IntentState :=
| Created | ReservationSecuring | CheckoutPending | AwaitingCustomer | AuthorizationPending
| Authorized | CapturePending | Captured | TicketIssuePending | Completed | VoidPending | Voided
| RefundPending | Refunded | Cancelled | Failed | ManualReview | Expired.

#[export] Instance IntentState_eq_dec : EqDecision IntentState.
Proof. solve_decision. Defined.

Inductive IntentError :=
| ErrInvalidIntent | ErrInvalidIntentTransition | ErrFinancialMismatch | ErrFinancialState.

#[export] Instance IntentError_eq_dec : EqDecision IntentError.
Proof. solve_decision. Defined.

Record Intent := mkIntent {
  money : Money;
  state : IntentState;
  capturedAmount : Z;
  refundedAmount : Z;
  captureRecorded : bool;
  refundRecorded : bool }.

Definition intentTransitions (s : IntentState) : list IntentState :=
  match s with
  | Created => [ReservationSecuring; Cancelled; Failed]
  | ReservationSecuring => [CheckoutPending; Cancelled; Failed; ManualReview]
  | CheckoutPending => [AwaitingCustomer; Cancelled; Failed; ManualReview]
  | AwaitingCustomer => [AuthorizationPending; VoidPending; Cancelled; Expired; ManualReview]
  | AuthorizationPending => [Authorized; Cancelled; Failed; ManualReview]
  | Authorized => [CapturePending; VoidPending; ManualReview]
  | CapturePending => [Captured; Failed; ManualReview]
  | Captured => [TicketIssuePending; RefundPending; ManualReview]
  | TicketIssuePending => [Completed; RefundPending; Failed; ManualReview]
  | Completed => [RefundPending; ManualReview]
  | VoidPending => [Voided; ManualReview]
  | Voided => [Cancelled]
  | RefundPending => [Refunded; ManualReview]
  | Refunded => [Cancelled]
  | ManualReview => [AuthorizationPending; Authorized; CapturePending; Captured; TicketIssuePending;
                     VoidPending; RefundPending; Cancelled; Failed]
  | Cancelled | Failed | Expired => []
  end.

Definition NewIntent (m : Money) : res IntentError Intent :=
  failif bool_decide (currency m = ""%string) with ErrInvalidIntent else
  Ok (mkIntent m Created 0 0 false false).

Definition Transition (intent : option Intent) (next : IntentState) : option Intent * res IntentError bool :=
  match intent with
  | None => (None, Err ErrInvalidIntent)
  | Some i =>
      let '(s, o) := tableTransition intentTransitions ErrInvalidIntentTransition (state i) next in
      (Some (mkIntent (money i) s (capturedAmount i) (refundedAmount i) (captureRecorded i) (refundRecorded i)), o)
  end.

Definition RecordCapture (intent : option Intent) (m : Money) : option Intent * res IntentError bool :=
  match intent with
  | None => (None, Err ErrInvalidIntent)
  | Some i =>
      if negb (bool_decide (state i = CapturePending)) && negb (bool_decide (state i = Captured))
      then (intent, Err ErrFinancialState) else
      if negb (amountMinor m =? amountMinor (money i)) || negb (bool_decide (currency m = currency (money i)))
      then (intent, Err ErrFinancialMismatch) else
      if captureRecorded i then (intent, Ok false) else
      (Some (mkIntent (money i) (state i) (amountMinor m) (refundedAmount i) true (refundRecorded i)), Ok true)
  end.

Definition RecordRefund (intent : option Intent) (m : Money) : option Intent * res IntentError bool :=
  match intent with
  | None => (None, Err ErrInvalidIntent)
  | Some i =>
      if negb (bool_decide (state i = RefundPending)) && negb (bool_decide (state i = Refunded))
      then (intent, Err ErrFinancialState) else
      if negb (captureRecorded i) || negb (amountMinor m =? capturedAmount i) ||
         negb (bool_decide (currency m = currency (money i)))
      then (intent, Err ErrFinancialMismatch) else
      if refundRecorded i then (intent, Ok false) else
      (Some (mkIntent (money i) (state i) (capturedAmount i) (amountMinor m) (captureRecorded i) true), Ok true)
  end.

Definition NetPaidAmountMinor (i : Intent) : Z := wrap64 (capturedAmount i - refundedAmount i).

(** ** Reachable intents *)

Inductive Call := CallTransition (next : IntentState) | CallCapture (m : Money) | CallRefund (m : Money).

Definition call (c : Call) (i : option Intent) : option Intent * res IntentError bool :=
  match c with
  | CallTransition next => Transition i next
  | CallCapture m => RecordCapture i m
  | CallRefund m => RecordRefund i m
  end.

(** The intents a sequence of method calls can produce from NewIntent. *)
Inductive reachable (m : Money) : Intent -> Prop :=
| reach_new i : NewIntent m = Ok i -> reachable m i
| reach_call i c i' o : reachable m i -> call c (Some i) = (Some i', o) -> reachable m i'.

(** The ledger of an intent: at most one capture of the whole amount, at most
    one refund, only of a recorded capture. *)
Definition ledger_ok (m : Money) (i : Intent) : Prop :=
  money i = m /\
  capturedAmount i = (if captureRecorded i then amountMinor m else 0) /\
  refundedAmount i = (if refundRecorded i then amountMinor m else 0) /\
  (refundRecorded i = true -> captureRecorded i = true).

Lemma RecordCapture_spec i m i' o :
  RecordCapture (Some i) m = (Some i', o) ->
  (i' = i /\ o <> Ok true) \/
  (o = Ok true /\ captureRecorded i = false /\ amountMinor m = amountMinor (money i) /\
   (state i = CapturePending \/ state i = Captured) /\
   i' = mkIntent (money i) (state i) (amountMinor m) (refundedAmount i) true (refundRecorded i)).
Proof.
  unfold RecordCapture.
  destruct (_ && _) eqn:E1; [intros [= <- <-]; by left|].
  destruct (_ || _) eqn:E2; [intros [= <- <-]; by left|].
  destruct (captureRecorded i) eqn:E3; intros [= <- <-]; [by left|right].
  apply andb_false_iff in E1. rewrite !negb_false_iff, !bool_decide_eq_true in E1.
  split_and!; auto. lia.
Qed.

Lemma RecordRefund_spec i m i' o :
  RecordRefund (Some i) m = (Some i', o) ->
  (i' = i /\ o <> Ok true) \/
  (o = Ok true /\ captureRecorded i = true /\ refundRecorded i = false /\ amountMinor m = capturedAmount i /\
   (state i = RefundPending \/ state i = Refunded) /\
   i' = mkIntent (money i) (state i) (capturedAmount i) (amountMinor m) true true).
Proof.
  unfold RecordRefund.
  destruct (_ && _) eqn:E1; [intros [= <- <-]; by left|].
  destruct (_ || _ || _) eqn:E2; [intros [= <- <-]; by left|].
  destruct (refundRecorded i) eqn:E3; intros [= <- <-]; [by left|right].
  apply andb_false_iff in E1. rewrite !negb_false_iff, !bool_decide_eq_true in E1.
  apply orb_false_iff in E2 as [[Hc%negb_false_iff Ha]%orb_false_iff _].
  rewrite Hc. split_and!; auto. lia.
Qed.

Lemma Transition_spec i next i' o :
  Transition (Some i) next = (Some i', o) ->
  money i' = money i /\ capturedAmount i' = capturedAmount i /\ refundedAmount i' = refundedAmount i /\
  captureRecorded i' = captureRecorded i /\ refundRecorded i' = refundRecorded i /\
  ((o = Ok true /\ state i' = next /\ next ∈ intentTransitions (state i)) \/ (o <> Ok true /\ state i' = state i)).
Proof.
  unfold Transition. destruct (tableTransition _ _ _ _) as [s o'] eqn:E. intros [= <- <-]. simpl.
  apply tableTransition_Ok in E. destruct i; simpl in *. naive_solver.
Qed.

Lemma reachable_ledger m i : reachable m i -> ledger_ok m i.
Proof.
  induction 1 as [i Hn|i c i' o Hr IH Hc].
  { unfold NewIntent in Hn. inv_ok. by subst i. }
  destruct IH as (Hm & Hcap & Href & Himp). destruct c as [next|m0|m0]; simpl in Hc.
  - apply Transition_spec in Hc as (H1 & H2 & H3 & H4 & H5 & _).
    unfold ledger_ok. rewrite H1, H2, H3, H4, H5. done.
  - apply RecordCapture_spec in Hc as [[-> _]|(_ & Hf & Ha & _ & ->)]; [done|].
    unfold ledger_ok; simpl. rewrite Ha, Hm. split_and!; auto.
  - apply RecordRefund_spec in Hc as [[-> _]|(_ & Ht & Hf & Ha & _ & ->)]; [done|].
    unfold ledger_ok; simpl. rewrite Ht in Hcap. rewrite Ha, Hcap. split_and!; auto.
Qed.

(** in every intent any sequence of calls can produce, the captured amount
    is nothing or the whole server-derived amount, a refund is recorded only
    after a capture and never exceeds it, and the net paid amount is the exact
    difference, between 0 and the intent's amount. *)
Theorem intent_ledger_safe m i :
  money_wf m -> reachable m i ->
  money i = m /\
  (capturedAmount i = 0 \/ capturedAmount i = amountMinor m) /\
  0 <= refundedAmount i <= capturedAmount i /\
  (refundRecorded i = true -> captureRecorded i = true) /\
  NetPaidAmountMinor i = capturedAmount i - refundedAmount i /\
  0 <= NetPaidAmountMinor i <= amountMinor m.
Proof.
  intros [Hw _] (Hm & Hc & Hr & Hi)%reachable_ledger. unfold NetPaidAmountMinor, MaxInt64 in *.
  assert (Hb : 0 <= refundedAmount i <= capturedAmount i /\ 0 <= capturedAmount i <= amountMinor m).
  { rewrite Hc, Hr. destruct (captureRecorded i), (refundRecorded i); lia. }
  rewrite wrap64_id by (unfold in_int64, MinInt64, MaxInt64; lia).
  split_and!; auto; lia.
Qed.

Lemma intent_ledger_safe_witness :
  exists i, reachable (mkMoney 1200 "TWD") i /\ state i = Captured /\ capturedAmount i = 1200 /\
    0 <= NetPaidAmountMinor i <= 1200.
Proof.
  set (m := mkMoney 1200 "TWD").
  assert (Hr : reachable m (mkIntent m Captured 1200 0 true false)).
  { apply (reach_call m (mkIntent m Captured 0 0 false false) (CallCapture m) _ (Ok true)); [|reflexivity].
    apply (reach_call m (mkIntent m CapturePending 0 0 false false) (CallTransition Captured) _ (Ok true)); [|reflexivity].
    apply (reach_call m (mkIntent m Authorized 0 0 false false) (CallTransition CapturePending) _ (Ok true)); [|reflexivity].
    apply (reach_call m (mkIntent m AuthorizationPending 0 0 false false) (CallTransition Authorized) _ (Ok true)); [|reflexivity].
    apply (reach_call m (mkIntent m AwaitingCustomer 0 0 false false) (CallTransition AuthorizationPending) _ (Ok true)); [|reflexivity].
    apply (reach_call m (mkIntent m CheckoutPending 0 0 false false) (CallTransition AwaitingCustomer) _ (Ok true)); [|reflexivity].
    apply (reach_call m (mkIntent m ReservationSecuring 0 0 false false) (CallTransition CheckoutPending) _ (Ok true)); [|reflexivity].
    apply (reach_call m (mkIntent m Created 0 0 false false) (CallTransition ReservationSecuring) _ (Ok true)); [|reflexivity].
    apply reach_new. reflexivity. }
  eexists. split; [exact Hr|]. split; [reflexivity|]. split; [reflexivity|].
  refine (proj2 (proj2 (proj2 (proj2 (proj2 (intent_ledger_safe m _ _ Hr)))))).
  split; [unfold MaxInt64; simpl; lia|reflexivity].
Defined.

(** the amounts of an intent are written at most once: after a recorded
    capture (refund) no later call changes the captured (refunded) amount or
    clears the flag, whatever the state and the money it is called with. *)
Theorem intent_amounts_written_once i c i' o :
  call c (Some i) = (Some i', o) ->
  (captureRecorded i = true -> captureRecorded i' = true /\ capturedAmount i' = capturedAmount i) /\
  (refundRecorded i = true -> refundRecorded i' = true /\ refundedAmount i' = refundedAmount i) /\
  money i' = money i.
Proof.
  destruct c; simpl; intros H.
  - apply Transition_spec in H as (-> & -> & -> & -> & -> & _). done.
  - apply RecordCapture_spec in H as [[-> _]|(_ & Hf & _ & _ & ->)]; [done|]. simpl. rewrite Hf. done.
  - apply RecordRefund_spec in H as [[-> _]|(_ & Ht & Hf & _ & _ & ->)]; [done|]. simpl. rewrite Hf. done.
Qed.

Lemma intent_amounts_written_once_witness :
  exists i' o, call (CallRefund (mkMoney 7 "USD")) (Some (mkIntent (mkMoney 7 "USD") RefundPending 7 0 true false)) =
    (Some i', o) /\ capturedAmount i' = 7.
Proof.
  do 2 eexists. split; [reflexivity|].
  exact (proj2 (proj1 (intent_amounts_written_once (mkIntent (mkMoney 7 "USD") RefundPending 7 0 true false)
    (CallRefund (mkMoney 7 "USD")) _ _ eq_refl) eq_refl)).
Defined.

(** the intent machine has no dead end: exactly Cancelled, Failed and
    Expired are terminal, and from every state some sequence of allowed
    transitions ends in one of them; Completed is entered only from
    TicketIssuePending. *)
Theorem intent_machine_live s :
  (terminal intentTransitions s = true <-> s = Cancelled \/ s = Failed \/ s = Expired) /\
  (exists ts t, walk intentTransitions s ts = true /\ List.last (s :: ts) s = t /\
                terminal intentTransitions t = true) /\
  (Completed ∈ intentTransitions s -> s = TicketIssuePending).
Proof.
  split_and!.
  - destruct s; vm_compute; naive_solver.
  - destruct s;
      solve [ exists [], Cancelled; done | exists [], Failed; done | exists [], Expired; done
            | exists [Cancelled], Cancelled; done | exists [Failed], Failed; done
            | exists [ManualReview; Cancelled], Cancelled; done ].
  - destruct s; vm_compute; intros H; try done;
      repeat (inversion H as [|? ? ? H']; subst; clear H; try rename H' into H; try done).
Qed.

Lemma intent_machine_live_witness : exists s, Completed ∈ intentTransitions s /\ s = TicketIssuePending.
Proof.
  exists TicketIssuePending.
  assert (H : Completed ∈ intentTransitions TicketIssuePending) by (apply (bool_decide_unpack _); exact I).
  split; [exact H|]. exact (proj2 (proj2 (intent_machine_live TicketIssuePending)) H).
Defined.

End IntentModel.

Module OperationModel.

Inductive OperationType :=
| OperationCreateCheckout | OperationQueryStatus | OperationAuthorize | OperationCapture
| OperationVoid | OperationRefund
| OperationOther (raw : string).   (** any other string: OperationType is a string type *)

Inductive OperationState :=
| Pending | Claimed | InFlight | Succeeded | FailedRetryable | FailedPermanent | Uncertain | OpCancelled.

#[export] Instance OperationState_eq_dec : EqDecision OperationState.
Proof. solve_decision. Defined.

Inductive OperationError := ErrInvalidOperation | ErrInvalidOperationTransition.

Record Operation := mkOperation { kind : OperationType; opState : OperationState }.

Definition validOperationTypes (k : OperationType) : bool :=
  match k with OperationOther _ => false | _ => true end.

Definition NewOperation (k : OperationType) : res OperationError Operation :=
  failif negb (validOperationTypes k) with ErrInvalidOperation else
  Ok (mkOperation k Pending).

Definition operationTransitions (s : OperationState) : list OperationState :=
  match s with
  | Pending => [Claimed; OpCancelled]
  | Claimed => [InFlight; Pending; OpCancelled]
  | InFlight => [Succeeded; FailedRetryable; FailedPermanent; Uncertain]
  | FailedRetryable => [Pending; OpCancelled]
  | Uncertain => [Succeeded; FailedRetryable; FailedPermanent]
  | Succeeded | FailedPermanent | OpCancelled => []
  end.

Definition Transition (operation : option Operation) (next : OperationState)
    : option Operation * res OperationError bool :=
  match operation with
  | None => (None, Err ErrInvalidOperation)
  | Some op =>
      let '(s, o) := tableTransition operationTransitions ErrInvalidOperationTransition (opState op) next in
      (Some (mkOperation (kind op) s), o)
  end.

(** The operation after a sequence of Transition calls. *)
Definition transitionAll (ns : list OperationState) (op : Operation) : option Operation :=
  fold_left (fun o n => (Transition o n).1) ns (Some op).

Lemma transitionAll_attempts ns op :
  transitionAll ns op =
  Some (mkOperation (kind op) (attempts operationTransitions ErrInvalidOperationTransition (opState op) ns)).
Proof.
  unfold transitionAll, attempts. revert op. induction ns as [|n ns IH]; intros [k s]; [done|]. cbn [fold_left].
  unfold Transition at 2. cbn [opState kind]. destruct (tableTransition _ _ _ _) as [s' o] eqn:E. simpl.
  apply (IH (mkOperation k s')).
Qed.

(** a provider operation that was sent is never sent again while its outcome
    is unknown: whatever sequence of transitions is attempted from InFlight or
    Uncertain, unless FailedRetryable is among them the operation stays in
    flight, uncertain or settled, from where InFlight cannot be entered; and a
    settled operation never changes. *)
Theorem operation_not_resent_while_uncertain op ns :
  (opState op = InFlight \/ opState op = Uncertain -> FailedRetryable ∉ ns ->
   exists op', transitionAll ns op = Some op' /\ kind op' = kind op /\
     (opState op' = InFlight \/ opState op' = Uncertain \/ opState op' = Succeeded \/ opState op' = FailedPermanent) /\
     InFlight ∉ operationTransitions (opState op')) /\
  (opState op = Succeeded \/ opState op = FailedPermanent \/ opState op = OpCancelled ->
   transitionAll ns op = Some op).
Proof.
  rewrite transitionAll_attempts. split.
  - intros Hs Hn. eexists. split; [done|]. split; [done|]. cbn [opState].
    set (K := [InFlight; Uncertain; Succeeded; FailedPermanent]).
    assert (HK : attempts operationTransitions ErrInvalidOperationTransition (opState op) ns ∈ K).
    { apply (attempts_closed _ _ (fun n => negb (bool_decide (n = FailedRetryable)))); [reflexivity| |].
      - intros n Hin. apply negb_true_iff, bool_decide_eq_false. by intros ->.
      - unfold K. destruct Hs as [-> | ->]; set_solver. }
    unfold K in HK. generalize dependent (attempts operationTransitions ErrInvalidOperationTransition (opState op) ns).
    clear. intros t Ht. rewrite !elem_of_cons in Ht. split; [set_solver|].
    destruct Ht as [->|[->|[->|[->|Ht]]]]; [apply (bool_decide_unpack _); exact I..|set_solver].
  - intros Hs. destruct op as [k s]; cbn [opState kind] in *. do 2 f_equal.
    assert (attempts operationTransitions ErrInvalidOperationTransition s ns ∈ [s]) as ?%list_elem_of_singleton; [|done].
    apply (attempts_closed _ _ (fun _ => true)); [|done|set_solver].
    destruct Hs as [->|[->| ->]]; reflexivity.
Qed.

Lemma operation_not_resent_while_uncertain_witness :
  exists op', transitionAll [Pending; Succeeded] (mkOperation OperationCapture Uncertain) = Some op' /\
    InFlight ∉ operationTransitions (opState op').
Proof.
  destruct (proj1 (operation_not_resent_while_uncertain (mkOperation OperationCapture Uncertain) [Pending; Succeeded]))
    as (op' & H1 & _ & _ & H2).
  - right. reflexivity.
  - apply (bool_decide_unpack _). exact I.
  - exists op'. exact (conj H1 H2).
Defined.

End OperationModel.

Module SagaModel.

Inductive SagaState :=
| SagaCreated | SagaReservationSecured | SagaCheckoutCreated | SagaAwaitingProvider | SagaAuthorized
| SagaCapturing | SagaCaptured | SagaIssuingTickets | SagaCompleted | SagaCompensating | SagaRefunding
| SagaCompensated | SagaFailed | SagaManualReview.

#[export] Instance SagaState_eq_dec : EqDecision SagaState.
Proof. solve_decision. Defined.

Inductive SagaError := ErrInvalidSagaTransition.

(** [Saga] has the one field [state]. *)
Record Saga := mkSaga { sagaState : SagaState }.

Definition NewSaga : Saga := mkSaga SagaCreated.

Definition sagaTransitions (s : SagaState) : list SagaState :=
  match s with
  | SagaCreated => [SagaReservationSecured; SagaFailed; SagaManualReview]
  | SagaReservationSecured => [SagaCheckoutCreated; SagaFailed; SagaManualReview]
  | SagaCheckoutCreated => [SagaAwaitingProvider; SagaFailed; SagaManualReview]
  | SagaAwaitingProvider => [SagaAuthorized; SagaCompensating; SagaFailed; SagaManualReview]
  | SagaAuthorized => [SagaCapturing; SagaCompensating; SagaManualReview]
  | SagaCapturing => [SagaCaptured; SagaFailed; SagaManualReview]
  | SagaCaptured => [SagaIssuingTickets; SagaCompensating; SagaManualReview]
  | SagaIssuingTickets => [SagaCompleted; SagaCompensating; SagaFailed; SagaManualReview]
  | SagaCompensating => [SagaRefunding; SagaCompensated; SagaFailed; SagaManualReview]
  | SagaRefunding => [SagaCompensated; SagaFailed; SagaManualReview]
  | SagaManualReview => [SagaAwaitingProvider; SagaAuthorized; SagaCapturing; SagaCaptured; SagaIssuingTickets;
                         SagaCompensating; SagaRefunding; SagaCompleted; SagaCompensated; SagaFailed]
  | SagaCompleted | SagaCompensated | SagaFailed => []
  end.

Definition Transition (saga : option Saga) (next : SagaState) : option Saga * res SagaError bool :=
  match saga with
  | None => (None, Err ErrInvalidSagaTransition)
  | Some sg =>
      let '(s, o) := tableTransition sagaTransitions ErrInvalidSagaTransition (sagaState sg) next in
      (Some (mkSaga s), o)
  end.

Definition transitionAll (ns : list SagaState) (sg : Saga) : option Saga :=
  fold_left (fun o n => (Transition o n).1) ns (Some sg).

Lemma sagaTransitionAll_attempts ns sg :
  transitionAll ns sg = Some (mkSaga (attempts sagaTransitions ErrInvalidSagaTransition (sagaState sg) ns)).
Proof.
  unfold transitionAll, attempts. revert sg. induction ns as [|n ns IH]; intros [s]; [done|]. cbn [fold_left].
  unfold Transition at 2. cbn [sagaState]. destruct (tableTransition _ _ _ _) as [s' o] eqn:E. simpl.
  apply (IH (mkSaga s')).
Qed.

(** without an operator's manual review, a saga reaches ticket issuance or
    completion only through a recorded capture, and capture only through an
    authorization; completed, compensated and failed sagas are final. *)
Theorem saga_capture_before_tickets ns :
  (forall sg, transitionAll ns NewSaga = Some sg -> SagaManualReview ∉ ns ->
     (sagaState sg = SagaIssuingTickets \/ sagaState sg = SagaCompleted -> SagaCaptured ∈ ns) /\
     (sagaState sg = SagaCaptured \/ sagaState sg = SagaCompleted -> SagaAuthorized ∈ ns)) /\
  (forall s, s = SagaCompleted \/ s = SagaCompensated \/ s = SagaFailed ->
     transitionAll ns (mkSaga s) = Some (mkSaga s)).
Proof.
  split.
  - intros sg. rewrite sagaTransitionAll_attempts. intros [= <-] Hm. cbn [sagaState].
    assert (Hgen : forall x, x ∉ ns -> forall K, SagaCreated ∈ K ->
      closed sagaTransitions (fun n => negb (bool_decide (n = SagaManualReview)) && negb (bool_decide (n = x))) K = true ->
      attempts sagaTransitions ErrInvalidSagaTransition SagaCreated ns ∈ K).
    { intros x Hx K HK Hcl. eapply attempts_closed; [exact Hcl| |exact HK].
      intros n Hn. cbv beta. rewrite !bool_decide_eq_false_2; [done|by intros ->..]. }
    split; intros Hs.
    + destruct (decide (SagaCaptured ∈ ns)) as [?|Hx]; [done|exfalso]. specialize (Hgen SagaCaptured Hx [SagaCreated; SagaReservationSecured; SagaCheckoutCreated; SagaAwaitingProvider;
        SagaAuthorized; SagaCapturing; SagaCompensating; SagaRefunding; SagaCompensated; SagaFailed]
        ltac:(by left) eq_refl). destruct Hs as [Hs|Hs]; rewrite Hs in Hgen; revert Hgen; set_solver.
    + destruct (decide (SagaAuthorized ∈ ns)) as [?|Hx]; [done|exfalso]. specialize (Hgen SagaAuthorized Hx [SagaCreated; SagaReservationSecured; SagaCheckoutCreated; SagaAwaitingProvider;
        SagaCompensating; SagaRefunding; SagaCompensated; SagaFailed] ltac:(by left) eq_refl).
      destruct Hs as [Hs|Hs]; rewrite Hs in Hgen; revert Hgen; set_solver.
  - intros s Hs. rewrite sagaTransitionAll_attempts. cbn [sagaState]. do 2 f_equal.
    assert (attempts sagaTransitions ErrInvalidSagaTransition s ns ∈ [s]) as ?%list_elem_of_singleton; [|done].
    apply (attempts_closed _ _ (fun _ => true)); [|done|set_solver].
    destruct Hs as [->|[->| ->]]; reflexivity.
Qed.

Lemma saga_capture_before_tickets_witness :
  let ns := [SagaReservationSecured; SagaCheckoutCreated; SagaAwaitingProvider; SagaAuthorized;
             SagaCapturing; SagaCaptured; SagaIssuingTickets; SagaCompleted] in
  transitionAll ns NewSaga = Some (mkSaga SagaCompleted) /\ SagaCaptured ∈ ns.
Proof.
  cbv zeta. set (ns := [_; _; _; _; _; _; _; _]). split; [reflexivity|].
  assert (Hm : SagaManualReview ∉ ns) by (apply (bool_decide_unpack _); exact I).
  exact (proj1 (proj1 (saga_capture_before_tickets ns) (mkSaga SagaCompleted) eq_refl Hm) (or_intror eq_refl)).
Defined.

End SagaModel.
