(* ===== verification/Sharding.v ===== *)
(** * Sharding: routing values and migration state machines

    Module [ShardTypes] models [src/internal/sharding/types.go]; module
    [Logical] models [src/internal/sharding/migration/machine.go] (the
    quiesced logical-shard migration); module [Physical] models
    [src/internal/sharding/migration/physical_machine.go] (the cross-database
    migration with fencing, capture and reverse migration). *)

From S2P Require Import Prelude StateMachine.

Module ShardTypes.

Inductive ShardError := ErrInvalidShardID | ErrInvalidAssignmentGeneration | ErrInvalidShardRoute.

(** [ShardID] is a string type. *)
Definition ShardLegacy : string := "legacy".
Definition ShardZero : string := "shard-0".
Definition ShardOne : string := "shard-1".
Definition ShardPhysicalZero : string := "physical-shard-0".
Definition ShardPhysicalOne : string := "physical-shard-1".

Definition fixedShards : list string :=
  [ShardLegacy; ShardZero; ShardOne; ShardPhysicalZero; ShardPhysicalOne].

Definition ParseShardID (raw : string) : res ShardError string :=
  if bool_decide (raw ∈ fixedShards) then Ok raw else Err ErrInvalidShardID.

(** The loop of ParseShardIDs: [seen] and [result] hold the ids so far. *)
Fixpoint parseShardIDsLoop (raw : list string) (seen : gset string) (result : list string)
    : res ShardError (list string) :=
  match raw with
  | [] => Ok result
  | value :: rest =>
      let* id := ParseShardID value in
      failif bool_decide (id ∈ seen) with ErrInvalidShardID else
      parseShardIDsLoop rest ({[id]} ∪ seen) (result ++ [id])
  end.

Definition ParseShardIDs (raw : list string) : res ShardError (list string) :=
  failif Nat.eqb (length raw) 0 || (5 <? Z.of_nat (length raw)) with ErrInvalidShardID else
  parseShardIDsLoop raw ∅ [].

Definition NewAssignmentGeneration (value : Z) : res ShardError Z :=
  failif value <=? 0 with ErrInvalidAssignmentGeneration else Ok value.

Record ShardRoute := mkShardRoute { trainRunID : uuid; shardID : string; generation : Z }.

#[export] Instance ShardRoute_eq_dec : EqDecision ShardRoute.
Proof. solve_decision. Defined.

Definition NewShardRoute (run : uuid) (shard : string) (gen : Z) : res ShardError ShardRoute :=
  failif bool_decide (run = uuidNil) || (gen <=? 0) with ErrInvalidShardRoute else
  match ParseShardID shard with
  | Err _ => Err ErrInvalidShardRoute
  | Ok _ => Ok (mkShardRoute run shard gen)
  end.

Lemma ParseShardID_Ok raw id : ParseShardID raw = Ok id <-> id = raw /\ raw ∈ fixedShards.
Proof. unfold ParseShardID. case_bool_decide; naive_solver. Qed.

Lemma parseShardIDsLoop_spec raw seen result ids :
  (forall x, x ∈ seen <-> x ∈ result) -> NoDup result ->
  parseShardIDsLoop raw seen result = Ok ids <->
  ids = result ++ raw /\ NoDup (result ++ raw) /\ (forall x, x ∈ raw -> x ∈ fixedShards).
Proof.
  revert seen result. induction raw as [|v raw IH]; intros seen result Hs Hn; simpl.
  { rewrite app_nil_r. split; [intros [= <-]; set_solver|intros (-> & _); done]. }
  rewrite bind_Ok. setoid_rewrite ParseShardID_Ok. setoid_rewrite failif_Ok. split.
  - intros (x & [-> Hv] & Hd & Hl). apply bool_decide_eq_false in Hd. rewrite Hs in Hd.
    apply IH in Hl as (-> & Hnd & Hall); [|set_solver|].
    + rewrite <- !app_assoc in *. simpl in *. split_and!; auto. set_solver.
    + apply list.NoDup_app. split_and!; auto; [set_solver|]. apply NoDup_singleton.
  - intros (-> & Hnd & Hall). exists v. split; [set_solver|].
    assert (Hv : v ∉ result) by (apply list.NoDup_app in Hnd as (_ & Hd & _); intros Hc; apply (Hd v Hc); by left).
    split; [apply bool_decide_eq_false; by rewrite Hs|].
    apply IH; [set_solver| |].
    + apply list.NoDup_app. split_and!; auto; [set_solver|]. apply NoDup_singleton.
    + rewrite <- !app_assoc. simpl. split_and!; auto. set_solver.
Qed.

(** ParseShardIDs accepts exactly the non-empty duplicate-free lists of
    configured shard names, and returns them in the given order. *)
Theorem parse_shard_ids_exact raw ids :
  ParseShardIDs raw = Ok ids <->
  ids = raw /\ raw <> [] /\ NoDup raw /\ (forall x, x ∈ raw -> x ∈ fixedShards).
Proof.
  unfold ParseShardIDs. rewrite failif_Ok, parseShardIDsLoop_spec by (set_solver || constructor).
  simpl. split.
  - intros (H & -> & Hnd & Hall). split_and!; auto. intros ->. done.
  - intros (-> & Hne & Hnd & Hall). split_and!; auto.
    assert (length raw <= length fixedShards)%nat.
    { apply submseteq_length, NoDup_submseteq; auto. }
    destruct raw; [done|]. simpl in *. lia.
Qed.

End ShardTypes.

Module Logical.

Inductive State :=
| StatePlanned | StateDraining | StateCopying | StateValidating | StateCutoverReady | StateCuttingOver
| StateRollbackWindow | StateCompleted | StateFailed | StateRolledBack.

#[export] Instance State_eq_dec : EqDecision State.
Proof. solve_decision. Defined.

Inductive MigrationError :=
| ErrInvalidGeneration | ErrInvalidTransition | ErrTargetWriteGeneration | ErrTargetWriteState.

Record Machine := mkMachine { state : State; generation : Z; targetWriteEvidence : bool }.

Definition New (gen : Z) : res MigrationError Machine :=
  failif gen <=? 0 with ErrInvalidGeneration else
  Ok (mkMachine StatePlanned gen false).

(** The bool functions compare [next] with the constants the Go code lists. *)
Definition canTransition (current next : State) : bool :=
  match current with
  | StatePlanned => bool_decide (next ∈ [StateDraining; StateFailed; StateRolledBack])
  | StateDraining => bool_decide (next ∈ [StateCopying; StateFailed; StateRolledBack])
  | StateCopying => bool_decide (next ∈ [StateValidating; StateFailed; StateRolledBack])
  | StateValidating => bool_decide (next ∈ [StateCutoverReady; StateFailed; StateRolledBack])
  | StateCutoverReady => bool_decide (next ∈ [StateCuttingOver; StateFailed; StateRolledBack])
  | StateCuttingOver => bool_decide (next ∈ [StateRollbackWindow; StateFailed])
  | StateRollbackWindow => bool_decide (next ∈ [StateCompleted; StateFailed; StateRolledBack])
  | _ => false
  end.

Definition RecordTargetWrite (m : Machine) (gen : Z) : res MigrationError Machine :=
  failif gen <=? 0 with ErrInvalidGeneration else
  failif negb (gen =? generation m) with ErrTargetWriteGeneration else
  failif negb (bool_decide (state m = StateCuttingOver)) && negb (bool_decide (state m = StateRollbackWindow))
    with ErrTargetWriteState else
  Ok (mkMachine (state m) (generation m) true).

Definition Transition (m : Machine) (next : State) : res MigrationError Machine :=
  failif bool_decide (state m = StateRollbackWindow) && bool_decide (next = StateRolledBack) && targetWriteEvidence m
    with ErrInvalidTransition else
  failif negb (canTransition (state m) next) with ErrInvalidTransition else
  Ok (mkMachine next (generation m) (targetWriteEvidence m)).

(** The machines a sequence of successful calls can produce (a refused call
    changes nothing). *)
Inductive reachable (gen : Z) : Machine -> Prop :=
| reach_new m : New gen = Ok m -> reachable gen m
| reach_write m g m' : reachable gen m -> RecordTargetWrite m g = Ok m' -> reachable gen m'
| reach_trans m n m' : reachable gen m -> Transition m n = Ok m' -> reachable gen m'.

Definition evidence_ok (m : Machine) : Prop :=
  targetWriteEvidence m = true ->
  state m ∈ [StateCuttingOver; StateRollbackWindow; StateCompleted; StateFailed].

Lemma reachable_inv gen m : reachable gen m -> generation m = gen /\ 0 < gen /\ evidence_ok m.
Proof.
  unfold evidence_ok. induction 1 as [m H|m g m' Hr (IHg & IHp & IHe) H|m n m' Hr (IHg & IHp & IHe) H].
  - unfold New in H. inv_ok. subst m. simpl. split_and!; [done|lia|done].
  - unfold RecordTargetWrite in H. inv_ok. subst m'. simpl. split_and!; auto. intros _.
    apply andb_false_iff in H2. rewrite !negb_false_iff, !bool_decide_eq_true in H2.
    destruct H2 as [-> | ->]; set_solver.
  - unfold Transition in H. inv_ok. subst m'. simpl. split_and!; auto. intros He. specialize (IHe He).
    rewrite He in H0. destruct (state m), n; simpl in *; try done; try set_solver;
      by (apply (bool_decide_unpack _); exact I).
Qed.

(** in every reachable logical migration the fencing generation is the
    positive one it was created with; evidence of a target write exists only
    once cutover began, and a migration with such evidence is never rolled
    back directly (it needs a reverse migration). *)
Theorem logical_migration_evidence gen m :
  reachable gen m ->
  generation m = gen /\ 0 < gen /\
  (targetWriteEvidence m = true ->
     state m ∈ [StateCuttingOver; StateRollbackWindow; StateCompleted; StateFailed] /\
     is_ok (Transition m StateRolledBack) = false).
Proof.
  intros (Hg & Hp & He)%reachable_inv. split_and!; [done..|]. intros Ht. split; [by apply He|].
  specialize (He Ht). unfold Transition. rewrite Ht.
  destruct (state m); simpl; try done; exfalso; revert He; set_solver.
Qed.

Lemma logical_migration_evidence_witness :
  is_ok (Transition (mkMachine StateRollbackWindow 4 true) StateRolledBack) = false.
Proof.
  refine (proj2 (proj2 (proj2 (logical_migration_evidence 4 (mkMachine StateRollbackWindow 4 true) _)) eq_refl)).
  apply (reach_write 4 (mkMachine StateRollbackWindow 4 false) 4); [|reflexivity].
  apply (reach_trans 4 (mkMachine StateCuttingOver 4 false) StateRollbackWindow); [|reflexivity].
  apply (reach_trans 4 (mkMachine StateCutoverReady 4 false) StateCuttingOver); [|reflexivity].
  apply (reach_trans 4 (mkMachine StateValidating 4 false) StateCutoverReady); [|reflexivity].
  apply (reach_trans 4 (mkMachine StateCopying 4 false) StateValidating); [|reflexivity].
  apply (reach_trans 4 (mkMachine StateDraining 4 false) StateCopying); [|reflexivity].
  apply (reach_trans 4 (mkMachine StatePlanned 4 false) StateDraining); [|reflexivity].
  apply reach_new. reflexivity.
Defined.

End Logical.

Module Physical.
Import Logical.

(** [PhysicalState] is a string type: [PhysicalStateOther] is any string that
    is none of the named constants. *)
Inductive PhysicalState :=
| PhysicalStatePlanned | PhysicalStatePreparingTarget | PhysicalStateCaptureEnabled | PhysicalStateBaseCopying
| PhysicalStateCatchingUp | PhysicalStateValidatingOnline | PhysicalStateDraining | PhysicalStateSourceFenced
| PhysicalStateFinalCatchup | PhysicalStateFinalValidating | PhysicalStateTargetEnabled
| PhysicalStateSwitchingAssignment | PhysicalStateRollbackWindow | PhysicalStateCompleted
| PhysicalStateReverseMigrationRequired | PhysicalStateFailed | PhysicalStateRolledBack
| PhysicalStateOther (raw : string).

#[export] Instance PhysicalState_eq_dec : EqDecision PhysicalState.
Proof. solve_decision. Defined.

Inductive PhysicalError :=
| PErrInvalidGeneration | PErrTargetWriteGeneration | PErrTargetWriteState
| ErrInvalidPhysicalTransition | ErrInvalidPhysicalSnapshot | ErrPhysicalReverseMigrationRequired
| ErrPhysicalReverseGenerationNotNewer.

Record PhysicalSnapshot := mkSnapshot {
  State : PhysicalState; Generation : Z; TargetWriteEvidence : bool }.

Record PhysicalMachine := mkPhysical { snapshot : PhysicalSnapshot }.

Definition NewPhysical (generation : Z) : res PhysicalError PhysicalMachine :=
  failif generation <=? 0 with PErrInvalidGeneration else
  Ok (mkPhysical (mkSnapshot PhysicalStatePlanned generation false)).

Definition isPhysicalState (state : PhysicalState) : bool :=
  match state with PhysicalStateOther _ => false | _ => true end.

Definition canContainTargetWriteEvidence (state : PhysicalState) : bool :=
  match state with
  | PhysicalStateSwitchingAssignment | PhysicalStateRollbackWindow | PhysicalStateCompleted
  | PhysicalStateReverseMigrationRequired | PhysicalStateFailed => true
  | _ => false
  end.

Definition RestorePhysical (s : PhysicalSnapshot) : res PhysicalError PhysicalMachine :=
  failif Generation s <=? 0 with PErrInvalidGeneration else
  failif negb (isPhysicalState (State s)) with ErrInvalidPhysicalSnapshot else
  failif TargetWriteEvidence s && negb (canContainTargetWriteEvidence (State s))
    with ErrInvalidPhysicalSnapshot else
  Ok (mkPhysical s).

Definition Snapshot (m : PhysicalMachine) : PhysicalSnapshot := snapshot m.

Definition setState (m : PhysicalMachine) (s : PhysicalState) : PhysicalMachine :=
  mkPhysical (mkSnapshot s (Generation (snapshot m)) (TargetWriteEvidence (snapshot m))).

Definition RecordTargetWrite (m : PhysicalMachine) (generation : Z) : res PhysicalError PhysicalMachine :=
  failif generation <=? 0 with PErrInvalidGeneration else
  failif negb (generation =? Generation (snapshot m)) with PErrTargetWriteGeneration else
  let st := State (snapshot m) in
  failif negb (bool_decide (st = PhysicalStateSwitchingAssignment)) &&
         negb (bool_decide (st = PhysicalStateRollbackWindow)) &&
         negb (bool_decide (st = PhysicalStateCompleted)) &&
         negb (bool_decide (st = PhysicalStateReverseMigrationRequired)) with PErrTargetWriteState else
  Ok (mkPhysical (mkSnapshot st (Generation (snapshot m)) true)).

(** The result is the receiver as the method leaves it and the new machine. *)
Definition StartReverseMigration (m : PhysicalMachine) (generation : Z)
    : res PhysicalError (PhysicalMachine * PhysicalMachine) :=
  failif generation <=? Generation (snapshot m) with ErrPhysicalReverseGenerationNotNewer else
  failif negb (TargetWriteEvidence (snapshot m)) with ErrInvalidPhysicalTransition else
  let st := State (snapshot m) in
  failif negb (bool_decide (st = PhysicalStateRollbackWindow)) &&
         negb (bool_decide (st = PhysicalStateCompleted)) &&
         negb (bool_decide (st = PhysicalStateReverseMigrationRequired)) with ErrInvalidPhysicalTransition else
  let* reverse := NewPhysical generation in
  Ok (setState m PhysicalStateReverseMigrationRequired, reverse).

Definition canFailPhysical (state : PhysicalState) : bool :=
  match state with
  | PhysicalStatePlanned | PhysicalStatePreparingTarget | PhysicalStateCaptureEnabled
  | PhysicalStateBaseCopying | PhysicalStateCatchingUp | PhysicalStateValidatingOnline
  | PhysicalStateDraining | PhysicalStateSourceFenced | PhysicalStateFinalCatchup
  | PhysicalStateFinalValidating | PhysicalStateTargetEnabled | PhysicalStateSwitchingAssignment
  | PhysicalStateRollbackWindow => true
  | _ => false
  end.

Definition canDirectRollbackPhysical (state : PhysicalState) : bool :=
  match state with
  | PhysicalStatePlanned | PhysicalStatePreparingTarget | PhysicalStateCaptureEnabled
  | PhysicalStateBaseCopying | PhysicalStateCatchingUp | PhysicalStateValidatingOnline
  | PhysicalStateDraining | PhysicalStateSourceFenced | PhysicalStateFinalCatchup
  | PhysicalStateFinalValidating | PhysicalStateTargetEnabled | PhysicalStateSwitchingAssignment
  | PhysicalStateRollbackWindow => true
  | _ => false
  end.

Definition canTransitionPhysical (current next : PhysicalState) : bool :=
  match current with
  | PhysicalStatePlanned => bool_decide (next = PhysicalStatePreparingTarget)
  | PhysicalStatePreparingTarget => bool_decide (next = PhysicalStateCaptureEnabled)
  | PhysicalStateCaptureEnabled => bool_decide (next = PhysicalStateBaseCopying)
  | PhysicalStateBaseCopying => bool_decide (next = PhysicalStateCatchingUp)
  | PhysicalStateCatchingUp => bool_decide (next = PhysicalStateValidatingOnline)
  | PhysicalStateValidatingOnline => bool_decide (next = PhysicalStateDraining)
  | PhysicalStateDraining => bool_decide (next = PhysicalStateSourceFenced)
  | PhysicalStateSourceFenced => bool_decide (next = PhysicalStateFinalCatchup)
  | PhysicalStateFinalCatchup => bool_decide (next = PhysicalStateFinalValidating)
  | PhysicalStateFinalValidating => bool_decide (next = PhysicalStateTargetEnabled)
  | PhysicalStateTargetEnabled => bool_decide (next = PhysicalStateSwitchingAssignment)
  | PhysicalStateSwitchingAssignment => bool_decide (next = PhysicalStateRollbackWindow)
  | PhysicalStateRollbackWindow =>
      bool_decide (next = PhysicalStateCompleted) || bool_decide (next = PhysicalStateRolledBack)
  | _ => false
  end.

Definition Transition (m : PhysicalMachine) (next : PhysicalState) : res PhysicalError PhysicalMachine :=
  let st := State (snapshot m) in
  failif bool_decide (next = PhysicalStateRolledBack) && TargetWriteEvidence (snapshot m)
    with ErrPhysicalReverseMigrationRequired else
  if bool_decide (next = PhysicalStateRolledBack) && canDirectRollbackPhysical st then Ok (setState m next) else
  if bool_decide (next = PhysicalStateFailed) && canFailPhysical st then Ok (setState m next) else
  failif negb (canTransitionPhysical st next) with ErrInvalidPhysicalTransition else
  Ok (setState m next).

(** A machine with the states it has been in, newest first.  A crash keeps the
    durable snapshot and restores the machine from it. *)
Inductive run (gen : Z) : list PhysicalState -> PhysicalMachine -> Prop :=
| run_new m : NewPhysical gen = Ok m -> run gen [State (snapshot m)] m
| run_write h m g m' : run gen h m -> RecordTargetWrite m g = Ok m' -> run gen h m'
| run_step h m n m' : run gen h m -> Transition m n = Ok m' -> run gen (n :: h) m'
| run_reverse h m g m' r : run gen h m -> StartReverseMigration m g = Ok (m', r) ->
    run gen (State (snapshot m') :: h) m'
| run_crash h m m' : run gen h m -> RestorePhysical (Snapshot m) = Ok m' -> run gen h m'.

(** The checkpoints of the forward protocol in order. *)
Definition forward : list PhysicalState :=
  [PhysicalStatePlanned; PhysicalStatePreparingTarget; PhysicalStateCaptureEnabled; PhysicalStateBaseCopying;
   PhysicalStateCatchingUp; PhysicalStateValidatingOnline; PhysicalStateDraining; PhysicalStateSourceFenced;
   PhysicalStateFinalCatchup; PhysicalStateFinalValidating; PhysicalStateTargetEnabled;
   PhysicalStateSwitchingAssignment; PhysicalStateRollbackWindow; PhysicalStateCompleted].

(** The checkpoints that must have been passed before a state. *)
Definition needed (s : PhysicalState) : nat :=
  match s with
  | PhysicalStatePlanned => 0 | PhysicalStatePreparingTarget => 1 | PhysicalStateCaptureEnabled => 2
  | PhysicalStateBaseCopying => 3 | PhysicalStateCatchingUp => 4 | PhysicalStateValidatingOnline => 5
  | PhysicalStateDraining => 6 | PhysicalStateSourceFenced => 7 | PhysicalStateFinalCatchup => 8
  | PhysicalStateFinalValidating => 9 | PhysicalStateTargetEnabled => 10
  | PhysicalStateSwitchingAssignment => 11 | PhysicalStateRollbackWindow => 12 | PhysicalStateCompleted => 13
  | PhysicalStateReverseMigrationRequired => 13
  | PhysicalStateFailed | PhysicalStateRolledBack | PhysicalStateOther _ => 0
  end.

Definition machine_ok (gen : Z) (h : list PhysicalState) (m : PhysicalMachine) : Prop :=
  Generation (snapshot m) = gen /\ 0 < gen /\ isPhysicalState (State (snapshot m)) = true /\
  (TargetWriteEvidence (snapshot m) = true -> canContainTargetWriteEvidence (State (snapshot m)) = true) /\
  State (snapshot m) ∈ h /\ take (needed (State (snapshot m))) forward ⊆ h.

Lemma transition_step m next m' :
  Transition m next = Ok m' ->
  m' = setState m next /\ isPhysicalState next = true /\
  (TargetWriteEvidence (snapshot m) = true -> next <> PhysicalStateRolledBack) /\
  (canContainTargetWriteEvidence (State (snapshot m)) = true ->
     next = PhysicalStateRolledBack \/ canContainTargetWriteEvidence next = true) /\
  (needed next = 0%nat \/
   needed next = S (needed (State (snapshot m))) /\
   forward !! needed (State (snapshot m)) = Some (State (snapshot m))).
Proof.
  unfold Transition. destruct m as [[st g e]]. cbn [snapshot State TargetWriteEvidence].
  destruct (bool_decide (next = PhysicalStateRolledBack)) eqn:E1; cbn [andb].
  { apply bool_decide_eq_true in E1 as ->. destruct e; [done|].
    intros H. assert (m' = setState (mkPhysical (mkSnapshot st g false)) PhysicalStateRolledBack).
    { destruct (canDirectRollbackPhysical st); [congruence|]. by apply failif_Ok in H as [_ [= <-]]. }
    naive_solver. }
  apply bool_decide_eq_false in E1.
  destruct (bool_decide (next = PhysicalStateFailed)) eqn:E2; cbn [andb].
  { apply bool_decide_eq_true in E2 as ->.
    intros H. assert (m' = setState (mkPhysical (mkSnapshot st g e)) PhysicalStateFailed).
    { destruct (canFailPhysical st); [congruence|]. by apply failif_Ok in H as [_ [= <-]]. }
    naive_solver. }
  intros [Hc [= <-]]%failif_Ok. apply negb_false_iff in Hc. split; [done|].
  assert (Hd : (isPhysicalState next && implb (canContainTargetWriteEvidence st)
      (bool_decide (next = PhysicalStateRolledBack) || canContainTargetWriteEvidence next) &&
      ((needed next =? 0)%nat || (needed next =? S (needed st))%nat && bool_decide (forward !! needed st = Some st)))
      = true).
  { destruct st; cbn [canTransitionPhysical] in Hc; try discriminate Hc;
      try (apply orb_true_iff in Hc as [Hc|Hc]); apply bool_decide_eq_true in Hc as ->; reflexivity. }
  apply andb_true_iff in Hd as [[Hi Hk]%andb_true_iff Hn].
  split_and!; [done|done| |].
  - intros Hcan. rewrite Hcan in Hk. simpl in Hk. apply orb_true_iff in Hk as [?%bool_decide_eq_true|?]; auto.
  - apply orb_true_iff in Hn as [?%Nat.eqb_eq|[?%Nat.eqb_eq ?%bool_decide_eq_true]%andb_true_iff]; auto.
Qed.

Lemma run_ok gen h m : run gen h m -> machine_ok gen h m.
Proof.
  unfold machine_ok.
  induction 1 as [m H|h m g m' _ IH H|h m n m' _ IH H|h m g m' r _ IH H|h m m' _ IH H].
  - unfold NewPhysical in H. inv_ok. subst m. simpl. split_and!; try done; [lia|set_solver|set_solver].
  - unfold RecordTargetWrite in H. inv_ok. subst m'. destruct m as [[st g' e]]; simpl in *.
    destruct IH as (? & ? & ? & ? & ? & ?). split_and!; auto. intros _.
    destruct st; simpl in *; done.
  - destruct IH as (IHg & IHp & IHi & IHe & IHs & IHn).
    apply transition_step in H as (-> & Hi & Hev & Hcan & Hneed). simpl. split_and!; auto; [|set_solver|].
    + intros He. specialize (IHe He). destruct (Hcan IHe); [exfalso; naive_solver|done].
    + destruct Hneed as [->|[-> Hl]]; [set_solver|]. rewrite (take_S_r _ _ _ Hl). set_solver.
  - destruct IH as (IHg & IHp & IHi & IHe & IHs & IHn). unfold StartReverseMigration in H. inv_ok.
    subst m' r. simpl. split_and!; auto; [set_solver|].
    destruct m as [[st g' e]]; cbn [snapshot State] in *.
    assert (take 13 forward ⊆ h); [|set_solver].
    destruct st; try discriminate; try exact IHn.
    change 13%nat with (S (needed PhysicalStateRollbackWindow)).
    rewrite (take_S_r forward (needed PhysicalStateRollbackWindow) PhysicalStateRollbackWindow eq_refl). set_solver.
  - unfold RestorePhysical, Snapshot in H. inv_ok. subst m'. exact IH.
Qed.

(** C40: a physical (cross-database) migration enables its target, switches the
    assignment or completes only after the source was fenced, the final
    catch-up ran and the final validation was passed; a machine with evidence
    of a target write is never rolled back directly; and a durable snapshot of
    any machine the protocol produces restores to that machine. *)
Theorem physical_migration_safe gen h m :
  run gen h m ->
  (State (snapshot m) ∈ [PhysicalStateTargetEnabled; PhysicalStateSwitchingAssignment;
       PhysicalStateRollbackWindow; PhysicalStateCompleted; PhysicalStateReverseMigrationRequired] ->
     [PhysicalStateCaptureEnabled; PhysicalStateSourceFenced; PhysicalStateFinalCatchup;
      PhysicalStateFinalValidating] ⊆ h) /\
  (TargetWriteEvidence (snapshot m) = true ->
     State (snapshot m) <> PhysicalStateRolledBack /\
     Transition m PhysicalStateRolledBack = Err ErrPhysicalReverseMigrationRequired) /\
  RestorePhysical (Snapshot m) = Ok m.
Proof.
  intros (Hg & Hp & Hi & He & Hs & Hn)%run_ok. split_and!.
  - intros Hst. assert (10 <= needed (State (snapshot m)))%nat.
    { clear -Hst. destruct (State (snapshot m)); simpl; try lia; revert Hst; set_solver. }
    assert (take 10 forward ⊆ h); [|set_solver].
    etrans; [|exact Hn]. replace 10%nat with (10 `min` needed (State (snapshot m)))%nat by lia.
    rewrite <- take_take. apply list.subseteq_take.
  - intros Ht. specialize (He Ht). split; [by intros Hr; rewrite Hr in He|].
    unfold Transition. by rewrite Ht, bool_decide_eq_true_2.
  - unfold RestorePhysical, Snapshot. rewrite Hg. destruct (gen <=? 0) eqn:?; [lia|]. rewrite Hi. simpl.
    destruct (TargetWriteEvidence (snapshot m)) eqn:Ht; [rewrite He by done|]; by destruct m.
Qed.

Lemma physical_migration_safe_witness :
  let m := mkPhysical (mkSnapshot PhysicalStateTargetEnabled 7 false) in
  RestorePhysical (Snapshot m) = Ok m.
Proof.
  intros m. refine (proj2 (proj2 (physical_migration_safe 7 (rev (take 11 forward)) m _))).
  assert (Hgo : forall h st n, run 7 h (mkPhysical (mkSnapshot st 7 false)) -> canTransitionPhysical st n = true ->
     bool_decide (n = PhysicalStateRolledBack) || bool_decide (n = PhysicalStateFailed) = false ->
     run 7 (n :: h) (mkPhysical (mkSnapshot n 7 false))).
  { intros h st n Hr Hc Hb. apply orb_false_iff in Hb as [Hb1 Hb2].
    eapply run_step; [exact Hr|]. unfold Transition. rewrite Hb1, Hb2. simpl. by rewrite Hc. }
  cbn [take rev forward app]. unfold m.
  apply (Hgo _ PhysicalStateFinalValidating); [|reflexivity|reflexivity].
  apply (Hgo _ PhysicalStateFinalCatchup); [|reflexivity|reflexivity].
  apply (Hgo _ PhysicalStateSourceFenced); [|reflexivity|reflexivity].
  apply (Hgo _ PhysicalStateDraining); [|reflexivity|reflexivity].
  apply (Hgo _ PhysicalStateValidatingOnline); [|reflexivity|reflexivity].
  apply (Hgo _ PhysicalStateCatchingUp); [|reflexivity|reflexivity].
  apply (Hgo _ PhysicalStateBaseCopying); [|reflexivity|reflexivity].
  apply (Hgo _ PhysicalStateCaptureEnabled); [|reflexivity|reflexivity].
  apply (Hgo _ PhysicalStatePreparingTarget); [|reflexivity|reflexivity].
  apply (Hgo _ PhysicalStatePlanned); [|reflexivity|reflexivity].
  apply (run_new 7 (mkPhysical (mkSnapshot PhysicalStatePlanned 7 false))). reflexivity.
Defined.

(** StartReverseMigration succeeds exactly on a machine with write
    evidence that owns its target (rollback window, completed or already
    marked) and for a strictly newer generation; the new
    machine starts its own protocol at that generation, and the old one stays
    in reverse_migration_required, which no call leaves. *)
Theorem reverse_migration_newer m gen :
  0 <= Generation (snapshot m) ->
  (is_ok (StartReverseMigration m gen) = true <->
   Generation (snapshot m) < gen /\ TargetWriteEvidence (snapshot m) = true /\
   State (snapshot m) ∈ [PhysicalStateRollbackWindow; PhysicalStateCompleted; PhysicalStateReverseMigrationRequired]) /\
  (forall m' r, StartReverseMigration m gen = Ok (m', r) ->
     snapshot r = mkSnapshot PhysicalStatePlanned gen false /\
     State (snapshot m') = PhysicalStateReverseMigrationRequired /\
     (forall n, is_ok (Transition m' n) = false)).
Proof.
  intros Hgen. split.
  - unfold StartReverseMigration, NewPhysical. destruct (Z.leb_spec gen (Generation (snapshot m))) as [Hle|Hlt];
      [split; [done|lia]|]. replace (gen <=? 0) with false by lia.
    destruct (TargetWriteEvidence (snapshot m)); [|split; [done|by intros (_ & ? & _)]]. cbn [negb].
    split.
    + intros H. split_and!; [done|done|]. by destruct (State (snapshot m)); try discriminate H; repeat constructor.
    + intros (_ & _ & H). repeat (apply elem_of_cons in H as [->|H]; [reflexivity|]). by apply not_elem_of_nil in H.
  - unfold StartReverseMigration, NewPhysical. intros m' r H. inv_ok. subst.
    assert (Hev : TargetWriteEvidence (snapshot m) = true) by (by apply negb_false_iff).
    split_and!; [done|done|]. intros n. unfold Transition. simpl. rewrite Hev, !andb_false_r, andb_true_r.
    by destruct (bool_decide (n = PhysicalStateRolledBack)).
Qed.

Lemma reverse_migration_newer_witness :
  is_ok (StartReverseMigration (mkPhysical (mkSnapshot PhysicalStateRollbackWindow 3 true)) 4) = true.
Proof.
  apply (proj1 (reverse_migration_newer (mkPhysical (mkSnapshot PhysicalStateRollbackWindow 3 true)) 4 ltac:(cbn; lia))).
  cbn. split_and!; [lia|done|repeat constructor].
Defined.

End Physical.
