(* ===== verification/RouteCache.v ===== *)
(** * The bounded process-local route cache

    Models [src/internal/sharding/routecache/cache.go].  A [*list.Element] of
    container/list is an address into a heap [values]; [entries] and [lru] hold
    addresses, as the Go maps and lists hold pointers, so that an update of
    [element.Value] is seen through both.  Each method runs under the mutex;
    the readings of the injected clock are arguments.  The abstract cache is a
    recency list of entries with distinct keys. *)

From S2P Require Import Prelude Sharding.
Import ShardTypes.

Inductive CacheError := ErrNonPositiveTTL | ErrNonPositiveMaxEntries | ErrInvalidRoute.

Record Config := mkConfig { Enabled : bool; TTL : Z; MaxEntries : Z }.

Record entry := mkEntry { key : uuid; route : ShardRoute; expiresAt : Z }.

Record Cache := mkCache {
  enabled : bool;
  ttl : Z;
  max : Z;
  entries : gmap uuid nat;
  lru : list nat;                (** front first *)
  values : gmap nat entry;       (** the elements ever allocated *)
  nextElement : nat
}.

Definition New (config : Config) : res CacheError Cache :=
  failif Enabled config && (TTL config <=? 0) with ErrNonPositiveTTL else
  failif Enabled config && (MaxEntries config <=? 0) with ErrNonPositiveMaxEntries else
  Ok (mkCache (Enabled config) (TTL config) (MaxEntries config) ∅ [] ∅ 0).

(** container/list *)
Definition without (e : nat) (l : list nat) : list nat := filter (fun x => x <> e) l.
Definition MoveToFront (e : nat) (l : list nat) : list nat :=
  if bool_decide (e ∈ l) then e :: without e l else l.

Definition setLists (c : Cache) (es : gmap uuid nat) (l : list nat) : Cache :=
  mkCache (enabled c) (ttl c) (max c) es l (values c) (nextElement c).

Definition remove (c : Cache) (element : option nat) : Cache :=
  match element with
  | None => c
  | Some e =>
      match values c !! e with
      | Some stored => setLists c (delete (key stored) (entries c)) (without e (lru c))
      | None => c
      end
  end.

Definition Get (c : Cache) (trainRunID : uuid) (now : Z) : option ShardRoute * Cache :=
  if negb (enabled c) then (None, c) else
  match entries c !! trainRunID with
  | None => (None, c)
  | Some element =>
      match values c !! element with
      | None => (None, c)
      | Some stored =>
          if negb (now <? expiresAt stored) then (None, remove c (Some element))
          else (Some (route stored), setLists c (entries c) (MoveToFront element (lru c)))
      end
  end.

Definition Put (c : Cache) (rt : ShardRoute) (now : Z) : res CacheError Cache :=
  if negb (enabled c) then Ok c else
  let run := trainRunID rt in
  failif bool_decide (run = uuidNil) || (generation rt <=? 0) with ErrInvalidRoute else
  match ParseShardID (shardID rt) with
  | Err _ => Err ErrInvalidRoute
  | Ok _ =>
      let value := mkEntry run rt (now + ttl c) in
      match entries c !! run with
      | Some element =>
          Ok (mkCache (enabled c) (ttl c) (max c) (entries c) (MoveToFront element (lru c))
                (<[element := value]> (values c)) (nextElement c))
      | None =>
          let c := if Z.of_nat (length (lru c)) =? max c then remove c (list.last (lru c)) else c in
          let e := nextElement c in
          Ok (mkCache (enabled c) (ttl c) (max c) (<[run := e]> (entries c)) (e :: lru c)
                (<[e := value]> (values c)) (S e))
      end
  end.

Definition Invalidate (c : Cache) (trainRunID : uuid) : Cache :=
  if negb (enabled c) then c else
  match entries c !! trainRunID with
  | Some element => remove c (Some element)
  | None => c
  end.

(** ** The abstract cache *)
Definition hasKey (k : uuid) (en : entry) : bool := bool_decide (key en = k).
Definition dropKey (k : uuid) (l : list entry) : list entry := filter (fun en => key en <> k) l.

Definition specGet (l : list entry) (k : uuid) (now : Z) : option ShardRoute * list entry :=
  match List.find (hasKey k) l with
  | None => (None, l)
  | Some en => if now <? expiresAt en then (Some (route en), en :: dropKey k l) else (None, dropKey k l)
  end.

Definition specPut (cap : Z) (l : list entry) (en : entry) : list entry :=
  match List.find (hasKey (key en)) l with
  | Some _ => en :: dropKey (key en) l
  | None => en :: (if Z.of_nat (length l) =? cap then removelast l else l)
  end.

Definition absList (v : gmap nat entry) (l : list nat) : list entry := omap (fun e => v !! e) l.
Definition abs (c : Cache) : list entry := absList (values c) (lru c).

(** The representation invariant. *)
Record wf (c : Cache) : Prop := {
  wf_max : enabled c = true -> 0 < max c;
  wf_nodup : NoDup (lru c);
  wf_fresh : forall e, (nextElement c <= e)%nat -> values c !! e = None;
  wf_entries : forall k e, entries c !! k = Some e <-> e ∈ lru c /\ (key <$> values c !! e) = Some k;
  wf_alloc : forall e, e ∈ lru c -> is_Some (values c !! e);
  wf_size : Z.of_nat (length (lru c)) <= Z.max 0 (max c)
}.

Lemma absList_cons v x l en : v !! x = Some en -> absList v (x :: l) = en :: absList v l.
Proof. unfold absList. simpl. by intros ->. Qed.

Lemma absList_ext v v' l : (forall e, e ∈ l -> v !! e = v' !! e) -> absList v l = absList v' l.
Proof.
  unfold absList. intros H. induction l as [|e l IH]; [done|]. simpl. rewrite <- (H e) by (by left).
  destruct (v !! e); [f_equal|]; apply IH; intros; apply H; by right.
Qed.

Lemma absList_length v l : (forall e, e ∈ l -> is_Some (v !! e)) -> length (absList v l) = length l.
Proof.
  unfold absList. induction l as [|e l IH]; [done|]. intros H. simpl.
  destruct (H e) as [en He]; [by left|]. rewrite He. simpl. f_equal. apply IH. intros; apply H; by right.
Qed.

(** Removing an element is removing its key when keys determine elements. *)
Lemma absList_without v l e k :
  (forall x, x ∈ l -> exists en, v !! x = Some en /\ (x = e <-> key en = k)) ->
  absList v (without e l) = dropKey k (absList v l).
Proof.
  unfold without, dropKey. induction l as [|x l IH]; [done|]. intros H.
  destruct (H x) as (en & Hx & Hk); [by left|]. rewrite (absList_cons _ _ _ _ Hx).
  assert (IH' := IH ltac:(intros; apply H; by right)). rewrite !filter_cons.
  repeat case_decide; rewrite ?(absList_cons _ _ _ _ Hx), ?IH'; naive_solver.
Qed.

Lemma wf_unique c k e : wf c -> entries c !! k = Some e ->
  forall x, x ∈ lru c -> exists en, values c !! x = Some en /\ (x = e <-> key en = k).
Proof.
  intros Hwf He x Hx. destruct (wf_alloc c Hwf x Hx) as [en Hen]. exists en. split; [done|].
  destruct (proj1 (wf_entries c Hwf k e) He) as [Hin Hv]. split.
  - intros ->. rewrite Hen in Hv. naive_solver.
  - intros Hk. assert (entries c !! k = Some x) as Hx'.
    { apply (wf_entries c Hwf). by rewrite Hen, <- Hk. }
    congruence.
Qed.

Lemma find_absList v l e k en :
  (forall x, x ∈ l -> exists y, v !! x = Some y /\ (x = e <-> key y = k)) ->
  e ∈ l -> v !! e = Some en -> List.find (hasKey k) (absList v l) = Some en.
Proof.
  unfold hasKey. intros H Hin Hv. induction l as [|x l IH]; [by apply not_elem_of_nil in Hin|].
  destruct (H x) as (y & Hx & Hk); [by left|]. rewrite (absList_cons _ _ _ _ Hx). simpl. case_bool_decide as Hy.
  - apply Hk in Hy. congruence.
  - apply IH; [intros; apply H; by right|]. set_solver.
Qed.

Lemma find_absent c k : wf c -> entries c !! k = None -> List.find (hasKey k) (abs c) = None.
Proof.
  intros Hwf Hk. destruct (List.find (hasKey k) (abs c)) as [en|] eqn:E; [|done].
  apply find_some in E as [Hin Hkey]. unfold hasKey in Hkey. apply bool_decide_eq_true in Hkey.
  apply list_elem_of_In, list_elem_of_omap in Hin as (e & He & Hv).
  assert (entries c !! k = Some e); [|congruence]. apply (wf_entries c Hwf). by rewrite Hv, <- Hkey.
Qed.

(** The entry an address in the map stands for. *)
Lemma wf_stored c k e : wf c -> entries c !! k = Some e ->
  e ∈ lru c /\ exists en, values c !! e = Some en /\ key en = k /\ List.find (hasKey k) (abs c) = Some en.
Proof.
  intros Hwf He. destruct (proj1 (wf_entries c Hwf k e) He) as [Hin Hv]. split; [done|].
  destruct (wf_alloc c Hwf e Hin) as [en Hen]. exists en. rewrite Hen in Hv. split_and!; [done|naive_solver|].
  eapply find_absList; eauto using wf_unique.
Qed.

Lemma length_without e l : (length (without e l) <= length l)%nat.
Proof. apply length_filter. Qed.

Lemma length_without_in e l : e ∈ l -> (length (without e l) < length l)%nat.
Proof.
  unfold without. induction l as [|x l IH]; [by intros ?%not_elem_of_nil|]. intros Hin. rewrite filter_cons.
  case_decide as Hd; simpl; [|pose proof (length_filter (fun x => x <> e) l); lia].
  assert (e ∈ l) by set_solver. specialize (IH H). lia.
Qed.

Lemma remove_spec c k e :
  wf c -> entries c !! k = Some e ->
  wf (remove c (Some e)) /\ abs (remove c (Some e)) = dropKey k (abs c) /\
  entries (remove c (Some e)) = delete k (entries c) /\ (length (lru (remove c (Some e))) < length (lru c))%nat /\
  nextElement (remove c (Some e)) = nextElement c /\ values (remove c (Some e)) = values c /\
  (enabled (remove c (Some e)) = enabled c /\ ttl (remove c (Some e)) = ttl c /\ max (remove c (Some e)) = max c).
Proof.
  intros Hwf He. pose proof (wf_unique c k e Hwf He) as Hu.
  destruct (wf_stored c k e Hwf He) as (Hin & en & Hen & Hk & _). unfold remove. rewrite Hen, Hk.
  split; [|split_and!; try done; [by apply absList_without|by apply length_without_in]].
  destruct Hwf. constructor; simpl; auto.
  - by apply list.NoDup_filter.
  - intros k' e'. unfold without. rewrite lookup_delete_Some, wf_entries0, list_elem_of_filter. split.
    + intros (Hne & Hl & Hv). split_and!; auto. intros ->. rewrite Hen in Hv. naive_solver.
    + intros ((Hne & Hl) & Hv). split_and!; auto. intros <-. apply Hne.
      destruct (Hu e' Hl) as (y & Hy & Hyk). rewrite Hy in Hv. naive_solver.
  - intros e'. unfold without. rewrite list_elem_of_filter. naive_solver.
  - pose proof (length_without e (lru c)). lia.
Qed.

Definition reput (c : Cache) (e : nat) (en : entry) : Cache :=
  mkCache (enabled c) (ttl c) (max c) (entries c) (MoveToFront e (lru c)) (<[e := en]> (values c)) (nextElement c).

Lemma reput_spec c k e en :
  wf c -> entries c !! k = Some e -> key en = k ->
  wf (reput c e en) /\ abs (reput c e en) = en :: dropKey k (abs c).
Proof.
  intros Hwf He Hk. pose proof (wf_unique c k e Hwf He) as Hu.
  destruct (wf_stored c k e Hwf He) as (Hin & old & Hold & Hkold & _).
  unfold reput, MoveToFront. rewrite bool_decide_eq_true_2 by done. split.
  - pose proof (length_without_in e (lru c) Hin).
    assert (Hmem : forall x, x ∈ e :: without e (lru c) <-> x ∈ lru c).
    { intros x. unfold without. rewrite elem_of_cons, list_elem_of_filter. destruct (decide (x = e)); naive_solver. }
    destruct Hwf. constructor; simpl; auto.
    + apply list.NoDup_cons. split; [unfold without; rewrite list_elem_of_filter; naive_solver|by apply list.NoDup_filter].
    + intros x Hx. rewrite lookup_insert_ne; [auto|]. intros <-.
      rewrite wf_fresh0 in Hold by lia. done.
    + intros k' e'. rewrite wf_entries0, Hmem. destruct (decide (e = e')) as [<-|Hne].
      * rewrite lookup_insert_eq, Hold. simpl. by rewrite Hk, Hkold.
      * by rewrite lookup_insert_ne.
    + intros e' Hx%Hmem. destruct (decide (e = e')) as [<-|Hne].
      * rewrite lookup_insert_eq. eauto.
      * rewrite lookup_insert_ne; auto.
    + lia.
  - unfold abs. cbn [values lru]. rewrite (absList_cons _ _ _ en) by apply lookup_insert_eq. f_equal.
    rewrite <- (absList_without _ _ e) by done. apply absList_ext. intros x.
    unfold without. rewrite list_elem_of_filter. intros [? _]. by apply lookup_insert_ne.
Qed.

Lemma push_spec c k en :
  wf c -> entries c !! k = None -> key en = k -> Z.of_nat (length (lru c)) < max c ->
  let c' := mkCache (enabled c) (ttl c) (max c) (<[k := nextElement c]> (entries c)) (nextElement c :: lru c)
              (<[nextElement c := en]> (values c)) (S (nextElement c)) in
  wf c' /\ abs c' = en :: abs c.
Proof.
  intros Hwf Hk Hen Hlen c'.
  assert (Hnew : nextElement c ∉ lru c).
  { intros Hin. destruct (wf_alloc c Hwf _ Hin) as [y Hy]. rewrite (wf_fresh c Hwf) in Hy by lia. done. }
  split.
  - destruct Hwf. constructor; simpl; auto.
    + by apply list.NoDup_cons.
    + intros e He. rewrite lookup_insert_ne by lia. apply wf_fresh0. lia.
    + intros k' e'. rewrite elem_of_cons. destruct (decide (k = k')) as [<-|Hne].
      * rewrite lookup_insert_eq. split.
        -- intros [= <-]. rewrite lookup_insert_eq. simpl. by rewrite Hen; auto.
        -- intros [[->|Hin] Hv]; [done|]. exfalso. rewrite lookup_insert_ne in Hv by congruence.
           assert (entries c !! k = Some e') by (apply wf_entries0; auto). congruence.
      * rewrite lookup_insert_ne by done. rewrite wf_entries0. split.
        -- intros [Hin Hv]. split; [auto|]. rewrite lookup_insert_ne by congruence. done.
        -- intros [[->|Hin] Hv]; [rewrite lookup_insert_eq in Hv; naive_solver|].
           split; [auto|]. by rewrite lookup_insert_ne in Hv by congruence.
    + intros e' [->|Hin]%elem_of_cons; [rewrite lookup_insert_eq; eauto|].
      rewrite lookup_insert_ne by congruence. auto.
    + lia.
  - unfold abs. cbn [values lru c']. rewrite (absList_cons _ _ _ en) by apply lookup_insert_eq. f_equal.
    apply absList_ext. intros x Hx. apply lookup_insert_ne. congruence.
Qed.

(** Evicting the back element drops the last entry of the recency list. *)
Lemma evict_spec c :
  wf c -> lru c <> [] ->
  exists k e, list.last (lru c) = Some e /\ entries c !! k = Some e /\ dropKey k (abs c) = removelast (abs c).
Proof.
  intros Hwf Hne. destruct (exists_last Hne) as (l & e & Hl).
  assert (Hin : e ∈ lru c) by (rewrite Hl; set_solver).
  destruct (wf_alloc c Hwf e Hin) as [en Hen].
  assert (He : entries c !! key en = Some e) by (apply (wf_entries c Hwf); by rewrite Hen).
  exists (key en), e. split_and!; [by rewrite Hl, last_snoc|done|].
  unfold abs. rewrite <- (absList_without _ _ e) by eauto using wf_unique.
  assert (Hd : NoDup (lru c)) by apply Hwf. rewrite Hl in Hd. apply list.NoDup_app in Hd as (_ & Hd & _).
  assert (Hw : without e (lru c) = l).
  { unfold without. rewrite Hl, filter_app. rewrite filter_cons_False by naive_solver. rewrite filter_nil, app_nil_r.
    apply filter_all. intros x Hx ->. apply (Hd e); set_solver. }
  rewrite Hw, Hl. unfold absList. rewrite omap_app. simpl. rewrite Hen. by rewrite removelast_last.
Qed.

(** ** Refinement *)
Lemma Get_refines c k now :
  wf c -> enabled c = true ->
  wf (Get c k now).2 /\ ((Get c k now).1, abs (Get c k now).2) = specGet (abs c) k now /\
  enabled (Get c k now).2 = true /\ ttl (Get c k now).2 = ttl c /\ max (Get c k now).2 = max c.
Proof.
  intros Hwf Hen. unfold Get, specGet. rewrite Hen. cbn [negb].
  destruct (entries c !! k) as [e|] eqn:He; [|by rewrite find_absent].
  destruct (wf_stored c k e Hwf He) as (Hin & en & Hv & Hk & Hf). rewrite Hv, Hf.
  destruct (now <? expiresAt en); cbn [negb fst snd].
  - destruct (reput_spec c k e en Hwf He Hk) as [Hw Ha]. unfold reput in Hw, Ha.
    rewrite insert_id in Hw, Ha by done. unfold setLists. rewrite Ha. auto.
  - destruct (remove_spec c k e Hwf He) as (Hw & Ha & _ & _ & _ & _ & -> & -> & ->). rewrite Ha. auto.
Qed.

Lemma Put_refines c rt now c' :
  wf c -> enabled c = true -> Put c rt now = Ok c' ->
  wf c' /\ abs c' = specPut (max c) (abs c) (mkEntry (trainRunID rt) rt (now + ttl c)) /\
  enabled c' = true /\ ttl c' = ttl c /\ max c' = max c.
Proof.
  intros Hwf Hen. unfold Put, specPut. replace (negb (enabled c)) with false by (by rewrite Hen). cbn [key]. intros [_ H]%failif_Ok.
  destruct (ParseShardID _); [|done]. destruct (entries c !! trainRunID rt) as [e|] eqn:He.
  - injection H as <-. destruct (wf_stored c _ e Hwf He) as (_ & en & _ & _ & ->).
    destruct (reput_spec c _ e (mkEntry (trainRunID rt) rt (now + ttl c)) Hwf He eq_refl) as [Hw Ha].
    split_and!; [exact Hw|exact Ha|exact Hen|done|done].
  - rewrite find_absent by done. injection H as H. pose proof (wf_max c Hwf Hen). pose proof (wf_size c Hwf).
    assert (Hlen : length (abs c) = length (lru c)) by (apply absList_length, (wf_alloc c Hwf)).
    rewrite Hlen. destruct (Z.of_nat (length (lru c)) =? max c) eqn:Efull.
    + destruct (evict_spec c Hwf) as (k & e & Hlast & Hk & Hdrop); [intros E; rewrite E in Efull; cbn [length] in Efull; apply Z.eqb_eq in Efull; lia|].
      rewrite Hlast in H. destruct (remove_spec c k e Hwf Hk) as (Hw & Ha & Hent & Hl & Hn & Hvv & E1 & E2 & E3).
      destruct (push_spec (remove c (Some e)) (trainRunID rt) (mkEntry (trainRunID rt) rt (now + ttl c)) Hw) as [Hw' Ha'];
        [rewrite Hent; apply lookup_delete_None; auto|done|rewrite E3; lia|].
      subst c'. rewrite Ha', Ha, Hdrop. cbn [enabled ttl max]. split_and!; congruence.
    + subst c'. destruct (push_spec c (trainRunID rt) (mkEntry (trainRunID rt) rt (now + ttl c)) Hwf He eq_refl ltac:(lia))
        as [Hw' Ha']. rewrite Ha'. auto.
Qed.

Lemma Invalidate_refines c k :
  wf c -> enabled c = true ->
  wf (Invalidate c k) /\ abs (Invalidate c k) = dropKey k (abs c) /\
  enabled (Invalidate c k) = true /\ ttl (Invalidate c k) = ttl c /\ max (Invalidate c k) = max c.
Proof.
  intros Hwf Hen. unfold Invalidate. rewrite Hen. cbn [negb]. destruct (entries c !! k) as [e|] eqn:He.
  - destruct (remove_spec c k e Hwf He) as (Hw & Ha & _ & _ & _ & _ & -> & -> & ->). auto.
  - split_and!; auto. symmetry. apply filter_all. intros en Hi Hk.
    pose proof (find_absent c k Hwf He) as Hf. eapply find_none in Hf; [|by apply list_elem_of_In].
    unfold hasKey in Hf. apply bool_decide_eq_false in Hf. done.
Qed.

Lemma New_wf config c : New config = Ok c ->
  wf c /\ abs c = [] /\ enabled c = Enabled config /\ ttl c = TTL config /\ max c = MaxEntries config.
Proof.
  unfold New. intros H. inv_ok. subst c. split; [|done]. constructor; simpl; auto.
  - destruct (Enabled config); simpl in *; lia.
  - apply NoDup_nil_2.
  - intros k e. rewrite lookup_empty. set_solver.
  - set_solver.
  - lia.
Qed.

(** C36: the pointer-based cache implements the bounded recency list: from any
    state satisfying the representation invariant, Get, Put and Invalidate
    compute what the abstract operations compute, and re-establish it. *)
Theorem route_cache_refines c :
  wf c -> enabled c = true ->
  (forall k now, wf (Get c k now).2 /\ ((Get c k now).1, abs (Get c k now).2) = specGet (abs c) k now) /\
  (forall rt now c', Put c rt now = Ok c' ->
     wf c' /\ abs c' = specPut (max c) (abs c) (mkEntry (trainRunID rt) rt (now + ttl c))) /\
  (forall k, wf (Invalidate c k) /\ abs (Invalidate c k) = dropKey k (abs c)).
Proof.
  intros Hwf Hen. split_and!.
  - intros k now. destruct (Get_refines c k now Hwf Hen) as (? & ? & _). auto.
  - intros rt now c' H. destruct (Put_refines c rt now c' Hwf Hen H) as (? & ? & _). auto.
  - intros k. destruct (Invalidate_refines c k Hwf Hen) as (? & ? & _). auto.
Qed.

Lemma route_cache_refines_witness :
  let c := mkCache true 10 2 ∅ [] ∅ 0 in
  New (mkConfig true 10 2) = Ok c /\
  wf (Invalidate c 5%N) /\ abs (Invalidate c 5%N) = dropKey 5%N (abs c).
Proof.
  intros c. assert (Hc : New (mkConfig true 10 2) = Ok c) by reflexivity. split; [exact Hc|].
  exact (proj2 (proj2 (route_cache_refines c (proj1 (New_wf _ c Hc)) eq_refl)) 5%N).
Defined.

(** ** Traces *)
Inductive op := OpGet (k : uuid) (now : Z) | OpPut (rt : ShardRoute) (now : Z) | OpInvalidate (k : uuid).

Definition exec (c : Cache) (o : op) : Cache :=
  match o with
  | OpGet k now => (Get c k now).2
  | OpPut rt now => match Put c rt now with Ok c' => c' | Err _ => c end
  | OpInvalidate k => Invalidate c k
  end.

(** The route a caller last stored for [k] and has not invalidated, with the
    time it was stored. *)
Definition track (c : Cache) (k : uuid) (latest : option (ShardRoute * Z)) (o : op) : option (ShardRoute * Z) :=
  match o with
  | OpGet _ _ => latest
  | OpPut rt now => if bool_decide (trainRunID rt = k) && is_ok (Put c rt now) then Some (rt, now) else latest
  | OpInvalidate k' => if bool_decide (k' = k) then None else latest
  end.

Fixpoint runOps (c : Cache) (ops : list op) : Cache :=
  match ops with [] => c | o :: ops' => runOps (exec c o) ops' end.

Fixpoint latestPut (c : Cache) (k : uuid) (latest : option (ShardRoute * Z)) (ops : list op)
    : option (ShardRoute * Z) :=
  match ops with [] => latest | o :: ops' => latestPut (exec c o) k (track c k latest o) ops' end.

(** Every cached entry is the latest route stored for its key. *)
Definition current (c : Cache) (latest : uuid -> option (ShardRoute * Z)) : Prop :=
  wf c /\ enabled c = true /\
  forall en, en ∈ abs c -> exists t, latest (key en) = Some (route en, t) /\ expiresAt en = t + ttl c.

Lemma specPut_elem cap l en x : x ∈ specPut cap l en -> x = en \/ (key x <> key en /\ x ∈ l).
Proof.
  unfold specPut. destruct (List.find (hasKey (key en)) l) eqn:E.
  - unfold dropKey. rewrite elem_of_cons, list_elem_of_filter. naive_solver.
  - rewrite elem_of_cons. intros [->|Hx]; [auto|]. right.
    assert (Hx' : x ∈ l).
    { destruct (_ =? _); [|done]. destruct l as [|y l] using rev_ind; [done|]. rewrite removelast_last in Hx. set_solver. }
    split; [|done]. eapply find_none in E; [|by apply list_elem_of_In].
    unfold hasKey in E. by apply bool_decide_eq_false in E.
Qed.

Lemma specGet_elem l k now x : x ∈ (specGet l k now).2 -> x ∈ l.
Proof.
  unfold specGet. destruct (List.find (hasKey k) l) as [en|] eqn:E; [|done].
  apply find_some in E as [Hen%list_elem_of_In _].
  destruct (now <? expiresAt en); simpl; unfold dropKey; rewrite ?elem_of_cons, list_elem_of_filter; naive_solver.
Qed.

Lemma exec_current c latest o :
  current c latest -> current (exec c o) (fun k => track c k (latest k) o) /\
  max (exec c o) = max c /\ ttl (exec c o) = ttl c.
Proof.
  intros (Hwf & Hen & Hcur). destruct o as [k now|rt now|k]; simpl.
  - destruct (Get_refines c k now Hwf Hen) as (Hw & Ha & He & Ht & Hm). split_and!; auto.
    split_and!; auto. intros en Hin. rewrite Ht. apply Hcur, (specGet_elem _ k now). by rewrite <- Ha.
  - destruct (Put c rt now) as [c'|] eqn:Hp; simpl.
    + destruct (Put_refines c rt now c' Hwf Hen Hp) as (Hw & Ha & He & Ht & Hm). split_and!; auto.
      split_and!; auto. intros en Hin. rewrite Ha in Hin. apply specPut_elem in Hin as [->|[Hk Hin]].
      * simpl. rewrite bool_decide_eq_true_2 by done. exists now. by rewrite Ht.
      * simpl in Hk. rewrite bool_decide_eq_false_2 by done. simpl. rewrite Ht. auto.
    + split_and!; auto. split_and!; auto. intros en Hin. rewrite andb_false_r. auto.
  - destruct (Invalidate_refines c k Hwf Hen) as (Hw & Ha & He & Ht & Hm). split_and!; auto.
    split_and!; auto. intros en Hin. rewrite Ha in Hin. unfold dropKey in Hin. apply list_elem_of_filter in Hin as [Hk Hin].
    rewrite bool_decide_eq_false_2 by done. rewrite Ht. auto.
Qed.

Lemma run_current ops c latest :
  current c latest -> current (runOps c ops) (fun k => latestPut c k (latest k) ops) /\
  max (runOps c ops) = max c /\ ttl (runOps c ops) = ttl c.
Proof.
  revert c latest. induction ops as [|o ops IH]; intros c latest H; simpl; [auto|].
  destruct (exec_current c latest o H) as (Hc & Hm & Ht). destruct (IH _ _ Hc) as (Hc' & Hm' & Ht').
  split_and!; [exact Hc'|congruence|congruence].
Qed.

Lemma entries_bounded c : wf c -> (size (entries c) <= length (lru c))%nat.
Proof.
  intros Hwf. assert (Hlen : length (abs c) = length (lru c)) by (apply absList_length, (wf_alloc c Hwf)).
  rewrite <- Hlen, <- (length_map key), <- (size_dom (D := gset uuid)).
  apply submseteq_length, NoDup_submseteq; [apply NoDup_elements|].
  intros k Hk. apply elem_of_elements, elem_of_dom in Hk as [e He].
  destruct (wf_stored c k e Hwf He) as (_ & en & _ & Hk & Hf). apply find_some in Hf as [Hin _].
  apply list_elem_of_fmap. exists en. split; [done|]. by apply list_elem_of_In.
Qed.

(** after any sequence of calls on an enabled cache, at most MaxEntries
    routes are held, and a hit returns exactly the route last stored for that
    train run and not invalidated since, strictly before its time to live has
    passed. *)
Theorem route_cache_never_stale config c ops k now rt :
  New config = Ok c -> Enabled config = true ->
  Z.of_nat (size (entries (runOps c ops))) <= MaxEntries config /\
  ((Get (runOps c ops) k now).1 = Some rt ->
   exists t, latestPut c k None ops = Some (rt, t) /\ now < t + TTL config).
Proof.
  intros Hnew Hen. destruct (New_wf config c Hnew) as (Hwf & Ha & He & Ht & Hm). rewrite Hen in He.
  assert (Hcur : current c (fun _ => None)).
  { split_and!; auto. rewrite Ha. intros en Hin. by apply not_elem_of_nil in Hin. }
  destruct (run_current ops c _ Hcur) as ((Hwf' & He' & Hall) & Hm' & Ht'). set (d := runOps c ops) in *. split.
  - pose proof (wf_size d Hwf'). pose proof (wf_max d Hwf' He').
    assert (size (entries d) <= length (lru d))%nat; [|lia].
    by apply entries_bounded.
  - destruct (Get_refines d k now Hwf' He') as (_ & Hg & _). intros Hr. rewrite Hr in Hg.
    unfold specGet in Hg. destruct (List.find (hasKey k) (abs d)) as [en|] eqn:E; [|done].
    apply find_some in E as [Hin%list_elem_of_In Hk]. unfold hasKey in Hk. apply bool_decide_eq_true in Hk.
    destruct (now <? expiresAt en) eqn:Hb; [|done]. injection Hg as -> _.
    destruct (Hall en Hin) as (t & Hl & Hx). rewrite Hk in Hl. exists t. split; [done|]. lia.
Qed.

Lemma route_cache_never_stale_witness :
  let rt := mkShardRoute 5%N ShardZero 3 in
  exists c, New (mkConfig true 10 2) = Ok c /\
    (Get (runOps c [OpPut rt 100; OpGet 5%N 104]) 5%N 109).1 = Some rt /\
    exists t, latestPut c 5%N None [OpPut rt 100; OpGet 5%N 104] = Some (rt, t) /\ 109 < t + 10.
Proof.
  intros rt. eexists. split; [reflexivity|]. split; [vm_compute; reflexivity|].
  eapply (fun H => proj2 (route_cache_never_stale (mkConfig true 10 2) _ _ 5%N 109 rt H eq_refl)).
  - reflexivity.
  - vm_compute. reflexivity.
Defined.
