(* ===== verification/BookingDb.v ===== *)
(** * The booking database

    The tables that the SQL of [src/internal/booking/postgres] and
    [src/internal/sharding/postgres] reads and writes, and the monad its
    transactions run in.  One [Local] holds the tables of one schema (public,
    booking_shard_0, booking_shard_1: the search path of a transaction selects
    one of them); [Control] holds the public routing, claim and locator tables;
    [Catalogue] holds the offering tables, which booking only reads.

    A table with a primary key is a [gmap] from the key; reservation_seats,
    tickets and outbox_events are lists of rows in insertion order.  The
    created_at / updated_at columns, the foreign keys and the SQL triggers of
    the migrations are not part of the model. *)

From S2P Require Import Prelude SegmentMask BookingDomain Sharding.
Import ShardTypes.

(** ** Errors *)

(** RouteErrorCode of [src/internal/sharding/router.go]. *)
Inductive RouteErr :=
| ErrAssignmentStale | ErrWriteFenced | ErrShardUnavailable | ErrTrainRunMigrating | ErrLocatorNotFound.

#[export] Instance RouteErr_eq_dec : EqDecision RouteErr.
Proof. solve_decision. Defined.

(** The error variables of the booking store; [ErrDatabase] is an error the
    database reports (a violated uniqueness constraint, a NULL scanned into a
    non-pointer), [ErrSerialization] one with SQLSTATE 40001 or 40P01, and
    [ErrRoute] a routing error. *)
Inductive StoreErr :=
| ErrInvalidArgument | ErrInsufficientInventory | ErrNotFound | ErrNotBookable | ErrReservationExpired
| ErrPassengerConflict | ErrReservationQuotaExceeded | ErrAdmissionRequired | ErrAdmissionPolicyChanged
| ErrInvalidState | ErrPersistenceInvariant | ErrIdempotencyConflict | ErrIdempotencyInProgress
| ErrMoney (e : MoneyModel.MoneyError) | ErrRoute (e : RouteErr) | ErrDatabase | ErrSerialization.

(** ** Values *)

(** A varbit value: its bits, first bit first. *)
Abbreviation varbit := (list bool).
Definition bit (v : varbit) (i : nat) : bool := nth i v false.
Definition bit_count (v : varbit) : nat := length (filter (fun b => b = true) v).
(** The SQL operators & , | and ~ reject operands of different lengths; every
    use below is guarded by the length test of the query. *)
Definition varbit_and (a b : varbit) : varbit := zip_with andb a b.
Definition varbit_or (a b : varbit) : varbit := zip_with orb a b.
Definition varbit_not (a : varbit) : varbit := map negb a.

(** How the server reads a pgtype.Bits parameter. *)
Definition varbitOfBits (b : PgBits) : varbit :=
  map (fun i => Z.testbit (nth (i / 8) (pg_Bytes b) 0) (7 - Z.of_nat (i mod 8))) (seq 0 (Z.to_nat (pg_Len b))).

(** ** Rows *)
Inductive RStatus := Held | PaymentPending | PaymentReview | Confirmed | RefundPending | Expired | Cancelled.

#[export] Instance RStatus_eq_dec : EqDecision RStatus.
Proof. solve_decision. Defined.

(** [status IN ('held', 'confirmed')] *)
Definition activeStatus (s : RStatus) : bool := bool_decide (s = Held) || bool_decide (s = Confirmed).

Record InventoryRow := mkInventory {
  si_segment_count : Z; si_class : string; si_occupied : varbit; si_version : Z }.

Record ReservationRow := mkReservationRow {
  r_user : uuid; r_run : uuid; r_segment_count : Z; r_from : Z; r_to : Z; r_class : string;
  r_status : RStatus; r_expires : time; r_total : Z; r_currency : string }.

Record SeatRow := mkSeatRow {
  rs_id : uuid; rs_reservation : uuid; rs_run : uuid; rs_segment_count : Z; rs_seat : uuid;
  rs_passenger : uuid; rs_mask : varbit; rs_fare : Z; rs_currency : string }.

(** Orders and tickets are confirmed / active ([true]) or cancelled. *)
Record OrderRow := mkOrderRow {
  o_reservation : uuid; o_user : uuid; o_confirmed : bool; o_total : Z; o_currency : string; o_created : time }.

Record TicketRow := mkTicketRow {
  t_id : uuid; t_order : uuid; t_seat_row : uuid; t_code : string; t_active : bool }.

(** The key (user_id, operation, key_hash). *)
Abbreviation idemKey := (uuid * string * list Z)%type.

Record IdemRow := mkIdemRow {
  ir_id : uuid; ir_fingerprint : list Z; ir_completed : bool; ir_resource : option uuid;
  ir_expires : time; ir_run : option uuid }.

Record Local := mkLocal {
  inventory : gmap (uuid * uuid) InventoryRow;
  reservations : gmap uuid ReservationRow;
  reservation_seats : list SeatRow;
  ticket_orders : gmap uuid OrderRow;
  tickets : list TicketRow;
  idempotency : gmap idemKey IdemRow;
  write_fences : gmap uuid (Z * bool)
}.

Record ClaimRow := mkClaimRow {
  c_id : uuid; c_fingerprint : list Z; c_run : option uuid; c_expires : time }.

Record QuotaRow := mkQuotaRow { q_user : uuid; q_run : uuid; q_count : Z; q_active : bool }.

Record LocatorRow := mkLocatorRow { l_route : ShardRoute; l_owner : uuid }.

Record OrderLocatorRow := mkOrderLocatorRow {
  ol_reservation : uuid; ol_route : ShardRoute; ol_owner : uuid; ol_status : string;
  ol_total : Z; ol_currency : string; ol_created : time }.

Record TicketLocatorRow := mkTicketLocatorRow {
  tl_order : uuid; tl_reservation : uuid; tl_route : ShardRoute; tl_owner : uuid }.

Record AssignmentRow := mkAssignmentRow {
  a_shard : string; a_generation : Z; a_state : string; a_migration : option uuid }.

Record ShardRow := mkShardRow {
  sh_enabled : bool; sh_write_enabled : bool; sh_state : string; sh_min_protocol : Z }.

Record WritesRow := mkWritesRow { w_shard : string; w_migration : uuid; w_count : Z }.

Record Control := mkControl {
  claims : gmap idemKey ClaimRow;
  quota_claims : gmap uuid QuotaRow;
  reservation_locators : gmap uuid LocatorRow;
  order_locators : gmap uuid OrderLocatorRow;
  ticket_locators : gmap uuid TicketLocatorRow;
  assignments : gmap uuid AssignmentRow;
  booking_shards : gmap string ShardRow;
  generation_writes : gmap (uuid * Z) WritesRow
}.

Record TrainRunRow := mkTrainRunRow { tr_train : uuid; tr_route : uuid; tr_segment_count : Z; tr_status : string }.
Record FareRow := mkFareRow {
  f_run : option uuid; f_route : option uuid; f_from : Z; f_to : Z; f_class : string;
  f_amount : Z; f_currency : string; f_active : bool }.
Record CoachRow := mkCoachRow { co_train : uuid; co_number : string; co_class : string }.
Record SeatDef := mkSeatDef { s_coach : uuid; s_number : string; s_active : bool }.
Record PolicyRow := mkPolicyRow { p_id : uuid; p_version : Z; p_enabled : bool }.

Record Catalogue := mkCatalogue {
  train_runs : gmap uuid TrainRunRow;
  passengers : gmap uuid uuid;                     (** passenger id to owner *)
  fares : list FareRow;
  coaches : gmap uuid CoachRow;
  seats : gmap uuid SeatDef;
  hot_train_policies : gmap (uuid * string) PolicyRow
}.

(** The payloads booking appends to the outbox. *)
Inductive Payload :=
| PayloadHeld (reservation run : uuid) (expires : time) (seatCount : Z)
| PayloadConfirmed (reservation order : uuid)
| PayloadReleased (reservation : uuid) (status : string) (released : Z)
| PayloadTicket (ticket order reservation : uuid).

Record OutboxRow := mkOutboxRow {
  e_aggregate_type : string; e_aggregate_id : uuid; e_type : string; e_payload : Payload;
  e_route : option ShardRoute }.

Record DB := mkDB {
  public : Local; booking_shard_0 : Local; booking_shard_1 : Local;
  control : Control; catalogue : Catalogue; outbox : list OutboxRow }.

Inductive Schema := Public | Shard0 | Shard1.

#[export] Instance Schema_eq_dec : EqDecision Schema.
Proof. solve_decision. Defined.

Definition getLocal (s : Schema) (db : DB) : Local :=
  match s with Public => public db | Shard0 => booking_shard_0 db | Shard1 => booking_shard_1 db end.

Definition setLocal (s : Schema) (l : Local) (db : DB) : DB :=
  match s with
  | Public => mkDB l (booking_shard_0 db) (booking_shard_1 db) (control db) (catalogue db) (outbox db)
  | Shard0 => mkDB (public db) l (booking_shard_1 db) (control db) (catalogue db) (outbox db)
  | Shard1 => mkDB (public db) (booking_shard_0 db) l (control db) (catalogue db) (outbox db)
  end.

Definition setControl (c : Control) (db : DB) : DB :=
  mkDB (public db) (booking_shard_0 db) (booking_shard_1 db) c (catalogue db) (outbox db).
Definition setOutbox (o : list OutboxRow) (db : DB) : DB :=
  mkDB (public db) (booking_shard_0 db) (booking_shard_1 db) (control db) (catalogue db) o.

Definition withInventory l v := mkLocal v (reservations l) (reservation_seats l) (ticket_orders l) (tickets l) (idempotency l) (write_fences l).
Definition withReservations l v := mkLocal (inventory l) v (reservation_seats l) (ticket_orders l) (tickets l) (idempotency l) (write_fences l).
Definition withReservationSeats l v := mkLocal (inventory l) (reservations l) v (ticket_orders l) (tickets l) (idempotency l) (write_fences l).
Definition withTicketOrders l v := mkLocal (inventory l) (reservations l) (reservation_seats l) v (tickets l) (idempotency l) (write_fences l).
Definition withTickets l v := mkLocal (inventory l) (reservations l) (reservation_seats l) (ticket_orders l) v (idempotency l) (write_fences l).
Definition withIdempotency l v := mkLocal (inventory l) (reservations l) (reservation_seats l) (ticket_orders l) (tickets l) v (write_fences l).

Definition withClaims c v := mkControl v (quota_claims c) (reservation_locators c) (order_locators c) (ticket_locators c) (assignments c) (booking_shards c) (generation_writes c).
Definition withQuotaClaims c v := mkControl (claims c) v (reservation_locators c) (order_locators c) (ticket_locators c) (assignments c) (booking_shards c) (generation_writes c).
Definition withReservationLocators c v := mkControl (claims c) (quota_claims c) v (order_locators c) (ticket_locators c) (assignments c) (booking_shards c) (generation_writes c).
Definition withOrderLocators c v := mkControl (claims c) (quota_claims c) (reservation_locators c) v (ticket_locators c) (assignments c) (booking_shards c) (generation_writes c).
Definition withTicketLocators c v := mkControl (claims c) (quota_claims c) (reservation_locators c) (order_locators c) v (assignments c) (booking_shards c) (generation_writes c).
Definition withGenerationWrites c v := mkControl (claims c) (quota_claims c) (reservation_locators c) (order_locators c) (ticket_locators c) (assignments c) (booking_shards c) v.

(** ** Transactions

    A [Tx]: the schema of its search path and, when it is routed, its route.
    The body of a transaction is a computation in [M]; every error path rolls
    the transaction back, so an error carries no state. *)
Record Tx := mkTx { tx_schema : Schema; tx_route : option ShardRoute }.

Definition M (A : Type) : Type := DB -> res StoreErr (A * DB).

Definition ret {A} (a : A) : M A := fun db => Ok (a, db).
Definition fail {A} (e : StoreErr) : M A := fun _ => Err e.
Definition bindM {A B} (m : M A) (k : A -> M B) : M B :=
  fun db => match m db with Ok (a, db') => k a db' | Err e => Err e end.
Definition getDB : M DB := fun db => Ok (db, db).
Definition putDB (db : DB) : M unit := fun _ => Ok (tt, db).

Notation "'let!' p := m 'in' k" := (bindM m (fun p => k))
  (at level 10, p binder, m at level 200, k at level 200) : go_scope.
(** [if b { return e }] inside a transaction. *)
Notation "'stopif' b 'with' e 'else' k" := (if b then fail e else k)
  (at level 10, b at level 200, e at level 200, k at level 200) : go_scope.

(** Tables of the transaction's schema, and the public ones. *)
Definition getTables (tx : Tx) : M Local := fun db => Ok (getLocal (tx_schema tx) db, db).
Definition putTables (tx : Tx) (l : Local) : M unit := fun db => Ok (tt, setLocal (tx_schema tx) l db).
Definition getControl : M Control := fun db => Ok (control db, db).
Definition putControl (c : Control) : M unit := fun db => Ok (tt, setControl c db).
Definition getCatalogue : M Catalogue := fun db => Ok (catalogue db, db).

Definition routed (tx : Tx) : bool := match tx_route tx with Some _ => true | None => false end.

(** ** Elementary lemmas *)
Lemma bindM_Ok {A B} (m : M A) (k : A -> M B) db b db'' :
  bindM m k db = Ok (b, db'') <-> exists a db', m db = Ok (a, db') /\ k a db' = Ok (b, db'').
Proof. unfold bindM. destruct (m db) as [[a db']|e]; naive_solver. Qed.

Lemma stopif_Ok {A} (b : bool) e (k : M A) db a db' :
  (if b then fail e else k) db = Ok (a, db') <-> b = false /\ k db = Ok (a, db').
Proof. unfold fail. destruct b; naive_solver. Qed.

Lemma getLocal_setLocal s s' l db :
  getLocal s (setLocal s' l db) = if bool_decide (s = s') then l else getLocal s db.
Proof. destruct s, s'; done. Qed.
Lemma getLocal_setLocal_eq s l db : getLocal s (setLocal s l db) = l.
Proof. by destruct s. Qed.
Lemma getLocal_setControl s c db : getLocal s (setControl c db) = getLocal s db.
Proof. by destruct s. Qed.
Lemma getLocal_setOutbox s o db : getLocal s (setOutbox o db) = getLocal s db.
Proof. by destruct s. Qed.
Lemma setLocal_getLocal s db : setLocal s (getLocal s db) db = db.
Proof. by destruct s, db. Qed.

(** Decompose [H : (let! ... ) db = Ok (a, db')] into its steps. *)
Ltac inv_M H :=
  repeat first
    [ let a := fresh "a" in let d := fresh "db" in let Hm := fresh "Hm" in
      apply bindM_Ok in H as (a & d & Hm & H); inv_M Hm
    | let Hb := fresh "Hb" in apply stopif_Ok in H as [Hb H]
    | progress (unfold ret, getTables, putTables, getControl, putControl, getCatalogue, getDB, putDB in H;
                injection H as H) ];
  simplify_eq.

(** Empty tables, for concrete instances. *)
Definition emptyLocal : Local := mkLocal ∅ ∅ [] ∅ [] ∅ ∅.
Definition emptyControl : Control := mkControl ∅ ∅ ∅ ∅ ∅ ∅ ∅ ∅.
Definition emptyCatalogue : Catalogue := mkCatalogue ∅ ∅ [] ∅ ∅ ∅.
