(* ===== verification/Occupancy.v ===== *)
(** * Occupancy of seat segments

    What the booking store and the physical shards share about inventory: the
    bits of a varbit, counting, and the theory of an inventory that is exactly
    the disjoint union of the claims on it, with the two steps that keep it
    so, occupying free segments and releasing claimed ones. *)

From S2P Require Import Prelude BookingDb.

(** ** Varbit lemmas *)
Lemma bit_overflow v i : (length v <= i)%nat -> bit v i = false.
Proof. apply nth_overflow. Qed.

Lemma bit_zip (f : bool -> bool -> bool) a b i :
  f false false = false -> length a = length b -> bit (zip_with f a b) i = f (bit a i) (bit b i).
Proof.
  intros Hf. unfold bit. revert b i. induction a as [|x a IH]; intros [|y b] [|i] Hl; simpl in *; try done; auto with lia.
Qed.

Lemma bit_or a b i : length a = length b -> bit (varbit_or a b) i = bit a i || bit b i.
Proof. by apply bit_zip. Qed.
Lemma bit_and a b i : length a = length b -> bit (varbit_and a b) i = bit a i && bit b i.
Proof. by apply bit_zip. Qed.

Lemma bit_and_not a b i : length a = length b -> bit (varbit_and a (varbit_not b)) i = bit a i && negb (bit b i).
Proof.
  unfold varbit_and, varbit_not, bit. revert b i.
  induction a as [|x a IH]; intros [|y b] [|i] Hl; simpl in *; try done; auto with lia.
Qed.

Lemma varbit_ext a b : length a = length b -> (forall i, bit a i = bit b i) -> a = b.
Proof.
  unfold bit. revert b. induction a as [|x a IH]; intros [|y b] Hl H; try done.
  f_equal; [apply (H 0%nat)|]. apply IH; [simpl in Hl; lia|]. intros i. apply (H (S i)).
Qed.

Lemma length_zip_same {A B C} (f : A -> B -> C) a b : length a = length b -> length (zip_with f a b) = length a.
Proof. intros. rewrite length_zip_with. lia. Qed.

Lemma bit_zero n i : bit (replicate n false) i = false.
Proof. unfold bit. revert i. induction n as [|n IH]; intros [|i]; simpl; auto. Qed.

Lemma varbit_disjoint_spec a m :
  length a = length m ->
  varbit_and a m = replicate (length a) false <-> forall i, bit a i && bit m i = false.
Proof.
  intros Hl. split.
  - intros H i. rewrite <- bit_and by done. rewrite H. apply bit_zero.
  - intros H. apply varbit_ext; [unfold varbit_and; rewrite length_zip_same, length_replicate; done|].
    intros i. by rewrite bit_and, H, bit_zero.
Qed.

(** ** Counting *)
Definition countIf {A} (p : A -> bool) (l : list A) : nat := length (filter (fun x => p x = true) l).

Lemma countIf_app {A} (p : A -> bool) l k : countIf p (l ++ k) = (countIf p l + countIf p k)%nat.
Proof. unfold countIf. by rewrite filter_app, length_app. Qed.

Lemma countIf_cons {A} (p : A -> bool) x l : countIf p (x :: l) = ((if p x then 1 else 0) + countIf p l)%nat.
Proof. unfold countIf. rewrite filter_cons. destruct (p x) eqn:E; case_decide; simpl; congruence. Qed.

Lemma countIf_ext {A} (p q : A -> bool) l : (forall x, x ∈ l -> p x = q x) -> countIf p l = countIf q l.
Proof.
  induction l as [|x l IH]; intros H; [done|]. rewrite !countIf_cons, (H x) by (by left).
  f_equal. apply IH. intros. apply H. by right.
Qed.

Lemma countIf_split {A} (p q : A -> bool) l :
  countIf p l = (countIf (fun x => p x && q x) l + countIf (fun x => p x && negb (q x)) l)%nat.
Proof. induction l as [|x l IH]; [done|]. rewrite !countIf_cons, IH. destruct (p x), (q x); simpl; lia. Qed.

Lemma countIf_0 {A} (p : A -> bool) l : countIf p l = 0%nat <-> forall x, x ∈ l -> p x = false.
Proof.
  induction l as [|x l IH]; [split; [by intros _ x ?%not_elem_of_nil|done]|]. rewrite countIf_cons. split.
  - intros H y [->|Hy]%elem_of_cons; [destruct (p x); [lia|done]|]. apply IH; [lia|done].
  - intros H. rewrite (H x) by (by left). apply IH. intros. apply H. by right.
Qed.

Lemma countIf_pos {A} (p : A -> bool) l x : x ∈ l -> p x = true -> (0 < countIf p l)%nat.
Proof. intros Hx Hp. destruct (countIf p l) eqn:E; [|lia]. rewrite countIf_0 in E. rewrite E in Hp; done. Qed.

(** With a key that occurs once, at most one row satisfies a predicate that
    fixes the key. *)
Lemma countIf_key {A K} (f : A -> K) (p : A -> bool) k l :
  NoDup (map f l) -> (forall x, x ∈ l -> p x = true -> f x = k) ->
  countIf p l = if existsb p l then 1%nat else 0%nat.
Proof.
  induction l as [|x l IH]; intros Hn H; [done|]. rewrite countIf_cons. simpl in *. apply NoDup_cons in Hn as [Hx Hn].
  destruct (p x) eqn:Hp; simpl.
  - f_equal. apply countIf_0. intros y Hy. destruct (p y) eqn:Hpy; [|done]. exfalso. apply Hx.
    rewrite (H x), <- (H y) by (by constructor || done). apply list_elem_of_fmap. eauto.
  - rewrite IH; [done|done|]. intros. apply H; [by right|done].
Qed.

Lemma existsb_elem {A} (p : A -> bool) l : existsb p l = true <-> exists x, x ∈ l /\ p x = true.
Proof. rewrite existsb_exists. setoid_rewrite <- list_elem_of_In. done. Qed.

Lemma countIf_two {A} (p : A -> bool) l i j x y :
  i <> j -> l !! i = Some x -> l !! j = Some y -> p x = true -> p y = true -> (2 <= countIf p l)%nat.
Proof.
  revert i j. induction l as [|z l IH]; intros [|i] [|j] Hne Hi Hj Hx Hy; simpl in *; simplify_eq.
  - rewrite countIf_cons, Hx. pose proof (countIf_pos p l y). apply list_elem_of_lookup_2 in Hj. specialize (H Hj Hy). lia.
  - rewrite countIf_cons, Hy. pose proof (countIf_pos p l x). apply list_elem_of_lookup_2 in Hi. specialize (H Hi Hx). lia.
  - rewrite countIf_cons. pose proof (IH i j ltac:(congruence) Hi Hj Hx Hy). lia.
Qed.

Definition b2n (b : bool) : nat := if b then 1%nat else 0%nat.

(** ** Exact inventories *)
Section Exact.
Context {K : Type} `{!EqDecision K, !Countable K}.
Implicit Types (occ : gmap K varbit) (l : list (K * varbit)).

(** The claims on segment [i] of row [k]. *)
Definition claimsAt (k : K) (i : nat) (l : list (K * varbit)) : nat :=
  countIf (fun c => bool_decide (c.1 = k) && bit c.2 i) l.

(** A segment of a row is occupied by exactly the claims on it, at most one,
    and every claim is on a row of its own length. *)
Record exact (occ : gmap K varbit) (l : list (K * varbit)) : Prop := {
  ex_rows : forall k v i, occ !! k = Some v -> claimsAt k i l = b2n (bit v i);
  ex_claims : forall c, c ∈ l -> exists v, occ !! c.1 = Some v /\ length v = length c.2 }.

Lemma claimsAt_perm k i l l' : l ≡ₚ l' -> claimsAt k i l = claimsAt k i l'.
Proof. intros Hp. unfold claimsAt, countIf. by rewrite Hp. Qed.

Lemma exact_perm occ l l' : l ≡ₚ l' -> exact occ l -> exact occ l'.
Proof.
  intros Hp [Hr Hc]. split.
  - intros k v i Hk. rewrite <- (claimsAt_perm k i l l') by done. eauto.
  - intros c Hin. apply Hc. by rewrite Hp.
Qed.

#[export] Instance exact_proper : Proper ((=) ==> (≡ₚ) ==> iff) exact.
Proof. intros occ ? <- l l' Hp. split; apply exact_perm; [done|by symmetry]. Qed.

Lemma exact_nil occ : (forall k v, occ !! k = Some v -> forall i, bit v i = false) -> exact occ [].
Proof. intros Hz. split; [|by intros c ?%not_elem_of_nil]. intros k v i Hk. by rewrite (Hz k v Hk i). Qed.

Lemma claimsAt_cons k i c l :
  claimsAt k i (c :: l) = (b2n (bool_decide (c.1 = k) && bit c.2 i) + claimsAt k i l)%nat.
Proof. unfold claimsAt. rewrite countIf_cons. by destruct (_ && _). Qed.

(** Occupying segments that are free. *)
Lemma exact_occupy occ l k v m :
  exact occ l -> occ !! k = Some v -> length v = length m -> varbit_and v m = replicate (length v) false ->
  exact (<[k := varbit_or v m]> occ) ((k, m) :: l).
Proof.
  intros [Hr Hc] Hk Hl Hd. rewrite varbit_disjoint_spec in Hd by done. split.
  - intros k' v' i Hk'. rewrite claimsAt_cons. simpl. destruct (decide (k = k')) as [<-|Hne].
    + rewrite lookup_insert_eq in Hk'. injection Hk' as <-. rewrite bool_decide_true by done. rewrite (Hr k v i Hk), bit_or by done.
      specialize (Hd i). by destruct (bit v i), (bit m i).
    + rewrite lookup_insert_ne in Hk' by done. rewrite bool_decide_false by done. simpl. by apply Hr.
  - intros c [->|Hin]%elem_of_cons; simpl.
    + exists (varbit_or v m). rewrite lookup_insert_eq. split; [done|]. unfold varbit_or. by rewrite length_zip_same.
    + destruct (Hc c Hin) as (v' & Hv' & Hlen). destruct (decide (k = c.1)) as [->|Hne].
      * exists (varbit_or v m). rewrite lookup_insert_eq. split; [done|]. unfold varbit_or. rewrite length_zip_same by done. congruence.
      * exists v'. by rewrite lookup_insert_ne.
Qed.

(** Releasing a claim. *)
Lemma exact_release occ l k v m :
  exact occ ((k, m) :: l) -> occ !! k = Some v ->
  exact (<[k := varbit_and v (varbit_not m)]> occ) l.
Proof.
  intros [Hr Hc] Hk. destruct (Hc (k, m)) as (v0 & Hv0 & Hlen); [by left|]. simpl in *.
  assert (v0 = v) as -> by congruence.
  assert (Hl' : length (varbit_and v (varbit_not m)) = length v).
  { unfold varbit_and, varbit_not. rewrite length_zip_same; [done|]. by rewrite length_map. }
  split.
  - intros k' v' i Hk'. destruct (decide (k = k')) as [<-|Hne].
    + rewrite lookup_insert_eq in Hk'. injection Hk' as <-. specialize (Hr k v i Hk). rewrite claimsAt_cons in Hr. simpl in Hr.
      rewrite bool_decide_true in Hr by done. rewrite bit_and_not by done. destruct (bit v i), (bit m i); simpl in *; lia.
    + rewrite lookup_insert_ne in Hk' by done. specialize (Hr k' v' i Hk'). rewrite claimsAt_cons in Hr. simpl in Hr.
      by rewrite bool_decide_false in Hr by done.
  - intros c Hin. destruct (Hc c) as (v' & Hv' & Hlen'); [by right|]. destruct (decide (k = c.1)) as [->|Hne].
    + exists (varbit_and v (varbit_not m)). rewrite lookup_insert_eq. split; [done|]. congruence.
    + exists v'. by rewrite lookup_insert_ne.
Qed.

(** Two claims on one row never share a segment. *)
Lemma exact_disjoint occ l a b k m m' i :
  exact occ l -> l !! a = Some (k, m) -> l !! b = Some (k, m') -> a <> b -> bit m i && bit m' i = false.
Proof.
  intros [Hr Hc] Ha Hb Hab. destruct (bit m i) eqn:Hm, (bit m' i) eqn:Hm'; try done. exfalso.
  destruct (Hc (k, m)) as (v & Hv & _); [by eapply list_elem_of_lookup_2|]. specialize (Hr k v i Hv).
  assert (2 <= claimsAt k i l)%nat.
  { apply (countIf_two _ l a b (k, m) (k, m')); auto; simpl; rewrite bool_decide_true by done; done. }
  destruct (bit v i); simpl in Hr; lia.
Qed.
End Exact.
