(* ===== verification/Router.v ===== *)
(** * Routing and fencing of train-run transactions

    Models [src/internal/sharding/postgres/router.go] and [routed_tx.go] and
    the begin functions of [src/internal/booking/postgres/sharding.go].

    Each catalog query reads the database at its own moment, so a function that
    issues several takes one database per query: other transactions may commit
    in between.  The optional route cache is the one of [RouteCache]; [now] is
    the reading of its clock during the operation.  The metrics and the query timeout are not modelled. *)

From S2P Require Import Prelude BookingDomain Sharding RouteCache BookingDb.
Import ShardTypes.

Definition SupportedFencingProtocolVersion : Z := 1.

Record Router := mkRouter { allowedShards : gset string; cache : option Cache }.

(** NewRouter without and with the WithAllowedShards option; the loop of the
    option stops at the first invalid or repeated shard. *)
Definition defaultShards : gset string := {[ShardLegacy; ShardZero; ShardOne]}.

Fixpoint allowLoop (configured : list string) (allowed : gset string) : option (gset string) :=
  match configured with
  | [] => Some allowed
  | candidate :: rest =>
      match ParseShardID candidate with
      | Err _ => None
      | Ok _ => if bool_decide (candidate ∈ allowed) then None else allowLoop rest ({[candidate]} ∪ allowed)
      end
  end.

Definition WithAllowedShards (shards : list string) : option (gset string) :=
  if Nat.eqb (length shards) 0 || (3 <? length shards)%nat then None else allowLoop shards ∅.

Definition NewRouter (c : option Cache) (option_ : option (list string)) : res RouteErr Router :=
  match option_ with
  | None => Ok (mkRouter defaultShards c)
  | Some shards =>
      match WithAllowedShards shards with
      | None => Err ErrShardUnavailable
      | Some allowed => failif Nat.eqb (size allowed) 0 with ErrShardUnavailable else Ok (mkRouter allowed c)
      end
  end.

Definition shardAllowed (r : Router) (shard : string) : bool := bool_decide (shard ∈ allowedShards r).

Definition validRoute (rt : ShardRoute) : bool :=
  negb (bool_decide (trainRunID rt = uuidNil)) && negb (generation rt <=? 0) && is_ok (ParseShardID (shardID rt)).

Definition catalogStateAllowsRoute (state : string) : bool :=
  bool_decide (state = "active"%string) || bool_decide (state = "draining"%string).

Definition fixedSearchPath (shard : string) : option Schema :=
  if bool_decide (shard = ShardLegacy) then Some Public
  else if bool_decide (shard = ShardZero) then Some Shard0
  else if bool_decide (shard = ShardOne) then Some Shard1
  else None.

(** The row of an assignment joined with its shard. *)
Definition assignmentJoin (db : DB) (run : uuid) : option (AssignmentRow * ShardRow) :=
  a ← assignments (control db) !! run; s ← booking_shards (control db) !! a_shard a; Some (a, s).

Definition protocolSupported (s : ShardRow) : bool :=
  negb (sh_min_protocol s <=? 0) && negb (SupportedFencingProtocolVersion <? sh_min_protocol s).

Definition putCache (c : option Cache) (rt : ShardRoute) (now : Z) : option Cache :=
  match c with
  | None => None
  | Some c => Some match Put c rt now with Ok c' => c' | Err _ => c end
  end.

Definition withCache (r : Router) (c : option Cache) : Router := mkRouter (allowedShards r) c.

Definition loadTrainRun (r : Router) (db : DB) (run : uuid) (now : Z) : res RouteErr ShardRoute * Router :=
  match assignmentJoin db run with
  | None => (Err ErrShardUnavailable, r)
  | Some (a, s) =>
      if negb (sh_enabled s) || negb (catalogStateAllowsRoute (sh_state s)) || negb (protocolSupported s)
      then (Err ErrShardUnavailable, r)
      else match ParseShardID (a_shard a) with
      | Err _ => (Err ErrShardUnavailable, r)
      | Ok shard =>
          if negb (shardAllowed r shard) then (Err ErrShardUnavailable, r) else
          match NewAssignmentGeneration (a_generation a) with
          | Err _ => (Err ErrShardUnavailable, r)
          | Ok gen =>
              match NewShardRoute run shard gen with
              | Err _ => (Err ErrShardUnavailable, r)
              | Ok rt => (Ok rt, withCache r (putCache (cache r) rt now))
              end
          end
      end
  end.

Definition ResolveTrainRun (r : Router) (db : DB) (run : uuid) (now : Z) : res RouteErr ShardRoute * Router :=
  if bool_decide (run = uuidNil) then (Err ErrShardUnavailable, r) else
  match cache r with
  | None => loadTrainRun r db run now
  | Some c =>
      match Get c run now with
      | (Some rt, c') =>
          if validRoute rt && bool_decide (trainRunID rt = run) && shardAllowed r (shardID rt)
          then (Ok rt, withCache r (Some c'))
          else loadTrainRun (withCache r (Some (Invalidate c' run))) db run now
      | (None, c') => loadTrainRun (withCache r (Some c')) db run now
      end
  end.

Definition RefreshTrainRun (r : Router) (db : DB) (run : uuid) (now : Z) : res RouteErr ShardRoute * Router :=
  if bool_decide (run = uuidNil) then (Err ErrShardUnavailable, r) else
  let r := withCache r (match cache r with None => None | Some c => Some (Invalidate c run) end) in
  loadTrainRun r db run now.

(** What follows the locator queries: [row] is the row found, if any. *)
Definition resolveLocator (r : Router) (row : option ShardRoute) : res RouteErr ShardRoute :=
  match row with
  | None => Err ErrLocatorNotFound
  | Some rt =>
      match ParseShardID (shardID rt) with
      | Err _ => Err ErrShardUnavailable
      | Ok shard =>
          failif negb (shardAllowed r shard) with ErrShardUnavailable else
          match NewAssignmentGeneration (generation rt) with
          | Err _ => Err ErrShardUnavailable
          | Ok gen => match NewShardRoute (trainRunID rt) shard gen with Err _ => Err ErrShardUnavailable | Ok rt' => Ok rt' end
          end
      end
  end.

Definition ResolveReservation (r : Router) (db : DB) (id : uuid) : res RouteErr ShardRoute :=
  failif bool_decide (id = uuidNil) with ErrLocatorNotFound else
  resolveLocator r (l_route <$> reservation_locators (control db) !! id).

Definition ResolveReservationForOwner (r : Router) (db : DB) (id owner : uuid) : res RouteErr ShardRoute :=
  failif bool_decide (id = uuidNil) || bool_decide (owner = uuidNil) with ErrLocatorNotFound else
  resolveLocator r (l ← reservation_locators (control db) !! id;
                    if bool_decide (l_owner l = owner) then Some (l_route l) else None).

Definition ResolveTicketOrder (r : Router) (db : DB) (id : uuid) : res RouteErr ShardRoute :=
  failif bool_decide (id = uuidNil) with ErrLocatorNotFound else
  resolveLocator r (ol_route <$> order_locators (control db) !! id).

Definition ResolveTicketOrderForOwner (r : Router) (db : DB) (id owner : uuid) : res RouteErr ShardRoute :=
  failif bool_decide (id = uuidNil) || bool_decide (owner = uuidNil) with ErrLocatorNotFound else
  resolveLocator r (l ← order_locators (control db) !! id;
                    if bool_decide (ol_owner l = owner) then Some (ol_route l) else None).

Definition ResolveTicket (r : Router) (db : DB) (id : uuid) : res RouteErr ShardRoute :=
  failif bool_decide (id = uuidNil) with ErrLocatorNotFound else
  resolveLocator r (tl_route <$> ticket_locators (control db) !! id).

Definition BeginTrainRunWrite (r : Router) (db : DB) (expected : ShardRoute) : res RouteErr Tx :=
  failif negb (validRoute expected) || negb (shardAllowed r (shardID expected)) with ErrShardUnavailable else
  match fixedSearchPath (shardID expected) with
  | None => Err ErrShardUnavailable
  | Some schema =>
      match assignmentJoin db (trainRunID expected) with
      | None => Err ErrShardUnavailable
      | Some (a, s) =>
          failif negb (is_ok (ParseShardID (a_shard a))) || (a_generation a <=? 0) with ErrShardUnavailable else
          failif negb (bool_decide (a_shard a = shardID expected)) || negb (a_generation a =? generation expected)
            with ErrAssignmentStale else
          failif negb (sh_enabled s) || negb (catalogStateAllowsRoute (sh_state s)) || negb (protocolSupported s)
            with ErrShardUnavailable else
          let hasActiveMigration := bool_decide (a_migration a <> None) in
          let* _ :=
            (if bool_decide (a_state a = "stable"%string) then
               failif hasActiveMigration with ErrTrainRunMigrating else Ok tt
             else if bool_decide (a_state a = "rollback_window"%string) then Ok tt
             else if bool_decide (a_state a = "migrating"%string) then
               failif negb hasActiveMigration with ErrShardUnavailable else Ok tt
             else if bool_decide (a_state a = "draining"%string) then Err ErrTrainRunMigrating
             else Err ErrShardUnavailable) in
          failif negb (sh_write_enabled s) with ErrWriteFenced else
          match write_fences (getLocal schema db) !! trainRunID expected with
          | None => Err ErrWriteFenced
          | Some (fenceGeneration, fenceWriteEnabled) =>
              failif negb (fenceGeneration =? generation expected) || negb fenceWriteEnabled with ErrWriteFenced else
              Ok (mkTx schema (Some expected))
          end
      end
  end.

Definition BeginTrainRunWriteWithRefresh (r : Router) (db1 db2 db3 : DB) (expected : ShardRoute) (now : Z)
    : res RouteErr Tx * Router :=
  match BeginTrainRunWrite r db1 expected with
  | Err ErrAssignmentStale =>
      match RefreshTrainRun r db2 (trainRunID expected) now with
      | (Err e, r') => (Err e, r')
      | (Ok fresh, r') => (BeginTrainRunWrite r' db3 fresh, r')
      end
  | other => (other, r)
  end.

Definition BeginTrainRunRead (r : Router) (db : DB) (expected : ShardRoute) : res RouteErr Tx :=
  failif negb (validRoute expected) || negb (shardAllowed r (shardID expected)) with ErrShardUnavailable else
  match fixedSearchPath (shardID expected) with
  | None => Err ErrShardUnavailable
  | Some schema =>
      match assignmentJoin db (trainRunID expected) with
      | None => Err ErrShardUnavailable
      | Some (a, s) =>
          failif negb (is_ok (ParseShardID (a_shard a))) || (a_generation a <=? 0) with ErrShardUnavailable else
          failif negb (bool_decide (a_shard a = shardID expected)) || negb (a_generation a =? generation expected)
            with ErrAssignmentStale else
          failif negb (sh_enabled s) || negb (catalogStateAllowsRoute (sh_state s)) || negb (protocolSupported s)
            with ErrShardUnavailable else
          Ok (mkTx schema (Some expected))
      end
  end.

(** The loop of ListEnabledShards over the rows the query returns. *)
Fixpoint listLoop (r : Router) (rows : list (string * ShardRow)) (seen : gset string) (result : list string)
    : res RouteErr (list string) :=
  match rows with
  | [] => failif Nat.eqb (length result) 0 with ErrShardUnavailable else Ok result
  | (raw, s) :: rest =>
      failif negb (is_ok (ParseShardID raw)) || Nat.eqb (size seen) 3 with ErrShardUnavailable else
      failif bool_decide (raw ∈ seen) with ErrShardUnavailable else
      let seen := {[raw]} ∪ seen in
      if negb (shardAllowed r raw) then listLoop r rest seen result else
      failif negb (protocolSupported s) with ErrShardUnavailable else
      listLoop r rest seen (result ++ [raw])
  end.

Definition shardRank (shard : string) : nat :=
  if bool_decide (shard = ShardLegacy) then 0 else if bool_decide (shard = ShardZero) then 1
  else if bool_decide (shard = ShardOne) then 2 else 3.

Definition enabledRows (db : DB) : list (string * ShardRow) :=
  sortBy (fun x y => (shardRank x.1 <=? shardRank y.1)%nat)
    (filter (fun x => sh_enabled x.2 = true /\ sh_state x.2 <> "disabled"%string)
       (map_to_list (booking_shards (control db)))).

Definition ListEnabledShards (r : Router) (db : DB) : res RouteErr (list string) :=
  listLoop r (enabledRows db) ∅ [].

(** ** The begin functions of the booking store

    [reads] are the databases at the up to four moments a begin function
    looks: resolve, begin, refresh, begin again. *)
Record Reads := mkReads { atResolve : DB; atBegin : DB; atRefresh : DB; atRetry : DB }.

(** [s.shards]: nil, or the router. *)
Definition newBookingTx (rt : res RouteErr Tx) : res StoreErr Tx :=
  match rt with
  | Err e => Err (ErrRoute e)
  | Ok tx =>
      match tx_route tx with
      | Some route => failif bool_decide (trainRunID route = uuidNil) with ErrRoute ErrShardUnavailable else Ok tx
      | None => Err (ErrRoute ErrShardUnavailable)
      end
  end.

Definition beginResolved (begin : Router -> DB -> ShardRoute -> res RouteErr Tx)
    (r : Router) (reads : Reads) (route : ShardRoute) (now : Z) : res StoreErr Tx * Router :=
  match begin r (atBegin reads) route with
  | Err ErrAssignmentStale =>
      match RefreshTrainRun r (atRefresh reads) (trainRunID route) now with
      | (Err e, r') => (Err (ErrRoute e), r')
      | (Ok fresh, r') => (newBookingTx (begin r' (atRetry reads) fresh), r')
      end
  | other => (newBookingTx other, r)
  end.

Definition beginResolvedWrite := beginResolved BeginTrainRunWrite.
Definition beginResolvedRead := beginResolved BeginTrainRunRead.

Definition beginTrainRunWrite (r : Router) (reads : Reads) (run : uuid) (now : Z) : res StoreErr Tx * Router :=
  if bool_decide (run = uuidNil) then (Err ErrInvalidArgument, r) else
  match ResolveTrainRun r (atResolve reads) run now with
  | (Err e, r') => (Err (ErrRoute e), r')
  | (Ok route, r') => beginResolvedWrite r' reads route now
  end.

Definition beginTrainRunRead (r : Router) (reads : Reads) (run : uuid) (now : Z) : res StoreErr Tx * Router :=
  if bool_decide (run = uuidNil) then (Err ErrInvalidArgument, r) else
  match ResolveTrainRun r (atResolve reads) run now with
  | (Err e, r') => (Err (ErrRoute e), r')
  | (Ok route, r') => beginResolvedRead r' reads route now
  end.

Definition beginReservationWrite (r : Router) (reads : Reads) (id owner : uuid) (now : Z) : res StoreErr Tx * Router :=
  if bool_decide (id = uuidNil) || bool_decide (owner = uuidNil) then (Err ErrInvalidArgument, r) else
  match ResolveReservationForOwner r (atResolve reads) id owner with
  | Err e => (Err (ErrRoute e), r)
  | Ok route => beginResolvedWrite r reads route now
  end.

Definition beginReservationRead (r : Router) (reads : Reads) (id owner : uuid) (now : Z) : res StoreErr Tx * Router :=
  if bool_decide (id = uuidNil) || bool_decide (owner = uuidNil) then (Err ErrInvalidArgument, r) else
  match ResolveReservationForOwner r (atResolve reads) id owner with
  | Err e => (Err (ErrRoute e), r)
  | Ok route => beginResolvedRead r reads route now
  end.

Definition beginReservationMaintenanceWrite (r : Router) (reads : Reads) (id : uuid) (now : Z) : res StoreErr Tx * Router :=
  if bool_decide (id = uuidNil) then (Err ErrInvalidArgument, r) else
  match ResolveReservation r (atResolve reads) id with
  | Err e => (Err (ErrRoute e), r)
  | Ok route => beginResolvedWrite r reads route now
  end.

(** Begin on the pool: the public schema, unrouted. *)
Definition Begin : Tx := mkTx Public None.

Definition beginCreateHoldTransaction (shards : option Router) (reads : Reads) (run : uuid) (now : Z)
    : res StoreErr Tx * option Router :=
  match shards with
  | Some r => let '(tx, r') := beginTrainRunWrite r reads run now in (tx, Some r')
  | None => (Ok Begin, None)
  end.

Definition beginReservationCommandTransaction (shards : option Router) (reads : Reads) (id owner : uuid) (now : Z)
    : res StoreErr Tx * option Router :=
  match shards with
  | Some r => let '(tx, r') := beginReservationWrite r reads id owner now in (tx, Some r')
  | None => (Ok Begin, None)
  end.

(** ** What a begun write transaction guarantees *)

(** [db] says that [rt] is the current assignment of its run, in a state that
    accepts writes, and the storage's local fence is open at its generation. *)
Definition write_authority (db : DB) (tx : Tx) : Prop :=
  exists rt a s, tx_route tx = Some rt /\ fixedSearchPath (shardID rt) = Some (tx_schema tx) /\
    assignments (control db) !! trainRunID rt = Some a /\ booking_shards (control db) !! a_shard a = Some s /\
    a_shard a = shardID rt /\ a_generation a = generation rt /\ 0 < generation rt /\
    a_state a <> "draining"%string /\ sh_enabled s = true /\ sh_write_enabled s = true /\
    write_fences (getLocal (tx_schema tx) db) !! trainRunID rt = Some (generation rt, true).

Lemma assignmentJoin_Some db run a s :
  assignmentJoin db run = Some (a, s) <->
  assignments (control db) !! run = Some a /\ booking_shards (control db) !! a_shard a = Some s.
Proof.
  unfold assignmentJoin. destruct (assignments (control db) !! run) as [a'|]; simpl; [|naive_solver].
  destruct (booking_shards (control db) !! a_shard a') as [s'|] eqn:E; simpl; naive_solver.
Qed.

Lemma BeginTrainRunWrite_authority r db rt tx :
  BeginTrainRunWrite r db rt = Ok tx -> tx_route tx = Some rt /\ write_authority db tx.
Proof.
  unfold BeginTrainRunWrite. intros H. apply failif_Ok in H as [Hv H].
  destruct (fixedSearchPath (shardID rt)) as [schema|] eqn:Hs; [|done].
  destruct (assignmentJoin db (trainRunID rt)) as [[a s]|] eqn:Hj; [|done].
  apply assignmentJoin_Some in Hj as [Ha Hsh].
  apply failif_Ok in H as [Hp H]. apply failif_Ok in H as [Hst H]. apply failif_Ok in H as [Hen H].
  apply bind_Ok in H as (u & Hstate & H). apply failif_Ok in H as [Hw H].
  destruct (write_fences (getLocal schema db) !! trainRunID rt) as [[g w]|] eqn:Hf; [|done].
  apply failif_Ok in H as [Hg H]. injection H as <-. split; [done|].
  apply orb_false_iff in Hst as [Hst1 Hst2]. apply negb_false_iff, bool_decide_eq_true in Hst1.
  apply orb_false_iff in Hg as [Hg1 Hg2]. apply orb_false_iff in Hp as [_ Hp].
  apply orb_false_iff in Hen as [[Hen _]%orb_false_iff _].
  exists rt, a, s. cbn [tx_route tx_schema]. destruct w; [|done].
  split_and!; auto; try lia.
  - intros Hd. rewrite Hd in Hstate. simpl in Hstate. done.
  - rewrite Hf. do 2 f_equal. lia.
Qed.

Lemma newBookingTx_Ok o tx : newBookingTx o = Ok tx -> o = Ok tx.
Proof.
  unfold newBookingTx. destruct o as [tx'|]; [|done]. destruct (tx_route tx'); [|done].
  intros H. inv_ok. congruence.
Qed.

Lemma beginResolvedWrite_authority r reads rt now tx r' :
  beginResolvedWrite r reads rt now = (Ok tx, r') ->
  write_authority (atBegin reads) tx \/ write_authority (atRetry reads) tx.
Proof.
  unfold beginResolvedWrite, beginResolved. destruct (BeginTrainRunWrite r (atBegin reads) rt) as [tx'|e] eqn:E.
  - intros H. apply (f_equal fst) in H. cbn [fst] in H. apply newBookingTx_Ok in H as [= <-]. left. eapply BeginTrainRunWrite_authority, E.
  - destruct e; try done.
    destruct (RefreshTrainRun r (atRefresh reads) (trainRunID rt) now) as [[fresh|e] r''] eqn:Er; [|done].
    intros H. apply (f_equal fst) in H. cbn [fst] in H. apply newBookingTx_Ok in H. right. eapply BeginTrainRunWrite_authority, H.
Qed.

(** C35: whatever the advisory cache holds and however the catalog changes
    between the lookups, a routed write transaction is handed out only when the
    database state in which it began has the route as the run's current
    assignment, in a write-enabled shard whose local fence is open at exactly
    that generation, and its search path is that shard's schema. *)
Theorem routed_write_is_fenced r reads run id owner now tx r' :
  beginTrainRunWrite r reads run now = (Ok tx, r') \/
  beginReservationWrite r reads id owner now = (Ok tx, r') \/
  beginReservationMaintenanceWrite r reads id now = (Ok tx, r') ->
  write_authority (atBegin reads) tx \/ write_authority (atRetry reads) tx.
Proof.
  unfold beginTrainRunWrite, beginReservationWrite, beginReservationMaintenanceWrite.
  intros [H|[H|H]].
  - destruct (bool_decide (run = uuidNil)); [done|]. destruct (ResolveTrainRun _ _ _ _) as [[rt|e] r1]; [|done].
    eauto using beginResolvedWrite_authority.
  - destruct (bool_decide (id = uuidNil) || _); [done|]. destruct (ResolveReservationForOwner _ _ _ _) as [rt|e]; [|done].
    eauto using beginResolvedWrite_authority.
  - destruct (bool_decide (id = uuidNil)); [done|]. destruct (ResolveReservation _ _ _) as [rt|e]; [|done].
    eauto using beginResolvedWrite_authority.
Qed.

(** The route of the current assignment. *)
Definition current_route (db : DB) (run : uuid) (rt : ShardRoute) : Prop :=
  exists a, assignments (control db) !! run = Some a /\ rt = mkShardRoute run (a_shard a) (a_generation a).

Lemma loadTrainRun_current r db run rt now tx :
  current_route db run rt -> BeginTrainRunWrite r db rt = Ok tx ->
  exists r', loadTrainRun r db run now = (Ok rt, r') /\ allowedShards r' = allowedShards r.
Proof.
  intros (a & Ha & ->) H. unfold BeginTrainRunWrite in H. cbn [trainRunID shardID generation] in H.
  apply failif_Ok in H as [Hv H]. destruct (fixedSearchPath (a_shard a)) as [schema|]; [|done].
  unfold loadTrainRun. destruct (assignmentJoin db run) as [[a' s]|] eqn:Hj; [|done].
  apply assignmentJoin_Some in Hj as [Ha' Hs]. assert (a' = a) as -> by congruence.
  apply failif_Ok in H as [Hp H]. apply failif_Ok in H as [_ H]. apply failif_Ok in H as [Hen H]. rewrite Hen.
  apply orb_false_iff in Hv as [Hv Hall]. apply negb_false_iff in Hv, Hall.
  unfold validRoute in Hv. cbn [trainRunID shardID generation] in Hv.
  apply andb_true_iff in Hv as [[Hn Hg]%andb_true_iff Hps]. apply negb_true_iff in Hn, Hg.
  destruct (ParseShardID (a_shard a)) as [sh|] eqn:Eps; [|done].
  pose proof (proj1 (ParseShardID_Ok _ _) Eps) as [-> _].
  unfold shardAllowed in *. rewrite Hall. cbn [negb].
  unfold NewAssignmentGeneration, NewShardRoute. rewrite !Hg, Hn, Eps. cbn [orb]. rewrite ?Hg. eexists. split; reflexivity.
Qed.

Lemma fixedSearchPath_default shard : shard ∈ defaultShards -> is_Some (fixedSearchPath shard).
Proof.
  unfold defaultShards, fixedSearchPath. rewrite !elem_of_union, !elem_of_singleton.
  intros [[->| ->]| ->]; vm_compute; eauto.
Qed.

(** A valid route of the run is either the current one or reported stale. *)
Lemma begin_current_or_stale r db run rt rt' tx :
  allowedShards r ⊆ defaultShards -> current_route db run rt -> BeginTrainRunWrite r db rt = Ok tx ->
  validRoute rt' = true -> trainRunID rt' = run -> shardAllowed r (shardID rt') = true ->
  rt' = rt \/ BeginTrainRunWrite r db rt' = Err ErrAssignmentStale.
Proof.
  intros Hdef (a & Ha & ->) Hb Hv Hrun Hal. unfold BeginTrainRunWrite in Hb |- *.
  cbn [trainRunID shardID generation] in Hb. rewrite Hrun, Hv, Hal. cbn [negb orb].
  destruct (fixedSearchPath_default (shardID rt')) as [sc ->]; [apply Hdef; by apply bool_decide_eq_true in Hal|].
  apply failif_Ok in Hb as [_ Hb]. destruct (fixedSearchPath (a_shard a)); [|done].
  destruct (assignmentJoin db run) as [[a' s']|] eqn:Hj; [|done].
  apply assignmentJoin_Some in Hj as [Ha' _]. assert (a' = a) as -> by congruence.
  apply failif_Ok in Hb as [Hp _]. rewrite Hp.
  destruct (negb (bool_decide (a_shard a = shardID rt')) || negb (a_generation a =? generation rt')) eqn:E; [by right|left].
  apply orb_false_iff in E as [E1 E2]. apply negb_false_iff, bool_decide_eq_true in E1.
  destruct rt' as [run' sh g]. cbn in *. f_equal; try congruence. lia.
Qed.

(** a stale cache costs one refresh and never availability: with the
    logical shards allowed, if the run's current assignment accepts writes then
    beginTrainRunWrite begins the transaction on that assignment, whatever
    route the cache holds for the run. *)
Theorem stale_cache_recovers r db run rt now tx :
  allowedShards r ⊆ defaultShards ->
  current_route db run rt -> BeginTrainRunWrite r db rt = Ok tx ->
  (beginTrainRunWrite r (mkReads db db db db) run now).1 = Ok tx.
Proof.
  intros Hdef Hcur Hbegin.
  assert (Hrun : trainRunID rt = run) by (destruct Hcur as (a & _ & ->); done).
  assert (Htx : newBookingTx (Ok tx) = Ok tx /\ run <> uuidNil).
  { destruct (BeginTrainRunWrite_authority _ _ _ _ Hbegin) as [Hrt _]. unfold newBookingTx. rewrite Hrt, Hrun.
    unfold BeginTrainRunWrite, validRoute in Hbegin. rewrite Hrun in Hbegin.
    destruct (bool_decide (run = uuidNil)) eqn:E; [done|]. by apply bool_decide_eq_false in E. }
  destruct Htx as [Htx Hnil].
  assert (Hall : forall r', allowedShards r' = allowedShards r -> forall rt', BeginTrainRunWrite r' db rt' = BeginTrainRunWrite r db rt').
  { intros r' Hr' rt'. unfold BeginTrainRunWrite, shardAllowed. by rewrite Hr'. }
  assert (Hload : forall r', allowedShards r' = allowedShards r -> exists r2, loadTrainRun r' db run now = (Ok rt, r2) /\ allowedShards r2 = allowedShards r).
  { intros r' Hr'. destruct (loadTrainRun_current r' db run rt now tx Hcur) as (r2 & Hl & Hr2); [by rewrite Hall|].
    exists r2. split; [done|congruence]. }
  assert (Hgo : forall r', allowedShards r' = allowedShards r ->
     (beginResolvedWrite r' (mkReads db db db db) rt now).1 = Ok tx).
  { intros r' Hr'. unfold beginResolvedWrite, beginResolved. cbn [atBegin]. by rewrite Hall, Hbegin. }
  unfold beginTrainRunWrite, ResolveTrainRun. cbn [atResolve].
  rewrite bool_decide_eq_false_2 by done.
  destruct (cache r) as [c|]; [|destruct (Hload r eq_refl) as (r2 & -> & Hr2); auto].
  destruct (Get c run now) as [[rt'|] c'] eqn:Hget;
    [|destruct (Hload (withCache r (Some c')) eq_refl) as (r2 & -> & Hr2); auto].
  destruct (validRoute rt' && bool_decide (trainRunID rt' = run) && shardAllowed r (shardID rt')) eqn:Hok;
    [|destruct (Hload (withCache r (Some (Invalidate c' run))) eq_refl) as (r2 & -> & Hr2); auto].
  apply andb_true_iff in Hok as [[Hv Hr]%andb_true_iff Hal]. apply bool_decide_eq_true in Hr.
  destruct (begin_current_or_stale r db run rt rt' tx Hdef Hcur Hbegin Hv Hr Hal) as [->|Hstale]; [auto|].
  unfold beginResolvedWrite, beginResolved. cbn [atBegin atRefresh atRetry].
  rewrite (Hall (withCache r (Some c')) eq_refl), Hstale. unfold RefreshTrainRun. rewrite Hr.
  rewrite bool_decide_eq_false_2 by done. cbn [cache withCache].
  destruct (Hload (withCache (withCache r (Some c')) (Some (Invalidate c' run))) eq_refl) as (r2 & Hl & Hr2).
  unfold withCache in Hl |- *. cbn [allowedShards cache] in Hl |- *. rewrite Hl. cbn [fst]. by rewrite Hall, Hbegin.
Qed.

(** Run 7 assigned to shard-0 at generation 3, its fence open there. *)
Definition exampleRouted : DB :=
  mkDB emptyLocal (mkLocal ∅ ∅ [] ∅ [] ∅ {[7%N := (3, true)]}) emptyLocal
    (mkControl ∅ ∅ ∅ ∅ ∅ {[7%N := mkAssignmentRow ShardZero 3 "stable" None]}
       {[ShardZero := mkShardRow true true "active" 1]} ∅)
    emptyCatalogue [].

Lemma routed_write_is_fenced_witness :
  exists tx r', beginTrainRunWrite (mkRouter defaultShards None)
      (mkReads exampleRouted exampleRouted exampleRouted exampleRouted) 7%N 0 = (Ok tx, r') /\
    (write_authority exampleRouted tx \/ write_authority exampleRouted tx).
Proof.
  do 2 eexists. split; [vm_compute; reflexivity|].
  eapply (routed_write_is_fenced (mkRouter defaultShards None)
    (mkReads exampleRouted exampleRouted exampleRouted exampleRouted) 7%N 0%N 0%N 0).
  left. vm_compute. reflexivity.
Defined.

(** The cache still holds generation 2 on shard-1. *)
Lemma stale_cache_recovers_witness :
  let c := mkCache true 10 2 {[7%N := 0%nat]} [0%nat] {[0%nat := mkEntry 7%N (mkShardRoute 7%N ShardOne 2) 5]} 1 in
  (beginTrainRunWrite (mkRouter defaultShards (Some c))
     (mkReads exampleRouted exampleRouted exampleRouted exampleRouted) 7%N 0).1 =
  Ok (mkTx Shard0 (Some (mkShardRoute 7%N ShardZero 3))).
Proof.
  intros c. apply (stale_cache_recovers _ _ _ (mkShardRoute 7%N ShardZero 3)).
  - done.
  - eexists. split; [vm_compute; reflexivity|reflexivity].
  - vm_compute. reflexivity.
Defined.
