(* ===== verification/BookingStore.v ===== *)
(** * The booking store

    Models the commands of [src/internal/booking/postgres]: idempotency
    ([idempotency.go], [idempotency_claims.go]), quota ([quota.go],
    [quota_claims.go]), the admission-policy recheck ([admission_policy.go]),
    inventory ([store.go]), the reservation commands
    ([reservation_store.go], [expiration_sharding.go]), locators
    ([locators.go]), generation writes ([generation_writes.go]), the outbox
    ([outbox.go]) and the audit ([reconciliation.go]).

    A transaction body runs against the database as one step: the row,
    advisory and assignment locks the code takes serialise the transactions
    that touch the same rows.  What the database and the runtime supply is in
    [Env]: readings of clock_timestamp(), generated UUIDs, the rows other
    transactions hold locked (SKIP LOCKED), the collation of text, the length
    of a JSON encoding, and whether a statement or the commit is aborted. *)

From S2P Require Import Prelude SegmentMask BookingDomain Sharding RouteCache BookingDb Router.
Import ShardTypes.

Record Env := mkEnv {
  clk_acquire : time;        (** in AcquireIdempotency *)
  clk_run : time;            (** with the train-run row *)
  clk_due : time;            (** selecting due reservations *)
  clk_write : time;          (** in the status updates *)
  clk_order : time;          (** created_at of a new order *)
  new_record : uuid; new_claim : uuid; new_reservation : uuid; new_order : uuid;
  new_seat_row : nat -> uuid; new_ticket : nat -> uuid; new_code : nat -> string;
  locked : uuid -> uuid -> bool;              (** an inventory row (run, seat) *)
  locked_reservation : uuid -> bool;
  locked_record : uuid -> bool;               (** an idempotency record or claim *)
  locked_assignment : uuid -> bool;
  collate : string -> string -> bool;         (** a sorts before or with b *)
  jsonLength : Payload -> option Z;           (** json.Marshal: None is an error *)
  deadlocked : bool; commitFails : bool
}.

(** ** Small predicates *)
Definition validSeatClass (value : string) : bool :=
  bool_decide (toLower value ∈ ["standard"; "business"; "first"]%string).

Definition OperationReservationCreate : string := "reservation.create".
Definition OperationReservationConfirm : string := "reservation.confirm".
Definition OperationReservationCancel : string := "reservation.cancel".

Definition validOperation (op : string) : bool :=
  bool_decide (op ∈ [OperationReservationCreate; OperationReservationConfirm; OperationReservationCancel]).

Definition validReservationEvent (v : string) : bool :=
  bool_decide (v ∈ ["reservation.held"; "reservation.confirmed"; "reservation.expired"; "reservation.cancelled"]%string).

Definition isNil (id : uuid) : bool := bool_decide (id = uuidNil).

(** 24 hours in nanoseconds, the unit of [time]. *)
Definition day : Z := 24 * 3600 * 1000000000.

Definition Commit (tx : Tx) (env : Env) : M unit :=
  if commitFails env then fail (if routed tx then ErrRoute ErrShardUnavailable else ErrSerialization) else ret tt.

(** ** Outbox *)
Definition maxOutboxPayloadBytes : Z := 64 * 1024.

Definition appendOutbox (row : OutboxRow) : M unit :=
  fun db => Ok (tt, setOutbox (outbox db ++ [row]) db).

Definition appendReservationEvent (tx : Tx) (env : Env) (reservation : uuid) (eventType : string) (payload : Payload)
    : M unit :=
  stopif isNil reservation || negb (validReservationEvent eventType) with ErrInvalidArgument else
  match jsonLength env payload with
  | None => fail ErrDatabase
  | Some n =>
      stopif maxOutboxPayloadBytes <? n with ErrInvalidArgument else
      appendOutbox (mkOutboxRow "reservation" reservation eventType payload (tx_route tx))
  end.

Definition appendTicketEvent (tx : Tx) (env : Env) (ticket : uuid) (payload : Payload) : M unit :=
  stopif isNil ticket with ErrInvalidArgument else
  match jsonLength env payload with
  | None => fail ErrDatabase
  | Some n =>
      stopif maxOutboxPayloadBytes <? n with ErrInvalidArgument else
      appendOutbox (mkOutboxRow "ticket" ticket "ticket.created" payload (tx_route tx))
  end.

(** ** Retiring expired idempotency claims *)

(** The claim rows whose id is in the list. *)
Definition claimsWithIds (c : Control) (ids : list uuid) : gmap idemKey ClaimRow :=
  filter (fun kv : idemKey * ClaimRow => c_id kv.2 ∈ ids) (claims c).

(** One of the three DELETE ... USING statements. *)
Definition exactCopy (c : ClaimRow) (row : IdemRow) : bool :=
  bool_decide (ir_fingerprint row = c_fingerprint c) && bool_decide (ir_run row = c_run c) &&
  (ir_expires row =? c_expires c).

Definition deleteExactCopies (cs : gmap idemKey ClaimRow) (l : Local) : Local :=
  withIdempotency l (filter (fun kv : idemKey * IdemRow =>
    (match cs !! kv.1 with Some c => exactCopy c kv.2 | None => false end) = false) (idempotency l)).

Definition localRecordRemains (cs : gmap idemKey ClaimRow) (l : Local) : bool :=
  existsb (fun kv : idemKey * ClaimRow => bool_decide (is_Some (idempotency l !! kv.1))) (map_to_list cs).

Definition retireExpiredIdempotencyClaims (claimIDs : list uuid) : M unit := fun db =>
  if Nat.eqb (length claimIDs) 0 then Ok (tt, db) else
  let cs := claimsWithIds (control db) claimIDs in
  let db := setLocal Public (deleteExactCopies cs (public db)) db in
  let db := setLocal Shard0 (deleteExactCopies cs (booking_shard_0 db)) db in
  let db := setLocal Shard1 (deleteExactCopies cs (booking_shard_1 db)) db in
  failif localRecordRemains cs (public db) || localRecordRemains cs (booking_shard_0 db) ||
         localRecordRemains cs (booking_shard_1 db) with ErrPersistenceInvariant else
  failif negb (Z.of_nat (size cs) =? Z.of_nat (length claimIDs)) with ErrPersistenceInvariant else
  Ok (tt, setControl (withClaims (control db)
    (filter (fun kv : idemKey * ClaimRow => ~ (c_id kv.2 ∈ claimIDs)) (claims (control db)))) db).

(** ** Idempotency *)
Record IdempotencyInput := mkIdemInput {
  in_user : uuid; in_operation : string; in_key : list Z; in_fingerprint : list Z; in_expires : time }.

Record Acquisition := mkAcquisition { acq_record : uuid; acq_replayed : bool; acq_resource : uuid }.

Definition inputKey (i : IdempotencyInput) : idemKey := (in_user i, in_operation i, in_key i).

(** Another row already has the generated id. *)
Definition claimIdTaken (c : Control) (id : uuid) : bool :=
  existsb (fun kv : idemKey * ClaimRow => bool_decide (c_id kv.2 = id)) (map_to_list (claims c)).
Definition recordIdTaken (l : Local) (k : idemKey) (id : uuid) : bool :=
  existsb (fun kv : idemKey * IdemRow => bool_decide (kv.1 <> k) && bool_decide (ir_id kv.2 = id))
    (map_to_list (idempotency l)).

(** The claim as INSERT ... ON CONFLICT DO NOTHING and the second SELECT leave
    it.  The result is the claim's expiry and the acquisition time. *)
Definition insertAndLockClaim (run : uuid) (env : Env) (input : IdempotencyInput) : M (time * time) :=
  let acquiredAt := clk_acquire env in
  let key := inputKey input in
  let! c := getControl in
  let! _ := (match claims c !! key with
             | Some _ => ret tt
             | None =>
                 stopif claimIdTaken c (new_claim env) with ErrDatabase else
                 putControl (withClaims c (<[key := mkClaimRow (new_claim env) (in_fingerprint input) (Some run)
                                                      (acquiredAt + day)]> (claims c)))
             end) in
  let! c := getControl in
  match claims c !! key with
  | None => fail ErrDatabase
  | Some claim =>
      match c_run claim with
      | None => fail ErrDatabase
      | Some claimRun =>
          stopif negb (bool_decide (c_fingerprint claim = in_fingerprint input)) with ErrIdempotencyConflict else
          stopif negb (bool_decide (claimRun = run)) with ErrIdempotencyConflict else
          stopif negb (After (c_expires claim) acquiredAt) with ErrRoute ErrShardUnavailable else
          ret (c_expires claim, acquiredAt)
      end
  end.

Definition acquireGlobalIdempotencyClaim (rt : ShardRoute) (env : Env) (input : IdempotencyInput) : M (time * time) :=
  stopif isNil (trainRunID rt) with ErrInvalidArgument else
  let acquiredAt := clk_acquire env in
  let run := trainRunID rt in
  let! c := getControl in
  match claims c !! inputKey input with
  | Some claim =>
      if After (c_expires claim) acquiredAt then
        stopif negb (bool_decide (c_fingerprint claim = in_fingerprint input)) ||
               negb (bool_decide (c_run claim = Some run)) with ErrIdempotencyConflict else
        ret (c_expires claim, acquiredAt)
      else
        stopif negb (bool_decide (c_run claim = Some run)) with ErrRoute ErrShardUnavailable else
        let! _ := retireExpiredIdempotencyClaims [c_id claim] in
        insertAndLockClaim run env input
  | None => insertAndLockClaim run env input
  end.

(** INSERT ... ON CONFLICT DO UPDATE ... WHERE expires_at <= acquiredAt
    RETURNING id: the new table and the returned id, if a row was written. *)
Definition upsertIdempotency (tx : Tx) (env : Env) (input : IdempotencyInput) (expires acquiredAt : time) (l : Local)
    : Local * option uuid :=
  let key := inputKey input in
  let routedRun := trainRunID <$> tx_route tx in
  match idempotency l !! key with
  | None =>
      (withIdempotency l (<[key := mkIdemRow (new_record env) (in_fingerprint input) false None expires routedRun]>
         (idempotency l)), Some (new_record env))
  | Some old =>
      if ir_expires old <=? acquiredAt then
        (withIdempotency l (<[key := mkIdemRow (new_record env) (in_fingerprint input) false None expires
           (match routedRun with Some r => Some r | None => ir_run old end)]> (idempotency l)), Some (new_record env))
      else (l, None)
  end.

Definition AcquireIdempotency (tx : Tx) (env : Env) (input : IdempotencyInput) : M Acquisition :=
  stopif isNil (in_user input) || negb (validOperation (in_operation input)) ||
         negb (Z.of_nat (length (in_key input)) =? 32) || negb (Z.of_nat (length (in_fingerprint input)) =? 32) ||
         IsZeroTime (in_expires input) with ErrInvalidArgument else
  let! p := (match tx_route tx with
             | Some rt => acquireGlobalIdempotencyClaim rt env input
             | None => ret (clk_acquire env + day, clk_acquire env)
             end) in
  let '(expires, acquiredAt) := p in
  let! l := getTables tx in
  let '(l', inserted) := upsertIdempotency tx env input expires acquiredAt l in
  stopif bool_decide (is_Some inserted) && recordIdTaken l (inputKey input) (new_record env) with ErrDatabase else
  let! _ := putTables tx l' in
  match idempotency l' !! inputKey input with
  | None => fail ErrDatabase
  | Some row =>
      stopif negb (bool_decide (ir_fingerprint row = in_fingerprint input)) with ErrIdempotencyConflict else
      stopif (match tx_route tx with
              | Some rt => negb (bool_decide (ir_run row = Some (trainRunID rt))) || negb (ir_expires row =? expires)
              | None => false
              end) with ErrPersistenceInvariant else
      if ir_completed row then
        match ir_resource row with
        | None => fail ErrPersistenceInvariant
        | Some id => stopif isNil id with ErrPersistenceInvariant else ret (mkAcquisition (ir_id row) true id)
        end
      else
        stopif negb (bool_decide (inserted = Some (ir_id row))) with ErrIdempotencyInProgress else
        ret (mkAcquisition (ir_id row) false uuidNil)
  end.

Definition completable (id : uuid) (row : IdemRow) : bool := bool_decide (ir_id row = id) && negb (ir_completed row).

Definition CompleteIdempotency (tx : Tx) (recordID reservationID : uuid) : M unit :=
  stopif isNil recordID || isNil reservationID with ErrInvalidArgument else
  let! l := getTables tx in
  let n := size (filter (fun kv : idemKey * IdemRow => completable recordID kv.2 = true) (idempotency l)) in
  stopif negb (Nat.eqb n 1) with ErrPersistenceInvariant else
  putTables tx (withIdempotency l ((fun row =>
    if completable recordID row
    then mkIdemRow (ir_id row) (ir_fingerprint row) true (Some reservationID) (ir_expires row) (ir_run row)
    else row) <$> idempotency l)).

(** ** Quota *)
Record QuotaLimits := mkLimits {
  MaxActiveHoldsPerUser : Z; MaxActiveHoldsPerUserPerTrainRun : Z; MaxActivePassengersPerUser : Z }.

Definition DefaultReservationQuotaLimits : QuotaLimits := mkLimits 10 3 24.

Definition limitsValid (l : QuotaLimits) : bool :=
  (0 <? MaxActiveHoldsPerUser l) && (0 <? MaxActiveHoldsPerUserPerTrainRun l) &&
  (MaxActiveHoldsPerUserPerTrainRun l <=? MaxActiveHoldsPerUser l) && (0 <? MaxActivePassengersPerUser l).

Definition atOrAboveLimit (current additional limit : Z) : bool :=
  if (current <? 0) || (additional <? 0) || (limit <=? 0) || (limit <=? current) then true
  else limit - current <? additional.

Definition heldBy (user : uuid) (r : ReservationRow) : bool :=
  bool_decide (r_user r = user) && bool_decide (r_status r = Held).

(** The three counts of the unrouted query. *)
Definition countHolds (l : Local) (user : uuid) : Z :=
  Z.of_nat (size (filter (fun kv : uuid * ReservationRow => heldBy user kv.2 = true) (reservations l))).
Definition countRunHolds (l : Local) (user run : uuid) : Z :=
  Z.of_nat (size (filter (fun kv : uuid * ReservationRow => heldBy user kv.2 && bool_decide (r_run kv.2 = run) = true)
    (reservations l))).
Definition seatHeldBy (l : Local) (user : uuid) (rs : SeatRow) : bool :=
  match reservations l !! rs_reservation rs with Some r => heldBy user r | None => false end.
Definition countPassengers (l : Local) (user : uuid) : Z :=
  Z.of_nat (length (filter (fun rs => seatHeldBy l user rs = true) (reservation_seats l))).

(** The active quota claims of a user, for the routed query. *)
Definition activeClaims (c : Control) (user : uuid) : gmap uuid QuotaRow :=
  filter (fun kv : uuid * QuotaRow => bool_decide (q_user kv.2 = user) && q_active kv.2 = true) (quota_claims c).

Definition quotaCounts (tx : Tx) (user run : uuid) : M (Z * Z * Z) :=
  if routed tx then
    let! c := getControl in
    let act := activeClaims c user in
    ret (Z.of_nat (size act),
         Z.of_nat (size (filter (fun kv : uuid * QuotaRow => q_run kv.2 = run) act)),
         map_fold (fun _ q acc => q_count q + acc) 0 act)
  else
    let! l := getTables tx in
    ret (countHolds l user, countRunHolds l user run, countPassengers l user).

Definition enforceReservationQuota (tx : Tx) (user run : uuid) (passengersToAdd : Z) (limits : QuotaLimits) : M unit :=
  stopif isNil user || isNil run || (passengersToAdd <=? 0) || negb (limitsValid limits) with ErrInvalidArgument else
  let! counts := quotaCounts tx user run in
  let '(activeHolds, activeRunHolds, activePassengers) := counts in
  stopif atOrAboveLimit activeHolds 1 (MaxActiveHoldsPerUser limits) ||
         atOrAboveLimit activeRunHolds 1 (MaxActiveHoldsPerUserPerTrainRun limits) ||
         atOrAboveLimit activePassengers passengersToAdd (MaxActivePassengersPerUser limits)
    with ErrReservationQuotaExceeded else
  ret tt.

Definition insertReservationQuotaClaim (tx : Tx) (reservation user run : uuid) (passengerCount : Z) : M unit :=
  stopif isNil reservation || isNil user || isNil run || (passengerCount <=? 0) with ErrInvalidArgument else
  if negb (routed tx) then ret tt else
  let! c := getControl in
  match quota_claims c !! reservation with
  | None => putControl (withQuotaClaims c (<[reservation := mkQuotaRow user run passengerCount true]> (quota_claims c)))
  | Some q =>
      stopif negb (bool_decide (q_user q = user)) || negb (bool_decide (q_run q = run)) ||
             negb (q_count q =? passengerCount) || negb (q_active q) with ErrPersistenceInvariant else
      ret tt
  end.

Definition closeReservationQuotaClaim (tx : Tx) (reservation : uuid) : M unit :=
  stopif isNil reservation with ErrInvalidArgument else
  if negb (routed tx) then ret tt else
  let! c := getControl in
  putControl (withQuotaClaims c
    (alter (fun q => mkQuotaRow (q_user q) (q_run q) (q_count q) false) reservation (quota_claims c))).

(** ** Admission policy *)
Record PolicyDecision := mkDecision { d_policy : uuid; d_version : Z }.

Definition recheckAdmissionPolicy (run : uuid) (seatClass : string) (decision : option PolicyDecision) : M unit :=
  (* policylock.AcquireBookingRead *)
  stopif isNil run || negb (validSeatClass seatClass) with ErrInvalidArgument else
  let! cat := getCatalogue in
  match (p ← hot_train_policies cat !! (run, seatClass); if p_enabled p then Some p else None) with
  | None => match decision with None => ret tt | Some _ => fail ErrAdmissionPolicyChanged end
  | Some current =>
      match decision with
      | None => fail ErrAdmissionRequired
      | Some d =>
          stopif negb (bool_decide (p_id current = d_policy d)) || negb (p_version current =? d_version d)
            with ErrAdmissionPolicyChanged else
          ret tt
      end
  end.

(** ** Generation writes *)
Definition recordSuccessfulGenerationWrite (tx : Tx) : M unit :=
  match tx_route tx with
  | None => ret tt
  | Some rt =>
      stopif isNil (trainRunID rt) || (generation rt <=? 0) with ErrPersistenceInvariant else
      let! c := getControl in
      match (a ← assignments c !! trainRunID rt;
             if bool_decide (a_shard a = shardID rt) && (a_generation a =? generation rt) then Some a else None) with
      | None => fail (ErrRoute ErrAssignmentStale)
      | Some a =>
          match a_migration a with
          | None => stopif bool_decide (a_state a = "rollback_window"%string) with ErrPersistenceInvariant else ret tt
          | Some migration =>
              let key := (trainRunID rt, generation rt) in
              match generation_writes c !! key with
              | None =>
                  putControl (withGenerationWrites c (<[key := mkWritesRow (shardID rt) migration 1]> (generation_writes c)))
              | Some w =>
                  stopif negb (bool_decide (w_shard w = shardID rt)) || negb (bool_decide (w_migration w = migration))
                    with ErrPersistenceInvariant else
                  putControl (withGenerationWrites c
                    (<[key := mkWritesRow (w_shard w) (w_migration w) (w_count w + 1)]> (generation_writes c)))
              end
          end
      end
  end.

(** ** Locators *)
Definition insertReservationLocator (tx : Tx) (reservation owner : uuid) : M unit :=
  stopif isNil reservation || isNil owner with ErrInvalidArgument else
  match tx_route tx with
  | None => ret tt
  | Some rt =>
      let! c := getControl in
      match reservation_locators c !! reservation with
      | None => putControl (withReservationLocators c (<[reservation := mkLocatorRow rt owner]> (reservation_locators c)))
      | Some l =>
          stopif negb (bool_decide (l_route l = rt)) || negb (bool_decide (l_owner l = owner))
            with ErrPersistenceInvariant else ret tt
      end
  end.

(** ticket_order_shard_locators has a second unique key, reservation_id. *)
Definition orderLocatorTaken (c : Control) (reservation : uuid) : bool :=
  existsb (fun kv : uuid * OrderLocatorRow => bool_decide (ol_reservation kv.2 = reservation))
    (map_to_list (order_locators c)).

Definition insertTicketOrderLocator (tx : Tx) (order reservation owner : uuid) (status : string)
    (total : Z) (currency : string) (createdAt : time) : M unit :=
  stopif isNil order || isNil reservation || isNil owner || bool_decide (status = ""%string) || (total <? 0) ||
         bool_decide (currency = ""%string) || IsZeroTime createdAt with ErrInvalidArgument else
  match tx_route tx with
  | None => ret tt
  | Some rt =>
      let! c := getControl in
      match order_locators c !! order with
      | None =>
          stopif orderLocatorTaken c reservation with ErrDatabase else
          putControl (withOrderLocators c
            (<[order := mkOrderLocatorRow reservation rt owner status total currency createdAt]> (order_locators c)))
      | Some l =>
          stopif negb (bool_decide (ol_reservation l = reservation)) || negb (bool_decide (ol_route l = rt)) ||
                 negb (bool_decide (ol_owner l = owner)) || negb (bool_decide (ol_status l = status)) ||
                 negb (ol_total l =? total) || negb (bool_decide (ol_currency l = currency)) ||
                 negb (ol_created l =? createdAt) with ErrPersistenceInvariant else ret tt
      end
  end.

Definition insertTicketLocator (tx : Tx) (ticket order reservation owner : uuid) : M unit :=
  stopif isNil ticket || isNil order || isNil reservation || isNil owner with ErrInvalidArgument else
  match tx_route tx with
  | None => ret tt
  | Some rt =>
      let! c := getControl in
      match ticket_locators c !! ticket with
      | None => putControl (withTicketLocators c
                  (<[ticket := mkTicketLocatorRow order reservation rt owner]> (ticket_locators c)))
      | Some l =>
          stopif negb (bool_decide (tl_order l = order)) || negb (bool_decide (tl_reservation l = reservation)) ||
                 negb (bool_decide (tl_route l = rt)) || negb (bool_decide (tl_owner l = owner))
            with ErrPersistenceInvariant else ret tt
      end
  end.

Definition updateTicketOrderLocatorStatus (tx : Tx) (reservation : uuid) (status : string) : M unit :=
  stopif isNil reservation || bool_decide (status = ""%string) with ErrInvalidArgument else
  if negb (routed tx) then ret tt else
  let! c := getControl in
  putControl (withOrderLocators c ((fun l =>
    if bool_decide (ol_reservation l = reservation)
    then mkOrderLocatorRow (ol_reservation l) (ol_route l) (ol_owner l) status (ol_total l) (ol_currency l) (ol_created l)
    else l) <$> order_locators c)).

(** ** Inventory *)
Definition zeroMask (n : Z) : varbit := replicate (Z.to_nat n) false.

(** The rows of INSERT ... SELECT: the active seats of the train. *)
Definition activeSeatsOf (cat : Catalogue) (train : uuid) : list (uuid * string) :=
  omap (fun kv : uuid * SeatDef =>
    c ← coaches cat !! s_coach kv.2;
    if bool_decide (co_train c = train) && s_active kv.2 then Some (kv.1, co_class c) else None)
    (map_to_list (seats cat)).

Definition insertMissing (run : uuid) (segments : Z) (rows : list (uuid * string))
    (inv : gmap (uuid * uuid) InventoryRow) : gmap (uuid * uuid) InventoryRow * Z :=
  foldr (fun row acc =>
    match acc.1 !! (run, row.1) with
    | Some _ => acc
    | None => (<[(run, row.1) := mkInventory segments row.2 (zeroMask segments) 0]> acc.1, acc.2 + 1)
    end) (inv, 0) rows.

Definition InitializeInventory (tx : Tx) (run : uuid) : M Z :=
  stopif isNil run with ErrInvalidArgument else
  let! cat := getCatalogue in
  match train_runs cat !! run with
  | None => fail ErrNotFound
  | Some tr =>
      let! l := getTables tx in
      let '(inv, inserted) := insertMissing run (tr_segment_count tr) (activeSeatsOf cat (tr_train tr)) (inventory l) in
      let! _ := putTables tx (withInventory l inv) in
      ret inserted
  end.

Record AllocatedSeat := mkAllocated { al_seat : uuid; al_coach : string; al_number : string }.

(** ORDER BY coach_number, seat_number, seat_id *)
Definition seatOrder (env : Env) (a b : AllocatedSeat) : bool :=
  if bool_decide (al_coach a = al_coach b) then
    if bool_decide (al_number a = al_number b) then (al_seat a <=? al_seat b)%N
    else collate env (al_number a) (al_number b)
  else collate env (al_coach a) (al_coach b).

(** The WHERE clause of the candidates, and the columns they carry. *)
Definition candidate (env : Env) (cat : Catalogue) (run : uuid) (class : string) (mask : varbit)
    (kv : (uuid * uuid) * InventoryRow) : option AllocatedSeat :=
  let '((run', seat), si) := kv in
  s ← seats cat !! seat; c ← coaches cat !! s_coach s;
  if bool_decide (run' = run) && bool_decide (si_class si = class) && s_active s &&
     (if Nat.eqb (length (si_occupied si)) (length mask)
      then (0 <? Z.of_nat (bit_count mask)) &&
           bool_decide (varbit_and (si_occupied si) mask = replicate (length (si_occupied si)) false)
      else false) && negb (locked env run seat)
  then Some (mkAllocated seat (co_number c) (s_number s)) else None.

Definition candidates (env : Env) (cat : Catalogue) (l : Local) (run : uuid) (class : string) (mask : varbit) (count : nat)
    : list AllocatedSeat :=
  take count (sortBy (seatOrder env) (omap (candidate env cat run class mask) (map_to_list (inventory l)))).

(** UPDATE seat_inventory ... FROM candidates *)
Definition occupy (run : uuid) (chosen : list uuid) (mask : varbit) (inv : gmap (uuid * uuid) InventoryRow)
    : gmap (uuid * uuid) InventoryRow :=
  map_imap (fun k si =>
    Some (if bool_decide (k.1 = run) && bool_decide (k.2 ∈ chosen)
          then mkInventory (si_segment_count si) (si_class si) (varbit_or (si_occupied si) mask) (si_version si + 1)
          else si)) inv.

Definition AllocateSeats (tx : Tx) (env : Env) (run : uuid) (seatClass : string) (requested : SegmentMask) (count : Z)
    : M (list AllocatedSeat) :=
  stopif isNil run || (count <=? 0) || (bitLength requested <=? 0) || negb (validSeatClass seatClass) ||
         IsZero requested with ErrInvalidArgument else
  stopif deadlocked env with ErrSerialization else
  let! cat := getCatalogue in
  let! l := getTables tx in
  let mask := varbitOfBits (EncodeSegmentMask requested) in
  let cands := candidates env cat l run (toLower seatClass) mask (Z.to_nat count) in
  let full := Z.of_nat (length cands) =? count in
  let! _ := putTables tx (if full then withInventory l (occupy run (map al_seat cands) mask (inventory l)) else l) in
  let allocated := if full then sortBy (seatOrder env) cands else [] in
  stopif negb (Z.of_nat (length allocated) =? count) with ErrInsufficientInventory else
  ret allocated.

Definition AllocateSeat (tx : Tx) (env : Env) (run : uuid) (seatClass : string) (requested : SegmentMask)
    : M AllocatedSeat :=
  let! seats := AllocateSeats tx env run seatClass requested 1 in
  match seats with s :: _ => ret s | [] => fail ErrDatabase end.

Definition contained (si : InventoryRow) (mask : varbit) : bool :=
  if Nat.eqb (length (si_occupied si)) (length mask)
  then bool_decide (varbit_and (si_occupied si) mask = mask) else false.

(** The rows of the CTE [locked] of releaseReservationSeats. *)
Definition releasable (l : Local) (reservation : uuid) : list (uuid * SeatRow) :=
  omap (fun rs =>
    if bool_decide (rs_reservation rs = reservation) then
      r ← reservations l !! rs_reservation rs; si ← inventory l !! (r_run r, rs_seat rs);
      if contained si (rs_mask rs) then Some (r_run r, rs) else None
    else None) (reservation_seats l).

Definition release (rows : list (uuid * SeatRow)) (inv : gmap (uuid * uuid) InventoryRow)
    : gmap (uuid * uuid) InventoryRow :=
  map_imap (fun k si =>
    Some match List.find (fun row => bool_decide (row.1 = k.1) && bool_decide (rs_seat row.2 = k.2)) rows with
         | Some row => mkInventory (si_segment_count si) (si_class si)
                         (varbit_and (si_occupied si) (varbit_not (rs_mask row.2))) (si_version si + 1)
         | None => si
         end) inv.

Definition seatsOf (l : Local) (reservation : uuid) : list SeatRow :=
  filter (fun rs => rs_reservation rs = reservation) (reservation_seats l).

Definition releaseReservationSeats (tx : Tx) (reservation : uuid) : M Z :=
  let! l := getTables tx in
  let rows := releasable l reservation in
  let expected := Z.of_nat (length (seatsOf l reservation)) in
  let apply := (Z.of_nat (length rows) =? expected) && (0 <? expected) in
  let! _ := putTables tx (if apply then withInventory l (release rows (inventory l)) else l) in
  let released := if apply then Z.of_nat (length (remove_dups (map (fun row => (row.1, rs_seat row.2)) rows))) else 0 in
  stopif (expected <=? 0) || negb (released =? expected) with ErrPersistenceInvariant else
  ret released.

(** ** Creating a hold *)
Record CreateHoldParams := mkCreateHold {
  ch_user : uuid; ch_run : uuid; ch_from : Z; ch_to : Z; ch_class : string; ch_passengers : list uuid;
  ch_hold_expires : time; ch_key : list Z; ch_fingerprint : list Z; ch_idem_expires : time;
  ch_policy : option PolicyDecision }.

Record CreateHoldResult := mkHoldResult {
  hr_reservation : uuid; hr_seat_count : Z; hr_total : Z; hr_currency : string; hr_replayed : bool }.

Definition validateCreateHoldParams (p : CreateHoldParams) : bool :=
  negb (isNil (ch_user p) || isNil (ch_run p) || (ch_from p <? 0) || (ch_to p <=? ch_from p) ||
        negb (validSeatClass (ch_class p)) || Nat.eqb (length (ch_passengers p)) 0 ||
        IsZeroTime (ch_hold_expires p) || IsZeroTime (ch_idem_expires p) ||
        negb (Z.of_nat (length (ch_key p)) =? 32) || negb (Z.of_nat (length (ch_fingerprint p)) =? 32)) &&
  forallb (fun id => negb (isNil id)) (ch_passengers p) &&
  match ch_policy p with
  | Some d => negb (isNil (d_policy d) || (d_version d <? 1))
  | None => true
  end.

Fixpoint adjacentDuplicate (ids : list uuid) : bool :=
  match ids with
  | a :: (b :: _) as rest => bool_decide (a = b) || adjacentDuplicate rest
  | _ => false
  end.

Definition sortIds : list uuid -> list uuid := sortBy (fun a b => (a <=? b)%N).

Definition ownedPassengerIDs (cat : Catalogue) (user : uuid) (requested : list uuid) : list uuid :=
  sortIds (map fst (filter (fun kv : uuid * uuid => kv.2 = user /\ kv.1 ∈ requested) (map_to_list (passengers cat)))).

(** An active reservation seat of the run. *)
Definition activeSeatOnRun (l : Local) (run : uuid) (rs : SeatRow) : bool :=
  match reservations l !! rs_reservation rs with
  | Some r => bool_decide (r_run r = run) && activeStatus (r_status r)
  | None => false
  end.

Definition passengerConflicts (l : Local) (run : uuid) (ids : list uuid) : nat :=
  length (filter (fun rs => activeSeatOnRun l run rs && bool_decide (rs_passenger rs ∈ ids) = true) (reservation_seats l)).

Definition ensurePassengersAvailable (tx : Tx) (run : uuid) (ids : list uuid) : M unit :=
  let! l := getTables tx in
  stopif negb (Nat.eqb (passengerConflicts l run ids) 0) with ErrPassengerConflict else ret tt.

Definition fareMatches (from to : Z) (class : string) (f : FareRow) : bool :=
  f_active f && (f_from f =? from) && (f_to f =? to) && bool_decide (f_class f = class).

(** ORDER BY (train_run_id IS NOT NULL) DESC LIMIT 1 *)
Definition loadFare (cat : Catalogue) (run route : uuid) (from to : Z) (class : string) : option FareRow :=
  match List.find (fun f => fareMatches from to class f && bool_decide (f_run f = Some run)) (fares cat) with
  | Some f => Some f
  | None => List.find (fun f => fareMatches from to class f && bool_decide (f_run f = None) &&
                                 bool_decide (f_route f = Some route)) (fares cat)
  end.

Definition insertReservation (tx : Tx) (id : uuid) (row : ReservationRow) : M unit :=
  let! l := getTables tx in
  stopif bool_decide (is_Some (reservations l !! id)) with ErrDatabase else
  putTables tx (withReservations l (<[id := row]> (reservations l))).

(** Primary key and the two UNIQUE constraints of reservation_seats. *)
Definition seatRowConflict (rows : list SeatRow) (row : SeatRow) : bool :=
  existsb (fun rs => bool_decide (rs_id rs = rs_id row) ||
    bool_decide (rs_reservation rs = rs_reservation row) &&
      (bool_decide (rs_seat rs = rs_seat row) || bool_decide (rs_passenger rs = rs_passenger row))) rows.

Definition insertSeatRow (tx : Tx) (row : SeatRow) : M unit :=
  let! l := getTables tx in
  stopif seatRowConflict (reservation_seats l) row with ErrDatabase else
  putTables tx (withReservationSeats l (reservation_seats l ++ [row])).

(** The loop over the allocated seats, [i] counting from the start. *)
Fixpoint insertSeatRows (tx : Tx) (rows : list SeatRow) : M unit :=
  match rows with
  | [] => ret tt
  | row :: rest => let! _ := insertSeatRow tx row in insertSeatRows tx rest
  end.

Definition seatRowsFor (env : Env) (reservation run : uuid) (segments : Z) (allocated : list AllocatedSeat)
    (owned : list uuid) (mask : varbit) (fare : MoneyModel.Money) : list SeatRow :=
  imap (fun i sp => mkSeatRow (new_seat_row env i) reservation run segments (al_seat sp.1) sp.2 mask
                      (MoneyModel.amountMinor fare) (MoneyModel.currency fare)) (zip allocated owned).

Definition loadCreateHoldResult (tx : Tx) (user reservation : uuid) : M CreateHoldResult :=
  let! l := getTables tx in
  match reservations l !! reservation with
  | Some r =>
      stopif negb (bool_decide (r_user r = user)) with ErrPersistenceInvariant else
      ret (mkHoldResult reservation (Z.of_nat (length (seatsOf l reservation))) (r_total r) (r_currency r) false)
  | None => fail ErrPersistenceInvariant
  end.

(** What createHoldOnce does in its transaction once the command is owned. *)
Definition createOwnedHold (limits : QuotaLimits) (tx : Tx) (env : Env) (p : CreateHoldParams)
    (passengerIDs : list uuid) (seatClass : string) (recordID : uuid) : M CreateHoldResult :=
  let! _ := recheckAdmissionPolicy (ch_run p) seatClass (ch_policy p) in
  let! _ := enforceReservationQuota tx (ch_user p) (ch_run p) (Z.of_nat (length passengerIDs)) limits in
  let! cat := getCatalogue in
  match train_runs cat !! ch_run p with
  | None => fail ErrNotFound
  | Some tr =>
      stopif negb (bool_decide (tr_status tr = "scheduled"%string)) with ErrNotBookable else
      stopif negb (After (ch_hold_expires p) (clk_run env)) with ErrInvalidArgument else
      match NewSegmentMask (tr_segment_count tr) (ch_from p) (ch_to p) with
      | Err _ => fail ErrInvalidArgument
      | Ok requested =>
          let owned := ownedPassengerIDs cat (ch_user p) passengerIDs in
          stopif negb (Nat.eqb (length owned) (length passengerIDs)) with ErrNotFound else
          let! _ := ensurePassengersAvailable tx (ch_run p) owned in
          match loadFare cat (ch_run p) (tr_route tr) (ch_from p) (ch_to p) seatClass with
          | None => fail ErrNotFound
          | Some f =>
              match MoneyModel.NewMoney (f_amount f) (f_currency f) with
              | Err _ => fail ErrPersistenceInvariant
              | Ok fare =>
                  match MoneyModel.Multiply fare (Z.of_nat (length passengerIDs)) with
                  | Err e => fail (ErrMoney e)
                  | Ok total =>
                      let! allocated := AllocateSeats tx env (ch_run p) seatClass requested
                                          (Z.of_nat (length passengerIDs)) in
                      let id := new_reservation env in
                      let! _ := insertReservation tx id
                        (mkReservationRow (ch_user p) (ch_run p) (tr_segment_count tr) (ch_from p) (ch_to p) seatClass
                           Held (ch_hold_expires p) (MoneyModel.amountMinor total) (MoneyModel.currency total)) in
                      let! _ := insertSeatRows tx
                        (seatRowsFor env id (ch_run p) (tr_segment_count tr) allocated owned
                           (varbitOfBits (EncodeSegmentMask requested)) fare) in
                      let! _ := insertReservationQuotaClaim tx id (ch_user p) (ch_run p) (Z.of_nat (length owned)) in
                      let! _ := insertReservationLocator tx id (ch_user p) in
                      let! _ := CompleteIdempotency tx recordID id in
                      let! _ := appendReservationEvent tx env id "reservation.held"
                        (PayloadHeld id (ch_run p) (ch_hold_expires p) (Z.of_nat (length allocated))) in
                      let! _ := recordSuccessfulGenerationWrite tx in
                      let! _ := Commit tx env in
                      ret (mkHoldResult id (Z.of_nat (length allocated)) (MoneyModel.amountMinor total)
                             (MoneyModel.currency total) false)
                  end
              end
          end
      end
  end.

Definition createHoldInput (p : CreateHoldParams) : IdempotencyInput :=
  mkIdemInput (ch_user p) OperationReservationCreate (ch_key p) (ch_fingerprint p) (ch_idem_expires p).

(** The transaction of createHoldOnce. *)
Definition createHoldTx (limits : QuotaLimits) (tx : Tx) (env : Env) (p : CreateHoldParams) : M CreateHoldResult :=
  let passengerIDs := sortIds (ch_passengers p) in
  let! acquisition := AcquireIdempotency tx env (createHoldInput p) in
  if acq_replayed acquisition then
    let! result := loadCreateHoldResult tx (ch_user p) (acq_resource acquisition) in
    let! _ := Commit tx env in
    ret (mkHoldResult (hr_reservation result) (hr_seat_count result) (hr_total result) (hr_currency result) true)
  else createOwnedHold limits tx env p passengerIDs (toLower (ch_class p)) (acq_record acquisition).

(** ** Confirming *)
Record ReservationCommand := mkCommand {
  rc_user : uuid; rc_reservation : uuid; rc_now : time; rc_key : list Z; rc_fingerprint : list Z; rc_idem_expires : time }.

Definition validateReservationCommandParams (p : ReservationCommand) : bool :=
  negb (isNil (rc_user p) || isNil (rc_reservation p) || IsZeroTime (rc_now p) || IsZeroTime (rc_idem_expires p) ||
        negb (Z.of_nat (length (rc_key p)) =? 32) || negb (Z.of_nat (length (rc_fingerprint p)) =? 32)).

Definition commandInput (op : string) (p : ReservationCommand) : IdempotencyInput :=
  mkIdemInput (rc_user p) op (rc_key p) (rc_fingerprint p) (rc_idem_expires p).

Record ConfirmResult := mkConfirmResult { cr_reservation : uuid; cr_order : uuid; cr_tickets : Z; cr_replayed : bool }.

Definition lockOwnedReservation (tx : Tx) (user reservation : uuid) : M ReservationRow :=
  let! l := getTables tx in
  match reservations l !! reservation with
  | Some r => stopif negb (bool_decide (r_user r = user)) with ErrNotFound else ret r
  | None => fail ErrNotFound
  end.

Definition setReservationStatus (r : ReservationRow) (s : RStatus) : ReservationRow :=
  mkReservationRow (r_user r) (r_run r) (r_segment_count r) (r_from r) (r_to r) (r_class r) s
    (r_expires r) (r_total r) (r_currency r).

(** UPDATE reservations SET status = [s] WHERE id = [id] AND [ok]: whether a
    row was affected. *)
Definition updateStatus (tx : Tx) (id : uuid) (ok : ReservationRow -> bool) (s : RStatus) : M bool :=
  let! l := getTables tx in
  match reservations l !! id with
  | Some r =>
      if ok r then let! _ := putTables tx (withReservations l (<[id := setReservationStatus r s]> (reservations l))) in ret true
      else ret false
  | None => ret false
  end.

(** The order of a reservation, if any (reservation_id is UNIQUE). *)
Definition orderOf (l : Local) (reservation : uuid) : option (uuid * OrderRow) :=
  List.find (fun kv : uuid * OrderRow => bool_decide (o_reservation kv.2 = reservation)) (map_to_list (ticket_orders l)).

Definition ticketsOf (l : Local) (order : uuid) : list TicketRow := filter (fun t => t_order t = order) (tickets l).

Definition loadConfirmationResult (tx : Tx) (user reservation : uuid) : M ConfirmResult :=
  let! l := getTables tx in
  match reservations l !! reservation with
  | Some r =>
      stopif negb (bool_decide (r_user r = user)) with ErrPersistenceInvariant else
      match orderOf l reservation with
      | Some (oid, _) => ret (mkConfirmResult reservation oid (Z.of_nat (length (ticketsOf l oid))) false)
      | None => fail ErrPersistenceInvariant
      end
  | None => fail ErrPersistenceInvariant
  end.

Definition insertOrder (tx : Tx) (id : uuid) (row : OrderRow) : M unit :=
  let! l := getTables tx in
  stopif bool_decide (is_Some (ticket_orders l !! id)) || bool_decide (is_Some (orderOf l (o_reservation row)))
    with ErrDatabase else
  putTables tx (withTicketOrders l (<[id := row]> (ticket_orders l))).

Definition insertTicket (tx : Tx) (row : TicketRow) : M unit :=
  let! l := getTables tx in
  stopif existsb (fun t => bool_decide (t_id t = t_id row) || bool_decide (t_seat_row t = t_seat_row row) ||
                           bool_decide (t_code t = t_code row)) (tickets l) with ErrDatabase else
  putTables tx (withTickets l (tickets l ++ [row])).

(** ORDER BY seat_id *)
Definition reservationSeatIDs (l : Local) (reservation : uuid) : list uuid :=
  map rs_id (sortBy (fun a b => (rs_seat a <=? rs_seat b)%N) (seatsOf l reservation)).

Fixpoint issueTickets (tx : Tx) (env : Env) (i : nat) (order reservation user : uuid) (seatRows : list uuid) : M unit :=
  match seatRows with
  | [] => ret tt
  | seatRow :: rest =>
      let ticketID := new_ticket env i in
      let! _ := insertTicket tx (mkTicketRow ticketID order seatRow ("TKT" ++ new_code env i)%string true) in
      let! _ := insertTicketLocator tx ticketID order reservation user in
      let! _ := appendTicketEvent tx env ticketID (PayloadTicket ticketID order reservation) in
      issueTickets tx env (S i) order reservation user rest
  end.

Definition confirmReservationTx (tx : Tx) (env : Env) (p : ReservationCommand) : M ConfirmResult :=
  let! acquisition := AcquireIdempotency tx env (commandInput OperationReservationConfirm p) in
  if acq_replayed acquisition then
    let! result := loadConfirmationResult tx (rc_user p) (acq_resource acquisition) in
    let! _ := Commit tx env in
    ret (mkConfirmResult (cr_reservation result) (cr_order result) (cr_tickets result) true)
  else
    let! r := lockOwnedReservation tx (rc_user p) (rc_reservation p) in
    if bool_decide (r_status r = Confirmed) then
      let! _ := CompleteIdempotency tx (acq_record acquisition) (rc_reservation p) in
      let! result := loadConfirmationResult tx (rc_user p) (rc_reservation p) in
      let! _ := recordSuccessfulGenerationWrite tx in
      let! _ := Commit tx env in
      ret result
    else
      stopif negb (bool_decide (r_status r = Held)) with ErrInvalidState else
      let! affected := updateStatus tx (rc_reservation p)
        (fun r => bool_decide (r_status r = Held) && After (r_expires r) (clk_write env)) Confirmed in
      stopif negb affected with ErrReservationExpired else
      let! _ := closeReservationQuotaClaim tx (rc_reservation p) in
      let orderID := new_order env in
      let! _ := insertOrder tx orderID
        (mkOrderRow (rc_reservation p) (rc_user p) true (r_total r) (r_currency r) (clk_order env)) in
      let! _ := insertTicketOrderLocator tx orderID (rc_reservation p) (rc_user p) "confirmed"
        (r_total r) (r_currency r) (clk_order env) in
      let! l := getTables tx in
      let seatRows := reservationSeatIDs l (rc_reservation p) in
      stopif Nat.eqb (length seatRows) 0 with ErrPersistenceInvariant else
      let! _ := issueTickets tx env 0 orderID (rc_reservation p) (rc_user p) seatRows in
      let! _ := CompleteIdempotency tx (acq_record acquisition) (rc_reservation p) in
      let! _ := appendReservationEvent tx env (rc_reservation p) "reservation.confirmed"
        (PayloadConfirmed (rc_reservation p) orderID) in
      let! _ := recordSuccessfulGenerationWrite tx in
      let! _ := Commit tx env in
      ret (mkConfirmResult (rc_reservation p) orderID (Z.of_nat (length seatRows)) false).

(** ** Cancelling *)
Record CancelResult := mkCancelResult { cn_reservation : uuid; cn_released : Z; cn_replayed : bool }.

Definition loadCancellationResult (tx : Tx) (user reservation : uuid) : M CancelResult :=
  let! l := getTables tx in
  match reservations l !! reservation with
  | Some r =>
      stopif negb (bool_decide (r_user r = user)) || negb (bool_decide (r_status r = Cancelled))
        with ErrPersistenceInvariant else
      ret (mkCancelResult reservation (Z.of_nat (length (seatsOf l reservation))) false)
  | None => fail ErrPersistenceInvariant
  end.

Definition cancelOrderRow (reservation : uuid) (o : OrderRow) : OrderRow :=
  if bool_decide (o_reservation o = reservation)
  then mkOrderRow (o_reservation o) (o_user o) false (o_total o) (o_currency o) (o_created o) else o.

Definition cancelTicketRow (order : option uuid) (t : TicketRow) : TicketRow :=
  if bool_decide (order = Some (t_order t))
  then mkTicketRow (t_id t) (t_order t) (t_seat_row t) (t_code t) false else t.

(** The two UPDATEs of a confirmed reservation's order and tickets. *)
Definition cancelTickets (tx : Tx) (reservation : uuid) : M unit :=
  let! l := getTables tx in
  let l := withTicketOrders l (cancelOrderRow reservation <$> ticket_orders l) in
  putTables tx (withTickets l (map (cancelTicketRow (fst <$> orderOf l reservation)) (tickets l))).

Definition cancelReservationTx (tx : Tx) (env : Env) (p : ReservationCommand) : M CancelResult :=
  let! acquisition := AcquireIdempotency tx env (commandInput OperationReservationCancel p) in
  if acq_replayed acquisition then
    let! result := loadCancellationResult tx (rc_user p) (acq_resource acquisition) in
    let! _ := Commit tx env in
    ret (mkCancelResult (cn_reservation result) (cn_released result) true)
  else
    let! r := lockOwnedReservation tx (rc_user p) (rc_reservation p) in
    let status := r_status r in
    if bool_decide (status = Cancelled) then
      let! _ := CompleteIdempotency tx (acq_record acquisition) (rc_reservation p) in
      let! _ := recordSuccessfulGenerationWrite tx in
      let! _ := Commit tx env in
      ret (mkCancelResult (rc_reservation p) 0 false)
    else
      stopif negb (bool_decide (status = Held)) && negb (bool_decide (status = Confirmed)) with ErrInvalidState else
      let! affected := updateStatus tx (rc_reservation p) (fun r => bool_decide (r_status r = status)) Cancelled in
      stopif negb affected with ErrPersistenceInvariant else
      let! released := releaseReservationSeats tx (rc_reservation p) in
      let! _ := (if bool_decide (status = Confirmed) then
                   let! _ := cancelTickets tx (rc_reservation p) in
                   updateTicketOrderLocatorStatus tx (rc_reservation p) "cancelled"
                 else ret tt) in
      let! _ := closeReservationQuotaClaim tx (rc_reservation p) in
      let! _ := CompleteIdempotency tx (acq_record acquisition) (rc_reservation p) in
      let! _ := appendReservationEvent tx env (rc_reservation p) "reservation.cancelled"
        (PayloadReleased (rc_reservation p) "cancelled" released) in
      let! _ := recordSuccessfulGenerationWrite tx in
      let! _ := Commit tx env in
      ret (mkCancelResult (rc_reservation p) released false).

(** ** Expiring *)
Definition dueAt (now : time) (r : ReservationRow) : bool :=
  bool_decide (r_status r = Held) && (r_expires r <=? now).

(** ORDER BY expires_at, id *)
Definition dueOrder (a b : uuid * ReservationRow) : bool :=
  (r_expires a.2 <? r_expires b.2) || (r_expires a.2 =? r_expires b.2) && (a.1 <=? b.1)%N.

Definition dueReservations (env : Env) (excluded : list uuid) (l : Local) : list (uuid * ReservationRow) :=
  sortBy dueOrder (filter (fun kv : uuid * ReservationRow =>
    dueAt (clk_due env) kv.2 && negb (bool_decide (kv.1 ∈ excluded)) && negb (locked_reservation env kv.1) = true)
    (map_to_list (reservations l))).

(** From the status update to the commit of expireOneDue. *)
Definition expireTx (tx : Tx) (env : Env) (id : uuid) : M unit :=
  let! affected := updateStatus tx id (dueAt (clk_write env)) Expired in
  stopif negb affected with ErrPersistenceInvariant else
  let! released := releaseReservationSeats tx id in
  let! _ := appendReservationEvent tx env id "reservation.expired" (PayloadReleased id "expired" released) in
  let! _ := closeReservationQuotaClaim tx id in
  Commit tx env.

Inductive ExpireOutcome := NothingDue | ExpiredOne (id : uuid) | ExpireFailed (id : uuid) (e : StoreErr).

Definition expireOneDue (env : Env) (excluded : list uuid) (db : DB) : ExpireOutcome * DB :=
  match dueReservations env excluded (public db) with
  | [] => (NothingDue, db)
  | (id, _) :: _ =>
      match expireTx Begin env id db with
      | Ok (_, db') => (ExpiredOne id, db')
      | Err e => (ExpireFailed id e, db)
      end
  end.

(** The loop of ExpireDue: every turn adds to [expired] or [failed], so [fuel]
    is the limit minus their lengths. *)
Fixpoint expireLoop (fuel : nat) (envs : nat -> Env) (expired failed : list uuid) (failures : list StoreErr) (db : DB)
    : list uuid * list StoreErr * DB :=
  match fuel with
  | O => (expired, failures, db)
  | S fuel' =>
      match expireOneDue (envs (length expired + length failed)%nat) failed db with
      | (NothingDue, db') => (expired, failures, db')
      | (ExpiredOne id, db') => expireLoop fuel' envs (expired ++ [id]) failed failures db'
      | (ExpireFailed id e, db') => expireLoop fuel' envs expired (failed ++ [id]) (failures ++ [e]) db'
      end
  end.

(** Keys of the first [limit] expired, unlocked records by (expires_at, id). *)
Definition expiredRecordKeys (env : Env) (limit : nat) (l : Local) : list idemKey :=
  map fst (take limit (sortBy (fun a b : idemKey * IdemRow =>
      (ir_expires a.2 <? ir_expires b.2) || (ir_expires a.2 =? ir_expires b.2) && (ir_id a.2 <=? ir_id b.2)%N)
    (filter (fun kv : idemKey * IdemRow => (ir_expires kv.2 <=? clk_write env) && negb (locked_record env (ir_id kv.2)) = true)
      (map_to_list (idempotency l))))).

Definition cleanupExpiredIdempotency (env : Env) (limit : Z) : M unit :=
  stopif limit <=? 0 with ErrInvalidArgument else
  let! l := getTables Begin in
  let keys := expiredRecordKeys env (Z.to_nat limit) l in
  putTables Begin (withIdempotency l (filter (fun kv : idemKey * IdemRow => kv.1 ∉ keys) (idempotency l))).

Definition ExpireDueUnsharded (envs : nat -> Env) (limit : Z) (db : DB) : list uuid * list StoreErr * DB :=
  let '(expired, failures, db') := expireLoop (Z.to_nat limit) envs [] [] [] db in
  match cleanupExpiredIdempotency (envs (Z.to_nat limit)) 1000 db' with
  | Ok (_, db'') => (expired, failures, db'')
  | Err e => (expired, failures ++ [e], db')
  end.

(** ** Expiring across shards *)

(** dueReservationQuery: the storage of a shard, then the joins and filters. *)
Definition locatedDue (env : Env) (shard : string) (excluded : list uuid) (c : Control) (kv : uuid * ReservationRow) : bool :=
  dueAt (clk_due env) kv.2 && negb (bool_decide (kv.1 ∈ excluded)) &&
  match reservation_locators c !! kv.1 with
  | None => false
  | Some loc =>
      bool_decide (trainRunID (l_route loc) = r_run kv.2) && bool_decide (shardID (l_route loc) = shard) &&
      match assignments c !! trainRunID (l_route loc) with
      | None => false
      | Some a =>
          bool_decide (a_shard a = shardID (l_route loc)) && (a_generation a =? generation (l_route loc)) &&
          bool_decide (a_state a ∈ ["stable"; "migrating"; "rollback_window"]%string) &&
          match booking_shards c !! shardID (l_route loc) with
          | None => false
          | Some s =>
              sh_enabled s && sh_write_enabled s && catalogStateAllowsRoute (sh_state s) &&
              (sh_min_protocol s <=? SupportedFencingProtocolVersion)
          end
      end
  end.

Definition findDueReservationOnShard (env : Env) (shard : string) (excluded : list uuid) (db : DB)
    : res StoreErr (option uuid) :=
  match fixedSearchPath shard with
  | None => Err (ErrRoute ErrShardUnavailable)
  | Some schema =>
      Ok (fst <$> head (sortBy dueOrder
        (filter (fun kv : uuid * ReservationRow => locatedDue env shard excluded (control db) kv = true)
          (map_to_list (reservations (getLocal schema db))))))
  end.

Definition expireLocatedTx (tx : Tx) (env : Env) (id : uuid) : M bool :=
  let! l := getTables tx in
  match reservations l !! id with
  | None => ret false
  | Some r =>
      if negb (dueAt (clk_due env) r) then ret false else
      let! affected := updateStatus tx id (dueAt (clk_write env)) Expired in
      stopif negb affected with ErrPersistenceInvariant else
      let! released := releaseReservationSeats tx id in
      let! _ := closeReservationQuotaClaim tx id in
      let! _ := appendReservationEvent tx env id "reservation.expired" (PayloadReleased id "expired" released) in
      let! _ := recordSuccessfulGenerationWrite tx in
      let! _ := Commit tx env in
      ret true
  end.

(** Run a transaction: an error leaves the database as it was. *)
Definition runTx {A} (tx : res StoreErr Tx) (body : Tx -> M A) (db : DB) : res StoreErr A * DB :=
  match tx with
  | Err e => (Err e, db)
  | Ok tx => match body tx db with Ok (a, db') => (Ok a, db') | Err e => (Err e, db) end
  end.

(** The begin functions look at the database the transaction runs on. *)
Definition same (db : DB) : Reads := mkReads db db db db.

Definition expireLocatedReservation (r : Router) (env : Env) (id : uuid) (db : DB) : res StoreErr bool * DB * Router :=
  let '(tx, r') := beginReservationMaintenanceWrite r (same db) id (clk_due env) in
  (runTx tx (fun tx => expireLocatedTx tx env id) db, r').

Record PassState := mkPass {
  ps_expired : list uuid; ps_excluded : gmap string (list uuid); ps_failed : gset string;
  ps_failures : list StoreErr; ps_attempts : nat; ps_progress : bool; ps_db : DB; ps_router : Router }.

(** One turn of the inner loop of expireDueAcrossShards. *)
Definition passShard (limit : nat) (envs : nat -> Env) (st : PassState) (shard : string) : PassState :=
  if (limit <=? length (ps_expired st))%nat then st else
  if bool_decide (shard ∈ ps_failed st) then st else
  let excluded := default [] (ps_excluded st !! shard) in
  let env := envs (ps_attempts st) in
  match findDueReservationOnShard env shard excluded (ps_db st) with
  | Err e => mkPass (ps_expired st) (ps_excluded st) ({[shard]} ∪ ps_failed st) (ps_failures st ++ [e])
               (ps_attempts st) (ps_progress st) (ps_db st) (ps_router st)
  | Ok None => st
  | Ok (Some id) =>
      let ex := <[shard := excluded ++ [id]]> (ps_excluded st) in
      let '(o, db', r') := expireLocatedReservation (ps_router st) env id (ps_db st) in
      match o with
      | Err e => mkPass (ps_expired st) ex (ps_failed st) (ps_failures st ++ [e]) (S (ps_attempts st)) true db' r'
      | Ok b => mkPass (if b then ps_expired st ++ [id] else ps_expired st) ex (ps_failed st) (ps_failures st)
                  (S (ps_attempts st)) true db' r'
      end
  end.

(** The outer loop: each turn that runs makes progress only by an attempt, so
    [limit] + 1 turns are enough. *)
Fixpoint passLoop (fuel limit : nat) (envs : nat -> Env) (shards : list string) (st : PassState) : PassState :=
  match fuel with
  | O => st
  | S fuel' =>
      if (length (ps_expired st) <? limit)%nat && (ps_attempts st <? limit)%nat && ps_progress st then
        passLoop fuel' limit envs shards
          (foldl (passShard limit envs)
             (mkPass (ps_expired st) (ps_excluded st) (ps_failed st) (ps_failures st) (ps_attempts st) false
                (ps_db st) (ps_router st)) shards)
      else st
  end.

Definition claimOrder (a b : idemKey * ClaimRow) : bool :=
  (c_expires a.2 <? c_expires b.2) || (c_expires a.2 =? c_expires b.2) && (c_id a.2 <=? c_id b.2)%N.

Definition expiredClaims (env : Env) (c : Control) (ok : option uuid -> bool) (limit : nat) : list uuid :=
  map (fun kv : idemKey * ClaimRow => c_id kv.2) (take limit (sortBy claimOrder
    (filter (fun kv : idemKey * ClaimRow =>
       ok (c_run kv.2) && (c_expires kv.2 <=? clk_write env) && negb (locked_record env (c_id kv.2)) = true)
      (map_to_list (claims c))))).

(** Stable assignments that have an expired claim. *)
Definition cleanupRuns (env : Env) (c : Control) (limit : nat) : list uuid :=
  take limit (sortIds (map fst (filter (fun kv : uuid * AssignmentRow =>
    bool_decide (a_state kv.2 = "stable"%string) && bool_decide (a_migration kv.2 = None) &&
    negb (locked_assignment env kv.1) &&
    existsb (fun cl : idemKey * ClaimRow => bool_decide (c_run cl.2 = Some kv.1) && (c_expires cl.2 <=? clk_write env))
      (map_to_list (claims c)) = true) (map_to_list (assignments c))))).

Definition cleanupExpiredIdempotencyAcrossShards (env : Env) (limit : Z) : M unit :=
  stopif limit <=? 0 with ErrInvalidArgument else
  let! c := getControl in
  let runs := cleanupRuns env c (Z.to_nat limit) in
  let claimIDs := if Nat.eqb (length runs) 0 then []
    else expiredClaims env c (fun o => match o with Some run => bool_decide (run ∈ runs) | None => false end) (Z.to_nat limit) in
  let remaining := limit - Z.of_nat (length claimIDs) in
  let claimIDs := if 0 <? remaining
    then claimIDs ++ expiredClaims env c (fun o => bool_decide (o = None)) (Z.to_nat remaining) else claimIDs in
  if Nat.eqb (length claimIDs) 0 then ret tt else
  retireExpiredIdempotencyClaims claimIDs.

Definition expireDueAcrossShards (r : Router) (envs : nat -> Env) (limit : Z) (db : DB)
    : res StoreErr (list uuid * list StoreErr) * DB * Router :=
  match ListEnabledShards r db with
  | Err e => (Err (ErrRoute e), db, r)
  | Ok shards =>
      let st := passLoop (S (Z.to_nat limit)) (Z.to_nat limit) envs shards (mkPass [] ∅ ∅ [] 0 true db r) in
      match cleanupExpiredIdempotencyAcrossShards (envs (Z.to_nat limit)) 1000 (ps_db st) with
      | Ok (_, db') => (Ok (ps_expired st, ps_failures st), db', ps_router st)
      | Err e => (Ok (ps_expired st, ps_failures st ++ [e]), ps_db st, ps_router st)
      end
  end.

(** ** Reads and the audit *)
Record ReservationRecord := mkReservationRecord {
  rr_id : uuid; rr_status : RStatus; rr_seats : Z; rr_total : Z; rr_currency : string;
  rr_active_tickets : Z; rr_events : Z }.

Definition getReservationTx (tx : Tx) (user reservation : uuid) : M ReservationRecord :=
  let! db := getDB in
  let! l := getTables tx in
  match reservations l !! reservation with
  | Some r =>
      stopif negb (bool_decide (r_user r = user)) with ErrNotFound else
      let activeTickets := filter (fun t => t_active t = true /\
        (o_reservation <$> ticket_orders l !! t_order t) = Some reservation) (tickets l) in
      let events := filter (fun e => e_aggregate_type e = "reservation"%string /\ e_aggregate_id e = reservation) (outbox db) in
      ret (mkReservationRecord reservation (r_status r) (Z.of_nat (length (seatsOf l reservation))) (r_total r) (r_currency r)
             (Z.of_nat (length activeTickets)) (Z.of_nat (length events)))
  | None => fail ErrNotFound
  end.

(** The replay probe of LookupCompletedCreateHold: [run] is the routed run. *)
Definition lookupCompletedTx (tx : Tx) (env : Env) (user run : uuid) (key fingerprint : list Z)
    : M (option CreateHoldResult) :=
  let! l := getTables tx in
  let! c := getControl in
  let k := (user, OperationReservationCreate, key) in
  match idempotency l !! k with
  | None => ret None
  | Some ir =>
      let joined :=
        match tx_route tx with
        | None => true
        | Some _ =>
            match claims c !! k with
            | None => false
            | Some cl =>
                bool_decide (c_fingerprint cl = ir_fingerprint ir) && bool_decide (is_Some (c_run cl)) &&
                bool_decide (c_run cl = ir_run ir) && (c_expires cl =? ir_expires ir) && bool_decide (c_run cl = Some run)
            end
        end in
      if negb (joined && (clk_acquire env <? ir_expires ir)) then ret None else
      if negb (ir_completed ir) then ret None else
      stopif negb (bool_decide (ir_fingerprint ir = fingerprint)) with ErrIdempotencyConflict else
      match ir_resource ir with
      | None => fail ErrPersistenceInvariant
      | Some id =>
          match reservations l !! id with
          | Some r =>
              stopif negb (bool_decide (r_user r = user)) || isNil id with ErrPersistenceInvariant else
              ret (Some (mkHoldResult id (Z.of_nat (length (seatsOf l id))) (r_total r) (r_currency r) true))
          | None => fail ErrPersistenceInvariant
          end
      end
  end.

(** Masks of the active reservation seats of (run, seat). *)
Definition activeOn (l : Local) (run seat : uuid) (rs : SeatRow) : bool :=
  activeSeatOnRun l run rs && bool_decide (rs_seat rs = seat).

Definition activeMasks (l : Local) (run seat : uuid) : list varbit :=
  map rs_mask (filter (fun rs => activeOn l run seat rs = true) (reservation_seats l)).

(** The CASE of the audit for one inventory row. *)
Definition rowConsistent (l : Local) (run seat : uuid) (si : InventoryRow) : bool :=
  let masks := activeMasks l run seat in
  let matching := filter (fun m : varbit => length m = length (si_occupied si)) masks in
  if Nat.eqb (length masks) 0 then Nat.eqb (bit_count (si_occupied si)) 0 else
  if Nat.eqb (length masks) (length matching) then
    let expected := match matching with m :: ms => foldl varbit_or m ms | [] => [] end in
    bool_decide (si_occupied si = expected) && Nat.eqb (sum_list (map bit_count matching)) (bit_count expected)
  else false.

Definition inventoryViolations (l : Local) (run : uuid) : nat :=
  length (filter (fun kv : (uuid * uuid) * InventoryRow =>
    bool_decide (kv.1.1 = run) && negb (rowConsistent l run kv.1.2 kv.2) = true) (map_to_list (inventory l))).

Definition orphanedActiveSeats (l : Local) (run : uuid) : nat :=
  length (filter (fun rs => activeSeatOnRun l run rs && bool_decide (inventory l !! (run, rs_seat rs) = None) = true)
    (reservation_seats l)).

Definition reconcileTx (tx : Tx) (run : uuid) : M unit :=
  let! l := getTables tx in
  stopif negb (Nat.eqb (inventoryViolations l run) 0) || negb (Nat.eqb (orphanedActiveSeats l run) 0)
    with ErrPersistenceInvariant else ret tt.

(** ** The Store's methods

    Each returns its result, the database and the store (whose route cache may
    have changed). *)
Record Store := mkStore { limits : QuotaLimits; shards : option Router }.

Definition withShards (s : Store) (r : option Router) : Store := mkStore (limits s) r.

Definition createHoldOnce (s : Store) (env : Env) (p : CreateHoldParams) (db : DB)
    : res StoreErr CreateHoldResult * DB * Store :=
  if negb (validateCreateHoldParams p) then (Err ErrInvalidArgument, db, s) else
  if adjacentDuplicate (sortIds (ch_passengers p)) then (Err ErrInvalidArgument, db, s) else
  let '(tx, r) := beginCreateHoldTransaction (shards s) (same db) (ch_run p) (clk_acquire env) in
  (runTx tx (fun tx => createHoldTx (limits s) tx env p) db, withShards s r).

Definition isRetryableTransactionError (e : StoreErr) : bool :=
  match e with ErrSerialization => true | _ => false end.

(** The attempts of CreateHold: [n] is how many remain. *)
Fixpoint createHoldAttempts (n : nat) (s : Store) (envs : list Env) (p : CreateHoldParams) (db : DB)
    : res StoreErr CreateHoldResult * DB * Store :=
  match n, envs with
  | S n', env :: envs' =>
      let '(o, db', s') := createHoldOnce s env p db in
      match o with
      | Ok _ => (o, db', s')
      | Err e => if negb (isRetryableTransactionError e) || Nat.eqb n' 0 then (o, db', s')
                 else createHoldAttempts n' s' envs' p db'
      end
  | _, _ => (Err ErrPersistenceInvariant, db, s)
  end.

Definition maxAttempts : nat := 3.
(** One [Env] per attempt. *)
Definition CreateHold (s : Store) (envs : list Env) (p : CreateHoldParams) (db : DB) :=
  createHoldAttempts maxAttempts s envs p db.

Definition ConfirmReservation (s : Store) (env : Env) (p : ReservationCommand) (db : DB)
    : res StoreErr ConfirmResult * DB * Store :=
  if negb (validateReservationCommandParams p) then (Err ErrInvalidArgument, db, s) else
  let '(tx, r) := beginReservationCommandTransaction (shards s) (same db) (rc_reservation p) (rc_user p) (clk_acquire env) in
  (runTx tx (fun tx => confirmReservationTx tx env p) db, withShards s r).

Definition CancelReservation (s : Store) (env : Env) (p : ReservationCommand) (db : DB)
    : res StoreErr CancelResult * DB * Store :=
  if negb (validateReservationCommandParams p) then (Err ErrInvalidArgument, db, s) else
  let '(tx, r) := beginReservationCommandTransaction (shards s) (same db) (rc_reservation p) (rc_user p) (clk_acquire env) in
  (runTx tx (fun tx => cancelReservationTx tx env p) db, withShards s r).

Definition ExpireDue (s : Store) (envs : nat -> Env) (now : time) (limit : Z) (db : DB)
    : res StoreErr (list uuid * list StoreErr) * DB * Store :=
  if IsZeroTime now || (limit <=? 0) || (1000 <? limit) then (Err ErrInvalidArgument, db, s) else
  match shards s with
  | Some r => let '(o, db', r') := expireDueAcrossShards r envs limit db in (o, db', withShards s (Some r'))
  | None => let '(expired, failures, db') := ExpireDueUnsharded envs limit db in (Ok (expired, failures), db', s)
  end.

(** The transaction of Store.InitializeInventory. *)
Definition initializeTx (tx : Tx) (env : Env) (run : uuid) : M Z :=
  let! inserted := InitializeInventory tx run in
  let! _ := (if 0 <? inserted then recordSuccessfulGenerationWrite tx else ret tt) in
  let! _ := Commit tx env in
  ret inserted.

Definition StoreInitializeInventory (s : Store) (env : Env) (run : uuid) (db : DB) : res StoreErr Z * DB * Store :=
  let '(tx, r) := match shards s with
                  | Some r => let '(tx, r') := beginTrainRunWrite r (same db) run (clk_acquire env) in (tx, Some r')
                  | None => (Ok Begin, None)
                  end in
  (runTx tx (fun tx => initializeTx tx env run) db, withShards s r).

Definition GetReservation (s : Store) (env : Env) (user reservation : uuid) (db : DB)
    : res StoreErr ReservationRecord * Store :=
  if isNil user || isNil reservation then (Err ErrInvalidArgument, s) else
  match shards s with
  | Some r =>
      let '(tx, r') := beginReservationRead r (same db) reservation user (clk_acquire env) in
      let tx := match tx with Err (ErrRoute ErrLocatorNotFound) => Err ErrNotFound | other => other end in
      ((runTx tx (fun tx => let! x := getReservationTx tx user reservation in let! _ := Commit tx env in ret x) db).1,
       withShards s (Some r'))
  | None => ((runTx (Ok Begin) (fun tx => getReservationTx tx user reservation) db).1, s)
  end.

Definition LookupCompletedCreateHold (s : Store) (env : Env) (user run : uuid) (key fingerprint : list Z) (db : DB)
    : res StoreErr (option CreateHoldResult) * Store :=
  if isNil user || negb (Z.of_nat (length key) =? 32) || negb (Z.of_nat (length fingerprint) =? 32)
  then (Err ErrInvalidArgument, s) else
  match shards s with
  | Some r =>
      if isNil run then (Err ErrInvalidArgument, s) else
      let '(tx, r') := beginTrainRunRead r (same db) run (clk_acquire env) in
      ((runTx tx (fun tx =>
          let! x := lookupCompletedTx tx env user run key fingerprint in
          match x with Some _ => let! _ := Commit tx env in ret x | None => ret x end) db).1, withShards s (Some r'))
  | None => ((runTx (Ok Begin) (fun tx => lookupCompletedTx tx env user run key fingerprint) db).1, s)
  end.

Definition ReconcileTrainRun (s : Store) (env : Env) (run : uuid) (db : DB) : res StoreErr unit * Store :=
  if isNil run then (Err ErrInvalidArgument, s) else
  match shards s with
  | Some r =>
      let '(tx, r') := beginTrainRunRead r (same db) run (clk_acquire env) in
      ((runTx tx (fun tx => let! _ := reconcileTx tx run in Commit tx env) db).1, withShards s (Some r'))
  | None => ((runTx (Ok Begin) (fun tx => reconcileTx tx run) db).1, s)
  end.

(** ** A small concrete system, on which the commands evaluate

    Run 7 of train 1 on route 2, three segments, one standard coach with the
    seats 11 and 12; user 5 owns the passengers 21 and 22, user 6 owns 23. *)
Module Example.
Definition key32 (n : Z) : list Z := n :: replicate 31 0.
Definition cat : Catalogue :=
  mkCatalogue {[7%N := mkTrainRunRow 1%N 2%N 3 "scheduled"]}
    (list_to_map [(21%N, 5%N); (22%N, 5%N); (23%N, 6%N)])
    [mkFareRow None (Some 2%N) 0 2 "standard" 1500 "EUR" true; mkFareRow None (Some 2%N) 1 3 "standard" 1600 "EUR" true;
     mkFareRow None (Some 2%N) 2 3 "standard" 700 "EUR" true]
    {[3%N := mkCoachRow 1%N "A" "standard"]}
    (list_to_map [(11%N, mkSeatDef 3%N "1" true); (12%N, mkSeatDef 3%N "2" true)]) ∅.
Definition db0 : DB := mkDB emptyLocal emptyLocal emptyLocal emptyControl cat [].
Definition store : Store := mkStore DefaultReservationQuotaLimits None.
(** An environment at time [t] whose fresh identifiers start at [n]. *)
Definition env (t : Z) (n : N) : Env :=
  mkEnv t t t t t n (n + 1)%N (n + 2)%N (n + 3)%N (fun i => (n + 10 + N.of_nat i)%N) (fun i => (n + 20 + N.of_nat i)%N)
    (fun i => String (ascii_of_nat (65 + i)) EmptyString) (fun _ _ => false) (fun _ => false) (fun _ => false)
    (fun _ => false) (fun a b => String.leb a b) (fun _ => Some 100) false false.
Definition hold (user : uuid) (from to : Z) (passengers : list uuid) (k : Z) : CreateHoldParams :=
  mkCreateHold user 7%N from to "Standard" passengers 1000 (key32 k) (key32 (k + 100)) 2000 None.
Definition command (user reservation : uuid) (k : Z) : ReservationCommand :=
  mkCommand user reservation 500 (key32 k) (key32 (k + 100)) 2000.
End Example.
