(* ===== verification/BookingInvariant.v ===== *)
(** * The inventory invariant of the booking store

    Every inventory row's occupied mask is the disjoint union of the masks of
    the active (held or confirmed) reservation seats on it.  This file states
    the invariant ([consistent]), proves that every command of the store
    preserves it, that it excludes double booking, that the release of an
    active reservation cannot fail under it, and that the audit
    ReconcileTrainRun decides it. *)

From S2P Require Import Prelude SegmentMask BookingDomain Sharding RouteCache BookingDb Occupancy Router BookingStore.
Import ShardTypes.

Lemma contained_spec si m :
  contained si m = true <-> length (si_occupied si) = length m /\ forall i, bit m i = true -> bit (si_occupied si) i = true.
Proof.
  unfold contained. destruct (Nat.eqb _ _) eqn:E; [apply Nat.eqb_eq in E|apply Nat.eqb_neq in E; naive_solver].
  rewrite bool_decide_eq_true. split.
  - intros H. split; [done|]. intros i Hi. rewrite <- H, bit_and in Hi by done. by apply andb_true_iff in Hi as [? _].
  - intros [_ H]. apply varbit_ext; [unfold varbit_and; rewrite length_zip_same; done|].
    intros i. rewrite bit_and by done. specialize (H i). destruct (bit m i); [by rewrite H|by rewrite andb_false_r].
Qed.

(** ** The invariant *)

(** The active seats that claim segment [i] of a seat on a run. *)
Definition load (l : Local) (run seat : uuid) (i : nat) : nat :=
  countIf (fun rs => activeOn l run seat rs && bit (rs_mask rs) i) (reservation_seats l).

Record consistent (l : Local) : Prop := {
  co_rows : forall run seat si i, inventory l !! (run, seat) = Some si ->
    load l run seat i = b2n (bit (si_occupied si) i);
  co_covered : forall run seat rs, rs ∈ reservation_seats l -> activeOn l run seat rs = true ->
    exists si, inventory l !! (run, seat) = Some si /\ length (si_occupied si) = length (rs_mask rs);
  co_parent : forall rs, rs ∈ reservation_seats l -> is_Some (reservations l !! rs_reservation rs);
  co_unique : NoDup (map (fun rs => (rs_reservation rs, rs_seat rs)) (reservation_seats l));
  co_seated : forall id, is_Some (reservations l !! id) -> seatsOf l id <> []
}.

(** The tables the invariant is about. *)
Definition core (l : Local) := (inventory l, reservations l, reservation_seats l).

Lemma consistent_core l l' : core l' = core l -> consistent l -> consistent l'.
Proof.
  unfold core. destruct l, l'; simpl. intros [= -> -> ->] []. constructor; simpl in *; auto.
Qed.

Lemma activeOn_spec l run seat rs :
  activeOn l run seat rs = true <->
  exists r, reservations l !! rs_reservation rs = Some r /\ r_run r = run /\ activeStatus (r_status r) = true /\
    rs_seat rs = seat.
Proof.
  unfold activeOn, activeSeatOnRun. destruct (reservations l !! rs_reservation rs) as [r|]; [|naive_solver].
  rewrite !andb_true_iff, !bool_decide_eq_true. naive_solver.
Qed.

(** An active seat's bits are occupied. *)
Lemma consistent_occupied l run seat rs si i :
  consistent l -> rs ∈ reservation_seats l -> activeOn l run seat rs = true ->
  inventory l !! (run, seat) = Some si -> bit (rs_mask rs) i = true -> bit (si_occupied si) i = true.
Proof.
  intros Hc Hin Hact Hsi Hb. pose proof (co_rows l Hc run seat si i Hsi) as Hl. unfold load in Hl.
  pose proof (countIf_pos (fun rs => activeOn l run seat rs && bit (rs_mask rs) i) _ rs Hin) as Hpos.
  cbv beta in Hpos. rewrite Hact, Hb in Hpos. specialize (Hpos eq_refl). unfold b2n in Hl.
  destruct (bit (si_occupied si) i); [done|lia].
Qed.

(** ** Pure preservation lemmas *)

(** Changing one reservation between active statuses. *)
Lemma consistent_restatus l id r r' :
  consistent l -> reservations l !! id = Some r -> r_run r' = r_run r ->
  activeStatus (r_status r') = activeStatus (r_status r) ->
  consistent (withReservations l (<[id := r']> (reservations l))).
Proof.
  intros Hc Hr Hrun Hact. set (l' := withReservations l _).
  assert (Ha : forall run seat rs, activeOn l' run seat rs = activeOn l run seat rs).
  { intros. unfold activeOn, activeSeatOnRun. f_equal. unfold l'. simpl.
    destruct (decide (rs_reservation rs = id)) as [->|Hne].
    - by rewrite lookup_insert_eq, Hr, Hrun, Hact.
    - by rewrite lookup_insert_ne by done. }
  destruct Hc as [H1 H2 H3 H4 H5]. constructor.
  - intros run seat si i Hsi. rewrite <- (H1 run seat si i Hsi). apply countIf_ext. intros. by rewrite Ha.
  - intros run seat rs Hin Hrs. rewrite Ha in Hrs. by apply H2.
  - intros rs Hin. simpl. destruct (decide (rs_reservation rs = id)) as [->|Hne].
    + rewrite lookup_insert_eq. eauto.
    + rewrite lookup_insert_ne by done. by apply H3.
  - exact H4.
  - intros id'. simpl. intros Hs. apply (H5 id'). destruct (decide (id' = id)) as [->|Hne]; [by rewrite Hr|].
    by rewrite lookup_insert_ne in Hs by done.
Qed.

Lemma occupy_lookup run chosen mask inv k :
  occupy run chosen mask inv !! k =
  (fun si => if bool_decide (k.1 = run) && bool_decide (k.2 ∈ chosen)
             then mkInventory (si_segment_count si) (si_class si) (varbit_or (si_occupied si) mask) (si_version si + 1)
             else si) <$> inv !! k.
Proof. unfold occupy. rewrite map_lookup_imap. by destruct (inv !! k). Qed.

(** A new held reservation whose seats were free. *)
Section Hold.
Context (l : Local) (id run : uuid) (row : ReservationRow) (mask : varbit) (rows : list SeatRow).
Let chosen := map rs_seat rows.
Let l' := withReservationSeats (withReservations (withInventory l (occupy run chosen mask (inventory l)))
            (<[id := row]> (reservations l))) (reservation_seats l ++ rows).

Context (Hc : consistent l) (Hfresh : reservations l !! id = None).
Context (Hrun : r_run row = run) (Hheld : activeStatus (r_status row) = true).
Context (Hrows : forall rs, rs ∈ rows -> rs_reservation rs = id /\ rs_mask rs = mask).
Context (Hnodup : NoDup chosen) (Hsome : rows <> []).
Context (Hfree : forall seat, seat ∈ chosen -> exists si, inventory l !! (run, seat) = Some si /\
  length (si_occupied si) = length mask /\ forall i, bit (si_occupied si) i && bit mask i = false).

Lemma hold_old rs : rs ∈ reservation_seats l -> rs_reservation rs <> id.
Proof. intros Hin Heq. destruct (co_parent l Hc rs Hin) as [r Hr]. rewrite Heq, Hfresh in Hr. done. Qed.

Lemma hold_active_old run' seat rs : rs ∈ reservation_seats l -> activeOn l' run' seat rs = activeOn l run' seat rs.
Proof.
  intros Hin. unfold activeOn, activeSeatOnRun. simpl. rewrite lookup_insert_ne; [done|].
  apply not_eq_sym, hold_old, Hin.
Qed.

Lemma hold_active_new run' seat rs : rs ∈ rows ->
  activeOn l' run' seat rs = bool_decide (run = run') && bool_decide (rs_seat rs = seat).
Proof.
  intros [Hid _]%Hrows. unfold activeOn, activeSeatOnRun. simpl.
  by rewrite Hid, lookup_insert_eq, Hheld, Hrun, andb_true_r.
Qed.

Lemma hold_load run' seat i :
  load l' run' seat i =
  (load l run' seat i + b2n (bool_decide (run = run') && bool_decide (seat ∈ chosen) && bit mask i))%nat.
Proof.
  unfold load. simpl. rewrite countIf_app. f_equal.
  - apply countIf_ext. intros rs Hin. by rewrite hold_active_old.
  - rewrite (countIf_key rs_seat _ seat) by
      (done || (intros rs Hin H; rewrite hold_active_new in H by done;
                apply andb_true_iff in H as [[_ H]%andb_true_iff _]; by apply bool_decide_eq_true in H)).
    unfold b2n. match goal with |- (if ?a then _ else _) = (if ?b then _ else _) => replace b with a; [done|] end.
    apply eq_true_iff_eq. rewrite existsb_elem, !andb_true_iff, !bool_decide_eq_true. split.
    + intros (rs & Hin & H). rewrite hold_active_new in H by done.
      rewrite !andb_true_iff, !bool_decide_eq_true in H. destruct H as [[<- <-] Hb].
      destruct (Hrows rs Hin) as [_ Hm]. rewrite Hm in Hb. split_and!; auto. apply list_elem_of_fmap. eauto.
    + intros [[<- Hs] Hb]. apply list_elem_of_fmap in Hs as (rs & -> & Hin). exists rs. split; [done|].
      rewrite hold_active_new by done. destruct (Hrows rs Hin) as [_ ->]. by rewrite !bool_decide_eq_true_2.
Qed.

Lemma consistent_hold : consistent l'.
Proof.
  constructor.
  - intros run' seat si' i. simpl. rewrite occupy_lookup. simpl.
    destruct (inventory l !! (run', seat)) as [si|] eqn:Hsi; [|done]. intros [= <-].
    rewrite hold_load, (co_rows l Hc run' seat si i Hsi).
    rewrite (bool_decide_ext (run = run') (run' = run)) by naive_solver.
    destruct (bool_decide (run' = run) && bool_decide (seat ∈ chosen)) eqn:E; simpl; [|lia].
    apply andb_true_iff in E as [->%bool_decide_eq_true Hs%bool_decide_eq_true].
    destruct (Hfree seat Hs) as (si0 & Hsi0 & Hlen & Hdis). simplify_eq.
    rewrite bit_or by done. specialize (Hdis i). destruct (bit (si_occupied si) i), (bit mask i); simpl in *; done.
  - intros run' seat rs Hin Hact. simpl in Hin. apply elem_of_app in Hin as [Hin|Hin].
    + rewrite hold_active_old in Hact by done. destruct (co_covered l Hc run' seat rs Hin Hact) as (si & Hsi & Hlen).
      simpl. rewrite occupy_lookup, Hsi. simpl. eexists. split; [done|]. simpl.
      destruct (bool_decide (run' = run) && bool_decide (seat ∈ chosen)) eqn:E; simpl; [|done].
      apply andb_true_iff in E as [->%bool_decide_eq_true Hs%bool_decide_eq_true].
      destruct (Hfree seat Hs) as (si0 & Hsi0 & Hlen0 & _). simplify_eq.
      unfold varbit_or. rewrite length_zip_same; congruence.
    + rewrite hold_active_new in Hact by done.
      apply andb_true_iff in Hact as [<-%bool_decide_eq_true <-%bool_decide_eq_true].
      assert (Hs : rs_seat rs ∈ chosen) by (apply list_elem_of_fmap; eauto).
      destruct (Hfree _ Hs) as (si & Hsi & Hlen & _). simpl. rewrite occupy_lookup, Hsi. simpl.
      rewrite !bool_decide_eq_true_2 by done. eexists. split; [done|]. simpl.
      destruct (Hrows rs Hin) as [_ ->]. unfold varbit_or. by rewrite length_zip_same.
  - intros rs Hin. simpl in Hin |- *. apply elem_of_app in Hin as [Hin|Hin].
    + rewrite lookup_insert_ne by (apply not_eq_sym, hold_old, Hin). by apply (co_parent l Hc).
    + destruct (Hrows rs Hin) as [-> _]. rewrite lookup_insert_eq. eauto.
  - simpl. rewrite map_app. apply NoDup_app. split_and!; [apply Hc| |].
    + intros k (rs & -> & Hin)%list_elem_of_fmap (rs' & Heq & Hin')%list_elem_of_fmap.
      destruct (Hrows rs' Hin') as [Hid _]. apply (hold_old rs Hin). congruence.
    + apply NoDup_fmap_1 with (f := snd). rewrite <- list_fmap_compose. exact Hnodup.
  - intros id' Hs. simpl in Hs. unfold seatsOf. simpl. rewrite filter_app. intros [Hl Hr]%app_eq_nil.
    destruct (decide (id' = id)) as [->|Hne].
    + destruct rows as [|rs rest]; [done|]. destruct (Hrows rs) as [Hid _]; [by left|].
      by rewrite filter_cons_True in Hr.
    + rewrite lookup_insert_ne in Hs by done. by apply (co_seated l Hc id').
Qed.
End Hold.

Lemma omap_cons_eq {A B} (f : A -> option B) x l :
  omap f (x :: l) = match f x with Some b => b :: omap f l | None => omap f l end.
Proof. reflexivity. Qed.

Lemma omap_full {A B} (f : A -> option B) (p : A -> bool) l :
  (forall x, is_Some (f x) -> p x = true) -> length (omap f l) = countIf p l ->
  forall x, x ∈ l -> p x = true -> is_Some (f x).
Proof.
  intros Hf. assert (Hle : forall l, (length (omap f l) <= countIf p l)%nat).
  { induction l0 as [|y l0 IH]; [done|]. rewrite countIf_cons, omap_cons_eq. destruct (f y) eqn:Ey; cbn [length].
    - rewrite (Hf y) by eauto. lia.
    - lia. }
  induction l as [|y l IH]; intros Hlen x Hx Hp; [by apply not_elem_of_nil in Hx|].
  rewrite countIf_cons, omap_cons_eq in Hlen. specialize (Hle l).
  destruct (f y) as [b|] eqn:Ey; cbn [length] in Hlen.
  - rewrite (Hf y) in Hlen by eauto. apply elem_of_cons in Hx as [->|Hx]; [eauto|]. apply IH; [lia|done|done].
  - destruct (p y) eqn:Epy; [lia|]. apply elem_of_cons in Hx as [->|Hx]; [congruence|]. apply IH; [lia|done|done].
Qed.

Lemma length_seatsOf l id :
  length (seatsOf l id) = countIf (fun rs => bool_decide (rs_reservation rs = id)) (reservation_seats l).
Proof.
  unfold seatsOf, countIf. f_equal. apply list_filter_iff. intros. by rewrite bool_decide_eq_true.
Qed.

Lemma elem_of_releasable l id r run rs :
  reservations l !! id = Some r ->
  (run, rs) ∈ releasable l id <->
  rs ∈ reservation_seats l /\ rs_reservation rs = id /\ run = r_run r /\
  exists si, inventory l !! (r_run r, rs_seat rs) = Some si /\ contained si (rs_mask rs) = true.
Proof.
  intros Hr. unfold releasable. rewrite list_elem_of_omap. split.
  - intros (rs' & Hin & H). case_bool_decide as Hid; [|done]. rewrite Hid, Hr in H. simpl in H.
    destruct (inventory l !! (r_run r, rs_seat rs')) as [si|] eqn:Hsi; [|done]. simpl in H.
    destruct (contained si (rs_mask rs')) eqn:Hcon; [|done]. simplify_eq. eauto 10.
  - intros (Hin & Hid & -> & si & Hsi & Hcon). exists rs. split; [done|].
    rewrite bool_decide_eq_true_2, Hid, Hr by done. simpl. rewrite Hsi. simpl. by rewrite Hcon.
Qed.

Lemma releasable_full l id :
  length (releasable l id) = length (seatsOf l id) ->
  forall rs, rs ∈ reservation_seats l -> rs_reservation rs = id ->
  exists r si, reservations l !! id = Some r /\ inventory l !! (r_run r, rs_seat rs) = Some si /\
    contained si (rs_mask rs) = true.
Proof.
  rewrite length_seatsOf. intros Hlen rs Hin Hid. unfold releasable in Hlen.
  eapply omap_full in Hlen as [b Hb];
    [|intros x [y Hy]; destruct (bool_decide (rs_reservation x = id)); [done|done]|exact Hin|by apply bool_decide_eq_true].
  rewrite bool_decide_eq_true_2, Hid in Hb by done.
  destruct (reservations l !! id) as [r|]; [|done]. simpl in Hb.
  destruct (inventory l !! (r_run r, rs_seat rs)) as [si|] eqn:Hsi; [|done]. simpl in Hb.
  destruct (contained si (rs_mask rs)) eqn:Hc; [|done]. eauto 10.
Qed.

Lemma release_lookup rows inv k :
  release rows inv !! k =
  (fun si => match List.find (fun row => bool_decide (row.1 = k.1) && bool_decide (rs_seat row.2 = k.2)) rows with
             | Some row => mkInventory (si_segment_count si) (si_class si)
                             (varbit_and (si_occupied si) (varbit_not (rs_mask row.2))) (si_version si + 1)
             | None => si
             end) <$> inv !! k.
Proof. unfold release. rewrite map_lookup_imap. by destruct (inv !! k). Qed.

(** Releasing the seats of a reservation that has just left the active
    statuses. *)
Section Release.
Context (l : Local) (id : uuid) (r r' : ReservationRow).
Let l1 := withReservations l (<[id := r']> (reservations l)).
Let rows := releasable l1 id.
Let l' := withInventory l1 (release rows (inventory l1)).

Context (Hc : consistent l) (Hr : reservations l !! id = Some r) (Hrun : r_run r' = r_run r).
Context (Hact : activeStatus (r_status r) = true) (Hdone : activeStatus (r_status r') = false).
Context (Hall : length rows = length (seatsOf l1 id)).

Lemma rel_r' : reservations l1 !! id = Some r'.
Proof. unfold l1. simpl. apply lookup_insert_eq. Qed.

Lemma rel_rows rs : rs ∈ reservation_seats l -> rs_reservation rs = id ->
  (r_run r, rs) ∈ rows /\ exists si, inventory l !! (r_run r, rs_seat rs) = Some si /\ contained si (rs_mask rs) = true.
Proof.
  intros Hin Hid. destruct (releasable_full l1 id Hall rs Hin Hid) as (r0 & si & Hr0 & Hsi & Hcon).
  rewrite rel_r' in Hr0. injection Hr0 as <-. rewrite Hrun in Hsi. split; [|eauto].
  apply (elem_of_releasable l1 id r' _ _ rel_r'). rewrite Hrun. eauto 10.
Qed.

Lemma rel_active run seat rs : rs ∈ reservation_seats l ->
  activeOn l' run seat rs = activeOn l run seat rs && negb (bool_decide (rs_reservation rs = id)).
Proof.
  intros Hin. unfold activeOn, activeSeatOnRun. simpl.
  destruct (decide (rs_reservation rs = id)) as [Hid|Hid].
  - by rewrite (bool_decide_eq_true_2 (rs_reservation rs = id)), Hid, lookup_insert_eq, Hdone, !andb_false_r.
  - by rewrite (bool_decide_eq_false_2 (rs_reservation rs = id)), lookup_insert_ne, andb_true_r by done.
Qed.

(** The find of [release] returns the row of the reservation on that seat. *)
Lemma rel_find run seat :
  match List.find (fun row => bool_decide (row.1 = run) && bool_decide (rs_seat row.2 = seat)) rows with
  | Some row => run = r_run r /\ row.2 ∈ reservation_seats l /\ rs_reservation row.2 = id /\ rs_seat row.2 = seat
  | None => forall rs, rs ∈ reservation_seats l -> rs_reservation rs = id -> ~ (r_run r = run /\ rs_seat rs = seat)
  end.
Proof.
  destruct (List.find _ rows) as [[run0 rs]|] eqn:E.
  - apply find_some in E as [Hin Hb]. apply list_elem_of_In in Hin. simpl in *.
    apply andb_true_iff in Hb as [->%bool_decide_eq_true <-%bool_decide_eq_true].
    apply (elem_of_releasable l1 id r' _ _ rel_r') in Hin as (Hin & Hid & -> & _). by rewrite Hrun.
  - intros rs Hin Hid [Hx Hs]. destruct (rel_rows rs Hin Hid) as [Hin' _].
    eapply find_none in E; [|by apply list_elem_of_In]. simpl in E.
    rewrite !bool_decide_eq_true_2 in E by done. done.
Qed.

Lemma rel_load run seat i :
  load l run seat i =
  (load l' run seat i + countIf (fun rs => (activeOn l run seat rs && bit (rs_mask rs) i) &&
     bool_decide (rs_reservation rs = id)) (reservation_seats l))%nat.
Proof.
  unfold load at 1. rewrite (countIf_split _ (fun rs => bool_decide (rs_reservation rs = id))), Nat.add_comm.
  f_equal. apply countIf_ext. intros rs Hin. rewrite rel_active by done.
  destruct (activeOn l run seat rs), (bit (rs_mask rs) i), (bool_decide _); done.
Qed.

(** The reservation's own contribution to the load of a seat. *)
Lemma rel_own run seat i :
  countIf (fun rs => (activeOn l run seat rs && bit (rs_mask rs) i) && bool_decide (rs_reservation rs = id))
    (reservation_seats l) =
  match List.find (fun row => bool_decide (row.1 = run) && bool_decide (rs_seat row.2 = seat)) rows with
  | Some row => b2n (bit (rs_mask row.2) i)
  | None => 0%nat
  end.
Proof.
  pose proof (rel_find run seat) as Hf. destruct (List.find _ rows) as [row|].
  - destruct Hf as (-> & Hin & Hid & Hs).
    rewrite (countIf_key (fun rs => (rs_reservation rs, rs_seat rs)) _ (id, seat)).
    + unfold b2n. match goal with |- (if ?a then _ else _) = (if ?b then _ else _) => replace b with a; [done|] end.
      apply eq_true_iff_eq. rewrite existsb_elem. split.
      * intros (rs & Hin' & H). rewrite !andb_true_iff, bool_decide_eq_true, activeOn_spec in H.
        destruct H as [[(r0 & _ & _ & _ & Hs') Hb] Hid'].
        assert (rs = row.2) as <-; [|done].
        eapply (NoDup_map_inj (fun rs => (rs_reservation rs, rs_seat rs))); [apply Hc|done|done|congruence].
      * intros Hb. exists row.2. split; [done|]. rewrite Hb, bool_decide_eq_true_2, !andb_true_r by done.
        apply activeOn_spec. exists r. rewrite Hid. auto.
    + apply Hc.
    + intros rs _ H. rewrite !andb_true_iff, bool_decide_eq_true, activeOn_spec in H.
      destruct H as [[(_ & _ & _ & _ & <-) _] <-]. done.
  - apply countIf_0. intros rs Hin. destruct (_ && _) eqn:E; [|done]. exfalso.
    rewrite !andb_true_iff, bool_decide_eq_true, activeOn_spec in E.
    destruct E as [[(r0 & Hr0 & Hrun0 & _ & Hs) _] Hid]. apply (Hf rs Hin Hid). rewrite Hid, Hr in Hr0. naive_solver.
Qed.

Lemma consistent_release : consistent l'.
Proof.
  constructor.
  - intros run seat si' i. simpl. rewrite release_lookup. simpl.
    destruct (inventory l !! (run, seat)) as [si|] eqn:Hsi; [|done]. intros [= <-].
    pose proof (co_rows l Hc run seat si i Hsi) as Hl. rewrite rel_load, rel_own in Hl.
    pose proof (rel_find run seat) as Hf. fold rows. destruct (List.find _ rows) as [row|]; [|simpl; lia].
    destruct Hf as (-> & Hin & Hid & Hs). destruct (rel_rows row.2 Hin Hid) as (_ & si0 & Hsi0 & Hcon).
    rewrite Hs, Hsi in Hsi0. injection Hsi0 as <-. apply contained_spec in Hcon as [Hlen _]. simpl.
    rewrite bit_and_not by done. unfold b2n in *. destruct (bit (si_occupied si) i), (bit (rs_mask row.2) i); simpl; lia.
  - intros run seat rs Hin Hon. simpl in Hin. rewrite rel_active in Hon by done.
    apply andb_true_iff in Hon as [Hon _]. destruct (co_covered l Hc run seat rs Hin Hon) as (si & Hsi & Hlen).
    simpl. rewrite release_lookup, Hsi. simpl. eexists. split; [done|]. fold rows.
    pose proof (rel_find run seat) as Hf. destruct (List.find _ rows) as [row|]; [|done].
    destruct Hf as (-> & Hin' & Hid & Hs). destruct (rel_rows row.2 Hin' Hid) as (_ & si0 & Hsi0 & Hcon).
    rewrite Hs, Hsi in Hsi0. injection Hsi0 as <-. apply contained_spec in Hcon as [Hlen' _]. simpl.
    unfold varbit_and, varbit_not. rewrite length_zip_same; [done|]. by rewrite length_map.
  - intros rs Hin. simpl in *. destruct (decide (rs_reservation rs = id)) as [->|Hne].
    + rewrite lookup_insert_eq. eauto.
    + rewrite lookup_insert_ne by done. by apply (co_parent l Hc).
  - apply Hc.
  - intros id' Hs. simpl in Hs. apply (co_seated l Hc id'). destruct (decide (id' = id)) as [->|Hne]; [by rewrite Hr|].
    by rewrite lookup_insert_ne in Hs by done.
Qed.
End Release.

Lemma consistent_insert_zero l run seat segments class :
  consistent l -> inventory l !! (run, seat) = None ->
  consistent (withInventory l (<[(run, seat) := mkInventory segments class (zeroMask segments) 0]> (inventory l))).
Proof.
  intros Hc Hnone. constructor; simpl; [| |apply Hc|apply Hc|apply Hc].
  - intros run' seat' si i. destruct (decide ((run, seat) = (run', seat'))) as [[= <- <-]|Hne].
    + rewrite lookup_insert_eq. intros [= <-]. simpl. unfold zeroMask. rewrite bit_zero. apply countIf_0.
      intros rs Hin. destruct (activeOn _ run seat rs) eqn:Ha; [|done]. exfalso.
      destruct (co_covered l Hc run seat rs Hin Ha) as (si & Hsi & _). congruence.
    + rewrite lookup_insert_ne by done. apply (co_rows l Hc).
  - intros run' seat' rs Hin Ha. destruct (co_covered l Hc run' seat' rs Hin Ha) as (si & Hsi & Hlen).
    exists si. split; [|done]. rewrite lookup_insert_ne; [done|]. intros [= <- <-]. congruence.
Qed.

Lemma consistent_insertMissing l run segments rows :
  consistent l -> consistent (withInventory l (insertMissing run segments rows (inventory l)).1).
Proof.
  intros Hc. unfold insertMissing. induction rows as [|row rows IH]; simpl; [by apply (consistent_core l)|].
  destruct (foldr _ _ rows) as [inv n] eqn:E. simpl in *.
  destruct (inv !! (run, row.1)) eqn:Hl; simpl; [done|].
  eapply consistent_core; [|apply (consistent_insert_zero _ run row.1 segments row.2 IH); exact Hl]. done.
Qed.

(** ** Frames

    [keeps m]: the transaction step [m] does not touch the core tables of any
    schema. *)
Definition keeps {A} (m : M A) : Prop :=
  forall db a db', m db = Ok (a, db') -> forall s, core (getLocal s db') = core (getLocal s db).

Lemma keeps_ret {A} (a : A) : keeps (ret a).
Proof. intros db a' db' [= <- <-]. done. Qed.
Lemma keeps_fail {A} e : keeps (@fail A e).
Proof. intros db a db' [=]. Qed.
Lemma keeps_bind {A B} (m : M A) (k : A -> M B) : keeps m -> (forall a, keeps (k a)) -> keeps (bindM m k).
Proof.
  intros Hm Hk db b db'' (a & db' & H1 & H2)%bindM_Ok s. rewrite (Hk a _ _ _ H2 s). apply (Hm _ _ _ H1).
Qed.
Lemma keeps_getTables tx : keeps (getTables tx).
Proof. intros db a db' [= <- <-]. done. Qed.
Lemma keeps_getControl : keeps getControl.
Proof. intros db a db' [= <- <-]. done. Qed.
Lemma keeps_getCatalogue : keeps getCatalogue.
Proof. intros db a db' [= <- <-]. done. Qed.
Lemma keeps_putControl c : keeps (putControl c).
Proof. intros db a db' [= <- <-] s. by rewrite getLocal_setControl. Qed.
Lemma keeps_appendOutbox row : keeps (appendOutbox row).
Proof. intros db a db' [= <- <-] s. by rewrite getLocal_setOutbox. Qed.

(** An update of the schema's tables that leaves the core ones. *)
Lemma keeps_update {B} tx (k : Local -> M B) :
  (forall l db b db', getLocal (tx_schema tx) db = l -> k l db = Ok (b, db') ->
     forall s, core (getLocal s db') = core (getLocal s db)) ->
  keeps (bindM (getTables tx) k).
Proof. intros H db b db'' (a & db' & [= <- <-] & H2)%bindM_Ok s. by apply (H _ _ _ _ eq_refl H2). Qed.

Lemma keeps_putTables tx l l' db a db' :
  getLocal (tx_schema tx) db = l -> core l' = core l -> putTables tx l' db = Ok (a, db') ->
  forall s, core (getLocal s db') = core (getLocal s db).
Proof.
  intros <- Hc [= <- <-] s. rewrite getLocal_setLocal. case_bool_decide as Hs; [by subst s|done].
Qed.

Create HintDb frame discriminated.
#[export] Hint Resolve keeps_ret keeps_fail keeps_getTables keeps_getControl keeps_getCatalogue keeps_putControl
  keeps_appendOutbox : frame.

(** Decompose a transaction step by its structure. *)
Ltac keeps :=
  repeat first
    [ solve [auto with frame]
    | apply keeps_bind; [|intros ?]
    | match goal with |- keeps (match ?x with _ => _ end) => destruct x end
    | match goal with |- keeps (let '(_, _) := ?x in _) => destruct x end ].

Lemma keeps_Commit tx env : keeps (Commit tx env).
Proof. unfold Commit. keeps. Qed.
Lemma keeps_appendReservationEvent tx env id ty pl : keeps (appendReservationEvent tx env id ty pl).
Proof. unfold appendReservationEvent. keeps. Qed.
Lemma keeps_appendTicketEvent tx env id pl : keeps (appendTicketEvent tx env id pl).
Proof. unfold appendTicketEvent. keeps. Qed.

Lemma keeps_retire ids : keeps (retireExpiredIdempotencyClaims ids).
Proof.
  intros db a db' H s. unfold retireExpiredIdempotencyClaims in H.
  destruct (Nat.eqb (length ids) 0); [by injection H as <- <-|].
  apply failif_Ok in H as [_ H]. apply failif_Ok in H as [_ H]. injection H as <- <-. by destruct s.
Qed.
#[export] Hint Resolve keeps_Commit keeps_appendReservationEvent keeps_appendTicketEvent keeps_retire : frame.

Lemma keeps_acquireGlobal rt env input : keeps (acquireGlobalIdempotencyClaim rt env input).
Proof. unfold acquireGlobalIdempotencyClaim. cbv zeta. keeps. Qed.
#[export] Hint Resolve keeps_acquireGlobal : frame.

Lemma core_upsert tx env input ex acq l : core (upsertIdempotency tx env input ex acq l).1 = core l.
Proof. unfold upsertIdempotency. destruct (idempotency l !! _) as [old|]; [destruct (_ <=? _)|]; done. Qed.

Lemma keeps_AcquireIdempotency tx env input : keeps (AcquireIdempotency tx env input).
Proof.
  unfold AcquireIdempotency. destruct (_ || _); [auto with frame|].
  apply keeps_bind; [keeps|]. intros [ex acq]. apply keeps_update. intros l db b db'' Hl.
  pose proof (core_upsert tx env input ex acq l) as Hcore.
  destruct (upsertIdempotency tx env input ex acq l) as [l' ins]. cbn [fst] in Hcore.
  intros [_ H]%stopif_Ok s. apply bindM_Ok in H as (u & db1 & Hput & H).
  rewrite <- (keeps_putTables _ _ _ _ _ _ Hl Hcore Hput s). assert (Hk : db'' = db1); [|by subst].
  destruct (idempotency l' !! inputKey input) as [row|]; [|done].
  apply stopif_Ok in H as [_ H]. apply stopif_Ok in H as [_ H].
  destruct (ir_completed row); [destruct (ir_resource row); [|done]|];
    apply stopif_Ok in H as [_ H]; by injection H as _ <-.
Qed.

Lemma keeps_CompleteIdempotency tx a b : keeps (CompleteIdempotency tx a b).
Proof.
  unfold CompleteIdempotency. destruct (_ || _); [auto with frame|].
  apply keeps_update. intros l db u db' Hl [_ H]%stopif_Ok. eapply keeps_putTables; [exact Hl| |exact H]. done.
Qed.
#[export] Hint Resolve keeps_AcquireIdempotency keeps_CompleteIdempotency : frame.

Lemma keeps_quotaCounts tx u r : keeps (quotaCounts tx u r).
Proof. unfold quotaCounts. cbv zeta. keeps. Qed.
#[export] Hint Resolve keeps_quotaCounts : frame.
Lemma keeps_enforceQuota tx u r n lim : keeps (enforceReservationQuota tx u r n lim).
Proof. unfold enforceReservationQuota. keeps. Qed.
Lemma keeps_insertQuotaClaim tx a b c n : keeps (insertReservationQuotaClaim tx a b c n).
Proof. unfold insertReservationQuotaClaim. keeps. Qed.
Lemma keeps_closeQuotaClaim tx a : keeps (closeReservationQuotaClaim tx a).
Proof. unfold closeReservationQuotaClaim. keeps. Qed.
Lemma keeps_recheck run cl d : keeps (recheckAdmissionPolicy run cl d).
Proof. unfold recheckAdmissionPolicy. keeps. Qed.
Lemma keeps_recordWrite tx : keeps (recordSuccessfulGenerationWrite tx).
Proof. unfold recordSuccessfulGenerationWrite. cbv zeta. keeps. Qed.
Lemma keeps_insertLocator tx a b : keeps (insertReservationLocator tx a b).
Proof. unfold insertReservationLocator. keeps. Qed.
Lemma keeps_insertOrderLocator tx a b c d e f g : keeps (insertTicketOrderLocator tx a b c d e f g).
Proof. unfold insertTicketOrderLocator. keeps. Qed.
Lemma keeps_insertTicketLocator tx a b c d : keeps (insertTicketLocator tx a b c d).
Proof. unfold insertTicketLocator. keeps. Qed.
Lemma keeps_updateOrderLocator tx a b : keeps (updateTicketOrderLocatorStatus tx a b).
Proof. unfold updateTicketOrderLocatorStatus. keeps. Qed.
Lemma keeps_ensurePassengers tx a b : keeps (ensurePassengersAvailable tx a b).
Proof. unfold ensurePassengersAvailable. keeps. Qed.
Lemma keeps_loadCreateHold tx a b : keeps (loadCreateHoldResult tx a b).
Proof. unfold loadCreateHoldResult. keeps. Qed.
Lemma keeps_loadConfirmation tx a b : keeps (loadConfirmationResult tx a b).
Proof. unfold loadConfirmationResult. keeps. Qed.
Lemma keeps_loadCancellation tx a b : keeps (loadCancellationResult tx a b).
Proof. unfold loadCancellationResult. keeps. Qed.
Lemma keeps_lockOwned tx a b : keeps (lockOwnedReservation tx a b).
Proof. unfold lockOwnedReservation. keeps. Qed.
#[export] Hint Resolve keeps_enforceQuota keeps_insertQuotaClaim keeps_closeQuotaClaim keeps_recheck keeps_recordWrite
  keeps_insertLocator keeps_insertOrderLocator keeps_insertTicketLocator keeps_updateOrderLocator
  keeps_ensurePassengers keeps_loadCreateHold keeps_loadConfirmation keeps_loadCancellation keeps_lockOwned : frame.

Lemma keeps_insertOrder tx id row : keeps (insertOrder tx id row).
Proof.
  unfold insertOrder. apply keeps_update. intros l db u db' Hl [_ H]%stopif_Ok.
  eapply keeps_putTables; [exact Hl| |exact H]. done.
Qed.
Lemma keeps_insertTicket tx row : keeps (insertTicket tx row).
Proof.
  unfold insertTicket. apply keeps_update. intros l db u db' Hl [_ H]%stopif_Ok.
  eapply keeps_putTables; [exact Hl| |exact H]. done.
Qed.
Lemma keeps_cancelTickets tx id : keeps (cancelTickets tx id).
Proof.
  unfold cancelTickets. cbv zeta. apply keeps_update. intros l db u db' Hl H.
  eapply keeps_putTables; [exact Hl| |exact H]. done.
Qed.
#[export] Hint Resolve keeps_insertOrder keeps_insertTicket keeps_cancelTickets : frame.
Lemma keeps_issueTickets tx env i o r u rows : keeps (issueTickets tx env i o r u rows).
Proof. revert i. induction rows as [|row rows IH]; intros i; simpl; [auto with frame|]. keeps. Qed.
#[export] Hint Resolve keeps_issueTickets : frame.

(** ** Preservation of the invariant in every schema *)
Definition allConsistent (db : DB) : Prop := forall s, consistent (getLocal s db).

Definition preserves {A} (m : M A) : Prop :=
  forall db a db', allConsistent db -> m db = Ok (a, db') -> allConsistent db'.

Lemma keeps_preserves {A} (m : M A) : keeps m -> preserves m.
Proof. intros H db a db' Hc Hm s. eapply consistent_core; [apply (H _ _ _ Hm)|apply Hc]. Qed.

Lemma preserves_bind {A B} (m : M A) (k : A -> M B) :
  preserves m -> (forall a, preserves (k a)) -> preserves (bindM m k).
Proof. intros Hm Hk db b db'' Hc (a & db' & H1 & H2)%bindM_Ok. eapply (Hk a); [|exact H2]. by eapply Hm. Qed.

(** Structure of a transaction whose steps keep or preserve. *)
Ltac preserves :=
  repeat first
    [ solve [auto with frame]
    | apply keeps_preserves; solve [auto with frame]
    | apply preserves_bind; [|intros ?]
    | match goal with |- preserves (match ?x with _ => _ end) => destruct x end ].

Lemma allConsistent_setLocal s l db : allConsistent db -> consistent l -> allConsistent (setLocal s l db).
Proof. intros Ha Hl s'. rewrite getLocal_setLocal. case_bool_decide; [done|apply Ha]. Qed.

(** ** What allocation returns *)
Lemma candidate_Some env cat run class mask k si a :
  candidate env cat run class mask (k, si) = Some a ->
  k = (run, al_seat a) /\ si_class si = class /\ length (si_occupied si) = length mask /\
  (0 < bit_count mask)%nat /\ (forall i, bit (si_occupied si) i && bit mask i = false) /\ locked env run (al_seat a) = false.
Proof.
  unfold candidate. destruct k as [run' seat]. destruct (seats cat !! seat) as [s|]; [|done]. simpl.
  destruct (coaches cat !! s_coach s) as [c|]; [|done]. simpl.
  destruct (_ && _ && _ && _ && _) eqn:E; [|done]. intros [= <-]. simpl.
  rewrite !andb_true_iff in E. destruct E as [[[[E1 E2] _] E3] E4].
  apply bool_decide_eq_true in E1, E2. subst. apply negb_true_iff in E4.
  destruct (Nat.eqb _ _) eqn:Hl; [|done]. apply Nat.eqb_eq in Hl.
  apply andb_true_iff in E3 as [E3 E5]. apply bool_decide_eq_true in E5.
  split_and!; auto; [lia|]. by apply varbit_disjoint_spec.
Qed.

Lemma omap_NoDup {A B K} (f : A -> option B) (key : A -> K) (key' : B -> K) l :
  NoDup (map key l) -> (forall x b, f x = Some b -> key x = key' b) -> NoDup (map key' (omap f l)).
Proof.
  intros Hn Hf. induction l as [|x l IH]; [constructor|]. simpl in Hn. apply NoDup_cons in Hn as [Hx Hn].
  rewrite omap_cons_eq. destruct (f x) as [b|] eqn:E; [|auto]. simpl. apply NoDup_cons. split; [|auto].
  intros (b' & Hb & (y & Hy & Ey)%list_elem_of_omap)%list_elem_of_fmap. apply Hx.
  apply list_elem_of_fmap. exists y. split; [|done]. rewrite (Hf x b), Hb, (Hf y b') by done. done.
Qed.

Lemma candidates_spec env cat l run class mask n :
  let cs := candidates env cat l run class mask n in
  NoDup (map al_seat cs) /\
  forall a, a ∈ cs -> exists si, inventory l !! (run, al_seat a) = Some si /\
    candidate env cat run class mask ((run, al_seat a), si) = Some a.
Proof.
  intros cs. unfold cs, candidates. split.
  - assert (Hn : NoDup (map al_seat (omap (candidate env cat run class mask) (map_to_list (inventory l))))).
    { apply NoDup_fmap_1 with (f := fun s => (run, s)). rewrite <- list_fmap_compose.
      apply (omap_NoDup _ fst); [apply NoDup_fst_map_to_list|].
      intros [k si] a H. by apply candidate_Some in H as [-> _]. }
    rewrite <- firstn_map. eapply sublist_NoDup; [|apply sublist_take].
    by rewrite sortBy_Permutation.
  - intros a Ha. apply elem_of_take in Ha as (i & Ha & _). apply list_elem_of_lookup_2 in Ha.
    apply elem_of_sortBy, list_elem_of_omap in Ha as ([k si] & Hin & Hc).
    pose proof (proj1 (candidate_Some _ _ _ _ _ _ _ _ Hc)) as ->.
    apply elem_of_map_to_list in Hin. eauto.
Qed.

Lemma AllocateSeats_Ok tx env run class requested count db alloc db' :
  AllocateSeats tx env run class requested count db = Ok (alloc, db') ->
  let l := getLocal (tx_schema tx) db in
  let mask := varbitOfBits (EncodeSegmentMask requested) in
  db' = setLocal (tx_schema tx) (withInventory l (occupy run (map al_seat alloc) mask (inventory l))) db /\
  Z.of_nat (length alloc) = count /\ 0 < count /\ NoDup (map al_seat alloc) /\
  forall seat, seat ∈ map al_seat alloc -> exists si, inventory l !! (run, seat) = Some si /\
    si_class si = toLower class /\ length (si_occupied si) = length mask /\
    (0 < bit_count mask)%nat /\ (forall i, bit (si_occupied si) i && bit mask i = false) /\ locked env run seat = false.
Proof.
  unfold AllocateSeats. cbv zeta. intros [Hg H]%stopif_Ok.
  assert (Hpos : 0 < count).
  { apply orb_false_iff in Hg as [[[[_ Hg]%orb_false_iff _]%orb_false_iff _]%orb_false_iff _]. lia. } apply stopif_Ok in H as [_ H].
  apply bindM_Ok in H as (cat & d1 & [= <- <-] & H). apply bindM_Ok in H as (l0 & d2 & [= <- <-] & H).
  apply bindM_Ok in H as (u & d3 & [= _ <-] & H).
  set (l := getLocal (tx_schema tx) db) in *. set (mask := varbitOfBits _) in *.
  set (cands := candidates _ _ _ _ _ _ _) in *.
  destruct (Z.of_nat (length cands) =? count) eqn:Hfull; [|apply stopif_Ok in H as [Hn _]; cbn [length] in Hn; lia].
  apply stopif_Ok in H as [Hn H]. injection H as <- <-.
  assert (Hperm : map al_seat (sortBy (seatOrder env) cands) ≡ₚ map al_seat cands) by (by rewrite sortBy_Permutation).
  destruct (candidates_spec env (catalogue db) l run (toLower class) mask (Z.to_nat count)) as [Hnd Hel].
  split_and!.
  - f_equal. f_equal. unfold occupy. apply map_eq. intros k. rewrite !map_lookup_imap.
    destruct (inventory l !! k); [|done]. simpl. do 2 f_equal.
    rewrite (bool_decide_ext (k.2 ∈ map al_seat cands) (k.2 ∈ map al_seat (sortBy (seatOrder env) cands))); [done|].
    by rewrite Hperm.
  - lia.
  - lia.
  - by rewrite Hperm.
  - intros seat Hs. rewrite Hperm in Hs. apply list_elem_of_fmap in Hs as (a & -> & Ha).
    destruct (Hel a Ha) as (si & Hsi & Hc). exists si. apply candidate_Some in Hc as (_ & ? & ? & ? & ? & ?). auto 10.
Qed.

Lemma insertReservation_Ok tx id row db u db' :
  insertReservation tx id row db = Ok (u, db') ->
  let l := getLocal (tx_schema tx) db in
  reservations l !! id = None /\
  db' = setLocal (tx_schema tx) (withReservations l (<[id := row]> (reservations l))) db.
Proof.
  unfold insertReservation. intros (l0 & d1 & [= <- <-] & H)%bindM_Ok. apply stopif_Ok in H as [Hn H].
  injection H as _ <-. split; [|done]. apply bool_decide_eq_false in Hn. by apply eq_None_not_Some.
Qed.

Lemma setLocal_setLocal s l l' db : setLocal s l (setLocal s l' db) = setLocal s l db.
Proof. by destruct s. Qed.

Lemma insertSeatRows_Ok tx rows db u db' :
  insertSeatRows tx rows db = Ok (u, db') ->
  let l := getLocal (tx_schema tx) db in
  db' = setLocal (tx_schema tx) (withReservationSeats l (reservation_seats l ++ rows)) db.
Proof.
  revert db. induction rows as [|row rows IH]; intros db H; simpl in H.
  - injection H as _ <-. simpl. rewrite app_nil_r. set (l := getLocal _ _).
    replace (withReservationSeats l (reservation_seats l)) with l by (by destruct l). unfold l. by rewrite setLocal_getLocal.
  - apply bindM_Ok in H as (u1 & d1 & H1 & H2). unfold insertSeatRow in H1.
    apply bindM_Ok in H1 as (l0 & d2 & [= <- <-] & H1). apply stopif_Ok in H1 as [_ H1]. injection H1 as _ <-.
    apply IH in H2. cbv zeta in *. rewrite getLocal_setLocal_eq in H2. simpl in H2.
    rewrite H2, setLocal_setLocal. f_equal. unfold withReservationSeats. simpl. by rewrite <- app_assoc.
Qed.

Lemma updateStatus_Ok tx id ok s db b db' :
  updateStatus tx id ok s db = Ok (b, db') ->
  let l := getLocal (tx_schema tx) db in
  (b = true /\ exists r, reservations l !! id = Some r /\ ok r = true /\
     db' = setLocal (tx_schema tx) (withReservations l (<[id := setReservationStatus r s]> (reservations l))) db) \/
  (b = false /\ db' = db).
Proof.
  unfold updateStatus. intros (l0 & d1 & [= <- <-] & H)%bindM_Ok. cbv zeta.
  destruct (reservations _ !! id) as [r|] eqn:Hr; [|by injection H as <- <-; right].
  destruct (ok r) eqn:Hok; [|by injection H as <- <-; right].
  apply bindM_Ok in H as (u & d2 & [= _ <-] & [= <- <-]). left. eauto.
Qed.

Lemma releaseReservationSeats_Ok tx id db n db' :
  releaseReservationSeats tx id db = Ok (n, db') ->
  let l := getLocal (tx_schema tx) db in
  length (releasable l id) = length (seatsOf l id) /\ n = Z.of_nat (length (seatsOf l id)) /\ 0 < n /\
  db' = setLocal (tx_schema tx) (withInventory l (release (releasable l id) (inventory l))) db.
Proof.
  unfold releaseReservationSeats. intros (l0 & d1 & [= <- <-] & H)%bindM_Ok. cbv zeta in *.
  apply bindM_Ok in H as (u & d2 & [= _ <-] & H). apply stopif_Ok in H as [Hg H]. injection H as <- <-.
  destruct (_ && _) eqn:E in Hg |- *; [|lia]. split_and!; lia || done.
Qed.

(** ** Commands *)
Lemma preserves_updateStatus_active tx id ok s :
  (forall r, ok r = true -> activeStatus s = activeStatus (r_status r)) -> preserves (updateStatus tx id ok s).
Proof.
  intros Hok db b db' Hc H. apply updateStatus_Ok in H as [(_ & r & Hr & Hk & ->)|(_ & ->)]; [|done].
  apply allConsistent_setLocal; [done|]. eapply consistent_restatus; [apply Hc|exact Hr|done|]. simpl. by apply Hok.
Qed.

(** Leaving the active statuses and releasing the seats, as one step. *)
Lemma preserves_retire_reservation {B} tx id ok s (k : Z -> M B) :
  (forall r, ok r = true -> activeStatus (r_status r) = true) -> activeStatus s = false ->
  (forall n, preserves (k n)) ->
  preserves (bindM (updateStatus tx id ok s) (fun affected =>
    stopif negb affected with ErrPersistenceInvariant else
    bindM (releaseReservationSeats tx id) k)).
Proof.
  intros Hok Hs Hk db b db' Hc (a & d1 & H1 & H)%bindM_Ok. apply stopif_Ok in H as [Ha H].
  apply bindM_Ok in H as (n & d2 & H2 & H3). eapply (Hk n); [|exact H3].
  apply updateStatus_Ok in H1 as [(_ & r & Hr & Hkr & ->)|(-> & _)]; [|done].
  apply releaseReservationSeats_Ok in H2 as (Hlen & _ & _ & ->). rewrite getLocal_setLocal_eq in *.
  rewrite setLocal_setLocal. apply allConsistent_setLocal; [done|].
  eapply (consistent_release _ id r); [apply Hc|exact Hr|done|by apply Hok|done|done].
Qed.

Lemma seatRowsFor_spec env id run seg alloc owned mask fare :
  length owned = length alloc ->
  map rs_seat (seatRowsFor env id run seg alloc owned mask fare) = map al_seat alloc /\
  forall rs, rs ∈ seatRowsFor env id run seg alloc owned mask fare -> rs_reservation rs = id /\ rs_mask rs = mask.
Proof.
  intros Hlen. unfold seatRowsFor. split.
  - generalize (new_seat_row env). revert owned Hlen.
    induction alloc as [|a alloc IH]; intros [|o owned] Hlen g; try done. cbn [zip zip_with]. rewrite imap_cons.
    cbn [map rs_seat fst]. f_equal. apply (IH owned ltac:(simpl in Hlen; lia) (g ∘ S)).
  - intros rs (i & sp & -> & _)%elem_of_lookup_imap. done.
Qed.

Lemma preserves_hold {B} tx env run class requested count id row owned fare (k : list AllocatedSeat -> M B) seg :
  r_run row = run -> activeStatus (r_status row) = true -> Z.of_nat (length owned) = count ->
  (forall a, preserves (k a)) ->
  preserves (bindM (AllocateSeats tx env run class requested count) (fun allocated =>
    bindM (insertReservation tx id row) (fun _ =>
    bindM (insertSeatRows tx (seatRowsFor env id run seg allocated owned
             (varbitOfBits (EncodeSegmentMask requested)) fare)) (fun _ => k allocated)))).
Proof.
  intros Hrun Hst Hown Hk db b db' Hc (alloc & d1 & H1 & H)%bindM_Ok.
  apply bindM_Ok in H as (u1 & d2 & H2 & H). apply bindM_Ok in H as (u2 & d3 & H3 & H).
  eapply (Hk alloc); [|exact H]. apply AllocateSeats_Ok in H1 as (-> & Hcount & Hpos & Hnd & Hfree).
  apply insertReservation_Ok in H2 as [Hfresh ->]. apply insertSeatRows_Ok in H3 as ->.
  rewrite !getLocal_setLocal_eq in *. rewrite !setLocal_setLocal. apply allConsistent_setLocal; [done|].
  set (l := getLocal (tx_schema tx) db) in *. set (mask := varbitOfBits _) in *.
  destruct (seatRowsFor_spec env id run seg alloc owned mask fare ltac:(lia)) as [Hseats Hrows].
  eapply consistent_core; [|apply (consistent_hold l id run row mask (seatRowsFor env id run seg alloc owned mask fare))];
    [by rewrite Hseats|apply Hc|exact Hfresh|done|done|exact Hrows|by rewrite Hseats| |].
  { intros Hnil. rewrite Hnil in Hseats. destruct alloc; [cbn [length] in Hcount; lia|done]. }
  rewrite Hseats. intros seat Hs. destruct (Hfree seat Hs) as (si & ? & _ & ? & _ & ? & _). eauto.
Qed.

Lemma preserves_stopif {A} (b : bool) e (k : M A) : (b = false -> preserves k) -> preserves (if b then fail e else k).
Proof. destruct b; intros H; [apply keeps_preserves; auto with frame|auto]. Qed.

Lemma preserves_createOwnedHold lim tx env p ids class rec : preserves (createOwnedHold lim tx env p ids class rec).
Proof.
  unfold createOwnedHold. apply preserves_bind; [preserves|intros _]. apply preserves_bind; [preserves|intros _].
  apply preserves_bind; [preserves|intros cat]. destruct (train_runs cat !! ch_run p) as [tr|]; [|preserves].
  do 2 (apply preserves_stopif; intros _). destruct (NewSegmentMask _ _ _) as [req|]; [|preserves]. cbv zeta.
  apply preserves_stopif. intros Hlen. apply negb_false_iff, Nat.eqb_eq in Hlen.
  apply preserves_bind; [preserves|intros _]. destruct (loadFare _ _ _ _ _ _); [|preserves].
  destruct (MoneyModel.NewMoney _ _); [|preserves]. destruct (MoneyModel.Multiply _ _); [|preserves].
  eapply preserves_hold; [done|done|lia|]. intros alloc. preserves.
Qed.

Lemma preserves_createHoldTx lim tx env p : preserves (createHoldTx lim tx env p).
Proof.
  unfold createHoldTx. cbv zeta. apply preserves_bind; [preserves|intros acq].
  destruct (acq_replayed acq); [preserves|apply preserves_createOwnedHold].
Qed.

Lemma preserves_confirmReservationTx tx env p : preserves (confirmReservationTx tx env p).
Proof.
  unfold confirmReservationTx. cbv zeta. apply preserves_bind; [preserves|intros acq].
  destruct (acq_replayed acq); [preserves|]. apply preserves_bind; [preserves|intros r].
  destruct (bool_decide (r_status r = Confirmed)); [preserves|]. apply preserves_stopif. intros _.
  apply preserves_bind; [|intros affected; preserves].
  apply preserves_updateStatus_active. intros r0 [->%bool_decide_eq_true _]%andb_true_iff. done.
Qed.

Lemma preserves_cancelReservationTx tx env p : preserves (cancelReservationTx tx env p).
Proof.
  unfold cancelReservationTx. cbv zeta. apply preserves_bind; [preserves|intros acq].
  destruct (acq_replayed acq); [preserves|]. apply preserves_bind; [preserves|intros r].
  destruct (bool_decide (r_status r = Cancelled)); [preserves|]. apply preserves_stopif. intros Hst.
  apply preserves_retire_reservation; [|done|intros n; preserves].
  intros r0 ->%bool_decide_eq_true. unfold activeStatus.
  by destruct (bool_decide (r_status r = Held)), (bool_decide (r_status r = Confirmed)).
Qed.

Lemma dueAt_active now r : dueAt now r = true -> activeStatus (r_status r) = true.
Proof. unfold dueAt. intros [->%bool_decide_eq_true _]%andb_true_iff. done. Qed.

Lemma preserves_expireTx tx env id : preserves (expireTx tx env id).
Proof.
  unfold expireTx. apply preserves_retire_reservation; [apply dueAt_active|done|]. intros n. preserves.
Qed.

Lemma preserves_expireLocatedTx tx env id : preserves (expireLocatedTx tx env id).
Proof.
  unfold expireLocatedTx. apply preserves_bind; [preserves|intros l]. destruct (reservations l !! id); [|preserves].
  destruct (negb _); [preserves|]. apply preserves_retire_reservation; [apply dueAt_active|done|]. intros n. preserves.
Qed.

Lemma preserves_InitializeInventory tx run : preserves (InitializeInventory tx run).
Proof.
  unfold InitializeInventory. apply preserves_stopif. intros _. apply preserves_bind; [preserves|intros cat].
  destruct (train_runs cat !! run) as [tr|]; [|preserves].
  intros db n db' Hc (l & d1 & [= <- <-] & H)%bindM_Ok.
  destruct (insertMissing _ _ _ _) as [inv k] eqn:E. apply bindM_Ok in H as (u & d2 & [= _ <-] & [= <- <-]).
  apply allConsistent_setLocal; [done|].
  pose proof (consistent_insertMissing (getLocal (tx_schema tx) db) run (tr_segment_count tr)
    (activeSeatsOf cat (tr_train tr)) (Hc _)) as Hm. by rewrite E in Hm.
Qed.

Lemma preserves_cleanup env limit : preserves (cleanupExpiredIdempotency env limit).
Proof.
  apply keeps_preserves. unfold cleanupExpiredIdempotency. destruct (limit <=? 0); [auto with frame|]. cbv zeta.
  apply keeps_update. intros l db u db' Hl H. eapply keeps_putTables; [exact Hl| |exact H]. done.
Qed.

Lemma preserves_cleanupAcross env limit : preserves (cleanupExpiredIdempotencyAcrossShards env limit).
Proof. apply keeps_preserves. unfold cleanupExpiredIdempotencyAcrossShards. cbv zeta. keeps. Qed.

Lemma preserves_initializeTx tx env run : preserves (initializeTx tx env run).
Proof. unfold initializeTx. apply preserves_bind; [apply preserves_InitializeInventory|intros n; preserves]. Qed.

(** ** The store's methods *)

(** A command of the store, with what the environment supplies for it. *)
Inductive StoreCommand :=
| CmdCreateHold (envs : list Env) (p : CreateHoldParams)
| CmdConfirm (env : Env) (p : ReservationCommand)
| CmdCancel (env : Env) (p : ReservationCommand)
| CmdExpireDue (envs : nat -> Env) (now : time) (limit : Z)
| CmdInitialize (env : Env) (run : uuid).

Definition execute (st : Store * DB) (c : StoreCommand) : Store * DB :=
  let '(s, db) := st in
  match c with
  | CmdCreateHold envs p => let '(_, db', s') := CreateHold s envs p db in (s', db')
  | CmdConfirm env p => let '(_, db', s') := ConfirmReservation s env p db in (s', db')
  | CmdCancel env p => let '(_, db', s') := CancelReservation s env p db in (s', db')
  | CmdExpireDue envs now limit => let '(_, db', s') := ExpireDue s envs now limit db in (s', db')
  | CmdInitialize env run => let '(_, db', s') := StoreInitializeInventory s env run db in (s', db')
  end.

(** What the transactions promise to the store's methods: a property of the
    database that every transaction keeps. *)
Definition keepsInv {A} (I : DB -> Prop) (m : M A) : Prop := forall db a db', I db -> m db = Ok (a, db') -> I db'.

Class TxInvariant (I : DB -> Prop) : Prop := {
  ti_createHold lim tx env p : keepsInv I (createHoldTx lim tx env p);
  ti_confirm tx env p : keepsInv I (confirmReservationTx tx env p);
  ti_cancel tx env p : keepsInv I (cancelReservationTx tx env p);
  ti_expire tx env id : keepsInv I (expireTx tx env id);
  ti_expireLocated tx env id : keepsInv I (expireLocatedTx tx env id);
  ti_initialize tx env run : keepsInv I (initializeTx tx env run);
  ti_cleanup env limit : keepsInv I (cleanupExpiredIdempotency env limit);
  ti_cleanupAcross env limit : keepsInv I (cleanupExpiredIdempotencyAcrossShards env limit)
}.

#[export] Instance allConsistent_invariant : TxInvariant allConsistent.
Proof.
  constructor; intros; [apply preserves_createHoldTx|apply preserves_confirmReservationTx|apply preserves_cancelReservationTx
    |apply preserves_expireTx|apply preserves_expireLocatedTx|apply preserves_initializeTx|apply preserves_cleanup
    |apply preserves_cleanupAcross].
Qed.

(** Then every history of commands keeps it. *)
Section Lift.
Context (I : DB -> Prop) `{!TxInvariant I}.

Lemma runTx_inv {A} tx (body : Tx -> M A) db :
  (forall t, keepsInv I (body t)) -> I db -> I (runTx tx body db).2.
Proof.
  intros Hb Hc. unfold runTx. destruct tx as [t|]; [|done]. destruct (body t db) as [[a db']|] eqn:E; [|done].
  by eapply Hb.
Qed.

Lemma expireLoop_inv fuel envs ex fa fs db :
  I db -> I (expireLoop fuel envs ex fa fs db).2.
Proof.
  revert ex fa fs db. induction fuel as [|fuel IH]; intros ex fa fs db Hc; [done|]. simpl.
  unfold expireOneDue. destruct (dueReservations _ _ _) as [|[id r] rest]; [done|].
  destruct (expireTx Begin _ id db) as [[u db']|e] eqn:E; apply IH; [|done].
  by eapply ti_expire in E.
Qed.

Lemma passShard_inv limit envs st shard :
  I (ps_db st) -> I (ps_db (passShard limit envs st shard)).
Proof.
  intros Hc. unfold passShard. destruct (_ <=? _)%nat; [done|]. destruct (bool_decide _); [done|]. cbv zeta.
  destruct (findDueReservationOnShard _ _ _ _) as [[id|]|]; [|done..]. unfold expireLocatedReservation.
  destruct (beginReservationMaintenanceWrite _ _ _ _) as [tx r'].
  pose proof (runTx_inv tx (fun tx => expireLocatedTx tx (envs (ps_attempts st)) id) (ps_db st)
    (fun t => ti_expireLocated t _ _) Hc) as Hr.
  destruct (runTx tx _ _) as [[b|e] db']; exact Hr.
Qed.

Lemma passRound_inv limit envs sh st :
  I (ps_db st) -> I (ps_db (foldl (passShard limit envs) st sh)).
Proof.
  revert st. induction sh as [|s sh IH]; intros st Hc; simpl; [done|]. apply IH. by apply passShard_inv.
Qed.

Lemma passLoop_inv fuel limit envs sh st :
  I (ps_db st) -> I (ps_db (passLoop fuel limit envs sh st)).
Proof.
  revert st. induction fuel as [|fuel IH]; intros st Hc; simpl; [done|]. destruct (_ && _); [|done]. apply IH.
  by apply passRound_inv.
Qed.

Lemma createHoldOnce_inv s env p db : I db -> I (createHoldOnce s env p db).1.2.
Proof.
  intros Hc. unfold createHoldOnce. destruct (negb _); [done|]. destruct (adjacentDuplicate _); [done|].
  destruct (beginCreateHoldTransaction _ _ _ _) as [tx r]. cbn [fst snd].
  apply runTx_inv; [|done]. intros t. apply ti_createHold.
Qed.

Lemma createHoldAttempts_inv n s envs p db :
  I db -> I (createHoldAttempts n s envs p db).1.2.
Proof.
  revert s envs db. induction n as [|n IH]; intros s envs db Hc; [done|]. destruct envs as [|env envs]; [done|].
  cbn [createHoldAttempts]. pose proof (createHoldOnce_inv s env p db Hc) as H.
  destruct (createHoldOnce s env p db) as [[o db'] s']. cbn [fst snd] in H. destruct o as [a|e]; [done|].
  destruct (negb _ || _); [done|]. by apply IH.
Qed.

Lemma ExpireDue_inv s envs now limit db : I db -> I (ExpireDue s envs now limit db).1.2.
Proof.
  intros Hc. unfold ExpireDue. destruct (_ || _); [done|]. destruct (shards s) as [r|].
  - unfold expireDueAcrossShards. destruct (ListEnabledShards r db) as [sh|]; [|done]. cbv zeta.
    set (st := passLoop _ _ _ _ _). assert (Hst : I (ps_db st)) by (by apply passLoop_inv).
    destruct (cleanupExpiredIdempotencyAcrossShards _ _ (ps_db st)) as [[u db']|e] eqn:E; [|done].
    by eapply ti_cleanupAcross in E.
  - unfold ExpireDueUnsharded. pose proof (expireLoop_inv (Z.to_nat limit) envs [] [] [] db Hc) as Hl.
    destruct (expireLoop _ _ _ _ _ _) as [[ex fs] db']. cbn [snd] in Hl.
    destruct (cleanupExpiredIdempotency _ _ db') as [[u db'']|e] eqn:E; [|done]. by eapply ti_cleanup in E.
Qed.

Lemma execute_inv s db c : I db -> I (execute (s, db) c).2.
Proof.
  intros Hc. destruct c as [envs p|env p|env p|envs now limit|env run]; cbn [execute].
  - pose proof (createHoldAttempts_inv maxAttempts s envs p db Hc) as H. unfold CreateHold.
    by destruct (createHoldAttempts _ _ _ _ _) as [[o db'] s'].
  - unfold ConfirmReservation. destruct (negb _); [done|].
    destruct (beginReservationCommandTransaction _ _ _ _ _) as [tx r].
    pose proof (runTx_inv tx (fun tx => confirmReservationTx tx env p) db
      (fun t => ti_confirm t _ _) Hc) as H. by destruct (runTx _ _ _) as [o db'].
  - unfold CancelReservation. destruct (negb _); [done|].
    destruct (beginReservationCommandTransaction _ _ _ _ _) as [tx r].
    pose proof (runTx_inv tx (fun tx => cancelReservationTx tx env p) db
      (fun t => ti_cancel t _ _) Hc) as H. by destruct (runTx _ _ _) as [o db'].
  - pose proof (ExpireDue_inv s envs now limit db Hc) as H.
    by destruct (ExpireDue _ _ _ _ _) as [[o db'] s'].
  - unfold StoreInitializeInventory. destruct (match shards s with Some _ => _ | None => _ end) as [tx r].
    pose proof (runTx_inv tx (fun tx => initializeTx tx env run) db (fun t => ti_initialize t _ _) Hc) as H.
    by destruct (runTx _ _ _) as [o db'].
Qed.

Lemma executeAll_inv cs st : I st.2 -> I (foldl execute st cs).2.
Proof.
  revert st. induction cs as [|c cs IH]; intros [s db] Hc; [done|]. simpl. apply IH. by apply execute_inv.
Qed.
End Lift.

Lemma executeAll_consistent cs st : allConsistent st.2 -> allConsistent (foldl execute st cs).2.
Proof. apply executeAll_inv, _. Qed.

(** C2: the store keeps its inventory exact.  Whatever commands run, with
    whatever routing, clocks, failures and retries, every inventory row's
    occupied mask is, segment by segment, the number (zero or one) of active
    reservation seats that claim the segment, and every active reservation
    seat has its inventory row. *)
Theorem inventory_exact cs s db :
  allConsistent db ->
  let db' := (foldl execute (s, db) cs).2 in
  forall sch run seat,
    (forall si i, inventory (getLocal sch db') !! (run, seat) = Some si ->
       load (getLocal sch db') run seat i = b2n (bit (si_occupied si) i)) /\
    (forall rs, rs ∈ reservation_seats (getLocal sch db') -> activeOn (getLocal sch db') run seat rs = true ->
       exists si, inventory (getLocal sch db') !! (run, seat) = Some si /\
         length (si_occupied si) = length (rs_mask rs)).
Proof.
  intros Hc db' sch run seat. pose proof (executeAll_consistent cs (s, db) Hc sch) as H. split.
  - intros si i. apply (co_rows _ H).
  - intros rs. apply (co_covered _ H).
Qed.

(** C1: no double booking.  After any commands, two different active
    reservation seats of the same seat on the same run never share a route
    segment. *)
Theorem no_double_booking cs s db sch run seat i j a b n :
  allConsistent db ->
  let l := getLocal sch (foldl execute (s, db) cs).2 in
  i <> j -> reservation_seats l !! i = Some a -> reservation_seats l !! j = Some b ->
  activeOn l run seat a = true -> activeOn l run seat b = true ->
  bit (rs_mask a) n && bit (rs_mask b) n = false.
Proof.
  intros Hc l Hij Hi Hj Ha Hb. pose proof (executeAll_consistent cs (s, db) Hc sch) as H. fold l in H.
  destruct (co_covered l H run seat a (list_elem_of_lookup_2 _ _ _ Hi) Ha) as (si & Hsi & _).
  pose proof (co_rows l H run seat si n Hsi) as Hl. destruct (bit (rs_mask a) n && bit (rs_mask b) n) eqn:E; [|done].
  apply andb_true_iff in E as [E1 E2].
  pose proof (countIf_two (fun rs => activeOn l run seat rs && bit (rs_mask rs) n) _ i j a b Hij Hi Hj) as H2.
  cbv beta in H2. rewrite Ha, Hb, E1, E2 in H2. specialize (H2 eq_refl eq_refl).
  unfold load in Hl. unfold b2n in Hl. destruct (bit (si_occupied si) n); lia.
Qed.

Lemma consistent_empty : consistent emptyLocal.
Proof.
  constructor; simpl; [by intros|by intros run seat rs ?%not_elem_of_nil|by intros rs ?%not_elem_of_nil|constructor|by intros id []].
Qed.

Lemma allConsistent_db0 : allConsistent Example.db0.
Proof. intros []; apply consistent_empty. Qed.

(** Two holds that share seat 11 on different segments. *)
Definition exampleCommands : list StoreCommand :=
  [CmdInitialize (Example.env 50 900%N) 7%N;
   CmdCreateHold [Example.env 100 1000%N] (Example.hold 5%N 0 2 [22%N; 21%N] 1);
   CmdCreateHold [Example.env 110 2000%N] (Example.hold 6%N 2 3 [23%N] 2)].

Definition exampleDb : DB := (foldl execute (Example.store, Example.db0) exampleCommands).2.

Lemma inventory_exact_witness :
  exists si, inventory (public exampleDb) !! (7%N, 11%N) = Some si /\
    load (public exampleDb) 7%N 11%N 2 = b2n (bit (si_occupied si) 2).
Proof.
  eexists. split; [vm_compute; reflexivity|].
  apply (proj1 (inventory_exact exampleCommands Example.store Example.db0 allConsistent_db0 Public 7%N 11%N)).
  vm_compute. reflexivity.
Defined.

Lemma no_double_booking_witness :
  exists a b, reservation_seats (public exampleDb) !! 0%nat = Some a /\
    reservation_seats (public exampleDb) !! 2%nat = Some b /\
    activeOn (public exampleDb) 7%N 11%N a = true /\ activeOn (public exampleDb) 7%N 11%N b = true /\
    bit (rs_mask a) 1 && bit (rs_mask b) 1 = false.
Proof.
  do 2 eexists. do 2 (split; [vm_compute; reflexivity|]). do 2 (split; [vm_compute; reflexivity|]).
  apply (no_double_booking exampleCommands Example.store Example.db0 Public 7%N 11%N 0 2 _ _ 1 allConsistent_db0);
    [done|vm_compute; reflexivity..].
Defined.

(** ** Releasing cannot fail *)

(** Under the invariant, all seats of an active reservation are releasable. *)
Lemma consistent_releasable l id r r' :
  consistent l -> reservations l !! id = Some r -> activeStatus (r_status r) = true -> r_run r' = r_run r ->
  let l1 := withReservations l (<[id := r']> (reservations l)) in
  map snd (releasable l1 id) = seatsOf l1 id.
Proof.
  intros Hc Hr Ha Hrun l1. unfold releasable, seatsOf. simpl.
  assert (Hall : forall rs, rs ∈ reservation_seats l -> rs_reservation rs = id ->
    exists si, inventory l !! (r_run r, rs_seat rs) = Some si /\ contained si (rs_mask rs) = true).
  { intros rs Hin Hid. assert (Hon : activeOn l (r_run r) (rs_seat rs) rs = true).
    { apply activeOn_spec. exists r. by rewrite Hid. }
    destruct (co_covered l Hc _ _ rs Hin Hon) as (si & Hsi & Hlen). exists si. split; [done|].
    apply contained_spec. split; [done|]. intros i Hi. by eapply consistent_occupied. }
  induction (reservation_seats l) as [|rs rows IH]; [done|]. rewrite omap_cons_eq, filter_cons.
  assert (IH' := IH ltac:(intros; apply Hall; [by right|done])). destruct (decide (rs_reservation rs = id)) as [Hid|Hid].
  - rewrite bool_decide_eq_true_2, Hid, lookup_insert_eq by done. simpl.
    destruct (Hall rs ltac:(by left) Hid) as (si & Hsi & Hcon). rewrite Hrun, Hsi. simpl. rewrite Hcon. simpl. by rewrite IH'.
  - by rewrite bool_decide_eq_false_2.
Qed.

Lemma remove_dups_NoDup {A} `{EqDecision A} (l : list A) : NoDup l -> remove_dups l = l.
Proof.
  induction l as [|x l IH]; intros Hn; [done|]. apply NoDup_cons in Hn as [Hx Hn]. simpl.
  case_decide as Hd; [by apply Hx in Hd|]. by rewrite IH.
Qed.

Lemma releaseReservationSeats_total tx id db r r' :
  consistent (getLocal (tx_schema tx) db) ->
  reservations (getLocal (tx_schema tx) db) !! id = Some r -> activeStatus (r_status r) = true -> r_run r' = r_run r ->
  let db1 := setLocal (tx_schema tx) (withReservations (getLocal (tx_schema tx) db)
               (<[id := r']> (reservations (getLocal (tx_schema tx) db)))) db in
  exists db2, releaseReservationSeats tx id db1 =
    Ok (Z.of_nat (length (seatsOf (getLocal (tx_schema tx) db) id)), db2).
Proof.
  intros Hc Hr Ha Hrun db1. set (l := getLocal (tx_schema tx) db) in *.
  pose proof (consistent_releasable l id r r' Hc Hr Ha Hrun) as Hrel. cbv zeta in Hrel.
  unfold releaseReservationSeats, bindM, getTables, putTables. unfold db1. rewrite getLocal_setLocal_eq.
  set (l1 := withReservations l _) in *. change (seatsOf l1 id) with (seatsOf l id) in *.
  assert (Hlen : length (releasable l1 id) = length (seatsOf l id)) by (rewrite <- Hrel; by rewrite length_map).
  assert (Hne : seatsOf l id <> []) by (apply (co_seated l Hc); eauto).
  assert (0 < length (seatsOf l id))%nat by (destruct (seatsOf l id); [done|simpl; lia]).
  rewrite Hlen. cbv zeta. rewrite (proj2 (Z.eqb_eq _ _) eq_refl), (proj2 (Z.ltb_lt _ _)) by lia. cbn [andb].
  rewrite remove_dups_NoDup.
  - rewrite length_map, Hlen, (proj2 (Z.leb_gt _ _)) by lia. rewrite (proj2 (Z.eqb_eq _ _) eq_refl). cbn [negb orb].
    unfold ret. eauto.
  - apply NoDup_fmap_1 with (f := snd). rewrite <- list_fmap_compose.
    replace (snd ∘ (fun row : uuid * SeatRow => (row.1, rs_seat row.2)) <$> releasable l1 id)
      with (rs_seat <$> seatsOf l id) by (rewrite <- Hrel; by rewrite <- list_fmap_compose).
    apply NoDup_fmap_1 with (f := pair id). rewrite <- list_fmap_compose.
    assert (Heq : (pair id ∘ rs_seat <$> seatsOf l id) = (fun rs => (rs_reservation rs, rs_seat rs)) <$> seatsOf l id).
    { apply list_fmap_ext. intros i rs Hrs. apply list_elem_of_lookup_2 in Hrs. unfold seatsOf in Hrs.
      apply list_elem_of_filter in Hrs as [<- _]. done. }
    rewrite Heq. eapply sublist_NoDup; [apply (co_unique l Hc)|]. apply fmap_sublist, sublist_filter.
Qed.

(** ** Expiry makes progress *)

(** An environment in which no infrastructure step fails and the clock does
    not run backwards within the transaction. *)
Definition goodEnv (env : Env) : Prop :=
  clk_due env <= clk_write env /\ commitFails env = false /\
  forall p, exists n, jsonLength env p = Some n /\ n <= maxOutboxPayloadBytes.

Lemma appendReservationEvent_good tx env id ty pl db :
  goodEnv env -> id <> uuidNil -> validReservationEvent ty = true ->
  appendReservationEvent tx env id ty pl db =
    Ok (tt, setOutbox (outbox db ++ [mkOutboxRow "reservation" id ty pl (tx_route tx)]) db).
Proof.
  intros (_ & _ & Hj) Hid Hty. unfold appendReservationEvent, isNil. rewrite bool_decide_eq_false_2, Hty by done.
  simpl. destruct (Hj pl) as (n & Hj' & Hn). rewrite Hj'. by rewrite (proj2 (Z.ltb_ge _ _)) by lia.
Qed.

Lemma elem_of_dueReservations env ex l id r :
  (id, r) ∈ dueReservations env ex l <->
  reservations l !! id = Some r /\ dueAt (clk_due env) r = true /\ (id ∉ ex) /\ locked_reservation env id = false.
Proof.
  unfold dueReservations. rewrite elem_of_sortBy, list_elem_of_filter, elem_of_map_to_list. simpl.
  rewrite !andb_true_iff, !negb_true_iff, bool_decide_eq_false. tauto.
Qed.

Lemma expireTx_succeeds env db id r :
  allConsistent db -> goodEnv env -> id <> uuidNil -> reservations (public db) !! id = Some r ->
  dueAt (clk_due env) r = true ->
  exists db', expireTx Begin env id db = Ok (tt, db') /\
    reservations (public db') = (<[id := setReservationStatus r Expired]> (reservations (public db))) /\
    reservation_seats (public db') = reservation_seats (public db).
Proof.
  intros Hc Hg Hid Hr Hdue. pose proof Hg as (Hclk & Hcf & _).
  assert (Hdue' : dueAt (clk_write env) r = true) by (unfold dueAt in *; lia).
  set (r' := setReservationStatus r Expired).
  destruct (releaseReservationSeats_total Begin id db r r' (Hc Public) Hr (dueAt_active _ _ Hdue) eq_refl) as [db2 Hrel].
  cbv zeta in Hrel. pose proof Hrel as Hrel'. apply releaseReservationSeats_Ok in Hrel' as (_ & _ & _ & Hdb2).
  unfold expireTx, updateStatus, bindM, getTables, putTables, ret. cbn [tx_schema Begin getLocal].
  rewrite Hr, Hdue'. cbn [negb]. unfold r' in *. cbn [tx_schema Begin getLocal] in Hrel. rewrite Hrel.
  rewrite (appendReservationEvent_good Begin env id) by done.
  unfold closeReservationQuotaClaim, isNil. rewrite bool_decide_eq_false_2 by done. cbn [routed tx_route Begin negb].
  unfold ret, Commit. rewrite Hcf. eexists. split; [reflexivity|]. subst db2. split; reflexivity.
Qed.

(** A seat that stopped being active has no claim left on its segments. *)
Lemma freed l l' id run seat rs si i :
  consistent l -> consistent l' -> reservation_seats l' = reservation_seats l ->
  (forall id', id' <> id -> reservations l' !! id' = reservations l !! id') ->
  (forall rs, rs_reservation rs = id -> activeOn l' run seat rs = false) ->
  rs ∈ reservation_seats l -> rs_reservation rs = id -> activeOn l run seat rs = true -> bit (rs_mask rs) i = true ->
  inventory l' !! (run, seat) = Some si -> bit (si_occupied si) i = false.
Proof.
  intros Hc Hc' Hseats Hres Hoff Hin Hid Hon Hb Hsi. destruct (bit (si_occupied si) i) eqn:E; [exfalso|done].
  pose proof (co_rows l' Hc' run seat si i Hsi) as Hl. rewrite E in Hl. unfold load in Hl. rewrite Hseats in Hl.
  destruct (existsb (fun rs => activeOn l' run seat rs && bit (rs_mask rs) i) (reservation_seats l)) eqn:Ex.
  2: { rewrite (proj2 (countIf_0 _ _)) in Hl; [done|]. intros x Hx. destruct (_ && _) eqn:Ep; [|done].
       assert (existsb (fun rs => activeOn l' run seat rs && bit (rs_mask rs) i) (reservation_seats l) = true); [|congruence].
       apply existsb_elem. eauto. }
  apply existsb_elem in Ex as (rs' & Hin' & [Hon' Hb']%andb_true_iff).
  assert (Hne : rs_reservation rs' <> id) by (intros Hx; rewrite Hoff in Hon' by done; done).
  assert (Hon2 : activeOn l run seat rs' = true).
  { revert Hon'. unfold activeOn, activeSeatOnRun. by rewrite Hres. }
  destruct (co_covered l Hc run seat rs Hin Hon) as (si0 & Hsi0 & _).
  pose proof (co_rows l Hc run seat si0 i Hsi0) as Hl0. unfold load in Hl0.
  apply list_elem_of_lookup in Hin as [n Hn], Hin' as [m Hm].
  assert (2 <= countIf (fun rs => activeOn l run seat rs && bit (rs_mask rs) i) (reservation_seats l))%nat.
  { eapply (countIf_two _ _ n m rs rs'); [congruence|done|done| |]; cbv beta; apply andb_true_iff; done. }
  unfold b2n in Hl0. destruct (bit (si_occupied si0) i); lia.
Qed.

(** hold expiry makes progress.  When the inventory is exact and the
    infrastructure works, expireOneDue picks the earliest due held reservation
    and succeeds: it can not fail on its inventory, the reservation becomes
    expired, and every segment its seats claimed is free afterwards. *)
Theorem expire_one_due_succeeds env ex db id r rest :
  allConsistent db -> goodEnv env -> id <> uuidNil -> dueReservations env ex (public db) = (id, r) :: rest ->
  exists db', expireOneDue env ex db = (ExpiredOne id, db') /\
    reservations (public db') = (<[id := setReservationStatus r Expired]> (reservations (public db))) /\
    forall rs si i, rs ∈ seatsOf (public db') id -> inventory (public db') !! (r_run r, rs_seat rs) = Some si ->
      bit (rs_mask rs) i = true -> activeOn (public db) (r_run r) (rs_seat rs) rs = true ->
      bit (si_occupied si) i = false.
Proof.
  intros Hc Hg Hid Hdue. pose proof (list_elem_of_here (id, r) rest) as Hin. rewrite <- Hdue in Hin.
  apply elem_of_dueReservations in Hin as (Hr & Hd & _).
  destruct (expireTx_succeeds env db id r Hc Hg Hid Hr Hd) as (db' & Hx & Hres & Hseats).
  exists db'. split; [unfold expireOneDue; by rewrite Hdue, Hx|]. split; [done|].
  intros rs si i Hrs Hsi Hb Hon. unfold seatsOf in Hrs. rewrite Hseats in Hrs.
  apply list_elem_of_filter in Hrs as [Hrid Hin]. pose proof (preserves_expireTx _ _ _ _ _ _ Hc Hx) as Hc'.
  eapply (freed (public db) (public db') id); [apply (Hc Public)|apply (Hc' Public)|done| | |done..].
  - intros id' Hne. by rewrite Hres, lookup_insert_ne.
  - intros rs' Hrs'. unfold activeOn, activeSeatOnRun. rewrite Hrs', Hres, lookup_insert_eq. simpl. by rewrite andb_false_r.
Qed.

Lemma expire_one_due_succeeds_witness :
  exists db', expireOneDue (Example.env 2000 3000%N) [] exampleDb = (ExpiredOne 1002%N, db') /\
    option_map r_status (reservations (public db') !! 1002%N) = Some Expired.
Proof.
  assert (Hc : allConsistent exampleDb) by (apply (executeAll_consistent exampleCommands (_, _)), allConsistent_db0).
  assert (Hg : goodEnv (Example.env 2000 3000%N)).
  { split_and!; [reflexivity || (vm_compute; congruence)|reflexivity|]. intros p. exists 100. split; [reflexivity|done]. }
  destruct (dueReservations (Example.env 2000 3000%N) [] (public exampleDb)) as [|[id r] rest] eqn:E;
    [vm_compute in E; discriminate|].
  assert (Hid : id = 1002%N) by (vm_compute in E; congruence). subst id.
  destruct (expire_one_due_succeeds (Example.env 2000 3000%N) [] exampleDb 1002%N r rest Hc Hg ltac:(done) E)
    as (db' & Hx & Hr & _).
  exists db'. split; [exact Hx|]. rewrite Hr, lookup_insert_eq. reflexivity.
Defined.

(** The number of due holds, as the loop of ExpireDue counts them down. *)
Definition dueCount (now : time) (l : Local) : nat :=
  countIf (fun kv : uuid * ReservationRow => dueAt now kv.2) (map_to_list (reservations l)).

Lemma dueCount_expire now l l' id r :
  reservations l !! id = Some r -> dueAt now r = true ->
  reservations l' = <[id := setReservationStatus r Expired]> (reservations l) ->
  dueCount now l = S (dueCount now l').
Proof.
  intros Hr Hd Hl'. unfold dueCount. rewrite Hl', <- (insert_delete_eq (reservations l) id).
  assert (Hnone : delete id (reservations l) !! id = None) by apply lookup_delete_eq.
  assert (Hperm : forall (a b : list (uuid * ReservationRow)) p, a ≡ₚ b -> countIf p a = countIf p b).
  { intros a b p Hab. unfold countIf. by rewrite Hab. }
  rewrite (Hperm _ _ _ (map_to_list_insert _ _ _ Hnone)), countIf_cons.
  rewrite <- (Hperm _ _ _ (map_to_list_delete _ _ _ Hr)), countIf_cons. simpl. rewrite Hd. done.
Qed.

Lemma dueReservations_nil env l :
  (forall id, locked_reservation env id = false) ->
  dueReservations env [] l = [] <-> dueCount (clk_due env) l = 0%nat.
Proof.
  intros Hl. unfold dueCount. rewrite countIf_0. split.
  - intros H [id r] Hin. apply elem_of_map_to_list in Hin. destruct (dueAt _ _) eqn:E; [|done].
    assert ((id, r) ∈ dueReservations env [] l) as Hx; [|rewrite H in Hx; by apply not_elem_of_nil in Hx].
    apply elem_of_dueReservations. split_and!; auto. apply not_elem_of_nil.
  - intros H. destruct (dueReservations env [] l) as [|[id r] rest] eqn:E; [done|]. exfalso.
    assert (Hin : (id, r) ∈ dueReservations env [] l) by (rewrite E; by left).
    apply elem_of_dueReservations in Hin as (Hr & Hd & _).
    specialize (H (id, r) ltac:(by apply elem_of_map_to_list)). simpl in H. congruence.
Qed.

Lemma expireLoop_drains fuel envs now ex db :
  allConsistent db -> reservations (public db) !! uuidNil = None ->
  (forall n, goodEnv (envs n) /\ clk_due (envs n) = now /\ forall id, locked_reservation (envs n) id = false) ->
  (dueCount now (public db) <= fuel)%nat ->
  exists ids db', expireLoop fuel envs ex [] [] db = (ex ++ ids, [], db') /\ dueCount now (public db') = 0%nat /\
    length ids = dueCount now (public db) /\ allConsistent db'.
Proof.
  revert ex db. induction fuel as [|fuel IH]; intros ex db Hc Hnil Henv Hle.
  { exists [], db. rewrite app_nil_r. split_and!; auto; simpl in *; lia. }
  cbn [expireLoop]. destruct (Henv (length ex + 0)%nat) as (Hg & Hnow & Hlk).
  set (env := envs (length ex + length (@nil uuid))%nat). change (envs (length ex + 0)%nat) with env in *.
  destruct (dueReservations env [] (public db)) as [|[id r] rest] eqn:E.
  - unfold expireOneDue. rewrite E. apply (dueReservations_nil env) in E; [|done]. rewrite Hnow in E.
    exists [], db. rewrite app_nil_r. split_and!; auto.
  - assert (Hin : (id, r) ∈ dueReservations env [] (public db)) by (rewrite E; by left).
    apply elem_of_dueReservations in Hin as (Hr & Hd & _).
    assert (Hid : id <> uuidNil) by (intros ->; congruence).
    destruct (expireTx_succeeds env db id r Hc Hg Hid Hr Hd) as (db1 & Hx & Hres & _).
    unfold expireOneDue. rewrite E, Hx. rewrite Hnow in Hd.
    pose proof (dueCount_expire now _ _ id r Hr Hd Hres) as Hcount.
    pose proof (preserves_expireTx _ _ _ _ _ _ Hc Hx) as Hc1.
    assert (Hnil1 : reservations (public db1) !! uuidNil = None) by (by rewrite Hres, lookup_insert_ne).
    destruct (IH (ex ++ [id]) db1 Hc1 Hnil1 Henv ltac:(lia)) as (ids & db2 & Hloop & Hz & Hlen & Hc2).
    exists (id :: ids), db2. rewrite Hloop, <- app_assoc. split_and!; auto. simpl. lia.
Qed.

Lemma cleanup_total env db :
  exists db', cleanupExpiredIdempotency env 1000 db = Ok (tt, db') /\
    reservations (public db') = reservations (public db).
Proof.
  unfold cleanupExpiredIdempotency. cbn [Z.leb]. unfold bindM, getTables, putTables. eexists. split; reflexivity.
Qed.

(** ExpireDue drains.  On an unsharded store whose infrastructure works
    and whose inventory is exact, one call whose limit covers the due holds
    expires every one of them, reports no failure, and terminates. *)
Theorem expire_due_drains s envs now t limit db :
  allConsistent db -> shards s = None -> reservations (public db) !! uuidNil = None ->
  (forall n, goodEnv (envs n) /\ clk_due (envs n) = now /\ forall id, locked_reservation (envs n) id = false) ->
  IsZeroTime t = false -> 0 < limit <= 1000 -> Z.of_nat (dueCount now (public db)) <= limit ->
  exists ids db', ExpireDue s envs t limit db = (Ok (ids, []), db', s) /\
    length ids = dueCount now (public db) /\ dueCount now (public db') = 0%nat.
Proof.
  intros Hc Hs Hnil Henv Ht Hlim Hdue. unfold ExpireDue. rewrite Ht, Hs.
  rewrite (proj2 (Z.leb_gt _ _)), (proj2 (Z.ltb_ge _ _)) by lia. cbn [orb].
  destruct (expireLoop_drains (Z.to_nat limit) envs now [] db Hc Hnil Henv ltac:(lia)) as (ids & db' & Hl & Hz & Hlen & _).
  unfold ExpireDueUnsharded. rewrite Hl. destruct (cleanup_total (envs (Z.to_nat limit)) db') as (db2 & Hcl & Hres).
  rewrite Hcl. exists ids, db2. split_and!; [done|done|]. unfold dueCount in *. by rewrite Hres.
Qed.

Lemma expire_due_drains_witness :
  exists ids db', ExpireDue Example.store (fun n => Example.env 2000 (3000 + 100 * N.of_nat n)) 2000 10 exampleDb
    = (Ok (ids, []), db', Example.store) /\
    length ids = dueCount 2000 (public exampleDb) /\ dueCount 2000 (public db') = 0%nat.
Proof.
  apply expire_due_drains.
  - apply (executeAll_consistent exampleCommands (_, _)), allConsistent_db0.
  - reflexivity.
  - vm_compute. reflexivity.
  - intros n. split_and!; [|reflexivity|reflexivity].
    split_and!; [simpl; lia|reflexivity|]. intros p. exists 100. split; [reflexivity|done].
  - reflexivity.
  - lia.
  - vm_compute. congruence.
Defined.
