(* ===== verification/BookingAudit.v ===== *)
(** * The inventory audit

    ReconcileTrainRun ([src/internal/booking/postgres/reconciliation.go])
    compares, per inventory row, the occupied mask with the union of the active
    masks and the sum of their bit counts with the bit count of the union.
    Here: this test decides exactly the inventory invariant of the run. *)

From S2P Require Import Prelude BookingDomain BookingDb Occupancy Router BookingStore BookingInvariant.

(** ** Sums over segments *)
Fixpoint sumTo (f : nat -> nat) (n : nat) : nat :=
  match n with O => 0 | S n' => sumTo f n' + f n' end.

Lemma sumTo_shift f n : sumTo f (S n) = (f 0%nat + sumTo (f ∘ S) n)%nat.
Proof. induction n as [|n IH]; [simpl; lia|]. cbn [sumTo]. cbn [sumTo] in IH. unfold compose in *. lia. Qed.

Lemma sumTo_add f g n : sumTo (fun i => f i + g i)%nat n = (sumTo f n + sumTo g n)%nat.
Proof. induction n as [|n IH]; simpl; lia. Qed.

Lemma sumTo_le f g n : (forall i, (f i <= g i)%nat) -> (sumTo f n <= sumTo g n)%nat.
Proof. intros H. induction n as [|n IH]; simpl; [lia|]. specialize (H n). lia. Qed.

Lemma sumTo_eq f g n : (forall i, (f i <= g i)%nat) -> sumTo f n = sumTo g n -> forall i, (i < n)%nat -> f i = g i.
Proof.
  intros H. induction n as [|n IH]; intros Hs i Hi; [lia|]. cbn [sumTo] in Hs.
  pose proof (sumTo_le f g n H). pose proof (H n). destruct (decide (i = n)) as [->|]; [lia|]. apply IH; lia.
Qed.

Lemma bit_count_cons b v : bit_count (b :: v) = (b2n b + bit_count v)%nat.
Proof. unfold bit_count. rewrite filter_cons. destruct b; case_decide; simpl; congruence || done. Qed.

Lemma bit_count_sum v : bit_count v = sumTo (fun i => b2n (bit v i)) (length v).
Proof.
  induction v as [|b v IH]; [done|]. rewrite bit_count_cons, IH. cbn [length]. by rewrite sumTo_shift.
Qed.

Lemma bit_count_0 v : bit_count v = 0%nat <-> forall i, bit v i = false.
Proof.
  split.
  - intros H i. destruct (decide (i < length v)%nat) as [Hi|Hi]; [|apply bit_overflow; lia].
    assert (b2n (bit v i) = 0%nat) as Hb; [|by destruct (bit v i)].
    symmetry. apply (sumTo_eq (fun _ => 0%nat) (fun i => b2n (bit v i)) (length v)); [lia| |done].
    rewrite <- bit_count_sum, H. clear. induction (length v) as [|n IH]; simpl; lia.
  - intros H. rewrite bit_count_sum. clear -H. induction (length v) as [|n IH]; simpl; [done|]. rewrite IH, H. done.
Qed.

(** ** The union of masks *)
Definition cover (ms : list varbit) (i : nat) : nat := countIf (fun m => bit m i) ms.

Lemma sum_bit_counts ms n :
  (forall m, m ∈ ms -> length m = n) -> sum_list (map bit_count ms) = sumTo (cover ms) n.
Proof.
  induction ms as [|m ms IH]; intros H; simpl.
  - clear H. induction n as [|n IHn]; [done|]. cbn [sumTo]. rewrite <- IHn. done.
  - rewrite IH by (intros; apply H; by right). rewrite bit_count_sum, (H m) by (by left).
    rewrite <- sumTo_add. clear. induction n as [|n IHn]; [done|]. cbn [sumTo]. rewrite IHn. f_equal.
    unfold cover. rewrite countIf_cons. done.
Qed.

Lemma foldl_or_length ms m :
  (forall x, x ∈ ms -> length x = length m) -> length (foldl varbit_or m ms) = length m.
Proof.
  revert m. induction ms as [|x ms IH]; intros m H; [done|]. simpl.
  assert (Hx : length (varbit_or m x) = length m) by (apply length_zip_same; symmetry; apply H; by left).
  rewrite IH; [done|]. intros y Hy. rewrite Hx. apply H. by right.
Qed.

Lemma foldl_or_bit ms m i :
  (forall x, x ∈ ms -> length x = length m) ->
  bit (foldl varbit_or m ms) i = existsb (fun x => bit x i) (m :: ms).
Proof.
  revert m. induction ms as [|x ms IH]; intros m H; simpl; [by rewrite orb_false_r|].
  assert (Hl : length m = length x) by (symmetry; apply H; by left).
  assert (Hx : length (varbit_or m x) = length m) by (by apply length_zip_same).
  rewrite IH by (intros y Hy; rewrite Hx; apply H; by right). simpl. rewrite bit_or by done. by rewrite orb_assoc.
Qed.

Lemma existsb_countIf {A} (p : A -> bool) l : existsb p l = negb (Nat.eqb (countIf p l) 0).
Proof.
  induction l as [|x l IH]; [done|]. rewrite countIf_cons. simpl. rewrite IH. by destruct (p x).
Qed.

(** Union plus equal bit counts says: disjoint, and their union is [occ]. *)
Lemma union_exact occ m ms :
  (forall x, x ∈ m :: ms -> length x = length occ) ->
  let expected := foldl varbit_or m ms in
  (occ = expected /\ sum_list (map bit_count (m :: ms)) = bit_count expected) <->
  forall i, cover (m :: ms) i = b2n (bit occ i).
Proof.
  intros Hlen expected.
  assert (Hm : length m = length occ) by (apply Hlen; by left).
  assert (Hms : forall x, x ∈ ms -> length x = length m) by (intros x Hx; rewrite Hm; apply Hlen; by right).
  assert (Hexp : length expected = length occ) by (unfold expected; by rewrite foldl_or_length).
  assert (Hbit : forall i, bit expected i = negb (Nat.eqb (cover (m :: ms) i) 0)).
  { intros i. unfold expected. rewrite foldl_or_bit by done. apply existsb_countIf. }
  assert (Hle : forall i, (b2n (bit expected i) <= cover (m :: ms) i)%nat).
  { intros i. rewrite Hbit. destruct (cover (m :: ms) i); simpl; lia. }
  rewrite (sum_bit_counts (m :: ms) (length occ)) by done. rewrite bit_count_sum, Hexp. split.
  - intros [Hocc Hsum] i. rewrite Hocc. destruct (decide (i < length occ)%nat) as [Hi|Hi].
    + symmetry. apply (sumTo_eq _ _ (length occ) Hle); [by symmetry|done].
    + rewrite (bit_overflow expected) by lia. apply countIf_0. intros x Hx. apply bit_overflow. rewrite Hlen by done. lia.
  - intros H. assert (Hocc : occ = expected).
    { apply varbit_ext; [by symmetry|]. intros i. rewrite Hbit, H. by destruct (bit occ i). }
    split; [done|]. rewrite <- Hocc. clear -H. induction (length occ) as [|n IH]; [done|]. cbn [sumTo]. by rewrite IH, H.
Qed.

(** ** The audit *)

(** The invariant of one run's inventory. *)
Definition exactRun (l : Local) (run : uuid) : Prop :=
  (forall seat si, inventory l !! (run, seat) = Some si ->
     (forall i, load l run seat i = b2n (bit (si_occupied si) i)) /\
     (forall rs, rs ∈ reservation_seats l -> activeOn l run seat rs = true ->
        length (rs_mask rs) = length (si_occupied si))) /\
  (forall rs, rs ∈ reservation_seats l -> activeSeatOnRun l run rs = true ->
     is_Some (inventory l !! (run, rs_seat rs))).

Lemma load_cover l run seat i : load l run seat i = cover (activeMasks l run seat) i.
Proof.
  unfold load, cover, activeMasks. induction (reservation_seats l) as [|rs rows IH]; [done|].
  rewrite countIf_cons, IH, filter_cons. destruct (activeOn l run seat rs) eqn:E; case_decide; try congruence; simpl;
    rewrite ?countIf_cons; done.
Qed.

Lemma elem_of_activeMasks l run seat m :
  m ∈ activeMasks l run seat <-> exists rs, rs ∈ reservation_seats l /\ activeOn l run seat rs = true /\ rs_mask rs = m.
Proof.
  unfold activeMasks. rewrite list_elem_of_fmap. setoid_rewrite list_elem_of_filter. naive_solver.
Qed.

Lemma filter_length_all {A} (P : A -> Prop) `{!forall x, Decision (P x)} (l : list A) :
  length l = length (filter P l) <-> forall x, x ∈ l -> P x.
Proof.
  split.
  - induction l as [|x l IH]; intros Hlen y Hy; [by apply not_elem_of_nil in Hy|]. rewrite filter_cons in Hlen.
    pose proof (length_filter P l). case_decide; cbn [length] in Hlen; [|lia].
    apply elem_of_cons in Hy as [->|Hy]; [done|]. apply IH; [lia|done].
  - intros Hall. by rewrite filter_all.
Qed.

Lemma rowConsistent_spec l run seat si :
  rowConsistent l run seat si = true <->
  (forall i, load l run seat i = b2n (bit (si_occupied si) i)) /\
  (forall rs, rs ∈ reservation_seats l -> activeOn l run seat rs = true -> length (rs_mask rs) = length (si_occupied si)).
Proof.
  unfold rowConsistent. cbv zeta.
  assert (Hlens : (forall rs, rs ∈ reservation_seats l -> activeOn l run seat rs = true ->
      length (rs_mask rs) = length (si_occupied si)) <->
    forall m, m ∈ activeMasks l run seat -> length m = length (si_occupied si)).
  { setoid_rewrite elem_of_activeMasks. naive_solver. }
  rewrite Hlens. setoid_rewrite load_cover.
  destruct (Nat.eqb (length (activeMasks l run seat)) 0) eqn:E0.
  { apply Nat.eqb_eq in E0. destruct (activeMasks l run seat); [|done]. rewrite Nat.eqb_eq, bit_count_0. split.
    - intros H. split; [intros i; by rewrite H|by intros m ?%not_elem_of_nil].
    - intros [H _] i. specialize (H i). by destruct (bit (si_occupied si) i). }
  destruct (activeMasks l run seat) as [|m ms]; [done|]. clear E0.
  destruct (Nat.eqb (length (m :: ms)) _) eqn:E1.
  - apply Nat.eqb_eq in E1. rewrite filter_length_all in E1. rewrite (filter_all _ (m :: ms)) by done.
    rewrite andb_true_iff, bool_decide_eq_true, Nat.eqb_eq, (union_exact _ m ms) by done. naive_solver.
  - split; [done|]. intros [_ H]. apply Nat.eqb_neq in E1. exfalso. apply E1, filter_length_all. done.
Qed.

(** C8: the audit is exact.  ReconcileTrainRun's query reports no violation
    precisely when, for every inventory row of the run, each segment is
    occupied iff exactly one active reservation seat claims it (and none twice),
    all those masks have the row's length, and no active reservation seat of
    the run lacks its inventory row. *)
Theorem reconcile_decides tx run db :
  is_ok (reconcileTx tx run db) = true <-> exactRun (getLocal (tx_schema tx) db) run.
Proof.
  unfold reconcileTx, bindM, getTables. set (l := getLocal (tx_schema tx) db).
  assert (Hv : inventoryViolations l run = 0%nat <->
    forall seat si, inventory l !! (run, seat) = Some si -> rowConsistent l run seat si = true).
  { unfold inventoryViolations. pose proof (countIf_0 (fun kv : (uuid * uuid) * InventoryRow =>
      bool_decide (kv.1.1 = run) && negb (rowConsistent l run kv.1.2 kv.2)) (map_to_list (inventory l))) as H.
    unfold countIf in H. rewrite H. clear H. split.
    - intros H seat si Hsi. specialize (H ((run, seat), si) ltac:(by apply elem_of_map_to_list)). simpl in H.
      rewrite bool_decide_eq_true_2 in H by done. simpl in H. by apply negb_false_iff in H.
    - intros H [[run' seat] si] Hin. apply elem_of_map_to_list in Hin. simpl. case_bool_decide; [subst|done].
      by rewrite (H seat si Hin). }
  assert (Ho : orphanedActiveSeats l run = 0%nat <->
    forall rs, rs ∈ reservation_seats l -> activeSeatOnRun l run rs = true -> is_Some (inventory l !! (run, rs_seat rs))).
  { unfold orphanedActiveSeats. pose proof (countIf_0 (fun rs => activeSeatOnRun l run rs &&
      bool_decide (inventory l !! (run, rs_seat rs) = None)) (reservation_seats l)) as H.
    unfold countIf in H. rewrite H. clear H. split; intros H rs Hin; specialize (H rs Hin).
    - intros Ha. rewrite Ha in H. simpl in H. apply bool_decide_eq_false in H. by apply not_eq_None_Some.
    - destruct (activeSeatOnRun l run rs); [|done]. simpl. apply bool_decide_eq_false, not_eq_None_Some. auto. }
  assert (Hg : is_ok ((stopif negb (Nat.eqb (inventoryViolations l run) 0) || negb (Nat.eqb (orphanedActiveSeats l run) 0)
      with ErrPersistenceInvariant else ret tt) db) = true <->
    inventoryViolations l run = 0%nat /\ orphanedActiveSeats l run = 0%nat).
  { destruct (inventoryViolations l run), (orphanedActiveSeats l run); simpl; naive_solver. }
  rewrite Hg, Hv, Ho. unfold exactRun. setoid_rewrite rowConsistent_spec. done.
Qed.

(** the store never fails its own audit: after any commands from a
    database with exact inventory, ReconcileTrainRun succeeds for every run
    and every schema. *)
Theorem audit_never_fails cs s db tx run :
  allConsistent db -> is_ok (reconcileTx tx run (foldl execute (s, db) cs).2) = true.
Proof.
  intros Hc. apply reconcile_decides. pose proof (executeAll_consistent cs (s, db) Hc (tx_schema tx)) as H. split.
  - intros seat si Hsi. split; [intros i; by apply (co_rows _ H)|].
    intros rs Hin Hon. destruct (co_covered _ H run seat rs Hin Hon) as (si' & Hsi' & Hlen). congruence.
  - intros rs Hin Hon. destruct (co_covered _ H run (rs_seat rs) rs Hin) as (si & Hsi & _); [|eauto].
    unfold activeOn. rewrite Hon. by apply bool_decide_eq_true.
Qed.

Lemma audit_never_fails_witness :
  is_ok (reconcileTx Begin 7%N (foldl execute (Example.store, Example.db0) exampleCommands).2) = true.
Proof. apply (audit_never_fails exampleCommands Example.store Example.db0 Begin 7%N), allConsistent_db0. Defined.
