(* ===== verification/BookingCommands.v ===== *)
(** * What the booking commands do

    Functional theorems about the commands of the store: what a successful
    hold writes and returns, when allocation refuses, the quota and passenger
    invariants over any history, idempotent replay and conflict, and what
    confirmation issues. *)

From S2P Require Import Prelude SegmentMask BookingDomain Sharding RouteCache BookingDb Occupancy Router BookingStore BookingInvariant.
Import ShardTypes.

(** ** A successful hold *)

(** The row and the seat rows of the new reservation. *)
Definition holdRow (p : CreateHoldParams) (tr : TrainRunRow) (class : string) (total : MoneyModel.Money) : ReservationRow :=
  mkReservationRow (ch_user p) (ch_run p) (tr_segment_count tr) (ch_from p) (ch_to p) class Held (ch_hold_expires p)
    (MoneyModel.amountMinor total) (MoneyModel.currency total).

(** What createOwnedHold has checked, written and returned when it succeeds. *)
Definition held (lim : QuotaLimits) (tx : Tx) (env : Env) (p : CreateHoldParams) (ids : list uuid) (class : string)
    (db : DB) (result : CreateHoldResult) (db' : DB) : Prop :=
  let l := getLocal (tx_schema tx) db in
  exists tr mask f fare total alloc,
    let owned := ownedPassengerIDs (catalogue db) (ch_user p) ids in
    let v := varbitOfBits (EncodeSegmentMask mask) in
    let id := new_reservation env in
    let rows := seatRowsFor env id (ch_run p) (tr_segment_count tr) alloc owned v fare in
    train_runs (catalogue db) !! ch_run p = Some tr /\ tr_status tr = "scheduled"%string /\
    clk_run env < ch_hold_expires p /\
    NewSegmentMask (tr_segment_count tr) (ch_from p) (ch_to p) = Ok mask /\
    length owned = length ids /\ passengerConflicts l (ch_run p) owned = 0%nat /\
    loadFare (catalogue db) (ch_run p) (tr_route tr) (ch_from p) (ch_to p) class = Some f /\
    MoneyModel.NewMoney (f_amount f) (f_currency f) = Ok fare /\
    MoneyModel.Multiply fare (Z.of_nat (length ids)) = Ok total /\
    length alloc = length ids /\ NoDup (map al_seat alloc) /\
    reservations l !! id = None /\
    core (getLocal (tx_schema tx) db') =
      (occupy (ch_run p) (map al_seat alloc) v (inventory l), <[id := holdRow p tr class total]> (reservations l),
       reservation_seats l ++ rows) /\
    (forall s, s <> tx_schema tx -> core (getLocal s db') = core (getLocal s db)) /\
    (exists holds runHolds pass, quotaCounts tx (ch_user p) (ch_run p) db = Ok ((holds, runHolds, pass), db) /\
       atOrAboveLimit holds 1 (MaxActiveHoldsPerUser lim) = false /\
       atOrAboveLimit runHolds 1 (MaxActiveHoldsPerUserPerTrainRun lim) = false /\
       atOrAboveLimit pass (Z.of_nat (length ids)) (MaxActivePassengersPerUser lim) = false) /\
    result = mkHoldResult id (Z.of_nat (length alloc)) (MoneyModel.amountMinor total) (MoneyModel.currency total) false.

Lemma enforceQuota_Ok tx u r n lim db a db' :
  enforceReservationQuota tx u r n lim db = Ok (a, db') ->
  db' = db /\ exists holds runHolds pass, quotaCounts tx u r db = Ok ((holds, runHolds, pass), db) /\
    atOrAboveLimit holds 1 (MaxActiveHoldsPerUser lim) = false /\
    atOrAboveLimit runHolds 1 (MaxActiveHoldsPerUserPerTrainRun lim) = false /\
    atOrAboveLimit pass n (MaxActivePassengersPerUser lim) = false.
Proof.
  unfold enforceReservationQuota. intros [_ H]%stopif_Ok. apply bindM_Ok in H as ([[h rh] ps] & d & Hq & H).
  apply stopif_Ok in H as [Hb H]. injection H as _ <-.
  assert (d = db) as ->.
  { unfold quotaCounts in Hq. destruct (routed tx); apply bindM_Ok in Hq as (x & d1 & [= _ <-] & [= _ _ _ <-]); done. }
  apply orb_false_iff in Hb as [[? ?]%orb_false_iff ?]. split; [done|]. eauto 10.
Qed.

Lemma recheck_db run cl d db a db' : recheckAdmissionPolicy run cl d db = Ok (a, db') -> db' = db.
Proof.
  unfold recheckAdmissionPolicy. intros [_ H]%stopif_Ok. apply bindM_Ok in H as (cat & d1 & [= _ <-] & H).
  destruct (_ ≫= _) as [pl|]; destruct d; try done; [|by injection H as _ <-].
  apply stopif_Ok in H as [_ H]. by injection H as _ <-.
Qed.

Lemma ensurePassengers_Ok tx run ids db a db' :
  ensurePassengersAvailable tx run ids db = Ok (a, db') ->
  db' = db /\ passengerConflicts (getLocal (tx_schema tx) db) run ids = 0%nat.
Proof.
  unfold ensurePassengersAvailable. intros (l & d & [= <- <-] & H)%bindM_Ok. apply stopif_Ok in H as [Hb H].
  injection H as _ <-. apply negb_false_iff, Nat.eqb_eq in Hb. done.
Qed.

(** The steps after the rows are written. *)
Lemma keeps_holdTail tx env id p n rec total k :
  keeps (let! _ := insertReservationQuotaClaim tx id (ch_user p) (ch_run p) n in
         let! _ := insertReservationLocator tx id (ch_user p) in
         let! _ := CompleteIdempotency tx rec id in
         let! _ := appendReservationEvent tx env id "reservation.held" (PayloadHeld id (ch_run p) (ch_hold_expires p) k) in
         let! _ := recordSuccessfulGenerationWrite tx in
         let! _ := Commit tx env in
         ret (mkHoldResult id k (MoneyModel.amountMinor total) (MoneyModel.currency total) false)).
Proof. keeps. Qed.

Lemma holdTail_result tx env id p n rec total k db r db' :
  (let! _ := insertReservationQuotaClaim tx id (ch_user p) (ch_run p) n in
   let! _ := insertReservationLocator tx id (ch_user p) in
   let! _ := CompleteIdempotency tx rec id in
   let! _ := appendReservationEvent tx env id "reservation.held" (PayloadHeld id (ch_run p) (ch_hold_expires p) k) in
   let! _ := recordSuccessfulGenerationWrite tx in
   let! _ := Commit tx env in
   ret (mkHoldResult id k (MoneyModel.amountMinor total) (MoneyModel.currency total) false)) db = Ok (r, db') ->
  r = mkHoldResult id k (MoneyModel.amountMinor total) (MoneyModel.currency total) false.
Proof. intros H. do 6 apply bindM_Ok in H as (? & ? & _ & H). by injection H as <- _. Qed.

Lemma createOwnedHold_held lim tx env p ids class rec db r db' :
  createOwnedHold lim tx env p ids class rec db = Ok (r, db') -> held lim tx env p ids class db r db'.
Proof.
  unfold createOwnedHold. intros (u1 & d1 & H1 & H)%bindM_Ok. apply recheck_db in H1 as ->.
  apply bindM_Ok in H as (u2 & d2 & H2 & H). apply enforceQuota_Ok in H2 as (-> & Hquota).
  apply bindM_Ok in H as (cat & d3 & [= <- <-] & H).
  destruct (train_runs (catalogue db) !! ch_run p) as [tr|] eqn:Htr; [|done].
  apply stopif_Ok in H as [Hst H]. apply stopif_Ok in H as [Hexp H].
  destruct (NewSegmentMask _ _ _) as [mask|] eqn:Hmask; [|done]. cbv zeta in H.
  apply stopif_Ok in H as [Hlen H]. apply negb_false_iff, Nat.eqb_eq in Hlen.
  apply bindM_Ok in H as (u4 & d4 & H4 & H). apply ensurePassengers_Ok in H4 as (-> & Hpass).
  destruct (loadFare _ _ _ _ _ _) as [f|] eqn:Hf; [|done].
  destruct (MoneyModel.NewMoney _ _) as [fare|] eqn:Hfare; [|done].
  destruct (MoneyModel.Multiply _ _) as [total|] eqn:Htot; [|done].
  apply bindM_Ok in H as (alloc & d5 & H5 & H). apply AllocateSeats_Ok in H5 as (-> & Hcount & _ & Hnd & _).
  apply bindM_Ok in H as (u6 & d6 & H6 & H). apply insertReservation_Ok in H6 as (Hfresh & ->).
  apply bindM_Ok in H as (u7 & d7 & H7 & H). apply insertSeatRows_Ok in H7 as ->.
  pose proof (holdTail_result _ _ _ _ _ _ _ _ _ _ _ H) as Hr. apply keeps_holdTail in H.
  rewrite !getLocal_setLocal_eq in *. rewrite !setLocal_setLocal in H.
  exists tr, mask, f, fare, total, alloc. cbv zeta.
  apply negb_false_iff, bool_decide_eq_true in Hst. apply negb_false_iff in Hexp. unfold After in Hexp.
  split_and!; auto; [lia|lia| |].
  - rewrite H, getLocal_setLocal_eq. reflexivity.
  - intros s Hs. rewrite H, getLocal_setLocal. by rewrite bool_decide_eq_false_2.
Qed.

(** ** Histories of the reservations

    Besides creating holds, transactions only move an active reservation to a
    status other than held. *)
Definition statusStep (l l' : Local) : Prop :=
  reservation_seats l' = reservation_seats l /\
  (reservations l' = reservations l \/
   exists id r s, reservations l !! id = Some r /\ activeStatus (r_status r) = true /\ s <> Held /\
     reservations l' = <[id := setReservationStatus r s]> (reservations l)).

Definition evolves {A} (m : M A) : Prop :=
  forall db a db', m db = Ok (a, db') -> forall s, rtc statusStep (getLocal s db) (getLocal s db').

Lemma core_statusStep l l' : core l' = core l -> statusStep l l'.
Proof. unfold core. intros [= _ H1 H2]. split; auto. Qed.

Lemma keeps_evolves {A} (m : M A) : keeps m -> evolves m.
Proof. intros H db a db' Hm s. apply rtc_once, core_statusStep. by apply (H _ _ _ Hm). Qed.

Lemma evolves_bind {A B} (m : M A) (k : A -> M B) : evolves m -> (forall a, evolves (k a)) -> evolves (bindM m k).
Proof. intros Hm Hk db b db'' (a & db' & H1 & H2)%bindM_Ok s. etrans; [by apply (Hm _ _ _ H1)|by apply (Hk _ _ _ _ H2)]. Qed.

Lemma evolves_updateStatus tx id ok s :
  (forall r, ok r = true -> activeStatus (r_status r) = true) -> s <> Held -> evolves (updateStatus tx id ok s).
Proof.
  intros Hok Hs db b db' H s'. apply updateStatus_Ok in H as [(_ & r & Hr & Hk & ->)|(_ & ->)]; [|done].
  rewrite getLocal_setLocal. case_bool_decide as E; [subst s'|done]. apply rtc_once. split; [done|]. right.
  exists id, r, s. split_and!; auto.
Qed.

Lemma evolves_release tx id : evolves (releaseReservationSeats tx id).
Proof.
  intros db n db' H s. apply releaseReservationSeats_Ok in H as (_ & _ & _ & ->). rewrite getLocal_setLocal.
  case_bool_decide as E; [subst s|done]. apply rtc_once. split; [done|]. by left.
Qed.

Lemma evolves_InitializeInventory tx run : evolves (InitializeInventory tx run).
Proof.
  unfold InitializeInventory. destruct (isNil run); [apply keeps_evolves; auto with frame|].
  apply evolves_bind; [apply keeps_evolves; auto with frame|intros cat].
  destruct (train_runs cat !! run) as [tr|]; [|apply keeps_evolves; auto with frame].
  intros db n db' (l & d1 & [= <- <-] & H)%bindM_Ok s.
  destruct (insertMissing _ _ _ _) as [inv k]. apply bindM_Ok in H as (u & d2 & [= _ <-] & [= <- <-]).
  rewrite getLocal_setLocal. case_bool_decide as E; [subst s|done]. apply rtc_once. split; [done|by left].
Qed.

(** As [preserves], for [evolves]. *)
Ltac evolves :=
  repeat first
    [ apply keeps_evolves; solve [auto with frame]
    | apply evolves_release
    | apply evolves_bind; [|intros ?]
    | match goal with |- evolves (match ?x with _ => _ end) => destruct x end ].

Lemma evolves_confirm tx env p : evolves (confirmReservationTx tx env p).
Proof.
  unfold confirmReservationTx. cbv zeta. apply evolves_bind; [evolves|intros acq].
  destruct (acq_replayed acq); [evolves|]. apply evolves_bind; [evolves|intros r].
  destruct (bool_decide (r_status r = Confirmed)); [evolves|]. destruct (negb _); [evolves|].
  apply evolves_bind; [|intros b; evolves].
  apply evolves_updateStatus; [|done]. intros r0 [->%bool_decide_eq_true _]%andb_true_iff. done.
Qed.

Lemma evolves_cancel tx env p : evolves (cancelReservationTx tx env p).
Proof.
  unfold cancelReservationTx. cbv zeta. apply evolves_bind; [evolves|intros acq].
  destruct (acq_replayed acq); [evolves|]. apply evolves_bind; [evolves|intros r].
  destruct (bool_decide (r_status r = Cancelled)); [evolves|].
  destruct (negb (bool_decide (r_status r = Held)) && negb (bool_decide (r_status r = Confirmed))) eqn:E; [evolves|].
  apply evolves_bind; [|intros b; evolves]. apply evolves_updateStatus; [|done].
  intros r0 ->%bool_decide_eq_true. unfold activeStatus.
  by destruct (bool_decide (r_status r = Held)), (bool_decide (r_status r = Confirmed)).
Qed.

Lemma evolves_expire tx env id : evolves (expireTx tx env id).
Proof.
  unfold expireTx. apply evolves_bind; [apply evolves_updateStatus; [apply dueAt_active|done]|intros b; evolves].
Qed.

Lemma evolves_cleanup env limit : evolves (cleanupExpiredIdempotency env limit).
Proof.
  apply keeps_evolves. unfold cleanupExpiredIdempotency. destruct (limit <=? 0); [auto with frame|]. cbv zeta.
  apply keeps_update. intros l db u db' Hl H. eapply keeps_putTables; [exact Hl| |exact H]. done.
Qed.

(** A command of an unsharded store either evolves the public tables or adds
    one hold to them. *)
Definition holdStep (lim : QuotaLimits) (l l' : Local) : Prop :=
  exists env p db result db', getLocal Public db = l /\ getLocal Public db' = l' /\
    ch_user p <> uuidNil /\
    held lim Begin env p (sortIds (ch_passengers p)) (toLower (ch_class p)) db result db'.

Inductive history (lim : QuotaLimits) (l : Local) : Local -> Prop :=
| history_refl : history lim l l
| history_status l1 l2 : history lim l l1 -> statusStep l1 l2 -> history lim l l2
| history_hold l1 l2 : history lim l l1 -> holdStep lim l1 l2 -> history lim l l2.

Lemma history_rtc lim l l1 l2 : history lim l l1 -> rtc statusStep l1 l2 -> history lim l l2.
Proof. intros H. induction 1 as [|x y z Hs _ IH]; [done|]. apply IH. by eapply history_status. Qed.

Lemma createHoldTx_history lim tx env p db r db' l :
  tx = Begin -> ch_user p <> uuidNil -> history lim l (public db) ->
  createHoldTx lim tx env p db = Ok (r, db') -> history lim l (public db').
Proof.
  intros -> Hu Hh. unfold createHoldTx. cbv zeta. intros (acq & d1 & H1 & H)%bindM_Ok.
  apply (keeps_evolves _ (keeps_AcquireIdempotency _ _ _)) in H1. specialize (H1 Public).
  assert (Hh1 : history lim l (public d1)) by (by eapply history_rtc).
  destruct (acq_replayed acq).
  - assert (Hk : evolves (let! result := loadCreateHoldResult Begin (ch_user p) (acq_resource acq) in
      let! _ := Commit Begin env in
      ret (mkHoldResult (hr_reservation result) (hr_seat_count result) (hr_total result) (hr_currency result) true)))
      by evolves.
    eapply history_rtc; [exact Hh1|apply (Hk _ _ _ H Public)].
  - apply createOwnedHold_held in H. eapply history_hold; [exact Hh1|].
    exists env, p, d1, r, db'. split_and!; auto.
Qed.

Lemma expireLoop_history lim l fuel envs ex fa fs db :
  history lim l (public db) -> history lim l (public (expireLoop fuel envs ex fa fs db).2).
Proof.
  revert ex fa fs db. induction fuel as [|fuel IH]; intros ex fa fs db Hh; [done|]. simpl. unfold expireOneDue.
  destruct (dueReservations _ _ _) as [|[id r] rest]; [done|].
  destruct (expireTx Begin _ id db) as [[u db']|e] eqn:E; apply IH; [|done].
  eapply history_rtc; [exact Hh|]. apply (evolves_expire _ _ _ _ _ _ E Public).
Qed.

Lemma createHoldOnce_history lim l env p db :
  history lim l (public db) -> history lim l (public (createHoldOnce (mkStore lim None) env p db).1.2) /\
  (createHoldOnce (mkStore lim None) env p db).2 = mkStore lim None.
Proof.
  intros Hh. unfold createHoldOnce. destruct (validateCreateHoldParams p) eqn:Hv; [|done]. simpl.
  destruct (adjacentDuplicate _); [done|]. split; [|done]. cbn [beginCreateHoldTransaction fst snd]. unfold runTx.
  destruct (createHoldTx _ Begin env p db) as [[a db']|e] eqn:E; [|done].
  eapply createHoldTx_history; [done| |exact Hh|exact E].
  unfold validateCreateHoldParams, isNil in Hv. intros Hu. by rewrite Hu in Hv.
Qed.

Lemma createHoldAttempts_history n lim l envs p db :
  history lim l (public db) -> history lim l (public (createHoldAttempts n (mkStore lim None) envs p db).1.2) /\
  (createHoldAttempts n (mkStore lim None) envs p db).2 = mkStore lim None.
Proof.
  revert envs db. induction n as [|n IH]; intros envs db Hh; [done|]. destruct envs as [|env envs]; [done|].
  cbn [createHoldAttempts]. pose proof (createHoldOnce_history lim l env p db Hh) as [H Hs].
  destruct (createHoldOnce _ env p db) as [[o db'] s']. cbn [fst snd] in H, Hs. subst s'.
  destruct o as [a|e]; [done|]. destruct (negb _ || _); [done|]. by apply IH.
Qed.

Lemma runTx_history {A} lim l (body : Tx -> M A) db :
  (forall t, evolves (body t)) -> history lim l (public db) -> history lim l (public (runTx (Ok Begin) body db).2).
Proof.
  intros Hb Hh. unfold runTx. destruct (body Begin db) as [[a db']|] eqn:E; [|done].
  eapply history_rtc; [exact Hh|]. apply (Hb _ _ _ _ E Public).
Qed.

Lemma execute_history lim l db c :
  history lim l (public db) ->
  history lim l (public (execute (mkStore lim None, db) c).2) /\ (execute (mkStore lim None, db) c).1 = mkStore lim None.
Proof.
  intros Hh. destruct c as [envs p|env p|env p|envs now limit|env run]; cbn [execute].
  - unfold CreateHold. pose proof (createHoldAttempts_history maxAttempts lim l envs p db Hh) as H.
    by destruct (createHoldAttempts _ _ _ _ _) as [[o db'] s'].
  - unfold ConfirmReservation. destruct (negb _); [done|]. cbn [beginReservationCommandTransaction shards].
    pose proof (runTx_history lim l (fun tx => confirmReservationTx tx env p) db (fun t => evolves_confirm t _ _) Hh) as H.
    by destruct (runTx _ _ _) as [o db'].
  - unfold CancelReservation. destruct (negb _); [done|]. cbn [beginReservationCommandTransaction shards].
    pose proof (runTx_history lim l (fun tx => cancelReservationTx tx env p) db (fun t => evolves_cancel t _ _) Hh) as H.
    by destruct (runTx _ _ _) as [o db'].
  - unfold ExpireDue. destruct (_ || _); [done|]. cbn [shards]. unfold ExpireDueUnsharded.
    pose proof (expireLoop_history lim l (Z.to_nat limit) envs [] [] [] db Hh) as H.
    destruct (expireLoop _ _ _ _ _ _) as [[ex fs] db']. cbn [snd] in H.
    destruct (cleanupExpiredIdempotency _ _ db') as [[u db'']|e] eqn:E; [|done]. split; [|done].
    eapply history_rtc; [exact H|]. apply (evolves_cleanup _ _ _ _ _ E Public).
  - unfold StoreInitializeInventory. cbn [shards].
    pose proof (runTx_history lim l (fun tx => initializeTx tx env run) db ltac:(intros t; unfold initializeTx;
      apply evolves_bind; [apply evolves_InitializeInventory|intros n; evolves]) Hh) as H.
    by destruct (runTx _ _ _) as [o db'].
Qed.

Lemma executeAll_history lim l cs db :
  history lim l (public db) -> history lim l (public (foldl execute (mkStore lim None, db) cs).2).
Proof.
  revert db. induction cs as [|c cs IH]; intros db Hh; [done|].
  change (foldl execute ?st (c :: cs)) with (foldl execute (execute st c) cs).
  destruct (execute_history lim l db c Hh) as [H Hs]. destruct (execute _ c) as [s' db']. cbn [fst snd] in *.
  subst s'. by apply IH.
Qed.

(** ** Quotas and passengers *)
Section Counts.
Context (p : ReservationRow -> bool).
Let F := fun kv : uuid * ReservationRow => p kv.2 = true.

Lemma size_filter_new (m : gmap uuid ReservationRow) k v :
  m !! k = None -> size (filter F (<[k := v]> m)) = ((if p v then 1 else 0) + size (filter F m))%nat.
Proof.
  intros Hk. destruct (p v) eqn:Hp.
  - rewrite map_filter_insert_True by done. rewrite map_size_insert_None; [done|].
    apply map_lookup_filter_None. by left.
  - rewrite map_filter_insert_False by (unfold F; simpl; congruence). by rewrite delete_id.
Qed.

Lemma size_filter_update (m : gmap uuid ReservationRow) k v v' :
  m !! k = Some v -> (p v' = true -> p v = true) -> (size (filter F (<[k := v']> m)) <= size (filter F m))%nat.
Proof.
  intros Hk Hp. rewrite <- (insert_delete_eq m k v') , <- (insert_delete_id m k v Hk) at 1.
  rewrite (delete_insert_eq (delete k m) k v), delete_id by apply lookup_delete_eq.
  rewrite <- (insert_delete_id m k v Hk) at 2.
  rewrite !size_filter_new by apply lookup_delete_eq. destruct (p v'); [rewrite Hp by done|]; lia.
Qed.
End Counts.

Lemma countIf_mono {A} (p q : A -> bool) l :
  (forall x, x ∈ l -> p x = true -> q x = true) -> (countIf p l <= countIf q l)%nat.
Proof.
  induction l as [|x l IH]; intros H; [done|]. rewrite !countIf_cons.
  assert (IH' := IH ltac:(intros; apply H; [by right|done])). pose proof (H x ltac:(by left)).
  destruct (p x); [rewrite H0 by done|]; lia.
Qed.

Definition orphanFree (l : Local) : Prop :=
  forall rs, rs ∈ reservation_seats l -> is_Some (reservations l !! rs_reservation rs).

Definition withinQuota (lim : QuotaLimits) (l : Local) : Prop :=
  forall user run, countHolds l user <= MaxActiveHoldsPerUser lim /\
    countRunHolds l user run <= MaxActiveHoldsPerUserPerTrainRun lim /\
    countPassengers l user <= MaxActivePassengersPerUser lim.

(** The active seats of a passenger on a run. *)
Definition passengerSeats (l : Local) (run passenger : uuid) : nat :=
  countIf (fun rs => activeSeatOnRun l run rs && bool_decide (rs_passenger rs = passenger)) (reservation_seats l).

Definition onePerPassenger (l : Local) : Prop := forall run passenger, (passengerSeats l run passenger <= 1)%nat.

Lemma atOrAbove_false c a lim : atOrAboveLimit c a lim = false -> 0 <= c /\ 0 <= a /\ c + a <= lim.
Proof. unfold atOrAboveLimit. destruct (_ || _) eqn:E; [done|]. lia. Qed.

Lemma statusStep_orphanFree l l' : statusStep l l' -> orphanFree l -> orphanFree l'.
Proof.
  intros [Hs [Hr|(id & r & s & Hr & _ & _ & Hr')]] Ho rs; rewrite Hs; intros Hin.
  - rewrite Hr. by apply Ho.
  - rewrite Hr'. destruct (decide (rs_reservation rs = id)) as [->|]; [rewrite lookup_insert_eq; eauto|].
    rewrite lookup_insert_ne by done. by apply Ho.
Qed.

Lemma heldBy_restatus u r s : s <> Held -> heldBy u (setReservationStatus r s) = false.
Proof. intros Hs. unfold heldBy. simpl. by rewrite (bool_decide_eq_false_2 (s = Held)), andb_false_r. Qed.

Lemma statusStep_quota lim l l' : statusStep l l' -> withinQuota lim l -> withinQuota lim l'.
Proof.
  intros [Hs [Hr|(id & r & s & Hr & _ & Hsh & Hr')]] Hq u run; destruct (Hq u run) as (H1 & H2 & H3).
  - unfold countHolds, countRunHolds, countPassengers, seatHeldBy in *. by rewrite Hr, Hs.
  - unfold countHolds, countRunHolds, countPassengers in *. rewrite Hr', Hs. split_and!.
    + pose proof (size_filter_update (heldBy u) _ id r (setReservationStatus r s) Hr) as Hle.
      rewrite heldBy_restatus in Hle by done. specialize (Hle ltac:(done)). lia.
    + pose proof (size_filter_update (fun r => heldBy u r && bool_decide (r_run r = run)) _ id r
        (setReservationStatus r s) Hr) as Hle. cbv beta in Hle. rewrite heldBy_restatus in Hle by done. specialize (Hle ltac:(done)). lia.
    + pose proof (countIf_mono (seatHeldBy l' u) (seatHeldBy l u) (reservation_seats l)) as Hle. unfold countIf in Hle.
      enough (forall rs, rs ∈ reservation_seats l -> seatHeldBy l' u rs = true -> seatHeldBy l u rs = true) as He
        by (specialize (Hle He); lia).
      intros rs _. unfold seatHeldBy. rewrite Hr'. destruct (decide (rs_reservation rs = id)) as [->|].
      * by rewrite lookup_insert_eq, heldBy_restatus.
      * by rewrite lookup_insert_ne.
Qed.

Lemma statusStep_passengers l l' : statusStep l l' -> onePerPassenger l -> onePerPassenger l'.
Proof.
  intros [Hs Hr] Ho run pas. etrans; [|apply (Ho run pas)]. unfold passengerSeats. rewrite Hs. apply countIf_mono.
  intros rs _ [Ha Hp]%andb_true_iff. rewrite Hp, andb_true_r. revert Ha. unfold activeSeatOnRun.
  destruct Hr as [->|(id & r & s & Hr & Hact & _ & ->)]; [done|].
  destruct (decide (rs_reservation rs = id)) as [->|]; [|by rewrite lookup_insert_ne].
  rewrite lookup_insert_eq, Hr. simpl. intros [Hrun _]%andb_true_iff. by rewrite Hrun, Hact.
Qed.

Lemma ownedPassengerIDs_spec cat user ids :
  NoDup (ownedPassengerIDs cat user ids) /\
  forall x, x ∈ ownedPassengerIDs cat user ids -> passengers cat !! x = Some user /\ x ∈ ids.
Proof.
  unfold ownedPassengerIDs, sortIds. split.
  - rewrite sortBy_Permutation. eapply sublist_NoDup; [apply (NoDup_fst_map_to_list (passengers cat))|].
    apply fmap_sublist, sublist_filter.
  - intros x. rewrite elem_of_sortBy, list_elem_of_fmap. intros ([x' u] & -> & Hin).
    apply list_elem_of_filter in Hin as [[Hu Hi] Hin]. apply elem_of_map_to_list in Hin. simpl in *. by subst.
Qed.

Lemma seatRowsFor_passengers env id run seg alloc owned mask fare :
  length owned = length alloc ->
  map rs_passenger (seatRowsFor env id run seg alloc owned mask fare) = owned.
Proof.
  unfold seatRowsFor. generalize (new_seat_row env). revert owned.
  induction alloc as [|a alloc IH]; intros [|o owned] g Hlen; try done. cbn [zip zip_with]. rewrite imap_cons.
  cbn [map rs_passenger snd]. f_equal. apply (IH owned (g ∘ S)). simpl in Hlen. lia.
Qed.

(** The parts of [held] that concern reservations and seats. *)
Lemma held_tables lim env p ids class db r db' :
  held lim Begin env p ids class db r db' ->
  exists tr total rows owned, let id := new_reservation env in
    reservations (public db) !! id = None /\
    reservations (public db') = <[id := holdRow p tr class total]> (reservations (public db)) /\
    reservation_seats (public db') = reservation_seats (public db) ++ rows /\
    (forall rs, rs ∈ rows -> rs_reservation rs = id) /\ length rows = length ids /\ map rs_passenger rows = owned /\
    NoDup owned /\ passengerConflicts (public db) (ch_run p) owned = 0%nat /\
    countHolds (public db) (ch_user p) + 1 <= MaxActiveHoldsPerUser lim /\
    countRunHolds (public db) (ch_user p) (ch_run p) + 1 <= MaxActiveHoldsPerUserPerTrainRun lim /\
    countPassengers (public db) (ch_user p) + Z.of_nat (length ids) <= MaxActivePassengersPerUser lim.
Proof.
  intros (tr & mask & f & fare & total & alloc & _ & _ & _ & _ & Hown & Hconf & _ & _ & _ & Hal & _ & Hfresh & Hcore & _ & Hq & _).
  destruct Hq as (h & rh & ps & Hq & Q1 & Q2 & Q3). unfold quotaCounts, bindM, getTables, ret in Hq. simpl in Hq.
  injection Hq as <- <- <-. apply atOrAbove_false in Q1, Q2, Q3.
  cbn [tx_schema Begin getLocal] in *. unfold core in Hcore.
  injection Hcore as _ Hres Hseats. set (owned := ownedPassengerIDs _ _ _) in *.
  exists tr, total, (seatRowsFor env (new_reservation env) (ch_run p) (tr_segment_count tr) alloc owned
    (varbitOfBits (EncodeSegmentMask mask)) fare), owned. cbv zeta.
  assert (Hpas := seatRowsFor_passengers env (new_reservation env) (ch_run p) (tr_segment_count tr) alloc owned
    (varbitOfBits (EncodeSegmentMask mask)) fare ltac:(lia)).
  split_and!; auto; try lia.
  - intros rs Hrs. by apply seatRowsFor_spec in Hrs as [? _]; [|lia].
  - apply (f_equal length) in Hpas. rewrite length_map in Hpas. lia.
  - apply ownedPassengerIDs_spec.
Qed.

Lemma holdStep_orphanFree lim l l' : holdStep lim l l' -> orphanFree l -> orphanFree l'.
Proof.
  intros (env & p & db & r & db' & <- & <- & _ & Hh) Ho.
  destruct (held_tables _ _ _ _ _ _ _ _ Hh) as (tr & total & rows & owned & Hf & Hr & Hs & Hid & _).
  cbn [getLocal] in *. intros rs. rewrite Hs, Hr. intros [Hin|Hin]%elem_of_app.
  - destruct (Ho rs Hin) as [x Hx]. rewrite lookup_insert_ne; [eauto|]. intros Heq. rewrite <- Heq in Hx. congruence.
  - rewrite (Hid rs Hin), lookup_insert_eq. eauto.
Qed.

Lemma holdStep_quota lim l l' : holdStep lim l l' -> orphanFree l -> withinQuota lim l -> withinQuota lim l'.
Proof.
  intros (env & p & db & r & db' & <- & <- & _ & Hh) Ho Hq u run. cbn [getLocal] in *.
  destruct (held_tables _ _ _ _ _ _ _ _ Hh) as (tr & total & rows & owned & Hf & Hr & Hs & Hid & Hn & _ & _ & _ & Q1 & Q2 & Q3).
  destruct (Hq u run) as (H1 & H2 & H3). unfold countHolds, countRunHolds in *.
  assert (Hheld : heldBy u (holdRow p tr (toLower (ch_class p)) total) = bool_decide (ch_user p = u)).
  { unfold heldBy. simpl. by rewrite andb_true_r. }
  split_and!.
  - rewrite Hr, (size_filter_new (heldBy u)), Hheld by done. case_bool_decide; [subst u|]; lia.
  - pose proof (size_filter_new (fun r => heldBy u r && bool_decide (r_run r = run)) _ _
      (holdRow p tr (toLower (ch_class p)) total) Hf) as Hnew. cbv beta in Hnew. rewrite Hheld in Hnew.
    rewrite Hr, Hnew. simpl.
    destruct (bool_decide (ch_user p = u)) eqn:Eu; simpl; [|lia]. destruct (bool_decide (ch_run p = run)) eqn:Er; [|lia].
    apply bool_decide_eq_true in Eu, Er. subst u run. lia.
  - unfold countPassengers in *. rewrite Hs.
    change (length (filter (fun rs => seatHeldBy (public db') u rs = true) ?x)) with (countIf (seatHeldBy (public db') u) x).
    rewrite countIf_app. rewrite (countIf_ext (seatHeldBy (public db') u) (seatHeldBy (public db) u) (reservation_seats (public db))).
    2: { intros rs Hin. unfold seatHeldBy. rewrite Hr, lookup_insert_ne; [done|]. intros Heq.
         destruct (Ho rs Hin) as [x Hx]. rewrite <- Heq in Hx. congruence. }
    rewrite (countIf_ext (seatHeldBy (public db') u) (fun _ => bool_decide (ch_user p = u)) rows).
    2: { intros rs Hin. unfold seatHeldBy. by rewrite Hr, (Hid rs Hin), lookup_insert_eq. }
    unfold countIf in *. destruct (decide (ch_user p = u)) as [<-|Hne].
    + rewrite (filter_all (fun _ => bool_decide (ch_user p = ch_user p) = true) rows) by (intros; by apply bool_decide_eq_true). lia.
    + pose proof (proj2 (countIf_0 (fun _ => bool_decide (ch_user p = u)) rows)) as H0. unfold countIf in H0.
      rewrite H0; [lia|]. intros. by apply bool_decide_eq_false.
Qed.

Lemma holdStep_passengers lim l l' : holdStep lim l l' -> orphanFree l -> onePerPassenger l -> onePerPassenger l'.
Proof.
  intros (env & p & db & r & db' & <- & <- & _ & Hh) Ho Hq run pas. cbn [getLocal] in *.
  destruct (held_tables _ _ _ _ _ _ _ _ Hh) as (tr & total & rows & owned & Hf & Hr & Hs & Hid & _ & Hpas & Hnd & Hconf & _).
  unfold passengerSeats. rewrite Hs, countIf_app.
  rewrite (countIf_ext (fun rs => activeSeatOnRun (public db') run rs && bool_decide (rs_passenger rs = pas))
    (fun rs => activeSeatOnRun (public db) run rs && bool_decide (rs_passenger rs = pas)) (reservation_seats (public db))).
  2: { intros rs Hin. f_equal. unfold activeSeatOnRun. rewrite Hr, lookup_insert_ne; [done|]. intros Heq.
       destruct (Ho rs Hin) as [x Hx]. rewrite <- Heq in Hx. congruence. }
  rewrite (countIf_ext _ (fun rs => bool_decide (ch_run p = run) && bool_decide (rs_passenger rs = pas)) rows).
  2: { intros rs Hin. f_equal. unfold activeSeatOnRun. rewrite Hr, (Hid rs Hin), lookup_insert_eq. simpl. by rewrite andb_true_r. }
  destruct (decide (ch_run p = run)) as [<-|Hne].
  2: { rewrite (proj2 (countIf_0 _ rows)); [rewrite Nat.add_0_r; apply Hq|]. intros. by rewrite bool_decide_eq_false_2. }
  rewrite (countIf_key rs_passenger _ pas rows).
  2: { by rewrite Hpas. }
  2: { intros rs _ [_ H]%andb_true_iff. by apply bool_decide_eq_true in H. }
  destruct (existsb _ rows) eqn:E; [|rewrite Nat.add_0_r; apply Hq].
  apply existsb_elem in E as (rs & Hin & [_ Hp]%andb_true_iff). apply bool_decide_eq_true in Hp.
  assert (Hown : pas ∈ owned) by (rewrite <- Hpas, <- Hp; apply list_elem_of_fmap; eauto).
  rewrite (proj2 (countIf_0 _ (reservation_seats (public db)))); [done|].
  unfold passengerConflicts in Hconf. pose proof (proj1 (countIf_0 (fun rs => activeSeatOnRun (public db) (ch_run p) rs &&
    bool_decide (rs_passenger rs ∈ owned)) (reservation_seats (public db))) Hconf) as H0.
  intros x Hx. specialize (H0 x Hx). destruct (activeSeatOnRun (public db) (ch_run p) x) eqn:Ea; [|done].
  cbv beta in H0. rewrite Ea in H0. cbn [andb] in *. apply bool_decide_eq_false in H0. apply bool_decide_eq_false.
  intros Heq. by rewrite Heq in H0.
Qed.

Lemma history_invariants lim l l' :
  history lim l l' -> orphanFree l ->
  orphanFree l' /\ (withinQuota lim l -> withinQuota lim l') /\ (onePerPassenger l -> onePerPassenger l').
Proof.
  induction 1 as [|l1 l2 _ IH Hs|l1 l2 _ IH Hs]; intros Ho; [auto| |]; destruct (IH Ho) as (Ho1 & Hq & Hp).
  - split_and!; eauto using statusStep_orphanFree, statusStep_quota, statusStep_passengers.
  - split_and!; eauto using holdStep_orphanFree, holdStep_quota, holdStep_passengers.
Qed.

(** C6: quotas hold over any history.  On an unsharded store, whatever
    commands run, no user ever has more held reservations, held reservations
    on one run, or passengers in held reservations than the limits allow. *)
Theorem quota_never_exceeded lim cs db user run :
  orphanFree (public db) -> withinQuota lim (public db) ->
  let l := public (foldl execute (mkStore lim None, db) cs).2 in
  countHolds l user <= MaxActiveHoldsPerUser lim /\
  countRunHolds l user run <= MaxActiveHoldsPerUserPerTrainRun lim /\
  countPassengers l user <= MaxActivePassengersPerUser lim.
Proof.
  intros Ho Hq l. pose proof (executeAll_history lim (public db) cs db (history_refl _ _)) as Hh.
  destruct (history_invariants _ _ _ Hh Ho) as (_ & H & _). by apply H.
Qed.

(** a passenger is never booked twice on one train run: over any history
    of an unsharded store, a passenger has at most one active (held or
    confirmed) seat per run. *)
Theorem passenger_booked_once lim cs db run passenger :
  orphanFree (public db) -> onePerPassenger (public db) ->
  (passengerSeats (public (foldl execute (mkStore lim None, db) cs).2) run passenger <= 1)%nat.
Proof.
  intros Ho Hp. pose proof (executeAll_history lim (public db) cs db (history_refl _ _)) as Hh.
  destruct (history_invariants _ _ _ Hh Ho) as (_ & _ & H). by apply H.
Qed.

Lemma quota_never_exceeded_witness :
  countHolds (public exampleDb) 5%N = 1 /\ countHolds (public exampleDb) 5%N <= 10.
Proof.
  split; [vm_compute; reflexivity|].
  apply (quota_never_exceeded DefaultReservationQuotaLimits exampleCommands Example.db0 5%N 7%N).
  - intros rs Hin. by apply not_elem_of_nil in Hin.
  - intros u r. vm_compute. split_and!; congruence.
Defined.

Lemma passenger_booked_once_witness :
  passengerSeats (public exampleDb) 7%N 21%N = 1%nat /\ (passengerSeats (public exampleDb) 7%N 21%N <= 1)%nat.
Proof.
  split; [vm_compute; reflexivity|].
  apply (passenger_booked_once DefaultReservationQuotaLimits exampleCommands Example.db0 7%N 21%N).
  - intros rs Hin. by apply not_elem_of_nil in Hin.
  - intros r pas. unfold passengerSeats. simpl. apply Nat.le_0_l.
Defined.

(** ** The contents of a hold *)
Lemma Multiply_Ok m n total :
  MoneyModel.money_wf m -> 0 <= n <= MaxInt64 -> MoneyModel.Multiply m n = Ok total ->
  MoneyModel.amountMinor total = MoneyModel.amountMinor m * n /\ MoneyModel.currency total = MoneyModel.currency m.
Proof.
  intros [Hw _] Hn. unfold MoneyModel.Multiply. intros H. inv_ok. subst total. simpl. split; [|done].
  apply wrap64_id. unfold in_int64, MinInt64, MaxInt64 in *. destruct (decide (n = 0)) as [->|Hz]; [lia|].
  rewrite (proj2 (Z.eqb_neq _ _) Hz) in H1. cbn [negb andb] in H1.
  assert (Hq : MoneyModel.amountMinor m <= Z.quot (2 ^ 63 - 1) n) by lia.
  pose proof (Z.mul_quot_le (2 ^ 63 - 1) n ltac:(lia) ltac:(lia)). nia.
Qed.

(** The bits the server reads from an encoded mask. *)
Lemma length_varbitOfBits b : length (varbitOfBits b) = Z.to_nat (pg_Len b).
Proof. unfold varbitOfBits. by rewrite length_map, length_seq. Qed.

Lemma varbit_encode m i :
  0 <= bitLength m < 2 ^ 31 -> bit (varbitOfBits (EncodeSegmentMask m)) i = (Z.of_nat i <? bitLength m) && bit_at m (Z.of_nat i).
Proof.
  intros Hl. assert (Hw : wrap32 (bitLength m) = bitLength m) by (apply wrap32_id; lia).
  destruct (Z.ltb_spec (Z.of_nat i) (bitLength m)) as [Hi|Hi].
  - unfold bit, varbitOfBits. simpl. rewrite Hw.
    rewrite (nth_indep _ _ (Z.testbit (nth (0 / 8) (bits m) 0) (7 - Z.of_nat (0 mod 8))))
      by (rewrite length_map, length_seq; lia).
    rewrite (map_nth (fun i => Z.testbit (nth (i / 8) (bits m) 0) (7 - Z.of_nat (i mod 8)))).
    rewrite seq_nth by lia. unfold bit_at. cbn [Nat.add]. f_equal; [f_equal|].
    + rewrite <- (Nat2Z.id (i / 8)), Nat2Z.inj_div. done.
    + by rewrite Nat2Z.inj_mod.
  - apply bit_overflow. rewrite length_varbitOfBits. simpl. rewrite Hw. lia.
Qed.

(** The columns of the catalogue are machine integers: PostgreSQL integer and
    bigint. *)
Definition catalogueTyped (cat : Catalogue) : Prop :=
  (forall run tr, train_runs cat !! run = Some tr -> 0 <= tr_segment_count tr < 2 ^ 31) /\
  (forall f, f ∈ fares cat -> in_int64 (f_amount f)).

Lemma loadFare_elem cat run route from to class f :
  loadFare cat run route from to class = Some f ->
  f ∈ fares cat /\ f_active f = true /\ f_from f = from /\ f_to f = to /\ f_class f = class /\
  (f_run f = Some run \/ f_run f = None /\ f_route f = Some route).
Proof.
  unfold loadFare, fareMatches. destruct (List.find _ (fares cat)) as [g|] eqn:E.
  - intros [= ->]. apply find_some in E as [Hin%list_elem_of_In Hb].
    rewrite !andb_true_iff, !bool_decide_eq_true in Hb. destruct Hb as [[[[? ?] ?] ?] ?]. split_and!; auto; lia.
  - clear E. intros E. apply find_some in E as [Hin%list_elem_of_In Hb].
    rewrite !andb_true_iff, !bool_decide_eq_true in Hb. destruct Hb as [[[[[? ?] ?] ?] ?] ?]. split_and!; auto; lia.
Qed.

(** [AcquireIdempotency] reads and writes only its own tables. *)
Lemma retire_catalogue ids db u db' : retireExpiredIdempotencyClaims ids db = Ok (u, db') -> catalogue db' = catalogue db.
Proof.
  unfold retireExpiredIdempotencyClaims. destruct (Nat.eqb _ _); [by intros [= _ <-]|].
  intros H. apply failif_Ok in H as [_ H]. apply failif_Ok in H as [_ H]. by injection H as _ <-.
Qed.

(** A computation that never changes what [f] observes. *)
Definition keepsObs {X A} (f : DB -> X) (m : M A) : Prop := forall db a db', m db = Ok (a, db') -> f db' = f db.

Lemma keepsObs_bind {X A B} (f : DB -> X) (m : M A) (k : A -> M B) :
  keepsObs f m -> (forall a, keepsObs f (k a)) -> keepsObs f (bindM m k).
Proof. intros Hm Hk db b db'' (a & db' & H1 & H2)%bindM_Ok. by rewrite (Hk _ _ _ _ H2), (Hm _ _ _ H1). Qed.

Lemma keepsObs_ret {X A} (f : DB -> X) (a : A) : keepsObs f (ret a).
Proof. by intros db x db' [= _ <-]. Qed.
Lemma keepsObs_fail {X A} (f : DB -> X) e : keepsObs f (@fail A e).
Proof. by intros db x db' [=]. Qed.
Lemma keepsObs_getTables {X} (f : DB -> X) tx : keepsObs f (getTables tx).
Proof. by intros db x db' [= _ <-]. Qed.
Lemma keepsObs_getControl {X} (f : DB -> X) : keepsObs f getControl.
Proof. by intros db x db' [= _ <-]. Qed.
Lemma keepsObs_getCatalogue {X} (f : DB -> X) : keepsObs f getCatalogue.
Proof. by intros db x db' [= _ <-]. Qed.

(** Walk through the body of a computation. *)
Ltac keepsObs :=
  cbv zeta;
  repeat first [apply keepsObs_ret | apply keepsObs_fail | apply keepsObs_getTables | apply keepsObs_getControl
    | apply keepsObs_getCatalogue | solve [auto]
    | apply keepsObs_bind; [|intros ?]
    | match goal with |- keepsObs _ (match ?x with _ => _ end) => destruct x end
    | match goal with |- keepsObs _ (let '(_, _) := ?x in _) => destruct x end ].

Lemma keepsCatalogue_put :
  (forall tx l, keepsObs catalogue (putTables tx l)) /\ (forall c, keepsObs catalogue (putControl c)) /\
  (forall ids, keepsObs catalogue (retireExpiredIdempotencyClaims ids)).
Proof.
  split_and!.
  - intros tx l db x db' [= _ <-]. by destruct (tx_schema tx).
  - intros c db x db' [= _ <-]. done.
  - intros ids db x db' H. by eapply retire_catalogue.
Qed.

Lemma AcquireIdempotency_catalogue tx env input : keepsObs catalogue (AcquireIdempotency tx env input).
Proof.
  destruct keepsCatalogue_put as (Hpt & Hpc & Hre). unfold AcquireIdempotency, acquireGlobalIdempotencyClaim, insertAndLockClaim. keepsObs.
Qed.

Lemma createHoldTx_fresh lim tx env p db r db' :
  createHoldTx lim tx env p db = Ok (r, db') -> hr_replayed r = false ->
  exists d1, (forall s, core (getLocal s d1) = core (getLocal s db)) /\ catalogue d1 = catalogue db /\
    held lim tx env p (sortIds (ch_passengers p)) (toLower (ch_class p)) d1 r db'.
Proof.
  unfold createHoldTx. cbv zeta. intros (acq & d1 & H1 & H)%bindM_Ok Hr. exists d1.
  split; [intros s; by apply (keeps_AcquireIdempotency _ _ _ _ _ _ H1)|].
  split; [by apply (AcquireIdempotency_catalogue _ _ _ _ _ _ H1)|].
  destruct (acq_replayed acq); [|by apply createOwnedHold_held in H].
  apply bindM_Ok in H as (x & d2 & _ & H). apply bindM_Ok in H as (y & d3 & _ & H). by injection H as <- _.
Qed.

Lemma owned_Permutation cat user ids :
  length (ownedPassengerIDs cat user ids) = length ids -> ownedPassengerIDs cat user ids ≡ₚ ids.
Proof.
  intros Hlen. destruct (ownedPassengerIDs_spec cat user ids) as [Hnd Hin].
  apply submseteq_length_Permutation; [|lia]. apply NoDup_submseteq; [done|]. intros x Hx. by apply Hin in Hx as [_ ?].
Qed.

(** The seats of a new reservation are the appended rows. *)
Lemma seatsOf_appended l l' id rows :
  orphanFree l -> reservations l !! id = None -> reservation_seats l' = reservation_seats l ++ rows ->
  (forall rs, rs ∈ rows -> rs_reservation rs = id) -> seatsOf l' id = rows.
Proof.
  intros Ho Hfresh Hseats' Hrr. unfold seatsOf. rewrite Hseats', filter_app.
  rewrite (filter_all _ rows) by (intros rs Hrs; by apply Hrr in Hrs).
  replace (filter _ _) with (@nil SeatRow); [done|]. symmetry.
  apply filter_none. intros rs Hin Heq. destruct (Ho rs Hin) as [x Hx]. rewrite Heq in Hx. congruence.
Qed.

(** Reading the new reservation back gives the result of the hold. *)
Lemma hold_loads lim tx env p db r db' :
  createHoldTx lim tx env p db = Ok (r, db') -> hr_replayed r = false -> orphanFree (getLocal (tx_schema tx) db) ->
  hr_reservation r = new_reservation env /\
  loadCreateHoldResult tx (ch_user p) (hr_reservation r) db' = Ok (r, db').
Proof.
  intros H Hr Ho. destruct (createHoldTx_fresh _ _ _ _ _ _ _ H Hr) as (d1 & Hcore & _ & Hheld).
  destruct Hheld as (tr & mask & f & fare & total & alloc & _ & _ & _ & _ & Hown & _ & _ & _ & _ & Hal &
    _ & Hfresh & Hcore' & _ & _ & Hres).
  specialize (Hcore (tx_schema tx)). unfold core in Hcore, Hcore'. injection Hcore as _ Hr0 Hs0. rewrite Hr0, Hs0 in *.
  injection Hcore' as _ Hres' Hseats'. set (owned := ownedPassengerIDs _ _ _) in *.
  set (rows := seatRowsFor _ _ _ _ _ _ _ _) in *. assert (Hlo : length owned = length alloc) by lia.
  destruct (seatRowsFor_spec env (new_reservation env) (ch_run p) (tr_segment_count tr) alloc owned
    (varbitOfBits (EncodeSegmentMask mask)) fare Hlo) as [Hsr Hrr]. fold rows in Hsr, Hrr.
  pose proof (seatsOf_appended _ _ (new_reservation env) rows Ho Hfresh Hseats' (fun rs H => proj1 (Hrr rs H))) as Hof.
  subst r. cbn [hr_reservation]. split; [done|].
  unfold loadCreateHoldResult, bindM, getTables. rewrite Hres', lookup_insert_eq, Hof. cbn [r_user holdRow].
  rewrite bool_decide_eq_true_2 by done. cbn [negb]. unfold ret. do 3 f_equal.
  rewrite <- (length_map al_seat), <- Hsr, length_map. done.
Qed.


(** The example run before any hold. *)
Definition initializedDb : DB := (foldl execute (Example.store, Example.db0) (take 1 exampleCommands)).2.

Lemma initializedDb_catalogue : catalogueTyped (catalogue initializedDb).
Proof.
  assert (catalogue initializedDb = Example.cat) as -> by (vm_compute; reflexivity). split.
  - intros run tr H. unfold Example.cat in H. cbn [train_runs] in H.
    apply lookup_singleton_Some in H as [<- <-]. cbn. lia.
  - unfold Example.cat. cbn [fares]. intros f Hf. unfold in_int64, MinInt64, MaxInt64.
    repeat (apply elem_of_cons in Hf as [->|Hf]; [cbn; lia|]). by apply not_elem_of_nil in Hf.
Qed.

Lemma initializedDb_orphanFree : orphanFree (public initializedDb).
Proof.
  intros rs. assert (reservation_seats (public initializedDb) = []) as -> by (vm_compute; reflexivity).
  by intros ?%not_elem_of_nil.
Qed.

Definition okAnd {E A} (p : A -> bool) (r : res E A) : bool := match r with Ok a => p a | Err _ => false end.

Lemma okAnd_true {E A} (p : A -> bool) (r : res E A) : okAnd p r = true -> exists a, r = Ok a /\ p a = true.
Proof. destruct r as [a|]; [eauto|done]. Qed.

Lemma firstHold : exists r db',
  createHoldTx DefaultReservationQuotaLimits Begin (Example.env 100 1000%N) (Example.hold 5%N 0 2 [22%N; 21%N] 1)
    initializedDb = Ok (r, db') /\ hr_replayed r = false.
Proof.
  assert (H : okAnd (fun x : CreateHoldResult * DB => negb (hr_replayed x.1))
    (createHoldTx DefaultReservationQuotaLimits Begin (Example.env 100 1000%N) (Example.hold 5%N 0 2 [22%N; 21%N] 1)
       initializedDb) = true) by (vm_compute; reflexivity).
  apply okAnd_true in H as ([r db'] & E & Hr). exists r, db'. split; [exact E|]. by apply negb_true_iff.
Qed.

