(* ===== verification/BookingAllocation.v ===== *)
(** * Completeness of seat allocation

    [AllocateSeats] (store.go) refuses only when there are too few free
    seats: a specification of free seats that does not mention the query, and
    the proof that the query finds them all. *)

From S2P Require Import Prelude SegmentMask BookingDomain Sharding RouteCache BookingDb Occupancy Router BookingStore BookingInvariant.
From S2P Require Import BookingCommands.
Import ShardTypes.

(** A seat of the run and class that is in service, whose claimed segments
    are disjoint from the requested ones, and whose inventory row no other
    transaction holds. *)
Definition freeSeat (env : Env) (cat : Catalogue) (l : Local) (run : uuid) (class : string) (mask : varbit) (seat : uuid)
    : Prop :=
  exists si s c, inventory l !! (run, seat) = Some si /\ seats cat !! seat = Some s /\ coaches cat !! s_coach s = Some c /\
    si_class si = class /\ s_active s = true /\ length (si_occupied si) = length mask /\
    (forall i, bit (si_occupied si) i && bit mask i = false) /\ locked env run seat = false.

Lemma freeSeat_candidate env cat l run class mask seat :
  (0 < bit_count mask)%nat ->
  (freeSeat env cat l run class mask seat <->
   exists si a, inventory l !! (run, seat) = Some si /\ candidate env cat run class mask ((run, seat), si) = Some a).
Proof.
  intros Hpos. split.
  - intros (si & s & c & Hsi & Hs & Hc & Hcl & Hact & Hlen & Hdis & Hlock). exists si.
    eexists. split; [done|]. unfold candidate. rewrite Hs. cbn [mbind option_bind]. rewrite Hc. cbn [mbind option_bind].
    rewrite (bool_decide_eq_true_2 (run = run)), (bool_decide_eq_true_2 (si_class si = class)), Hact, Hlock by done.
    rewrite Hlen, Nat.eqb_refl, <- Hlen. rewrite (bool_decide_eq_true_2 (varbit_and _ _ = _)).
    + replace (0 <? Z.of_nat (bit_count mask)) with true by lia. reflexivity.
    + by apply varbit_disjoint_spec.
  - intros (si & a & Hsi & Hc). unfold candidate in Hc. destruct (seats cat !! seat) as [s|] eqn:Es; [|done].
    cbn [mbind option_bind] in Hc. destruct (coaches cat !! s_coach s) as [c|] eqn:Ec; [|done]. cbn [mbind option_bind] in Hc.
    exists si, s, c. destruct (_ && _) eqn:E; [|done]. rewrite !andb_true_iff in E.
    destruct E as [[[[_ H1%bool_decide_eq_true] H2] H3] H4%negb_true_iff].
    destruct (Nat.eqb _ _) eqn:El; [apply Nat.eqb_eq in El|done]. apply andb_true_iff in H3 as [_ H3%bool_decide_eq_true].
    split_and!; auto. by apply varbit_disjoint_spec.
Qed.

(** All the candidates before LIMIT. *)
Definition allCandidates (env : Env) (cat : Catalogue) (l : Local) (run : uuid) (class : string) (mask : varbit) :=
  omap (candidate env cat run class mask) (map_to_list (inventory l)).

Lemma candidate_seat env cat run class mask k si a :
  candidate env cat run class mask (k, si) = Some a -> k = (run, al_seat a).
Proof. by intros [-> _]%candidate_Some. Qed.

(** Distinct free seats are distinct candidates. *)
Lemma free_le_candidates env cat l run class mask ids :
  (0 < bit_count mask)%nat -> NoDup ids -> (forall s, s ∈ ids -> freeSeat env cat l run class mask s) ->
  (length ids <= length (allCandidates env cat l run class mask))%nat.
Proof.
  intros Hpos Hnd Hf. rewrite <- (length_map al_seat (allCandidates _ _ _ _ _ _)). apply submseteq_length.
  apply NoDup_submseteq; [done|]. intros s Hs. apply Hf in Hs. apply freeSeat_candidate in Hs as (si & a & Hsi & Hc); [|done].
  pose proof (candidate_seat _ _ _ _ _ _ _ _ Hc) as [= ->]. apply list_elem_of_fmap. exists a. split; [done|].
  apply list_elem_of_omap. exists ((run, al_seat a), si). split; [by apply elem_of_map_to_list|done].
Qed.

Definition allocationArgs (run : uuid) (seatClass : string) (requested : SegmentMask) (count : Z) : bool :=
  negb (isNil run || (count <=? 0) || (bitLength requested <=? 0) || negb (validSeatClass seatClass) || IsZero requested).

(** What the statement decides: whether there are [count] candidates. *)
Lemma AllocateSeats_decides tx env run class requested count db :
  allocationArgs run class requested count = true -> deadlocked env = false ->
  let l := getLocal (tx_schema tx) db in
  let n := length (allCandidates env (catalogue db) l run (toLower class) (varbitOfBits (EncodeSegmentMask requested))) in
  (count <= Z.of_nat n -> exists alloc db', AllocateSeats tx env run class requested count db = Ok (alloc, db')) /\
  (Z.of_nat n < count -> AllocateSeats tx env run class requested count db = Err ErrInsufficientInventory).
Proof.
  intros Hv Hd. cbv zeta. unfold allocationArgs in Hv. apply negb_true_iff in Hv. unfold AllocateSeats. rewrite Hv, Hd.
  assert (0 < count) by lia. unfold bindM, getCatalogue, getTables, putTables, ret. cbv zeta.
  set (cands := candidates _ _ _ _ _ _ _).
  assert (Hlen : length cands = (Z.to_nat count `min` length (allCandidates env (catalogue db) (getLocal (tx_schema tx) db) run
    (toLower class) (varbitOfBits (EncodeSegmentMask requested))))%nat).
  { unfold cands, candidates. rewrite length_take, length_sortBy. done. }
  split; intros Hn.
  - assert (Hfull : (Z.of_nat (length cands) =? count) = true) by lia. rewrite Hfull, length_sortBy, Hfull. cbn. eauto.
  - assert (Hfull : (Z.of_nat (length cands) =? count) = false) by lia. rewrite Hfull. cbn [length].
    replace (Z.of_nat 0 =? count) with false by lia. done.
Qed.

Lemma IsZero_bit m i : bit_at m i = true -> IsZero m = false.
Proof.
  intros Hb. destruct (IsZero m) eqn:E; [|done]. unfold IsZero in E. rewrite forallb_forall in E. unfold bit_at in Hb.
  destruct (nth_in_or_default (Z.to_nat (i / 8)) (bits m) 0) as [Hin|Hd].
  - apply E, Z.eqb_eq in Hin. rewrite Hin, Z.bits_0 in Hb. done.
  - rewrite Hd, Z.bits_0 in Hb. done.
Qed.

Lemma bit_count_pos v i : bit v i = true -> (0 < bit_count v)%nat.
Proof.
  intros Hb. unfold bit_count. assert (Hin : true ∈ filter (fun b => b = true) v).
  { apply list_elem_of_filter. split; [done|]. unfold bit in Hb. destruct (nth_in_or_default i v false) as [Hin|Hd].
    - rewrite Hb in Hin. by apply list_elem_of_In.
    - congruence. }
  destruct (filter _ v); [by apply not_elem_of_nil in Hin|cbn; lia].
Qed.

(** The allocated seats are candidates. *)
Lemma allocated_candidate tx env run class requested count db alloc db' s :
  AllocateSeats tx env run class requested count db = Ok (alloc, db') -> s ∈ map al_seat alloc ->
  exists si a, inventory (getLocal (tx_schema tx) db) !! (run, s) = Some si /\
    candidate env (catalogue db) run (toLower class) (varbitOfBits (EncodeSegmentMask requested)) ((run, s), si) = Some a.
Proof.
  unfold AllocateSeats. cbv zeta. intros [_ H]%stopif_Ok. apply stopif_Ok in H as [_ H].
  apply bindM_Ok in H as (cat & d1 & [= <- <-] & H). apply bindM_Ok in H as (l0 & d2 & [= <- <-] & H).
  apply bindM_Ok in H as (u & d3 & _ & H). apply stopif_Ok in H as [_ H]. injection H as <- _.
  destruct (Z.eqb _ _); [|by intros ?%not_elem_of_nil]. rewrite sortBy_Permutation.
  intros (a & -> & Ha)%list_elem_of_fmap. apply candidates_spec in Ha as (si & Hsi & Hc). eauto.
Qed.


