(* ===== verification/BookingIdempotency.v ===== *)
(** * Idempotent commands

    What the idempotency records promise to a client that retries: after a
    command has completed, a retry with the same key and the same request
    returns the stored result and changes nothing, and the same key with
    another request is refused.  Proved once for [AcquireIdempotency]
    (idempotency.go, idempotency_claims.go) and then for the commands of
    reservation_store.go. *)

From S2P Require Import Prelude SegmentMask BookingDomain Sharding RouteCache BookingDb Occupancy Router BookingStore BookingInvariant.
From S2P Require Import BookingCommands.
Import ShardTypes.

(** ** The record of a command *)

(** The transaction's record for [input], and the global claim that backs it
    when the transaction is routed. *)
Definition recorded (tx : Tx) (input : IdempotencyInput) (row : IdemRow) (db : DB) : Prop :=
  idempotency (getLocal (tx_schema tx) db) !! inputKey input = Some row /\
  ir_fingerprint row = in_fingerprint input /\
  match tx_route tx with
  | None => True
  | Some rt =>
      isNil (trainRunID rt) = false /\ ir_run row = Some (trainRunID rt) /\
      exists c, claims (control db) !! inputKey input = Some c /\ c_fingerprint c = in_fingerprint input /\
        c_run c = Some (trainRunID rt) /\ c_expires c = ir_expires row
  end.

Definition inputValid (input : IdempotencyInput) : bool :=
  negb (isNil (in_user input) || negb (validOperation (in_operation input)) ||
        negb (Z.of_nat (length (in_key input)) =? 32) || negb (Z.of_nat (length (in_fingerprint input)) =? 32) ||
        IsZeroTime (in_expires input)).

Lemma insertClaim_recorded run env input db e t db1 :
  insertAndLockClaim run env input db = Ok ((e, t), db1) ->
  t = clk_acquire env /\ clk_acquire env < e /\
  exists c, claims (control db1) !! inputKey input = Some c /\ c_fingerprint c = in_fingerprint input /\
    c_run c = Some run /\ c_expires c = e.
Proof.
  unfold insertAndLockClaim. intros (c & d2 & _ & H)%bindM_Ok. apply bindM_Ok in H as ([] & d3 & _ & H).
  apply bindM_Ok in H as (c' & d4 & [= <- <-] & H).
  destruct (claims (control d3) !! inputKey input) as [claim|] eqn:E; [|done]. destruct (c_run claim) eqn:Er; [|done].
  apply stopif_Ok in H as [H1%negb_false_iff%bool_decide_eq_true H].
  apply stopif_Ok in H as [H2%negb_false_iff%bool_decide_eq_true H].
  apply stopif_Ok in H as [H3%negb_false_iff H]. injection H as <- <- <-. unfold After in H3.
  split_and!; [done|lia|]. exists claim. naive_solver.
Qed.

Lemma claim_recorded rt env input db e t db1 :
  acquireGlobalIdempotencyClaim rt env input db = Ok ((e, t), db1) ->
  isNil (trainRunID rt) = false /\ t = clk_acquire env /\ clk_acquire env < e /\
  exists c, claims (control db1) !! inputKey input = Some c /\ c_fingerprint c = in_fingerprint input /\
    c_run c = Some (trainRunID rt) /\ c_expires c = e.
Proof.
  unfold acquireGlobalIdempotencyClaim. cbv zeta. intros [Hnil H]%stopif_Ok. split; [done|].
  apply bindM_Ok in H as (c & d2 & [= <- <-] & H).
  destruct (claims (control db) !! inputKey input) as [claim|] eqn:E; [|by apply insertClaim_recorded in H].
  destruct (After _ _) eqn:Ha.
  - apply stopif_Ok in H as [[H1%negb_false_iff%bool_decide_eq_true H2%negb_false_iff%bool_decide_eq_true]%orb_false_iff H].
    injection H as <- <- <-. unfold After in Ha. split_and!; [done|lia|]. exists claim. naive_solver.
  - apply stopif_Ok in H as [_ H]. apply bindM_Ok in H as ([] & d3 & _ & H). by apply insertClaim_recorded in H.
Qed.

(** What a successful acquisition leaves behind. *)
Lemma acquire_recorded tx env input db acq db1 :
  AcquireIdempotency tx env input db = Ok (acq, db1) ->
  inputValid input = true /\ exists row, recorded tx input row db1 /\ clk_acquire env < ir_expires row /\
    ir_id row = acq_record acq /\ ir_completed row = acq_replayed acq /\
    (acq_replayed acq = false -> tx_route tx = None -> ir_expires row = clk_acquire env + day) /\
    (acq_replayed acq = true -> ir_resource row = Some (acq_resource acq)).
Proof.
  unfold AcquireIdempotency. intros [Hv H]%stopif_Ok. split; [unfold inputValid; by rewrite Hv|].
  apply bindM_Ok in H as ([e t] & d1 & Hc & H).
  assert (Ht : t = clk_acquire env /\ clk_acquire env < e /\ (tx_route tx = None -> e = clk_acquire env + day) /\
    match tx_route tx with None => True | Some rt => isNil (trainRunID rt) = false /\
      exists c, claims (control d1) !! inputKey input = Some c /\ c_fingerprint c = in_fingerprint input /\
        c_run c = Some (trainRunID rt) /\ c_expires c = e end).
  { destruct (tx_route tx) as [rt|]; [apply claim_recorded in Hc; naive_solver|].
    injection Hc as <- <- <-. split_and!; auto. unfold day. lia. }
  destruct Ht as (-> & Hlt & Hday & Hclaim). clear Hc.
  apply bindM_Ok in H as (l & d2 & [= <- <-] & H). set (l := getLocal (tx_schema tx) d1) in *.
  destruct (upsertIdempotency tx env input e (clk_acquire env) l) as [l' ins] eqn:Hu.
  apply stopif_Ok in H as [_ H]. apply bindM_Ok in H as ([] & d3 & [= <-] & H).
  destruct (idempotency l' !! inputKey input) as [row|] eqn:Erow; [|done].
  apply stopif_Ok in H as [Hfp%negb_false_iff%bool_decide_eq_true H]. apply stopif_Ok in H as [Hrun H].
  assert (Hrow : clk_acquire env < ir_expires row /\ (ins = Some (ir_id row) -> ir_expires row = e)).
  { unfold upsertIdempotency in Hu. destruct (idempotency l !! inputKey input) as [old|] eqn:Eo.
    - destruct (Z.leb_spec (ir_expires old) (clk_acquire env)) as [Hle|Hle]; injection Hu as <- <-; cbn in Erow.
      + rewrite lookup_insert_eq in Erow. injection Erow as <-. auto.
      + split; [|done]. congruence.
    - injection Hu as <- <-. cbn in Erow. rewrite lookup_insert_eq in Erow. injection Erow as <-. auto. }
  destruct Hrow as [Hlate Hins].
  assert (Hrec : recorded tx input row (setLocal (tx_schema tx) l' d1)).
  { unfold recorded. rewrite getLocal_setLocal_eq. split_and!; [done..|].
    replace (control (setLocal (tx_schema tx) l' d1)) with (control d1) by (by destruct (tx_schema tx)).
    destruct (tx_route tx) as [rt|]; [|done].
    apply orb_false_iff in Hrun as [H1%negb_false_iff%bool_decide_eq_true H2%negb_false_iff].
    destruct Hclaim as (? & c & ? & ? & ? & ?). split_and!; auto. exists c. split_and!; auto. lia. }
  destruct (ir_completed row) eqn:Ecomp.
  - destruct (ir_resource row) as [id|] eqn:Eres; [|done]. apply stopif_Ok in H as [_ H]. injection H as <- <-.
    exists row. cbn. naive_solver.
  - apply stopif_Ok in H as [H1%negb_false_iff%bool_decide_eq_true H]. injection H as <- <-.
    exists row. cbn. split_and!; auto; [intros _ Hn; rewrite Hins by done; auto|done].
Qed.

(** A live completed record replays, and changes nothing. *)
Lemma recorded_replay tx env input row id db :
  recorded tx input row db -> inputValid input = true -> clk_acquire env < ir_expires row ->
  ir_completed row = true -> ir_resource row = Some id -> isNil id = false ->
  AcquireIdempotency tx env input db = Ok (mkAcquisition (ir_id row) true id, db).
Proof.
  intros (Hrow & Hfp & Hrt) Hv Hlt Hc Hr Hn. unfold AcquireIdempotency. unfold inputValid in Hv.
  apply negb_true_iff in Hv. rewrite Hv. unfold bindM at 1.
  assert (Hp : exists e, (match tx_route tx with
      | Some rt => acquireGlobalIdempotencyClaim rt env input
      | None => ret (clk_acquire env + day, clk_acquire env) end) db = Ok ((e, clk_acquire env), db) /\
      (tx_route tx <> None -> e = ir_expires row)).
  { destruct (tx_route tx) as [rt|]; [|by eexists]. destruct Hrt as (Hnil & _ & c & Hcl & Hcf & Hcr & Hce).
    exists (ir_expires row). split; [|done]. unfold acquireGlobalIdempotencyClaim. rewrite Hnil. cbv zeta.
    unfold bindM at 1, getControl at 1. rewrite Hcl, Hcf, Hcr, Hce. unfold After.
    replace (clk_acquire env <? ir_expires row) with true by lia. rewrite !bool_decide_eq_true_2 by done. reflexivity. }
  destruct Hp as (e & -> & He). unfold bindM at 1, getTables at 1. unfold upsertIdempotency. rewrite Hrow.
  replace (ir_expires row <=? clk_acquire env) with false by lia.
  rewrite bool_decide_eq_false_2 by (by intros []). cbn [andb]. unfold bindM, putTables. rewrite setLocal_getLocal, Hrow.
  rewrite Hfp, (bool_decide_eq_true_2 (in_fingerprint _ = _)) by done. cbn [negb].
  destruct (tx_route tx) as [rt|].
  - rewrite He by done. destruct Hrt as (_ & -> & _). rewrite bool_decide_eq_true_2, Z.eqb_refl by done. cbn [negb orb].
    by rewrite Hc, Hr, Hn.
  - by rewrite Hc, Hr, Hn.
Qed.

(** The same key with another request is refused while the record lives. *)
Lemma recorded_conflict tx env input input' row db :
  recorded tx input row db -> inputValid input' = true -> inputKey input' = inputKey input ->
  in_fingerprint input' <> in_fingerprint input -> clk_acquire env < ir_expires row ->
  AcquireIdempotency tx env input' db = Err ErrIdempotencyConflict.
Proof.
  intros (Hrow & Hfp & Hrt) Hv Hk Hne Hlt. unfold AcquireIdempotency. unfold inputValid in Hv.
  apply negb_true_iff in Hv. rewrite Hv. rewrite Hk. destruct (tx_route tx) as [rt|] eqn:Ert.
  - destruct Hrt as (Hnil & _ & c & Hcl & Hcf & Hcr & Hce). unfold bindM at 1, acquireGlobalIdempotencyClaim.
    rewrite Hnil, Hk. cbv zeta. unfold bindM at 1, getControl at 1. rewrite Hcl, Hce, Hcf. unfold After.
    replace (clk_acquire env <? ir_expires row) with true by lia. rewrite bool_decide_eq_false_2 by done. reflexivity.
  - unfold bindM at 1, ret at 1. unfold bindM at 1, getTables at 1. unfold upsertIdempotency. rewrite Hk, Hrow.
    replace (ir_expires row <=? clk_acquire env) with false by lia.
    rewrite bool_decide_eq_false_2 by (by intros []). cbn [andb]. unfold bindM, putTables. rewrite setLocal_getLocal, Hrow.
    rewrite Hfp, bool_decide_eq_false_2 by congruence. reflexivity.
Qed.

(** ** Frames of the idempotency tables *)
Definition idemView (s : Schema) (db : DB) := (idempotency (getLocal s db), claims (control db)).

Create HintDb idem discriminated.

(** Run a short step and look at the tables. *)
Ltac runStep tx :=
  let db := fresh "db" in let a := fresh "a" in let db' := fresh "db'" in let H := fresh "H" in
  intros db a db' H; unfold bindM, getTables, putTables, getControl, putControl, getCatalogue, appendOutbox, ret, fail in H;
  repeat case_match; simplify_eq; unfold idemView; destruct (tx_schema tx); reflexivity.

Section Frames.
Context (tx : Tx).
Abbreviation keepsIdem := (keepsObs (idemView (tx_schema tx))).

Lemma idem_Commit env : keepsIdem (Commit tx env).
Proof. unfold Commit. keepsObs. Qed.
Lemma idem_event env id ty pl : keepsIdem (appendReservationEvent tx env id ty pl).
Proof. unfold appendReservationEvent. runStep tx. Qed.
Lemma idem_ticketEvent env id pl : keepsIdem (appendTicketEvent tx env id pl).
Proof. unfold appendTicketEvent. runStep tx. Qed.
Lemma idem_recheck run cl d : keepsIdem (recheckAdmissionPolicy run cl d).
Proof. unfold recheckAdmissionPolicy. keepsObs. Qed.
Lemma idem_enforce u r n lim : keepsIdem (enforceReservationQuota tx u r n lim).
Proof. unfold enforceReservationQuota, quotaCounts. keepsObs. Qed.
Lemma idem_ensure run ids : keepsIdem (ensurePassengersAvailable tx run ids).
Proof. unfold ensurePassengersAvailable. keepsObs. Qed.
Lemma idem_insertReservation id r : keepsIdem (insertReservation tx id r).
Proof. unfold insertReservation. runStep tx. Qed.
Lemma idem_insertSeatRows rows : keepsIdem (insertSeatRows tx rows).
Proof.
  induction rows as [|row rows IH]; cbn [insertSeatRows]; [apply keepsObs_ret|].
  apply keepsObs_bind; [|done]. unfold insertSeatRow. runStep tx.
Qed.
Lemma idem_allocate env run cl mask n : keepsIdem (AllocateSeats tx env run cl mask n).
Proof. intros db a db' H. apply AllocateSeats_Ok in H as (-> & _). unfold idemView. by destruct (tx_schema tx). Qed.
Lemma idem_quotaClaim a b c n : keepsIdem (insertReservationQuotaClaim tx a b c n).
Proof. unfold insertReservationQuotaClaim. runStep tx. Qed.
Lemma idem_closeClaim a : keepsIdem (closeReservationQuotaClaim tx a).
Proof. unfold closeReservationQuotaClaim. runStep tx. Qed.
Lemma idem_locator a b : keepsIdem (insertReservationLocator tx a b).
Proof. unfold insertReservationLocator. runStep tx. Qed.
Lemma idem_orderLocator a b c d e f g : keepsIdem (insertTicketOrderLocator tx a b c d e f g).
Proof. unfold insertTicketOrderLocator. runStep tx. Qed.
Lemma idem_ticketLocator a b c d : keepsIdem (insertTicketLocator tx a b c d).
Proof. unfold insertTicketLocator. runStep tx. Qed.
Lemma idem_updateLocator a b : keepsIdem (updateTicketOrderLocatorStatus tx a b).
Proof. unfold updateTicketOrderLocatorStatus. runStep tx. Qed.
Lemma idem_recordWrite : keepsIdem (recordSuccessfulGenerationWrite tx).
Proof. unfold recordSuccessfulGenerationWrite. cbv zeta. runStep tx. Qed.
Lemma idem_lockOwned a b : keepsIdem (lockOwnedReservation tx a b).
Proof. unfold lockOwnedReservation. keepsObs. Qed.
Lemma idem_loadConfirmation a b : keepsIdem (loadConfirmationResult tx a b).
Proof. unfold loadConfirmationResult. keepsObs. Qed.
Lemma idem_updateStatus id ok s : keepsIdem (updateStatus tx id ok s).
Proof. unfold updateStatus. runStep tx. Qed.
Lemma idem_insertOrder id row : keepsIdem (insertOrder tx id row).
Proof. unfold insertOrder. runStep tx. Qed.
Lemma idem_insertTicket row : keepsIdem (insertTicket tx row).
Proof. unfold insertTicket. runStep tx. Qed.
Lemma idem_cancelTickets id : keepsIdem (cancelTickets tx id).
Proof. unfold cancelTickets. cbv zeta. runStep tx. Qed.
Lemma idem_release id : keepsIdem (releaseReservationSeats tx id).
Proof. unfold releaseReservationSeats. cbv zeta. runStep tx. Qed.
End Frames.
#[export] Hint Resolve idem_Commit idem_event idem_ticketEvent idem_recheck idem_enforce idem_ensure idem_insertReservation
  idem_insertSeatRows idem_allocate idem_quotaClaim idem_closeClaim idem_locator idem_orderLocator idem_ticketLocator
  idem_updateLocator idem_recordWrite idem_lockOwned idem_loadConfirmation idem_updateStatus idem_insertOrder
  idem_insertTicket idem_cancelTickets idem_release keepsObs_ret keepsObs_fail keepsObs_getTables keepsObs_getControl
  keepsObs_getCatalogue : idem.

Ltac keepsIdem :=
  repeat first [solve [auto with idem] | apply keepsObs_bind; [|intros ?]
    | match goal with |- keepsObs _ (match ?x with _ => _ end) => destruct x end].

Lemma idem_issueTickets tx env i o r u rows : keepsObs (idemView (tx_schema tx)) (issueTickets tx env i o r u rows).
Proof. revert i. induction rows as [|row rows IH]; intros i; simpl; keepsIdem. Qed.
#[export] Hint Resolve idem_issueTickets : idem.

(** ** Completing the record *)

(** When [m] succeeds, the pending record [rec] is completed with [id]. *)
Definition settles {A} (tx : Tx) (rec id : uuid) (m : M A) : Prop :=
  forall db a db' input row, m db = Ok (a, db') -> recorded tx input row db -> ir_id row = rec -> ir_completed row = false ->
  isNil id = false /\
  exists row', recorded tx input row' db' /\ ir_completed row' = true /\ ir_resource row' = Some id /\
    ir_expires row' = ir_expires row.

Lemma recorded_view tx input row db db' :
  idemView (tx_schema tx) db' = idemView (tx_schema tx) db -> recorded tx input row db -> recorded tx input row db'.
Proof. unfold idemView, recorded. by intros [= -> ->]. Qed.

Lemma settles_skip {A B} tx rec id (m : M A) (k : A -> M B) :
  keepsObs (idemView (tx_schema tx)) m -> (forall a, settles tx rec id (k a)) -> settles tx rec id (bindM m k).
Proof.
  intros Hm Hk db b db'' input row (a & db' & H1 & H2)%bindM_Ok Hr. eapply (Hk a _ _ _ _ _ H2), recorded_view, Hr.
  by apply (Hm _ _ _ H1).
Qed.

Lemma settles_fail {A} tx rec id e : settles tx rec id (@fail A e).
Proof. intros db a db' input row [=]. Qed.

Lemma settles_here {B} tx rec id (k : unit -> M B) :
  (forall a, keepsObs (idemView (tx_schema tx)) (k a)) -> settles tx rec id (bindM (CompleteIdempotency tx rec id) k).
Proof.
  intros Hk db b db'' input row (u & db' & H1 & H2)%bindM_Ok Hr Hid Hc. unfold CompleteIdempotency in H1.
  apply stopif_Ok in H1 as [[_ Hn]%orb_false_iff H1]. split; [done|].
  apply bindM_Ok in H1 as (l & d & [= <- <-] & H1). apply stopif_Ok in H1 as [_ H1]. injection H1 as _ <-.
  exists (mkIdemRow (ir_id row) (ir_fingerprint row) true (Some id) (ir_expires row) (ir_run row)).
  split; [|by cbn]. eapply recorded_view; [by apply (Hk u _ _ _ H2)|]. destruct Hr as (Hrow & Hfp & Hrt).
  unfold recorded. rewrite getLocal_setLocal_eq. cbn [idempotency withIdempotency ir_fingerprint ir_run ir_expires].
  rewrite lookup_fmap, Hrow. cbn [fmap option_fmap option_map]. unfold completable.
  rewrite bool_decide_eq_true_2, Hc by done. cbn [andb negb].
  replace (control (setLocal _ _ db)) with (control db) by (by destruct (tx_schema tx)). done.
Qed.

Ltac settles :=
  repeat first [apply settles_fail | apply settles_here; intros ?; solve [keepsIdem]
    | apply settles_skip; [solve [keepsIdem]|intros ?]
    | match goal with |- settles _ _ _ (match ?x with _ => _ end) => destruct x end].

Lemma settles_createOwnedHold lim tx env p ids cl rec :
  settles tx rec (new_reservation env) (createOwnedHold lim tx env p ids cl rec).
Proof. unfold createOwnedHold. cbv zeta. settles. Qed.

(** ** Retrying the commands *)


