(* ===== verification/BookingTickets.v ===== *)
(** * Orders and tickets

    What confirmation and cancellation do to the orders and tickets of a
    reservation, and the invariant that ties them to it: a confirmed
    reservation has exactly one order of the reservation's total with exactly
    one active ticket per seat, and no ticket is active otherwise. *)

From S2P Require Import Prelude SegmentMask BookingDomain Sharding RouteCache BookingDb Occupancy Router BookingStore BookingInvariant.
From S2P Require Import BookingCommands BookingIdempotency.
Import ShardTypes.

(** ** Frames of the order and ticket tables *)
Definition tk (l : Local) := (ticket_orders l, tickets l).
Definition tkView (db : DB) := (tk (public db), tk (booking_shard_0 db), tk (booking_shard_1 db)).

Create HintDb tk discriminated.

(** Run a short step and look at the tables. *)
Ltac tkStep tx :=
  let db := fresh "db" in let a := fresh "a" in let db' := fresh "db'" in let H := fresh "H" in
  intros db a db' H; unfold bindM, getTables, putTables, getControl, putControl, getCatalogue, appendOutbox, ret, fail in H;
  repeat case_match; simplify_eq; unfold tkView; destruct (tx_schema tx); reflexivity.

Lemma tk_retire ids : keepsObs tkView (retireExpiredIdempotencyClaims ids).
Proof.
  intros db a db' H. unfold retireExpiredIdempotencyClaims in H.
  destruct (Nat.eqb (length ids) 0); [by injection H as <- <-|].
  apply failif_Ok in H as [_ H]. apply failif_Ok in H as [_ H]. injection H as <- <-. done.
Qed.
Lemma tk_putControl c : keepsObs tkView (putControl c).
Proof. by intros db a db' [= _ <-]. Qed.

Lemma tkView_getLocal s db db' : tkView db' = tkView db -> tk (getLocal s db') = tk (getLocal s db).
Proof. unfold tkView. intros [= ? ? ? ? ? ?]. unfold tk. destruct s; cbn; congruence. Qed.

Lemma tkView_setLocal s l db : tk l = tk (getLocal s db) -> tkView (setLocal s l db) = tkView db.
Proof. unfold tkView. by destruct s; cbn; intros ->. Qed.

Section Frames.
Context (tx : Tx).

Lemma tk_acquire env input : keepsObs tkView (AcquireIdempotency tx env input).
Proof.
  unfold AcquireIdempotency. destruct (_ || _); [apply keepsObs_fail|]. apply keepsObs_bind.
  { destruct (tx_route tx); [|apply keepsObs_ret]. pose proof tk_retire. pose proof tk_putControl.
    unfold acquireGlobalIdempotencyClaim, insertAndLockClaim. keepsObs. }
  intros [ex acq] db b db'' (l & d & [= <- <-] & H)%bindM_Ok.
  assert (Hu : tk (upsertIdempotency tx env input ex acq (getLocal (tx_schema tx) db)).1 = tk (getLocal (tx_schema tx) db)).
  { unfold upsertIdempotency. destruct (idempotency _ !! _) as [old|]; [destruct (_ <=? _)|]; done. }
  destruct (upsertIdempotency _ _ _ _ _ _) as [l' ins]. cbn [fst] in Hu. apply stopif_Ok in H as [_ H].
  apply bindM_Ok in H as (u & d1 & [= _ <-] & H).
  assert (Hk : db'' = setLocal (tx_schema tx) l' db); [|subst; by apply tkView_setLocal].
  destruct (idempotency l' !! inputKey input) as [row|]; [|done].
  apply stopif_Ok in H as [_ H]. apply stopif_Ok in H as [_ H].
  destruct (ir_completed row); [destruct (ir_resource row); [|done]|];
    apply stopif_Ok in H as [_ H]; by injection H as _ <-.
Qed.
Lemma tk_complete a b : keepsObs tkView (CompleteIdempotency tx a b).
Proof. unfold CompleteIdempotency. cbv zeta. tkStep tx. Qed.
Lemma tk_Commit env : keepsObs tkView (Commit tx env).
Proof. unfold Commit. keepsObs. Qed.
Lemma tk_event env id ty pl : keepsObs tkView (appendReservationEvent tx env id ty pl).
Proof. unfold appendReservationEvent. tkStep tx. Qed.
Lemma tk_ticketEvent env id pl : keepsObs tkView (appendTicketEvent tx env id pl).
Proof. unfold appendTicketEvent. tkStep tx. Qed.
Lemma tk_recheck run cl d : keepsObs tkView (recheckAdmissionPolicy run cl d).
Proof. unfold recheckAdmissionPolicy. keepsObs. Qed.
Lemma tk_enforce u r n lim : keepsObs tkView (enforceReservationQuota tx u r n lim).
Proof. unfold enforceReservationQuota, quotaCounts. keepsObs. Qed.
Lemma tk_ensure run ids : keepsObs tkView (ensurePassengersAvailable tx run ids).
Proof. unfold ensurePassengersAvailable. keepsObs. Qed.
Lemma tk_insertReservation id r : keepsObs tkView (insertReservation tx id r).
Proof. unfold insertReservation. tkStep tx. Qed.
Lemma tk_insertSeatRows rows : keepsObs tkView (insertSeatRows tx rows).
Proof.
  induction rows as [|row rows IH]; cbn [insertSeatRows]; [apply keepsObs_ret|].
  apply keepsObs_bind; [|done]. unfold insertSeatRow. tkStep tx.
Qed.
Lemma tk_allocate env run cl mask n : keepsObs tkView (AllocateSeats tx env run cl mask n).
Proof. intros db a db' H. apply AllocateSeats_Ok in H as (-> & _). by apply tkView_setLocal. Qed.
Lemma tk_quotaClaim a b c n : keepsObs tkView (insertReservationQuotaClaim tx a b c n).
Proof. unfold insertReservationQuotaClaim. tkStep tx. Qed.
Lemma tk_closeClaim a : keepsObs tkView (closeReservationQuotaClaim tx a).
Proof. unfold closeReservationQuotaClaim. tkStep tx. Qed.
Lemma tk_locator a b : keepsObs tkView (insertReservationLocator tx a b).
Proof. unfold insertReservationLocator. tkStep tx. Qed.
Lemma tk_orderLocator a b c d e f g : keepsObs tkView (insertTicketOrderLocator tx a b c d e f g).
Proof. unfold insertTicketOrderLocator. tkStep tx. Qed.
Lemma tk_ticketLocator a b c d : keepsObs tkView (insertTicketLocator tx a b c d).
Proof. unfold insertTicketLocator. tkStep tx. Qed.
Lemma tk_updateLocator a b : keepsObs tkView (updateTicketOrderLocatorStatus tx a b).
Proof. unfold updateTicketOrderLocatorStatus. tkStep tx. Qed.
Lemma tk_recordWrite : keepsObs tkView (recordSuccessfulGenerationWrite tx).
Proof. unfold recordSuccessfulGenerationWrite. cbv zeta. tkStep tx. Qed.
Lemma tk_lockOwned a b : keepsObs tkView (lockOwnedReservation tx a b).
Proof. unfold lockOwnedReservation. keepsObs. Qed.
Lemma tk_loads a b : keepsObs tkView (loadCreateHoldResult tx a b) /\ keepsObs tkView (loadConfirmationResult tx a b) /\
  keepsObs tkView (loadCancellationResult tx a b).
Proof. unfold loadCreateHoldResult, loadConfirmationResult, loadCancellationResult. split_and!; keepsObs. Qed.
Lemma tk_updateStatus id ok s : keepsObs tkView (updateStatus tx id ok s).
Proof. unfold updateStatus. tkStep tx. Qed.
Lemma tk_release id : keepsObs tkView (releaseReservationSeats tx id).
Proof. unfold releaseReservationSeats. cbv zeta. tkStep tx. Qed.
End Frames.

Lemma tk_loadHold tx a b : keepsObs tkView (loadCreateHoldResult tx a b).
Proof. apply tk_loads. Qed.
Lemma tk_loadConfirmation tx a b : keepsObs tkView (loadConfirmationResult tx a b).
Proof. apply tk_loads. Qed.
Lemma tk_loadCancellation tx a b : keepsObs tkView (loadCancellationResult tx a b).
Proof. apply tk_loads. Qed.

#[export] Hint Resolve tk_acquire tk_complete tk_Commit tk_event tk_ticketEvent tk_recheck tk_enforce tk_ensure
  tk_insertReservation tk_insertSeatRows tk_allocate tk_quotaClaim tk_closeClaim tk_locator tk_orderLocator tk_ticketLocator
  tk_updateLocator tk_recordWrite tk_lockOwned tk_loadHold tk_loadConfirmation tk_loadCancellation tk_updateStatus tk_release
  tk_retire keepsObs_ret keepsObs_fail keepsObs_getTables keepsObs_getControl keepsObs_getCatalogue : tk.

Ltac keepsTk :=
  repeat first [solve [auto with tk] | apply keepsObs_bind; [|intros ?]
    | match goal with |- keepsObs _ (match ?x with _ => _ end) => destruct x end].

Lemma tk_createHoldTx lim tx env p : keepsObs tkView (createHoldTx lim tx env p).
Proof. unfold createHoldTx, createOwnedHold. cbv zeta. keepsTk. Qed.
Lemma tk_expireTx tx env id : keepsObs tkView (expireTx tx env id).
Proof. unfold expireTx. keepsTk. Qed.
Lemma tk_expireLocatedTx tx env id : keepsObs tkView (expireLocatedTx tx env id).
Proof. unfold expireLocatedTx. keepsTk. Qed.
Lemma tk_initializeTx tx env run : keepsObs tkView (initializeTx tx env run).
Proof. unfold initializeTx. apply keepsObs_bind; [|intros n; keepsTk]. unfold InitializeInventory. tkStep tx. Qed.

(** ** The invariant *)
Definition tview (l : Local) := (reservations l, reservation_seats l, ticket_orders l, tickets l).

Record ticketed (l : Local) : Prop := {
  (** a confirmed reservation: one confirmed order of its total, an active
      ticket per seat *)
  tk_confirmed : forall id r, reservations l !! id = Some r -> r_status r = Confirmed ->
    exists oid o, ticket_orders l !! oid = Some o /\ o_reservation o = id /\ o_user o = r_user r /\ o_confirmed o = true /\
      o_total o = r_total r /\ o_currency o = r_currency r /\
      map t_seat_row (ticketsOf l oid) ≡ₚ map rs_id (seatsOf l id) /\
      (forall t, t ∈ ticketsOf l oid -> t_active t = true);
  (** an active ticket: its order is the order of a confirmed reservation *)
  tk_active : forall t, t ∈ tickets l -> t_active t = true ->
    exists o r, ticket_orders l !! t_order t = Some o /\ reservations l !! o_reservation o = Some r /\ r_status r = Confirmed;
  (** foreign keys and the unique reservation_id *)
  tk_order : forall t, t ∈ tickets l -> is_Some (ticket_orders l !! t_order t);
  tk_one : forall i j a b, ticket_orders l !! i = Some a -> ticket_orders l !! j = Some b ->
    o_reservation a = o_reservation b -> i = j;
  tk_parent : orphanFree l
}.

Lemma ticketed_view l l' : tview l' = tview l -> ticketed l -> ticketed l'.
Proof.
  unfold tview. destruct l, l'; simpl. intros [= -> -> -> ->] []. constructor; simpl in *; auto.
Qed.

Lemma ticketed_hold l l' id row rows :
  ticketed l -> reservations l !! id = None -> r_status row = Held -> (forall rs, rs ∈ rows -> rs_reservation rs = id) ->
  tview l' = (<[id := row]> (reservations l), reservation_seats l ++ rows, ticket_orders l, tickets l) -> ticketed l'.
Proof.
  intros [H1 H2 H3 H4 H5] Hf Hst Hrows. unfold tview. intros [= Hr Hs Ho Ht]. constructor.
  - intros id' r'. rewrite Hr. intros [[<- <-]|[Hne Hr']]%lookup_insert_Some Hc; [congruence|].
    destruct (H1 id' r' Hr' Hc) as (oid & o & ? & ? & ? & ? & ? & ? & Hp & Ha). exists oid, o.
    assert (Hto : ticketsOf l' oid = ticketsOf l oid) by (unfold ticketsOf; by rewrite Ht).
    assert (Hso : seatsOf l' id' = seatsOf l id').
    { unfold seatsOf. rewrite Hs, filter_app, (filter_none _ rows); [by rewrite app_nil_r|].
      intros rs Hin Heq. apply Hne. by rewrite <- (Hrows rs Hin). }
    rewrite Ho, Hto, Hso. split_and!; auto.
  - intros t. rewrite Ht, Ho, Hr. intros Hin Hact. destruct (H2 t Hin Hact) as (o & r & ? & Hr' & ?). exists o, r.
    split_and!; auto. rewrite lookup_insert_ne; [done|]. intros ->. congruence.
  - intros t. rewrite Ht, Ho. apply H3.
  - rewrite Ho. apply H4.
  - intros rs. rewrite Hs, Hr. intros [Hin|Hin]%elem_of_app.
    + destruct (H5 rs Hin) as [x Hx]. rewrite lookup_insert_ne; [eauto|]. intros Heq. rewrite <- Heq in Hx. congruence.
    + rewrite (Hrows rs Hin), lookup_insert_eq. eauto.
Qed.

Lemma orphanFree_update l l' id r r' :
  orphanFree l -> reservations l !! id = Some r -> reservations l' = <[id := r']> (reservations l) ->
  reservation_seats l' = reservation_seats l -> orphanFree l'.
Proof.
  intros Ho Hr Hr' Hs rs. rewrite Hs, Hr'. intros Hin. destruct (decide (rs_reservation rs = id)) as [->|].
  - rewrite lookup_insert_eq. eauto.
  - rewrite lookup_insert_ne by done. by apply Ho.
Qed.

(** A held reservation that ends without being confirmed. *)
Lemma ticketed_dropped l l' id r s :
  ticketed l -> reservations l !! id = Some r -> r_status r = Held -> s <> Confirmed ->
  tview l' = (<[id := setReservationStatus r s]> (reservations l), reservation_seats l, ticket_orders l, tickets l) ->
  ticketed l'.
Proof.
  intros [H1 H2 H3 H4 H5] Hid Hst Hs'. unfold tview. intros [= Hr Hs Ho Ht]. constructor.
  - intros id' r'. rewrite Hr. intros [[<- <-]|[Hne Hr']]%lookup_insert_Some Hc; [by simpl in Hc|].
    destruct (H1 id' r' Hr' Hc) as (oid & o & ? & ? & ? & ? & ? & ? & Hp & Ha). exists oid, o.
    unfold ticketsOf, seatsOf in *. rewrite Ho, Ht, Hs. split_and!; auto.
  - intros t. rewrite Ht, Ho, Hr. intros Hin Hact. destruct (H2 t Hin Hact) as (o & r0 & ? & Hr' & ?). exists o, r0.
    split_and!; auto. rewrite lookup_insert_ne; [done|]. intros ->. congruence.
  - intros t. rewrite Ht, Ho. apply H3.
  - rewrite Ho. apply H4.
  - by eapply orphanFree_update.
Qed.

Lemma orderOf_None l id : orderOf l id = None -> forall oid o, ticket_orders l !! oid = Some o -> o_reservation o <> id.
Proof.
  unfold orderOf. intros H oid o Ho Heq. pose proof (List.find_none _ _ H (oid, o)) as Hn.
  cbn [snd] in Hn. rewrite bool_decide_eq_true_2 in Hn by done.
  by discriminate Hn; apply list_elem_of_In, elem_of_map_to_list.
Qed.

Lemma orderOf_Some l id oid o : orderOf l id = Some (oid, o) -> ticket_orders l !! oid = Some o /\ o_reservation o = id.
Proof.
  unfold orderOf. intros [Hin%list_elem_of_In%elem_of_map_to_list Hb%bool_decide_eq_true]%find_some. done.
Qed.

(** Confirmation: the order and one ticket per seat. *)
Lemma ticketed_confirmed l l' id r oid o ts :
  ticketed l -> reservations l !! id = Some r -> r_status r = Held ->
  ticket_orders l !! oid = None -> orderOf l id = None ->
  o_reservation o = id -> o_user o = r_user r -> o_confirmed o = true -> o_total o = r_total r -> o_currency o = r_currency r ->
  (forall t, t ∈ ts -> t_order t = oid /\ t_active t = true) -> map t_seat_row ts ≡ₚ map rs_id (seatsOf l id) ->
  tview l' = (<[id := setReservationStatus r Confirmed]> (reservations l), reservation_seats l,
              <[oid := o]> (ticket_orders l), tickets l ++ ts) ->
  ticketed l'.
Proof.
  intros [H1 H2 H3 H4 H5] Hid Hst Hfo Hno Ho1 Ho2 Ho3 Ho4 Ho5 Hts Hperm. unfold tview. intros [= Hr Hs Ho Ht].
  assert (Hso : forall x, seatsOf l' x = seatsOf l x) by (intros x; unfold seatsOf; by rewrite Hs).
  assert (Hnew : ticketsOf l' oid = ts).
  { unfold ticketsOf. rewrite Ht, filter_app, (filter_all _ ts), (filter_none _ (tickets l)); [done| |].
    - intros t Hin <-. destruct (H3 t Hin) as [x Hx]. congruence.
    - intros t Hin. by apply Hts in Hin as [-> _]. }
  assert (Hold : forall x, x <> oid -> ticketsOf l' x = ticketsOf l x).
  { intros x Hx. unfold ticketsOf. rewrite Ht, filter_app, (filter_none _ ts); [by rewrite app_nil_r|].
    intros t Hin <-. apply Hts in Hin as [? _]. done. }
  constructor.
  - intros id' r'. rewrite Hr. intros [[<- <-]|[Hne Hr']]%lookup_insert_Some Hc.
    + exists oid, o. rewrite Ho, lookup_insert_eq, Hnew, Hso. split_and!; auto. intros t Hin. by apply Hts in Hin as [_ ?].
    + destruct (H1 id' r' Hr' Hc) as (x & ox & Hox & ? & ? & ? & ? & ? & Hp & Ha). exists x, ox.
      assert (x <> oid) by (intros ->; congruence).
      rewrite Ho, lookup_insert_ne, Hold, Hso by done. split_and!; auto.
  - intros t. rewrite Ht, Ho, Hr. intros [Hin|Hin]%elem_of_app Hact.
    + destruct (H2 t Hin Hact) as (ot & rt & Hot & Hrt & Hc). exists ot, rt. destruct (H3 t Hin) as [x Hx].
      rewrite !lookup_insert_ne; [done| |]; intros ->; congruence.
    + apply Hts in Hin as [-> _]. exists o, (setReservationStatus r Confirmed).
      by rewrite lookup_insert_eq, Ho1, lookup_insert_eq.
  - intros t. rewrite Ht, Ho. intros [Hin|Hin]%elem_of_app.
    + destruct (H3 t Hin) as [x Hx]. rewrite lookup_insert_ne; [eauto|]. intros ->. congruence.
    + apply Hts in Hin as [-> _]. rewrite lookup_insert_eq. eauto.
  - intros i j a b. rewrite Ho. pose proof (orderOf_None _ _ Hno) as Hn.
    intros [[<- <-]|[Hi Ha]]%lookup_insert_Some [[<- <-]|[Hj Hb]]%lookup_insert_Some Heq; auto.
    + exfalso. eapply Hn; [exact Hb|congruence].
    + exfalso. eapply Hn; [exact Ha|congruence].
    + eapply H4; eauto.
  - by eapply orphanFree_update.
Qed.

Lemma filter_map_order order oid ts :
  filter (fun t => t_order t = oid) (map (cancelTicketRow order) ts) =
  map (cancelTicketRow order) (filter (fun t => t_order t = oid) ts).
Proof.
  induction ts as [|t ts IH]; [done|]. cbn [map]. rewrite !filter_cons, IH.
  assert (t_order (cancelTicketRow order t) = t_order t) as -> by (unfold cancelTicketRow; by case_bool_decide).
  by case_decide.
Qed.

Lemma cancelTicketRow_fixed order ts :
  (forall t, t ∈ ts -> Some (t_order t) <> order) -> map (cancelTicketRow order) ts = ts.
Proof.
  induction ts as [|t ts IH]; intros H; [done|]. cbn [map]. rewrite IH by (intros; apply H; by right).
  f_equal. unfold cancelTicketRow. rewrite bool_decide_eq_false_2; [done|]. intros Heq. by apply (H t ltac:(by left)).
Qed.

(** Cancellation of a confirmed reservation: its order and tickets end with
    it. *)
Lemma ticketed_cancelled l l' id r :
  ticketed l -> reservations l !! id = Some r -> r_status r = Confirmed ->
  let orders := cancelOrderRow id <$> ticket_orders l in
  tview l' = (<[id := setReservationStatus r Cancelled]> (reservations l), reservation_seats l, orders,
              map (cancelTicketRow (fst <$> orderOf (withTicketOrders l orders) id)) (tickets l)) ->
  ticketed l'.
Proof.
  intros [H1 H2 H3 H4 H5] Hid Hst orders. unfold tview. intros [= Hr Hs Ho Ht].
  destruct (H1 id r Hid Hst) as (oid & o & Hoo & Hor & _).
  assert (Hof : fst <$> orderOf (withTicketOrders l orders) id = Some oid).
  { destruct (orderOf _ id) as [[oid' o']|] eqn:E.
    - apply orderOf_Some in E as [E1 E2]. cbn in E1. unfold orders in E1. rewrite lookup_fmap in E1.
      destruct (ticket_orders l !! oid') as [o1|] eqn:E1'; [|done]. injection E1 as <-. cbn. f_equal.
      eapply H4; [exact E1'|exact Hoo|]. unfold cancelOrderRow in E2. case_bool_decide; simpl in *; congruence.
    - exfalso. eapply (orderOf_None _ _ E oid (cancelOrderRow id o)).
      + cbn. unfold orders. by rewrite lookup_fmap, Hoo.
      + unfold cancelOrderRow. by case_bool_decide. }
  rewrite Hof in Ht. constructor.
  - intros id' r'. rewrite Hr. intros [[<- <-]|[Hne Hr']]%lookup_insert_Some Hc; [done|].
    destruct (H1 id' r' Hr' Hc) as (x & ox & Hox & Hxr & ? & ? & ? & ? & Hp & Ha). exists x, (cancelOrderRow id ox).
    assert (Hxo : x <> oid) by (intros ->; congruence).
    assert (cancelOrderRow id ox = ox) as -> by (unfold cancelOrderRow; rewrite bool_decide_eq_false_2; congruence).
    assert (Hto : ticketsOf l' x = ticketsOf l x).
    { unfold ticketsOf. rewrite Ht, filter_map_order. apply cancelTicketRow_fixed.
      intros t [<- _]%list_elem_of_filter. congruence. }
    assert (Hso : seatsOf l' id' = seatsOf l id') by (unfold seatsOf; by rewrite Hs).
    rewrite Ho, Hto, Hso. unfold orders. rewrite lookup_fmap, Hox. cbn.
    assert (cancelOrderRow id ox = ox) as -> by (unfold cancelOrderRow; rewrite bool_decide_eq_false_2; congruence).
    split_and!; auto.
  - intros t'. rewrite Ht, Ho, Hr. intros (t & -> & Hin)%list_elem_of_fmap. unfold cancelTicketRow.
    case_bool_decide as Hto; [done|]. intros Hact. destruct (H2 t Hin Hact) as (ot & rt & Hot & Hrt & Hc).
    assert (o_reservation ot <> id).
    { intros Heq. apply Hto. f_equal. eapply H4; [exact Hoo|exact Hot|congruence]. }
    exists ot, rt. unfold orders. rewrite lookup_fmap, Hot, lookup_insert_ne by done. cbn.
    unfold cancelOrderRow. rewrite bool_decide_eq_false_2 by done. done.
  - intros t'. rewrite Ht, Ho. intros (t & -> & Hin)%list_elem_of_fmap. unfold orders. rewrite lookup_fmap.
    destruct (H3 t Hin) as [x Hx]. assert (t_order (cancelTicketRow (Some oid) t) = t_order t) as ->
      by (unfold cancelTicketRow; by case_bool_decide). rewrite Hx. eauto.
  - intros i j a b. rewrite Ho. unfold orders. rewrite !lookup_fmap.
    destruct (ticket_orders l !! i) as [a0|] eqn:Ea; [|done]. destruct (ticket_orders l !! j) as [b0|] eqn:Eb; [|done].
    intros [= <-] [= <-] Heq. eapply H4; [exact Ea|exact Eb|]. unfold cancelOrderRow in Heq.
    by do 2 case_bool_decide; simpl in *; congruence.
  - by eapply orphanFree_update.
Qed.

(** ** The transactions *)
Definition tframe {A} (m : M A) : Prop :=
  forall db a db', m db = Ok (a, db') -> forall s, tview (getLocal s db') = tview (getLocal s db).

Lemma tframe_of {A} (m : M A) : keeps m -> keepsObs tkView m -> tframe m.
Proof.
  intros Hk Ht db a db' H s. pose proof (Hk _ _ _ H s) as Hc. pose proof (tkView_getLocal s _ _ (Ht _ _ _ H)) as Hv.
  unfold core in Hc. unfold tk in Hv. unfold tview. congruence.
Qed.

Lemma tframe_bind {A B} (m : M A) (k : A -> M B) : tframe m -> (forall a, tframe (k a)) -> tframe (bindM m k).
Proof. intros Hm Hk db b db'' (a & db' & H1 & H2)%bindM_Ok s. by rewrite (Hk _ _ _ _ H2), (Hm _ _ _ H1). Qed.

Lemma tview_setLocal s s' l db : tview l = tview (getLocal s' db) -> tview (getLocal s (setLocal s' l db)) = tview (getLocal s db).
Proof. intros H. rewrite getLocal_setLocal. case_bool_decide; [by subst|done]. Qed.

Lemma tframe_release tx id : tframe (releaseReservationSeats tx id).
Proof. intros db n db' H s. apply releaseReservationSeats_Ok in H as (_ & _ & _ & ->). by apply tview_setLocal. Qed.

Lemma tframe_InitializeInventory tx run : tframe (InitializeInventory tx run).
Proof.
  unfold InitializeInventory. intros db n db' [_ H]%stopif_Ok s. apply bindM_Ok in H as (cat & d1 & [= <- <-] & H).
  destruct (train_runs _ !! run) as [tr|]; [|done]. apply bindM_Ok in H as (l & d1 & [= <- <-] & H).
  destruct (insertMissing _ _ _ _) as [inv k]. apply bindM_Ok in H as (u & d2 & [= _ <-] & [= <- <-]).
  by apply tview_setLocal.
Qed.

Ltac tframe :=
  repeat first
    [ solve [apply tframe_of; auto with frame tk]
    | apply tframe_release
    | apply tframe_bind; [|intros ?]
    | match goal with |- tframe (match ?x with _ => _ end) => destruct x end ].

Definition allTicketed (db : DB) : Prop := forall s, ticketed (getLocal s db).

Lemma tframe_keepsInv {A} (m : M A) : tframe m -> keepsInv allTicketed m.
Proof. intros H db a db' Hi Hm s. eapply ticketed_view; [by apply (H _ _ _ Hm)|apply Hi]. Qed.

Lemma keepsInv_bind {A B} (I : DB -> Prop) (m : M A) (k : A -> M B) :
  keepsInv I m -> (forall a, keepsInv I (k a)) -> keepsInv I (bindM m k).
Proof. intros Hm Hk db b db'' Hi (a & db' & H1 & H2)%bindM_Ok. eapply (Hk a); [|exact H2]. by eapply Hm. Qed.

Lemma keepsInv_stopif {A} (I : DB -> Prop) (b : bool) e (k : M A) : keepsInv I k -> keepsInv I (if b then fail e else k).
Proof. intros Hk db a db' Hi [_ H]%stopif_Ok. by eapply Hk. Qed.

Lemma allTicketed_setLocal s l db : allTicketed db -> ticketed l -> allTicketed (setLocal s l db).
Proof. intros H Hl s'. rewrite getLocal_setLocal. by case_bool_decide. Qed.

(** A due reservation expires. *)
Lemma ticketed_expireStatus tx env id : keepsInv allTicketed (updateStatus tx id (dueAt (clk_write env)) Expired).
Proof.
  intros db b db' Hi H. apply updateStatus_Ok in H as [(_ & r & Hr & Hok & ->)|(_ & ->)]; [|done].
  apply allTicketed_setLocal; [done|]. unfold dueAt in Hok. apply andb_true_iff in Hok as [Hh%bool_decide_eq_true _].
  by eapply (ticketed_dropped (getLocal (tx_schema tx) db) _ id r Expired).
Qed.

Lemma ticketed_expireTx tx env id : keepsInv allTicketed (expireTx tx env id).
Proof. unfold expireTx. apply keepsInv_bind; [apply ticketed_expireStatus|intros b]. apply tframe_keepsInv. tframe. Qed.

Lemma ticketed_expireLocatedTx tx env id : keepsInv allTicketed (expireLocatedTx tx env id).
Proof.
  unfold expireLocatedTx. apply keepsInv_bind; [apply tframe_keepsInv; tframe|intros l].
  destruct (reservations l !! id); [|apply tframe_keepsInv; tframe]. destruct (negb _); [apply tframe_keepsInv; tframe|].
  apply keepsInv_bind; [apply ticketed_expireStatus|intros b]. apply tframe_keepsInv. tframe.
Qed.

Lemma ticketed_createHoldTx lim tx env p : keepsInv allTicketed (createHoldTx lim tx env p).
Proof.
  intros db r db' Hi H. pose proof (tk_createHoldTx _ _ _ _ _ _ _ H) as Htk. unfold createHoldTx in H. cbv zeta in H.
  apply bindM_Ok in H as (acq & d1 & H1 & H).
  assert (Hi1 : allTicketed d1) by (eapply tframe_keepsInv; [|exact Hi|exact H1]; tframe).
  pose proof (tk_acquire _ _ _ _ _ _ H1) as Htk1.
  destruct (acq_replayed acq).
  { eapply tframe_keepsInv; [|exact Hi1|exact H]. tframe. }
  apply createOwnedHold_held in H as (tr & mask & f & fare & total & alloc & _ & _ & _ & _ & Hown & _ & _ & _ & _ & Hal &
    _ & Hfresh & Hcore & Hother & _). intros s.
  pose proof (tkView_getLocal s _ _ Htk) as Hv. pose proof (tkView_getLocal s _ _ Htk1) as Hv1. unfold tk in Hv, Hv1.
  destruct (decide (s = tx_schema tx)) as [->|Hne].
  - unfold core in Hcore. injection Hcore as _ Hr Hs.
    eapply (ticketed_hold (getLocal (tx_schema tx) d1) _ (new_reservation env)); [apply Hi1|exact Hfresh| | |].
    3: { unfold tview. rewrite Hr, Hs. f_equal; [f_equal|]; congruence. }
    { done. }
    intros rs Hrs. by apply seatRowsFor_spec in Hrs as [? _]; [|lia].
  - eapply ticketed_view; [|apply (Hi1 s)]. specialize (Hother s Hne). unfold core in Hother. unfold tview. congruence.
Qed.

(** *** Confirming *)
Fixpoint ticketsFor (env : Env) (i : nat) (order : uuid) (seatRows : list uuid) : list TicketRow :=
  match seatRows with
  | [] => []
  | seatRow :: rest =>
      mkTicketRow (new_ticket env i) order seatRow ("TKT" ++ new_code env i)%string true :: ticketsFor env (S i) order rest
  end.

Lemma ticketsFor_spec env i order rows :
  map t_seat_row (ticketsFor env i order rows) = rows /\
  forall t, t ∈ ticketsFor env i order rows -> t_order t = order /\ t_active t = true.
Proof.
  revert i. induction rows as [|row rows IH]; intros i; simpl; [split; [done|by intros t ?%not_elem_of_nil]|].
  destruct (IH (S i)) as [-> Hin]. split; [done|]. by intros t [->|Ht]%elem_of_cons; [|apply Hin].
Qed.

(** The tables after the tickets are issued. *)
Lemma issueTickets_Ok tx env i order res user rows db u db' :
  issueTickets tx env i order res user rows db = Ok (u, db') ->
  let l := getLocal (tx_schema tx) db in
  tview (getLocal (tx_schema tx) db') =
    (reservations l, reservation_seats l, ticket_orders l, tickets l ++ ticketsFor env i order rows) /\
  forall s, s <> tx_schema tx -> tview (getLocal s db') = tview (getLocal s db).
Proof.
  cbv zeta. revert i db. induction rows as [|row rows IH]; intros i db; cbn [issueTickets ticketsFor].
  { intros [= _ <-]. by rewrite app_nil_r. }
  intros (u1 & d1 & H1 & H)%bindM_Ok. apply bindM_Ok in H as (u2 & d2 & H2 & H). apply bindM_Ok in H as (u3 & d3 & H3 & H).
  apply IH in H as [H Ho].
  assert (Hf : forall s, tview (getLocal s d3) = tview (getLocal s d1)).
  { intros s. rewrite (tframe_of _ (keeps_appendTicketEvent _ _ _ _) (tk_ticketEvent _ _ _ _) _ _ _ H3 s).
    apply (tframe_of _ (keeps_insertTicketLocator _ _ _ _ _) (tk_ticketLocator _ _ _ _ _) _ _ _ H2 s). }
  unfold insertTicket in H1. apply bindM_Ok in H1 as (l0 & d0 & [= <- <-] & H1). apply stopif_Ok in H1 as [_ H1].
  injection H1 as _ <-. split.
  - rewrite H. pose proof (Hf (tx_schema tx)) as Hs. rewrite getLocal_setLocal_eq in Hs. unfold tview in Hs.
    injection Hs as -> -> -> ->. cbn. by rewrite <- app_assoc.
  - intros s Hs. rewrite Ho, Hf, getLocal_setLocal by done. by rewrite bool_decide_eq_false_2.
Qed.

(** What confirming a held reservation writes. *)
Definition confirmed (tx : Tx) (env : Env) (p : ReservationCommand) (db : DB) (result : ConfirmResult) (db' : DB) : Prop :=
  let l := getLocal (tx_schema tx) db in
  let id := rc_reservation p in
  let seatRows := reservationSeatIDs l id in
  exists r,
    reservations l !! id = Some r /\ r_user r = rc_user p /\ r_status r = Held /\ clk_write env < r_expires r /\
    ticket_orders l !! new_order env = None /\ orderOf l id = None /\ seatRows <> [] /\
    tview (getLocal (tx_schema tx) db') =
      (<[id := setReservationStatus r Confirmed]> (reservations l), reservation_seats l,
       <[new_order env := mkOrderRow id (rc_user p) true (r_total r) (r_currency r) (clk_order env)]> (ticket_orders l),
       tickets l ++ ticketsFor env 0 (new_order env) seatRows) /\
    (forall s, s <> tx_schema tx -> tview (getLocal s db') = tview (getLocal s db)) /\
    result = mkConfirmResult id (new_order env) (Z.of_nat (length seatRows)) false.

Lemma insertOrder_Ok tx id row db u db' :
  insertOrder tx id row db = Ok (u, db') ->
  let l := getLocal (tx_schema tx) db in
  ticket_orders l !! id = None /\ orderOf l (o_reservation row) = None /\
  db' = setLocal (tx_schema tx) (withTicketOrders l (<[id := row]> (ticket_orders l))) db.
Proof.
  unfold insertOrder. intros (l0 & d & [= <- <-] & H)%bindM_Ok. cbv zeta.
  apply stopif_Ok in H as [[H1%bool_decide_eq_false H2%bool_decide_eq_false]%orb_false_iff H]. injection H as _ <-.
  split_and!; [|by destruct (orderOf _ _); [destruct H2|]|done].
  destruct (ticket_orders _ !! id); [|done]. by destruct H1.
Qed.

Lemma lockOwned_Ok tx user id db r db' :
  lockOwnedReservation tx user id db = Ok (r, db') ->
  db' = db /\ reservations (getLocal (tx_schema tx) db) !! id = Some r /\ r_user r = user.
Proof.
  unfold lockOwnedReservation. intros (l & d & [= <- <-] & H)%bindM_Ok.
  destruct (reservations _ !! id) as [r0|] eqn:E; [|done].
  apply stopif_Ok in H as [Hu%negb_false_iff%bool_decide_eq_true H]. by injection H as <- <-.
Qed.

Lemma tview_reads l l' : tview l' = tview l -> reservations l' = reservations l /\ reservation_seats l' = reservation_seats l /\
  ticket_orders l' = ticket_orders l /\ tickets l' = tickets l.
Proof. unfold tview. by intros [= -> -> -> ->]. Qed.

Lemma orderOf_view l l' id : ticket_orders l' = ticket_orders l -> orderOf l' id = orderOf l id.
Proof. unfold orderOf. by intros ->. Qed.
Lemma seatIDs_view l l' id : reservation_seats l' = reservation_seats l -> reservationSeatIDs l' id = reservationSeatIDs l id.
Proof. unfold reservationSeatIDs, seatsOf. by intros ->. Qed.

(** The steps of a confirmation once the reservation is known to be held. *)
Lemma confirm_held tx env p rec r db result db' :
  reservations (getLocal (tx_schema tx) db) !! rc_reservation p = Some r -> r_user r = rc_user p ->
  (let! affected := updateStatus tx (rc_reservation p)
     (fun r => bool_decide (r_status r = Held) && After (r_expires r) (clk_write env)) Confirmed in
   stopif negb affected with ErrReservationExpired else
   let! _ := closeReservationQuotaClaim tx (rc_reservation p) in
   let! _ := insertOrder tx (new_order env)
     (mkOrderRow (rc_reservation p) (rc_user p) true (r_total r) (r_currency r) (clk_order env)) in
   let! _ := insertTicketOrderLocator tx (new_order env) (rc_reservation p) (rc_user p) "confirmed"
     (r_total r) (r_currency r) (clk_order env) in
   let! l := getTables tx in
   stopif Nat.eqb (length (reservationSeatIDs l (rc_reservation p))) 0 with ErrPersistenceInvariant else
   let! _ := issueTickets tx env 0 (new_order env) (rc_reservation p) (rc_user p) (reservationSeatIDs l (rc_reservation p)) in
   let! _ := CompleteIdempotency tx rec (rc_reservation p) in
   let! _ := appendReservationEvent tx env (rc_reservation p) "reservation.confirmed"
     (PayloadConfirmed (rc_reservation p) (new_order env)) in
   let! _ := recordSuccessfulGenerationWrite tx in
   let! _ := Commit tx env in
   ret (mkConfirmResult (rc_reservation p) (new_order env)
     (Z.of_nat (length (reservationSeatIDs l (rc_reservation p)))) false)) db = Ok (result, db') ->
  confirmed tx env p db result db'.
Proof.
  intros Hr Hu. intros (aff & d1 & H1 & H)%bindM_Ok. apply stopif_Ok in H as [->%negb_false_iff H].
  apply updateStatus_Ok in H1 as [(_ & r0 & Hr0 & Hok & ->)|([=] & _)]. rewrite Hr in Hr0. injection Hr0 as <-.
  apply andb_true_iff in Hok as [Hheld%bool_decide_eq_true Hexp]. unfold After in Hexp.
  set (l := getLocal (tx_schema tx) db) in *.
  apply bindM_Ok in H as (u2 & d2 & H2 & H).
  apply (tframe_of _ (keeps_closeQuotaClaim _ _) (tk_closeClaim _ _)) in H2.
  apply bindM_Ok in H as (u3 & d3 & H3 & H). apply insertOrder_Ok in H3 as (Hno & Hnr & ->). cbn [o_reservation] in Hnr.
  apply bindM_Ok in H as (u4 & d4 & H4 & H).
  apply (tframe_of _ (keeps_insertOrderLocator _ _ _ _ _ _ _ _) (tk_orderLocator _ _ _ _ _ _ _ _)) in H4.
  apply bindM_Ok in H as (l4 & d5 & [= <- <-] & H). apply stopif_Ok in H as [Hne%Nat.eqb_neq H].
  apply bindM_Ok in H as (u6 & d6 & H6 & H). apply issueTickets_Ok in H6 as [H6 H6o].
  match type of H with bindM _ ?k ?d = _ => assert (Ht : tframe (bindM (CompleteIdempotency tx rec (rc_reservation p)) k)) by tframe end.
  pose proof (Ht _ _ _ H) as Hlast. do 4 apply bindM_Ok in H as (? & ? & _ & H). injection H as <- _.
  pose proof (H2 (tx_schema tx)) as E2. rewrite getLocal_setLocal_eq in E2. fold l in E2.
  apply tview_reads in E2 as (E2a & E2b & E2c & E2d). cbn in E2a, E2b, E2c, E2d.
  pose proof (H4 (tx_schema tx)) as E4. rewrite getLocal_setLocal_eq in E4.
  apply tview_reads in E4 as (E4a & E4b & E4c & E4d). cbn in E4a, E4b, E4c, E4d.
  assert (Hids : reservationSeatIDs (getLocal (tx_schema tx) d4) (rc_reservation p) = reservationSeatIDs l (rc_reservation p))
    by (apply seatIDs_view; congruence).
  rewrite Hids in *. rewrite E2c in Hno. rewrite (orderOf_view l _ _ E2c) in Hnr.
  exists r. split_and!; auto; [lia|intros E; apply Hne; unfold l; by rewrite E| |].
  - rewrite Hlast, H6, E4a, E4b, E4c, E4d, E2a, E2b, E2c, E2d. done.
  - intros s Hs. rewrite Hlast, H6o, H4, getLocal_setLocal, bool_decide_eq_false_2, H2, getLocal_setLocal by done.
    by rewrite bool_decide_eq_false_2.
Qed.

Lemma confirmed_frame tx env p d1 db result db' :
  (forall s, tview (getLocal s d1) = tview (getLocal s db)) ->
  confirmed tx env p d1 result db' -> confirmed tx env p db result db'.
Proof.
  intros Hf (r & Hr & Hu & Hh & He & Ho & Hn & Hne & Ht & Hoth & ->).
  pose proof (Hf (tx_schema tx)) as E. apply tview_reads in E as (E1 & E2 & E3 & E4).
  rewrite (seatIDs_view _ _ _ E2) in *. rewrite (orderOf_view _ _ _ E3) in Hn. rewrite E1, E2, E3, E4 in Ht.
  rewrite E1 in Hr. rewrite E3 in Ho. exists r. split_and!; auto. intros s Hs. by rewrite Hoth, Hf.
Qed.

Lemma confirm_effect tx env p db result db' :
  confirmReservationTx tx env p db = Ok (result, db') ->
  (forall s, tview (getLocal s db') = tview (getLocal s db)) \/ confirmed tx env p db result db'.
Proof.
  unfold confirmReservationTx. cbv zeta. intros (acq & d1 & H1 & H)%bindM_Ok.
  apply (tframe_of _ (keeps_AcquireIdempotency _ _ _) (tk_acquire _ _ _)) in H1.
  destruct (acq_replayed acq).
  { left. intros s. rewrite <- H1. match type of H with ?m _ = _ => assert (tframe m) as Ht by tframe end. by apply (Ht _ _ _ H). }
  apply bindM_Ok in H as (r & d2 & H2 & H). apply lockOwned_Ok in H2 as (-> & Hr & Hu).
  destruct (bool_decide (r_status r = Confirmed)).
  { left. intros s. rewrite <- H1. match type of H with ?m _ = _ => assert (tframe m) as Ht by tframe end. by apply (Ht _ _ _ H). }
  apply stopif_Ok in H as [_ H]. right. eapply confirmed_frame; [exact H1|]. by eapply confirm_held.
Qed.

Lemma confirmed_keepsInv tx env p : keepsInv allTicketed (confirmReservationTx tx env p).
Proof.
  intros db result db' Hi H s. destruct (confirm_effect _ _ _ _ _ _ H) as [Hf|Hc]; [eapply ticketed_view; [apply Hf|apply Hi]|].
  destruct Hc as (r & Hr & Hu & Hh & He & Ho & Hn & Hne & Ht & Hoth & _).
  destruct (decide (s = tx_schema tx)) as [->|Hs]; [|eapply ticketed_view; [by apply Hoth|apply Hi]].
  destruct (ticketsFor_spec env 0 (new_order env)
    (reservationSeatIDs (getLocal (tx_schema tx) db) (rc_reservation p))) as [Hm Hts].
  refine (ticketed_confirmed _ _ (rc_reservation p) r (new_order env)
    (mkOrderRow (rc_reservation p) (rc_user p) true (r_total r) (r_currency r) (clk_order env)) _ (Hi _) Hr Hh Ho Hn eq_refl (eq_sym Hu) eq_refl eq_refl
    eq_refl Hts _ Ht).
  rewrite Hm. unfold reservationSeatIDs. by rewrite sortBy_Permutation.
Qed.

(** *** Cancelling *)
Lemma cancelTickets_Ok tx id db u db' :
  cancelTickets tx id db = Ok (u, db') ->
  let l := getLocal (tx_schema tx) db in let orders := cancelOrderRow id <$> ticket_orders l in
  db' = setLocal (tx_schema tx) (withTickets (withTicketOrders l orders)
    (map (cancelTicketRow (fst <$> orderOf (withTicketOrders l orders) id)) (tickets l))) db.
Proof. unfold cancelTickets. intros (l & d & [= <- <-] & H)%bindM_Ok. cbv zeta in *. by injection H as _ <-. Qed.

Lemma cancelled_keepsInv tx env p : keepsInv allTicketed (cancelReservationTx tx env p).
Proof.
  unfold cancelReservationTx. cbv zeta. apply keepsInv_bind; [apply tframe_keepsInv; tframe|intros acq].
  destruct (acq_replayed acq); [apply tframe_keepsInv; tframe|]. intros db result db' Hi (r & d0 & Hr & H)%bindM_Ok.
  apply lockOwned_Ok in Hr as (-> & Hr & Hu).
  destruct (bool_decide (r_status r = Cancelled)).
  { eapply tframe_keepsInv; [|exact Hi|exact H]. tframe. }
  apply stopif_Ok in H as [Hact H]. apply bindM_Ok in H as (aff & d1 & H1 & H). apply stopif_Ok in H as [->%negb_false_iff H].
  apply updateStatus_Ok in H1 as [(_ & r0 & Hr0 & _ & ->)|([=] & _)]. rewrite Hr in Hr0. injection Hr0 as <-.
  destruct (bool_decide (r_status r = Confirmed)) eqn:Ec.
  - apply bool_decide_eq_true in Ec. apply bindM_Ok in H as (n & d2 & H2 & H). apply tframe_release in H2.
    apply bindM_Ok in H as (u3 & d3 & H3 & H). apply bindM_Ok in H3 as (u4 & d4 & H4 & H3).
    apply cancelTickets_Ok in H4 as ->.
    apply (tframe_of _ (keeps_updateOrderLocator _ _ _) (tk_updateLocator _ _ _)) in H3.
    match type of H with ?m _ = _ => assert (Ht : tframe m) by tframe end. pose proof (Ht _ _ _ H) as Hlast.
    intros s. eapply ticketed_view; [apply Hlast|]. eapply ticketed_view; [apply H3|]. clear Hlast H3 H Ht.
    destruct (decide (s = tx_schema tx)) as [->|Es].
    + rewrite getLocal_setLocal_eq. pose proof (H2 (tx_schema tx)) as E. rewrite getLocal_setLocal_eq in E.
      apply tview_reads in E as (E1 & E2 & E3 & E4). cbn in E1, E2, E3, E4.
      eapply (ticketed_cancelled (getLocal (tx_schema tx) db) _ (rc_reservation p) r); [apply Hi|exact Hr|exact Ec|].
      unfold tview. cbn [reservations reservation_seats ticket_orders tickets withTickets withTicketOrders].
      rewrite E1, E2, E3, E4. by rewrite (orderOf_view (withTicketOrders (getLocal (tx_schema tx) db)
        (cancelOrderRow (rc_reservation p) <$> ticket_orders (getLocal (tx_schema tx) db)))).
    + rewrite getLocal_setLocal, bool_decide_eq_false_2 by done. eapply ticketed_view; [apply H2|].
      rewrite getLocal_setLocal, bool_decide_eq_false_2 by done. apply Hi.
  - assert (Hh : r_status r = Held).
    { apply andb_false_iff in Hact as [Hx|Hx]; [|done]. by apply negb_false_iff, bool_decide_eq_true in Hx. }
    match type of H with ?m _ = _ => assert (Ht : tframe m) by tframe end.
    eapply tframe_keepsInv; [exact Ht| |exact H]. apply allTicketed_setLocal; [done|].
    by eapply (ticketed_dropped (getLocal (tx_schema tx) db) _ (rc_reservation p) r Cancelled).
Qed.

Lemma tframe_cleanup env limit : tframe (cleanupExpiredIdempotency env limit).
Proof.
  unfold cleanupExpiredIdempotency. cbv zeta. intros db u db' [_ H]%stopif_Ok s.
  apply bindM_Ok in H as (l & d & [= <- <-] & [= _ <-]). by apply (tview_setLocal s Public).
Qed.

Lemma tframe_cleanupAcross env limit : tframe (cleanupExpiredIdempotencyAcrossShards env limit).
Proof. unfold cleanupExpiredIdempotencyAcrossShards. cbv zeta. tframe. Qed.

#[export] Instance allTicketed_invariant : TxInvariant allTicketed.
Proof.
  constructor; intros; [apply ticketed_createHoldTx|apply confirmed_keepsInv|apply cancelled_keepsInv|apply ticketed_expireTx
    |apply ticketed_expireLocatedTx|apply tframe_keepsInv|apply tframe_keepsInv, tframe_cleanup
    |apply tframe_keepsInv, tframe_cleanupAcross].
  unfold initializeTx. apply tframe_bind; [apply tframe_InitializeInventory|intros n; tframe].
Qed.

(** ** The theorems *)
Lemma ticketed_empty : ticketed emptyLocal.
Proof.
  constructor; simpl; [by intros|by intros t ?%not_elem_of_nil|by intros t ?%not_elem_of_nil|by intros|
    by intros rs ?%not_elem_of_nil].
Qed.

Lemma allTicketed_db0 : allTicketed Example.db0.
Proof. intros []; apply ticketed_empty. Qed.

(** C3: orders and tickets match the reservations after any commands, with
    any routing, clocks, failures and retries: a confirmed reservation has an
    order of its own total and currency with exactly one active ticket per
    reserved seat, a ticket is active only while its reservation is
    confirmed, and a reservation never has two orders. *)
Theorem tickets_exact cs s db sch :
  allTicketed db ->
  let l := getLocal sch (foldl execute (s, db) cs).2 in
  (forall id r, reservations l !! id = Some r -> r_status r = Confirmed ->
     exists oid o, orderOf l id = Some (oid, o) /\ o_confirmed o = true /\ o_user o = r_user r /\
       o_total o = r_total r /\ o_currency o = r_currency r /\
       map t_seat_row (ticketsOf l oid) ≡ₚ map rs_id (seatsOf l id) /\
       (forall t, t ∈ ticketsOf l oid -> t_active t = true)) /\
  (forall t, t ∈ tickets l -> t_active t = true ->
     exists o r, ticket_orders l !! t_order t = Some o /\ reservations l !! o_reservation o = Some r /\
       r_status r = Confirmed) /\
  (forall i j a b, ticket_orders l !! i = Some a -> ticket_orders l !! j = Some b ->
     o_reservation a = o_reservation b -> i = j).
Proof.
  intros Hi l. pose proof (executeAll_inv allTicketed cs (s, db) Hi sch) as [H1 H2 H3 H4 H5]. fold l in H1, H2, H3, H4, H5.
  split_and!; [|exact H2|exact H4]. intros id r Hr Hc.
  destruct (H1 id r Hr Hc) as (oid & o & Ho & Hor & Hu & Hcf & Ht & Hcur & Hp & Ha). exists oid, o. split_and!; auto.
  destruct (orderOf l id) as [[oid' o']|] eqn:E.
  - apply orderOf_Some in E as [E1 E2]. assert (oid' = oid) as -> by (eapply H4; [exact E1|exact Ho|congruence]). congruence.
  - exfalso. by eapply orderOf_None.
Qed.

(** A hold, confirmed. *)
Definition confirmCommands : list StoreCommand :=
  take 2 exampleCommands ++ [CmdConfirm (Example.env 200 4000%N) (Example.command 5%N 1002%N 3)].

Definition confirmedDb : DB := (foldl execute (Example.store, Example.db0) confirmCommands).2.

Lemma tickets_exact_witness :
  exists oid o, orderOf (public confirmedDb) 1002%N = Some (oid, o) /\ o_total o = 3000 /\
    length (ticketsOf (public confirmedDb) oid) = 2%nat.
Proof.
  assert (Hr : exists r, reservations (public confirmedDb) !! 1002%N = Some r /\ r_status r = Confirmed /\ r_total r = 3000)
    by (eexists; split; [vm_compute; reflexivity|done]).
  destruct Hr as (r & Hr & Hc & Ht).
  destruct (proj1 (tickets_exact confirmCommands Example.store Example.db0 Public allTicketed_db0) 1002%N r Hr Hc)
    as (oid & o & Ho & _ & _ & Hto & _ & Hp & _).
  exists oid, o. split_and!; [exact Ho|by rewrite Hto, Ht|]. apply Permutation_length in Hp. rewrite !length_map in Hp.
  change (length (ticketsOf (public confirmedDb) oid) = length (seatsOf (public confirmedDb) 1002%N)) in Hp.
  rewrite Hp. vm_compute. reflexivity.
Defined.

(** what confirming does.  A successful confirmation either changes no
    reservation, order or ticket (a replay, or the reservation was already
    confirmed), or the caller owns a held reservation that has not expired at
    the time of the write; then it becomes confirmed, one order of its total
    is added under a fresh id, the tickets of its seats, in seat order, are
    appended, and the result says so.  Other schemas are untouched. *)
Theorem confirm_issues_tickets tx env p db result db' :
  confirmReservationTx tx env p db = Ok (result, db') ->
  (forall s, tview (getLocal s db') = tview (getLocal s db)) \/
  let l := getLocal (tx_schema tx) db in
  let id := rc_reservation p in
  let seatRows := reservationSeatIDs l id in
  exists r ts,
    reservations l !! id = Some r /\ r_user r = rc_user p /\ r_status r = Held /\ clk_write env < r_expires r /\
    ticket_orders l !! new_order env = None /\ orderOf l id = None /\ seatRows <> [] /\
    map t_seat_row ts = seatRows /\ (forall t, t ∈ ts -> t_order t = new_order env /\ t_active t = true) /\
    tview (getLocal (tx_schema tx) db') =
      (<[id := setReservationStatus r Confirmed]> (reservations l), reservation_seats l,
       <[new_order env := mkOrderRow id (rc_user p) true (r_total r) (r_currency r) (clk_order env)]> (ticket_orders l),
       tickets l ++ ts) /\
    (forall s, s <> tx_schema tx -> tview (getLocal s db') = tview (getLocal s db)) /\
    result = mkConfirmResult id (new_order env) (Z.of_nat (length seatRows)) false.
Proof.
  intros H. apply confirm_effect in H as [H|H]; [by left|right]. cbv zeta.
  destruct H as (r & Hr & Hu & Hh & He & Ho & Hn & Hne & Ht & Hoth & ->).
  destruct (ticketsFor_spec env 0 (new_order env)
    (reservationSeatIDs (getLocal (tx_schema tx) db) (rc_reservation p))) as [Hm Hts].
  exists r, (ticketsFor env 0 (new_order env) (reservationSeatIDs (getLocal (tx_schema tx) db) (rc_reservation p))).
  split_and!; auto.
Qed.

Definition heldDb : DB := (foldl execute (Example.store, Example.db0) (take 2 exampleCommands)).2.

Lemma confirm_issues_tickets_witness : exists result db' r,
  confirmReservationTx Begin (Example.env 200 4000%N) (Example.command 5%N 1002%N 3) heldDb = Ok (result, db') /\
  reservations (public heldDb) !! 1002%N = Some r /\ r_status r = Held /\ cr_tickets result = 2.
Proof.
  assert (Hok : is_ok (confirmReservationTx Begin (Example.env 200 4000%N) (Example.command 5%N 1002%N 3) heldDb) = true)
    by (vm_compute; reflexivity).
  destruct (confirmReservationTx Begin (Example.env 200 4000%N) (Example.command 5%N 1002%N 3) heldDb)
    as [[result db']|e] eqn:E; [|discriminate Hok].
  assert (Hn : okAnd (fun x : ConfirmResult * DB => bool_decide (length (tickets (public x.2)) <> length (tickets (public heldDb))))
    (confirmReservationTx Begin (Example.env 200 4000%N) (Example.command 5%N 1002%N 3) heldDb) = true) by (vm_compute; reflexivity).
  rewrite E in Hn. cbn [okAnd snd] in Hn. apply bool_decide_eq_true in Hn.
  destruct (confirm_issues_tickets Begin (Example.env 200 4000%N) (Example.command 5%N 1002%N 3) heldDb result db' E)
    as [Hf|(r & ts & Hr & _ & Hh & _ & _ & _ & _ & _ & _ & _ & _ & ->)].
  - exfalso. apply Hn. specialize (Hf Public). apply tview_reads in Hf as (_ & _ & _ & Hf). cbn in Hf. by rewrite Hf.
  - exists (mkConfirmResult 1002%N (new_order (Example.env 200 4000%N)) 2 false), db', r.
    split_and!; [|exact Hr|exact Hh|done]. reflexivity.
Defined.

(** ** Retrying a confirmation *)
Lemma loadConfirmation_view tx user id db d d' r :
  (forall s, tview (getLocal s d) = tview (getLocal s db)) ->
  loadConfirmationResult tx user id db = Ok (r, d') -> loadConfirmationResult tx user id d = Ok (r, d).
Proof.
  intros Hv H. pose proof (Hv (tx_schema tx)) as E. apply tview_reads in E as (E1 & E2 & E3 & E4).
  unfold loadConfirmationResult, bindM, getTables in *. rewrite E1. destruct (reservations _ !! id) as [row|]; [|done].
  destruct (negb _); [done|]. rewrite (orderOf_view _ _ _ E3). destruct (orderOf _ id) as [[oid o]|]; [|done].
  unfold ret, ticketsOf in *. rewrite E4. by injection H as <- _.
Qed.

Lemma confirmed_loads tx env p db result db' :
  allTicketed db' -> confirmed tx env p db result db' ->
  loadConfirmationResult tx (rc_user p) (rc_reservation p) db' = Ok (result, db').
Proof.
  intros Hi (r & Hr & Hu & Hh & He & Ho & Hn & Hne & Ht & Hoth & ->). set (l := getLocal (tx_schema tx) db) in *.
  unfold tview in Ht. injection Ht as T1 T2 T3 T4. destruct (Hi (tx_schema tx)) as [H1 _ _ H4 _].
  set (l' := getLocal (tx_schema tx) db') in *.
  destruct (H1 (rc_reservation p) (setReservationStatus r Confirmed)) as (oid & o & Hoo & Hor & _ & _ & _ & _ & Hp & _).
  { by rewrite T1, lookup_insert_eq. } { done. }
  assert (oid = new_order env) as ->.
  { eapply H4; [exact Hoo|rewrite T3; apply lookup_insert_eq|exact Hor]. }
  unfold loadConfirmationResult, bindM, getTables. fold l'. rewrite T1, lookup_insert_eq. cbn [r_user setReservationStatus].
  rewrite bool_decide_eq_true_2 by done. cbn [negb].
  destruct (orderOf l' (rc_reservation p)) as [[oid' o']|] eqn:E.
  - apply orderOf_Some in E as [E1 E2]. assert (oid' = new_order env) as -> by (eapply H4; [exact E1|exact Hoo|congruence]).
    unfold ret. do 4 f_equal. apply Permutation_length in Hp. rewrite !length_map in Hp. rewrite Hp.
    unfold reservationSeatIDs. rewrite length_map, length_sortBy. unfold seatsOf. by rewrite T2.
  - exfalso. by eapply orderOf_None.
Qed.

(** What a fresh confirmation leaves: its record is completed, and reading
    the result back gives the answer that was returned. *)
Lemma confirm_settles tx env p db result db' :
  allTicketed db -> confirmReservationTx tx env p db = Ok (result, db') -> cr_replayed result = false ->
  loadConfirmationResult tx (rc_user p) (rc_reservation p) db' = Ok (result, db') /\
  inputValid (commandInput OperationReservationConfirm p) = true /\ isNil (rc_reservation p) = false /\
  exists row, recorded tx (commandInput OperationReservationConfirm p) row db' /\ clk_acquire env < ir_expires row /\
    (tx_route tx = None -> ir_expires row = clk_acquire env + day) /\ ir_completed row = true /\
    ir_resource row = Some (rc_reservation p).
Proof.
  intros Hi H Hrep. assert (Hi' : allTicketed db') by (by eapply confirmed_keepsInv).
  unfold confirmReservationTx in H. cbv zeta in H. apply bindM_Ok in H as (acq & d1 & Hacq & H).
  destruct (acquire_recorded _ _ _ _ _ _ Hacq) as (Hv & row & Hrec & Hlt & Hrid & Hrc & Hday & _).
  destruct (acq_replayed acq) eqn:Ea.
  { apply bindM_Ok in H as (x & d2 & _ & H). apply bindM_Ok in H as (y & d3 & _ & H). by injection H as <- _. }
  apply bindM_Ok in H as (r & d2 & H2 & H). apply lockOwned_Ok in H2 as (-> & Hr & Hu).
  match type of H with ?m _ = _ => assert (Hset : settles tx (acq_record acq) (rc_reservation p) m) by settles end.
  destruct (Hset _ _ _ _ _ H Hrec Hrid Hrc) as (Hn & row' & Hrec' & Hc' & Hres' & He').
  split_and!; auto; [|exists row'; rewrite He'; split_and!; auto].
  destruct (bool_decide (r_status r = Confirmed)) eqn:Ec.
  - clear Hset. apply bindM_Ok in H as (u3 & d3 & _ & H). apply bindM_Ok in H as (res & d4 & H4 & H).
    eapply loadConfirmation_view.
    2: { apply bindM_Ok in H as (u5 & d5 & _ & H). apply bindM_Ok in H as (u6 & d6 & _ & H). injection H as <- _. exact H4. }
    intros s. match type of H with ?m _ = _ => assert (Ht : tframe m) by tframe end. rewrite (Ht _ _ _ H).
    assert (Hl : tframe (loadConfirmationResult tx (rc_user p) (rc_reservation p))) by tframe. apply (Hl _ _ _ H4).
  - apply stopif_Ok in H as [_ H]. eapply confirmed_loads; [exact Hi'|]. by eapply confirm_held.
Qed.

(** a confirmation is performed once per key.  After a confirmation, as
    long as its record lives (a day when unrouted), the same request returns
    the same order and ticket count, marked as replayed, and changes nothing;
    another request under the same key is refused. *)
Theorem confirm_idempotent tx env p db result db' :
  allTicketed db -> confirmReservationTx tx env p db = Ok (result, db') -> cr_replayed result = false ->
  exists row, recorded tx (commandInput OperationReservationConfirm p) row db' /\ clk_acquire env < ir_expires row /\
    (tx_route tx = None -> ir_expires row = clk_acquire env + day) /\
    forall env', clk_acquire env' < ir_expires row ->
      (commitFails env' = false -> confirmReservationTx tx env' p db' =
         Ok (mkConfirmResult (cr_reservation result) (cr_order result) (cr_tickets result) true, db')) /\
      (forall p', rc_user p' = rc_user p -> rc_key p' = rc_key p -> rc_fingerprint p' <> rc_fingerprint p ->
         inputValid (commandInput OperationReservationConfirm p') = true ->
         confirmReservationTx tx env' p' db' = Err ErrIdempotencyConflict).
Proof.
  intros Hi H Hrep. destruct (confirm_settles _ _ _ _ _ _ Hi H Hrep) as (Hload & Hv & Hn & row & Hrec & Hlt & Hday & Hc & Hres).
  exists row. split_and!; auto. intros env' Hlt'. split.
  - intros Hcf. unfold confirmReservationTx. cbv zeta. unfold bindM at 1.
    rewrite (recorded_replay _ _ _ _ _ _ Hrec Hv Hlt' Hc Hres Hn). cbn [acq_replayed acq_resource].
    unfold bindM at 1. rewrite Hload. unfold bindM, Commit. rewrite Hcf. reflexivity.
  - intros p' Hu Hk Hne Hv'. unfold confirmReservationTx. cbv zeta. unfold bindM at 1.
    rewrite (recorded_conflict tx env' (commandInput OperationReservationConfirm p)
      (commandInput OperationReservationConfirm p') row db' Hrec Hv'); [done| |done|done].
    unfold inputKey, commandInput. cbn. congruence.
Qed.

Lemma confirm_idempotent_witness : exists result db',
  confirmReservationTx Begin (Example.env 200 4000%N) (Example.command 5%N 1002%N 3) heldDb = Ok (result, db') /\
  confirmReservationTx Begin (Example.env 201 5000%N) (Example.command 5%N 1002%N 3) db' =
    Ok (mkConfirmResult (cr_reservation result) (cr_order result) (cr_tickets result) true, db').
Proof.
  assert (Hok : okAnd (fun x : ConfirmResult * DB => negb (cr_replayed x.1))
    (confirmReservationTx Begin (Example.env 200 4000%N) (Example.command 5%N 1002%N 3) heldDb) = true)
    by (vm_compute; reflexivity).
  apply okAnd_true in Hok as ([result db'] & E & Hr%negb_true_iff). exists result, db'. split; [exact E|].
  assert (Hi : allTicketed heldDb) by (apply (executeAll_inv allTicketed (take 2 exampleCommands) (_, _)), allTicketed_db0).
  destruct (confirm_idempotent Begin (Example.env 200 4000%N) (Example.command 5%N 1002%N 3) heldDb result db' Hi E Hr)
    as (row & _ & _ & Hday & H).
  refine (proj1 (H (Example.env 201 5000%N) _) eq_refl). rewrite (Hday eq_refl). reflexivity.
Defined.
