(* ===== verification/WaitingRoom.v ===== *)
(** * The admission waiting room

    Models the Redis scripts of one policy generation:
    [src/internal/admission/redis/scripts.go] and the script of
    [finalize_committed.go].  Redis runs a script atomically, so a script is a
    function from the generation's keys to a reply and the new keys; [now] is
    its reading of TIME in milliseconds.

    The sorted sets are finite maps from member to score, listed by score and
    then by member.  A hash with fields [id|suffix] is one finite map per
    suffix: HGET of an absent field is a missing key, and HSET on the status
    field of a deleted record leaves a record with only that field.  The
    fields the scripts always write and delete together are one map:
    [EntryData] has q, o, f, p, r, c, a, b, n, j and [TokenData] has e, o, f, p,
    v, r, c, a, b, pc, k, n, i, x; bf and ih are one map, and so are lo and le.
    Identifiers and hashes are numbers whose order is that of their
    fixed-width lower-case hexadecimal form.  The finite life times that the
    scripts give to whole keys (PX, PEXPIRE) are not modelled: the keys of a
    generation are refreshed together, and their loss is what the continuity
    marker is for. *)

From S2P Require Import Prelude.

(** ** The keys of a generation *)
Abbreviation id := N.
Abbreviation owner := N.

Inductive EStatus := Queued | EntryAdmitted | EntryExpired | EntryCancelled.
Inductive TStatus := Issued | Processing | Consumed | TokenExpired | TokenCancelled.

#[export] Instance EStatus_eq_dec : EqDecision EStatus.
Proof. solve_decision. Defined.
#[export] Instance TStatus_eq_dec : EqDecision TStatus.
Proof. solve_decision. Defined.

(** The request that an entry carries (p, r, c, a, b, n). *)
Record Info := mkInfo {
  in_policy : string; in_run : string; in_class : string; in_from : Z; in_to : Z; in_count : Z }.

Record EntryData := mkEntryData {
  e_seq : Z; e_owner : owner; e_fingerprint : N; e_info : Info; e_joined : Z }.

Record TokenData := mkTokenData {
  t_entry : id; t_owner : owner; t_fingerprint : N; t_info : Info; t_version : Z;
  t_kid : string; t_nonce : string; t_issued : Z; t_expires : Z }.

Record Entries := mkEntries {
  eData : gmap id EntryData; eStatus : gmap id EStatus; eExpiry : gmap id Z;
  eToken : gmap id id; eAdmitted : gmap id Z }.

Record Tokens := mkTokens {
  tData : gmap id TokenData; tStatus : gmap id TStatus; tDelivered : gmap id bool;
  tGen : gmap id Z; tBinding : gmap id (N * N); tLease : gmap id (N * Z); tCancel : gset id }.

(** A member of the leases: ["entry:" .. id] or a token. *)
Inductive Member := MEntry (e : id) | MToken (t : id).

#[export] Instance Member_eq_dec : EqDecision Member.
Proof. solve_decision. Defined.
#[export] Program Instance Member_countable : Countable Member :=
  inj_countable' (fun m => match m with MEntry e => inl e | MToken t => inr t end)
                 (fun s => match s with inl e => MEntry e | inr t => MToken t end) _.
Next Obligation. by intros []. Qed.

Record Gen := mkGen {
  policyVersion : option Z; continuity : option Z; queue : gmap id Z; sequence : Z;
  entries : Entries; users : gmap owner id; tokens : Tokens;
  inflight : gmap id Z; rate : gmap id Z; leases : gmap Member Z }.

Definition setMarkers g p c := mkGen p c (queue g) (sequence g) (entries g) (users g) (tokens g) (inflight g) (rate g) (leases g).
Definition setQueue g v := mkGen (policyVersion g) (continuity g) v (sequence g) (entries g) (users g) (tokens g) (inflight g) (rate g) (leases g).
Definition setSequence g v := mkGen (policyVersion g) (continuity g) (queue g) v (entries g) (users g) (tokens g) (inflight g) (rate g) (leases g).
Definition setEntries g v := mkGen (policyVersion g) (continuity g) (queue g) (sequence g) v (users g) (tokens g) (inflight g) (rate g) (leases g).
Definition setUsers g v := mkGen (policyVersion g) (continuity g) (queue g) (sequence g) (entries g) v (tokens g) (inflight g) (rate g) (leases g).
Definition setTokens g v := mkGen (policyVersion g) (continuity g) (queue g) (sequence g) (entries g) (users g) v (inflight g) (rate g) (leases g).
Definition setInflight g v := mkGen (policyVersion g) (continuity g) (queue g) (sequence g) (entries g) (users g) (tokens g) v (rate g) (leases g).
Definition setRate g v := mkGen (policyVersion g) (continuity g) (queue g) (sequence g) (entries g) (users g) (tokens g) (inflight g) v (leases g).
Definition setLeases g v := mkGen (policyVersion g) (continuity g) (queue g) (sequence g) (entries g) (users g) (tokens g) (inflight g) (rate g) v.

Definition setEStatus g e s :=
  setEntries g (mkEntries (eData (entries g)) (<[e := s]> (eStatus (entries g))) (eExpiry (entries g)) (eToken (entries g)) (eAdmitted (entries g))).
Definition deleteEntry g e :=
  setEntries g (mkEntries (delete e (eData (entries g))) (delete e (eStatus (entries g))) (delete e (eExpiry (entries g)))
    (delete e (eToken (entries g))) (delete e (eAdmitted (entries g)))).

Definition setTStatus g t s :=
  setTokens g (mkTokens (tData (tokens g)) (<[t := s]> (tStatus (tokens g))) (tDelivered (tokens g)) (tGen (tokens g)) (tBinding (tokens g)) (tLease (tokens g)) (tCancel (tokens g))).
Definition setDelivered g t :=
  setTokens g (mkTokens (tData (tokens g)) (tStatus (tokens g)) (<[t := true]> (tDelivered (tokens g))) (tGen (tokens g)) (tBinding (tokens g)) (tLease (tokens g)) (tCancel (tokens g))).
Definition setGen g t n :=
  setTokens g (mkTokens (tData (tokens g)) (tStatus (tokens g)) (tDelivered (tokens g)) (<[t := n]> (tGen (tokens g))) (tBinding (tokens g)) (tLease (tokens g)) (tCancel (tokens g))).
Definition setBinding g t b :=
  setTokens g (mkTokens (tData (tokens g)) (tStatus (tokens g)) (tDelivered (tokens g)) (tGen (tokens g)) (<[t := b]> (tBinding (tokens g))) (tLease (tokens g)) (tCancel (tokens g))).
Definition setLease g t l :=
  setTokens g (mkTokens (tData (tokens g)) (tStatus (tokens g)) (tDelivered (tokens g)) (tGen (tokens g)) (tBinding (tokens g)) (<[t := l]> (tLease (tokens g))) (tCancel (tokens g))).
Definition dropLease g t :=
  setTokens g (mkTokens (tData (tokens g)) (tStatus (tokens g)) (tDelivered (tokens g)) (tGen (tokens g)) (tBinding (tokens g)) (delete t (tLease (tokens g))) (tCancel (tokens g))).
Definition setCancel g t :=
  setTokens g (mkTokens (tData (tokens g)) (tStatus (tokens g)) (tDelivered (tokens g)) (tGen (tokens g)) (tBinding (tokens g)) (tLease (tokens g)) ({[t]} ∪ tCancel (tokens g))).
Definition dropCancel g t :=
  setTokens g (mkTokens (tData (tokens g)) (tStatus (tokens g)) (tDelivered (tokens g)) (tGen (tokens g)) (tBinding (tokens g)) (tLease (tokens g)) (tCancel (tokens g) ∖ {[t]})).
Definition deleteToken g t :=
  setTokens g (mkTokens (delete t (tData (tokens g))) (delete t (tStatus (tokens g))) (delete t (tDelivered (tokens g)))
    (delete t (tGen (tokens g))) (delete t (tBinding (tokens g))) (delete t (tLease (tokens g))) (tCancel (tokens g) ∖ {[t]})).

(** ZREM and ZADD. *)
Definition zremQueue g e := setQueue g (delete e (queue g)).
Definition zremInflight g t := setInflight g (delete t (inflight g)).
Definition zremLease g m := setLeases g (delete m (leases g)).
Definition zaddLease g m score := setLeases g (<[m := score]> (leases g)).

(** [if owner and entry and HGET(users, owner) == entry then HDEL]. *)
Definition dropUser g (o : option owner) (e : option id) : Gen :=
  match o, e with
  | Some o, Some e => if bool_decide (users g !! o = Some e) then setUsers g (delete o (users g)) else g
  | _, _ => g
  end.

(** ZRANGE 0 stop by (score, member); a negative [stop] counts from the end. *)
Definition scoreOrder (a b : id * Z) : bool := (a.2 <? b.2) || (a.2 =? b.2) && (a.1 <=? b.1)%N.
Definition zrange (z : gmap id Z) (stop : Z) : list id :=
  let l := map fst (sortBy scoreOrder (map_to_list z)) in
  take (Z.to_nat (if stop <? 0 then Z.of_nat (length l) + stop + 1 else stop + 1)) l.

(** The rank of a member, from 1, and -1 when it is absent. *)
Definition rankOf (z : gmap id Z) (e : id) : Z :=
  match z !! e with
  | None => -1
  | Some s => 1 + Z.of_nat (length (filter (fun kv : id * Z => scoreOrder kv (e, s) && negb (bool_decide (kv.1 = e)) = true)
                                      (map_to_list z)))
  end.

(** The order of the lease members as strings: ["entry:"] sorts after every
    token whose first hexadecimal digit is at most [e]. *)
Definition memberLe (a b : Member) : bool :=
  match a, b with
  | MEntry x, MEntry y => (x <=? y)%N
  | MToken x, MToken y => (x <=? y)%N
  | MToken x, MEntry _ => (x <? 15 * 2 ^ 252)%N
  | MEntry _, MToken y => negb (y <? 15 * 2 ^ 252)%N
  end.
Definition memberOrder (a b : Member * Z) : bool := (a.2 <? b.2) || (a.2 =? b.2) && memberLe a.1 b.1.

(** ZRANGEBYSCORE -inf now LIMIT 0 n. *)
Definition dueMembers (z : gmap Member Z) (now n : Z) : list Member :=
  let l := map fst (sortBy memberOrder (filter (fun kv : Member * Z => kv.2 <= now) (map_to_list z))) in
  if n <? 0 then l else take (Z.to_nat n) l.
Definition dueTokens (z : gmap id Z) (now n : Z) : list id :=
  let l := map fst (sortBy scoreOrder (filter (fun kv : id * Z => kv.2 <= now) (map_to_list z))) in
  if n <? 0 then l else take (Z.to_nat n) l.

(** The fields the scripts read. *)
Definition ownerOfEntry g e : option owner := e_owner <$> eData (entries g) !! e.
Definition expiryOfEntry g e : Z := default 0 (eExpiry (entries g) !! e).
Definition entryOfToken g t : option id := t_entry <$> tData (tokens g) !! t.
Definition ownerOfToken g t : option owner := t_owner <$> tData (tokens g) !! t.
Definition expiryOfToken g t : Z := default 0 (t_expires <$> tData (tokens g) !! t).

Definition notVersion (v : option Z) (expected : Z) : bool := negb (bool_decide (v = Some expected)).

(** ** installPolicyScript *)
Inductive InstallReply := InstallOk | InstallContinuityLost | InstallPolicyMismatch.

Definition installPolicy (g : Gen) (expected : Z) (allowCreate : bool) : InstallReply * Gen :=
  match policyVersion g with
  | None => if negb allowCreate then (InstallContinuityLost, g) else (InstallOk, setMarkers g (Some expected) (Some expected))
  | Some current =>
      if current =? expected then
        if notVersion (continuity g) expected then (InstallContinuityLost, g) else (InstallOk, g)
      else if negb allowCreate || (expected <=? current) then (InstallPolicyMismatch, g)
      else (InstallOk, setMarkers g (Some expected) (Some expected))
  end.

(** ** joinScript *)
(** The columns of an entry in a reply. *)
Record EntryView := mkView {
  v_entry : id; v_data : option EntryData; v_status : EStatus; v_expires : Z; v_rank : Z; v_version : Z;
  v_admitted : option Z }.

Inductive Reply (A : Type) :=
| PolicyMismatch | ContinuityLost | NotFound | OwnerMismatch | Expired | NotAdmitted | AlreadyDelivered
| JoinConflict | QueueFull | Terminal | InProgress | Mismatch | StaleLease | Done (a : A).
Arguments PolicyMismatch {A}. Arguments ContinuityLost {A}. Arguments NotFound {A}. Arguments OwnerMismatch {A}.
Arguments Expired {A}. Arguments NotAdmitted {A}. Arguments AlreadyDelivered {A}. Arguments JoinConflict {A}.
Arguments QueueFull {A}. Arguments Terminal {A}. Arguments InProgress {A}. Arguments Mismatch {A}.
Arguments StaleLease {A}. Arguments Done {A} _.

(** [if GET(policy) ~= expected ... if GET(continuity) ~= expected ...]. *)
Notation "'guarded' g 'at' v 'do' k" :=
  (if notVersion (policyVersion g) v then (PolicyMismatch, g) else if notVersion (continuity g) v then (ContinuityLost, g) else k)
  (at level 10, g at level 9, v at level 9, k at level 200).

Definition expireEntry (now : Z) (g : Gen) (e : id) : Gen :=
  let previous := ownerOfEntry g e in
  let g := setEStatus (zremQueue g e) e EntryExpired in
  zaddLease (dropUser g previous (Some e)) (MEntry e) (now + 60000).

Definition expireStale (now : Z) (g : Gen) (e : id) : Gen :=
  let x := expiryOfEntry g e in
  if (0 <? x) && (x <=? now) then expireEntry now g e else g.

Record JoinArgs := mkJoin {
  ja_version : Z; ja_owner : owner; ja_entry : id; ja_fingerprint : N; ja_info : Info; ja_max_queue : Z; ja_ttl : Z }.

Definition entryView (g : Gen) (e : id) (s : EStatus) (expires version : Z) : EntryView :=
  mkView e (eData (entries g) !! e) s expires (rankOf (queue g) e) version (eAdmitted (entries g) !! e).

(** The second part of the script: a new entry at the end of the queue. *)
Definition enqueue (now : Z) (g : Gen) (a : JoinArgs) : Reply (bool * EntryView) * Gen :=
  if ja_max_queue a <=? Z.of_nat (size (queue g)) then (QueueFull, g) else
  let seq := sequence g + 1 in
  let expires := now + ja_ttl a in
  let e := ja_entry a in
  let data := mkEntryData seq (ja_owner a) (ja_fingerprint a) (ja_info a) now in
  let g := setQueue (setSequence g seq) (<[e := seq]> (queue g)) in
  let g := setEntries g (mkEntries (<[e := data]> (eData (entries g))) (<[e := Queued]> (eStatus (entries g)))
             (<[e := expires]> (eExpiry (entries g))) (eToken (entries g)) (eAdmitted (entries g))) in
  let g := setUsers g (<[ja_owner a := e]> (users g)) in
  (Done (false, mkView e (Some data) Queued expires (Z.of_nat (size (queue g))) (ja_version a) None), g).

Definition join (now : Z) (g : Gen) (a : JoinArgs) : Reply (bool * EntryView) * Gen :=
  guarded g at (ja_version a) do
    let g := foldl (expireStale now) g (zrange (queue g) 63) in
    match users g !! ja_owner a with
    | Some existing =>
        match eStatus (entries g) !! existing with
        | Some (Queued | EntryAdmitted) as st =>
            if now <? expiryOfEntry g existing then
              if negb (bool_decide (e_fingerprint <$> eData (entries g) !! existing = Some (ja_fingerprint a)))
              then (JoinConflict, g)
              else (Done (true, entryView g existing (default Queued st) (expiryOfEntry g existing) (ja_version a)), g)
            else enqueue now (setUsers g (delete (ja_owner a) (users g))) a
        | _ => enqueue now (setUsers g (delete (ja_owner a) (users g))) a
        end
    | None => enqueue now g a
    end.

(** ** getScript: reading an entry, and claiming its token's delivery *)
Record Delivery := mkDelivery {
  dl_token : id; dl_kid : string; dl_version : Z; dl_entry : id; dl_owner : owner; dl_data : option EntryData;
  dl_issued : Z; dl_expires : Z; dl_nonce : string }.

Definition deliveryOf (g : Gen) (e t : id) (o : owner) (expected : Z) : Delivery :=
  let d := tData (tokens g) !! t in
  mkDelivery t (default EmptyString (t_kid <$> d)) expected e o (eData (entries g) !! e)
    (default 0 (t_issued <$> d)) (expiryOfToken g t) (default EmptyString (t_nonce <$> d)).

(** terminalize_expired of getScript and issueScript: the tombstone stays for
    [retention]. *)
Definition terminalizeExpired (now retention : Z) (g : Gen) (t : id) : Gen :=
  let e := entryOfToken g t in
  let o := ownerOfToken g t in
  let g := zremLease (zremInflight g t) (MToken t) in
  let g := dropUser g o e in
  let g := match e with Some e => setEStatus (zremQueue g e) e EntryExpired | None => g end in
  let g := dropCancel (dropLease (setTStatus g t TokenExpired) t) t in
  zaddLease g (MToken t) (now + retention).

Inductive GetReply := GotEntry (v : EntryView) | GotDelivery (d : Delivery).

Definition get (now : Z) (g : Gen) (expected : Z) (e : id) (o : owner) (claim : bool) : Reply GetReply * Gen :=
  guarded g at expected do
    match eStatus (entries g) !! e with
    | None => (NotFound, g)
    | Some status =>
        if negb (bool_decide (ownerOfEntry g e = Some o)) then (OwnerMismatch, g) else
        let expiry := expiryOfEntry g e in
        if bool_decide (status = Queued) && (expiry <=? now) then
          let g := dropUser (zremQueue g e) (Some o) (Some e) in
          (Expired, zaddLease (setEStatus g e EntryExpired) (MEntry e) (now + 60000))
        else
        match (if bool_decide (status = EntryAdmitted)
               then t ← eToken (entries g) !! e; if expiryOfToken g t <=? now then Some t else None else None) with
        | Some t => (Expired, terminalizeExpired now 60000 g t)
        | None =>
            if claim then
              if negb (bool_decide (status = EntryAdmitted)) then (NotAdmitted, g) else
              match eToken (entries g) !! e with
              | None => (NotAdmitted, g)
              | Some t =>
                  if negb (bool_decide (tDelivered (tokens g) !! t = Some false)) then (AlreadyDelivered, g) else
                  if expiryOfToken g t <=? now then (Expired, g) else
                  (Done (GotDelivery (deliveryOf g e t o expected)), setDelivered g t)
              end
            else (Done (GotEntry (entryView g e status expiry expected)), g)
        end
    end.

(** ** inspectDeliveryScript and inspectTokenScript: read only *)
Definition inspectDelivery (now : Z) (g : Gen) (expected : Z) (e : id) (o : owner) : Reply Delivery * Gen :=
  guarded g at expected do
    match eStatus (entries g) !! e with
    | None => (NotFound, g)
    | Some status =>
        if negb (bool_decide (ownerOfEntry g e = Some o)) then (OwnerMismatch, g) else
        if bool_decide (status = EntryExpired) then (Expired, g) else
        if negb (bool_decide (status = EntryAdmitted)) then (NotAdmitted, g) else
        match eToken (entries g) !! e with
        | None => (NotAdmitted, g)
        | Some t =>
            if negb (bool_decide (tDelivered (tokens g) !! t = Some false)) then (AlreadyDelivered, g) else
            if expiryOfToken g t <=? now then (Expired, g) else
            (Done (deliveryOf g e t o expected), g)
        end
    end.

Definition inspectToken (g : Gen) (expected : Z) (t : id) : Reply (option TokenData) * Gen :=
  guarded g at expected do
    match tStatus (tokens g) !! t with
    | None => (NotFound, g)
    | Some _ => (Done (tData (tokens g) !! t), g)
    end.

(** ** cancelScript *)
Definition terminalToken (s : TStatus) : bool :=
  match s with Consumed | TokenExpired | TokenCancelled => true | _ => false end.

(** The reply says whether the entry was deleted at once. *)
Definition cancel (g : Gen) (expected : Z) (e : id) (o : owner) : Reply bool * Gen :=
  guarded g at expected do
    match eStatus (entries g) !! e with
    | None => (NotFound, g)
    | Some status =>
        if negb (bool_decide (ownerOfEntry g e = Some o)) then (OwnerMismatch, g) else
        if bool_decide (status = EntryCancelled) || bool_decide (status = EntryExpired) then (Terminal, g) else
        let token := eToken (entries g) !! e in
        let tokenStatus := t ← token; tStatus (tokens g) !! t in
        match token, tokenStatus with
        | Some t, Some Processing => (InProgress, setCancel g t)
        | Some t, Some (Consumed | TokenExpired | TokenCancelled) => (Terminal, g)
        | _, _ =>
            let g := dropUser (zremQueue g e) (Some o) (Some e) in
            let g := setEStatus g e EntryCancelled in
            match token with
            | Some t =>
                let g := zremLease (zremInflight g t) (MToken t) in
                let g := dropCancel (dropLease (setTStatus g t TokenCancelled) t) t in
                (Done false, if 0 <? expiryOfToken g t then zaddLease g (MToken t) (expiryOfToken g t) else g)
            | None => (Done true, deleteEntry (zremLease g (MEntry e)) e)
            end
        end
    end.

(** ** peekScript: the first [limit] live queued entries among twice as many *)
Definition peek (now : Z) (g : Gen) (expected limit : Z) : Reply (list EntryView) * Gen :=
  guarded g at expected do
    let live := fun e => bool_decide (eStatus (entries g) !! e = Some Queued) && (now <? expiryOfEntry g e) in
    (Done (map (fun e => entryView g e Queued (expiryOfEntry g e) expected)
             (take (Z.to_nat limit) (filter (fun e => live e = true) (zrange (queue g) (limit * 2 - 1))))), g).

(** ** issueScript *)
Record Candidate := mkCandidate {
  cd_entry : id; cd_token : id; cd_kid : string; cd_nonce : string; cd_issued : Z; cd_expires : Z;
  cd_owner : owner; cd_fingerprint : N }.

(** The request's [requested] is the number of candidates. *)
Record IssueArgs := mkIssue {
  ia_version : Z; ia_rate : Z; ia_inflight : Z; ia_token_ttl : Z; ia_cleanup : Z; ia_candidates : list Candidate }.

Record IssueReport := mkReport { ir_recovered : Z; ir_expired_tokens : Z; ir_expired_entries : Z; ir_issued : list id }.

Definition terminalizeEntryExpired (now : Z) (g : Gen) (e : id) : Gen :=
  let o := ownerOfEntry g e in
  let g := dropUser (zremQueue g e) o (Some e) in
  zaddLease (setEStatus g e EntryExpired) (MEntry e) (now + 60000).

Definition deleteTokenState (g : Gen) (t : id) : Gen :=
  let e := entryOfToken g t in
  let o := ownerOfToken g t in
  let g := dropUser g o e in
  let g := match e with Some e => deleteEntry (zremQueue g e) e | None => g end in
  deleteToken (zremLease (zremInflight g t) (MToken t)) t.

Definition terminalizeCancelled (now : Z) (g : Gen) (t : id) : Gen :=
  let e := entryOfToken g t in
  let o := ownerOfToken g t in
  let expiry := expiryOfToken g t in
  let g := zremLease (zremInflight g t) (MToken t) in
  let g := dropUser g o e in
  let g := match e with Some e => setEStatus (zremQueue g e) e EntryCancelled | None => g end in
  let g := dropCancel (dropLease (setTStatus g t TokenCancelled) t) t in
  if now <? expiry then zaddLease g (MToken t) expiry else deleteTokenState g t.

(** The loop over the expired leases. *)
Definition sweepLease (now retention : Z) (st : Gen * Z * Z) (m : Member) : Gen * Z * Z :=
  let '(g, recovered, expired) := st in
  let g := zremLease g m in
  match m with
  | MEntry e =>
      let g := dropUser g (ownerOfEntry g e) (Some e) in
      (deleteEntry (zremQueue g e) e, recovered, expired)
  | MToken t =>
      match tStatus (tokens g) !! t with
      | Some Processing =>
          if expiryOfToken g t <=? now then (terminalizeExpired now retention g t, recovered, expired + 1)
          else if bool_decide (t ∈ tCancel (tokens g)) then (terminalizeCancelled now g t, recovered, expired)
          else (dropLease (setTStatus g t Issued) t, recovered + 1, expired)
      | Some (Consumed | TokenCancelled | TokenExpired) => (deleteTokenState g t, recovered, expired)
      | _ => (g, recovered, expired)
      end
  end.

(** The loop over the expired inflight tokens. *)
Definition sweepInflight (now retention : Z) (st : Gen * Z * Z) (t : id) : Gen * Z * Z :=
  let '(g, recovered, expired) := st in
  match tStatus (tokens g) !! t with
  | Some (Issued | Processing) => (terminalizeExpired now retention g t, recovered, expired + 1)
  | _ => (deleteTokenState g t, recovered, expired)
  end.

(** The loop over the head of the queue. *)
Definition sweepQueue (now : Z) (st : Gen * Z) (e : id) : Gen * Z :=
  let '(g, n) := st in
  if bool_decide (eStatus (entries g) !! e = Some Queued) && (expiryOfEntry g e <=? now)
  then (terminalizeEntryExpired now g e, n + 1) else (g, n).

(** What makes a candidate's token valid for its entry. *)
Definition issuable (now : Z) (ttl : Z) (g : Gen) (c : Candidate) : bool :=
  bool_decide (eStatus (entries g) !! cd_entry c = Some Queued) && (now <? expiryOfEntry g (cd_entry c)) &&
  (cd_issued c <=? now + 5000) && (now <? cd_expires c) && (cd_expires c - cd_issued c <=? ttl + 1000) &&
  bool_decide (ownerOfEntry g (cd_entry c) = Some (cd_owner c)) &&
  bool_decide (e_fingerprint <$> eData (entries g) !! cd_entry c = Some (cd_fingerprint c)) &&
  negb (bool_decide (is_Some (tStatus (tokens g) !! cd_token c))).

Definition issueOne (now version : Z) (g : Gen) (c : Candidate) (d : EntryData) : Gen :=
  let e := cd_entry c in
  let t := cd_token c in
  let retention := Z.max (expiryOfEntry g e) (cd_expires c) in
  let data := mkTokenData e (e_owner d) (e_fingerprint d) (e_info d) version (cd_kid c) (cd_nonce c) (cd_issued c) (cd_expires c) in
  let tk := tokens g in
  let g := setTokens g (mkTokens (<[t := data]> (tData tk)) (<[t := Issued]> (tStatus tk)) (<[t := false]> (tDelivered tk))
             (<[t := 0]> (tGen tk)) (tBinding tk) (tLease tk) (tCancel tk)) in
  let en := entries g in
  let g := setEntries g (mkEntries (eData en) (<[e := EntryAdmitted]> (eStatus en)) (<[e := retention]> (eExpiry en))
             (<[e := t]> (eToken en)) (<[e := now]> (eAdmitted en))) in
  let g := zremQueue g e in
  setRate (setInflight g (<[t := cd_expires c]> (inflight g))) (<[t := now]> (rate g)).

(** The issuing loop: it stops at the first candidate that is not the entry
    at its place in the queue. *)
Fixpoint issueLoop (now version ttl : Z) (queued : list id) (cs : list Candidate) (g : Gen) (expired : Z) (issued : list id)
    : Gen * Z * list id :=
  match queued, cs with
  | e :: queued', c :: cs' =>
      if negb (bool_decide (cd_entry c = e)) then (g, expired, issued) else
      if bool_decide (eStatus (entries g) !! e = Some Queued) && (expiryOfEntry g e <=? now) then
        issueLoop now version ttl queued' cs' (terminalizeEntryExpired now g e) (expired + 1) issued
      else
      match eData (entries g) !! e with
      | Some d =>
          if issuable now ttl g c then issueLoop now version ttl queued' cs' (issueOne now version g c d) expired (issued ++ [e])
          else issueLoop now version ttl queued' cs' g expired issued
      | None => issueLoop now version ttl queued' cs' g expired issued
      end
  | _, _ => (g, expired, issued)
  end.

(** The three sweeps that precede issuing. *)
Definition maintain (now retention cleanup : Z) (g : Gen) : Gen * Z * Z * Z :=
  let '(g, recovered, expired) := foldl (sweepLease now retention) (g, 0, 0) (dueMembers (leases g) now cleanup) in
  let '(g, recovered, expired) := foldl (sweepInflight now retention) (g, recovered, expired) (dueTokens (inflight g) now cleanup) in
  let '(g, entriesExpired) := foldl (sweepQueue now) (g, 0) (zrange (queue g) (cleanup - 1)) in
  (g, recovered, expired, entriesExpired).

Definition issue (now : Z) (g : Gen) (a : IssueArgs) : Reply IssueReport * Gen :=
  guarded g at (ia_version a) do
    let '(g, recovered, expired, entriesExpired) := maintain now (Z.max (ia_token_ttl a) 60000) (ia_cleanup a) g in
    let g := setRate g (filter (fun kv : id * Z => ~ kv.2 <= now - 1000) (rate g)) in
    let capacity := Z.min (Z.of_nat (length (ia_candidates a)))
                      (Z.min (ia_rate a - Z.of_nat (size (rate g))) (ia_inflight a - Z.of_nat (size (inflight g)))) in
    if capacity <=? 0 then (Done (mkReport recovered expired entriesExpired []), g) else
    let '(g, entriesExpired, issued) :=
      issueLoop now (ia_version a) (ia_token_ttl a) (zrange (queue g) (capacity - 1)) (ia_candidates a) g entriesExpired [] in
    (Done (mkReport recovered expired entriesExpired issued), g).

(** ** acquireScript *)
Record AcquireArgs := mkAcquire {
  aa_version : Z; aa_token : id; aa_owner : owner; aa_fingerprint : N; aa_binding : N * N;
  aa_from : Z; aa_to : Z; aa_class : string; aa_count : Z; aa_lease_owner : N; aa_lease : Z }.

Inductive AcquireReply := Acquired (leaseOwner : N) (generation : Z) | RetryAllowed (after : Z) | ReplayAllowed.

Definition expireToken (now : Z) (g : Gen) (t : id) : Gen :=
  let e := entryOfToken g t in
  let o := ownerOfToken g t in
  let g := zremLease (zremInflight g t) (MToken t) in
  let g := dropUser g o e in
  let g := match e with Some e => setEStatus g e EntryExpired | None => g end in
  let g := dropCancel (dropLease (setTStatus g t TokenExpired) t) t in
  zaddLease g (MToken t) (now + 60000).

(** The end of cancel_token, releaseScript and finalizeScript: the tombstone
    stays until the token's expiry, or a minute when that has passed. *)
Definition tombstone (now : Z) (g : Gen) (t : id) (expires : Z) : Gen :=
  zaddLease g (MToken t) (if expires <=? now then now + 60000 else expires).

Definition cancelToken (now : Z) (g : Gen) (t : id) : Gen :=
  let e := entryOfToken g t in
  let o := ownerOfToken g t in
  let expires := expiryOfToken g t in
  let g := zremLease (zremInflight g t) (MToken t) in
  let g := dropUser g o e in
  let g := match e with Some e => setEStatus g e EntryCancelled | None => g end in
  let g := dropCancel (dropLease (setTStatus g t TokenCancelled) t) t in
  tombstone now g t expires.

Definition bindingMatches (a : AcquireArgs) (d : TokenData) : bool :=
  bool_decide (t_owner d = aa_owner a) && bool_decide (t_fingerprint d = aa_fingerprint a) &&
  (in_from (t_info d) =? aa_from a) && (in_to (t_info d) =? aa_to a) &&
  bool_decide (in_class (t_info d) = aa_class a) && (in_count (t_info d) =? aa_count a).

(** The last part of the script: a new lease on an issued token. *)
Definition grantLease (now : Z) (g : Gen) (a : AcquireArgs) : Reply AcquireReply * Gen :=
  let t := aa_token a in
  if expiryOfToken g t - now <? aa_lease a then (Expired, expireToken now g t) else
  let g := match tBinding (tokens g) !! t with None => setBinding g t (aa_binding a) | Some _ => g end in
  let generation := default 0 (tGen (tokens g) !! t) + 1 in
  let g := setGen g t generation in
  let g := setLease (setTStatus g t Processing) t (aa_lease_owner a, now + aa_lease a) in
  (Done (Acquired (aa_lease_owner a) generation), zaddLease g (MToken t) (now + aa_lease a)).

Definition acquire (now : Z) (g : Gen) (a : AcquireArgs) : Reply AcquireReply * Gen :=
  guarded g at (aa_version a) do
    let t := aa_token a in
    match tStatus (tokens g) !! t with
    | None => (NotFound, g)
    | Some status =>
        if negb (match tData (tokens g) !! t with Some d => bindingMatches a d | None => false end) then (Mismatch, g) else
        if match tBinding (tokens g) !! t with Some b => negb (bool_decide (b = aa_binding a)) | None => false end
        then (Mismatch, g) else
        match status with
        | Processing =>
            let leaseExpires := default 0 (snd <$> tLease (tokens g) !! t) in
            if now <? leaseExpires then (Done (RetryAllowed (leaseExpires - now)), g) else
            if bool_decide (t ∈ tCancel (tokens g)) then (Terminal, cancelToken now g t) else
            grantLease now (zremLease (dropLease (setTStatus g t Issued) t) (MToken t)) a
        | Consumed =>
            if expiryOfToken g t <=? now then (Expired, expireToken now g t) else (Done ReplayAllowed, g)
        | Issued => grantLease now g a
        | _ => (Terminal, g)
        end
    end.

(** ** releaseScript and finalizeScript *)
Record LeaseArgs := mkLeaseArgs {
  la_version : Z; la_token : id; la_owner : owner; la_binding : N * N; la_lease_owner : N; la_generation : Z }.

(** The guards both scripts start with. *)
Definition leaseCheck {A} (g : Gen) (a : LeaseArgs) : Reply A + unit :=
  let t := la_token a in
  match tStatus (tokens g) !! t with
  | None => inl NotFound
  | Some status =>
      if negb (bool_decide (ownerOfToken g t = Some (la_owner a))) ||
         negb (bool_decide (tBinding (tokens g) !! t = Some (la_binding a))) then inl Mismatch else
      if negb (bool_decide (status = Processing)) ||
         negb (bool_decide (fst <$> tLease (tokens g) !! t = Some (la_lease_owner a))) ||
         negb (bool_decide (tGen (tokens g) !! t = Some (la_generation a))) then inl StaleLease else
      inr tt
  end.

(** The reply says whether the token was cancelled. *)
Definition releaseLease (now : Z) (g : Gen) (a : LeaseArgs) (permanent : bool) : Reply bool * Gen :=
  guarded g at (la_version a) do
    match leaseCheck g a with
    | inl r => (r, g)
    | inr _ =>
        let t := la_token a in
        let g := zremLease g (MToken t) in
        if permanent || bool_decide (t ∈ tCancel (tokens g)) then (Done true, cancelToken now g t)
        else (Done false, dropCancel (dropLease (setTStatus g t Issued) t) t)
    end.

(** From ZREM to the end of finalizeScript and finalizeCommittedScript. *)
Definition consumeToken (now : Z) (g : Gen) (t : id) (restoreEntry : bool) : Gen :=
  let e := entryOfToken g t in
  let o := ownerOfToken g t in
  let expires := expiryOfToken g t in
  let g := zremLease (zremInflight g t) (MToken t) in
  let g := dropUser g o e in
  let g := match e with Some e => if restoreEntry then setEStatus g e EntryAdmitted else g | None => g end in
  let g := dropCancel (dropLease (setTStatus g t Consumed) t) t in
  tombstone now g t expires.

Definition finalize (now : Z) (g : Gen) (a : LeaseArgs) : Reply unit * Gen :=
  guarded g at (la_version a) do
    match leaseCheck g a with
    | inl r => (r, g)
    | inr _ => (Done tt, consumeToken now g (la_token a) false)
    end.

(** finalizeCommittedScript: the durable commit is the authority, so neither
    the policy version nor a lease is required. *)
Definition finalizeCommitted (now : Z) (g : Gen) (expected : Z) (t : id) (o : owner) (b : N * N) : Reply unit * Gen :=
  if notVersion (continuity g) expected then (ContinuityLost, g) else
  match tStatus (tokens g) !! t with
  | None => (NotFound, g)
  | Some _ =>
      if negb (bool_decide (ownerOfToken g t = Some o)) || negb (bool_decide (tBinding (tokens g) !! t = Some b))
      then (Mismatch, g) else
      (Done tt, consumeToken now g t true)
  end.

(** ** putLocatorScript, on its one key *)
Definition putLocator (current : option string) (value : string) : bool * option string :=
  match current with
  | Some c => if negb (bool_decide (c = value)) then (false, current) else (true, Some value)
  | None => (true, Some value)
  end.

(** ** Histories *)
Inductive Script :=
| SInstall (expected : Z) (allowCreate : bool)
| SJoin (a : JoinArgs)
| SGet (expected : Z) (e : id) (o : owner) (claim : bool)
| SCancel (expected : Z) (e : id) (o : owner)
| SIssue (a : IssueArgs)
| SAcquire (a : AcquireArgs)
| SRelease (a : LeaseArgs) (permanent : bool)
| SFinalize (a : LeaseArgs)
| SFinalizeCommitted (expected : Z) (t : id) (o : owner) (b : N * N).

Definition runScript (now : Z) (g : Gen) (s : Script) : Gen :=
  match s with
  | SInstall v c => (installPolicy g v c).2
  | SJoin a => (join now g a).2
  | SGet v e o c => (get now g v e o c).2
  | SCancel v e o => (cancel g v e o).2
  | SIssue a => (issue now g a).2
  | SAcquire a => (acquire now g a).2
  | SRelease a p => (releaseLease now g a p).2
  | SFinalize a => (finalize now g a).2
  | SFinalizeCommitted v t o b => (finalizeCommitted now g v t o b).2
  end.

Definition emptyGen : Gen := mkGen None None ∅ 0 (mkEntries ∅ ∅ ∅ ∅ ∅) ∅ (mkTokens ∅ ∅ ∅ ∅ ∅ ∅ ∅) ∅ ∅ ∅.

Definition runScripts (g : Gen) (h : list (Z * Script)) : Gen := foldl (fun g ns => runScript ns.1 g ns.2) g h.
