(* ===== verification/AdmissionSteps.v ===== *)
(** * The elementary steps of the admission waiting room

    The scripts of [WaitingRoom] decompose into elementary steps ([micro]) and
    at most one new entry; an invariant of the elementary steps holds after
    every script.  The last part follows one token: along a history that does
    not issue it again, it moves by the small machine [tokStep]. *)

From S2P Require Import Prelude WaitingRoom.

(** ** Elementary steps *)

(** The common shape of the operations that end a token's life. *)
Definition finish (o : option owner) (e : option id) (leaveQueue : bool) (es : option EStatus) (ts : TStatus)
    (score : option Z) (g : Gen) (t : id) : Gen :=
  let g := zremLease (zremInflight g t) (MToken t) in
  let g := dropUser g o e in
  let g := match e with
           | Some e => let g := if leaveQueue then zremQueue g e else g in
                       match es with Some s => setEStatus g e s | None => g end
           | None => g
           end in
  let g := dropCancel (dropLease (setTStatus g t ts) t) t in
  match score with Some x => zaddLease g (MToken t) x | None => g end.

Definition live (now : Z) (g : Gen) (e : id) : bool :=
  bool_decide (eStatus (entries g) !! e = Some Queued) && (now <? expiryOfEntry g e).

Definition sweepEntry (g : Gen) (e : id) : Gen :=
  deleteEntry (zremQueue (dropUser g (ownerOfEntry g e) (Some e)) e) e.

Definition recover (g : Gen) (t : id) : Gen := dropLease (setTStatus g t Issued) t.

Definition grant (g : Gen) (t : id) (l : N * Z) : Gen :=
  zaddLease (setLease (setTStatus (setGen g t (default 0 (tGen (tokens g) !! t) + 1)) t Processing) t l) (MToken t) l.2.

(** [iss] restricts which candidates are issued. *)
Inductive micro (now : Z) (iss : Candidate -> Prop) (g : Gen) : Gen -> Prop :=
| m_markers p c : micro now iss g (setMarkers g p c)
| m_expireEntry e : micro now iss g (terminalizeEntryExpired now g e)
| m_sweepEntry e : micro now iss g (sweepEntry g e)
| m_zremLease m : micro now iss g (zremLease g m)
| m_forget o :
    (forall e, users g !! o = Some e -> live now g e = false) ->
    micro now iss g (setUsers g (delete o (users g)))
| m_finish o e q es ts score t :
    terminalToken ts = true -> es <> Some Queued -> (es = None -> e = entryOfToken g t) ->
    micro now iss g (finish o e q es ts score g t)
| m_deleteToken t : micro now iss g (deleteTokenState g t)
| m_recover t : tStatus (tokens g) !! t = Some Processing -> micro now iss g (recover g t)
| m_dropCancel t : micro now iss g (dropCancel g t)
| m_setCancel t : micro now iss g (setCancel g t)
| m_bind t b : micro now iss g (setBinding g t b)
| m_grant t l : tStatus (tokens g) !! t = Some Issued -> micro now iss g (grant g t l)
| m_deliver t : micro now iss g (setDelivered g t)
| m_purge : micro now iss g (setRate g (filter (fun kv : id * Z => ~ kv.2 <= now - 1000) (rate g)))
| m_issue version c d :
    iss c -> live now g (cd_entry c) = true -> eData (entries g) !! cd_entry c = Some d ->
    tStatus (tokens g) !! cd_token c = None -> micro now iss g (issueOne now version g c d).

(** ** The scripts are sequences of elementary steps *)
Lemma terminalizeExpired_finish now r g t :
  terminalizeExpired now r g t =
  finish (ownerOfToken g t) (entryOfToken g t) true (Some EntryExpired) TokenExpired (Some (now + r)) g t.
Proof. unfold terminalizeExpired, finish. by destruct (entryOfToken g t). Qed.

Lemma expireToken_finish now g t :
  expireToken now g t =
  finish (ownerOfToken g t) (entryOfToken g t) false (Some EntryExpired) TokenExpired (Some (now + 60000)) g t.
Proof. unfold expireToken, finish. by destruct (entryOfToken g t). Qed.

Lemma cancelToken_finish now g t :
  cancelToken now g t =
  finish (ownerOfToken g t) (entryOfToken g t) false (Some EntryCancelled) TokenCancelled
    (Some (if expiryOfToken g t <=? now then now + 60000 else expiryOfToken g t)) g t.
Proof. unfold cancelToken, finish, tombstone. by destruct (entryOfToken g t). Qed.

Lemma consumeToken_finish now g t b :
  consumeToken now g t b =
  finish (ownerOfToken g t) (entryOfToken g t) false (if b then Some EntryAdmitted else None) Consumed
    (Some (if expiryOfToken g t <=? now then now + 60000 else expiryOfToken g t)) g t.
Proof. unfold consumeToken, finish, tombstone. by destruct (entryOfToken g t), b. Qed.

Lemma finish_zremLease o e q es ts x g t : finish o e q es ts (Some x) (zremLease g (MToken t)) t = finish o e q es ts (Some x) g t.
Proof.
  unfold finish, zremLease, zremInflight, dropUser, setLeases, setInflight. cbn.
  rewrite delete_delete_eq. done.
Qed.

Lemma expireEntry_eq now g e : expireEntry now g e = terminalizeEntryExpired now g e.
Proof.
  unfold expireEntry, terminalizeEntryExpired, dropUser. destruct (ownerOfEntry g e) as [o|]; [|done].
  cbn. by destruct (bool_decide _).
Qed.

Create HintDb admission.
Create Rewrite HintDb admission.
#[export] Hint Constructors micro : admission.
#[export] Hint Extern 5 (rtc (micro _ _) _ _) => apply rtc_once : admission.
#[export] Hint Resolve rtc_refl : admission.

Lemma foldl_rtc {A B} (R : relation A) (f : A -> B -> A) l a : (forall a b, rtc R a (f a b)) -> rtc R a (foldl f a l).
Proof. intros Hf. revert a. induction l as [|b l IH]; intros a; cbn; [apply rtc_refl|]. etrans; [apply Hf|apply IH]. Qed.

Lemma foldl_rtc_on {A B C} (R : relation C) (p : A -> C) (f : A -> B -> A) l a :
  (forall a b, rtc R (p a) (p (f a b))) -> rtc R (p a) (p (foldl f a l)).
Proof. intros Hf. revert a. induction l as [|b l IH]; intros a; cbn; [apply rtc_refl|]. etrans; [apply Hf|apply IH]. Qed.

Section Decompose.
Context (now : Z) (iss : Candidate -> Prop).
Abbreviation steps := (rtc (micro now iss)).

Lemma terminalizeExpired_steps r g t : steps g (terminalizeExpired now r g t).
Proof. rewrite terminalizeExpired_finish. by auto with admission. Qed.

Lemma expireToken_steps g t : steps g (expireToken now g t).
Proof. rewrite expireToken_finish. by auto with admission. Qed.

Lemma cancelToken_steps g t : steps g (cancelToken now g t).
Proof. rewrite cancelToken_finish. by auto with admission. Qed.

Lemma consumeToken_steps g t b : steps g (consumeToken now g t b).
Proof. rewrite consumeToken_finish. apply rtc_once, m_finish; by destruct b. Qed.

Lemma expireStale_steps g e : steps g (expireStale now g e).
Proof. unfold expireStale. destruct (_ && _); [rewrite expireEntry_eq|]; auto with admission. Qed.

Lemma terminalizeCancelled_steps g t : steps g (terminalizeCancelled now g t).
Proof.
  set (x := expiryOfToken g t).
  assert (Hd : forall score, steps g (finish (ownerOfToken g t) (entryOfToken g t) true (Some EntryCancelled) TokenCancelled score g t))
    by auto with admission.
  unfold terminalizeCancelled. fold x. destruct (now <? x).
  - specialize (Hd (Some x)). unfold finish in Hd. by destruct (entryOfToken g t).
  - specialize (Hd None). unfold finish in Hd.
    destruct (entryOfToken g t); (etrans; [apply Hd|auto with admission]).
Qed.

Lemma sweepLease_steps r st m : steps st.1.1 (sweepLease now r st m).1.1.
Proof.
  destruct st as [[g n1] n2]. unfold sweepLease. cbn. destruct m as [e|t].
  - apply (rtc_l _ _ (zremLease g (MEntry e))); [auto with admission|].
    apply rtc_once, m_sweepEntry.
  - apply (rtc_l _ _ (zremLease g (MToken t))); [auto with admission|].
    set (g1 := zremLease g (MToken t)). change (tokens g) with (tokens g1).
    destruct (tStatus (tokens g1) !! t) as [[]|] eqn:Hs; cbn; auto with admission.
    destruct (_ <=? _); [apply terminalizeExpired_steps|].
    destruct (bool_decide _); [apply terminalizeCancelled_steps|].
    by apply rtc_once, m_recover.
Qed.

Lemma sweepInflight_steps r st t : steps st.1.1 (sweepInflight now r st t).1.1.
Proof.
  destruct st as [[g n1] n2]. unfold sweepInflight. cbn.
  destruct (tStatus _ !! t) as [[]|]; cbn; auto using terminalizeExpired_steps with admission.
Qed.

Lemma sweepQueue_steps st e : steps st.1 (sweepQueue now st e).1.
Proof. destruct st as [g n]. unfold sweepQueue. destruct (_ && _); cbn; auto with admission. Qed.

Lemma maintain_steps r n g : steps g (maintain now r n g).1.1.1.
Proof.
  unfold maintain.
  destruct (foldl (sweepLease now r) _ _) as [[g1 r1] x1] eqn:H1.
  destruct (foldl (sweepInflight now r) _ _) as [[g2 r2] x2] eqn:H2.
  destruct (foldl (sweepQueue now) _ _) as [g3 x3] eqn:H3. cbn.
  pose proof (foldl_rtc_on (micro now iss) (fun s => s.1.1) _ (dueMembers (leases g) now n) (g, 0, 0) (sweepLease_steps r)) as S1.
  rewrite H1 in S1.
  pose proof (foldl_rtc_on (micro now iss) (fun s => s.1.1) _ (dueTokens (inflight g1) now n) (g1, r1, x1) (sweepInflight_steps r)) as S2.
  rewrite H2 in S2.
  pose proof (foldl_rtc_on (micro now iss) (fun s => s.1) _ (zrange (queue g2) (n - 1)) (g2, 0) sweepQueue_steps) as S3.
  rewrite H3 in S3. etrans; [apply S1|]. etrans; [apply S2|apply S3].
Qed.

Lemma issueLoop_steps version ttl queued cs g n l :
  (forall c, c ∈ cs -> iss c) -> steps g (issueLoop now version ttl queued cs g n l).1.1.
Proof.
  revert cs g n l. induction queued as [|e queued IH]; intros [|c cs] g n l Hc; cbn; auto with admission.
  destruct (bool_decide (cd_entry c = e)) eqn:He; cbn; [|auto with admission].
  apply bool_decide_eq_true in He. subst e.
  assert (Hc' : forall c, c ∈ cs -> iss c) by (intros; apply Hc; set_solver).
  destruct (_ && _) eqn:Hx; [eapply rtc_l; [apply m_expireEntry|by apply IH]|].
  destruct (eData _ !! _) as [d|] eqn:Hd; [|by apply IH].
  destruct (issuable now ttl g c) eqn:Hi; [|by apply IH].
  eapply rtc_l; [|by apply IH]. unfold issuable in Hi. rewrite !andb_true_iff, negb_true_iff in Hi.
  apply m_issue; [apply Hc; set_solver| |done|].
  - unfold live. rewrite andb_true_iff. tauto.
  - destruct Hi as [_ Hi]. apply bool_decide_eq_false in Hi. by apply eq_None_not_Some.
Qed.

Lemma grantLease_steps g a :
  tStatus (tokens g) !! aa_token a = Some Issued -> steps g (grantLease now g a).2.
Proof.
  intros Hs. unfold grantLease. destruct (_ <? _); cbn; [apply expireToken_steps|].
  destruct (tBinding _ !! _); cbn.
  - by apply rtc_once, (m_grant _ _ g (aa_token a) (aa_lease_owner a, now + aa_lease a)).
  - eapply rtc_l; [apply (m_bind _ _ g (aa_token a) (aa_binding a))|].
    by apply rtc_once, (m_grant _ _ (setBinding g _ _) (aa_token a) (aa_lease_owner a, now + aa_lease a)).
Qed.

Lemma acquire_steps g a : steps g (acquire now g a).2.
Proof.
  unfold acquire. destruct (notVersion _ _); [auto with admission|]. destruct (notVersion _ _); [auto with admission|].
  destruct (tStatus _ !! _) as [s|] eqn:Hs; [|auto with admission].
  destruct (negb _); [auto with admission|].
  destruct (match tBinding _ !! _ with Some _ => _ | None => _ end); [auto with admission|].
  destruct s; cbn; auto with admission.
  - by apply grantLease_steps.
  - destruct (_ <? _); [auto with admission|]. destruct (bool_decide _); [apply cancelToken_steps|].
    eapply rtc_l; [by apply (m_recover _ _ g (aa_token a))|].
    eapply rtc_l; [apply (m_zremLease _ _ _ (MToken (aa_token a)))|].
    apply grantLease_steps. cbn. by rewrite lookup_insert_eq.
  - destruct (_ <=? _); [apply expireToken_steps|auto with admission].
Qed.

Lemma leaseCheck_processing {A} g a : @leaseCheck A g a = inr tt -> tStatus (tokens g) !! la_token a = Some Processing.
Proof.
  unfold leaseCheck. destruct (tStatus _ !! _) as [s|]; [|done]. destruct (_ || _); [done|].
  destruct (bool_decide (s = Processing)) eqn:Hs; [|done]. apply bool_decide_eq_true in Hs. by subst.
Qed.

Lemma release_steps g a p : steps g (releaseLease now g a p).2.
Proof.
  unfold releaseLease. destruct (notVersion _ _); [auto with admission|]. destruct (notVersion _ _); [auto with admission|].
  destruct (leaseCheck g a) as [|[]] eqn:Hl; [auto with admission|].
  apply leaseCheck_processing in Hl.
  eapply rtc_l; [apply (m_zremLease _ _ g (MToken (la_token a)))|].
  destruct (_ || _); cbn; [apply cancelToken_steps|].
  eapply rtc_l; [by apply (m_recover _ _ (zremLease g (MToken (la_token a))) (la_token a))|]. auto with admission.
Qed.

Lemma finalize_steps g a : steps g (finalize now g a).2.
Proof.
  unfold finalize. destruct (notVersion _ _); [auto with admission|]. destruct (notVersion _ _); [auto with admission|].
  destruct (leaseCheck g a) as [|[]]; cbn; [auto with admission|apply consumeToken_steps].
Qed.

Lemma finalizeCommitted_steps g v t o b : steps g (finalizeCommitted now g v t o b).2.
Proof.
  unfold finalizeCommitted. destruct (notVersion _ _); [auto with admission|].
  destruct (tStatus _ !! _); [|auto with admission].
  destruct (_ || _); cbn; [auto with admission|apply consumeToken_steps].
Qed.

Lemma get_steps g v e o c : steps g (get now g v e o c).2.
Proof.
  unfold get. destruct (notVersion _ _); [auto with admission|]. destruct (notVersion _ _); [auto with admission|].
  destruct (eStatus _ !! _) as [s|] eqn:Hs; [|auto with admission].
  destruct (bool_decide (ownerOfEntry g e = Some o)) eqn:Ho; cbn; [|auto with admission].
  apply bool_decide_eq_true in Ho.
  destruct (_ && _) eqn:Hq; cbn.
  { apply rtc_once. pose proof (m_expireEntry now iss g e) as Hm.
    unfold terminalizeEntryExpired in Hm. by rewrite Ho in Hm. }
  destruct (if bool_decide (s = EntryAdmitted) then _ else _) as [t|]; cbn; [apply terminalizeExpired_steps|].
  destruct c; [|auto with admission]. destruct (bool_decide (s = EntryAdmitted)); cbn; [|auto with admission].
  destruct (eToken _ !! e) as [t|]; [|auto with admission].
  destruct (negb _); [auto with admission|]. destruct (expiryOfToken g t <=? now); cbn; auto with admission.
Qed.

Lemma dropUser_commute g e o t :
  zremLease (zremInflight (setEStatus (dropUser (zremQueue g e) (Some o) (Some e)) e EntryCancelled) t) (MToken t) =
  setEStatus (zremQueue (dropUser (zremLease (zremInflight g t) (MToken t)) (Some o) (Some e)) e) e EntryCancelled.
Proof. unfold dropUser. cbn. by destruct (bool_decide _). Qed.

Lemma cancel_drop_steps g e o :
  ownerOfEntry g e = Some o ->
  steps g (deleteEntry (zremLease (setEStatus (dropUser (zremQueue g e) (Some o) (Some e)) e EntryCancelled) (MEntry e)) e).
Proof.
  intros Ho. eapply rtc_l; [apply (m_zremLease _ _ g (MEntry e))|]. apply rtc_once.
  match goal with |- micro _ _ ?a ?b => assert (b = sweepEntry a e) as ->; [|apply m_sweepEntry] end.
  unfold sweepEntry, ownerOfEntry in *. cbn. rewrite Ho. unfold dropUser. cbn.
  destruct (bool_decide _); cbn; unfold deleteEntry, setEntries; cbn; by rewrite delete_insert_eq.
Qed.

Lemma cancel_finish g e o t :
  let g1 := setEStatus (dropUser (zremQueue g e) (Some o) (Some e)) e EntryCancelled in
  let g2 := dropCancel (dropLease (setTStatus (zremLease (zremInflight g1 t) (MToken t)) t TokenCancelled) t) t in
  steps g (if 0 <? expiryOfToken g2 t then zaddLease g2 (MToken t) (expiryOfToken g2 t) else g2).
Proof.
  intros g1 g2. set (x := expiryOfToken g2 t).
  assert (Hf : forall score, finish (Some o) (Some e) true (Some EntryCancelled) TokenCancelled score g t =
    match score with Some x => zaddLease g2 (MToken t) x | None => g2 end).
  { intros score. unfold g2, g1. by rewrite dropUser_commute. }
  destruct (0 <? x).
  - apply rtc_once. pose proof (m_finish now iss g (Some o) (Some e) true (Some EntryCancelled) TokenCancelled (Some x) t) as Hm.
    rewrite Hf in Hm. by apply Hm.
  - apply rtc_once. pose proof (m_finish now iss g (Some o) (Some e) true (Some EntryCancelled) TokenCancelled None t) as Hm.
    rewrite Hf in Hm. by apply Hm.
Qed.

Lemma cancel_steps g v e o : steps g (cancel g v e o).2.
Proof.
  unfold cancel. destruct (notVersion _ _); [auto with admission|]. destruct (notVersion _ _); [auto with admission|].
  destruct (eStatus _ !! _) as [s|] eqn:Hs; [|auto with admission].
  destruct (bool_decide (ownerOfEntry g e = Some o)) eqn:Ho; cbn; [|auto with admission].
  apply bool_decide_eq_true in Ho.
  destruct (_ || _) eqn:Hq; cbn; [auto with admission|].
  destruct (eToken (entries g) !! e) as [t|]; cbn; [|by apply cancel_drop_steps].
  destruct (tStatus (tokens g) !! t) as [[]|]; [apply (cancel_finish g e o t)|cbn; auto with admission ..|apply (cancel_finish g e o t)].
Qed.

Lemma issue_steps g a : (forall c, c ∈ ia_candidates a -> iss c) -> steps g (issue now g a).2.
Proof.
  intros Hc. unfold issue. destruct (notVersion _ _); [auto with admission|]. destruct (notVersion _ _); [auto with admission|].
  pose proof (maintain_steps (Z.max (ia_token_ttl a) 60000) (ia_cleanup a) g) as Hm.
  destruct (maintain _ _ _ g) as [[[g1 n1] n2] n3]. cbn in Hm. etrans; [apply Hm|].
  eapply rtc_l; [apply m_purge|]. destruct (_ <=? _); [auto with admission|].
  match goal with |- context [issueLoop now ?v ?ttl ?q ?cs ?g ?n ?l] =>
    pose proof (issueLoop_steps v ttl q cs g n l Hc) as Hi; destruct (issueLoop now v ttl q cs g n l) as [[g2 n4] l2] end.
  done.
Qed.

Lemma joinPrefix_steps g l : steps g (foldl (expireStale now) g l).
Proof. apply foldl_rtc, expireStale_steps. Qed.

(** A join sweeps stale entries, forgets a dead place and then may enqueue. *)
Lemma join_steps g a :
  exists g1, steps g g1 /\ ((join now g a).2 = g1 \/
    users g1 !! ja_owner a = None /\ join now g a = enqueue now g1 a).
Proof.
  unfold join. destruct (notVersion _ _); [exists g; auto with admission|].
  destruct (notVersion _ _); [exists g; auto with admission|].
  pose proof (joinPrefix_steps g (zrange (queue g) 63)) as Hp. set (g1 := foldl _ _ _) in *.
  destruct (users g1 !! ja_owner a) as [e|] eqn:Hu; [|exists g1; auto].
  assert (Hf : live now g1 e = false -> steps g (setUsers g1 (delete (ja_owner a) (users g1)))).
  { intros Hl. eapply rtc_r; [apply Hp|]. apply m_forget. congruence. }
  assert (Hn : users (setUsers g1 (delete (ja_owner a) (users g1))) !! ja_owner a = None) by apply lookup_delete_eq.
  unfold live in Hf.
  destruct (eStatus (entries g1) !! e) as [[]|] eqn:Hs;
    [| |exists (setUsers g1 (delete (ja_owner a) (users g1))); split; [apply Hf|]; by auto ..];
  (destruct (now <? expiryOfEntry g1 e) eqn:Hx;
     [exists g1; split; [done|left]; by destruct (negb _)
     |exists (setUsers g1 (delete (ja_owner a) (users g1))); split; [apply Hf|right; done];
      apply andb_false_intro2; done]).
Qed.
End Decompose.

(** The candidates that a script may issue. *)
Definition issues (s : Script) (c : Candidate) : Prop :=
  match s with SIssue a => c ∈ ia_candidates a | _ => False end.

Lemma script_steps now g s :
  exists g1, rtc (micro now (issues s)) g g1 /\
    (runScript now g s = g1 \/
     exists a, s = SJoin a /\ users g1 !! ja_owner a = None /\ runScript now g s = (enqueue now g1 a).2).
Proof.
  destruct s as [v c|a|v e o c|v e o|a|a|a p|a|v t o b]; cbn [runScript];
    [|destruct (join_steps now (issues (SJoin a)) g a) as (g1 & Hs & [<-|[Hu Hj]]); [by eauto|exists g1; rewrite Hj; eauto 7]
     |eexists; split; [|by left] ..];
    auto using get_steps, cancel_steps, acquire_steps, release_steps, finalize_steps, finalizeCommitted_steps.
  - eexists; split; [|by left]. unfold installPolicy.
    destruct (policyVersion g); cbn;
      repeat match goal with |- context [if ?b then _ else _] => destruct b end; cbn; auto with admission.
  - by apply issue_steps.
Qed.

Lemma rtc_inv {A} (R : relation A) (P : A -> Prop) x y : (forall x y, R x y -> P x -> P y) -> rtc R x y -> P x -> P y.
Proof. intros HR. induction 1; eauto. Qed.

(** An invariant of the elementary steps and of enqueuing holds after a script. *)
Lemma script_inv (P Q : Gen -> Prop) now s g :
  (forall g g', micro now (issues s) g g' -> P g -> P g') ->
  (forall g a, s = SJoin a -> users g !! ja_owner a = None -> P g -> Q (enqueue now g a).2) ->
  (forall g, P g -> Q g) -> P g -> Q (runScript now g s).
Proof.
  intros Hm He HQ Hg. destruct (script_steps now g s) as (g1 & Hs & [ ->|(a & -> & Hu & ->)]).
  - eapply HQ, rtc_inv; eauto.
  - eapply He; eauto. eapply rtc_inv; eauto.
Qed.

(** ** What the elementary steps do to each part of the state *)
Arguments finish : simpl never.
Arguments deleteTokenState : simpl never.
Arguments dropUser : simpl never.

Lemma dropUser_tokens g o e : tokens (dropUser g o e) = tokens g.
Proof. unfold dropUser. destruct o, e; auto. by destruct (bool_decide _). Qed.
Lemma dropUser_inflight g o e : inflight (dropUser g o e) = inflight g.
Proof. unfold dropUser. destruct o, e; auto. by destruct (bool_decide _). Qed.
Lemma dropUser_rate g o e : rate (dropUser g o e) = rate g.
Proof. unfold dropUser. destruct o, e; auto. by destruct (bool_decide _). Qed.
Lemma dropUser_entries g o e : entries (dropUser g o e) = entries g.
Proof. unfold dropUser. destruct o, e; auto. by destruct (bool_decide _). Qed.

Lemma finish_tokens o e q es ts score g t :
  tokens (finish o e q es ts score g t) = tokens (dropCancel (dropLease (setTStatus g t ts) t) t).
Proof. unfold finish. destruct score, e, q, es; cbn; by rewrite ?dropUser_tokens. Qed.
Lemma finish_inflight o e q es ts score g t : inflight (finish o e q es ts score g t) = delete t (inflight g).
Proof. unfold finish. destruct score, e, q, es; cbn; by rewrite ?dropUser_inflight. Qed.
Lemma finish_rate o e q es ts score g t : rate (finish o e q es ts score g t) = rate g.
Proof. unfold finish. destruct score, e, q, es; cbn; by rewrite ?dropUser_rate. Qed.

Lemma deleteTokenState_tokens g t : tokens (deleteTokenState g t) = tokens (deleteToken g t).
Proof. unfold deleteTokenState. destruct (entryOfToken g t); cbn; by rewrite !dropUser_tokens. Qed.
Lemma deleteTokenState_inflight g t : inflight (deleteTokenState g t) = delete t (inflight g).
Proof. unfold deleteTokenState. destruct (entryOfToken g t); cbn; by rewrite !dropUser_inflight. Qed.
Lemma deleteTokenState_rate g t : rate (deleteTokenState g t) = rate g.
Proof. unfold deleteTokenState. destruct (entryOfToken g t); cbn; by rewrite !dropUser_rate. Qed.

Lemma enqueue_tokens now g a : tokens (enqueue now g a).2 = tokens g.
Proof. unfold enqueue. by destruct (_ <=? _). Qed.
Lemma enqueue_inflight now g a : inflight (enqueue now g a).2 = inflight g.
Proof. unfold enqueue. by destruct (_ <=? _). Qed.
Lemma enqueue_rate now g a : rate (enqueue now g a).2 = rate g.
Proof. unfold enqueue. by destruct (_ <=? _). Qed.

#[export] Hint Rewrite dropUser_tokens dropUser_inflight dropUser_rate dropUser_entries
  finish_tokens finish_inflight finish_rate deleteTokenState_tokens deleteTokenState_inflight deleteTokenState_rate
  enqueue_tokens enqueue_inflight enqueue_rate : admission.

(** ** The life of one token *)

(** Its status, its lease generation and its delivered flag. *)
Abbreviation TView := (option TStatus * option Z * option bool)%type.

Definition tokenView (t : id) (g : Gen) : TView :=
  (tStatus (tokens g) !! t, tGen (tokens g) !! t, tDelivered (tokens g) !! t).

Inductive tokStep : TView -> TView -> Prop :=
| ts_end ts s n d : terminalToken ts = true -> tokStep (s, n, d) (Some ts, n, d)
| ts_delete v : tokStep v (None, None, None)
| ts_recover n d : tokStep (Some Processing, n, d) (Some Issued, n, d)
| ts_grant n d : tokStep (Some Issued, n, d) (Some Processing, Some (default 0 n + 1), d)
| ts_deliver s n d : tokStep (s, n, d) (s, n, Some true).

Lemma micro_tokenView t now iss g g' :
  micro now iss g g' -> (forall c, iss c -> cd_token c <> t) -> tokStep (tokenView t g) (tokenView t g') \/ tokenView t g = tokenView t g'.
Proof.
  destruct 1; intros Ht; unfold tokenView, terminalizeEntryExpired, sweepEntry, recover, grant, issueOne;
    autorewrite with admission; cbn; autorewrite with admission; cbn; try (by right);
    (match goal with
     | |- context [<[?x := _]> _] => destruct (decide (x = t)) as [Hx|Hn]
     | |- context [delete ?x _] => destruct (decide (x = t)) as [Hx|Hn]
     end; [rewrite ?Hx in *|rewrite ?lookup_insert_ne, ?lookup_delete_ne by done; by right]).
  - rewrite lookup_insert_eq. left. by apply ts_end.
  - rewrite !lookup_delete_eq. left. apply ts_delete.
  - rewrite lookup_insert_eq, H. left. apply ts_recover.
  - rewrite !lookup_insert_eq, H. left. apply ts_grant.
  - rewrite lookup_insert_eq. left. apply ts_deliver.
  - by destruct (Ht c).
Qed.

(** The histories that do not issue a given token. *)
Definition neverIssues (t : id) (h : list (Z * Script)) : Prop :=
  Forall (fun ns => forall c, issues ns.2 c -> cd_token c <> t) h.

Lemma history_tokenView t h g : neverIssues t h -> rtc tokStep (tokenView t g) (tokenView t (runScripts g h)).
Proof.
  intros Hh. revert g. induction Hh as [|[now s] h Hs Hh IH]; intros g; [apply rtc_refl|].
  cbn. etrans; [|apply IH].
  apply (script_inv (fun g' => rtc tokStep (tokenView t g) (tokenView t g'))
                    (fun g' => rtc tokStep (tokenView t g) (tokenView t g'))); auto using rtc_refl.
  - intros g1 g2 Hm Hr. etrans; [apply Hr|].
    destruct (micro_tokenView t _ _ _ _ Hm Hs) as [Hv| ->]; auto using rtc_once, rtc_refl.
  - intros g1 a _ _ Hr. unfold tokenView at 2. by rewrite enqueue_tokens.
Qed.

Definition spent (v : TView) : Prop := match v.1.1 with Some s => terminalToken s = true | None => True end.
Definition fenced (n : Z) (v : TView) : Prop := match v.1.2 with Some k => n <= k | None => spent v end.

Lemma spent_step v w : tokStep v w -> spent v -> spent w.
Proof. destruct 1; unfold spent; cbn; auto; discriminate. Qed.

Lemma fenced_step n v w : tokStep v w -> fenced n v -> fenced n w.
Proof.
  destruct 1 as [ts s [k|] d|[[s [k|]] d]|[k|] d|[k|] d|s [k|] d]; unfold fenced, spent; cbn; auto; try discriminate; lia.
Qed.

Lemma delivered_step v w : tokStep v w -> v.2 <> Some false -> w.2 <> Some false.
Proof. destruct 1; cbn; auto; discriminate. Qed.

(** ** Places in the queue *)
Lemma dropUser_users g o e o' e' :
  users g !! o' = Some e' -> e <> Some e' -> users (dropUser g o e) !! o' = Some e'.
Proof.
  unfold dropUser. destruct o as [o|], e as [e|]; auto. case_bool_decide as Hu; auto. intros He Hn. cbn.
  rewrite lookup_delete_ne; [done|]. intros ->. congruence.
Qed.

Lemma dropUser_users_ext g g' o e : users g = users g' -> users (dropUser g o e) = users (dropUser g' o e).
Proof. intros Hu. unfold dropUser. destruct o, e; auto. rewrite Hu. case_bool_decide; cbn; congruence. Qed.

Lemma finish_users o e q es ts score g t : users (finish o e q es ts score g t) = users (dropUser g o e).
Proof. unfold finish. destruct score, e, q, es; cbn; by apply dropUser_users_ext. Qed.

Lemma finish_entries o e q es ts score g t :
  entries (finish o e q es ts score g t) =
  match e, es with Some e, Some s => entries (setEStatus g e s) | _, _ => entries g end.
Proof. unfold finish. destruct score, e, q, es; cbn; by rewrite ?dropUser_entries. Qed.

Lemma deleteTokenState_users g t : users (deleteTokenState g t) = users (dropUser g (ownerOfToken g t) (entryOfToken g t)).
Proof. unfold deleteTokenState. by destruct (entryOfToken g t). Qed.

Lemma deleteTokenState_entries g t :
  entries (deleteTokenState g t) = match entryOfToken g t with Some e => entries (deleteEntry g e) | None => entries g end.
Proof. unfold deleteTokenState. destruct (entryOfToken g t); cbn; by rewrite dropUser_entries. Qed.

#[export] Hint Rewrite finish_users finish_entries deleteTokenState_users deleteTokenState_entries : admission.
