(* ===== verification/AdmissionSafety.v ===== *)
(** * Safety of the admission waiting room

    Along every history of the scripts of [WaitingRoom]: a token is used once,
    its lease generations fence older holders, it is delivered at most once,
    the inflight and rate limits of the policy hold, and an owner has at most
    one live place in the queue. *)

From S2P Require Import Prelude WaitingRoom AdmissionSteps.

(** ** Tokens *)

Lemma leaseCheck_ok {A} g a :
  @leaseCheck A g a = inr tt ->
  tStatus (tokens g) !! la_token a = Some Processing /\ tGen (tokens g) !! la_token a = Some (la_generation a).
Proof.
  intros Hl. split; [by eapply leaseCheck_processing|]. revert Hl. unfold leaseCheck.
  destruct (tStatus _ !! _) as [s|]; [|done]. destruct (_ || _); [done|].
  destruct (bool_decide (tGen _ !! _ = _)) eqn:Hg; [|by rewrite orb_true_r]. by apply bool_decide_eq_true in Hg.
Qed.

Lemma finalize_ok now g a g' :
  finalize now g a = (Done tt, g') -> @leaseCheck unit g a = inr tt /\ g' = consumeToken now g (la_token a) false.
Proof.
  unfold finalize. destruct (notVersion _ _); [done|]. destruct (notVersion _ _); [done|].
  unfold leaseCheck. destruct (tStatus _ !! _) as [s|]; [|done].
  do 2 (destruct (_ || _); [done|]). by intros [= <-].
Qed.

Lemma release_ok now g a p b g' :
  releaseLease now g a p = (Done b, g') ->
  @leaseCheck bool g a = inr tt /\
  (b = true -> g' = cancelToken now (zremLease g (MToken (la_token a))) (la_token a)).
Proof.
  unfold releaseLease. destruct (notVersion _ _); [done|]. destruct (notVersion _ _); [done|].
  unfold leaseCheck. destruct (tStatus _ !! _) as [s|]; [|done].
  do 2 (destruct (_ || _); [done|]). destruct (_ || _); by intros [= <- <-].
Qed.

Lemma finalizeCommitted_ok now g v t o b g' :
  finalizeCommitted now g v t o b = (Done tt, g') -> g' = consumeToken now g t true.
Proof.
  unfold finalizeCommitted. destruct (notVersion _ _); [done|]. destruct (tStatus _ !! _); [|done].
  destruct (_ || _); [done|]. by intros [= <-].
Qed.

Lemma grantLease_ok now g a o m g' :
  grantLease now g a = (Done (Acquired o m), g') ->
  m = default 0 (tGen (tokens g) !! aa_token a) + 1 /\ tGen (tokens g') !! aa_token a = Some m.
Proof.
  unfold grantLease. destruct (_ <? _); [done|]. intros [= <- <- <-].
  destruct (tBinding _ !! _); cbn; by rewrite lookup_insert_eq.
Qed.

Lemma acquire_ok now g a o m g' :
  acquire now g a = (Done (Acquired o m), g') ->
  ~ spent (tokenView (aa_token a) g) /\
  m = default 0 (tGen (tokens g) !! aa_token a) + 1 /\ tGen (tokens g') !! aa_token a = Some m.
Proof.
  unfold acquire, spent. destruct (notVersion _ _); [done|]. destruct (notVersion _ _); [done|]. cbn.
  destruct (tStatus _ !! _) as [s|]; [|done]. destruct (negb _); [done|].
  destruct (match tBinding _ !! _ with Some _ => _ | None => _ end); [done|].
  destruct s; cbn; try done.
  - intros Hg. split; [done|]. by eapply grantLease_ok.
  - destruct (_ <? _); [done|]. destruct (bool_decide _); [done|]. intros Hg. split; [done|].
    by apply grantLease_ok in Hg.
  - by destruct (_ <=? _).
Qed.

(** The scripts that end a token for good: a finalized booking, the recovery
    of a committed one, a permanent release (or one that was asked to cancel). *)
Inductive endsToken (now : Z) (g : Gen) (t : id) (g' : Gen) : Prop :=
| ends_finalize a : la_token a = t -> finalize now g a = (Done tt, g') -> endsToken now g t g'
| ends_committed v o b : finalizeCommitted now g v t o b = (Done tt, g') -> endsToken now g t g'
| ends_release a p : la_token a = t -> releaseLease now g a p = (Done true, g') -> endsToken now g t g'.

Lemma finish_spent o e q es ts score g t :
  terminalToken ts = true -> spent (tokenView t (finish o e q es ts score g t)).
Proof. intros Ht. unfold spent, tokenView. rewrite finish_tokens. cbn. by rewrite lookup_insert_eq. Qed.

Lemma endsToken_spent now g t g' : endsToken now g t g' -> spent (tokenView t g').
Proof.
  destruct 1 as [a <- H|v o b H|a p <- H].
  - apply finalize_ok in H as [_ ->]. rewrite consumeToken_finish. by apply finish_spent.
  - apply finalizeCommitted_ok in H as ->. rewrite consumeToken_finish. by apply finish_spent.
  - apply release_ok in H as [_ H]. rewrite H by done. rewrite cancelToken_finish. by apply finish_spent.
Qed.

(** What a token refuses: a new lease, and a release or a finalize. *)
Definition refuses (t : id) (bound : Z) (g : Gen) : Prop :=
  (forall now a o m, aa_token a = t -> (acquire now g a).1 = Done (Acquired o m) -> bound < m) /\
  (forall now a, la_token a = t -> la_generation a < bound ->
     (finalize now g a).1 <> Done tt /\ forall p b, (releaseLease now g a p).1 <> Done b).

Lemma fenced_refuses t m g : fenced m (tokenView t g) -> refuses t m g.
Proof.
  unfold fenced, refuses. cbn. intros Hf. split.
  - intros now a o m' <- Ha. destruct (acquire now g a) as [r g'] eqn:Hq. cbn in Ha. subst r.
    apply acquire_ok in Hq as (Hl & -> & _). destruct (tGen _ !! _); [cbn; lia|done].
  - intros now a <- Hlt.
    assert (Hn : forall A, @leaseCheck A g a <> inr tt).
    { intros A Hl. apply leaseCheck_ok in Hl as [_ Hg]. rewrite Hg in Hf. lia. }
    split.
    + destruct (finalize now g a) as [r g'] eqn:Hq. intros [= ->]. apply finalize_ok in Hq as [Hl _]. by eapply Hn.
    + intros p b. destruct (releaseLease now g a p) as [r g'] eqn:Hq. intros [= ->]. apply release_ok in Hq as [Hl _]. by eapply Hn.
Qed.

Lemma spent_refuses t g : spent (tokenView t g) ->
  (forall now a o m, aa_token a = t -> (acquire now g a).1 <> Done (Acquired o m)) /\
  (forall now a, la_token a = t -> (finalize now g a).1 <> Done tt /\ forall p b, (releaseLease now g a p).1 <> Done b).
Proof.
  intros Hs. split.
  - intros now a o m <- Ha. destruct (acquire now g a) as [r g'] eqn:Hq. cbn in Ha. subst r.
    by apply acquire_ok in Hq as [Hl _].
  - intros now a <-.
    assert (Hn : forall A, @leaseCheck A g a <> inr tt).
    { intros A Hl. apply leaseCheck_ok in Hl as [Hp _]. unfold spent in Hs. cbn in Hs. by rewrite Hp in Hs. }
    split.
    + destruct (finalize now g a) as [r g'] eqn:Hq. intros [= ->]. apply finalize_ok in Hq as [Hl _]. by eapply Hn.
    + intros p b. destruct (releaseLease now g a p) as [r g'] eqn:Hq. intros [= ->]. apply release_ok in Hq as [Hl _]. by eapply Hn.
Qed.

(** C38: a token is used once.  After a script has ended a token (finalized
    its booking, recovered a committed one, or released it for good), no later
    script of a history that does not issue the token again can lease it,
    release it or finalize it. *)
Theorem token_single_use now g t g' h :
  endsToken now g t g' -> neverIssues t h ->
  (forall now a o m, aa_token a = t -> (acquire now (runScripts g' h) a).1 <> Done (Acquired o m)) /\
  (forall now a, la_token a = t ->
     (finalize now (runScripts g' h) a).1 <> Done tt /\ forall p b, (releaseLease now (runScripts g' h) a p).1 <> Done b).
Proof.
  intros He Hh. apply spent_refuses. eapply rtc_inv; [apply spent_step|by apply history_tokenView|].
  by eapply endsToken_spent.
Qed.

(** leases fence.  Once a token has been leased with generation [m],
    every later lease of it has a greater generation, and a holder of an older
    generation can neither finalize nor release it, whatever runs in between
    (expired leases recovered, cancellations, other tokens issued). *)
Theorem token_lease_fenced now g a o m g' h :
  acquire now g a = (Done (Acquired o m), g') -> neverIssues (aa_token a) h ->
  refuses (aa_token a) m (runScripts g' h).
Proof.
  intros Ha Hh. apply fenced_refuses. eapply rtc_inv; [apply fenced_step|by apply history_tokenView|].
  apply acquire_ok in Ha as (_ & _ & Hg). unfold fenced. cbn. rewrite Hg. lia.
Qed.

Lemma get_delivery now g v e o d g' :
  get now g v e o true = (Done (GotDelivery d), g') ->
  tDelivered (tokens g) !! dl_token d = Some false /\ tDelivered (tokens g') !! dl_token d = Some true.
Proof.
  unfold get. destruct (notVersion _ _); [done|]. destruct (notVersion _ _); [done|].
  destruct (eStatus _ !! _) as [s|]; [|done]. destruct (negb _); [done|]. cbn zeta.
  destruct (_ && _); [done|]. destruct (if bool_decide (s = EntryAdmitted) then _ else _); [done|].
  destruct (negb _); [done|]. destruct (eToken _ !! e) as [t|]; [|done].
  destruct (bool_decide (tDelivered _ !! t = Some false)) eqn:Hd; [|done]. cbn [negb].
  destruct (expiryOfToken g t <=? now); [done|]. intros [= <- <-]. cbn.
  apply bool_decide_eq_true in Hd. by rewrite lookup_insert_eq.
Qed.

Lemma inspect_delivery now g v e o d :
  (inspectDelivery now g v e o).1 = Done d -> tDelivered (tokens g) !! dl_token d = Some false.
Proof.
  unfold inspectDelivery. destruct (notVersion _ _); [done|]. destruct (notVersion _ _); [done|].
  destruct (eStatus _ !! _) as [s|]; [|done]. destruct (negb _); [done|].
  destruct (bool_decide (s = EntryExpired)); [done|]. destruct (negb _); [done|].
  destruct (eToken _ !! e) as [t|]; [|done].
  destruct (bool_decide (tDelivered _ !! t = Some false)) eqn:Hd; [|done]. cbn [negb].
  destruct (expiryOfToken g t <=? now); [done|]. intros [= <-]. by apply bool_decide_eq_true in Hd.
Qed.

(** a token is delivered at most once.  After a claim has delivered a
    token, no later claim delivers that token and no later inspection offers
    it for delivery, along every history that does not issue it again. *)
Theorem delivery_at_most_once now g v e o d g' h :
  get now g v e o true = (Done (GotDelivery d), g') -> neverIssues (dl_token d) h ->
  forall now2 v2 e2 o2 d2,
    (get now2 (runScripts g' h) v2 e2 o2 true).1 = Done (GotDelivery d2) \/
    (inspectDelivery now2 (runScripts g' h) v2 e2 o2).1 = Done d2 ->
  dl_token d2 <> dl_token d.
Proof.
  intros Hg Hh now2 v2 e2 o2 d2 H2 Heq. apply get_delivery in Hg as [_ Hg].
  assert (Hd : tDelivered (tokens (runScripts g' h)) !! dl_token d <> Some false).
  { apply (rtc_inv tokStep (fun v => v.2 <> Some false) _ _ delivered_step (history_tokenView (dl_token d) h g' Hh)).
    cbn. by rewrite Hg. }
  apply Hd. rewrite <- Heq. destruct H2 as [H2|H2]; [|by eapply inspect_delivery].
  destruct (get now2 _ v2 e2 o2 true) as [r g2] eqn:Hq. cbn in H2. subst r. by apply get_delivery in Hq as [? _].
Qed.

(** ** The inflight and rate limits *)

(** The tokens that are issued or being processed. *)
Definition liveTokens (g : Gen) : gmap id TStatus :=
  filter (fun kv : id * TStatus => terminalToken kv.2 = false) (tStatus (tokens g)).

(** The tokens issued after [lo] that the rate window still holds. *)
Definition recent (lo : Z) (g : Gen) : gmap id Z := filter (fun kv : id * Z => lo < kv.2) (rate g).

(** Every live token is counted by inflight. *)
Definition counted (g : Gen) : Prop :=
  forall t s, tStatus (tokens g) !! t = Some s -> terminalToken s = false -> is_Some (inflight g !! t).

Lemma micro_counted now iss g g' : micro now iss g g' -> counted g -> counted g'.
Proof.
  intros Hm Hc t s. destruct Hm; unfold terminalizeEntryExpired, sweepEntry, recover, grant, issueOne;
    autorewrite with admission; cbn; autorewrite with admission; cbn; try apply Hc.
  all: rewrite ?lookup_insert_Some, ?lookup_delete_Some.
  - intros [[<- <-]|[Hn Hs]] Ht; [congruence|]. rewrite lookup_delete_ne by done. by eapply Hc.
  - intros [Hn Hs] Ht. rewrite lookup_delete_ne by done. by eapply Hc.
  - intros [[<- <-]|[Hn Hs]] Ht; eapply Hc; eauto.
  - intros [[<- <-]|[Hn Hs]] Ht; eapply Hc; eauto.
  - destruct (decide (cd_token c = t)) as [<-|Hn]; [by rewrite lookup_insert_eq|].
    rewrite lookup_insert_ne by done. intros [[? _]|[_ Hs]] Ht; [done|]. by eapply Hc.
Qed.

(** Without issuing, both sets shrink and the rate window keeps what is recent. *)
Definition shrinks (lo : Z) (g g' : Gen) : Prop :=
  inflight g' ⊆ inflight g /\ rate g' ⊆ rate g /\ recent lo g' = recent lo g.

Lemma shrinks_refl lo g : shrinks lo g g.
Proof. by split_and!. Qed.

Lemma micro_shrinks lo now iss g0 g g' :
  micro now iss g g' -> (forall c, ~ iss c) -> now - 1000 <= lo -> shrinks lo g0 g -> shrinks lo g0 g'.
Proof.
  intros Hm Hn Hlo (Hi & Hr & Hw).
  assert (Hd : forall t, delete t (inflight g) ⊆ inflight g0) by (intros; etrans; [apply delete_subseteq|done]).
  destruct Hm; unfold shrinks, recent, terminalizeEntryExpired, sweepEntry, recover, grant;
    autorewrite with admission; cbn; autorewrite with admission; cbn; try by split_and!.
  - split_and!; [done|etrans; [apply map_filter_subseteq|done]|].
    unfold recent in Hw. rewrite <- Hw. apply map_eq. intros t. apply option_eq. intros x.
    rewrite !map_lookup_filter_Some. cbn. intuition lia.
  - by destruct (Hn c).
Qed.

Lemma steps_shrinks lo now g g' :
  rtc (micro now (fun _ => False)) g g' -> now - 1000 <= lo -> shrinks lo g g'.
Proof.
  intros Hs Hlo. refine (rtc_inv _ (shrinks lo g) _ _ _ Hs (shrinks_refl lo g)).
  intros g1 g2 Hm. eapply micro_shrinks; eauto.
Qed.

Lemma script_shrinks lo now g s :
  (forall c, ~ issues s c) -> now - 1000 <= lo -> shrinks lo g (runScript now g s).
Proof.
  intros Hn Hlo. apply (script_inv (shrinks lo g) (shrinks lo g)); auto using shrinks_refl.
  - intros g1 g2 Hm. by eapply micro_shrinks.
  - intros g1 a _ _. unfold shrinks, recent. by rewrite enqueue_inflight, enqueue_rate.
Qed.

(** What the issuing loop adds. *)
Lemma issueLoop_sizes now version ttl queued cs g n l g' n' l' :
  issueLoop now version ttl queued cs g n l = (g', n', l') ->
  (size (inflight g') <= size (inflight g) + length queued)%nat /\ (size (rate g') <= size (rate g) + length queued)%nat.
Proof.
  revert cs g n l. induction queued as [|e queued IH]; intros [|c cs] g n l; cbn; try (intros [= <- <- <-]; lia).
  destruct (negb _); [intros [= <- <- <-]; lia|].
  destruct (_ && _).
  { intros H. apply IH in H. unfold terminalizeEntryExpired in H. cbn in H. autorewrite with admission in H. cbn in H. lia. }
  destruct (eData _ !! _) as [d|]; [|intros H; apply IH in H; lia].
  destruct (issuable _ _ _ _); intros H; apply IH in H; [|lia]. unfold issueOne in H. cbn in H.
  pose proof (map_size_insert (cd_token c) (cd_expires c) (inflight g)) as H1.
  pose proof (map_size_insert (cd_token c) now (rate g)) as H2.
  destruct (inflight g !! _), (rate g !! _); cbn in H1, H2; lia.
Qed.

Lemma issueLoop_recent lo now version ttl queued cs g n l g' n' l' :
  issueLoop now version ttl queued cs g n l = (g', n', l') ->
  NoDup (cd_token <$> cs) -> (forall t, t ∈ cd_token <$> cs -> rate g !! t = None) ->
  (size (recent lo g') >= size (recent lo g) + (if (lo <? now)%Z then length l' - length l else 0))%nat /\
  (length l <= length l')%nat /\
  (forall t, is_Some (rate g' !! t) -> is_Some (rate g !! t) \/ t ∈ cd_token <$> cs).
Proof.
  revert cs g n l. induction queued as [|e queued IH]; intros [|c cs] g n l; cbn; try (intros [= <- <- <-] _ _; split_and!; auto; destruct (lo <? now); lia).
  destruct (negb _); [intros [= <- <- <-] _ _; split_and!; auto; destruct (lo <? now); lia|].
  rewrite NoDup_cons. intros H [Hc Hnd] Hf.
  assert (Hf' : forall t, t ∈ cd_token <$> cs -> rate g !! t = None) by (intros; apply Hf; by right).
  destruct (_ && _).
  { apply IH in H as (H1 & H2 & H3); auto.
    - unfold recent, terminalizeEntryExpired in H1, H3. cbn in H1, H3. autorewrite with admission in H1, H3. cbn in H1, H3.
      split_and!; auto. intros t Ht. destruct (H3 t Ht); [auto|right; by right].
    - unfold terminalizeEntryExpired. cbn. by autorewrite with admission. }
  destruct (eData _ !! _) as [d|]; [destruct (issuable _ _ _ _)|].
  2,3: apply IH in H as (H1 & H2 & H3); auto; split_and!; auto; intros t Ht; destruct (H3 t Ht); [auto|right; by right].
  apply IH in H as (H1 & H2 & H3); auto.
  2:{ intros t Ht. unfold issueOne. cbn. rewrite lookup_insert_ne by set_solver. auto. }
  unfold recent, issueOne in H1. cbn in H1. rewrite length_app in H1, H2. cbn in H1, H2.
  assert (Hcf : rate g !! cd_token c = None) by (apply Hf; by left).
  split_and!; [|lia|].
  - revert H1. rewrite map_filter_insert. cbn. destruct (decide (lo < now)) as [Hl|Hl].
    + rewrite map_size_insert_None by (rewrite map_lookup_filter_None; by left).
      unfold recent. intros H1. destruct (lo <? now) eqn:E; lia.
    + rewrite delete_id by done. unfold recent. intros H1. destruct (lo <? now) eqn:E; lia.
  - intros t Ht. destruct (H3 t Ht) as [Ht'|Ht']; [|right; by right]. unfold issueOne in Ht'. cbn in Ht'.
    destruct (decide (cd_token c = t)) as [<-|Hn]; [right; by left|]. rewrite lookup_insert_ne in Ht' by done. auto.
Qed.

Lemma zrange_length z stop : 0 <= stop -> Z.of_nat (length (zrange z stop)) <= stop + 1.
Proof. intros Hs. unfold zrange. rewrite length_take. destruct (stop <? 0) eqn:E; lia. Qed.

(** The number of entries that a script admits. *)
Definition admittedBy (now : Z) (g : Gen) (s : Script) : nat :=
  match s with
  | SIssue a => match (issue now g a).1 with Done r => length (ir_issued r) | _ => 0 end
  | _ => 0
  end.

(** The number of entries that a history admits after [lo]. *)
Fixpoint admittedSince (lo : Z) (g : Gen) (h : list (Z * Script)) : nat :=
  match h with
  | [] => 0
  | ns :: h => (if lo <? ns.1 then admittedBy ns.1 g ns.2 else 0) + admittedSince lo (runScript ns.1 g ns.2) h
  end.

Definition scriptTokens (s : Script) : list id :=
  match s with SIssue a => cd_token <$> ia_candidates a | _ => [] end.

(** The maintenance and the purge, before anything is issued. *)
Lemma issue_cases now g a :
  exists g1, rtc (micro now (fun _ => False)) g g1 /\
  ((admittedBy now g (SIssue a) = 0%nat /\ (issue now g a).2 = g1) \/
   exists queued n g2 n' l,
     Z.of_nat (length queued) <= ia_rate a - Z.of_nat (size (rate g1)) /\
     Z.of_nat (length queued) <= ia_inflight a - Z.of_nat (size (inflight g1)) /\
     issueLoop now (ia_version a) (ia_token_ttl a) queued (ia_candidates a) g1 n [] = (g2, n', l) /\
     admittedBy now g (SIssue a) = length l /\ (issue now g a).2 = g2).
Proof.
  unfold admittedBy, issue. destruct (notVersion _ _); [exists g; split; [apply rtc_refl|by left]|].
  destruct (notVersion _ _); [exists g; split; [apply rtc_refl|by left]|].
  pose proof (maintain_steps now (fun _ => False) (Z.max (ia_token_ttl a) 60000) (ia_cleanup a) g) as Hm.
  destruct (maintain _ _ _ g) as [[[g1 n1] n2] n3]. cbn in Hm.
  set (g2 := setRate g1 _). exists g2. split; [eapply rtc_r; [apply Hm|apply m_purge]|].
  set (capacity := Z.min _ _). destruct (capacity <=? 0) eqn:Hcap; [by left|]. right.
  destruct (issueLoop _ _ _ _ _ _ _ _) as [[g3 n4] l] eqn:Hl.
  exists (zrange (queue g2) (capacity - 1)), n3, g3, n4, l.
  pose proof (zrange_length (queue g2) (capacity - 1)) as Hz.
  split_and!; [lia|lia|apply Hl|done|done].
Qed.

Lemma subseteq_sizes (m1 m2 : gmap id Z) : m1 ⊆ m2 -> (size m1 <= size m2)%nat.
Proof. apply map_subseteq_size. Qed.

Section Limits.
Context (R L : Z).

Definition withinLimits (s : Script) : Prop :=
  match s with SIssue a => ia_rate a <= R /\ ia_inflight a <= L | _ => True end.

Definition bounded (g : Gen) : Prop :=
  counted g /\ Z.of_nat (size (inflight g)) <= L /\ Z.of_nat (size (rate g)) <= R.

Lemma script_bounded now g s : withinLimits s -> bounded g -> bounded (runScript now g s).
Proof.
  intros Hs (Hc & Hi & Hr). split.
  { apply (script_inv counted counted); auto; [intros; by eapply micro_counted|].
    intros g1 a _ _ H t st. rewrite enqueue_tokens, enqueue_inflight. apply H. }
  assert (Hsh : forall g', shrinks (now - 1000) g g' -> Z.of_nat (size (inflight g')) <= L /\ Z.of_nat (size (rate g')) <= R).
  { intros g' (Hi' & Hr' & _). apply subseteq_sizes in Hi', Hr'. lia. }
  destruct s as [| | | |a| | | |]; try (apply Hsh, script_shrinks; [by intros c []|lia]).
  destruct (issue_cases now g a) as (g1 & Hst & [[_ Hg]|(q & n & g2 & n' & l & Hq1 & Hq2 & Hl & _ & Hg)]); cbn; rewrite Hg;
    apply (steps_shrinks (now - 1000)) in Hst; try lia; [by apply Hsh|].
  apply issueLoop_sizes in Hl. cbn in Hs. lia.
Qed.

Lemma history_bounded h g : Forall (fun ns => withinLimits ns.2) h -> bounded g -> bounded (runScripts g h).
Proof. intros Hh. revert g. induction Hh; intros g Hg; cbn; auto using script_bounded. Qed.
End Limits.

Lemma script_recent lo now g s :
  now - 1000 <= lo -> NoDup (scriptTokens s) -> (forall t, t ∈ scriptTokens s -> rate g !! t = None) ->
  (size (recent lo g) + (if (lo <? now)%Z then admittedBy now g s else 0) <= size (recent lo (runScript now g s)))%nat /\
  (forall t, is_Some (rate (runScript now g s) !! t) -> is_Some (rate g !! t) \/ t ∈ scriptTokens s).
Proof.
  intros Hlo Hnd Hf.
  assert (Hsh : forall g', shrinks lo g g' ->
    size (recent lo g') = size (recent lo g) /\ (forall t, is_Some (rate g' !! t) -> is_Some (rate g !! t))).
  { intros g' (_ & Hr & ->). split; [done|]. intros t [x Hx]. exists x. by eapply lookup_weaken. }
  assert (Hno : (forall c, ~ issues s c) -> admittedBy now g s = 0%nat ->
    (size (recent lo g) + (if (lo <? now)%Z then admittedBy now g s else 0) <= size (recent lo (runScript now g s)))%nat /\
    (forall t, is_Some (rate (runScript now g s) !! t) -> is_Some (rate g !! t) \/ t ∈ scriptTokens s)).
  { intros Hn ->. destruct (Hsh _ (script_shrinks lo now g s Hn Hlo)) as [-> H2].
    split; [destruct (lo <? now); lia|auto]. }
  destruct s as [| | | |a| | | |]; try (apply Hno; [by intros c []|done]).
  destruct (issue_cases now g a) as (g1 & Hst & Hcase).
  apply (steps_shrinks lo) in Hst; [|done]. destruct (Hsh g1 Hst) as [H1 H2].
  destruct Hcase as [[Ha Hg]|(q & n & g2 & n' & l & _ & _ & Hl & Ha & Hg)]; cbn [runScript]; rewrite Ha, Hg.
  - split; [destruct (lo <? now); lia|eauto].
  - apply (issueLoop_recent lo) in Hl as (H3 & _ & H4); [|done|].
    + split; [cbn in H3; destruct (lo <? now); lia|]. intros t Ht. destruct (H4 t Ht); eauto.
    + intros t Ht. apply eq_None_not_Some. intros Hx. apply H2 in Hx. rewrite Hf in Hx by done. by destruct Hx.
Qed.

Lemma history_recent lo h g :
  Forall (fun ns => ns.1 - 1000 <= lo) h -> NoDup (concat (map (fun ns => scriptTokens ns.2) h)) ->
  (forall t, t ∈ concat (map (fun ns => scriptTokens ns.2) h) -> rate g !! t = None) ->
  (size (recent lo g) + admittedSince lo g h <= size (recent lo (runScripts g h)))%nat.
Proof.
  intros Hh. revert g. induction Hh as [|[now s] h Hlo Hh IH]; intros g; cbn; [lia|].
  rewrite NoDup_app. intros (Hn1 & Hd & Hn2) Hf.
  destruct (script_recent lo now g s) as [H1 H2]; auto; [intros; apply Hf; set_solver|].
  specialize (IH (runScript now g s) Hn2).
  assert (Hf' : forall t, t ∈ concat (map (fun ns => scriptTokens ns.2) h) -> rate (runScript now g s) !! t = None).
  { intros t Ht. apply eq_None_not_Some. intros Hx. apply H2 in Hx as [Hx|Hx]; [|set_solver].
    rewrite Hf in Hx by set_solver. by destruct Hx. }
  specialize (IH Hf'). unfold runScripts in IH. destruct (lo <? now); lia.
Qed.

(** C37: the policy's limits hold.  Along every history whose issue calls ask
    for at most [L] tokens in flight and at most [R] admissions a second: never
    more than [L] tokens are issued or being processed, and at any instant [T]
    not before the scripts run so far, at most [R] entries have been admitted in
    the second before [T], whatever the order of joins, cancellations, leases
    and recoveries.  Token ids do not repeat. *)
Theorem admission_limits R L h :
  0 <= R -> 0 <= L -> Forall (fun ns => withinLimits R L ns.2) h ->
  NoDup (concat (map (fun ns => scriptTokens ns.2) h)) ->
  Z.of_nat (size (liveTokens (runScripts emptyGen h))) <= L /\
  (forall T, Forall (fun ns => ns.1 <= T) h -> Z.of_nat (admittedSince (T - 1000) emptyGen h) <= R).
Proof.
  intros HR HL Hh Hnd.
  destruct (history_bounded R L h emptyGen Hh) as (Hc & Hi & Hr); [done|].
  split.
  - assert (Hsub : dom (liveTokens (runScripts emptyGen h)) ⊆ dom (inflight (runScripts emptyGen h))).
    { intros t. rewrite !elem_of_dom. intros [s Hs]. apply map_lookup_filter_Some in Hs as [Hs Ht]. by eapply Hc. }
    apply subseteq_size in Hsub. rewrite !size_dom in Hsub. lia.
  - intros T HT. pose proof (history_recent (T - 1000) h emptyGen) as Hw.
    assert (Hsub : recent (T - 1000) (runScripts emptyGen h) ⊆ rate (runScripts emptyGen h)) by apply map_filter_subseteq.
    apply subseteq_sizes in Hsub. 
    assert (HT' : Forall (fun ns => ns.1 - 1000 <= T - 1000) h) by (eapply Forall_impl; [apply HT|]; cbn; lia).
    specialize (Hw HT' Hnd (fun _ _ => eq_refl)). lia.
Qed.

(** ** One live place per owner *)

(** [J] holds the entries that have joined.  A live queued entry is its
    owner's registered place, and a token's entry has left the queue. *)
Definition placed (now : Z) (J : gset id) (g : Gen) : Prop :=
  (forall e o, live now g e = true -> ownerOfEntry g e = Some o -> users g !! o = Some e) /\
  (forall e, eStatus (entries g) !! e = Some Queued -> e ∈ J) /\
  (forall t d, tData (tokens g) !! t = Some d -> t_entry d ∈ J /\ eStatus (entries g) !! t_entry d <> Some Queued).

(** What the steps other than issuing do: no new queued entry, no new token,
    and the places of the entries still queued are kept. *)
Definition shrinkPlaces (now : Z) (g g' : Gen) : Prop :=
  (forall e, eStatus (entries g') !! e = Some Queued ->
     eStatus (entries g) !! e = Some Queued /\ eData (entries g') !! e = eData (entries g) !! e /\
     eExpiry (entries g') !! e = eExpiry (entries g) !! e /\
     (forall o, live now g e = true -> users g !! o = Some e -> users g' !! o = Some e)) /\
  (forall t d, tData (tokens g') !! t = Some d -> tData (tokens g) !! t = Some d).

Lemma placed_shrink now J g g' : placed now J g -> shrinkPlaces now g g' -> placed now J g'.
Proof.
  intros (H1 & H2 & H3) [Hs Ht]. split_and!.
  - intros e o Hl Ho. unfold live in Hl. apply andb_true_iff in Hl as [Hq Hx]. apply bool_decide_eq_true in Hq.
    destruct (Hs e Hq) as (Hq0 & Hd & He & Hu).
    assert (Hl : live now g e = true).
    { unfold live, expiryOfEntry in *. rewrite <- He, Hx, bool_decide_true by done. done. }
    apply Hu; [done|]. apply H1; [done|]. unfold ownerOfEntry in *. by rewrite <- Hd.
  - intros e Hq. by apply H2, Hs.
  - intros t d Hd. apply Ht in Hd. destruct (H3 t d Hd) as [? Hn]. split; [done|]. intros Hq. by apply Hn, Hs.
Qed.

(** A step that takes one entry [e] out of the queue and may drop its owner's place. *)
Lemma leave_shrinks now g g' e o :
  (forall e', e' <> e -> eStatus (entries g') !! e' = eStatus (entries g) !! e') ->
  (forall e', e' <> e -> eData (entries g') !! e' = eData (entries g) !! e') ->
  (forall e', e' <> e -> eExpiry (entries g') !! e' = eExpiry (entries g) !! e') ->
  eStatus (entries g') !! e <> Some Queued -> users g' = users (dropUser g o (Some e)) ->
  (forall t d, tData (tokens g') !! t = Some d -> tData (tokens g) !! t = Some d) -> shrinkPlaces now g g'.
Proof.
  intros Hs Hd Hx He Hu Ht. split; [|done]. intros e' Hq. assert (Hn : e' <> e) by congruence.
  split_and!; [by rewrite <- Hs|by rewrite <- Hd|by rewrite <- Hx|].
  intros o' _ Ho'. rewrite Hu. apply dropUser_users; [done|congruence].
Qed.

Lemma same_shrinks now g g' :
  entries g' = entries g -> users g' = users g -> tData (tokens g') = tData (tokens g) -> shrinkPlaces now g g'.
Proof. intros He Hu Ht. split; rewrite ?He, ?Hu, ?Ht; auto. Qed.

Lemma terminalizeEntryExpired_shrinks now now' g e : shrinkPlaces now g (terminalizeEntryExpired now' g e).
Proof.
  apply (leave_shrinks _ _ _ e (ownerOfEntry g e)); unfold terminalizeEntryExpired; cbn;
    autorewrite with admission; cbn; autorewrite with admission; auto.
  - intros. by rewrite lookup_insert_ne.
  - by rewrite lookup_insert_eq.
  - by apply dropUser_users_ext.
Qed.

Lemma finish_shrinks now J g o e q es ts score t :
  placed now J g -> es <> Some Queued -> (es = None -> e = entryOfToken g t) ->
  shrinkPlaces now g (finish o e q es ts score g t).
Proof.
  intros (_ & _ & H3) Hes Hnone. destruct e as [e|].
  - apply (leave_shrinks _ _ _ e o); autorewrite with admission; try (by cbn); destruct es as [s|]; cbn; auto.
    + intros. by rewrite lookup_insert_ne.
    + rewrite lookup_insert_eq. congruence.
    + unfold entryOfToken in Hnone. specialize (Hnone eq_refl). destruct (tData _ !! t) as [d|] eqn:Hd; [|done].
      cbn in Hnone. simplify_eq. by eapply H3.
  - apply same_shrinks; autorewrite with admission; cbn; auto. unfold dropUser. by destruct o.
Qed.

Lemma deleteTokenState_shrinks now g t : shrinkPlaces now g (deleteTokenState g t).
Proof.
  assert (Htd : forall t' d, delete t (tData (tokens g)) !! t' = Some d -> tData (tokens g) !! t' = Some d).
  { intros t' d Hd. by apply lookup_delete_Some in Hd as [_ Hd]. }
  destruct (entryOfToken g t) as [e|] eqn:He.
  - apply (leave_shrinks _ _ _ e (ownerOfToken g t)); autorewrite with admission; rewrite ?He; cbn;
      intros; rewrite ?lookup_delete_ne, ?lookup_delete_eq by done; auto.
  - split; autorewrite with admission; rewrite ?He; [|apply Htd].
    intros e Hq. split_and!; auto. unfold dropUser. by destruct (ownerOfToken g t).
Qed.

Lemma sweepEntry_shrinks now g e : shrinkPlaces now g (sweepEntry g e).
Proof.
  apply (leave_shrinks _ _ _ e (ownerOfEntry g e)); unfold sweepEntry; cbn; autorewrite with admission; auto;
    intros; rewrite ?lookup_delete_ne, ?lookup_delete_eq by done; auto.
Qed.

Lemma issueOne_placed now J g version c d :
  placed now J g -> live now g (cd_entry c) = true -> placed now J (issueOne now version g c d).
Proof.
  intros (H1 & H2 & H3) Hl. unfold live in Hl. apply andb_true_iff in Hl as [Hq _]. apply bool_decide_eq_true in Hq.
  assert (Hne : forall e, eStatus (entries (issueOne now version g c d)) !! e = Some Queued ->
    cd_entry c <> e /\ eStatus (entries g) !! e = Some Queued).
  { intros e. cbn. rewrite lookup_insert_Some. intros [[_ ?]|?]; [done|done]. }
  split_and!.
  - intros e o Hl Ho. unfold live in Hl. apply andb_true_iff in Hl as [Hq' Hx]. apply bool_decide_eq_true in Hq'.
    destruct (Hne e Hq') as [Hn Hq0]. apply H1; [|done]. unfold live, expiryOfEntry in *. cbn in Hx.
    rewrite lookup_insert_ne in Hx by done. by rewrite Hx, bool_decide_true.
  - intros e Hq'. by apply H2, Hne.
  - intros t d'. cbn. rewrite !lookup_insert_Some. intros [[_ <-]|[_ Hd]]; cbn.
    + split; [by apply H2|]. intros [[_ ?]|[? _]]; done.
    + destruct (H3 t d' Hd) as [? Hn]. split; [done|]. intros [[_ ?]|[_ ?]]; done.
Qed.

Lemma micro_placed now J iss g g' : micro now iss g g' -> placed now J g -> placed now J g'.
Proof.
  intros Hm HJ. destruct Hm; [eapply placed_shrink; [apply HJ|] ..|by apply issueOne_placed];
    eauto using terminalizeEntryExpired_shrinks, sweepEntry_shrinks, finish_shrinks, deleteTokenState_shrinks;
    try (by apply same_shrinks).
  split; [|done]. intros e Hq. split_and!; auto. intros o' Hl Ho'. cbn.
  rewrite lookup_delete_ne; [done|]. intros ->. rewrite (H _ Ho') in Hl. done.
Qed.

Lemma enqueue_placed now J g a :
  placed now J g -> users g !! ja_owner a = None -> ja_entry a ∉ J -> placed now ({[ja_entry a]} ∪ J) (enqueue now g a).2.
Proof.
  intros (H1 & H2 & H3) Hu Hj. unfold enqueue. destruct (_ <=? _); cbn [snd].
  { split_and!; [done|set_solver|]. intros t d Hd. destruct (H3 t d Hd). set_solver. }
  split_and!; unfold live, ownerOfEntry, expiryOfEntry; cbn.
  - intros e o Hl Ho. apply andb_true_iff in Hl as [Hq Hx]. apply bool_decide_eq_true in Hq.
    destruct (decide (ja_entry a = e)) as [<-|Hn].
    + rewrite lookup_insert_eq in Ho. cbn in Ho. simplify_eq. by rewrite lookup_insert_eq.
    + rewrite lookup_insert_ne in Hq by done. rewrite lookup_insert_ne in Hx by done. rewrite lookup_insert_ne in Ho by done.
      assert (Ho' : users g !! o = Some e).
      { apply H1; [|done]. unfold live, expiryOfEntry. by rewrite Hx, bool_decide_true. }
      rewrite lookup_insert_ne; [done|]. intros <-. congruence.
  - intros e. rewrite lookup_insert_Some. intros [[<- _]|[_ Hq]]; [set_solver|]. apply H2 in Hq. set_solver.
  - intros t d Hd. destruct (H3 t d Hd) as [Hj' Hq]. split; [set_solver|].
    rewrite lookup_insert_ne; [done|]. intros Heq. by rewrite Heq in Hj.
Qed.

Definition joinedBy (s : Script) : list id := match s with SJoin a => [ja_entry a] | _ => [] end.

Lemma placed_mono now now' J J' g : placed now J g -> now <= now' -> J ⊆ J' -> placed now' J' g.
Proof.
  intros (H1 & H2 & H3) Hn HJ. split_and!.
  - intros e o Hl. apply H1. unfold live in *. apply andb_true_iff in Hl as [Hq Hx]. rewrite Hq. lia.
  - set_solver.
  - intros t d Hd. destruct (H3 t d Hd). set_solver.
Qed.

Lemma script_placed now J g s :
  placed now J g -> (forall e, e ∈ joinedBy s -> e ∉ J) -> placed now (list_to_set (joinedBy s) ∪ J) (runScript now g s).
Proof.
  intros HJ Hs. apply (script_inv (placed now J) (placed now (list_to_set (joinedBy s) ∪ J))); auto.
  - intros g1 g2. apply micro_placed.
  - intros g1 a -> Hu H1. cbn. rewrite union_empty_r_L. apply enqueue_placed; auto. apply Hs. by left.
  - intros g1 H1. eapply placed_mono; eauto with lia. set_solver.
Qed.

(** The clock of a history never goes back from [now]. *)
Fixpoint clockFrom (now : Z) (h : list (Z * Script)) : Prop :=
  match h with [] => True | ns :: h => now <= ns.1 /\ clockFrom ns.1 h end.

(** The time of the last script. *)
Definition lastTime (now : Z) (h : list (Z * Script)) : Z := foldl (fun _ ns => ns.1) now h.

Lemma history_placed h now J g :
  placed now J g -> clockFrom now h -> NoDup (concat (map (fun ns => joinedBy ns.2) h)) ->
  (forall e, e ∈ concat (map (fun ns => joinedBy ns.2) h) -> e ∉ J) ->
  exists J', placed (lastTime now h) J' (runScripts g h).
Proof.
  revert now J g. induction h as [|[now' s] h IH]; intros now J g HJ; cbn; [by exists J|].
  intros [Hle Hc] Hnd Hf. apply NoDup_app in Hnd as (_ & Hd & Hnd).
  apply (IH now' (list_to_set (joinedBy s) ∪ J)); auto.
  - apply script_placed; [by eapply placed_mono|]. intros e He. apply Hf. set_solver.
  - intros e He Hj. apply elem_of_union in Hj as [Hj|Hj]; [|eapply Hf; [|done]; set_solver].
    apply elem_of_list_to_set in Hj. by eapply Hd.
Qed.

Lemma expireStale_live now g e e' : live now g e = true -> live now (expireStale now g e') e = true /\
  ownerOfEntry (expireStale now g e') e = ownerOfEntry g e.
Proof.
  intros Hl. unfold expireStale. destruct (_ && _) eqn:Hx; [|done]. rewrite expireEntry_eq.
  unfold live in *. apply andb_true_iff in Hl as [Hq Hl].
  assert (Hn : e' <> e) by (intros ->; lia).
  unfold terminalizeEntryExpired, expiryOfEntry, ownerOfEntry in *. cbn. rewrite !dropUser_entries. cbn.
  rewrite lookup_insert_ne by done. by rewrite Hq, Hl.
Qed.

Lemma expireStales_live now l g e : live now g e = true -> live now (foldl (expireStale now) g l) e = true /\
  ownerOfEntry (foldl (expireStale now) g l) e = ownerOfEntry g e.
Proof.
  revert g. induction l as [|e' l IH]; intros g Hl; [done|]. cbn.
  destruct (expireStale_live now g e e' Hl) as [H1 <-]. by apply IH.
Qed.

(** A join by an owner that has a live place does not give a second one. *)
Lemma join_again now J g a e v :
  placed now J g -> live now g e = true -> ownerOfEntry g e = Some (ja_owner a) ->
  (join now g a).1 = Done v -> v.1 = true /\ v_entry v.2 = e.
Proof.
  intros HJ Hl Ho. unfold join. destruct (notVersion _ _); [done|]. destruct (notVersion _ _); [done|].
  destruct (expireStales_live now (zrange (queue g) 63) g e Hl) as [Hl' Ho'].
  pose proof (rtc_inv _ (placed now J) _ _ (micro_placed now J (fun _ => False))
    (joinPrefix_steps now (fun _ => False) g (zrange (queue g) 63)) HJ) as HJ'.
  set (g1 := foldl _ _ _) in *. destruct HJ' as [H1 _]. rewrite Ho in Ho'.
  rewrite (H1 e _ Hl' Ho'). unfold live in Hl'. apply andb_true_iff in Hl' as [Hq Hx].
  apply bool_decide_eq_true in Hq. rewrite Hq, Hx. destruct (negb _); [done|]. by intros [= <-].
Qed.

(** an owner has at most one live place.  Along every history with a
    clock that does not go back and entry ids that do not repeat, two queued
    entries that are not due and have the same owner are the same entry; and a
    join by an owner that has such an entry reports that entry as a duplicate,
    never a new one. *)
Theorem one_live_place_per_owner now0 h now :
  clockFrom now0 h -> lastTime now0 h <= now -> NoDup (concat (map (fun ns => joinedBy ns.2) h)) ->
  forall e o, live now (runScripts emptyGen h) e = true -> ownerOfEntry (runScripts emptyGen h) e = Some o ->
  (forall e', live now (runScripts emptyGen h) e' = true -> ownerOfEntry (runScripts emptyGen h) e' = Some o -> e' = e) /\
  (forall a v, ja_owner a = o -> (join now (runScripts emptyGen h) a).1 = Done v -> v.1 = true /\ v_entry v.2 = e).
Proof.
  intros Hc Hn Hnd e o Hl Ho.
  destruct (history_placed h now0 ∅ emptyGen) as [J HJ]; [by split_and!|done|done|set_solver|].
  apply (placed_mono _ now _ J) in HJ; [|done|done]. split.
  - intros e' Hl' Ho'. destruct HJ as [H1 _]. pose proof (H1 e o Hl Ho). pose proof (H1 e' o Hl' Ho'). congruence.
  - intros a v <-. by eapply join_again.
Qed.

(** ** A sample history *)
Lemma neverIssues_tokens t h : t ∉ concat (map (fun ns => scriptTokens ns.2) h) -> neverIssues t h.
Proof.
  intros Hn. apply Forall_forall. intros [now s] Hs c Hc <-. apply Hn.
  apply list_elem_of_In, in_concat. exists (scriptTokens s). split.
  - apply in_map_iff. exists (now, s). split; [done|]. by apply list_elem_of_In.
  - apply list_elem_of_In. destruct s; try done. cbn in *. apply list_elem_of_fmap. by exists c.
Qed.

Definition sampleInfo : Info := mkInfo "policy" "run" "first" 0 3 2.
Definition sampleJoin (o : owner) (e : id) : JoinArgs := mkJoin 1 o e 77 sampleInfo 10 60000.
Definition sampleCandidate (o : owner) (e t : id) : Candidate := mkCandidate e t "kid" "nonce" 1000 31000 o 77.
Definition sampleIssue (cs : list Candidate) : IssueArgs := mkIssue 1 2 1 30000 100 cs.
Definition sampleAcquire (o : owner) (t : id) (leaseOwner : N) : AcquireArgs :=
  mkAcquire 1 t o 77 (5%N, 6%N) 0 3 "first" 2 leaseOwner 2000.
Definition sampleLease (o : owner) (t : id) (leaseOwner : N) (m : Z) : LeaseArgs :=
  mkLeaseArgs 1 t o (5%N, 6%N) leaseOwner m.

(** Two owners join; the inflight limit of one admits the first. *)
Definition sampleHistory : list (Z * Script) :=
  [(900, SInstall 1 true); (910, SJoin (sampleJoin 7 1)); (920, SJoin (sampleJoin 8 2)); (925, SJoin (sampleJoin 8 3));
   (1000, SIssue (sampleIssue [sampleCandidate 7 1 101; sampleCandidate 8 2 102]))].

(** After the first lease, a second issue call and a second attempt to lease. *)
Definition sampleRest : list (Z * Script) :=
  [(1300, SIssue (sampleIssue [sampleCandidate 8 2 103])); (1400, SAcquire (sampleAcquire 7 101 21));
   (5000, SAcquire (sampleAcquire 7 101 22))].

Definition sampleState : Gen := runScripts emptyGen sampleHistory.
Definition sampleLeased : Gen := (acquire 1100 sampleState (sampleAcquire 7 101 20)).2.

Lemma token_single_use_witness :
  let g' := (finalize 1200 sampleLeased (sampleLease 7 101 20 1)).2 in
  endsToken 1200 sampleLeased 101 g' /\
  (acquire 1500 (runScripts g' sampleRest) (sampleAcquire 7 101 20)).1 <> Done (Acquired 20 2).
Proof.
  intros g'.
  assert (He : endsToken 1200 sampleLeased 101 g').
  { apply (ends_finalize 1200 sampleLeased 101 g' (sampleLease 7 101 20 1)); vm_compute; reflexivity. }
  split; [exact He|].
  destruct (token_single_use 1200 sampleLeased 101 g' sampleRest He) as [H _].
  - apply neverIssues_tokens. apply (bool_decide_unpack _). vm_compute. exact I.
  - apply H. reflexivity.
Defined.

Lemma token_lease_fenced_witness :
  (acquire 1100 sampleState (sampleAcquire 7 101 20)).1 = Done (Acquired 20 1) /\
  refuses 101 1 (runScripts sampleLeased sampleRest).
Proof.
  split; [vm_compute; reflexivity|].
  refine (token_lease_fenced 1100 sampleState (sampleAcquire 7 101 20) 20 1 sampleLeased sampleRest _ _).
  - vm_compute. reflexivity.
  - apply neverIssues_tokens. apply (bool_decide_unpack _). vm_compute. exact I.
Defined.

Lemma delivery_at_most_once_witness :
  (exists d g', get 1050 sampleState 1 1 7 true = (Done (GotDelivery d), g') /\ dl_token d = 101%N) /\
  (get 1060 (runScripts (get 1050 sampleState 1 1 7 true).2 sampleRest) 1 1 7 true).1
    <> Done (GotDelivery (deliveryOf sampleState 1 101 7 1)).
Proof.
  assert (Hg : get 1050 sampleState 1 1 7 true =
    (Done (GotDelivery (deliveryOf sampleState 1 101 7 1)), (get 1050 sampleState 1 1 7 true).2)) by (vm_compute; reflexivity).
  split; [eexists _, _; split; [exact Hg|vm_compute; reflexivity]|].
  intros H.
  refine (delivery_at_most_once 1050 sampleState 1 1 7 (deliveryOf sampleState 1 101 7 1) _ sampleRest Hg _ 1060 1 1%N 7%N _ (or_introl H) eq_refl).
  apply neverIssues_tokens. apply (bool_decide_unpack _). vm_compute. exact I.
Defined.

Lemma admission_limits_witness :
  Z.of_nat (size (liveTokens sampleState)) = 1 /\ Z.of_nat (size (liveTokens sampleState)) <= 1 /\
  Z.of_nat (admittedSince 0 emptyGen sampleHistory) <= 2.
Proof.
  split; [vm_compute; reflexivity|].
  destruct (admission_limits 2 1 sampleHistory) as [H1 H2]; [lia|lia| | |split; [exact H1|apply (H2 1000)]].
  - repeat constructor; cbn; lia.
  - apply (bool_decide_unpack _). vm_compute. exact I.
  - repeat constructor; cbn; lia.
Defined.

Lemma one_live_place_per_owner_witness :
  live 1000 (runScripts emptyGen sampleHistory) 2 = true /\ ownerOfEntry (runScripts emptyGen sampleHistory) 2 = Some 8%N /\
  exists v, (join 1000 (runScripts emptyGen sampleHistory) (sampleJoin 8 4)).1 = Done v /\ v.1 = true /\ v_entry v.2 = 2%N.
Proof.
  assert (Hl : live 1000 (runScripts emptyGen sampleHistory) 2 = true) by (vm_compute; reflexivity).
  assert (Ho : ownerOfEntry (runScripts emptyGen sampleHistory) 2 = Some 8%N) by (vm_compute; reflexivity).
  split; [exact Hl|]. split; [exact Ho|].
  destruct (one_live_place_per_owner 0 sampleHistory 1000) with (e := 2%N) (o := 8%N) as [_ H]; [| | |exact Hl|exact Ho|].
  - repeat split; cbn; lia.
  - cbn. lia.
  - apply (bool_decide_unpack _). vm_compute. exact I.
  - assert (Hj : (join 1000 (runScripts emptyGen sampleHistory) (sampleJoin 8 4)).1 =
      Done (true, entryView (runScripts emptyGen sampleHistory) 2 Queued 60920 1)) by (vm_compute; reflexivity).
    eexists. split; [exact Hj|]. apply (H (sampleJoin 8 4)); [reflexivity|exact Hj].
Defined.
