(* ===== verification/PaymentDb.v ===== *)
(** * The payment control plane: tables, constraints and transactions

    The tables that [src/migrations/000010_payment_control_plane.up.sql]
    creates and that the payment stores use: payment_intents, payment_sagas,
    payment_operations, payment_webhook_inbox, payment_manual_review_cases and
    the ticket locators and codes, with their CHECK and UNIQUE constraints,
    the foreign key that binds an operation's money to its intent, and the
    guards of the BEFORE triggers.

    A table is a finite map from the primary key.  A statement returns the
    number of rows it changed and the new tables, or the violation that aborts
    it; a transaction is a computation that threads the tables and rolls back
    on an error.  Transactions run one after the other (the stores lock the
    rows they change), and a transaction reads clock_timestamp() once.  Lease
    owner and lease expiry are one column: every statement writes both.  The
    updates never assign the identity columns, so the guards' clauses that
    make those immutable hold by construction.  Not checked again: the pattern
    of lease_owner (the claim options are validated), and the constraints on
    an operation's provider, amount and currency (the foreign key makes them
    those of the intent, which are checked). *)

From S2P Require Import Prelude StateMachine PaymentDomain.
Export IntentModel(IntentState, Created, ReservationSecuring, CheckoutPending, AwaitingCustomer, AuthorizationPending,
  Authorized, CapturePending, Captured, TicketIssuePending, Completed, VoidPending, Voided, RefundPending, Refunded,
  Cancelled, Failed, ManualReview, Expired).
Export OperationModel(OperationType, OperationCreateCheckout, OperationQueryStatus, OperationAuthorize, OperationCapture,
  OperationVoid, OperationRefund, OperationOther, OperationState, Pending, Claimed, InFlight, Succeeded, FailedRetryable,
  FailedPermanent, Uncertain, OpCancelled).
Export SagaModel(SagaState, SagaCreated, SagaReservationSecured, SagaCheckoutCreated, SagaAwaitingProvider, SagaAuthorized,
  SagaCapturing, SagaCaptured, SagaIssuingTickets, SagaCompleted, SagaCompensating, SagaRefunding, SagaCompensated,
  SagaFailed, SagaManualReview).
#[export] Existing Instance IntentModel.IntentState_eq_dec.
#[export] Existing Instance OperationModel.OperationState_eq_dec.
#[export] Existing Instance SagaModel.SagaState_eq_dec.
#[export] Instance OperationType_eq_dec : EqDecision OperationType.
Proof. solve_decision. Defined.

(** ** Columns *)

(** provider.Status, and the values of normalized_provider_state. *)
Inductive Status :=
| StatusCreated | StatusRequiresCustomerAction | StatusAuthorized | StatusCaptured | StatusVoided | StatusRefunded
| StatusFailed | StatusCancelled | StatusUnknown.
#[export] Instance Status_eq_dec : EqDecision Status.
Proof. solve_decision. Defined.

(** payment_sagas.current_step. *)
Inductive Step :=
| SecureReservation | CreateCheckout | AwaitProvider | StepAuthorize | StepCapture | ReconcileProvider | IssueTickets
| StepVoid | StepRefund | Compensate | Complete.
#[export] Instance Step_eq_dec : EqDecision Step.
Proof. solve_decision. Defined.

(** payment_webhook_inbox.state. *)
Inductive InboxState :=
| Received | InboxProcessing | Processed | Ignored | InboxFailedRetryable | InboxFailedPermanent | SecurityConflict.
#[export] Instance InboxState_eq_dec : EqDecision InboxState.
Proof. solve_decision. Defined.

(** Digests are numbers; the zero digest is 0. *)
Abbreviation digest := N.
(** A lease: its owner and its last instant. *)
Abbreviation lease := (option (string * Z)).

Record IntentRow := mkIntentRow {
  i_reservation : uuid; i_run : uuid; i_owner : uuid; i_provider : string; i_ppid : option string; i_hosted : option string;
  i_amount : Z; i_currency : string; i_state : IntentState; i_key : digest; i_fp : digest; i_created : Z;
  i_completed : option Z }.

Record SagaRow := mkSagaRow {
  s_intent : uuid; s_reservation : uuid; s_step : Step; s_state : SagaState; s_lease : lease; s_attempts : Z; s_next : Z;
  s_error : option string; s_updated : Z; s_completed : option Z }.

Record OpRow := mkOpRow {
  o_intent : uuid; o_provider : string; o_type : OperationType; o_key : digest; o_poid : option string; o_amount : Z;
  o_currency : string; o_state : OperationState; o_attempts : Z; o_next : Z; o_lease : lease; o_pstate : option Status;
  o_fp : option digest; o_error : option string; o_created : Z; o_updated : Z; o_completed : option Z }.

Record InboxRow := mkInboxRow {
  x_provider : string; x_event : string; x_type : string; x_ppid : option string; x_hash : digest; x_created : Z;
  x_received : Z; x_state : InboxState; x_attempts : Z; x_next : Z; x_lease : lease; x_error : option string;
  x_processed : option Z }.

Record ReviewRow := mkReviewRow {
  rv_intent : uuid; rv_operation : option uuid; rv_inbox : option uuid; rv_reason : string; rv_due : Z }.

(** reservation_directory: run, owner, and whether its state is active or moving. *)
Record DirectoryRow := mkDirectoryRow { d_run : uuid; d_owner : uuid; d_live : bool }.

Record ResLocator := mkResLocator { rl_run : uuid; rl_shard : string; rl_generation : Z; rl_owner : uuid }.
Record OrdLocator := mkOrdLocator {
  ol_reservation : uuid; ol_run : uuid; ol_shard : string; ol_generation : Z; ol_owner : uuid; ol_confirmed : bool;
  ol_amount : Z; ol_currency : string; ol_created : Z }.
Record TicLocator := mkTicLocator {
  tl_order : uuid; tl_reservation : uuid; tl_run : uuid; tl_shard : string; tl_generation : Z; tl_owner : uuid }.
#[export] Instance TicLocator_eq_dec : EqDecision TicLocator.
Proof. solve_decision. Defined.

(** payment_provider_event_conflicts, keyed by provider, event and the
    conflicting hash. *)
Record ConflictRow := mkConflictRow { k_canonical : digest; k_count : Z; k_first : Z; k_last : Z }.

Record PDb := mkPDb {
  intents : gmap uuid IntentRow; sagas : gmap uuid SagaRow; ops : gmap uuid OpRow; inbox : gmap uuid InboxRow;
  reviews : gmap uuid ReviewRow; directory : gmap uuid DirectoryRow; resLocators : gmap uuid ResLocator;
  ordLocators : gmap uuid OrdLocator; ticLocators : gmap uuid TicLocator; ticketCodes : gmap string uuid;
  conflicts : gmap (string * string * digest) ConflictRow; claimsReady : bool }.

Definition setIntents db v := mkPDb v (sagas db) (ops db) (inbox db) (reviews db) (directory db) (resLocators db) (ordLocators db) (ticLocators db) (ticketCodes db) (conflicts db) (claimsReady db).
Definition setSagas db v := mkPDb (intents db) v (ops db) (inbox db) (reviews db) (directory db) (resLocators db) (ordLocators db) (ticLocators db) (ticketCodes db) (conflicts db) (claimsReady db).
Definition setOps db v := mkPDb (intents db) (sagas db) v (inbox db) (reviews db) (directory db) (resLocators db) (ordLocators db) (ticLocators db) (ticketCodes db) (conflicts db) (claimsReady db).
Definition setInbox db v := mkPDb (intents db) (sagas db) (ops db) v (reviews db) (directory db) (resLocators db) (ordLocators db) (ticLocators db) (ticketCodes db) (conflicts db) (claimsReady db).
Definition setReviews db v := mkPDb (intents db) (sagas db) (ops db) (inbox db) v (directory db) (resLocators db) (ordLocators db) (ticLocators db) (ticketCodes db) (conflicts db) (claimsReady db).
Definition setOrdLocators db v := mkPDb (intents db) (sagas db) (ops db) (inbox db) (reviews db) (directory db) (resLocators db) v (ticLocators db) (ticketCodes db) (conflicts db) (claimsReady db).
Definition setTicLocators db v := mkPDb (intents db) (sagas db) (ops db) (inbox db) (reviews db) (directory db) (resLocators db) (ordLocators db) v (ticketCodes db) (conflicts db) (claimsReady db).
Definition setTicketCodes db v := mkPDb (intents db) (sagas db) (ops db) (inbox db) (reviews db) (directory db) (resLocators db) (ordLocators db) (ticLocators db) v (conflicts db) (claimsReady db).
Definition setConflicts db v := mkPDb (intents db) (sagas db) (ops db) (inbox db) (reviews db) (directory db) (resLocators db) (ordLocators db) (ticLocators db) (ticketCodes db) v (claimsReady db).
Definition setReady db v := mkPDb (intents db) (sagas db) (ops db) (inbox db) (reviews db) (directory db) (resLocators db) (ordLocators db) (ticLocators db) (ticketCodes db) (conflicts db) v.

(** Column updates. *)
Definition intentTo s (r : IntentRow) := mkIntentRow (i_reservation r) (i_run r) (i_owner r) (i_provider r) (i_ppid r) (i_hosted r) (i_amount r) (i_currency r) s (i_key r) (i_fp r) (i_created r) (i_completed r).
Definition intentDone s (t : Z) (r : IntentRow) := mkIntentRow (i_reservation r) (i_run r) (i_owner r) (i_provider r) (i_ppid r) (i_hosted r) (i_amount r) (i_currency r) s (i_key r) (i_fp r) (i_created r) (Some t).
(** completed_at=COALESCE(completed_at,clock_timestamp()). *)
Definition intentDoneOnce s (t : Z) (r : IntentRow) := intentDone s (default t (i_completed r)) r.
Definition intentCheckout p h (r : IntentRow) := mkIntentRow (i_reservation r) (i_run r) (i_owner r) (i_provider r) (Some p) h (i_amount r) (i_currency r) AwaitingCustomer (i_key r) (i_fp r) (i_created r) (i_completed r).

Definition sagaTo s (r : SagaRow) := mkSagaRow (s_intent r) (s_reservation r) (s_step r) s (s_lease r) (s_attempts r) (s_next r) (s_error r) (s_updated r) (s_completed r).
Definition sagaStep p (r : SagaRow) := mkSagaRow (s_intent r) (s_reservation r) p (s_state r) (s_lease r) (s_attempts r) (s_next r) (s_error r) (s_updated r) (s_completed r).
Definition sagaLease l (r : SagaRow) := mkSagaRow (s_intent r) (s_reservation r) (s_step r) (s_state r) l (s_attempts r) (s_next r) (s_error r) (s_updated r) (s_completed r).
Definition sagaAttempt (r : SagaRow) := mkSagaRow (s_intent r) (s_reservation r) (s_step r) (s_state r) (s_lease r) (s_attempts r + 1) (s_next r) (s_error r) (s_updated r) (s_completed r).
Definition sagaNext t (r : SagaRow) := mkSagaRow (s_intent r) (s_reservation r) (s_step r) (s_state r) (s_lease r) (s_attempts r) t (s_error r) (s_updated r) (s_completed r).
Definition sagaError e (r : SagaRow) := mkSagaRow (s_intent r) (s_reservation r) (s_step r) (s_state r) (s_lease r) (s_attempts r) (s_next r) e (s_updated r) (s_completed r).
Definition sagaCompleted c (r : SagaRow) := mkSagaRow (s_intent r) (s_reservation r) (s_step r) (s_state r) (s_lease r) (s_attempts r) (s_next r) (s_error r) (s_updated r) c.
Definition sagaTouch t (r : SagaRow) := mkSagaRow (s_intent r) (s_reservation r) (s_step r) (s_state r) (s_lease r) (s_attempts r) (s_next r) (s_error r) t (s_completed r).

Definition opTo s (r : OpRow) := mkOpRow (o_intent r) (o_provider r) (o_type r) (o_key r) (o_poid r) (o_amount r) (o_currency r) s (o_attempts r) (o_next r) (o_lease r) (o_pstate r) (o_fp r) (o_error r) (o_created r) (o_updated r) (o_completed r).
Definition opLease l (r : OpRow) := mkOpRow (o_intent r) (o_provider r) (o_type r) (o_key r) (o_poid r) (o_amount r) (o_currency r) (o_state r) (o_attempts r) (o_next r) l (o_pstate r) (o_fp r) (o_error r) (o_created r) (o_updated r) (o_completed r).
Definition opAttempt (r : OpRow) := mkOpRow (o_intent r) (o_provider r) (o_type r) (o_key r) (o_poid r) (o_amount r) (o_currency r) (o_state r) (o_attempts r + 1) (o_next r) (o_lease r) (o_pstate r) (o_fp r) (o_error r) (o_created r) (o_updated r) (o_completed r).
Definition opNext t (r : OpRow) := mkOpRow (o_intent r) (o_provider r) (o_type r) (o_key r) (o_poid r) (o_amount r) (o_currency r) (o_state r) (o_attempts r) t (o_lease r) (o_pstate r) (o_fp r) (o_error r) (o_created r) (o_updated r) (o_completed r).
Definition opError e (r : OpRow) := mkOpRow (o_intent r) (o_provider r) (o_type r) (o_key r) (o_poid r) (o_amount r) (o_currency r) (o_state r) (o_attempts r) (o_next r) (o_lease r) (o_pstate r) (o_fp r) e (o_created r) (o_updated r) (o_completed r).
Definition opEvidence st f (r : OpRow) := mkOpRow (o_intent r) (o_provider r) (o_type r) (o_key r) (o_poid r) (o_amount r) (o_currency r) (o_state r) (o_attempts r) (o_next r) (o_lease r) (Some st) (Some f) (o_error r) (o_created r) (o_updated r) (o_completed r).
Definition opPoid p (r : OpRow) := mkOpRow (o_intent r) (o_provider r) (o_type r) (o_key r) p (o_amount r) (o_currency r) (o_state r) (o_attempts r) (o_next r) (o_lease r) (o_pstate r) (o_fp r) (o_error r) (o_created r) (o_updated r) (o_completed r).
Definition opCompleted c (r : OpRow) := mkOpRow (o_intent r) (o_provider r) (o_type r) (o_key r) (o_poid r) (o_amount r) (o_currency r) (o_state r) (o_attempts r) (o_next r) (o_lease r) (o_pstate r) (o_fp r) (o_error r) (o_created r) (o_updated r) c.
Definition opTouch t (r : OpRow) := mkOpRow (o_intent r) (o_provider r) (o_type r) (o_key r) (o_poid r) (o_amount r) (o_currency r) (o_state r) (o_attempts r) (o_next r) (o_lease r) (o_pstate r) (o_fp r) (o_error r) (o_created r) t (o_completed r).

Definition inboxRow s a n l e p (r : InboxRow) := mkInboxRow (x_provider r) (x_event r) (x_type r) (x_ppid r) (x_hash r) (x_created r) (x_received r) s a n l e p.

(** ** Patterns *)
Definition inRange (c : ascii) (lo hi : nat) : bool := let n := nat_of_ascii c in ((lo <=? n) && (n <=? hi))%nat.
Definition isLower (c : ascii) : bool := inRange c 97 122.
Definition isUpper (c : ascii) : bool := inRange c 65 90.
Definition isDigit (c : ascii) : bool := inRange c 48 57.
Definition isAlnum (c : ascii) : bool := isLower c || isUpper c || isDigit c.
Definition oneOf (c : ascii) (s : string) : bool := existsb (fun d => bool_decide (c = d)) (String.list_ascii_of_string s).

(** [^[A-Za-z0-9][A-Za-z0-9._:-]{0,n}$] *)
Definition identifier (n : nat) (s : string) : bool :=
  match String.list_ascii_of_string s with
  | c :: l => isAlnum c && forallb (fun c => isAlnum c || oneOf c "._:-") l && (length l <=? n)%nat
  | [] => false
  end.
Definition providerIdentifier (s : string) : bool := identifier 127 s.
(** [^[a-z][a-z0-9_]{0,63}$] *)
Definition validCategory (s : string) : bool :=
  match String.list_ascii_of_string s with
  | c :: l => isLower c && forallb (fun c => isLower c || isDigit c || oneOf c "_") l && (length l <=? 63)%nat
  | [] => false
  end.
(** [^[a-z][a-z0-9_-]{0,31}$] *)
Definition validProviderName (s : string) : bool :=
  match String.list_ascii_of_string s with
  | c :: l => isLower c && forallb (fun c => isLower c || isDigit c || oneOf c "_-") l && (length l <=? 31)%nat
  | [] => false
  end.
(** [^[A-Z]{3}$] *)
Definition validCurrencyCode (s : string) : bool := (String.length s =? 3)%nat && forallb isUpper (String.list_ascii_of_string s).

(** ** Row constraints and trigger guards *)
Definition intentTerminal (s : IntentState) : bool :=
  match s with Completed | Voided | Refunded | Cancelled | Failed | Expired => true | _ => false end.
Definition sagaTerminal (s : SagaState) : bool :=
  match s with SagaCompleted | SagaCompensated | SagaFailed => true | _ => false end.
Definition opTerminal (s : OperationState) : bool :=
  match s with Succeeded | FailedPermanent | OpCancelled => true | _ => false end.

(** The edges of guard_payment_intent_row, guard_payment_saga_row,
    guard_payment_operation_row and guard_payment_webhook_inbox_row. *)
Definition intentEdges (s : IntentState) : list IntentState :=
  match s with
  | Created => [ReservationSecuring; Cancelled; Failed]
  | ReservationSecuring => [CheckoutPending; Cancelled; Failed; ManualReview]
  | CheckoutPending => [AwaitingCustomer; Cancelled; Failed; ManualReview]
  | AwaitingCustomer => [AuthorizationPending; VoidPending; Cancelled; ManualReview; Expired]
  | AuthorizationPending => [Authorized; Cancelled; Failed; ManualReview]
  | Authorized => [CapturePending; VoidPending; ManualReview]
  | CapturePending => [Captured; Failed; ManualReview]
  | Captured => [TicketIssuePending; RefundPending; ManualReview]
  | TicketIssuePending => [Completed; RefundPending; Failed; ManualReview]
  | Completed => [RefundPending; ManualReview]
  | VoidPending => [Voided; ManualReview]
  | Voided => [Cancelled]
  | RefundPending => [Refunded; ManualReview]
  | Refunded => [Cancelled]
  | ManualReview => [AuthorizationPending; Authorized; CapturePending; Captured; TicketIssuePending; VoidPending;
                     RefundPending; Cancelled; Failed]
  | Cancelled | Failed | Expired => []
  end.
Definition sagaEdges (s : SagaState) : list SagaState :=
  match s with
  | SagaCreated => [SagaReservationSecured; SagaFailed; SagaManualReview]
  | SagaReservationSecured => [SagaCheckoutCreated; SagaFailed; SagaManualReview]
  | SagaCheckoutCreated => [SagaAwaitingProvider; SagaFailed; SagaManualReview]
  | SagaAwaitingProvider => [SagaAuthorized; SagaCompensating; SagaFailed; SagaManualReview]
  | SagaAuthorized => [SagaCapturing; SagaCompensating; SagaManualReview]
  | SagaCapturing => [SagaCaptured; SagaFailed; SagaManualReview]
  | SagaCaptured => [SagaIssuingTickets; SagaCompensating; SagaManualReview]
  | SagaIssuingTickets => [SagaCompleted; SagaCompensating; SagaFailed; SagaManualReview]
  | SagaCompleted => [SagaCompensating]
  | SagaCompensating => [SagaRefunding; SagaCompensated; SagaFailed; SagaManualReview]
  | SagaRefunding => [SagaCompensated; SagaFailed; SagaManualReview]
  | SagaManualReview => [SagaAwaitingProvider; SagaAuthorized; SagaCapturing; SagaCaptured; SagaIssuingTickets;
                         SagaCompleted; SagaCompensating; SagaRefunding; SagaCompensated; SagaFailed]
  | SagaCompensated | SagaFailed => []
  end.
Definition opEdges (s : OperationState) : list OperationState :=
  match s with
  | Pending => [Claimed; OpCancelled]
  | Claimed => [Pending; InFlight; OpCancelled]
  | InFlight => [Succeeded; FailedRetryable; FailedPermanent; Uncertain]
  | FailedRetryable => [Pending; OpCancelled]
  | Uncertain => [Succeeded; FailedRetryable; FailedPermanent]
  | Succeeded | FailedPermanent | OpCancelled => []
  end.
Definition inboxEdges (s : InboxState) : list InboxState :=
  match s with
  | Received => [InboxProcessing; Ignored; SecurityConflict]
  | InboxProcessing => [Processed; Ignored; InboxFailedRetryable; InboxFailedPermanent; SecurityConflict]
  | InboxFailedRetryable => [InboxProcessing; InboxFailedPermanent; SecurityConflict]
  | Processed | Ignored | InboxFailedPermanent | SecurityConflict => []
  end.

Definition edgeOk {S} `{!EqDecision S} (edges : S -> list S) (a b : S) : bool :=
  bool_decide (a = b) || bool_decide (b ∈ edges a).
(** [OLD.c IS NOT NULL AND NEW.c IS DISTINCT FROM OLD.c] is refused. *)
Definition keepOnce {A} `{!EqDecision A} (a b : option A) : bool := bool_decide (a = None) || bool_decide (a = b).
Definition categoryOk (e : option string) : bool := match e with Some s => validCategory s | None => true end.
Definition attemptsOk (n : Z) : bool := (0 <=? n) && (n <=? 1000000).

Definition directoryOk (db : PDb) (r : IntentRow) : bool :=
  match directory db !! i_reservation r with
  | Some d => bool_decide (d_run d = i_run r) && bool_decide (d_owner d = i_owner r) && d_live d
  | None => false
  end.

Definition intentCheck (r : IntentRow) : bool :=
  (0 <=? i_amount r) && validCurrencyCode (i_currency r) && validProviderName (i_provider r) &&
  (match i_ppid r with Some p => providerIdentifier p | None => bool_decide (i_hosted r = None) end) &&
  (match i_hosted r with Some h => identifier 255 h | None => true end) &&
  (negb (intentTerminal (i_state r)) || bool_decide (is_Some (i_completed r))).

Definition intentGuard (db : PDb) (old new : IntentRow) : bool :=
  directoryOk db new && keepOnce (i_ppid old) (i_ppid new) && keepOnce (i_hosted old) (i_hosted new) &&
  keepOnce (i_completed old) (i_completed new) && edgeOk intentEdges (i_state old) (i_state new) &&
  (bool_decide (i_completed new = None) || bool_decide (is_Some (i_completed old)) || intentTerminal (i_state new)) &&
  intentCheck new.

Definition sagaCheck (r : SagaRow) : bool :=
  attemptsOk (s_attempts r) && categoryOk (s_error r) &&
  (if sagaTerminal (s_state r) then bool_decide (is_Some (s_completed r)) && bool_decide (s_lease r = None)
   else bool_decide (s_completed r = None)).

Definition sagaGuard (old new : SagaRow) : bool := edgeOk sagaEdges (s_state old) (s_state new) && sagaCheck new.

Definition leasedOp (s : OperationState) : bool := match s with Claimed | InFlight => true | _ => false end.

(** The provider state that a successful operation of each type must carry. *)
Definition successStatus (t : OperationType) (st : Status) : bool :=
  match t with
  | OperationQueryStatus => true
  | OperationCreateCheckout => bool_decide (st = StatusCreated) || bool_decide (st = StatusRequiresCustomerAction)
  | OperationAuthorize => bool_decide (st = StatusAuthorized)
  | OperationCapture => bool_decide (st = StatusCaptured)
  | OperationVoid => bool_decide (st = StatusVoided)
  | OperationRefund => bool_decide (st = StatusRefunded)
  | OperationOther _ => false
  end.

Definition opCheck (r : OpRow) : bool :=
  attemptsOk (o_attempts r) && categoryOk (o_error r) &&
  eqb (leasedOp (o_state r)) (bool_decide (is_Some (o_lease r))) &&
  eqb (opTerminal (o_state r)) (bool_decide (is_Some (o_completed r))) &&
  (match o_state r with FailedRetryable | FailedPermanent | Uncertain => bool_decide (is_Some (o_error r)) | _ => true end) &&
  (negb (bool_decide (o_state r = Succeeded)) ||
   bool_decide (is_Some (o_fp r)) &&
   (bool_decide (o_type r = OperationQueryStatus) || bool_decide (is_Some (o_poid r))) &&
   match o_pstate r with Some st => successStatus (o_type r) st | None => false end) &&
  (match o_poid r with Some p => providerIdentifier p | None => true end).

Definition existsOp (db : PDb) (p : OpRow -> bool) : bool := existsb (fun kr => p kr.2) (map_to_list (ops db)).
(** An operation of a type that has succeeded for an intent. *)
Definition succeeded (i : uuid) (t : OperationType) (r : OpRow) : bool :=
  bool_decide (o_intent r = i) && bool_decide (o_type r = t) && bool_decide (o_state r = Succeeded).

(** guard_payment_financial_settlement. *)
Definition settlementOk (db : PDb) (new : OpRow) : bool :=
  match o_type new with
  | OperationRefund =>
      existsOp db (fun r => succeeded (o_intent new) OperationCapture r && (o_amount r =? o_amount new) &&
                            bool_decide (o_currency r = o_currency new))
  | OperationCapture => negb (existsOp db (succeeded (o_intent new) OperationVoid))
  | OperationVoid => negb (existsOp db (succeeded (o_intent new) OperationCapture))
  | _ => true
  end.

Definition opGuard (db : PDb) (old new : OpRow) : bool :=
  keepOnce (o_poid old) (o_poid new) && edgeOk opEdges (o_state old) (o_state new) &&
  (negb (bool_decide (o_state old = Succeeded)) ||
   bool_decide (o_poid old = o_poid new) && bool_decide (o_pstate old = o_pstate new) &&
   bool_decide (o_fp old = o_fp new) && bool_decide (o_completed old = o_completed new)) &&
  (negb (bool_decide (o_state new = Succeeded)) || bool_decide (o_state old = Succeeded) || settlementOk db new) &&
  opCheck new.

Definition inboxCheck (r : InboxRow) : bool :=
  attemptsOk (x_attempts r) && categoryOk (x_error r) &&
  eqb (bool_decide (x_state r = InboxProcessing)) (bool_decide (is_Some (x_lease r))) &&
  eqb (match x_state r with Processed | Ignored | InboxFailedPermanent | SecurityConflict => true | _ => false end)
      (bool_decide (is_Some (x_processed r))) &&
  (match x_state r with
   | InboxFailedRetryable | InboxFailedPermanent | SecurityConflict => bool_decide (is_Some (x_error r))
   | _ => true end).
Definition inboxGuard (old new : InboxRow) : bool := edgeOk inboxEdges (x_state old) (x_state new) && inboxCheck new.

(** ** Unique indexes *)
Definition keysOf {R K} (f : R -> option K) (t : gmap uuid R) : list K := omap (fun kr => f kr.2) (map_to_list t).

(** One active intent per reservation; provider payments are not shared. *)
Definition intentsUnique (t : gmap uuid IntentRow) : bool :=
  bool_decide (NoDup (keysOf (fun r => if intentTerminal (i_state r) then None else Some (i_reservation r)) t)) &&
  bool_decide (NoDup (keysOf (fun r => p ← i_ppid r; Some (i_provider r, p)) t)) &&
  bool_decide (NoDup (keysOf (fun r => Some (i_owner r, i_key r)) t)).
Definition sagasUnique (t : gmap uuid SagaRow) : bool :=
  bool_decide (NoDup (keysOf (fun r => if sagaTerminal (s_state r) then None else Some (s_intent r)) t)) &&
  bool_decide (NoDup (keysOf (fun r => if sagaTerminal (s_state r) then None else Some (s_reservation r)) t)).
Definition opsUnique (t : gmap uuid OpRow) : bool :=
  bool_decide (NoDup (keysOf (fun r => p ← o_poid r; Some (o_provider r, p)) t)).

(** ** Statements and transactions *)
Inductive SqlErr := UniqueViolation | CheckViolation.
Definition Stmt := PDb -> res SqlErr (nat * PDb).

Definition updWhere {R} (p : uuid -> R -> bool) (f : R -> R) (t : gmap uuid R) : gmap uuid R :=
  map_imap (fun k r => Some (if p k r then f r else r)) t.
Definition countWhere {R} (p : uuid -> R -> bool) (t : gmap uuid R) : nat :=
  size (filter (fun kr : uuid * R => p kr.1 kr.2 = true) t).
Definition checkWhere {R} (p : uuid -> R -> bool) (ok : R -> bool) (t : gmap uuid R) : bool :=
  forallb (fun kr => negb (p kr.1 kr.2) || ok kr.2) (map_to_list t).

(** UPDATE table SET f WHERE p. *)
Definition updIntents (p : uuid -> IntentRow -> bool) (f : IntentRow -> IntentRow) : Stmt := fun db =>
  let t := updWhere p f (intents db) in
  if negb (checkWhere p (fun r => intentGuard db r (f r)) (intents db)) then Err CheckViolation else
  if negb (intentsUnique t) then Err UniqueViolation else Ok (countWhere p (intents db), setIntents db t).
Definition updSagas (clk : Z) (p : uuid -> SagaRow -> bool) (f : SagaRow -> SagaRow) : Stmt := fun db =>
  let t := updWhere p (fun r => sagaTouch clk (f r)) (sagas db) in
  if negb (checkWhere p (fun r => sagaGuard r (f r)) (sagas db)) then Err CheckViolation else
  if negb (sagasUnique t) then Err UniqueViolation else Ok (countWhere p (sagas db), setSagas db t).
Definition updOps (clk : Z) (p : uuid -> OpRow -> bool) (f : OpRow -> OpRow) : Stmt := fun db =>
  let t := updWhere p (fun r => opTouch clk (f r)) (ops db) in
  if negb (checkWhere p (fun r => opGuard db r (f r)) (ops db)) then Err CheckViolation else
  if negb (opsUnique t) then Err UniqueViolation else Ok (countWhere p (ops db), setOps db t).
Definition updInbox (p : uuid -> InboxRow -> bool) (f : InboxRow -> InboxRow) : Stmt := fun db =>
  if negb (checkWhere p (fun r => inboxGuard r (f r)) (inbox db)) then Err CheckViolation else
  Ok (countWhere p (inbox db), setInbox db (updWhere p f (inbox db))).

(** The foreign key (intent, provider, amount, currency) of an operation. *)
Definition moneyKeyOk (db : PDb) (r : OpRow) : bool :=
  match intents db !! o_intent r with
  | Some i => bool_decide (i_provider i = o_provider r) && (i_amount i =? o_amount r) && bool_decide (i_currency i = o_currency r)
  | None => false
  end.
Definition financialType (t : OperationType) : bool :=
  match t with OperationQueryStatus | OperationOther _ => false | _ => true end.
(** The unique keys of a new operation that are taken. *)
Definition opConflict (db : PDb) (k : uuid) (r : OpRow) : bool :=
  bool_decide (is_Some (ops db !! k)) ||
  existsOp db (fun r' => bool_decide (o_provider r' = o_provider r) && bool_decide (o_key r' = o_key r) ||
                         financialType (o_type r) && bool_decide (o_intent r' = o_intent r) && bool_decide (o_type r' = o_type r)).
Definition newOp (clk : Z) (i : uuid) (provider : string) (t : OperationType) (key : digest) (amount : Z) (currency : string) : OpRow :=
  mkOpRow i provider t key None amount currency Pending 0 clk None None None None clk clk None.
(** INSERT INTO payment_operations ... ON CONFLICT DO NOTHING. *)
Definition insOp (k : uuid) (r : OpRow) : Stmt := fun db =>
  if opConflict db k r then Ok (0%nat, db) else
  if negb (moneyKeyOk db r) then Err CheckViolation else Ok (1%nat, setOps db (<[k := r]> (ops db))).

(** INSERT INTO payment_manual_review_cases ... ON CONFLICT DO NOTHING. *)
Definition insReview (k : uuid) (r : ReviewRow) : Stmt := fun db =>
  if bool_decide (is_Some (reviews db !! k)) ||
     existsb (fun kr => bool_decide (rv_intent kr.2 = rv_intent r) && bool_decide (rv_reason kr.2 = rv_reason r)) (map_to_list (reviews db))
  then Ok (0%nat, db) else
  if negb (validCategory (rv_reason r)) then Err CheckViolation else Ok (1%nat, setReviews db (<[k := r]> (reviews db))).

(** ticket_order_shard_locators: INSERT ... ON CONFLICT(ticket_order_id) DO
    UPDATE SET status WHERE every other column agrees; one order per
    reservation. *)
Definition sameOrder (a b : OrdLocator) : bool :=
  bool_decide (ol_reservation a = ol_reservation b) && bool_decide (ol_run a = ol_run b) && bool_decide (ol_shard a = ol_shard b) &&
  (ol_generation a =? ol_generation b) && bool_decide (ol_owner a = ol_owner b) && (ol_amount a =? ol_amount b) &&
  bool_decide (ol_currency a = ol_currency b) && (ol_created a =? ol_created b).
Definition insOrder (k : uuid) (r : OrdLocator) : Stmt := fun db =>
  match ordLocators db !! k with
  | Some old => if sameOrder old r then Ok (1%nat, setOrdLocators db (<[k := r]> (ordLocators db))) else Ok (0%nat, db)
  | None =>
      if existsb (fun kr => bool_decide (ol_reservation kr.2 = ol_reservation r)) (map_to_list (ordLocators db)) then Err UniqueViolation else
      if negb ((0 <=? ol_amount r) && validCurrencyCode (ol_currency r)) then Err CheckViolation else
      Ok (1%nat, setOrdLocators db (<[k := r]> (ordLocators db)))
  end.
(** ticket_shard_locators: the same for tickets, with the trigger that clears
    the readiness of the code directory when the ticket has no code. *)
Definition hasCode (t : uuid) (db : PDb) : bool := existsb (fun kt => bool_decide (kt.2 = t)) (map_to_list (ticketCodes db)).
Definition insTicket (k : uuid) (r : TicLocator) : Stmt := fun db =>
  let ready := setReady (setTicLocators db (<[k := r]> (ticLocators db))) (claimsReady db && hasCode k db) in
  match ticLocators db !! k with
  | Some old => if bool_decide (old = r) then Ok (1%nat, ready) else Ok (0%nat, db)
  | None => Ok (1%nat, ready)
  end.
(** ticket_code_directory: INSERT ... ON CONFLICT(ticket_code) DO UPDATE WHERE
    the ticket is the same; one code per ticket. *)
Definition insCode (code : string) (t : uuid) : Stmt := fun db =>
  match ticketCodes db !! code with
  | Some t' => if bool_decide (t' = t) then Ok (1%nat, db) else Ok (0%nat, db)
  | None => if hasCode t db then Err UniqueViolation else Ok (1%nat, setTicketCodes db (<[code := t]> (ticketCodes db)))
  end.

(** The computations of a transaction: an error rolls it back. *)
Definition PM (E A : Type) : Type := PDb -> res E (A * PDb).
#[export] Instance PM_ret E : MRet (PM E) := fun A a db => Ok (a, db).
#[export] Instance PM_bind E : MBind (PM E) := fun A B k m db =>
  match m db with Ok (a, db') => k a db' | Err e => Err e end.
Definition throw {E A} (e : E) : PM E A := fun _ => Err e.
Definition getDb {E} : PM E PDb := fun db => Ok (db, db).
Definition exec {E} (e : SqlErr -> E) (s : Stmt) : PM E nat := fun db =>
  match s db with Ok (n, db') => Ok (n, db') | Err x => Err (e x) end.
(** [if b { return e }] inside a transaction. *)
Definition refuse {E} (b : bool) (e : E) : PM E unit := if b then throw e else mret tt.
(** The tables after a transaction, committed or rolled back. *)
Definition run {E A} (m : PM E A) (db : PDb) : res E A * PDb :=
  match m db with Ok (a, db') => (Ok a, db') | Err e => (Err e, db) end.

(** Rows of a join on payment_intent_id. *)
Definition sagasOf (db : PDb) (i : uuid) : list (uuid * SagaRow) :=
  filter (fun kr : uuid * SagaRow => s_intent kr.2 = i) (map_to_list (sagas db)).
