(* ===== verification/PaymentClaims.v ===== *)
(** * Payment worker store: claims

    Models [src/internal/payment/worker/postgres/claim.go], the claim, evidence
    and failure types of [src/internal/payment/worker/types.go], and the shard
    commands and receipts of [src/internal/payment/shard/commands.go].  A claim
    method is one transaction that recovers expired leases, leases a bounded
    batch of rows and returns what the worker needs to act on them.

    SHA-256 and the SHA-1 UUID derivation are operations of a class; the byte
    and hexadecimal encodings they are applied to are concrete.  Times are
    instants in nanoseconds and the zero time is 0. *)

From S2P Require Import Prelude PaymentDomain PaymentDb.

(** ** Encodings and derived identities *)

(** The [n] low bytes of [v], most significant first. *)
Fixpoint bytesBE (n : nat) (v : N) : string :=
  match n with
  | O => EmptyString
  | S m => String (ascii_of_N (N.modulo (N.div v (256 ^ N.of_nat m)) 256)) (bytesBE m v)
  end.
#[global] Arguments bytesBE : simpl never.
Definition hexDigit (n : nat) : ascii := ascii_of_nat (if (n <? 10)%nat then 48 + n else 87 + n).
Fixpoint hexString (s : string) : string :=
  match s with
  | EmptyString => EmptyString
  | String c s' => let n := nat_of_ascii c in String (hexDigit (n / 16)) (String (hexDigit (n mod 16)) (hexString s'))
  end.
Definition uuidString (u : uuid) : string :=
  let h := hexString (bytesBE 16 u) in
  String.substring 0 8 h +:+ "-" +:+ String.substring 8 4 h +:+ "-" +:+ String.substring 12 4 h +:+ "-" +:+ String.substring 16 4 h +:+ "-" +:+ String.substring 20 12 h.
(** binary.BigEndian.PutUint64 of a uint64 conversion. *)
Definition be64 (z : Z) : string := bytesBE 8 (Z.to_N (wrapu64 z)).
Definition digestBytes (d : digest) : string := bytesBE 32 d.

Class Hashing := {
  sha256 : string -> digest;
  (** uuid.NewSHA1(namespace, data). *)
  newSHA1 : uuid -> string -> uuid }.

Definition opName (t : OperationType) : string :=
  match t with
  | OperationCreateCheckout => "create_checkout" | OperationQueryStatus => "query_status" | OperationAuthorize => "authorize"
  | OperationCapture => "capture" | OperationVoid => "void" | OperationRefund => "refund" | OperationOther s => s
  end.
Definition statusName (s : Status) : string :=
  match s with
  | StatusCreated => "created" | StatusRequiresCustomerAction => "requires_customer_action" | StatusAuthorized => "authorized"
  | StatusCaptured => "captured" | StatusVoided => "voided" | StatusRefunded => "refunded" | StatusFailed => "failed"
  | StatusCancelled => "cancelled" | StatusUnknown => "unknown"
  end.

(** ** Claims, evidence and failures *)
Inductive WErr := ErrStoreUnavailable | ErrLeaseLost | ErrStatement (e : SqlErr).
#[export] Instance SqlErr_eq_dec : EqDecision SqlErr.
Proof. solve_decision. Defined.
#[export] Instance WErr_eq_dec : EqDecision WErr.
Proof. solve_decision. Defined.

Definition zeroTime : Z := 0.

Record ClaimOptions := mkClaimOptions { opt_worker : string; opt_batch : Z; opt_maxAttempts : Z; opt_ttl : Z; opt_now : Z }.

Record OperationClaim := mkOperationClaim {
  oc_op : uuid; oc_intent : uuid; oc_reservation : uuid; oc_run : uuid; oc_owner : uuid; oc_provider : string;
  oc_type : OperationType; oc_previous : OperationState; oc_ppid : string; oc_hosted : string; oc_token : string;
  oc_key : string; oc_amount : Z; oc_currency : string; oc_attempts : Z; oc_created : Z; oc_lease : string;
  oc_until : Z }.

Inductive Disposition := DispositionApplied | DispositionNotApplied | DispositionUnknown | DispositionConflict.
#[export] Instance Disposition_eq_dec : EqDecision Disposition.
Proof. solve_decision. Defined.

Record OperationEvidence := mkOperationEvidence {
  e_disposition : Disposition; e_ppid : string; e_poid : string; e_hosted : string; e_status : Status; e_amount : Z;
  e_currency : string; e_captured : Z; e_refunded : Z; e_fp : digest; e_observed : Z }.

Record Failure := mkFailure {
  f_category : string; f_next : Z; f_review : bool; f_uncertain : bool; f_compensate : bool }.

Record WebhookClaim := mkWebhookClaim {
  wc_inbox : uuid; wc_provider : string; wc_event : string; wc_type : string; wc_ppid : string; wc_created : Z;
  wc_attempts : Z; wc_lease : string; wc_until : Z }.

Record WebhookEvidence := mkWebhookEvidence {
  we_status : Status; we_amount : Z; we_currency : string; we_captured : Z; we_refunded : Z; we_updated : Z }.

(** PlannedTicketIDs and PlannedTicketCodes are filled in by the shard gateway. *)
Record IssueTicketsCommand := mkIssueTicketsCommand {
  ic_command : uuid; ic_issuance : uuid; ic_intent : uuid; ic_operation : uuid; ic_reservation : uuid; ic_run : uuid;
  ic_owner : uuid; ic_amount : Z; ic_currency : string; ic_proof : digest; ic_fp : digest }.
Record MarkRefundPendingCommand := mkMarkRefundPendingCommand {
  mc_command : uuid; mc_intent : uuid; mc_reservation : uuid; mc_run : uuid; mc_owner : uuid; mc_amount : Z;
  mc_currency : string; mc_proof : digest; mc_fp : digest }.
Record CancelVoidedReservationCommand := mkCancelVoidedReservationCommand {
  vc_command : uuid; vc_operation : uuid; vc_intent : uuid; vc_reservation : uuid; vc_run : uuid; vc_owner : uuid;
  vc_amount : Z; vc_currency : string; vc_proof : digest; vc_fp : digest; vc_voided : Z }.
Record ApplyRefundCompensationCommand := mkApplyRefundCompensationCommand {
  rc_command : uuid; rc_compensation : uuid; rc_operation : uuid; rc_intent : uuid; rc_reservation : uuid; rc_run : uuid;
  rc_owner : uuid; rc_amount : Z; rc_currency : string; rc_proof : digest; rc_fp : digest; rc_refunded : Z }.

(** ActionType with the one command the claim of that type carries. *)
Inductive Action :=
| ActionIssueTickets (c : IssueTicketsCommand)
| ActionMarkRefundPending (c : MarkRefundPendingCommand)
| ActionCancelVoided (c : CancelVoidedReservationCommand)
| ActionCompensate (c : ApplyRefundCompensationCommand).
Definition actionName (a : Action) : string :=
  match a with
  | ActionIssueTickets _ => "issue_tickets" | ActionMarkRefundPending _ => "mark_refund_pending"
  | ActionCancelVoided _ => "cancel_voided_reservation" | ActionCompensate _ => "compensate"
  end.

Record ActionClaim := mkActionClaim {
  ac_saga : uuid; ac_action : Action; ac_provider : string; ac_attempts : Z; ac_lease : string; ac_until : Z }.

Record IssueTicketsReceipt := mkIssueTicketsReceipt {
  ir_command : uuid; ir_issuance : uuid; ir_intent : uuid; ir_reservation : uuid; ir_order : uuid; ir_tickets : list uuid;
  ir_codes : list string; ir_amount : Z; ir_currency : string; ir_ordered : Z; ir_issued : Z }.
Record MarkRefundPendingReceipt := mkMarkRefundPendingReceipt {
  mr_command : uuid; mr_intent : uuid; mr_reservation : uuid; mr_order : uuid }.
Record CancelVoidedReservationReceipt := mkCancelVoidedReservationReceipt {
  vr_command : uuid; vr_operation : uuid; vr_intent : uuid; vr_reservation : uuid; vr_order : uuid; vr_released : Z;
  vr_cancelled : Z }.
Record ApplyRefundCompensationReceipt := mkApplyRefundCompensationReceipt {
  rr_command : uuid; rr_compensation : uuid; rr_intent : uuid; rr_reservation : uuid; rr_order : uuid; rr_released : Z;
  rr_tickets : Z }.

(** The zero receipt of the shard calls that the claim does not make is not
    read by any consumer: the evidence is the receipt of the claim's call. *)
Record ActionEvidence := mkActionEvidence {
  ae_issue : IssueTicketsReceipt; ae_mark : MarkRefundPendingReceipt; ae_void : CancelVoidedReservationReceipt;
  ae_comp : ApplyRefundCompensationReceipt }.

(** [^[A-Za-z0-9_-]{16,64}$] *)
Definition ValidTicketCode (s : string) : bool :=
  forallb (fun c => isAlnum c || oneOf c "_-") (String.list_ascii_of_string s) &&
  (16 <=? String.length s)%nat && (String.length s <=? 64)%nat.

(** ** Claim transactions *)
Section Claims.
Context `{!Hashing}.

Definition actionNamespace : uuid := 0x8fd46050e41f5b3c876c77d4f4fa2570.
Definition deterministicID (id : uuid) (purpose : string) : uuid :=
  newSHA1 actionNamespace (uuidString id +:+ ":" +:+ purpose).
Definition actionFingerprint (saga : uuid) (action : string) (proof : digest) : digest :=
  sha256 ("payment-action-v1:" +:+ uuidString saga +:+ ":" +:+ action +:+ ":" +:+ digestBytes proof).
Definition VoidCancellationFingerprint (command operation intent reservation run owner : uuid) (amount : Z) (currency : string) (proof : digest) : digest :=
  sha256 ("payment-void-cancellation-v1" +:+
          String.concat "" (map (bytesBE 16) [command; operation; intent; reservation; run; owner]) +:+
          be64 amount +:+ currency +:+ digestBytes proof).

Definition validClaimOptions (o : ClaimOptions) : bool :=
  identifier 127 (opt_worker o) && (0 <? opt_batch o) && (opt_batch o <=? 1000) && (0 <? opt_maxAttempts o) &&
  (opt_maxAttempts o <=? 1000) && (0 <? opt_ttl o) && negb (opt_now o =? zeroTime).

(** $1 + ($4::bigint * interval '1 millisecond') with LeaseTTL.Milliseconds(). *)
Definition leaseUntil (o : ClaimOptions) : Z := opt_now o + Z.quot (opt_ttl o) 1000000 * 1000000.
Definition newLease (o : ClaimOptions) : lease := Some (opt_worker o, leaseUntil o).

(** ORDER BY a timestamp, a timestamp and an identifier. *)
Definition lex3 {R} (key : uuid * R -> Z * Z) (a b : uuid * R) : bool :=
  let '(a1, a2) := key a in let '(b1, b2) := key b in
  (a1 <? b1) || (a1 =? b1) && ((a2 <? b2) || (a2 =? b2) && (a.1 <=? b.1)%N).
Definition expired (l : lease) (now : Z) : bool := match l with Some (_, until) => until <? now | None => false end.
Definition free (l : lease) (now : Z) : bool := match l with Some (_, until) => until <? now | None => true end.

Definition unavailable : SqlErr -> WErr := fun _ => ErrStoreUnavailable.

(** An expired claimed row never crossed the provider boundary; an expired
    in-flight row may have. *)
Definition recoverOp (now : Z) (r : OpRow) : OpRow :=
  if bool_decide (o_state r = Claimed)
  then opError None (opNext now (opLease None (opTo Pending r)))
  else opError (Some "worker_lease_expired"%string) (opNext now (opLease None (opTo Uncertain r))).

(** The saga states in which a pending operation may be claimed. *)
Definition claimable (t : OperationType) (s : SagaRow) : bool :=
  match t with
  | OperationQueryStatus => true
  | OperationCreateCheckout => bool_decide (s_state s = SagaReservationSecured) && bool_decide (s_step s = CreateCheckout)
  | OperationAuthorize => bool_decide (s_state s = SagaAwaitingProvider) && bool_decide (s_step s = AwaitProvider)
  | OperationCapture => bool_decide (s_state s = SagaAuthorized) && bool_decide (s_step s = StepCapture)
  | OperationVoid => bool_decide (s_state s = SagaCompensating) && bool_decide (s_step s = StepVoid)
  | OperationRefund => bool_decide (s_state s = SagaRefunding) && bool_decide (s_step s = StepRefund)
  | OperationOther _ => false
  end.

(** The candidate rows: one per matching saga, as the join gives them. *)
Definition opCandidates (o : ClaimOptions) (db : PDb) : list (uuid * OpRow) :=
  flat_map (fun kr =>
    let r := kr.2 in
    if bool_decide (o_state r = Pending) && (o_next r <=? opt_now o) && free (o_lease r) (opt_now o) &&
       bool_decide (is_Some (intents db !! o_intent r))
    then map (fun _ => kr) (filter (fun ks => claimable (o_type r) ks.2 = true) (sagasOf db (o_intent r)))
    else []) (map_to_list (ops db)).

Definition opOrder : uuid * OpRow -> uuid * OpRow -> bool := lex3 (fun kr => (o_next kr.2, o_updated kr.2)).
Definition claimedIds {R} (leb : uuid * R -> uuid * R -> bool) (n : Z) (l : list (uuid * R)) : list uuid :=
  map fst (take (Z.to_nat n) (sortBy leb l)).

(** A row of the claim result: the operation, its intent, and the lease. *)
Definition operationClaim (prev : OperationState) (attempts : Z) (owner : string) (until : Z) (k : uuid) (r : OpRow) (i : IntentRow) : OperationClaim :=
  mkOperationClaim k (o_intent r) (i_reservation i) (i_run i) (i_owner i) (o_provider r) (o_type r) prev
    (default "" (i_ppid i))%string (default "" (i_hosted i))%string "" (hexString (digestBytes (o_key r))) (o_amount r)
    (o_currency r) attempts (o_created r) owner until.

Definition claimPending (o : ClaimOptions) (clk : Z) : PM WErr (list OperationClaim) :=
  db ← getDb;
  let ids := claimedIds opOrder (opt_batch o) (opCandidates o db) in
  _ ← exec unavailable (updOps clk (fun k _ => bool_decide (k ∈ ids))
        (fun r => opLease (newLease o) (opAttempt (opTo Claimed r))));
  mret (flat_map (fun kr =>
          match intents db !! o_intent kr.2 with
          | Some i => [operationClaim Pending (o_attempts kr.2 + 1) (opt_worker o) (leaseUntil o) kr.1 kr.2 i]
          | None => []
          end) (sortBy opOrder (filter (fun kr => kr.1 ∈ ids) (map_to_list (ops db))))).

(** The uncertain operation of a saga that is due, the least recently updated. *)
Definition uncertainOf (now : Z) (db : PDb) (s : SagaRow) : option (uuid * OpRow) :=
  head (sortBy (lex3 (fun kr => (o_updated kr.2, 0)))
    (filter (fun kr : uuid * OpRow => o_intent kr.2 = s_intent s /\ o_state kr.2 = Uncertain /\ o_next kr.2 <= now)
            (map_to_list (ops db)))).
Definition uncertainCandidates (now : Z) (db : PDb) : list (uuid * (uuid * OpRow)) :=
  omap (fun ks => if free (s_lease ks.2) now then kr ← uncertainOf now db ks.2; Some (kr.1, (ks.1, kr.2)) else None)
       (map_to_list (sagas db)).

Definition claimUncertain (o : ClaimOptions) (clk remaining : Z) : PM WErr (list OperationClaim) :=
  db ← getDb;
  let selected := take (Z.to_nat remaining) (sortBy (fun a b : uuid * (uuid * OpRow) => (a.1 <=? b.1)%N) (uncertainCandidates (opt_now o) db)) in
  let ids := map (fun x => x.2.1) selected in
  _ ← exec unavailable (updSagas clk (fun k _ => bool_decide (k ∈ ids)) (fun s => sagaAttempt (sagaLease (newLease o) s)));
  mret (flat_map (fun x : uuid * (uuid * OpRow) =>
          let r := x.2.2 in
          match intents db !! o_intent r with
          | Some i => [operationClaim Uncertain (o_attempts r) (opt_worker o) (leaseUntil o) x.1 r i]
          | None => []
          end) (sortBy (lex3 (fun x : uuid * (uuid * OpRow) => (o_updated x.2.2, 0))) selected)).

Definition ClaimOperations (o : ClaimOptions) (clk : Z) : PM WErr (list OperationClaim) :=
  if negb (validClaimOptions o) then throw ErrStoreUnavailable else
  _ ← exec unavailable (updOps clk (fun _ r => leasedOp (o_state r) && expired (o_lease r) (opt_now o)) (recoverOp (opt_now o)));
  _ ← exec unavailable (updOps clk
        (fun _ r => bool_decide (o_state r = FailedRetryable) && (o_next r <=? opt_now o) && (o_attempts r <? opt_maxAttempts o))
        (fun r => opError None (opTo Pending r)));
  claims ← claimPending o clk;
  let remaining := opt_batch o - Z.of_nat (length claims) in
  if 0 <? remaining then
    more ← claimUncertain o clk remaining;
    mret (claims ++ more)
  else mret claims.

Definition ClaimWebhooks (o : ClaimOptions) : PM WErr (list WebhookClaim) :=
  if negb (validClaimOptions o) then throw ErrStoreUnavailable else
  _ ← exec unavailable (updInbox
        (fun _ r => bool_decide (x_state r = InboxProcessing) && expired (x_lease r) (opt_now o))
        (fun r => inboxRow InboxFailedRetryable (x_attempts r) (opt_now o) None (Some "worker_lease_expired"%string) (x_processed r) r));
  db ← getDb;
  let order := lex3 (fun kr : uuid * InboxRow => (x_next kr.2, x_received kr.2)) in
  let ids := claimedIds order (opt_batch o)
    (filter (fun kr : uuid * InboxRow => (x_state kr.2 = Received \/ x_state kr.2 = InboxFailedRetryable) /\ x_next kr.2 <= opt_now o)
            (map_to_list (inbox db))) in
  _ ← exec unavailable (updInbox (fun k _ => bool_decide (k ∈ ids))
        (fun r => inboxRow InboxProcessing (x_attempts r + 1) (x_next r) (newLease o) None (x_processed r) r));
  mret (map (fun kr => mkWebhookClaim kr.1 (x_provider kr.2) (x_event kr.2) (x_type kr.2) (default "" (x_ppid kr.2))%string
                         (x_created kr.2) (x_attempts kr.2 + 1) (opt_worker o) (leaseUntil o))
            (sortBy order (filter (fun kr => kr.1 ∈ ids) (map_to_list (inbox db))))).

(** LEFT JOIN on the succeeded operation of a type (there is at most one). *)
Definition proofOf (db : PDb) (i : uuid) (t : OperationType) : option (uuid * OpRow) :=
  head (filter (fun kr => succeeded i t kr.2 = true) (map_to_list (ops db))).

Definition buildActionClaim (db : PDb) (saga : uuid) (s : SagaRow) (i : IntentRow) : res WErr Action :=
  let intent := s_intent s in
  match s_state s, s_step s with
  | SagaIssuingTickets, IssueTickets =>
      match proofOf db intent OperationCapture with
      | Some (op, r) =>
          match o_fp r with
          | Some proof => Ok (ActionIssueTickets (mkIssueTicketsCommand
              (deterministicID saga "issue_tickets_command") (deterministicID saga "ticket_issuance") intent op
              (i_reservation i) (i_run i) (i_owner i) (i_amount i) (i_currency i) proof
              (actionFingerprint saga "issue_tickets" proof)))
          | None => Err ErrStoreUnavailable
          end
      | None => Err ErrStoreUnavailable
      end
  | SagaCompensating, StepRefund =>
      match proofOf db intent OperationCapture with
      | Some (_, r) =>
          match o_fp r with
          | Some proof => Ok (ActionMarkRefundPending (mkMarkRefundPendingCommand
              (deterministicID saga "mark_refund_pending_command") intent (i_reservation i) (i_run i) (i_owner i)
              (i_amount i) (i_currency i) proof (actionFingerprint saga "mark_refund_pending" proof)))
          | None => Err ErrStoreUnavailable
          end
      | None => Err ErrStoreUnavailable
      end
  | SagaCompensating, Compensate =>
      match proofOf db intent OperationVoid with
      | Some (op, r) =>
          match o_fp r, o_completed r with
          | Some proof, Some at_ =>
              let command := deterministicID saga "void_cancellation_command" in
              Ok (ActionCancelVoided (mkCancelVoidedReservationCommand command op intent (i_reservation i) (i_run i)
                (i_owner i) (i_amount i) (i_currency i) proof
                (VoidCancellationFingerprint command op intent (i_reservation i) (i_run i) (i_owner i) (i_amount i) (i_currency i) proof)
                at_))
          | _, _ => Err ErrStoreUnavailable
          end
      | None => Err ErrStoreUnavailable
      end
  | SagaRefunding, Compensate =>
      match proofOf db intent OperationRefund with
      | Some (op, r) =>
          match o_fp r, o_completed r with
          | Some proof, Some at_ => Ok (ActionCompensate (mkApplyRefundCompensationCommand
              (deterministicID saga "refund_compensation_command") (deterministicID saga "refund_compensation") op intent
              (i_reservation i) (i_run i) (i_owner i) (i_amount i) (i_currency i) proof
              (actionFingerprint saga "compensate" proof) at_))
          | _, _ => Err ErrStoreUnavailable
          end
      | None => Err ErrStoreUnavailable
      end
  | _, _ => Err ErrStoreUnavailable
  end.

Definition actionable (s : SagaRow) : bool :=
  match s_state s, s_step s with
  | SagaIssuingTickets, IssueTickets | SagaCompensating, StepRefund | SagaCompensating, Compensate
  | SagaRefunding, Compensate => true
  | _, _ => false
  end.

(** The claims of the leased sagas; one that cannot be built fails the batch. *)
Fixpoint buildClaims (o : ClaimOptions) (db : PDb) (l : list (uuid * SagaRow)) : res WErr (list ActionClaim) :=
  match l with
  | [] => Ok []
  | (k, s) :: l' =>
      match intents db !! s_intent s with
      | None => buildClaims o db l'
      | Some i =>
          let* a := buildActionClaim db k s i in
          let* rest := buildClaims o db l' in
          Ok (mkActionClaim k a (i_provider i) (s_attempts s) (opt_worker o) (leaseUntil o) :: rest)
      end
  end.

Definition lift {E A} (r : res E A) : PM E A := fun db => match r with Ok a => Ok (a, db) | Err e => Err e end.

Definition ClaimActions (o : ClaimOptions) (clk : Z) : PM WErr (list ActionClaim) :=
  if negb (validClaimOptions o) then throw ErrStoreUnavailable else
  db ← getDb;
  let order := lex3 (fun ks : uuid * SagaRow => (s_next ks.2, s_updated ks.2)) in
  let ids := claimedIds order (opt_batch o)
    (filter (fun ks : uuid * SagaRow => s_next ks.2 <= opt_now o /\ free (s_lease ks.2) (opt_now o) = true /\ actionable ks.2 = true)
            (map_to_list (sagas db))) in
  _ ← exec unavailable (updSagas clk (fun k _ => bool_decide (k ∈ ids)) (fun s => sagaAttempt (sagaLease (newLease o) s)));
  db' ← getDb;
  lift (buildClaims o db' (sortBy order (filter (fun ks => ks.1 ∈ ids) (map_to_list (sagas db'))))).

End Claims.
