(* ===== verification/PaymentFinalize.v ===== *)
(** * Payment worker store: begin and finalize transactions

    Models [src/internal/payment/worker/postgres/finalize.go] and
    [ticket_codes.go]: the compare-and-set transactions that move one claimed
    operation, webhook or saga action forward after the worker's provider or
    shard call.  [clk] is the transaction's clock_timestamp(). *)

From S2P Require Import Prelude PaymentDomain PaymentDb PaymentClaims.

(** ** Statement results *)

(** oneRow: exactly one row, or the lease is lost. *)
Definition oneRow (s : Stmt) : PM WErr unit :=
  n ← exec unavailable s; if (n =? 1)%nat then mret tt else throw ErrLeaseLost.
(** A statement whose count is ignored, its error normalized or returned raw. *)
Definition anyRows (s : Stmt) : PM WErr unit := _ ← exec unavailable s; mret tt.
Definition rawRows (s : Stmt) : PM WErr unit := _ ← exec ErrStatement s; mret tt.

Definition held (l : lease) (owner : string) (clk : Z) : bool :=
  match l with Some (o, until) => bool_decide (o = owner) && (clk <=? until) | None => false end.
Definition ownedBy (l : lease) (owner : string) : bool :=
  match l with Some (o, _) => bool_decide (o = owner) | None => false end.
(** EXISTS (SELECT 1 FROM payment_sagas ... lease_owner, lease_until). *)
Definition sagaHeld (db : PDb) (intent : uuid) (owner : string) (clk : Z) : bool :=
  existsb (fun ks => held (s_lease ks.2) owner clk) (sagasOf db intent).
(** FROM payment_sagas AS saga WHERE saga.saga_id=$1 ... with a held lease. *)
Definition sagaIntentHeld (db : PDb) (saga : uuid) (owner : string) (clk : Z) (intent : uuid) : bool :=
  match sagas db !! saga with
  | Some s => bool_decide (s_intent s = intent) && held (s_lease s) owner clk
  | None => false
  end.

(** UPDATE ... WHERE payment_intent_id=$1 AND state=from. *)
Definition moveIntent (i : uuid) (from : IntentState) (f : IntentRow -> IntentRow) : Stmt :=
  updIntents (fun k r => bool_decide (k = i) && bool_decide (i_state r = from)) f.
Definition moveSaga (clk : Z) (i : uuid) (from : SagaState) (f : SagaRow -> SagaRow) : Stmt :=
  updSagas clk (fun _ r => bool_decide (s_intent r = i) && bool_decide (s_state r = from)) f.
Definition moveOp (clk : Z) (k : uuid) (from : OperationState) (f : OpRow -> OpRow) : Stmt :=
  updOps clk (fun k' r => bool_decide (k' = k) && bool_decide (o_state r = from)) f.
(** SET state, current_step. *)
Definition sagaAt (s : SagaState) (p : Step) (r : SagaRow) : SagaRow := sagaStep p (sagaTo s r).
(** ... and the lease, error and schedule cleared. *)
Definition sagaFresh (clk : Z) (r : SagaRow) : SagaRow := sagaNext clk (sagaError None (sagaLease None r)).
Definition sagaEnd (s : SagaState) (clk : Z) (r : SagaRow) : SagaRow :=
  sagaError None (sagaLease None (sagaCompleted (Some clk) (sagaAt s Complete r))).

Section Finalize.
Context `{!Hashing}.
Implicit Types clk : Z.

(** ** Operations *)
Definition insertOperation clk (intent : uuid) (provider : string) (kind : OperationType) (amount : Z) (currency : string) : PM WErr unit :=
  let id := deterministicID intent ("provider_operation:" +:+ opName kind) in
  let key := sha256 ("payment-provider-v1:" +:+ uuidString intent +:+ ":" +:+ opName kind) in
  anyRows (insOp id (newOp clk intent provider kind key amount currency)).

Definition insertReview clk (intent operation inboxID : uuid) (reason : string) : PM WErr unit :=
  let nullable u := if bool_decide (u = uuidNil) then None else Some u in
  anyRows (insReview (deterministicID intent ("manual_review:" +:+ reason))
    (mkReviewRow intent (nullable operation) (nullable inboxID) reason (clk + 86400000000000))).

Definition BeginOperation clk (c : OperationClaim) : PM WErr unit :=
  if bool_decide (oc_op c = uuidNil) || bool_decide (oc_lease c = ""%string) || bool_decide (oc_previous c = Uncertain) then throw ErrLeaseLost else
  oneRow (updOps clk (fun k r => bool_decide (k = oc_op c) && bool_decide (o_state r = Claimed) && held (o_lease r) (oc_lease c) clk) (opTo InFlight)) ;;
  match oc_type c with
  | OperationAuthorize => oneRow (moveIntent (oc_intent c) AwaitingCustomer (intentTo AuthorizationPending))
  | OperationCapture =>
      oneRow (moveIntent (oc_intent c) Authorized (intentTo CapturePending)) ;;
      oneRow (updSagas clk (fun _ r => bool_decide (s_intent r = oc_intent c) && bool_decide (s_state r = SagaAuthorized) && bool_decide (s_lease r = None))
                (sagaAt SagaCapturing StepCapture))
  | _ => mret tt
  end.

Definition confirmedOperationID (payment : string) (kind : OperationType) : string :=
  let value := payment +:+ ".confirmed." +:+ opName kind in
  if (String.length value <=? 128)%nat && providerIdentifier value then value
  else "confirmed." +:+ hexString (String.substring 0 16 (digestBytes (sha256 value))).

Definition validProviderEvidence (c : OperationClaim) (e : OperationEvidence) : bool :=
  providerIdentifier (e_ppid e) && (e_amount e =? oc_amount c) && bool_decide (e_currency e = oc_currency c) &&
  (bool_decide (e_poid e = ""%string) || providerIdentifier (e_poid e)) &&
  negb (bool_decide (oc_type c = OperationVoid) && (negb (e_captured e =? 0) || negb (e_refunded e =? 0))).

Definition nullif (s : string) : option string := if bool_decide (s = ""%string) then None else Some s.

Definition applyOperationSuccess clk (c : OperationClaim) (e : OperationEvidence) : PM WErr unit :=
  let i := oc_intent c in
  match oc_type c with
  | OperationCreateCheckout =>
      oneRow (moveIntent i CheckoutPending (intentCheckout (e_ppid e) (nullif (e_hosted e)))) ;;
      oneRow (moveSaga clk i SagaReservationSecured (sagaTo SagaCheckoutCreated)) ;;
      oneRow (moveSaga clk i SagaCheckoutCreated (sagaAt SagaAwaitingProvider AwaitProvider))
  | OperationAuthorize =>
      oneRow (moveIntent i AuthorizationPending (intentTo Authorized)) ;;
      oneRow (moveSaga clk i SagaAwaitingProvider (sagaAt SagaAuthorized StepCapture)) ;;
      insertOperation clk i (oc_provider c) OperationCapture (oc_amount c) (oc_currency c)
  | OperationCapture =>
      oneRow (moveIntent i CapturePending (intentTo Captured)) ;;
      oneRow (moveIntent i Captured (intentTo TicketIssuePending)) ;;
      oneRow (moveSaga clk i SagaCapturing (sagaTo SagaCaptured)) ;;
      oneRow (moveSaga clk i SagaCaptured (sagaAt SagaIssuingTickets IssueTickets))
  | OperationVoid =>
      oneRow (moveIntent i VoidPending (intentDone Voided clk)) ;;
      oneRow (moveSaga clk i SagaCompensating (fun r => sagaFresh clk (sagaStep Compensate r)))
  | OperationRefund =>
      oneRow (moveIntent i RefundPending (intentDoneOnce Refunded clk)) ;;
      rawRows (moveSaga clk i SagaRefunding (fun r => sagaNext clk (sagaStep Compensate r)))
  | OperationQueryStatus => mret tt
  | OperationOther _ => throw ErrStoreUnavailable
  end.

Definition releaseSagaLease clk (intent : uuid) (owner : string) : PM WErr unit :=
  oneRow (updSagas clk (fun _ r => bool_decide (s_intent r = intent) && ownedBy (s_lease r) owner) (sagaLease None)).

(** SET state='succeeded' with its evidence. *)
Definition opSucceeded clk (poid : option string) (st : Status) (fp : digest) (r : OpRow) : OpRow :=
  opCompleted (Some clk) (opError None (opEvidence st fp (opPoid poid (opTo Succeeded r)))).

Definition CompleteOperation clk (c : OperationClaim) (e : OperationEvidence) : PM WErr unit :=
  if bool_decide (oc_op c = uuidNil) || bool_decide (oc_intent c = uuidNil) ||
     negb (bool_decide (e_disposition e = DispositionApplied)) || (e_fp e =? 0)%N || negb (validProviderEvidence c e)
  then throw ErrStoreUnavailable else
  let poid := if bool_decide (e_poid e = ""%string) && negb (bool_decide (oc_type c = OperationQueryStatus))
              then confirmedOperationID (e_ppid e) (oc_type c) else e_poid e in
  (if bool_decide (oc_previous c = Uncertain) then
     db ← getDb;
     oneRow (updOps clk (fun k r => bool_decide (k = oc_op c) && bool_decide (o_state r = Uncertain) && sagaHeld db (o_intent r) (oc_lease c) clk)
       (fun r => opNext clk (opSucceeded clk (nullif poid) (e_status e) (e_fp e) r))) ;;
     releaseSagaLease clk (oc_intent c) (oc_lease c)
   else
     oneRow (updOps clk (fun k r => bool_decide (k = oc_op c) && bool_decide (o_state r = InFlight) && held (o_lease r) (oc_lease c) clk)
       (fun r => opNext clk (opLease None (opSucceeded clk (nullif poid) (e_status e) (e_fp e) r))))) ;;
  applyOperationSuccess clk c e.

Definition finalizeOperationFailure clk (c : OperationClaim) (current next : OperationState) (f : Failure) : PM WErr unit :=
  db ← getDb;
  oneRow (updOps clk
    (fun k r => bool_decide (k = oc_op c) && bool_decide (o_state r = current) &&
       (held (o_lease r) (oc_lease c) clk || bool_decide (current = Uncertain) && sagaHeld db (o_intent r) (oc_lease c) clk))
    (fun r => opCompleted (if bool_decide (next = FailedPermanent) then Some clk else None)
       (opLease None (opNext (f_next f) (opError (Some (f_category f)) (opTo next r)))))).

(** The terminal states that manual review never overrides. *)
Definition intentReviewable (s : IntentState) : bool := negb (intentTerminal s) && negb (bool_decide (s = ManualReview)).
Definition sagaReviewable (s : SagaState) : bool := negb (sagaTerminal s) && negb (bool_decide (s = SagaManualReview)).

Definition FailOperation clk (c : OperationClaim) (f : Failure) : PM WErr unit :=
  if bool_decide (oc_op c = uuidNil) || bool_decide (oc_intent c = uuidNil) || bool_decide (oc_lease c = ""%string) ||
     bool_decide (f_category f = ""%string) then throw ErrStoreUnavailable else
  let current := if bool_decide (oc_previous c = Uncertain) then Uncertain else InFlight in
  if f_review f then
    finalizeOperationFailure clk c current FailedPermanent f ;;
    anyRows (updIntents (fun k r => bool_decide (k = oc_intent c) && intentReviewable (i_state r)) (intentTo ManualReview)) ;;
    anyRows (updSagas clk (fun _ r => bool_decide (s_intent r = oc_intent c) && sagaReviewable (s_state r))
      (fun r => sagaNext clk (sagaError (Some (f_category f)) (sagaLease None (sagaTo SagaManualReview r))))) ;;
    insertReview clk (oc_intent c) (oc_op c) uuidNil (f_category f)
  else
    let next := if f_uncertain f || bool_decide (current = Uncertain) && bool_decide (f_category f = "provider_outcome_unknown"%string)
                then Uncertain else FailedRetryable in
    finalizeOperationFailure clk c current next f ;;
    if bool_decide (oc_previous c = Uncertain) then releaseSagaLease clk (oc_intent c) (oc_lease c) else mret tt.

(** ** Confirmations *)

(** The row that SELECT ... WHERE payment_intent_id AND operation_type gives. *)
Definition opOfType (db : PDb) (intent : uuid) (kind : OperationType) : option (uuid * OpRow) :=
  head (filter (fun kr : uuid * OpRow => o_intent kr.2 = intent /\ o_type kr.2 = kind) (map_to_list (ops db))).

(** The tail of confirmOperation from an operation in flight or uncertain,
    from a claimed one, and from a pending one. *)
Definition confirmFinish clk (k intent : uuid) (kind : OperationType) (st : Status) : PM WErr unit :=
  let fp := sha256 ("provider-confirmation-v1:" +:+ uuidString intent +:+ ":" +:+ opName kind +:+ ":" +:+ statusName st) in
  let poid := confirmedOperationID ("payment." +:+ uuidString intent) kind in
  anyRows (updOps clk (fun k' r => bool_decide (k' = k) && (bool_decide (o_state r = InFlight) || bool_decide (o_state r = Uncertain)))
    (fun r => opLease None (opSucceeded clk (Some poid) st fp r))).
Definition confirmBegin clk k intent kind st : PM WErr unit :=
  anyRows (moveOp clk k Claimed (opTo InFlight)) ;; confirmFinish clk k intent kind st.
Definition confirmClaim clk k intent kind st : PM WErr unit :=
  anyRows (moveOp clk k Pending (fun r => opLease (Some ("webhook-confirmation"%string, clk + 30000000000)) (opAttempt (opTo Claimed r)))) ;;
  confirmBegin clk k intent kind st.

Definition confirmOperation clk (intent : uuid) (provider : string) (kind : OperationType) (amount : Z) (currency : string) (st : Status) : PM WErr unit :=
  insertOperation clk intent provider kind amount currency ;;
  db ← getDb;
  match opOfType db intent kind with
  | None => throw ErrStoreUnavailable
  | Some (k, r) =>
      match o_state r with
      | Succeeded => mret tt
      | FailedPermanent | OpCancelled => throw ErrStoreUnavailable
      | FailedRetryable =>
          anyRows (moveOp clk k FailedRetryable (fun r => opError None (opTo Pending r))) ;; confirmClaim clk k intent kind st
      | Pending => confirmClaim clk k intent kind st
      | Claimed => confirmBegin clk k intent kind st
      | InFlight | Uncertain => confirmFinish clk k intent kind st
      end
  end.

Definition convergeCapturedCancellation clk (intent : uuid) (provider : string) (amount : Z) (currency owner : string) : PM WErr unit :=
  confirmOperation clk intent provider OperationCapture amount currency StatusCaptured ;;
  oneRow (moveIntent intent VoidPending (intentTo ManualReview)) ;;
  oneRow (moveIntent intent ManualReview (intentTo RefundPending)) ;;
  (if bool_decide (owner = ""%string) then
     oneRow (updSagas clk (fun _ r => bool_decide (s_intent r = intent) && bool_decide (s_state r = SagaCompensating) && bool_decide (s_step r = StepVoid))
       (fun r => sagaFresh clk (sagaAt SagaRefunding StepRefund r)))
   else
     oneRow (updSagas clk (fun _ r => bool_decide (s_intent r = intent) && bool_decide (s_state r = SagaCompensating) && held (s_lease r) owner clk)
       (fun r => sagaFresh clk (sagaAt SagaRefunding StepRefund r)))) ;;
  insertOperation clk intent provider OperationRefund amount currency.

(** The join of an intent with its saga (each intent has one). *)
Definition joinSaga (db : PDb) (intent : uuid) : option (uuid * IntentRow * (uuid * SagaRow)) :=
  i ← intents db !! intent; ks ← head (sagasOf db intent); Some ((intent, i), ks).

(** UPDATE of a void operation whose payment turned out captured. *)
Definition superseded clk (next : OperationState) (fp : digest) (r : OpRow) : OpRow :=
  opCompleted (Some clk) (opLease None (opError (Some "superseded_by_capture"%string) (opEvidence StatusCaptured fp (opTo next r)))).

Definition SupersedeVoidWithRefund clk (c : OperationClaim) (e : OperationEvidence) : PM WErr unit :=
  if bool_decide (oc_op c = uuidNil) || bool_decide (oc_intent c = uuidNil) || bool_decide (oc_lease c = ""%string) ||
     negb (bool_decide (oc_type c = OperationVoid)) || negb (bool_decide (oc_previous c = Uncertain)) ||
     negb (bool_decide (e_status e = StatusCaptured)) || negb (providerIdentifier (e_ppid e)) || (oc_amount c <=? 0) ||
     negb (e_amount e =? oc_amount c) || negb (bool_decide (e_currency e = oc_currency c)) ||
     negb (e_captured e =? oc_amount c) || negb (e_refunded e =? 0) || (e_fp e =? 0)%N
  then throw ErrStoreUnavailable else
  if negb (bool_decide (e_poid e = ""%string)) && negb (providerIdentifier (e_poid e)) then throw ErrStoreUnavailable else
  db ← getDb;
  match joinSaga db (oc_intent c) with
  | Some (_, i, (_, s)) =>
      if negb (bool_decide (i_state i = VoidPending)) || negb (bool_decide (s_state s = SagaCompensating)) ||
         negb (bool_decide (s_step s = StepVoid)) || negb (ownedBy (s_lease s) (oc_lease c)) then throw ErrLeaseLost else
      oneRow (updOps clk
        (fun k r => bool_decide (k = oc_op c) && bool_decide (o_intent r = oc_intent c) && bool_decide (o_type r = OperationVoid) && bool_decide (o_state r = Uncertain))
        (superseded clk FailedPermanent (e_fp e))) ;;
      convergeCapturedCancellation clk (oc_intent c) (oc_provider c) (oc_amount c) (oc_currency c) (oc_lease c)
  | None => throw ErrLeaseLost
  end.

(** Zero affected rows are accepted: a stale event cannot regress the state. *)
Definition advanceAuthorization clk (i : uuid) : PM WErr unit :=
  anyRows (moveIntent i AwaitingCustomer (intentTo AuthorizationPending)) ;;
  anyRows (moveIntent i AuthorizationPending (intentTo Authorized)) ;;
  anyRows (moveSaga clk i SagaAwaitingProvider (sagaAt SagaAuthorized StepCapture)).

Definition advanceCapture clk (i : uuid) : PM WErr unit :=
  anyRows (moveIntent i Authorized (intentTo CapturePending)) ;;
  anyRows (moveIntent i CapturePending (intentTo Captured)) ;;
  anyRows (moveIntent i Captured (intentTo TicketIssuePending)) ;;
  anyRows (moveSaga clk i SagaAuthorized (sagaAt SagaCapturing StepCapture)) ;;
  anyRows (moveSaga clk i SagaCapturing (sagaTo SagaCaptured)) ;;
  anyRows (moveSaga clk i SagaCaptured (fun r => sagaNext clk (sagaAt SagaIssuingTickets IssueTickets r))).

Definition applyProviderConfirmation clk (i : uuid) (provider : string) (st : IntentState) (amount : Z) (currency : string) (e : WebhookEvidence) : PM WErr unit :=
  match we_status e with
  | StatusCreated | StatusRequiresCustomerAction => mret tt
  | StatusAuthorized =>
      advanceAuthorization clk i ;; insertOperation clk i provider OperationCapture amount currency
  | StatusCaptured =>
      if negb (we_captured e =? amount) || negb (we_refunded e =? 0) then throw ErrStoreUnavailable else
      if bool_decide (st = VoidPending) then
        if amount <=? 0 then throw ErrStoreUnavailable else
        let fp := sha256 ("provider-confirmation-v1:" +:+ uuidString i +:+ ":capture:captured") in
        oneRow (updOps clk
          (fun _ r => bool_decide (o_intent r = i) && bool_decide (o_type r = OperationVoid) && negb (opTerminal (o_state r)))
          (fun r => superseded clk (match o_state r with Pending | Claimed | FailedRetryable => OpCancelled | _ => FailedPermanent end) fp r)) ;;
        convergeCapturedCancellation clk i provider amount currency ""
      else
        advanceAuthorization clk i ;;
        confirmOperation clk i provider OperationCapture amount currency StatusCaptured ;;
        advanceCapture clk i
  | StatusRefunded =>
      if negb (we_captured e =? amount) || negb (we_refunded e =? amount) then throw ErrStoreUnavailable else
      confirmOperation clk i provider OperationRefund amount currency StatusRefunded ;;
      anyRows (moveIntent i RefundPending (intentDoneOnce Refunded clk)) ;;
      rawRows (moveSaga clk i SagaCompensating (fun r => sagaNext clk (sagaAt SagaRefunding Compensate r)))
  | StatusVoided =>
      if negb (we_captured e =? 0) || negb (we_refunded e =? 0) then throw ErrStoreUnavailable else
      confirmOperation clk i provider OperationVoid amount currency StatusVoided ;;
      anyRows (moveIntent i VoidPending (intentDoneOnce Voided clk)) ;;
      anyRows (moveSaga clk i SagaCompensating (fun r => sagaFresh clk (sagaStep Compensate r)))
  | StatusUnknown | StatusFailed | StatusCancelled => throw ErrStoreUnavailable
  end.

(** ** Webhooks *)
Definition inboxHeld clk (c : WebhookClaim) (k : uuid) (r : InboxRow) : bool :=
  bool_decide (k = wc_inbox c) && bool_decide (x_state r = InboxProcessing) && held (x_lease r) (wc_lease c) clk.

Definition IgnoreWebhook clk (c : WebhookClaim) : PM WErr unit :=
  oneRow (updInbox (inboxHeld clk c) (fun r => inboxRow Ignored (x_attempts r) (x_next r) None (x_error r) (Some clk) r)).

(** SELECT ... WHERE provider=$1 AND provider_payment_id=$2. *)
Definition intentByPayment (db : PDb) (provider ppid : string) : option (uuid * IntentRow) :=
  head (filter (fun kr : uuid * IntentRow => i_provider kr.2 = provider /\ i_ppid kr.2 = Some ppid) (map_to_list (intents db))).

Definition CompleteWebhook clk (c : WebhookClaim) (e : WebhookEvidence) : PM WErr unit :=
  if bool_decide (wc_inbox c = uuidNil) || bool_decide (wc_ppid c = ""%string) || bool_decide (wc_lease c = ""%string) ||
     (we_amount e <? 0) || negb (String.length (we_currency e) =? 3)%nat then throw ErrStoreUnavailable else
  db ← getDb;
  match (kr ← intentByPayment db (wc_provider c) (wc_ppid c); joinSaga db kr.1) with
  | None => throw ErrStoreUnavailable
  | Some (k, i, _) =>
      if negb (i_amount i =? we_amount e) || negb (bool_decide (i_currency i = we_currency e)) || (we_refunded e <? 0) ||
         (we_captured e <? we_refunded e) || (i_amount i <? we_captured e) then throw ErrStoreUnavailable else
      if bool_decide (we_status e = StatusRefunded) && negb (bool_decide (i_state i = RefundPending)) &&
         negb (bool_decide (i_state i = Refunded)) && negb (bool_decide (i_state i = Cancelled)) then throw ErrStoreUnavailable else
      if bool_decide (we_status e = StatusVoided) && negb (bool_decide (i_state i = VoidPending)) &&
         negb (bool_decide (i_state i = Voided)) && negb (bool_decide (i_state i = Cancelled)) then throw ErrStoreUnavailable else
      applyProviderConfirmation clk k (i_provider i) (i_state i) (i_amount i) (i_currency i) e ;;
      oneRow (updInbox (inboxHeld clk c) (fun r => inboxRow Processed (x_attempts r) (x_next r) None None (Some clk) r))
  end.

Definition FailWebhook clk (c : WebhookClaim) (f : Failure) : PM WErr unit :=
  if bool_decide (wc_inbox c = uuidNil) || bool_decide (wc_lease c = ""%string) || bool_decide (f_category f = ""%string) then throw ErrStoreUnavailable else
  let '(next, processed) := if f_review f then (InboxFailedPermanent, Some clk) else (InboxFailedRetryable, None) in
  oneRow (updInbox (inboxHeld clk c) (fun r => inboxRow next (x_attempts r) (f_next f) None (Some (f_category f)) processed r)) ;;
  if f_review f then
    db ← getDb;
    match intentByPayment db (wc_provider c) (wc_ppid c) with
    | Some (k, _) => insertReview clk k uuidNil (wc_inbox c) (f_category f)
    | None => mret tt
    end
  else mret tt.

(** ** Saga actions *)

(** UPDATE payment_intents FROM payment_sagas with the saga's lease held. *)
Definition moveLeasedIntent clk (saga : uuid) (owner : string) (from : IntentState) (f : IntentRow -> IntentRow) : PM WErr unit :=
  db ← getDb;
  oneRow (updIntents (fun k r => sagaIntentHeld db saga owner clk k && bool_decide (i_state r = from)) f).
Definition leasedSaga clk (saga : uuid) (owner : string) (p : SagaRow -> bool) (f : SagaRow -> SagaRow) : PM WErr unit :=
  oneRow (updSagas clk (fun k r => bool_decide (k = saga) && p r && held (s_lease r) owner clk) f).

Fixpoint writeTickets (order reservation run : uuid) (shard : string) (gen : Z) (owner : uuid) (l : list (uuid * string)) (ids : list uuid) (codes : list string) : PM WErr unit :=
  match l with
  | [] => mret tt
  | (t, code) :: l' =>
      if bool_decide (t = uuidNil) || negb (ValidTicketCode code) || bool_decide (t ∈ ids) || bool_decide (code ∈ codes) then throw ErrStoreUnavailable else
      oneRow (insTicket t (mkTicLocator order reservation run shard gen owner)) ;;
      oneRow (insCode code t) ;;
      writeTickets order reservation run shard gen owner l' (t :: ids) (code :: codes)
  end.

Definition writeTicketLocators (c : IssueTicketsCommand) (r : IssueTicketsReceipt) : PM WErr unit :=
  if bool_decide (ir_order r = uuidNil) || (length (ir_tickets r) =? 0)%nat ||
     negb (length (ir_codes r) =? length (ir_tickets r))%nat || (ir_ordered r =? zeroTime) || (ir_issued r =? zeroTime)
  then throw ErrStoreUnavailable else
  db ← getDb;
  match resLocators db !! ic_reservation c with
  | None => throw ErrStoreUnavailable
  | Some l =>
      if negb (bool_decide (rl_run l = ic_run c)) || negb (bool_decide (rl_owner l = ic_owner c)) ||
         bool_decide (rl_shard l = ""%string) || (rl_generation l <? 1) then throw ErrStoreUnavailable else
      oneRow (insOrder (ir_order r) (mkOrdLocator (ic_reservation c) (rl_run l) (rl_shard l) (rl_generation l) (rl_owner l) true
        (ir_amount r) (ir_currency r) (ir_ordered r))) ;;
      writeTickets (ir_order r) (ic_reservation c) (rl_run l) (rl_shard l) (rl_generation l) (rl_owner l)
        (zip (ir_tickets r) (ir_codes r)) [] []
  end.

(** UPDATE ticket_order_shard_locators SET status='cancelled' by primary key. *)
Definition cancelOrder (order reservation owner : uuid) : Stmt := fun db =>
  match ordLocators db !! order with
  | Some l =>
      if bool_decide (ol_reservation l = reservation) && bool_decide (ol_owner l = owner)
      then Ok (1%nat, setOrdLocators db (<[order := mkOrdLocator (ol_reservation l) (ol_run l) (ol_shard l) (ol_generation l) (ol_owner l) false (ol_amount l) (ol_currency l) (ol_created l)]> (ordLocators db)))
      else Ok (0%nat, db)
  | None => Ok (0%nat, db)
  end.

Definition CompleteAction clk (c : ActionClaim) (e : ActionEvidence) : PM WErr unit :=
  let '(saga, owner) := (ac_saga c, ac_lease c) in
  if bool_decide (saga = uuidNil) || bool_decide (owner = ""%string) then throw ErrStoreUnavailable else
  match ac_action c with
  | ActionIssueTickets cmd =>
      writeTicketLocators cmd (ae_issue e) ;;
      moveLeasedIntent clk saga owner TicketIssuePending (intentDone Completed clk) ;;
      leasedSaga clk saga owner (fun s => bool_decide (s_state s = SagaIssuingTickets)) (sagaEnd SagaCompleted clk)
  | ActionMarkRefundPending _ =>
      leasedSaga clk saga owner (fun s => bool_decide (s_state s = SagaCompensating) && bool_decide (s_step s = StepRefund))
        (fun r => sagaFresh clk (sagaAt SagaRefunding StepRefund r))
  | ActionCancelVoided _ =>
      moveLeasedIntent clk saga owner Voided (intentTo Cancelled) ;;
      leasedSaga clk saga owner (fun s => bool_decide (s_state s = SagaCompensating) && bool_decide (s_step s = Compensate)) (sagaEnd SagaCompensated clk)
  | ActionCompensate cmd =>
      n ← exec unavailable (cancelOrder (rr_order (ae_comp e)) (rc_reservation cmd) (rc_owner cmd));
      let expected := if 0 <? rr_tickets (ae_comp e) then 1%nat else 0%nat in
      if negb (n =? expected)%nat then throw ErrStoreUnavailable else
      moveLeasedIntent clk saga owner Refunded (intentTo Cancelled) ;;
      leasedSaga clk saga owner (fun s => bool_decide (s_state s = SagaRefunding) && bool_decide (s_step s = Compensate)) (sagaEnd SagaCompensated clk)
  end.

Definition FailAction clk (c : ActionClaim) (f : Failure) : PM WErr unit :=
  let '(saga, owner) := (ac_saga c, ac_lease c) in
  if bool_decide (saga = uuidNil) || bool_decide (owner = ""%string) || bool_decide (f_category f = ""%string) then throw ErrStoreUnavailable else
  if f_compensate f then
    match ac_action c with
    | ActionIssueTickets cmd =>
        moveLeasedIntent clk saga owner TicketIssuePending (intentTo RefundPending) ;;
        leasedSaga clk saga owner (fun s => bool_decide (s_state s = SagaIssuingTickets))
          (fun r => sagaNext clk (sagaError (Some (f_category f)) (sagaLease None (sagaAt SagaCompensating StepRefund r)))) ;;
        if bool_decide (ic_intent cmd = uuidNil) then throw ErrStoreUnavailable else
        insertOperation clk (ic_intent cmd) (ac_provider c) OperationRefund (ic_amount cmd) (ic_currency cmd)
    | _ => throw ErrStoreUnavailable
    end
  else if f_review f then
    leasedSaga clk saga owner (fun s => negb (sagaTerminal (s_state s)))
      (fun r => sagaError (Some (f_category f)) (sagaLease None (sagaTo SagaManualReview r))) ;;
    db ← getDb;
    match sagas db !! saga with
    | None => throw ErrStoreUnavailable
    | Some s =>
        anyRows (updIntents (fun k r => bool_decide (k = s_intent s) && intentReviewable (i_state r)) (intentTo ManualReview)) ;;
        insertReview clk (s_intent s) uuidNil uuidNil (f_category f)
    end
  else
    leasedSaga clk saga owner (fun _ => true)
      (fun r => sagaNext (f_next f) (sagaError (Some (f_category f)) (sagaLease None r))).

(** ** Ticket codes *)
Inductive CodeErr := CodePaymentUnavailable | CodePaymentConflict | CodeClaimUnauthorized | CodeClaimConflict.

Fixpoint validPlan (l : list (uuid * string)) (ids : list uuid) (codes : list string) : res CodeErr unit :=
  match l with
  | [] => Ok tt
  | (t, code) :: l' =>
      failif bool_decide (t = uuidNil) || negb (ValidTicketCode code) with CodePaymentUnavailable else
      failif bool_decide (t ∈ ids) with CodePaymentConflict else
      failif bool_decide (code ∈ codes) with CodePaymentConflict else
      validPlan l' (t :: ids) (code :: codes)
  end.

Fixpoint claimCodes (l : list (uuid * string)) : PM CodeErr unit :=
  match l with
  | [] => mret tt
  | (t, code) :: l' =>
      n ← exec (fun _ => CodeClaimConflict) (insCode code t);
      if (n =? 1)%nat then claimCodes l' else throw CodeClaimConflict
  end.

Definition ClaimTicketCodes (cmd : IssueTicketsCommand) (tickets : list uuid) (codes : list string) : PM CodeErr unit :=
  if bool_decide (ic_intent cmd = uuidNil) || bool_decide (ic_reservation cmd = uuidNil) || (length tickets =? 0)%nat ||
     (100 <? length tickets)%nat || negb (length tickets =? length codes)%nat then throw CodePaymentUnavailable else
  _ ← lift (validPlan (zip tickets codes) [] []);
  db ← getDb;
  let authorized :=
    claimsReady db &&
    match intents db !! ic_intent cmd with
    | Some i => bool_decide (i_reservation i = ic_reservation cmd) && bool_decide (i_state i = TicketIssuePending) &&
                existsb (fun ks => bool_decide (s_state ks.2 = SagaIssuingTickets)) (sagasOf db (ic_intent cmd))
    | None => false
    end in
  if authorized then claimCodes (zip tickets codes) else throw CodeClaimUnauthorized.

End Finalize.
