(* ===== verification/PaymentControl.v ===== *)
(** * Payment control plane: intents, cancellation and webhook ingress

    Models [src/internal/payment/postgres/store.go] (the intent store),
    [src/internal/payment/application/service.go] (the application service
    that sequences control reserve, shard command and control finalization),
    [src/internal/payment/webhook/service.go] and
    [src/internal/payment/webhook/postgres/repository.go] (verified events).

    The reservation shard is behind the ReservationGateway interface and the
    signature check behind the Verifier interface: both are arguments, the
    gateway with a state of its own.  newID and now are arguments too. *)

From S2P Require Import Prelude PaymentDomain PaymentDb PaymentClaims PaymentFinalize.

Inductive AppErr :=
| ErrInvalidPaymentRequest | ErrPaymentNotFound | ErrPaymentConflict | ErrReservationNotPayable | ErrPaymentUnavailable
| ErrControlFinalizationDeferred | ErrShardPaymentCommandDeferred | ErrDatabase (e : SqlErr).
#[export] Instance AppErr_eq_dec : EqDecision AppErr.
Proof. solve_decision. Defined.

(** IntentRecord without UpdatedAt, which no operation reads. *)
Record IntentRecord := mkIntentRecord {
  r_id : uuid; r_saga : uuid; r_command : uuid; r_reservation : uuid; r_run : uuid; r_owner : uuid; r_provider : string;
  r_ppid : string; r_hosted : string; r_amount : Z; r_currency : string; r_state : IntentState; r_created : Z;
  r_completed : option Z }.

Record ReserveIntentRequest := mkReserveIntentRequest {
  rq_intent : uuid; rq_saga : uuid; rq_command : uuid; rq_reservation : uuid; rq_run : uuid; rq_owner : uuid;
  rq_provider : string; rq_amount : Z; rq_currency : string; rq_key : digest; rq_fp : digest }.

Record CancelIntentRequest := mkCancelIntentRequest {
  cq_owner : uuid; cq_intent : uuid; cq_operation : uuid; cq_key : digest; cq_fp : digest }.

(** ** Insert statements *)

(** INSERT INTO payment_intents in state reservation_securing. *)
Definition insIntent (k : uuid) (r : IntentRow) : Stmt := fun db =>
  if negb (directoryOk db r && intentCheck r) then Err CheckViolation else
  if bool_decide (is_Some (intents db !! k)) then Err UniqueViolation else
  let t := <[k := r]> (intents db) in
  if negb (intentsUnique t) then Err UniqueViolation else Ok (1%nat, setIntents db t).
(** INSERT INTO payment_sagas at (created, secure_reservation). *)
Definition insSaga (k : uuid) (r : SagaRow) : Stmt := fun db =>
  if bool_decide (is_Some (sagas db !! k)) then Err UniqueViolation else
  let t := <[k := r]> (sagas db) in
  if negb (sagasUnique t) then Err UniqueViolation else
  match intents db !! s_intent r with
  | Some i => if bool_decide (i_reservation i = s_reservation r) then Ok (1%nat, setSagas db t) else Err CheckViolation
  | None => Err CheckViolation
  end.

Section Control.
Context `{!Hashing}.
Implicit Types clk : Z.

(** ** Identities *)
Definition identityField (value : string) : string := be64 (Z.of_nat (String.length value)) +:+ value.
Definition identity (fields : list string) : string := String.concat "" (map identityField fields).
Definition cancellationFingerprint (owner intent : uuid) : digest :=
  sha256 (identity ["v1"; "payment_intent.cancel"; uuidString owner; uuidString intent]%string).
Definition creationFingerprint (owner reservation : uuid) : digest :=
  sha256 (identity ["v1"; "payment_intent.create"; uuidString owner; uuidString reservation]%string).
Definition cancellationOperationHash (owner : uuid) (key : digest) : digest :=
  sha256 (identity ["v1"; "payment_operation.cancel"; uuidString owner; digestBytes key]%string).
Definition paymentIdentityNamespace : uuid := 0xd4afbc577bb05f88bff462db186e9ea8.
Definition beginCommandID (saga : uuid) : uuid :=
  newSHA1 paymentIdentityNamespace (uuidString saga +:+ ":secure_reservation").
Definition operationIdentity (intent : uuid) (kind : string) : uuid * digest :=
  let id := uuidString intent +:+ ":" +:+ kind in
  (newSHA1 paymentIdentityNamespace id, sha256 ("provider:v1:" +:+ id)).

(** ** Intent store *)
Definition scanIntent (ki : uuid * IntentRow) (ks : uuid * SagaRow) : IntentRecord * digest :=
  let i := ki.2 in
  (mkIntentRecord ki.1 ks.1 (beginCommandID ks.1) (i_reservation i) (i_run i) (i_owner i) (i_provider i)
     (default "" (i_ppid i))%string (default "" (i_hosted i))%string (i_amount i) (i_currency i) (i_state i) (i_created i)
     (i_completed i), i_fp i).
(** selectIntent WHERE p: the rows of the join, as QueryRow reads the first. *)
Definition joinedRows (db : PDb) (l : list (uuid * IntentRow)) : list (IntentRecord * digest) :=
  flat_map (fun ki => map (scanIntent ki) (sagasOf db ki.1)) l.
Definition selectIntent (db : PDb) (p : uuid -> IntentRow -> bool) : option (IntentRecord * digest) :=
  head (joinedRows db (filter (fun ki => p ki.1 ki.2 = true) (map_to_list (intents db)))).

Definition byKey (owner : uuid) (key : digest) (_ : uuid) (i : IntentRow) : bool :=
  bool_decide (i_owner i = owner) && bool_decide (i_key i = key).

Definition LookupIntentByIdempotency (owner : uuid) (key fp : digest) (db : PDb) : res AppErr (option IntentRecord) :=
  failif bool_decide (owner = uuidNil) || (key =? 0)%N || (fp =? 0)%N with ErrPaymentUnavailable else
  match selectIntent db (byKey owner key) with
  | None => Ok None
  | Some (r, stored) => failif negb (stored =? fp)%N with ErrPaymentConflict else Ok (Some r)
  end.

Definition validReserveRequest (q : ReserveIntentRequest) : bool :=
  negb (bool_decide (rq_intent q = uuidNil)) && negb (bool_decide (rq_saga q = uuidNil)) && negb (bool_decide (rq_command q = uuidNil)) &&
  negb (bool_decide (rq_reservation q = uuidNil)) && negb (bool_decide (rq_run q = uuidNil)) && negb (bool_decide (rq_owner q = uuidNil)) &&
  validProviderName (rq_provider q) && (0 <? rq_amount q) && validCurrencyCode (rq_currency q) && negb (rq_key q =? 0)%N && negb (rq_fp q =? 0)%N.

Definition normalizeConflict (e : SqlErr) : AppErr := match e with UniqueViolation => ErrPaymentConflict | _ => ErrDatabase e end.

(** The transaction, up to the handler of a unique violation of the first
    insert, which is the inner result [Err]. *)
Definition reserveTx clk (q : ReserveIntentRequest) : PM AppErr (res unit (IntentRecord * bool)) :=
  db ← getDb;
  match selectIntent db (byKey (rq_owner q) (rq_key q)) with
  | Some (r, stored) => if negb (stored =? rq_fp q)%N then throw ErrPaymentConflict else mret (Ok (r, true))
  | None =>
      if bool_decide (is_Some (selectIntent db (fun _ i => bool_decide (i_reservation i = rq_reservation q) && negb (intentTerminal (i_state i))))) then throw ErrPaymentConflict else
      if negb (claimsReady db) then throw ErrPaymentUnavailable else
      let row := mkIntentRow (rq_reservation q) (rq_run q) (rq_owner q) (rq_provider q) None None (rq_amount q) (rq_currency q)
                   ReservationSecuring (rq_key q) (rq_fp q) clk None in
      match insIntent (rq_intent q) row db with
      | Err UniqueViolation => mret (Err tt)
      | Err e => throw (normalizeConflict e)
      | Ok (_, db') => fun _ =>
          (_ ← exec normalizeConflict (insSaga (rq_saga q)
                 (mkSagaRow (rq_intent q) (rq_reservation q) SecureReservation SagaCreated None 0 clk None clk None));
           db2 ← getDb;
           match selectIntent db2 (fun k _ => bool_decide (k = rq_intent q)) with
           | Some (r, _) => mret (Ok (r, false))
           | None => throw ErrPaymentUnavailable
           end) db'
      end
  end.

Definition ReserveIntent clk (q : ReserveIntentRequest) : PM AppErr (IntentRecord * bool) :=
  if negb (validReserveRequest q) then throw ErrPaymentUnavailable else
  x ← reserveTx clk q;
  match x with
  | Ok r => mret r
  | Err _ =>
      db ← getDb;
      found ← lift (LookupIntentByIdempotency (rq_owner q) (rq_key q) (rq_fp q) db);
      match found with Some r => mret (r, true) | None => throw ErrPaymentConflict end
  end.

Definition deferred : SqlErr -> AppErr := fun _ => ErrControlFinalizationDeferred.

Definition MarkReservationSecured clk (intent command : uuid) (fp : digest) : PM AppErr IntentRecord :=
  if bool_decide (intent = uuidNil) || bool_decide (command = uuidNil) || (fp =? 0)%N then throw ErrControlFinalizationDeferred else
  db ← getDb;
  match selectIntent db (fun k _ => bool_decide (k = intent)) with
  | None => throw ErrPaymentNotFound
  | Some (r, stored) =>
      if negb (bool_decide (r_command r = command)) || negb (stored =? fp)%N then throw ErrPaymentConflict else
      _ ← exec deferred (moveIntent intent ReservationSecuring (intentTo CheckoutPending));
      _ ← exec deferred (moveSaga clk intent SagaCreated (fun s => sagaNext clk (sagaAt SagaReservationSecured CreateCheckout s)));
      let '(op, key) := operationIdentity intent "create_checkout" in
      _ ← exec deferred (insOp op (newOp clk intent (r_provider r) OperationCreateCheckout key (r_amount r) (r_currency r)));
      db1 ← getDb;
      match opOfType db1 intent OperationCreateCheckout with
      | None => throw ErrControlFinalizationDeferred
      | Some (k, o) =>
          if negb (bool_decide (k = op)) || negb (o_key o =? key)%N || negb (o_amount o =? r_amount r) ||
             negb (bool_decide (o_currency o = r_currency r)) then throw ErrPaymentConflict else
          match selectIntent db1 (fun k _ => bool_decide (k = intent)) with
          | Some (r', _) => mret r'
          | None => throw ErrControlFinalizationDeferred
          end
      end
  end.

(** [err != nil || RowsAffected() != 1] is deferred. *)
Definition deferredRow (s : Stmt) : PM AppErr unit :=
  n ← exec deferred s; if (n =? 1)%nat then mret tt else throw ErrControlFinalizationDeferred.

Definition FailReservationSecuring clk (intent : uuid) (fp : digest) : PM AppErr unit :=
  if bool_decide (intent = uuidNil) || (fp =? 0)%N then throw ErrControlFinalizationDeferred else
  deferredRow (updIntents (fun k i => bool_decide (k = intent) && bool_decide (i_state i = ReservationSecuring) && bool_decide (i_fp i = fp))
    (intentDone Failed clk)) ;;
  deferredRow (updSagas clk (fun _ s => bool_decide (s_intent s = intent) && bool_decide (s_state s = SagaCreated) && bool_decide (s_step s = SecureReservation))
    (fun s => sagaLease None (sagaCompleted (Some clk) (sagaError (Some "reservation_not_payable"%string) (sagaAt SagaFailed Complete s))))).

Definition GetOwnedIntent (owner intent : uuid) (db : PDb) : res AppErr IntentRecord :=
  failif bool_decide (owner = uuidNil) || bool_decide (intent = uuidNil) with ErrPaymentNotFound else
  match selectIntent db (fun k i => bool_decide (k = intent) && bool_decide (i_owner i = owner)) with
  | Some (r, _) => Ok r
  | None => Err ErrPaymentNotFound
  end.

Definition GetOwnedIntentByReservation (owner reservation : uuid) (db : PDb) : res AppErr IntentRecord :=
  failif bool_decide (owner = uuidNil) || bool_decide (reservation = uuidNil) with ErrPaymentNotFound else
  match head (joinedRows db (sortBy (fun a b : uuid * IntentRow => i_created b.2 <=? i_created a.2)
          (filter (fun ki : uuid * IntentRow => i_reservation ki.2 = reservation /\ i_owner ki.2 = owner) (map_to_list (intents db))))) with
  | Some (r, _) => Ok r
  | None => Err ErrPaymentNotFound
  end.

Definition validCancellationRequest (q : CancelIntentRequest) : bool :=
  negb (bool_decide (cq_owner q = uuidNil)) && negb (bool_decide (cq_intent q = uuidNil)) && negb (bool_decide (cq_operation q = uuidNil)) &&
  negb (cq_key q =? 0)%N && negb (cq_fp q =? 0)%N && (cq_fp q =? cancellationFingerprint (cq_owner q) (cq_intent q))%N.

Definition stateRequiresCapture (s : IntentState) : bool :=
  match s with Captured | TicketIssuePending | Completed | RefundPending | Refunded => true | _ => false end.
Definition stateAllowsNewCancellation (s : IntentState) (kind : OperationType) : bool :=
  match kind with
  | OperationVoid => bool_decide (s = AwaitingCustomer) || bool_decide (s = Authorized)
  | OperationRefund => bool_decide (s = Completed)
  | _ => false
  end.

Definition conflictRow (s : Stmt) : PM AppErr unit :=
  n ← exec ErrDatabase s; if (n =? 1)%nat then mret tt else throw ErrPaymentConflict.

Definition RequestCancellation clk (q : CancelIntentRequest) : PM AppErr IntentRecord :=
  if negb (validCancellationRequest q) then throw ErrPaymentConflict else
  db ← getDb;
  match selectIntent db (fun k i => bool_decide (k = cq_intent q) && bool_decide (i_owner i = cq_owner q)) with
  | None => throw ErrPaymentNotFound
  | Some (r, _) =>
      let captured := existsOp db (succeeded (cq_intent q) OperationCapture) in
      let '(kind, step) := if captured then (OperationRefund, StepRefund) else (OperationVoid, StepVoid) in
      let key := cancellationOperationHash (cq_owner q) (cq_key q) in
      if stateRequiresCapture (r_state r) && negb captured then throw ErrPaymentConflict else
      match head (filter (fun kr : uuid * OpRow => o_provider kr.2 = r_provider r /\ o_key kr.2 = key) (map_to_list (ops db))) with
      | Some (_, o) =>
          if negb (bool_decide (o_intent o = cq_intent q)) || negb (bool_decide (o_type o = kind)) then throw ErrPaymentConflict else mret r
      | None =>
          match opOfType db (cq_intent q) kind with
          | Some _ => mret r
          | None =>
              if negb (stateAllowsNewCancellation (r_state r) kind) then throw ErrPaymentConflict else
              _ ← exec normalizeConflict (insOp (cq_operation q) (newOp clk (cq_intent q) (r_provider r) kind key (r_amount r) (r_currency r)));
              db1 ← getDb;
              match opOfType db1 (cq_intent q) kind with
              | None => throw (ErrDatabase CheckViolation)
              | Some (_, o) =>
                  if negb (o_key o =? key)%N || negb (o_amount o =? r_amount r) || negb (bool_decide (o_currency o = r_currency r)) then throw ErrPaymentConflict else
                  (if captured then conflictRow (moveIntent (cq_intent q) Completed (intentTo RefundPending))
                   else conflictRow (updIntents (fun k i => bool_decide (k = cq_intent q) && (bool_decide (i_state i = AwaitingCustomer) || bool_decide (i_state i = Authorized)))
                          (intentTo VoidPending))) ;;
                  conflictRow (updSagas clk
                    (fun _ s => bool_decide (s_intent s = cq_intent q) &&
                       (negb captured && (bool_decide (s_state s = SagaAwaitingProvider) || bool_decide (s_state s = SagaAuthorized)) ||
                        captured && bool_decide (s_state s = SagaCompleted)))
                    (fun s => sagaCompleted None (sagaNext clk (sagaAt SagaCompensating step s)))) ;;
                  db2 ← getDb;
                  match selectIntent db2 (fun k _ => bool_decide (k = cq_intent q)) with
                  | Some (r', _) => mret r'
                  | None => throw (ErrDatabase CheckViolation)
                  end
              end
          end
      end
  end.

(** ** Application service *)
Record ReservationSnapshot := mkReservationSnapshot {
  sn_id : uuid; sn_owner : uuid; sn_run : uuid; sn_status : string; sn_amount : Z; sn_currency : string; sn_expires : Z }.
Record BeginPaymentCommand := mkBeginPaymentCommand {
  bp_command : uuid; bp_intent : uuid; bp_reservation : uuid; bp_run : uuid; bp_owner : uuid; bp_amount : Z;
  bp_currency : string; bp_grace : Z; bp_fp : digest }.
Record BeginPaymentReceipt := mkBeginPaymentReceipt { br_command : uuid; br_intent : uuid; br_fp : digest }.

(** The ReservationGateway interface over the state [G] of the shards. *)
Record ReservationGateway (G : Type) := mkReservationGateway {
  GetPayableReservation : uuid -> G -> res AppErr ReservationSnapshot;
  BeginPayment : BeginPaymentCommand -> G -> res AppErr BeginPaymentReceipt * G }.
Arguments GetPayableReservation {G} _.
Arguments BeginPayment {G} _.

Definition isSpace (c : ascii) : bool := let n := nat_of_ascii c in (((9 <=? n) && (n <=? 13)) || (n =? 32))%nat.
Fixpoint dropSpaces (l : list ascii) : list ascii :=
  match l with c :: l' => if isSpace c then dropSpaces l' else l | [] => [] end.
(** strings.TrimSpace on the ASCII range. *)
Definition trimSpace (s : string) : string :=
  String.string_of_list_ascii (reverse (dropSpaces (reverse (dropSpaces (String.list_ascii_of_string s))))).
Definition validKey (key : string) : bool :=
  (8 <=? String.length key)%nat && (String.length key <=? 128)%nat &&
  forallb (fun c => inRange c 33 126) (String.list_ascii_of_string key).

Definition intentIdentity (owner reservation : uuid) (key : string) : res AppErr (digest * digest) :=
  let key := trimSpace key in
  failif bool_decide (owner = uuidNil) || bool_decide (reservation = uuidNil) || negb (validKey key) with ErrInvalidPaymentRequest else
  Ok (sha256 key, creationFingerprint owner reservation).
Definition cancellationIdentity (owner intent : uuid) (key : string) : res AppErr (digest * digest) :=
  let key := trimSpace key in
  failif bool_decide (owner = uuidNil) || bool_decide (intent = uuidNil) || negb (validKey key) with ErrInvalidPaymentRequest else
  Ok (sha256 key, cancellationFingerprint owner intent).

Definition normalizeStoreError (e : AppErr) : AppErr :=
  match e with ErrPaymentConflict | ErrControlFinalizationDeferred => e | _ => ErrPaymentUnavailable end.
Definition normalizeReservationError (e : AppErr) : AppErr :=
  match e with ErrPaymentNotFound | ErrReservationNotPayable | ErrPaymentConflict => e | _ => ErrShardPaymentCommandDeferred end.

(** The control plane and the shards behind the gateway. *)
Definition World (G : Type) : Type := PDb * G.

Section Service.
Context {G : Type} (gateway : ReservationGateway G) (grace : Z) (providerName : string).

Definition secureReservation clk (r : IntentRecord) (fp : digest) (now : Z) (w : World G) : res AppErr IntentRecord * World G :=
  let '(db, g) := w in
  let '(receipt, g') := BeginPayment gateway (mkBeginPaymentCommand (r_command r) (r_id r) (r_reservation r) (r_run r) (r_owner r)
                          (r_amount r) (r_currency r) (now + grace) fp) g in
  match receipt with
  | Err e =>
      match e with
      | ErrReservationNotPayable =>
          let '(failed, db') := run (FailReservationSecuring clk (r_id r) fp) db in
          match failed with
          | Err e' => (Err (normalizeStoreError e'), (db', g'))
          | Ok _ => (Err (normalizeReservationError e), (db', g'))
          end
      | _ => (Err (normalizeReservationError e), (db, g'))
      end
  | Ok b =>
      if negb (bool_decide (br_command b = r_command r)) || negb (bool_decide (br_intent b = r_id r)) || negb (br_fp b =? fp)%N
      then (Err ErrPaymentConflict, (db, g')) else
      let '(secured, db') := run (MarkReservationSecured clk (r_id r) (br_command b) (br_fp b)) db in
      match secured with
      | Ok r' => (Ok r', (db', g'))
      | Err e => (Err (normalizeStoreError e), (db', g'))
      end
  end.

(** [ids]: the three values of newID; [now] and [clk] the two clocks. *)
Definition CreateIntent clk (now : Z) (ids : uuid * uuid * uuid) (owner reservation : uuid) (key : string) (w : World G) : res AppErr IntentRecord * World G :=
  let '(db, g) := w in
  match intentIdentity owner reservation key with
  | Err e => (Err e, w)
  | Ok (keyHash, fp) =>
      match LookupIntentByIdempotency owner keyHash fp db with
      | Err e => (Err (normalizeStoreError e), w)
      | Ok (Some existing) =>
          if negb (bool_decide (r_state existing = ReservationSecuring)) then (Ok existing, w) else secureReservation clk existing fp now w
      | Ok None =>
          match GetPayableReservation gateway reservation g with
          | Err e => (Err (normalizeReservationError e), w)
          | Ok s =>
              if negb (bool_decide (sn_id s = reservation)) || negb (bool_decide (sn_owner s = owner)) then (Err ErrPaymentNotFound, w) else
              if bool_decide (sn_run s = uuidNil) || negb (bool_decide (sn_status s = "held"%string)) || (sn_expires s <=? now) ||
                 (sn_amount s <=? 0) || negb (validCurrencyCode (sn_currency s)) then (Err ErrReservationNotPayable, w) else
              let '(intent, saga, command) := ids in
              if bool_decide (intent = uuidNil) || bool_decide (saga = uuidNil) || bool_decide (command = uuidNil) then (Err ErrPaymentUnavailable, w) else
              let '(reserved, db') := run (ReserveIntent clk (mkReserveIntentRequest intent saga command (sn_id s) (sn_run s) (sn_owner s)
                                        providerName (sn_amount s) (sn_currency s) keyHash fp)) db in
              match reserved with
              | Err e => (Err (normalizeStoreError e), (db', g))
              | Ok (r, replayed) =>
                  if replayed && negb (bool_decide (r_state r = ReservationSecuring)) then (Ok r, (db', g))
                  else secureReservation clk r fp now (db', g)
              end
          end
      end
  end.

Definition GetIntent (owner intent : uuid) (w : World G) : res AppErr IntentRecord :=
  failif bool_decide (owner = uuidNil) || bool_decide (intent = uuidNil) with ErrInvalidPaymentRequest else
  match GetOwnedIntent owner intent w.1 with
  | Ok r => Ok r
  | Err ErrPaymentNotFound => Err ErrPaymentNotFound
  | Err _ => Err ErrPaymentUnavailable
  end.

Definition CancelIntent clk (operation : uuid) (owner intent : uuid) (key : string) (w : World G) : res AppErr IntentRecord * World G :=
  match cancellationIdentity owner intent key with
  | Err e => (Err e, w)
  | Ok (keyHash, fp) =>
      if bool_decide (operation = uuidNil) then (Err ErrPaymentUnavailable, w) else
      let '(r, db') := run (RequestCancellation clk (mkCancelIntentRequest owner intent operation keyHash fp)) w.1 in
      (match r with
       | Ok r => Ok r
       | Err ErrPaymentNotFound => Err ErrPaymentNotFound
       | Err ErrPaymentConflict => Err ErrPaymentConflict
       | Err _ => Err ErrPaymentUnavailable
       end, (db', w.2))
  end.

Definition CancelReservation clk (operation : uuid) (owner reservation : uuid) (key : string) (w : World G) : res AppErr IntentRecord * World G :=
  if bool_decide (owner = uuidNil) || bool_decide (reservation = uuidNil) then (Err ErrInvalidPaymentRequest, w) else
  match GetOwnedIntentByReservation owner reservation w.1 with
  | Err ErrPaymentNotFound => (Err ErrPaymentNotFound, w)
  | Err _ => (Err ErrPaymentUnavailable, w)
  | Ok r =>
      match r_state r with
      | Failed | Expired => (Err ErrPaymentNotFound, w)
      | Cancelled | Voided | Refunded => (Ok r, w)
      | Created | ReservationSecuring | CheckoutPending | AuthorizationPending | CapturePending | Captured | TicketIssuePending
      | ManualReview => (Err ErrPaymentConflict, w)
      | _ => CancelIntent clk operation owner (r_id r) key w
      end
  end.
End Service.

(** ** Webhook ingress *)
Inductive HookErr := ErrPersistence | ErrWebhookInvalid | ErrWebhookConflict.
Inductive StoreResult := StoreAccepted | StoreDuplicate | StoreConflict.

Record HookRecord := mkHookRecord {
  h_id : uuid; h_provider : string; h_event : string; h_type : string; h_ppid : string; h_hash : digest; h_key : string;
  h_created : Z; h_verified : Z; h_received : Z; h_size : Z; h_ignored : bool }.

Definition webhookConflictQuarantinable (s : InboxState) : bool :=
  match s with Received | InboxProcessing | InboxFailedRetryable => true | _ => false end.

(** The constraints of a new inbox row. *)
Definition hookCheck (h : HookRecord) : bool :=
  validProviderName (h_provider h) && identifier 127 (h_event h) && identifier 127 (h_type h) &&
  (bool_decide (h_ppid h = ""%string) || identifier 127 (h_ppid h)) && identifier 63 (h_key h) && (h_verified h <=? h_received h) &&
  (1 <=? h_size h) && (h_size h <=? 1048576).
Definition eventRow (db : PDb) (provider event : string) : option (uuid * InboxRow) :=
  head (filter (fun kr : uuid * InboxRow => x_provider kr.2 = provider /\ x_event kr.2 = event) (map_to_list (inbox db))).
(** INSERT ... ON CONFLICT(provider,provider_event_id) DO NOTHING RETURNING true. *)
Definition insInbox clk (h : HookRecord) : Stmt := fun db =>
  if negb (hookCheck h) then Err CheckViolation else
  match eventRow db (h_provider h) (h_event h) with
  | Some _ => Ok (0%nat, db)
  | None =>
      if bool_decide (is_Some (inbox db !! h_id h)) then Err UniqueViolation else
      Ok (1%nat, setInbox db (<[h_id h := mkInboxRow (h_provider h) (h_event h) (h_type h) (nullif (h_ppid h)) (h_hash h)
            (h_created h) (h_received h) Received 0 clk None None None]> (inbox db)))
  end.
(** INSERT ... ON CONFLICT DO UPDATE of the conflict evidence. *)
Definition recordConflict (h : HookRecord) (canonical : digest) : Stmt := fun db =>
  let k := (h_provider h, h_event h, h_hash h) in
  let row := match conflicts db !! k with
             | Some c => mkConflictRow (k_canonical c) (Z.min (k_count c + 1) 1000000) (k_first c) (Z.max (k_last c) (h_received h))
             | None => mkConflictRow canonical 1 (h_received h) (h_received h)
             end in
  Ok (1%nat, setConflicts db (<[k := row]> (conflicts db))).

Definition persistence : SqlErr -> HookErr := fun _ => ErrPersistence.
Definition hookRow (s : Stmt) : PM HookErr unit :=
  n ← exec persistence s; if (n =? 1)%nat then mret tt else throw ErrPersistence.
Definition eventIs (h : HookRecord) (st : InboxState) (_ : uuid) (x : InboxRow) : bool :=
  bool_decide (x_provider x = h_provider h) && bool_decide (x_event x = h_event h) && bool_decide (x_state x = st).

Definition StoreVerified clk (h : HookRecord) : PM HookErr StoreResult :=
  n ← exec persistence (insInbox clk h);
  if (n =? 1)%nat then
    (if h_ignored h
     then hookRow (updInbox (eventIs h Received) (fun x => inboxRow Ignored (x_attempts x) (x_next x) (x_lease x) (x_error x) (Some (h_received h)) x))
     else mret tt) ;;
    mret StoreAccepted
  else
    db ← getDb;
    match eventRow db (h_provider h) (h_event h) with
    | None => throw ErrPersistence
    | Some (_, x) =>
        if (x_hash x =? h_hash h)%N then mret StoreDuplicate else
        _ ← exec persistence (recordConflict h (x_hash x));
        (if webhookConflictQuarantinable (x_state x)
         then hookRow (updInbox (eventIs h (x_state x))
                (fun x => inboxRow SecurityConflict (x_attempts x) (x_next x) None (Some "payload_hash_conflict"%string) (Some (h_received h)) x))
         else mret tt) ;;
        mret StoreConflict
    end.

Record PaymentWebhookRequest := mkPaymentWebhookRequest {
  w_provider : string; w_key : string; w_timestamp : string; w_signature : string; w_body : string }.
(** provider.WebhookEvent; an unrecognized type is EventUnknown with its
    original name. *)
Record WebhookEvent := mkWebhookEvent {
  ev_id : string; ev_type : string; ev_original : string; ev_ppid : string; ev_occurred : Z }.
Definition EventUnknown : string := "unknown".
Inductive HookDisposition := WebhookAccepted | WebhookDuplicate | WebhookIgnored.

Definition validIdentifier (value : string) (maximum : nat) (optional : bool) : bool :=
  if bool_decide (value = ""%string) then optional else identifier (maximum - 1) value.
Definition validVisibleHeader (value : string) (maximum : nat) : bool :=
  negb (bool_decide (value = ""%string)) && (String.length value <=? maximum)%nat &&
  forallb (fun c => inRange c 33 126) (String.list_ascii_of_string value).

(** [verifiers]: the VerifyWebhook of each configured provider, None when it
    refuses the signature. *)
Definition IngestPaymentWebhook (verifiers : string -> option (PaymentWebhookRequest -> option WebhookEvent)) (maxBody : Z) clk (now : Z) (id : uuid) (q : PaymentWebhookRequest) (db : PDb) : res HookErr HookDisposition * PDb :=
  match verifiers (w_provider q) with
  | None => (Err ErrWebhookInvalid, db)
  | Some verify =>
      if negb (validIdentifier (w_key q) 64 false) || negb (validVisibleHeader (w_timestamp q) 32) ||
         negb (validVisibleHeader (w_signature q) 256) || (String.length (w_body q) =? 0)%nat ||
         (maxBody <? Z.of_nat (String.length (w_body q))) then (Err ErrWebhookInvalid, db) else
      match verify q with
      | None => (Err ErrWebhookInvalid, db)
      | Some ev =>
          let ignored := bool_decide (ev_type ev = EventUnknown) in
          let typ := if ignored && negb (bool_decide (ev_original ev = ""%string)) then ev_original ev else ev_type ev in
          if (now =? zeroTime) || negb (validIdentifier (ev_id ev) 128 false) || negb (validIdentifier typ 128 false) ||
             negb (validIdentifier (ev_ppid ev) 128 true) || (ev_occurred ev =? zeroTime) then (Err ErrWebhookInvalid, db) else
          if bool_decide (id = uuidNil) then (Err ErrPersistence, db) else
          let '(stored, db') := run (StoreVerified clk (mkHookRecord id (w_provider q) (ev_id ev) typ (ev_ppid ev) (sha256 (w_body q))
                (w_key q) (ev_occurred ev) now now (Z.of_nat (String.length (w_body q))) ignored)) db in
          (match stored with
           | Ok StoreAccepted => Ok (if ignored then WebhookIgnored else WebhookAccepted)
           | Ok StoreDuplicate => Ok WebhookDuplicate
           | Ok StoreConflict => Err ErrWebhookConflict
           | Err _ => Err ErrPersistence
           end, db')
      end
  end.

End Control.

Arguments GetPayableReservation {G} _ _ _.
Arguments BeginPayment {G} _ _ _.
