(* ===== verification/PaymentWorker.v ===== *)
(** * Payment worker

    Models [src/internal/payment/worker/worker.go] and [backoff.go]: how the
    worker turns a claim into a provider or shard call and its outcome into one
    of the finalize transactions.  The provider clients and the reservation
    shards are interfaces over states of their own, so that an effect on them
    is visible; each control transaction reads the next instant of a clock.
    Metrics are not modelled. *)

From S2P Require Import Prelude PaymentDomain PaymentDb PaymentClaims PaymentFinalize.

(** ** Backoff *)

(** [for count := 1; count < attempt && delay < maximum; count++]. *)
Fixpoint backoffLoop (n : nat) (delay maximum : Z) : Z :=
  match n with
  | O => delay
  | S n' =>
      if delay <? maximum then
        if Z.quot maximum 2 <? delay then maximum else backoffLoop n' (wrap64 (delay * 2)) maximum
      else delay
  end.
Definition retryDelay (id : uuid) (attempt base maximum : Z) : Z :=
  let attempt := if attempt <? 1 then 1 else attempt in
  let delay := backoffLoop (Z.to_nat (attempt - 1)) base maximum in
  if maximum <=? delay then maximum else
  let window := Z.quot delay 4 in
  if window <=? 0 then delay else
  let seed := Z.lxor (Z.of_N (N.div id (2 ^ 64))) (wrapu64 attempt) in
  let jitter := seed mod (window + 1) in
  if maximum - jitter <? delay then maximum else wrap64 (delay + jitter).

(** ** Categories *)
Definition underscore : ascii := "_"%char.
Definition categoryChar (c : ascii) : bool := isLower c || isDigit c || bool_decide (c = underscore).
(** The builder, most recent character first; it stops at 64 characters. *)
Fixpoint boundLoop (l acc : list ascii) : list ascii :=
  match l with
  | [] => acc
  | c :: l' =>
      let acc' := if categoryChar c then c :: acc else
                  match acc with d :: _ => if bool_decide (d = underscore) then acc else underscore :: acc | [] => acc end in
      if (length acc' =? 64)%nat then acc' else boundLoop l' acc'
  end.
Fixpoint dropUnderscores (l : list ascii) : list ascii :=
  match l with c :: l' => if bool_decide (c = underscore) then dropUnderscores l' else l | [] => [] end.
Definition boundedCategory (value : string) : string :=
  let l := dropUnderscores (reverse (dropUnderscores (boundLoop (String.list_ascii_of_string (toLower value)) []))) in
  match l with
  | c :: _ => if isLower c then String.string_of_list_ascii l else "worker_failure"
  | [] => "worker_failure"
  end.

(** ** Provider boundary *)
Inductive ProviderError := ProviderErr (category : string) (retryable uncertain : bool) | OtherError.
(** Requests: the intent, the operation of the metadata, and the payment. *)
Record ProviderRequest := mkProviderRequest {
  pq_intent : uuid; pq_operation : uuid; pq_ppid : string; pq_token : string; pq_amount : Z; pq_currency : string;
  pq_key : string }.
Record VoidRequest := mkVoidRequest { vq_intent : uuid; vq_operation : uuid; vq_ppid : string; vq_key : string }.
Record Checkout := mkCheckout { ck_ppid : string; ck_hosted : string; ck_status : Status; ck_amount : Z; ck_currency : string }.
Record Payment := mkPayment {
  py_ppid : string; py_status : Status; py_amount : Z; py_currency : string; py_captured : Z; py_refunded : Z;
  py_updated : Z }.
Record OperationResult := mkOperationResult {
  or_ppid : string; or_poid : string; or_status : Status; or_amount : Z; or_currency : string }.

(** provider.Client over the state [P] of the provider. *)
Record Client (P : Type) := mkClient {
  clientCheckout : ProviderRequest -> P -> res ProviderError Checkout * P;
  clientStatus : string -> P -> res ProviderError Payment * P;
  clientAuthorize : ProviderRequest -> P -> res ProviderError OperationResult * P;
  clientCapture : ProviderRequest -> P -> res ProviderError OperationResult * P;
  clientVoid : VoidRequest -> P -> res ProviderError OperationResult * P;
  clientRefund : ProviderRequest -> P -> res ProviderError OperationResult * P }.
Arguments clientCheckout {P} _.
Arguments clientStatus {P} _.
Arguments clientAuthorize {P} _.
Arguments clientCapture {P} _.
Arguments clientVoid {P} _.
Arguments clientRefund {P} _.

Definition expectedDisposition (kind : OperationType) (st : Status) : Disposition :=
  let applied :=
    match kind with
    | OperationCreateCheckout => bool_decide (st = StatusCreated) || bool_decide (st = StatusRequiresCustomerAction)
    | OperationQueryStatus => true
    | OperationAuthorize => bool_decide (st = StatusAuthorized)
    | OperationCapture => bool_decide (st = StatusCaptured)
    | OperationVoid => bool_decide (st = StatusVoided)
    | OperationRefund => bool_decide (st = StatusRefunded)
    | OperationOther _ => false
    end in
  if applied then DispositionApplied else
  if bool_decide (st = StatusUnknown) then DispositionUnknown else DispositionConflict.

Definition uncertainDisposition (kind : OperationType) (st : Status) : Disposition :=
  if bool_decide (expectedDisposition kind st = DispositionApplied) then DispositionApplied else
  let notApplied :=
    match kind with
    | OperationAuthorize => bool_decide (st = StatusCreated) || bool_decide (st = StatusRequiresCustomerAction)
    | OperationCapture => bool_decide (st = StatusAuthorized)
    | OperationVoid => bool_decide (st = StatusCreated) || bool_decide (st = StatusRequiresCustomerAction) || bool_decide (st = StatusAuthorized)
    | OperationRefund => bool_decide (st = StatusCaptured)
    | _ => false
    end in
  if notApplied then DispositionNotApplied else
  if bool_decide (st = StatusUnknown) then DispositionUnknown else DispositionConflict.

Definition classifyProviderError (e : ProviderError) : string * bool * bool :=
  match e with
  | OtherError => ("provider_unavailable"%string, true, false)
  | ProviderErr c r u => (boundedCategory c, r, u)
  end.

(** ** Shard boundary *)
Inductive Sentinel :=
| ErrTicketPlanUnavailable | ErrTicketClaimUnauthorized | ErrTicketClaimReadFailed | ErrTicketClaimReadTimeout
| ErrTicketClaimSQLFailed | ErrTicketClaimScanFailed | ErrTicketClaimDecodeFailed | ErrTicketClaimConflict
| ErrTicketClaimCommitFailed | ErrTicketClaimUnavailable | ErrTicketIssueUnavailable.
#[export] Instance Sentinel_eq_dec : EqDecision Sentinel.
Proof. solve_decision. Defined.
(** An error: its text and the sentinels that errors.Is finds in it. *)
Record ShardErr := mkShardErr { se_text : string; se_is : list Sentinel }.

Record ShardGateway (H : Type) := mkShardGateway {
  gwIssue : IssueTicketsCommand -> H -> res ShardErr IssueTicketsReceipt * H;
  gwMark : MarkRefundPendingCommand -> H -> res ShardErr MarkRefundPendingReceipt * H;
  gwVoid : CancelVoidedReservationCommand -> H -> res ShardErr CancelVoidedReservationReceipt * H;
  gwComp : ApplyRefundCompensationCommand -> H -> res ShardErr ApplyRefundCompensationReceipt * H }.
Arguments gwIssue {H} _.
Arguments gwMark {H} _.
Arguments gwVoid {H} _.
Arguments gwComp {H} _.

Definition contains (needle s : string) : bool := bool_decide (is_Some (String.index 0 needle s)).
Definition permanentShardError (e : ShardErr) : bool :=
  contains "conflict" (toLower (se_text e)) || contains "not payable" (toLower (se_text e)).

Definition shardFailureCategory (e : ShardErr) : string :=
  let is_ s := bool_decide (s ∈ se_is e) in
  if is_ ErrTicketPlanUnavailable then "shard_ticket_plan_failed" else
  if is_ ErrTicketClaimUnauthorized then "shard_ticket_claim_unauthorized" else
  if is_ ErrTicketClaimReadFailed then
    if is_ ErrTicketClaimReadTimeout then "shard_ticket_claim_read_timeout" else
    if is_ ErrTicketClaimSQLFailed then "shard_ticket_claim_sql_failed" else
    if is_ ErrTicketClaimScanFailed then "shard_ticket_claim_scan_failed" else
    if is_ ErrTicketClaimDecodeFailed then "shard_ticket_claim_decode_failed" else "shard_ticket_claim_read_failed" else
  if is_ ErrTicketClaimConflict then "shard_ticket_claim_conflict" else
  if is_ ErrTicketClaimCommitFailed then "shard_ticket_claim_commit_failed" else
  if is_ ErrTicketClaimUnavailable then "shard_ticket_claim_failed" else
  if is_ ErrTicketIssueUnavailable then "shard_ticket_issue_failed" else "shard_command_failed".

(** The evidence of a claim: only the receipt of its own call is filled in. *)
Definition noIssue : IssueTicketsReceipt := mkIssueTicketsReceipt 0 0 0 0 0 [] [] 0 "" zeroTime zeroTime.
Definition noMark : MarkRefundPendingReceipt := mkMarkRefundPendingReceipt 0 0 0 0.
Definition noVoid : CancelVoidedReservationReceipt := mkCancelVoidedReservationReceipt 0 0 0 0 0 0 zeroTime.
Definition noComp : ApplyRefundCompensationReceipt := mkApplyRefundCompensationReceipt 0 0 0 0 0 0 0.

Definition validActionEvidence (a : Action) (e : ActionEvidence) : bool :=
  match a with
  | ActionIssueTickets c =>
      let r := ae_issue e in
      negb (bool_decide (ir_order r = uuidNil)) && negb (length (ir_tickets r) =? 0)%nat && negb (ir_ordered r =? zeroTime) &&
      negb (ir_issued r =? zeroTime) && negb (bool_decide (uuidNil ∈ ir_tickets r)) && bool_decide (NoDup (ir_tickets r)) &&
      bool_decide (ir_command r = ic_command c) && bool_decide (ir_issuance r = ic_issuance c) && bool_decide (ir_intent r = ic_intent c) &&
      bool_decide (ir_reservation r = ic_reservation c) && (ir_amount r =? ic_amount c) && bool_decide (ir_currency r = ic_currency c)
  | ActionMarkRefundPending c =>
      let r := ae_mark e in
      negb (bool_decide (mr_order r = uuidNil)) && bool_decide (mr_command r = mc_command c) && bool_decide (mr_intent r = mc_intent c) &&
      bool_decide (mr_reservation r = mc_reservation c)
  | ActionCancelVoided c =>
      let r := ae_void e in
      negb (bool_decide (vr_order r = uuidNil)) && (0 <? vr_released r) && negb (vr_cancelled r =? zeroTime) &&
      bool_decide (vr_command r = vc_command c) && bool_decide (vr_operation r = vc_operation c) && bool_decide (vr_intent r = vc_intent c) &&
      bool_decide (vr_reservation r = vc_reservation c)
  | ActionCompensate c =>
      let r := ae_comp e in
      negb (bool_decide (rr_order r = uuidNil)) && (0 <? rr_released r) && bool_decide (rr_command r = rc_command c) &&
      bool_decide (rr_compensation r = rc_compensation c) && bool_decide (rr_intent r = rc_intent c) &&
      bool_decide (rr_reservation r = rc_reservation c)
  end.

(** ** Claims *)
Definition validateOperationClaim (c : OperationClaim) (worker : string) : bool :=
  negb (bool_decide (oc_op c = uuidNil)) && negb (bool_decide (oc_intent c = uuidNil)) && negb (bool_decide (oc_reservation c = uuidNil)) &&
  negb (bool_decide (oc_run c = uuidNil)) && negb (bool_decide (oc_owner c = uuidNil)) && negb (bool_decide (oc_provider c = ""%string)) &&
  negb (bool_decide (oc_key c = ""%string)) && (0 <=? oc_amount c) && (String.length (oc_currency c) =? 3)%nat && (1 <=? oc_attempts c) &&
  negb (oc_created c =? zeroTime) && bool_decide (oc_lease c = worker) && negb (oc_until c =? zeroTime).
Definition knownEvent (t : string) : bool :=
  bool_decide (t ∈ ["payment.checkout_created"; "payment.authorized"; "payment.captured"; "payment.voided"; "payment.refunded"]%string).
Definition validWebhookClaim (c : WebhookClaim) (worker : string) : bool :=
  negb (bool_decide (wc_inbox c = uuidNil)) && negb (bool_decide (wc_provider c = ""%string)) && negb (bool_decide (wc_event c = ""%string)) &&
  negb (wc_created c =? zeroTime) && (0 <? wc_attempts c) && bool_decide (wc_lease c = worker) && negb (wc_until c =? zeroTime) &&
  (negb (knownEvent (wc_type c)) || negb (bool_decide (wc_ppid c = ""%string))).
Definition validActionClaim (c : ActionClaim) (worker : string) : bool :=
  negb (bool_decide (ac_saga c = uuidNil)) && negb (bool_decide (ac_provider c = ""%string)) && (0 <? ac_attempts c) &&
  bool_decide (ac_lease c = worker) && negb (ac_until c =? zeroTime).

Record Config := mkConfig {
  cfg_worker : string; cfg_batch : Z; cfg_maxAttempts : Z; cfg_ttl : Z; cfg_retryBase : Z; cfg_retryMax : Z;
  cfg_maxUncertain : Z; cfg_interval : Z }.
Definition validConfig (c : Config) : bool :=
  identifier 127 (cfg_worker c) && (0 <? cfg_batch c) && (cfg_batch c <=? 1000) && (0 <? cfg_maxAttempts c) &&
  (cfg_maxAttempts c <=? 1000) && (0 <? cfg_ttl c) && (0 <? cfg_retryBase c) && (cfg_retryBase c <=? cfg_retryMax c) &&
  (0 <? cfg_maxUncertain c) && (cfg_maxUncertain c <=? 30 * 24 * 3600 * 1000000000) && (0 <? cfg_interval c).

Record Result := mkResult {
  res_opsClaimed : Z; res_opsDone : Z; res_hooksClaimed : Z; res_hooksDone : Z; res_actsClaimed : Z; res_actsDone : Z;
  res_retried : Z; res_compensating : Z; res_review : Z; res_failures : Z }.
Definition noResult : Result := mkResult 0 0 0 0 0 0 0 0 0 0.
Definition opDone r := mkResult (res_opsClaimed r) (res_opsDone r + 1) (res_hooksClaimed r) (res_hooksDone r) (res_actsClaimed r) (res_actsDone r) (res_retried r) (res_compensating r) (res_review r) (res_failures r).
Definition hookDone r := mkResult (res_opsClaimed r) (res_opsDone r) (res_hooksClaimed r) (res_hooksDone r + 1) (res_actsClaimed r) (res_actsDone r) (res_retried r) (res_compensating r) (res_review r) (res_failures r).
Definition actDone r := mkResult (res_opsClaimed r) (res_opsDone r) (res_hooksClaimed r) (res_hooksDone r) (res_actsClaimed r) (res_actsDone r + 1) (res_retried r) (res_compensating r) (res_review r) (res_failures r).
Definition retriedOne r := mkResult (res_opsClaimed r) (res_opsDone r) (res_hooksClaimed r) (res_hooksDone r) (res_actsClaimed r) (res_actsDone r) (res_retried r + 1) (res_compensating r) (res_review r) (res_failures r).
Definition compensatingOne r := mkResult (res_opsClaimed r) (res_opsDone r) (res_hooksClaimed r) (res_hooksDone r) (res_actsClaimed r) (res_actsDone r) (res_retried r) (res_compensating r + 1) (res_review r) (res_failures r).
Definition reviewOne r := mkResult (res_opsClaimed r) (res_opsDone r) (res_hooksClaimed r) (res_hooksDone r) (res_actsClaimed r) (res_actsDone r) (res_retried r) (res_compensating r) (res_review r + 1) (res_failures r).
Definition setClaimed a b c r := mkResult (default (res_opsClaimed r) a) (res_opsDone r) (default (res_hooksClaimed r) b) (res_hooksDone r) (default (res_actsClaimed r) c) (res_actsDone r) (res_retried r) (res_compensating r) (res_review r) (res_failures r).
Definition setFailures n r := mkResult (res_opsClaimed r) (res_opsDone r) (res_hooksClaimed r) (res_hooksDone r) (res_actsClaimed r) (res_actsDone r) (res_retried r) (res_compensating r) (res_review r) n.

(** The wrapped errors of the process methods. *)
Inductive WorkErr :=
| InvalidClaim | ClaimFailed (e : WErr) | BeginFailed (e : WErr) | SupersedeFailed (e : WErr) | CompleteFailed (e : WErr)
| IgnoreFailed (e : WErr) | FailFailed (e : WErr) | CompleteAndFail (e : WErr) (e' : WorkErr).

Section Worker.
Context `{!Hashing} {P T : Type}.
Context (clock : nat -> Z) (providers : string -> option (Client P)) (shards : ShardGateway T) (cfg : Config).

(** What the worker acts on: the control tables, the providers, the shards,
    and how many transactions have read the clock. *)
Record WorkerWorld := mkWorkerWorld { ww_db : PDb; ww_prov : P; ww_shard : T; ww_ticks : nat }.

(** errors.Join of a failed finalization and of what recording it gave. *)
Definition joinErrors (e : WErr) (e' : option WorkErr) : WorkErr :=
  match e' with Some e' => CompleteAndFail e e' | None => CompleteFailed e end.
(** One control transaction. *)
Definition tx {E A} (m : Z -> PM E A) (w : WorkerWorld) : res E A * WorkerWorld :=
  let '(r, db) := run (m (clock (ww_ticks w))) (ww_db w) in
  (r, mkWorkerWorld db (ww_prov w) (ww_shard w) (S (ww_ticks w))).
(** One provider or shard call. *)
Definition callProvider {A} (f : P -> A * P) (w : WorkerWorld) : A * WorkerWorld :=
  let '(a, p) := f (ww_prov w) in (a, mkWorkerWorld (ww_db w) p (ww_shard w) (ww_ticks w)).
Definition callShard {A} (f : T -> A * T) (w : WorkerWorld) : A * WorkerWorld :=
  let '(a, h) := f (ww_shard w) in (a, mkWorkerWorld (ww_db w) (ww_prov w) h (ww_ticks w)).

(** ** Provider calls *)
Definition fingerprintEvidence (ppid poid : string) (st : Status) (currency : string) (amount captured refunded : Z) : digest :=
  sha256 (String.concat "" (map (fun v => be64 (Z.of_nat (String.length v)) +:+ v)
            ["payment-evidence-v1"%string; ppid; poid; statusName st; currency]) +:+
          be64 amount +:+ be64 captured +:+ be64 refunded).
Definition checkoutEvidence (v : Checkout) : OperationEvidence :=
  mkOperationEvidence (expectedDisposition OperationCreateCheckout (ck_status v)) (ck_ppid v) "" (ck_hosted v) (ck_status v)
    (ck_amount v) (ck_currency v) 0 0 (fingerprintEvidence (ck_ppid v) "" (ck_status v) (ck_currency v) (ck_amount v) 0 0) zeroTime.
Definition operationResultEvidence (kind : OperationType) (v : OperationResult) : OperationEvidence :=
  mkOperationEvidence (expectedDisposition kind (or_status v)) (or_ppid v) (or_poid v) "" (or_status v) (or_amount v)
    (or_currency v) 0 0 (fingerprintEvidence (or_ppid v) (or_poid v) (or_status v) (or_currency v) (or_amount v) 0 0) zeroTime.
Definition statusEvidence (d : Status -> Disposition) (v : Payment) : OperationEvidence :=
  mkOperationEvidence (d (py_status v)) (py_ppid v) "" "" (py_status v) (py_amount v) (py_currency v) (py_captured v)
    (py_refunded v) (fingerprintEvidence (py_ppid v) "" (py_status v) (py_currency v) (py_amount v) (py_captured v) (py_refunded v))
    (py_updated v).
Definition mapRes {E A B S} (f : A -> B) (r : res E A * S) : res E B * S :=
  (match r.1 with Ok a => Ok (f a) | Err e => Err e end, r.2).

Definition request (c : OperationClaim) (token : string) : ProviderRequest :=
  mkProviderRequest (oc_intent c) (oc_op c) (oc_ppid c) token (oc_amount c) (oc_currency c) (oc_key c).
Definition checkoutRequest (c : OperationClaim) : ProviderRequest :=
  mkProviderRequest (oc_intent c) (oc_op c) "" "" (oc_amount c) (oc_currency c) (oc_key c).

Definition queryStatus (client : Client P) (c : OperationClaim) (d : Status -> Disposition) (p : P) : res ProviderError OperationEvidence * P :=
  mapRes (statusEvidence d) (clientStatus client (oc_ppid c) p).

Definition invokeProvider (client : Client P) (c : OperationClaim) (p : P) : res ProviderError OperationEvidence * P :=
  match oc_type c with
  | OperationCreateCheckout => mapRes checkoutEvidence (clientCheckout client (checkoutRequest c) p)
  | OperationQueryStatus => queryStatus client c (fun _ => DispositionApplied) p
  | OperationAuthorize => mapRes (operationResultEvidence OperationAuthorize) (clientAuthorize client (request c (oc_token c)) p)
  | OperationCapture => mapRes (operationResultEvidence OperationCapture) (clientCapture client (request c "") p)
  | OperationVoid => mapRes (operationResultEvidence OperationVoid) (clientVoid client (mkVoidRequest (oc_intent c) (oc_op c) (oc_ppid c) (oc_key c)) p)
  | OperationRefund => mapRes (operationResultEvidence OperationRefund) (clientRefund client (request c "") p)
  | OperationOther _ => (Err (ProviderErr "validation_permanent" false false), p)
  end.

(** OperationEvidence with only its disposition set. *)
Definition unknownEvidence : OperationEvidence := mkOperationEvidence DispositionUnknown "" "" "" StatusFailed 0 "" 0 0 0 zeroTime.

Definition queryUncertain (client : Client P) (c : OperationClaim) (p : P) : res ProviderError OperationEvidence * P :=
  if bool_decide (oc_type c = OperationCreateCheckout) && bool_decide (oc_ppid c = ""%string)
  then mapRes checkoutEvidence (clientCheckout client (checkoutRequest c) p) else
  if bool_decide (oc_ppid c = ""%string) then (Ok unknownEvidence, p) else
  queryStatus client c (uncertainDisposition (oc_type c)) p.

(** ** Operations *)
Definition failOperationWithUncertainty (now : Z) (c : OperationClaim) (category : string) (review uncertain : bool) (w : WorkerWorld) (r : Result) : option WorkErr * WorkerWorld * Result :=
  let next := if review then zeroTime else now + retryDelay (oc_op c) (oc_attempts c) (cfg_retryBase cfg) (cfg_retryMax cfg) in
  let '(x, w') := tx (fun clk => FailOperation clk c (mkFailure (boundedCategory category) next review uncertain false)) w in
  match x with
  | Err e => (Some (FailFailed e), w', r)
  | Ok _ => (None, w', if review then reviewOne r else retriedOne r)
  end.
Definition failOperation now c category review w r := failOperationWithUncertainty now c category review false w r.

Definition failInvalidOperation (now : Z) (c : OperationClaim) (w : WorkerWorld) (r : Result) : option WorkErr * WorkerWorld * Result :=
  if bool_decide (oc_op c = uuidNil) || bool_decide (oc_lease c = ""%string) then (Some InvalidClaim, w, r) else
  if bool_decide (oc_previous c = Uncertain) then failOperation now c "invalid_claim" true w r else
  let '(x, w') := tx (fun clk => BeginOperation clk c) w in
  match x with
  | Err e => (Some (BeginFailed e), w', r)
  | Ok _ => failOperation now c "invalid_claim" true w' r
  end.

Definition capturedInsteadOfVoided (c : OperationClaim) (e : OperationEvidence) : bool :=
  bool_decide (oc_type c = OperationVoid) && bool_decide (oc_previous c = Uncertain) && bool_decide (e_status e = StatusCaptured) &&
  negb (bool_decide (e_ppid e = ""%string)) && (0 <? oc_amount c) && (e_amount e =? oc_amount c) && bool_decide (e_currency e = oc_currency c) &&
  (e_captured e =? oc_amount c) && (e_refunded e =? 0) && negb (e_fp e =? 0)%N.

(** What follows a provider answer. *)
Definition finishOperation (now : Z) (c : OperationClaim) (answer : res ProviderError OperationEvidence) (w : WorkerWorld) (r : Result) : option WorkErr * WorkerWorld * Result :=
  let exhausted := cfg_maxAttempts cfg <=? oc_attempts c in
  match answer with
  | Err e =>
      let '(category, retryable, uncertain) := classifyProviderError e in
      let category := if uncertain then "provider_outcome_unknown"%string else category in
      failOperationWithUncertainty now c category (negb uncertain && (negb retryable || exhausted)) uncertain w r
  | Ok e =>
      if capturedInsteadOfVoided c e then
        let '(x, w') := tx (fun clk => SupersedeVoidWithRefund clk c e) w in
        match x with Err e => (Some (SupersedeFailed e), w', r) | Ok _ => (None, w', opDone r) end
      else if bool_decide (oc_type c = OperationVoid) && bool_decide (oc_previous c = Uncertain) && bool_decide (e_status e = StatusUnknown)
      then failOperation now c "provider_outcome_unknown" true w r else
      match e_disposition e with
      | DispositionApplied =>
          let '(x, w') := tx (fun clk => CompleteOperation clk c e) w in
          match x with Err e => (Some (CompleteFailed e), w', r) | Ok _ => (None, w', opDone r) end
      | DispositionNotApplied => failOperation now c "provider_not_applied" exhausted w r
      | DispositionConflict => failOperation now c "provider_state_conflict" true w r
      | DispositionUnknown => failOperation now c "provider_outcome_unknown" exhausted w r
      end
  end.

Definition processOperation (now : Z) (c : OperationClaim) (w : WorkerWorld) (r : Result) : option WorkErr * WorkerWorld * Result :=
  if negb (validateOperationClaim c (cfg_worker cfg)) then failInvalidOperation now c w r else
  if bool_decide (oc_previous c = Uncertain) && (oc_created c + cfg_maxUncertain cfg <=? now)
  then failOperationWithUncertainty now c "uncertainty_window_exceeded" true true w r else
  let '(begun, w1) := if bool_decide (oc_previous c = Uncertain) then (Ok tt, w) else tx (fun clk => BeginOperation clk c) w in
  match begun with
  | Err e => (Some (BeginFailed e), w1, r)
  | Ok _ =>
      match providers (oc_provider c) with
      | None => failOperation now c "provider_unavailable" true w1 r
      | Some client =>
          let '(answer, w2) := callProvider (if bool_decide (oc_previous c = Uncertain) then queryUncertain client c else invokeProvider client c) w1 in
          finishOperation now c answer w2 r
      end
  end.

(** ** Webhooks *)
Definition failWebhook (now : Z) (c : WebhookClaim) (category : string) (review : bool) (w : WorkerWorld) (r : Result) : option WorkErr * WorkerWorld * Result :=
  if bool_decide (wc_inbox c = uuidNil) || bool_decide (wc_lease c = ""%string) then (Some InvalidClaim, w, r) else
  let next := if review then zeroTime else now + retryDelay (wc_inbox c) (wc_attempts c) (cfg_retryBase cfg) (cfg_retryMax cfg) in
  let '(x, w') := tx (fun clk => FailWebhook clk c (mkFailure (boundedCategory category) next review false false)) w in
  match x with
  | Err e => (Some (FailFailed e), w', r)
  | Ok _ => (None, w', if review then reviewOne r else retriedOne r)
  end.

Definition processWebhook (now : Z) (c : WebhookClaim) (w : WorkerWorld) (r : Result) : option WorkErr * WorkerWorld * Result :=
  let exhausted := cfg_maxAttempts cfg <=? wc_attempts c in
  if negb (validWebhookClaim c (cfg_worker cfg)) then failWebhook now c "invalid_claim" true w r else
  if negb (knownEvent (wc_type c)) then
    let '(x, w') := tx (fun clk => IgnoreWebhook clk c) w in
    match x with Err e => (Some (IgnoreFailed e), w', r) | Ok _ => (None, w', hookDone r) end
  else
  match providers (wc_provider c) with
  | None => failWebhook now c "provider_unavailable" true w r
  | Some client =>
      let '(answer, w1) := callProvider (clientStatus client (wc_ppid c)) w in
      match answer with
      | Err e =>
          let '(category, retryable, uncertain) := classifyProviderError e in
          failWebhook now c category (negb retryable && negb uncertain || exhausted) w1 r
      | Ok v =>
          let e := mkWebhookEvidence (py_status v) (py_amount v) (py_currency v) (py_captured v) (py_refunded v) (py_updated v) in
          let '(x, w2) := tx (fun clk => CompleteWebhook clk c e) w1 in
          match x with
          | Ok _ => (None, w2, hookDone r)
          | Err err =>
              let '(e', w3, r') := failWebhook now c "database_finalize_failed" exhausted w2 r in
              (Some (joinErrors err e'), w3, r')
          end
      end
  end.

(** ** Saga actions *)
Definition failAction (now : Z) (c : ActionClaim) (category : string) (review : bool) (w : WorkerWorld) (r : Result) : option WorkErr * WorkerWorld * Result :=
  if bool_decide (ac_saga c = uuidNil) || bool_decide (ac_lease c = ""%string) then (Some InvalidClaim, w, r) else
  let issue := match ac_action c with ActionIssueTickets _ => true | _ => false end in
  let compensate := review && issue && negb (bool_decide (category = "database_finalize_failed"%string)) in
  let next := if review then zeroTime else now + retryDelay (ac_saga c) (ac_attempts c) (cfg_retryBase cfg) (cfg_retryMax cfg) in
  let '(x, w') := tx (fun clk => FailAction clk c (mkFailure (boundedCategory category) next (review && negb compensate) false compensate)) w in
  match x with
  | Err e => (Some (FailFailed e), w', r)
  | Ok _ => (None, w', if compensate then compensatingOne r else if review then reviewOne r else retriedOne r)
  end.

(** The shard call of a claim, with its receipt as evidence. *)
Definition callAction (a : Action) (h : T) : res ShardErr ActionEvidence * T :=
  match a with
  | ActionIssueTickets c => mapRes (fun v => mkActionEvidence v noMark noVoid noComp) (gwIssue shards c h)
  | ActionMarkRefundPending c => mapRes (fun v => mkActionEvidence noIssue v noVoid noComp) (gwMark shards c h)
  | ActionCancelVoided c => mapRes (fun v => mkActionEvidence noIssue noMark v noComp) (gwVoid shards c h)
  | ActionCompensate c => mapRes (fun v => mkActionEvidence noIssue noMark noVoid v) (gwComp shards c h)
  end.

Definition processAction (now : Z) (c : ActionClaim) (w : WorkerWorld) (r : Result) : option WorkErr * WorkerWorld * Result :=
  let exhausted := cfg_maxAttempts cfg <=? ac_attempts c in
  if negb (validActionClaim c (cfg_worker cfg)) then failAction now c "invalid_claim" true w r else
  let '(answer, w1) := callShard (callAction (ac_action c)) w in
  match answer with
  | Err e => failAction now c (shardFailureCategory e) (exhausted || permanentShardError e) w1 r
  | Ok e =>
      if negb (validActionEvidence (ac_action c) e) then failAction now c "shard_receipt_conflict" true w1 r else
      let '(x, w2) := tx (fun clk => CompleteAction clk c e) w1 in
      match x with
      | Ok _ => (None, w2, actDone r)
      | Err err =>
          let '(e', w3, r') := failAction now c "database_finalize_failed" exhausted w2 r in
          (Some (joinErrors err e'), w3, r')
      end
  end.

(** ** One pass *)
Fixpoint processAll {C} (f : C -> WorkerWorld -> Result -> option WorkErr * WorkerWorld * Result) (l : list C) (w : WorkerWorld) (r : Result) (errs : list WorkErr) : WorkerWorld * Result * list WorkErr :=
  match l with
  | [] => (w, r, errs)
  | c :: l' => let '(e, w', r') := f c w r in processAll f l' w' r' (errs ++ match e with Some e => [e] | None => [] end)
  end.

(** A lane: claim in one transaction, then process each item. *)
Definition lane {C} (claim : Z -> PM WErr (list C)) (count : Z -> Result -> Result) (f : C -> WorkerWorld -> Result -> option WorkErr * WorkerWorld * Result) (s : WorkerWorld * Result * list WorkErr) : WorkerWorld * Result * list WorkErr :=
  let '(w, r, errs) := s in
  let '(x, w') := tx claim w in
  match x with
  | Err e => (w', r, errs ++ [ClaimFailed e])
  | Ok l => processAll f l w' (count (Z.of_nat (length l)) r) errs
  end.

(** None: ErrInvalidConfiguration. *)
Definition RunOnce (now : Z) (w : WorkerWorld) : option (WorkerWorld * Result * list WorkErr) :=
  if now =? zeroTime then None else
  let o := mkClaimOptions (cfg_worker cfg) (cfg_batch cfg) (cfg_maxAttempts cfg) (cfg_ttl cfg) now in
  let s0 := (w, noResult, []) in
  let s1 := lane (ClaimOperations o) (fun n r => setClaimed (Some n) None None r) (processOperation now) s0 in
  let s2 := lane (fun _ => ClaimWebhooks o) (fun n r => setClaimed None (Some n) None r) (processWebhook now) s1 in
  let '(w3, r3, errs) := lane (ClaimActions o) (fun n r => setClaimed None None (Some n) r) (processAction now) s2 in
  Some (w3, setFailures (Z.of_nat (length errs)) r3, errs).

End Worker.
