(* ===== verification/PaymentLogic.v ===== *)
(** * Payment transactions: invariant and proof rules

    The invariant of the payment tables and the rules with which the
    transactions are shown to keep it.

    [Evidence]: an intent or a saga is in a state that says money moved only
    when the operation that moved it has succeeded.  [Ledger]: the operations
    of an intent carry its provider, amount and currency, there is one of each
    financial type, never both a successful capture and a successful void, and
    a successful refund only with a successful capture.

    A [Fact] about the operations is stable: no statement undoes it.  A triple
    [triple P m Q] says that a transaction that commits from [P] ends in [Q];
    the rules carry the invariant and the facts collected so far through each
    statement. *)

From S2P Require Import Prelude PaymentDomain PaymentDb PaymentClaims PaymentFinalize.

(** ** Statement lemmas *)
Lemma lookup_updWhere {R} (p : uuid -> R -> bool) f t k :
  updWhere p f t !! k = (fun r => if p k r then f r else r) <$> t !! k.
Proof. unfold updWhere. rewrite map_lookup_imap. by destruct (t !! k). Qed.

Lemma lookup_updWhere_Some {R} (p : uuid -> R -> bool) f t k r' :
  updWhere p f t !! k = Some r' <-> exists r, t !! k = Some r /\ r' = if p k r then f r else r.
Proof. rewrite lookup_updWhere, fmap_Some. naive_solver. Qed.

Lemma checkWhere_true {R} (p : uuid -> R -> bool) ok t :
  checkWhere p ok t = true -> forall k r, t !! k = Some r -> p k r = true -> ok r = true.
Proof.
  unfold checkWhere. rewrite forallb_forall. intros Hall k r Hk Hp.
  specialize (Hall (k, r)). simpl in Hall. rewrite Hp in Hall. apply Hall.
  apply list_elem_of_In, elem_of_map_to_list. done.
Qed.

Lemma countWhere_1 {R} (p : uuid -> R -> bool) t :
  countWhere p t = 1%nat -> exists k r, t !! k = Some r /\ p k r = true.
Proof.
  unfold countWhere. intros Hs.
  destruct (map_choose (filter (fun kr : uuid * R => p kr.1 kr.2 = true) t)) as (k & r & Hk).
  { intros He. rewrite He, map_size_empty in Hs. done. }
  apply map_lookup_filter_Some in Hk as [Hk Hp]. eauto.
Qed.

Lemma existsOp_true db p : existsOp db p = true <-> exists k r, ops db !! k = Some r /\ p r = true.
Proof.
  unfold existsOp. rewrite existsb_exists. split.
  - intros ([k r] & Hin & Hp). apply list_elem_of_In, elem_of_map_to_list in Hin. eauto.
  - intros (k & r & Hk & Hp). exists (k, r). split; [|done]. by apply list_elem_of_In, elem_of_map_to_list.
Qed.

Lemma existsOp_false db p : existsOp db p = false <-> forall k r, ops db !! k = Some r -> p r = false.
Proof.
  rewrite <- not_true_iff_false, existsOp_true. split.
  - intros Hn k r Hk. apply not_true_iff_false. intros Hp. apply Hn. eauto.
  - intros Hall (k & r & Hk & Hp). rewrite (Hall k r Hk) in Hp. done.
Qed.

Lemma head_filter_Some {A} (P : A -> Prop) `{!forall x, Decision (P x)} l x :
  head (filter P l) = Some x -> P x /\ x ∈ l.
Proof.
  destruct (filter P l) as [|y l'] eqn:E; [done|]. intros [= ->]. rewrite <- (list_elem_of_filter P). rewrite E. by left.
Qed.

(** ** The invariant *)
Definition hasOp (db : PDb) (i : uuid) (t : OperationType) : Prop :=
  exists k r, ops db !! k = Some r /\ succeeded i t r = true.

Definition intentNeeds (db : PDb) (k : uuid) (s : IntentState) : Prop :=
  match s with
  | Captured | TicketIssuePending | Completed | RefundPending => hasOp db k OperationCapture
  | Refunded => hasOp db k OperationCapture /\ hasOp db k OperationRefund
  | Voided => hasOp db k OperationVoid
  | Cancelled => hasOp db k OperationVoid \/ hasOp db k OperationRefund
  | _ => True
  end.

Definition sagaNeeds (db : PDb) (i : uuid) (s : SagaState) (p : Step) : Prop :=
  match s, p with
  | SagaCaptured, _ | SagaIssuingTickets, _ | SagaCompleted, _ | SagaCompensating, StepRefund => hasOp db i OperationCapture
  | SagaRefunding, Compensate => hasOp db i OperationRefund
  | SagaRefunding, _ => hasOp db i OperationCapture
  | SagaCompensating, Compensate => hasOp db i OperationVoid
  | SagaCompensated, _ => hasOp db i OperationVoid \/ hasOp db i OperationRefund
  | _, _ => True
  end.

Record Evidence (db : PDb) : Prop := {
  ev_intents k r : intents db !! k = Some r -> intentNeeds db k (i_state r);
  ev_sagas k s : sagas db !! k = Some s -> sagaNeeds db (s_intent s) (s_state s) (s_step s) }.

Record Ledger (db : PDb) : Prop := {
  led_money k r : ops db !! k = Some r -> moneyKeyOk db r = true;
  led_check k r : ops db !! k = Some r -> opCheck r = true;
  led_one k1 k2 r1 r2 : ops db !! k1 = Some r1 -> ops db !! k2 = Some r2 -> financialType (o_type r1) = true ->
    o_intent r1 = o_intent r2 -> o_type r1 = o_type r2 -> k1 = k2;
  led_exclusive i : hasOp db i OperationCapture -> hasOp db i OperationVoid -> False;
  led_refund i : hasOp db i OperationRefund -> hasOp db i OperationCapture }.

Record PayInv (db : PDb) : Prop := { inv_evidence : Evidence db; inv_ledger : Ledger db }.

(** ** Stable facts *)
Inductive Fact :=
| FDone (i : uuid) (t : OperationType)             (** an operation of the type succeeded *)
| FRow (k i : uuid) (t : OperationType)            (** the row of an operation *)
| FClaim (c : OperationClaim)                      (** the row that a claim copies *)
| FInbox (k : uuid) (h : digest) (s : InboxState). (** an event that has reached a final state *)
Definition inboxFinal (s : InboxState) : bool :=
  match s with Processed | Ignored | InboxFailedPermanent | SecurityConflict => true | _ => false end.
Definition holds (db : PDb) (f : Fact) : Prop :=
  match f with
  | FDone i t => hasOp db i t
  | FRow k i t => exists r, ops db !! k = Some r /\ o_intent r = i /\ o_type r = t
  | FClaim c => exists r, ops db !! oc_op c = Some r /\ oc_intent c = o_intent r /\ oc_type c = o_type r /\ oc_provider c = o_provider r /\
      oc_amount c = o_amount r /\ oc_currency c = o_currency r /\ oc_key c = hexString (digestBytes (o_key r))
  | FInbox k h s => exists x, inbox db !! k = Some x /\ x_hash x = h /\ x_state x = s /\ inboxFinal s = true
  end.
Definition Facts (fs : list Fact) (db : PDb) : Prop := PayInv db /\ Forall (holds db) fs.

(** The operations and events only grow: identity columns stay, success and
    the final states of an event stay. *)
Definition sameOp (r r' : OpRow) : Prop :=
  o_intent r' = o_intent r /\ o_type r' = o_type r /\ o_provider r' = o_provider r /\ o_amount r' = o_amount r /\
  o_currency r' = o_currency r /\ o_key r' = o_key r.
Definition opsGrow (db db' : PDb) : Prop :=
  forall k r, ops db !! k = Some r -> exists r', ops db' !! k = Some r' /\ sameOp r r' /\ (o_state r = Succeeded -> o_state r' = Succeeded).
Definition inboxGrows (db db' : PDb) : Prop :=
  forall k x, inbox db !! k = Some x -> exists x', inbox db' !! k = Some x' /\ x_hash x' = x_hash x /\
    (inboxFinal (x_state x) = true -> x_state x' = x_state x).
Definition grows (db db' : PDb) : Prop := opsGrow db db' /\ inboxGrows db db'.

Lemma grows_hasOp db db' i t : grows db db' -> hasOp db i t -> hasOp db' i t.
Proof.
  intros [Hg _] (k & r & Hk & Hs). destruct (Hg k r Hk) as (r' & Hk' & (Hi & Ht & _) & Hst).
  exists k, r'. split; [done|]. unfold succeeded in *. rewrite !andb_true_iff, !bool_decide_eq_true in *.
  rewrite Hi, Ht. naive_solver.
Qed.

Lemma grows_holds db db' f : grows db db' -> holds db f -> holds db' f.
Proof.
  intros Hgr. pose proof Hgr as [Hg Hx]. destruct f as [i t|k i t|c|k h s]; simpl; [by apply grows_hasOp| | |].
  - intros (r & Hk & Hi & Ht). destruct (Hg k r Hk) as (r' & ? & (Hi' & Ht' & _) & _). exists r'. split; [done|]. split; congruence.
  - intros (r & Hk & Hc). destruct (Hg _ r Hk) as (r' & ? & (E1 & E2 & E3 & E4 & E5 & E6) & _). exists r'. split; [done|].
    rewrite E1, E2, E3, E4, E5, E6. done.
  - intros (x & Hk & Hh & Hs & Hfin). destruct (Hx _ x Hk) as (x' & ? & Hh' & Hs'). exists x'. split; [done|]. split; [congruence|].
    rewrite Hs', Hs by congruence. done.
Qed.

Lemma grows_intentNeeds db db' k s : grows db db' -> intentNeeds db k s -> intentNeeds db' k s.
Proof. intros Hg. destruct s; simpl; try done; try apply (grows_hasOp _ _ _ _ Hg); intuition eauto using grows_hasOp. Qed.

Lemma grows_sagaNeeds db db' i s p : grows db db' -> sagaNeeds db i s p -> sagaNeeds db' i s p.
Proof. intros Hg. destruct s, p; simpl; try done; try apply (grows_hasOp _ _ _ _ Hg); intuition eauto using grows_hasOp. Qed.

Lemma opsGrow_same db db' : ops db' = ops db -> opsGrow db db'.
Proof. intros E k r Hk. rewrite E. exists r. repeat split; auto. Qed.
Lemma inboxGrows_same db db' : inbox db' = inbox db -> inboxGrows db db'.
Proof. intros E k x Hk. rewrite E. by exists x. Qed.
Lemma grows_same db db' : ops db' = ops db -> inbox db' = inbox db -> grows db db'.
Proof. intros. split; [by apply opsGrow_same|by apply inboxGrows_same]. Qed.

Lemma hasOp_same db db' i t : ops db' = ops db -> hasOp db' i t <-> hasOp db i t.
Proof. unfold hasOp. intros ->. done. Qed.

Lemma moneyKeyOk_same db db' r :
  (forall k i, intents db !! k = Some i -> exists i', intents db' !! k = Some i' /\ i_provider i' = i_provider i /\ i_amount i' = i_amount i /\ i_currency i' = i_currency i) ->
  moneyKeyOk db r = true -> moneyKeyOk db' r = true.
Proof.
  intros Hi. unfold moneyKeyOk. destruct (intents db !! o_intent r) as [i|] eqn:E; [|done].
  destruct (Hi _ _ E) as (i' & -> & -> & -> & ->). done.
Qed.

(** Facts of two databases with the same intents, sagas and operations. *)
Lemma Facts_same fs db db' :
  intents db' = intents db -> sagas db' = sagas db -> ops db' = ops db -> inboxGrows db db' -> Facts fs db -> Facts fs db'.
Proof.
  intros Ei Es Eo Hin [[[Hi Hs] [Hm Hc Ho Hx Hr]] Hf]. pose proof (conj (opsGrow_same _ _ Eo) Hin) as Hg. split.
  - split; split.
    + intros k r. rewrite Ei. intros Hk. eapply grows_intentNeeds; eauto.
    + intros k s. rewrite Es. intros Hk. eapply grows_sagaNeeds; eauto.
    + intros k r. rewrite Eo. intros Hk. unfold moneyKeyOk. rewrite Ei. by apply (Hm k).
    + rewrite Eo. done.
    + rewrite Eo. done.
    + intros i. rewrite !(hasOp_same _ _ _ _ Eo). apply Hx.
    + intros i. rewrite !(hasOp_same _ _ _ _ Eo). apply Hr.
  - eapply Forall_impl; [exact Hf|]. intros f. by apply grows_holds.
Qed.

(** ** Rules for the statements *)
Lemma updIntents_facts fs p f db n db' :
  (forall k r, intents db !! k = Some r -> p k r = true ->
     intentNeeds db k (i_state (f r)) /\ i_provider (f r) = i_provider r /\ i_amount (f r) = i_amount r /\ i_currency (f r) = i_currency r) ->
  Facts fs db -> updIntents p f db = Ok (n, db') -> Facts fs db'.
Proof.
  intros Hneed [[[Hi Hs] [Hm Hc Ho Hx Hr]] Hf] Hu. unfold updIntents in Hu. inv_ok. subst n db'. simpl.
  set (db' := setIntents db _). assert (Hg : grows db db') by by apply grows_same.
  assert (Eo : ops db' = ops db) by done.
  split; [split; split|].
  - intros k r' (r & Hk & ->)%lookup_updWhere_Some. apply (grows_intentNeeds _ _ _ _ Hg).
    destruct (p k r) eqn:Hp; [by apply Hneed|by eapply Hi].
  - intros k s Hk. eapply grows_sagaNeeds; eauto.
  - intros k r Hk. eapply moneyKeyOk_same; [|by apply (Hm k)]. intros k' i Hk'. unfold db'. simpl. rewrite lookup_updWhere, Hk'. simpl.
    eexists. split; [done|]. destruct (p k' i) eqn:Hp; [|done]. by apply (Hneed k' i).
  - exact Hc.
  - exact Ho.
  - intros i. rewrite !(hasOp_same _ _ _ _ Eo). apply Hx.
  - intros i. rewrite !(hasOp_same _ _ _ _ Eo). apply Hr.
  - eapply Forall_impl; [exact Hf|]. intros g. by apply grows_holds.
Qed.

Lemma updSagas_facts fs clk p f db n db' :
  (forall k s, sagas db !! k = Some s -> p k s = true -> sagaNeeds db (s_intent (f s)) (s_state (f s)) (s_step (f s))) ->
  Facts fs db -> updSagas clk p f db = Ok (n, db') -> Facts fs db'.
Proof.
  intros Hneed [[[Hi Hs] [Hm Hc Ho Hx Hr]] Hf] Hu. unfold updSagas in Hu. inv_ok. subst n db'. simpl.
  set (db' := setSagas db _). assert (Hg : grows db db') by by apply grows_same.
  assert (Eo : ops db' = ops db) by done.
  split; [split; split|]; try done.
  - intros k s' (s & Hk & ->)%lookup_updWhere_Some. apply (grows_sagaNeeds _ _ _ _ _ Hg).
    destruct (p k s) eqn:Hp; [by eapply Hneed|by eapply Hs].
Qed.

(** An operation update keeps the identity columns, and at most one row of it
    becomes successful. *)
Definition oneSuccess (p : uuid -> OpRow -> bool) (f : OpRow -> OpRow) : Prop :=
  exists k0, forall k r, p k r = true -> o_state (f r) = Succeeded -> k = k0.

Lemma opGuard_true db r r' :
  opGuard db r r' = true ->
  edgeOk opEdges (o_state r) (o_state r') = true /\ opCheck r' = true /\
  (o_state r' = Succeeded -> o_state r = Succeeded \/ settlementOk db r' = true).
Proof.
  unfold opGuard. rewrite !andb_true_iff. intros [[[[_ He] _] Hs] Hc]. split; [done|]. split; [done|]. intros Hn.
  rewrite !orb_true_iff, negb_true_iff, bool_decide_eq_false, bool_decide_eq_true in Hs. destruct Hs as [[Hs|Hs]|Hs]; [done|by left|by right].
Qed.

Lemma edge_succeeded s : edgeOk opEdges Succeeded s = true -> s = Succeeded.
Proof.
  unfold edgeOk. rewrite orb_true_iff, !bool_decide_eq_true. intros [<-|Hin]; [done|]. by apply elem_of_nil in Hin.
Qed.

Lemma succeeded_spec i t r : succeeded i t r = true <-> o_intent r = i /\ o_type r = t /\ o_state r = Succeeded.
Proof. unfold succeeded. rewrite !andb_true_iff, !bool_decide_eq_true. naive_solver. Qed.

Section UpdOps.
Context (clk : Z) (p : uuid -> OpRow -> bool) (f : OpRow -> OpRow) (db db' : PDb) (n : nat).
Context (Hsame : forall r, sameOp r (f r)) (Hone : oneSuccess p f) (Hu : updOps clk p f db = Ok (n, db')).

Lemma updOps_inv :
  intents db' = intents db /\ sagas db' = sagas db /\ n = countWhere p (ops db) /\
  (forall k r', ops db' !! k = Some r' -> exists r, ops db !! k = Some r /\ sameOp r r' /\
     (r' = r \/ p k r = true /\ r' = opTouch clk (f r) /\ opGuard db r (f r) = true)) /\
  (forall k r, ops db !! k = Some r -> exists r', ops db' !! k = Some r' /\ r' = if p k r then opTouch clk (f r) else r).
Proof.
  pose proof Hu as Hu'. unfold updOps in Hu'. inv_ok. subst n db'. simpl. repeat split.
  - intros k r' (r & Hk & ->)%lookup_updWhere_Some. exists r. split; [done|].
    destruct (p k r) eqn:Hp; [|by split; [repeat split|left]]. split; [apply Hsame|]. right. repeat split.
    match goal with Hc : negb (checkWhere _ _ _) = false |- _ => apply negb_false_iff in Hc; by apply (checkWhere_true _ _ _ Hc k r) end.
  - intros k r Hk. rewrite lookup_updWhere, Hk. simpl. eauto.
Qed.

Lemma updOps_grows : grows db db'.
Proof.
  split; [|apply inboxGrows_same; pose proof Hu as Hu'; unfold updOps in Hu'; inv_ok; by subst db'].
  destruct updOps_inv as (_ & _ & _ & Hback & Hfwd). intros k r Hk. destruct (Hfwd k r Hk) as (r' & Hk' & E).
  destruct (Hback k r' Hk') as (r0 & Hk0 & Hs & Hcase). assert (r0 = r) as -> by congruence.
  exists r'. split; [done|]. split; [done|]. intros Hsucc. destruct Hcase as [->|(_ & -> & Hg)]; [done|].
  apply opGuard_true in Hg as (He & _). rewrite Hsucc in He. by apply edge_succeeded in He.
Qed.

(** A success after the update was one before, or is the one new success and
    passed the settlement guard. *)
Lemma updOps_success i t : hasOp db' i t -> hasOp db i t \/
  exists k0 r0, (forall k r, p k r = true -> o_state (f r) = Succeeded -> k = k0) /\ ops db !! k0 = Some r0 /\
    o_intent r0 = i /\ o_type r0 = t /\ settlementOk db (f r0) = true /\ p k0 r0 = true /\ o_state (f r0) = Succeeded.
Proof.
  intros (k & r' & Hk & Hs). apply succeeded_spec in Hs as (Hi & Ht & Hst).
  destruct updOps_inv as (_ & _ & _ & Hback & _). destruct (Hback k r' Hk) as (r & Hr & (Hi' & Ht' & _) & Hcase).
  destruct Hcase as [->|(Hp & -> & Hg)].
  { left. exists k, r. split; [done|]. by apply succeeded_spec. }
  apply opGuard_true in Hg as (He & _ & Hset). destruct (Hset Hst) as [Hold|Hok].
  - left. exists k, r. split; [done|]. apply succeeded_spec. by rewrite <- Hi', <- Ht'.
  - right. destruct Hone as [k0 Hk0]. exists k, r. pose proof (Hk0 k r Hp Hst) as ->. repeat split; try done; congruence.
Qed.

Lemma updOps_facts fs : Facts fs db -> Facts fs db'.
Proof.
  intros [[[Hi Hs] [Hm Hc Ho Hx Hr]] Hf]. pose proof updOps_grows as Hg.
  destruct updOps_inv as (Ei & Es & _ & Hback & _).
  assert (Hset : forall i t (k : uuid) r, o_intent (f r) = i -> settlementOk db (f r) = true -> o_type (f r) = t ->
    match t with OperationRefund => hasOp db i OperationCapture | OperationCapture => ~ hasOp db i OperationVoid
    | OperationVoid => ~ hasOp db i OperationCapture | _ => True end).
  { intros i t k r Hii Hok Ht. unfold settlementOk in Hok. rewrite Ht in Hok. rewrite Hii in Hok. destruct t; try done.
    - apply negb_true_iff in Hok. rewrite existsOp_false in Hok. intros (k1 & r1 & H1 & H2). by rewrite (Hok _ _ H1) in H2.
    - apply negb_true_iff in Hok. rewrite existsOp_false in Hok. intros (k1 & r1 & H1 & H2). by rewrite (Hok _ _ H1) in H2.
    - apply existsOp_true in Hok as (k1 & r1 & H1 & H2). rewrite !andb_true_iff in H2. exists k1, r1. tauto. }
  split; [split; split|].
  - intros k r. rewrite Ei. intros Hk. eapply grows_intentNeeds; eauto.
  - intros k s. rewrite Es. intros Hk. eapply grows_sagaNeeds; eauto.
  - intros k r' Hk. destruct (Hback k r' Hk) as (r & Hk0 & (E1 & _ & E2 & E3 & E4 & _) & _). pose proof (Hm k r Hk0) as Hmk.
    unfold moneyKeyOk in *. by rewrite Ei, E1, E2, E3, E4.
  - intros k r' Hk. destruct (Hback k r' Hk) as (r & Hk0 & _ & [->|(_ & -> & Hgd)]); [by eapply Hc|].
    by apply opGuard_true in Hgd as (_ & ? & _).
  - intros k1 k2 r1 r2 H1 H2. destruct (Hback _ _ H1) as (r1' & H1' & (E1 & E2 & _) & _).
    destruct (Hback _ _ H2) as (r2' & H2' & (E3 & E4 & _) & _). rewrite E1, E2, E3, E4. by apply Ho.
  - intros i Hcap Hvoid. destruct (updOps_success _ _ Hcap) as [Hc0|(kc & rc & Hk1 & Hc1 & Hic & Htc & Hsc & Hpc & Hss)].
    + destruct (updOps_success _ _ Hvoid) as [Hv0|(kv & rv & _ & Hv1 & Hiv & Htv & Hsv & _)]; [by apply (Hx i)|].
      destruct (Hsame rv) as (E1 & E2 & _). rewrite <- E1 in Hiv. rewrite <- E2 in Htv. by apply (Hset i OperationVoid kv rv).
    + destruct (updOps_success _ _ Hvoid) as [Hv0|(kv & rv & Hk2 & Hv1 & Hiv & Htv & Hsv & Hpv & Hsv')].
      * destruct (Hsame rc) as (E1 & E2 & _). rewrite <- E1 in Hic. rewrite <- E2 in Htc. by apply (Hset i OperationCapture kc rc).
      * pose proof (Hk1 kv rv Hpv Hsv') as ->. congruence.
  - intros i Href. destruct (updOps_success _ _ Href) as [H0|(k & r & _ & Hk & Hri & Hrt & Hok & _)].
    + apply (grows_hasOp _ _ _ _ Hg). by apply Hr.
    + destruct (Hsame r) as (E1 & E2 & _). rewrite <- E1 in Hri. rewrite <- E2 in Hrt.
      apply (grows_hasOp _ _ _ _ Hg). by apply (Hset i OperationRefund k r).
  - eapply Forall_impl; [exact Hf|]. intros g. by apply grows_holds.
Qed.
End UpdOps.

(** The single-row success of an operation whose row is known. *)
Lemma updOps_done fs clk p f db db' k i t :
  (forall r, sameOp r (f r)) -> (forall k' r, p k' r = true -> k' = k) -> (forall r, o_state (f r) = Succeeded) ->
  Facts fs db -> FRow k i t ∈ fs -> updOps clk p f db = Ok (1%nat, db') -> Facts (FDone i t :: fs) db'.
Proof.
  intros Hsame Hp Hf HF Hrow Hu. assert (Hone : oneSuccess p f) by (exists k; eauto).
  pose proof (updOps_facts clk p f db db' _ Hsame Hone Hu fs HF) as [Hinv Hfs]. split; [done|]. constructor; [|done].
  destruct HF as [_ Hall]. rewrite Forall_forall in Hall. destruct (Hall _ Hrow) as (r & Hk & Hi & Ht).
  destruct (updOps_inv clk p f db db' _ Hsame Hu) as (_ & _ & Hn & _ & Hfwd).
  destruct (countWhere_1 p (ops db)) as (k' & r' & Hk' & Hpr); [done|]. pose proof (Hp _ _ Hpr) as ->.
  destruct (Hfwd _ _ Hk') as (r2 & H2 & E). rewrite Hpr in E. subst r2. exists k, (opTouch clk (f r')). split; [done|].
  apply succeeded_spec. assert (r' = r) as -> by congruence. destruct (Hsame r) as (E1 & E2 & _). simpl. by rewrite E1, E2, Hf.
Qed.

Lemma opCheck_newOp clk i p t k a c : opCheck (newOp clk i p t k a c) = true.
Proof. done. Qed.

Lemma opConflict_false db k r :
  opConflict db k r = false ->
  ops db !! k = None /\
  forall k' r', ops db !! k' = Some r' -> financialType (o_type r) = true -> o_intent r' = o_intent r -> o_type r' <> o_type r.
Proof.
  unfold opConflict. rewrite orb_false_iff, bool_decide_eq_false. intros [Hk Hex]. split; [by apply eq_None_not_Some|].
  rewrite existsOp_false in Hex. intros k' r' Hk' Hf Hi Ht. specialize (Hex _ _ Hk').
  apply orb_false_iff in Hex as [_ Hex]. rewrite Hf, Hi, Ht in Hex. by rewrite !bool_decide_true in Hex by done.
Qed.

Lemma insOp_facts fs k r db n db' :
  o_state r <> Succeeded -> opCheck r = true -> Facts fs db -> insOp k r db = Ok (n, db') -> Facts fs db'.
Proof.
  intros Hpend Hck HF Hu. unfold insOp in Hu. destruct (opConflict db k r) eqn:Hcf; [by inv_ok; simplify_eq|].
  destruct (moneyKeyOk db r) eqn:Hmk; [|done]. simpl in Hu. inv_ok. subst n db'.
  apply opConflict_false in Hcf as [Hnone Huniq]. destruct HF as [[[Hi Hs] [Hm Hc Ho Hx Hr]] Hf].
  set (db' := setOps db _).
  assert (Hg : grows db db').
  { split; [|by apply inboxGrows_same]. intros k' r' Hk'. exists r'. split; [|by repeat split]. unfold db'. simpl. rewrite lookup_insert_ne; [done|]. congruence. }
  assert (Hback : forall i t, hasOp db' i t -> hasOp db i t).
  { intros i t (k' & r' & Hk' & Hsu). unfold db' in Hk'. simpl in Hk'. apply lookup_insert_Some in Hk' as [[<- <-]|[_ Hk']].
    - apply succeeded_spec in Hsu. naive_solver.
    - by exists k', r'. }
  split; [split; split|].
  - intros k' r' Hk'. eapply grows_intentNeeds; eauto.
  - intros k' s Hk'. eapply grows_sagaNeeds; eauto.
  - intros k' r' Hk'. unfold db' in Hk'. simpl in Hk'. apply lookup_insert_Some in Hk' as [[<- <-]|[_ Hk']]; [done|by apply (Hm k')].
  - intros k' r' Hk'. unfold db' in Hk'. simpl in Hk'. apply lookup_insert_Some in Hk' as [[<- <-]|[_ Hk']]; [done|by apply (Hc k')].
  - intros k1 k2 r1 r2 H1 H2 Hfin Hii Htt. unfold db' in H1, H2. simpl in H1, H2.
    apply lookup_insert_Some in H1 as [[<- <-]|[_ H1]], H2 as [[<- <-]|[_ H2]]; try done.
    + exfalso. by apply (Huniq _ _ H2).
    + exfalso. apply (Huniq _ _ H1); congruence.
    + eauto.
  - eauto.
  - intros i Href. apply (grows_hasOp _ _ _ _ Hg). auto.
  - eapply Forall_impl; [exact Hf|]. intros g. by apply grows_holds.
Qed.

(** ** Transactions *)

(** From [db], with the facts [fs], the computation commits with [fs']. *)
Definition adds_at {E A} (fs : list Fact) (db : PDb) (m : PM E A) (fs' : list Fact) : Prop :=
  forall a db', Facts fs db -> m db = Ok (a, db') -> Facts fs' db'.
Definition adds {E A} (fs : list Fact) (m : PM E A) (fs' : list Fact) : Prop := forall db, adds_at fs db m fs'.
Definition stmtKeeps (fs : list Fact) (s : Stmt) : Prop := forall db n db', Facts fs db -> s db = Ok (n, db') -> Facts fs db'.

Lemma adds_at_of {E A} fs (m : PM E A) fs' db : adds fs m fs' -> adds_at fs db m fs'.
Proof. intros Ha. apply Ha. Qed.

Lemma adds_ret {E A} fs db (a : A) : adds_at fs db (mret (M := PM E) a) fs.
Proof. intros a' db' HF [= <- <-]. done. Qed.

Lemma adds_throw {E A} fs db (e : E) fs' : adds_at fs db (throw (A := A) e) fs'.
Proof. intros a db' _ H. discriminate H. Qed.

Lemma adds_bind {E A B} fs db (m : PM E A) (k : A -> PM E B) fs1 fs2 :
  adds_at fs db m fs1 -> (forall a, adds fs1 (k a) fs2) -> adds_at fs db (m ≫= k) fs2.
Proof.
  intros Hm Hk b db2 HF H. unfold mbind, PM_bind in H. destruct (m db) as [[a db1]|] eqn:E1; [|done].
  eapply Hk; [|exact H]. by eapply Hm.
Qed.

Lemma adds_getDb {E B} fs db (k : PDb -> PM E B) fs' : adds_at fs db (k db) fs' -> adds_at fs db (getDb ≫= k) fs'.
Proof. intros Hk b db' HF H. by eapply Hk. Qed.

Lemma adds_learn {E A} g fs db (m : PM E A) fs' :
  (Facts fs db -> holds db g) -> adds_at (g :: fs) db m fs' -> adds_at fs db m fs'.
Proof. intros Hg Hm a db' HF H. eapply Hm; [|exact H]. split; [by destruct HF|]. constructor; [auto|by destruct HF]. Qed.

Lemma Facts_sub fs fs' db : fs' ⊆ fs -> Facts fs db -> Facts fs' db.
Proof. intros Hsub [Hi Hf]. split; [done|]. rewrite Forall_forall in *. auto. Qed.

Lemma adds_weaken {E A} fs db (m : PM E A) fs1 fs2 : fs2 ⊆ fs1 -> adds_at fs db m fs1 -> adds_at fs db m fs2.
Proof. intros Hsub Hm a db' HF H. eapply Facts_sub; [done|]. by eapply Hm. Qed.

Lemma adds_exec {E} fs db (e : SqlErr -> E) s : stmtKeeps fs s -> adds_at fs db (exec e s) fs.
Proof.
  intros Hs n db' HF H. unfold exec in H. destruct (s db) as [[n' db1]|] eqn:E1; [|done]. injection H as _ <-. by eapply Hs.
Qed.

Lemma adds_lift {E A} fs db (r : res E A) : adds_at fs db (lift r) fs.
Proof. intros a db' HF H. destruct r; [|done]. injection H as _ <-. done. Qed.

(** One row or an error: the shape of oneRow and of its variants. *)
Lemma adds_row {E} fs db (e : SqlErr -> E) (e' : E) s fs' :
  (forall db db', Facts fs db -> s db = Ok (1%nat, db') -> Facts fs' db') ->
  adds_at fs db (n ← exec e s; if (n =? 1)%nat then mret tt else throw e') fs'.
Proof.
  intros Hs a db' HF H. unfold mbind, PM_bind, exec in H. destruct (s db) as [[n db1]|] eqn:E1; [|done].
  destruct (n =? 1)%nat eqn:En; [|done]. apply Nat.eqb_eq in En as ->. injection H as _ <-. by eapply Hs.
Qed.

Lemma adds_oneRow fs db s : stmtKeeps fs s -> adds_at fs db (oneRow s) fs.
Proof. intros Hs. apply adds_row. intros. by eapply Hs. Qed.
Lemma adds_anyRows fs db s : stmtKeeps fs s -> adds_at fs db (anyRows s) fs.
Proof. intros Hs. eapply adds_bind; [by apply adds_exec|]. intros a db1. apply adds_ret. Qed.
Lemma adds_rawRows fs db s : stmtKeeps fs s -> adds_at fs db (rawRows s) fs.
Proof. intros Hs. eapply adds_bind; [by apply adds_exec|]. intros a db1. apply adds_ret. Qed.

Lemma stmt_same fs s :
  (forall db n db', s db = Ok (n, db') -> intents db' = intents db /\ sagas db' = sagas db /\ ops db' = ops db /\ inbox db' = inbox db) ->
  stmtKeeps fs s.
Proof. intros Hs db n db' HF H. destruct (Hs _ _ _ H) as (? & ? & ? & ?). by apply (Facts_same fs db); [..|apply inboxGrows_same|]. Qed.

Lemma edge_final s s' : inboxFinal s = true -> edgeOk inboxEdges s s' = true -> s' = s.
Proof.
  unfold edgeOk. rewrite orb_true_iff, !bool_decide_eq_true. intros Hf [<-|Hin]; [done|]. destruct s; try done; by apply elem_of_nil in Hin.
Qed.

Lemma stmt_updInbox fs p f : (forall x, x_hash (f x) = x_hash x) -> stmtKeeps fs (updInbox p f).
Proof.
  intros Hh db n db' HF H. unfold updInbox in H. inv_ok. subst n db'. apply (Facts_same fs db); try done.
  intros k x Hk. simpl. rewrite lookup_updWhere, Hk. simpl. eexists. split; [done|]. destruct (p k x) eqn:Hp; [|done].
  split; [apply Hh|]. intros Hfin. match goal with Hc : negb (checkWhere _ _ _) = false |- _ => apply negb_false_iff in Hc;
    pose proof (checkWhere_true _ _ _ Hc k x Hk Hp) as Hg end.
  unfold inboxGuard in Hg. apply andb_true_iff in Hg as [Hg _]. by apply edge_final in Hg.
Qed.

Lemma stmt_updIntents fs p f :
  (forall db k r, Facts fs db -> intents db !! k = Some r -> p k r = true ->
     intentNeeds db k (i_state (f r)) /\ i_provider (f r) = i_provider r /\ i_amount (f r) = i_amount r /\ i_currency (f r) = i_currency r) ->
  stmtKeeps fs (updIntents p f).
Proof. intros Hn db n db' HF H. eapply updIntents_facts; [|done|done]. eauto. Qed.

Lemma stmt_updSagas fs clk p f :
  (forall db k s, Facts fs db -> sagas db !! k = Some s -> p k s = true -> sagaNeeds db (s_intent (f s)) (s_state (f s)) (s_step (f s))) ->
  stmtKeeps fs (updSagas clk p f).
Proof. intros Hn db n db' HF H. eapply updSagas_facts; [|done|done]. eauto. Qed.

Lemma stmt_updOps fs clk p f : (forall r, sameOp r (f r)) -> oneSuccess p f -> stmtKeeps fs (updOps clk p f).
Proof. intros Hs Ho db n db' HF H. eapply updOps_facts; eauto. Qed.

Lemma stmt_insOp fs k clk i p t key a c : stmtKeeps fs (insOp k (newOp clk i p t key a c)).
Proof. intros db n db' HF H. eapply insOp_facts; [| |done|done]; [by simpl|apply opCheck_newOp]. Qed.

Lemma stmt_insReview fs k r : stmtKeeps fs (insReview k r).
Proof. apply stmt_same. intros db n db' H. unfold insReview in H. repeat case_match; inv_ok; simplify_eq; done. Qed.
Lemma stmt_insOrder fs k r : stmtKeeps fs (insOrder k r).
Proof. apply stmt_same. intros db n db' H. unfold insOrder in H. repeat case_match; inv_ok; simplify_eq; done. Qed.
Lemma stmt_insTicket fs k r : stmtKeeps fs (insTicket k r).
Proof. apply stmt_same. intros db n db' H. unfold insTicket in H. repeat case_match; inv_ok; simplify_eq; done. Qed.
Lemma stmt_insCode fs k r : stmtKeeps fs (insCode k r).
Proof. apply stmt_same. intros db n db' H. unfold insCode in H. repeat case_match; inv_ok; simplify_eq; done. Qed.
Lemma stmt_cancelOrder fs a b c : stmtKeeps fs (cancelOrder a b c).
Proof. apply stmt_same. intros db n db' H. unfold cancelOrder in H. repeat case_match; inv_ok; simplify_eq; done. Qed.

Create HintDb pay discriminated.
#[export] Hint Resolve stmt_insOp stmt_insReview stmt_insOrder stmt_insTicket stmt_insCode stmt_cancelOrder : pay.
#[export] Hint Resolve adds_ret adds_throw adds_lift : pay.
