(* ===== verification/PaymentSafety.v ===== *)
(** * Payment safety

    Every control-plane transaction of the payment services and of the worker
    keeps the invariant of [PaymentLogic]; a history of such transactions, in
    any interleaving, therefore never records a settlement that did not
    succeed, and the worker's shard actions carry the proof they rest on. *)

From S2P Require Import Prelude PaymentDomain PaymentDb PaymentClaims PaymentFinalize PaymentControl PaymentWorker PaymentLogic.

(** ** Symbolic execution of transactions *)
Ltac bools := cbv beta in *; repeat match goal with
  | H : _ && _ = true |- _ => apply andb_true_iff in H as [? ?]
  | H : bool_decide _ = true |- _ => apply bool_decide_eq_true in H
  end.
Ltac facts := repeat match goal with
  | H : Forall (holds _) (_ :: _) |- _ => apply Forall_cons in H as [? H]
  end.
(** A state that a statement moves to has the operations it needs: they are
    needed by the state it leaves, or are among the facts. *)
Ltac settle := simpl in *; facts; simpl in *; try tauto.
Ltac intent_stmt :=
  apply stmt_updIntents; intros ? ? ? [[[?Hi _] _] ?Hf] ?Hk ?Hp; bools; subst; split; [|by repeat split];
  pose proof (Hi _ _ Hk) as ?Hn; simpl in *;
  repeat match goal with H : i_state _ = _ |- _ => rewrite H in *; clear H end; settle.
Ltac saga_stmt :=
  apply stmt_updSagas; intros ? ? ? [[[_ ?Hs] _] ?Hf] ?Hk ?Hp; bools; subst;
  pose proof (Hs _ _ Hk) as ?Hn; simpl in *;
  repeat match goal with
  | H : s_state _ = _ |- _ => rewrite H in *; clear H
  | H : s_step _ = _ |- _ => rewrite H in *; clear H
  | H : s_intent _ = _ |- _ => rewrite H in *; clear H
  end; settle.
Ltac op_stmt :=
  apply stmt_updOps; [intros ?; repeat case_match; by repeat split|exists 0%N; intros ? ? ? ?; repeat case_match; by simplify_eq/=].
Ltac pay_stmt :=
  unfold moveIntent, moveSaga, moveOp; first [solve [auto with pay] | solve [op_stmt] | solve [apply stmt_updInbox; done] | intent_stmt | saga_stmt].
Ltac pay_step :=
  match goal with
  | |- adds _ _ _ => intros ?db
  | |- adds_at _ _ (getDb ≫= _) _ => apply adds_getDb
  | |- adds_at _ _ (_ ≫= _) _ => eapply adds_bind; [|intros ?]
  | |- adds_at _ _ (mret _) _ => apply adds_ret
  | |- adds_at _ _ (throw _) _ => apply adds_throw
  | |- adds_at _ _ (lift _) _ => apply adds_lift
  | |- adds_at _ _ (oneRow _) _ => apply adds_oneRow
  | |- adds_at _ _ (anyRows _) _ => apply adds_anyRows
  | |- adds_at _ _ (rawRows _) _ => apply adds_rawRows
  | |- adds_at _ _ (exec _ _) _ => apply adds_exec
  | |- stmtKeeps _ _ => pay_stmt
  | |- adds_at _ _ (match ?x with _ => _ end) _ => destruct x eqn:?
  | |- adds_at _ _ (let _ := _ in _) _ => cbv zeta
  end.
Ltac pay := repeat (pay_step; cbv beta iota zeta).

Section Keeps.
Context {hashing : Hashing}.
Implicit Types fs : list Fact.

Lemma insertOperation_keeps fs clk i p k a c : adds fs (insertOperation clk i p k a c) fs.
Proof. unfold insertOperation. pay. Qed.
Lemma insertReview_keeps fs clk i o x c : adds fs (insertReview clk i o x c) fs.
Proof. unfold insertReview. pay. Qed.
Lemma releaseSagaLease_keeps fs clk i o : adds fs (releaseSagaLease clk i o) fs.
Proof. unfold releaseSagaLease. pay. Qed.
Lemma BeginOperation_keeps fs clk c : adds fs (BeginOperation clk c) fs.
Proof. unfold BeginOperation. pay. Qed.

(** *** Claims *)
Lemma recoverOp_same now r : sameOp r (recoverOp now r).
Proof. unfold recoverOp. case_match; by repeat split. Qed.
Lemma recoverOp_state now r : o_state (recoverOp now r) <> Succeeded.
Proof. unfold recoverOp. by case_match. Qed.

Lemma recover_stmt fs clk p now : stmtKeeps fs (updOps clk p (recoverOp now)).
Proof. apply stmt_updOps; [apply recoverOp_same|]. exists 0%N. intros k r _ E. by apply recoverOp_state in E. Qed.
#[local] Hint Resolve recover_stmt : pay.

Lemma ClaimOperations_keeps fs o clk : adds fs (ClaimOperations o clk) fs.
Proof. unfold ClaimOperations, claimPending, claimUncertain. pay. Qed.
Lemma ClaimWebhooks_keeps fs o : adds fs (ClaimWebhooks o) fs.
Proof. unfold ClaimWebhooks. pay. Qed.
Lemma ClaimActions_keeps fs o clk : adds fs (ClaimActions o clk) fs.
Proof. unfold ClaimActions. pay. Qed.

(** *** Failures *)
Lemma finalizeOperationFailure_keeps fs clk c current next f :
  next <> Succeeded -> adds fs (finalizeOperationFailure clk c current next f) fs.
Proof. intros Hn. unfold finalizeOperationFailure. pay. Qed.

Lemma FailOperation_keeps fs clk c f : adds fs (FailOperation clk c f) fs.
Proof.
  unfold FailOperation. pay; try apply finalizeOperationFailure_keeps; try (by repeat case_match); try apply insertReview_keeps;
    try apply releaseSagaLease_keeps.
Qed.

(** *** Confirmations *)

(** The row of an operation and its state, besides the facts. *)
Definition RowIn (fs : list Fact) (k : uuid) (s : OperationState) (db : PDb) : Prop :=
  Facts fs db /\ exists r, ops db !! k = Some r /\ o_state r = s.

Lemma anyRows_Ok st db db' u : anyRows st db = Ok (u, db') -> exists n, st db = Ok (n, db').
Proof.
  unfold anyRows, mbind, PM_bind, exec. destruct (st db) as [[n db1]|]; [|done]. intros [= _ <-]. eauto.
Qed.

Lemma anyRows_row fs k s s' clk p f db db' u :
  (forall r, sameOp r (f r)) -> (forall k' r, p k' r = true -> k' = k) -> (forall r, o_state r = s -> p k r = true) ->
  (forall r, o_state (f r) = s') -> RowIn fs k s db -> anyRows (updOps clk p f) db = Ok (u, db') -> RowIn fs k s' db'.
Proof.
  intros Hsame Hk Hp Hf [HF (r & Hr & Hs)] Hm. apply anyRows_Ok in Hm as [n Hu].
  assert (Hone : oneSuccess p f) by (exists k; eauto).
  split; [by apply (updOps_facts clk p f db db' n)|].
  destruct (updOps_inv clk p f db db' n Hsame Hu) as (_ & _ & _ & _ & Hfwd). destruct (Hfwd k r Hr) as (r' & Hr' & ->).
  rewrite Hp in Hr' by done. eexists. split; [exact Hr'|]. apply Hf.
Qed.

Lemma RowIn_done fs k i t db : FRow k i t ∈ fs -> RowIn fs k Succeeded db -> Facts (FDone i t :: fs) db.
Proof.
  intros Hin [[Hinv Hf] (r & Hr & Hs)]. split; [done|]. constructor; [|done].
  rewrite Forall_forall in Hf. destruct (Hf _ Hin) as (r' & Hr' & Hi & Ht). assert (r' = r) as -> by congruence.
  exists k, r. split; [done|]. by apply succeeded_spec.
Qed.

Lemma bind_inv {E A B} (m : PM E A) (k : A -> PM E B) db b db2 :
  (m ≫= k) db = Ok (b, db2) -> exists a db1, m db = Ok (a, db1) /\ k a db1 = Ok (b, db2).
Proof. unfold mbind, PM_bind. destruct (m db) as [[a db1]|]; [|done]. eauto. Qed.

Lemma opOfType_Some db i t k r : opOfType db i t = Some (k, r) -> ops db !! k = Some r /\ o_intent r = i /\ o_type r = t.
Proof.
  unfold opOfType. intros H. apply head_filter_Some in H as [[Hi Ht] Hin]. by apply elem_of_map_to_list in Hin.
Qed.

Ltac row_step Hm :=
  unfold moveOp in Hm; eapply anyRows_row; [| | | |eassumption|exact Hm];
  [by repeat split|by intros ? ? ?; bools|let E := fresh in intros ? E; cbv beta; rewrite E; by rewrite !bool_decide_true by done|done].

Section Confirm.
Context (fs : list Fact) (clk : Z) (k i : uuid) (kind : OperationType) (st : Status).
Lemma confirmFinish_row s db db' u :
  s = InFlight \/ s = Uncertain -> RowIn fs k s db -> confirmFinish clk k i kind st db = Ok (u, db') -> RowIn fs k Succeeded db'.
Proof.
  intros Hs HR H. eapply anyRows_row; [| | | |exact HR|exact H]; [by repeat split|by intros ? ? ?; bools| |done].
  intros r E. cbv beta. rewrite E, bool_decide_true by done. by destruct Hs as [->| ->].
Qed.
Lemma confirmBegin_row db db' u :
  RowIn fs k Claimed db -> confirmBegin clk k i kind st db = Ok (u, db') -> RowIn fs k Succeeded db'.
Proof.
  intros HR H. apply bind_inv in H as (? & d & Hm & H). eapply confirmFinish_row; [by left| |exact H].
  row_step Hm.
Qed.
Lemma confirmClaim_row db db' u :
  RowIn fs k Pending db -> confirmClaim clk k i kind st db = Ok (u, db') -> RowIn fs k Succeeded db'.
Proof.
  intros HR H. apply bind_inv in H as (? & d & Hm & H). eapply confirmBegin_row; [|exact H].
  row_step Hm.
Qed.
End Confirm.

(** After a confirmation the operation has succeeded. *)
Lemma confirmOperation_done fs clk i p kind a c st :
  adds fs (confirmOperation clk i p kind a c st) (FDone i kind :: fs).
Proof.
  unfold confirmOperation. intros db. eapply adds_bind; [apply insertOperation_keeps|]. intros _ db1. apply adds_getDb.
  destruct (opOfType db1 i kind) as [[k r]|] eqn:Hrow; [|apply adds_throw].
  apply opOfType_Some in Hrow as (Hr & Hi & Ht). apply (adds_learn (FRow k i kind)); [intros _; by exists r|].
  intros u db2 HF H. eapply (Facts_sub (FDone i kind :: FRow k i kind :: fs)); [set_solver|].
  apply (RowIn_done _ k); [set_solver|].
  assert (HR : RowIn (FRow k i kind :: fs) k (o_state r) db1) by (split; [done|by exists r]).
  destruct (o_state r); try done; eauto using confirmClaim_row, confirmBegin_row, confirmFinish_row.
  - by injection H as _ <-.
  - apply bind_inv in H as (? & d & Hm & H). eapply confirmClaim_row; [|exact H]. row_step Hm.
Qed.

Lemma convergeCapturedCancellation_keeps fs clk i p a c o : adds fs (convergeCapturedCancellation clk i p a c o) fs.
Proof.
  intros db. unfold convergeCapturedCancellation. eapply adds_bind; [apply confirmOperation_done|]. intros _ db1.
  eapply (adds_weaken _ _ _ (FDone i OperationCapture :: fs)); [set_solver|].
  pay. apply insertOperation_keeps.
Qed.

(** *** Successful operations *)
Lemma applyOperationSuccess_keeps fs clk c e :
  FDone (oc_intent c) (oc_type c) ∈ fs -> adds fs (applyOperationSuccess clk c e) fs.
Proof.
  intros Hin db. apply (adds_learn (FDone (oc_intent c) (oc_type c))).
  { intros [_ Hf]. rewrite Forall_forall in Hf. by apply Hf. }
  eapply (adds_weaken _ _ _ (FDone (oc_intent c) (oc_type c) :: fs)); [set_solver|].
  unfold applyOperationSuccess. destruct (oc_type c) eqn:Ht; pay; try apply insertOperation_keeps.
Qed.

Lemma CompleteOperation_keeps fs clk c e :
  FRow (oc_op c) (oc_intent c) (oc_type c) ∈ fs -> adds fs (CompleteOperation clk c e) fs.
Proof.
  intros Hin db. unfold CompleteOperation. case_match; [apply adds_throw|]. cbv zeta.
  apply (adds_weaken _ _ _ (FDone (oc_intent c) (oc_type c) :: fs)); [set_solver|].
  eapply adds_bind; [|intros _ db1; apply applyOperationSuccess_keeps; left].
  case_match.
  - apply adds_getDb. eapply adds_bind; [|intros _ db1; apply releaseSagaLease_keeps].
    apply adds_row. intros d d' HF Hu.
    eapply (updOps_done fs clk); [| | |done|exact Hin|exact Hu]; [by repeat split|by intros ? ? ?; bools|done].
  - apply adds_row. intros d d' HF Hu.
    eapply (updOps_done fs clk); [| | |done|exact Hin|exact Hu]; [by repeat split|by intros ? ? ?; bools|done].
Qed.

Lemma SupersedeVoidWithRefund_keeps fs clk c e : adds fs (SupersedeVoidWithRefund clk c e) fs.
Proof. unfold SupersedeVoidWithRefund. pay. apply convergeCapturedCancellation_keeps. Qed.

(** *** Webhooks *)
Lemma advanceAuthorization_keeps fs clk i : adds fs (advanceAuthorization clk i) fs.
Proof. unfold advanceAuthorization. pay. Qed.
Lemma advanceCapture_keeps fs clk i : FDone i OperationCapture ∈ fs -> adds fs (advanceCapture clk i) fs.
Proof.
  intros Hin db. apply (adds_learn (FDone i OperationCapture)).
  { intros [_ Hf]. rewrite Forall_forall in Hf. by apply (Hf _ Hin). }
  eapply (adds_weaken _ _ _ (FDone i OperationCapture :: fs)); [set_solver|]. unfold advanceCapture. pay.
Qed.

(** A confirmation followed by the transitions it justifies. *)
Lemma confirm_then {A} fs db clk i p kind a c st (k : unit -> PM WErr A) :
  (forall u, adds (FDone i kind :: fs) (k u) (FDone i kind :: fs)) ->
  adds_at fs db (confirmOperation clk i p kind a c st ≫= k) fs.
Proof.
  intros Hk. apply (adds_weaken _ _ _ (FDone i kind :: fs)); [set_solver|].
  eapply adds_bind; [apply confirmOperation_done|apply Hk].
Qed.

Lemma applyProviderConfirmation_keeps fs clk i p st a c e : adds fs (applyProviderConfirmation clk i p st a c e) fs.
Proof.
  intros db. unfold applyProviderConfirmation. destruct (we_status e); try by auto with pay.
  - eapply adds_bind; [apply advanceAuthorization_keeps|intros _ db1; apply insertOperation_keeps].
  - repeat (case_match; [auto with pay; fail|]). case_match; [case_match; [auto with pay|]|].
    + pay. apply convergeCapturedCancellation_keeps.
    + eapply adds_bind; [apply advanceAuthorization_keeps|intros _ db1]. apply confirm_then. intros _. apply advanceCapture_keeps. by left.
  - case_match; [auto with pay|]. apply confirm_then. intros _. pay.
  - case_match; [auto with pay|]. apply confirm_then. intros _. pay.
Qed.

Lemma CompleteWebhook_keeps fs clk c e : adds fs (CompleteWebhook clk c e) fs.
Proof. unfold CompleteWebhook. pay. apply applyProviderConfirmation_keeps. Qed.
Lemma IgnoreWebhook_keeps fs clk c : adds fs (IgnoreWebhook clk c) fs.
Proof. unfold IgnoreWebhook. pay. Qed.
Lemma FailWebhook_keeps fs clk c f : adds fs (FailWebhook clk c f) fs.
Proof. unfold FailWebhook. pay; apply insertReview_keeps. Qed.

(** *** Saga actions *)
Lemma writeTickets_keeps fs o rv rn sh g ow l ids codes : adds fs (writeTickets o rv rn sh g ow l ids codes) fs.
Proof. revert ids codes. induction l as [|[t code] l IH]; intros ids codes; simpl; pay. apply IH. Qed.
Lemma writeTicketLocators_keeps fs c r : adds fs (writeTicketLocators c r) fs.
Proof. unfold writeTicketLocators. pay. apply writeTickets_keeps. Qed.
Lemma CompleteAction_keeps fs clk c e : adds fs (CompleteAction clk c e) fs.
Proof. unfold CompleteAction, moveLeasedIntent, leasedSaga. pay; try apply writeTicketLocators_keeps. Qed.
Lemma FailAction_keeps fs clk c f : adds fs (FailAction clk c f) fs.
Proof. unfold FailAction, moveLeasedIntent, leasedSaga. pay; try apply insertOperation_keeps; try apply insertReview_keeps. Qed.
Lemma claimCodes_keeps fs l : adds fs (claimCodes l) fs.
Proof. induction l as [|[t code] l IH]; simpl; pay. apply IH. Qed.
Lemma ClaimTicketCodes_keeps fs cmd ts cs : adds fs (ClaimTicketCodes cmd ts cs) fs.
Proof. unfold ClaimTicketCodes. pay. apply claimCodes_keeps. Qed.

(** *** Intents *)
Lemma stmt_insIntent fs k r : (forall db, intentNeeds db k (i_state r)) -> stmtKeeps fs (insIntent k r).
Proof.
  intros Hneed db n db' HF Hu. unfold insIntent in Hu. inv_ok. subst n db'.
  match goal with H : bool_decide (is_Some _) = false |- _ => apply bool_decide_eq_false, eq_None_not_Some in H; rename H into Hnone end.
  destruct HF as [[[Hi Hs] [Hm Hc Ho Hx Hr]] Hf]. set (db' := setIntents db _).
  assert (Hg : grows db db') by by apply grows_same.
  split; [split; split|]; try done.
  - intros k' r' Hk'. unfold db' in Hk'. simpl in Hk'. apply lookup_insert_Some in Hk' as [[<- <-]|[_ Hk']]; [apply Hneed|].
    eapply grows_intentNeeds; eauto.
  - intros k' r' Hk'. eapply moneyKeyOk_same; [|by apply (Hm k')]. intros k2 i Hk2. exists i. split; [|done].
    unfold db'. simpl. rewrite lookup_insert_ne; [done|]. congruence.
Qed.

Lemma stmt_insSaga fs k s : (forall db, sagaNeeds db (s_intent s) (s_state s) (s_step s)) -> stmtKeeps fs (insSaga k s).
Proof.
  intros Hneed db n db' HF Hu. unfold insSaga in Hu.
  assert (db' = setSagas db (<[k := s]> (sagas db))) as ->.
  { repeat (case_match; simplify_eq; try done). }
  destruct HF as [[[Hi Hs] HL] Hf]. split; [split; [split|destruct HL; by split]|]; try done.
  intros k' s' Hk'. simpl in Hk'. apply lookup_insert_Some in Hk' as [[<- <-]|[_ Hk']]; [apply Hneed|]. by apply (Hs k').
Qed.

Lemma reserveTx_keeps fs clk q : adds fs (reserveTx clk q) fs.
Proof.
  unfold reserveTx. intros db. apply adds_getDb. destruct (selectIntent _ _) as [[r fp]|]; [pay|].
  case_match; [apply adds_throw|]. case_match; [apply adds_throw|]. cbv zeta.
  destruct (insIntent _ _ db) as [[n db1]|[]] eqn:Hins; [|apply adds_ret|apply adds_throw].
  intros a db' HF Htx. eapply (adds_bind fs db1 _ _ fs fs); [| |eapply (stmt_insIntent fs); [|done|exact Hins]|exact Htx]; [|intros ?; pay|done].
  apply adds_exec, stmt_insSaga. done.
Qed.
Lemma ReserveIntent_keeps fs clk q : adds fs (ReserveIntent clk q) fs.
Proof. unfold ReserveIntent. pay. apply reserveTx_keeps. Qed.
Lemma MarkReservationSecured_keeps fs clk i c f : adds fs (MarkReservationSecured clk i c f) fs.
Proof. unfold MarkReservationSecured. pay. Qed.
Lemma FailReservationSecuring_keeps fs clk i f : adds fs (FailReservationSecuring clk i f) fs.
Proof. unfold FailReservationSecuring, deferredRow. pay. Qed.

Lemma RequestCancellation_keeps fs clk q : adds fs (RequestCancellation clk q) fs.
Proof.
  unfold RequestCancellation, conflictRow. intros db. case_match; [apply adds_throw|]. apply adds_getDb.
  destruct (selectIntent _ _) as [[r fp]|]; [|apply adds_throw].
  destruct (existsOp db (succeeded (cq_intent q) OperationCapture)) eqn:Hc; [|pay].
  apply (adds_learn (FDone (cq_intent q) OperationCapture)); [intros _; by apply existsOp_true in Hc|].
  apply (adds_weaken _ _ _ (FDone (cq_intent q) OperationCapture :: fs)); [set_solver|]. pay.
Qed.

(** *** Webhook ingress *)
Lemma stmt_insInbox fs clk h : stmtKeeps fs (insInbox clk h).
Proof.
  intros db n db' HF Hu. unfold insInbox in Hu. case_match; [done|]. case_match; [by simplify_eq|].
  destruct (bool_decide (is_Some (inbox db !! h_id h))) eqn:Hid; [done|]. apply bool_decide_eq_false, eq_None_not_Some in Hid.
  injection Hu as <- <-. apply (Facts_same fs db); try done.
  intros k x Hk. exists x. simpl. rewrite lookup_insert_ne; [done|]. congruence.
Qed.
Lemma stmt_recordConflict fs h d : stmtKeeps fs (recordConflict h d).
Proof. apply stmt_same. intros db n db' H. unfold recordConflict in H. repeat case_match; inv_ok; simplify_eq; done. Qed.
#[local] Hint Resolve stmt_insInbox stmt_recordConflict : pay.
Lemma StoreVerified_keeps fs clk h : adds fs (StoreVerified clk h) fs.
Proof. unfold StoreVerified, hookRow. pay. Qed.
End Keeps.
