(* ===== verification/PaymentHistory.v ===== *)
(** * Payment histories

    A history is a sequence of committed or rolled-back control transactions,
    by any number of API processes and workers in any interleaving.  Operation
    transactions act on claims that ClaimOperations returned earlier; evidence,
    failures, webhook and action claims are arbitrary.  The theorems say what
    holds of the tables after every history, and of the shard actions that the
    worker may then execute. *)

From S2P Require Import Prelude PaymentDomain PaymentDb PaymentClaims PaymentFinalize PaymentControl PaymentLogic PaymentSafety.

(** ** Claims copy the rows they lease *)
Section Claims.
Context {hashing : Hashing}.

Lemma exec_Ok {E} (e : SqlErr -> E) st db n db' : exec e st db = Ok (n, db') -> st db = Ok (n, db').
Proof. unfold exec. destruct (st db) as [[m d]|]; [|done]. by intros [= -> ->]. Qed.

Lemma operationClaim_fact db k r i prev a ow u :
  ops db !! k = Some r -> holds db (FClaim (operationClaim prev a ow u k r i)).
Proof. intros Hk. exists r. by repeat split. Qed.

Lemma flat_map_claims {X} (db : PDb) (key : X -> uuid) (row : X -> OpRow) g (l : list X) :
  (forall x, x ∈ l -> ops db !! key x = Some (row x)) ->
  (forall x c, c ∈ g x -> exists prev a ow u i, c = operationClaim prev a ow u (key x) (row x) i) ->
  Forall (fun c => holds db (FClaim c)) (flat_map g l).
Proof.
  intros Hrow Hg. rewrite Forall_forall. intros c Hc. apply list_elem_of_In, in_flat_map in Hc as (x & Hx & Hc).
  apply list_elem_of_In in Hx. apply list_elem_of_In in Hc. destruct (Hg x c Hc) as (prev & a & ow & u & i & ->).
  apply operationClaim_fact. auto.
Qed.

Lemma claimPending_rows o clk db l db' : claimPending o clk db = Ok (l, db') -> Forall (fun c => holds db' (FClaim c)) l.
Proof.
  intros Htx. unfold claimPending in Htx. apply bind_inv in Htx as (d & d1 & [= -> ->] & Htx).
  apply bind_inv in Htx as (n & d2 & Hu & Htx). injection Htx as <- <-. apply exec_Ok in Hu.
  eapply Forall_impl; [|intros c; apply grows_holds; by eapply updOps_grows; [|exact Hu]].
  apply (flat_map_claims d1 fst snd).
  - intros [k r] Hx. apply elem_of_sortBy, list_elem_of_filter in Hx as [_ Hx]. by apply elem_of_map_to_list in Hx.
  - intros [k r] c Hc. simpl in Hc. destruct (intents d1 !! o_intent r); [|by apply elem_of_nil in Hc].
    apply list_elem_of_singleton in Hc as ->. simpl. eauto 10.
Qed.

Lemma head_elem {X} (l : list X) x : head l = Some x -> x ∈ l.
Proof. destruct l; [done|]. intros [= ->]. by left. Qed.

Lemma uncertainCandidates_row now db x : x ∈ uncertainCandidates now db -> ops db !! x.1 = Some x.2.2.
Proof.
  intros Hx. apply list_elem_of_omap in Hx as (ks & _ & Hx). destruct (free _ _); [|done].
  destruct (uncertainOf now db ks.2) as [[k r]|] eqn:Hu; [|done]. injection Hx as <-. simpl.
  unfold uncertainOf in Hu. apply head_elem, elem_of_sortBy, list_elem_of_filter in Hu as [_ Hu]. by apply elem_of_map_to_list in Hu.
Qed.

Lemma claimUncertain_rows o clk m db l db' : claimUncertain o clk m db = Ok (l, db') -> Forall (fun c => holds db' (FClaim c)) l /\ grows db db'.
Proof.
  intros Htx. unfold claimUncertain in Htx. apply bind_inv in Htx as (d & d1 & [= -> ->] & Htx).
  apply bind_inv in Htx as (n & d2 & Hu & Htx). injection Htx as <- <-. apply exec_Ok in Hu.
  assert (E : grows d1 d2). { unfold updSagas in Hu. inv_ok. subst d2. by apply grows_same. } split; [|done].
  eapply Forall_impl; [|intros c; by apply grows_holds].
  apply (flat_map_claims d1 fst (fun x => x.2.2)).
  - intros x Hx. apply elem_of_sortBy, elem_of_take in Hx as (i & Hx & _). apply list_elem_of_lookup_2, elem_of_sortBy in Hx.
    by apply uncertainCandidates_row in Hx.
  - intros x c Hc. simpl in Hc. destruct (intents d1 !! o_intent x.2.2); [|by apply elem_of_nil in Hc].
    apply list_elem_of_singleton in Hc as ->. simpl. eauto 10.
Qed.

Lemma ClaimOperations_rows o clk db l db' : ClaimOperations o clk db = Ok (l, db') -> Forall (fun c => holds db' (FClaim c)) l.
Proof.
  unfold ClaimOperations. case_match; [done|]. intros Htx.
  apply bind_inv in Htx as (? & d1 & _ & Htx). apply bind_inv in Htx as (? & d2 & _ & Htx).
  apply bind_inv in Htx as (claims & d3 & Hp & Htx). apply claimPending_rows in Hp. cbv zeta in Htx. case_match.
  - apply bind_inv in Htx as (more & d4 & Hm & Htx). injection Htx as <- <-. apply claimUncertain_rows in Hm as [Hm E].
    apply Forall_app. split; [|done]. eapply Forall_impl; [exact Hp|]. intros c. by apply grows_holds.
  - by injection Htx as <- <-.
Qed.
End Claims.

(** ** Histories *)
Inductive Tx :=
| TxReserve (clk : Z) (q : ReserveIntentRequest) | TxSecured (clk : Z) (intent command : uuid) (fp : digest)
| TxSecureFailed (clk : Z) (intent : uuid) (fp : digest) | TxCancel (clk : Z) (q : CancelIntentRequest)
| TxStore (clk : Z) (h : HookRecord)
| TxClaimOps (o : ClaimOptions) (clk : Z) | TxBegin (clk : Z) (n : nat) | TxComplete (clk : Z) (n : nat) (e : OperationEvidence)
| TxSupersede (clk : Z) (n : nat) (e : OperationEvidence) | TxFailOp (clk : Z) (n : nat) (f : Failure)
| TxClaimHooks (o : ClaimOptions) | TxIgnore (clk : Z) (c : WebhookClaim) | TxCompleteHook (clk : Z) (c : WebhookClaim) (e : WebhookEvidence)
| TxFailHook (clk : Z) (c : WebhookClaim) (f : Failure)
| TxClaimActs (o : ClaimOptions) (clk : Z) | TxCompleteAct (clk : Z) (c : ActionClaim) (e : ActionEvidence)
| TxFailAct (clk : Z) (c : ActionClaim) (f : Failure)
| TxCodes (cmd : IssueTicketsCommand) (tickets : list uuid) (codes : list string).

(** The tables and the operation claims handed out so far. *)
Record HState := mkHState { h_db : PDb; h_claims : list OperationClaim }.

Section History.
Context {hashing : Hashing}.

Definition commit {E A} (m : PM E A) (s : HState) : HState := mkHState (run m (h_db s)).2 (h_claims s).
Definition withClaim (n : nat) (m : OperationClaim -> PM WErr unit) (s : HState) : HState :=
  match h_claims s !! n with Some c => commit (m c) s | None => s end.

Definition runTx (t : Tx) (s : HState) : HState :=
  match t with
  | TxReserve clk q => commit (ReserveIntent clk q) s
  | TxSecured clk i c fp => commit (MarkReservationSecured clk i c fp) s
  | TxSecureFailed clk i fp => commit (FailReservationSecuring clk i fp) s
  | TxCancel clk q => commit (RequestCancellation clk q) s
  | TxStore clk h => commit (StoreVerified clk h) s
  | TxClaimOps o clk =>
      match ClaimOperations o clk (h_db s) with
      | Ok (l, db) => mkHState db (h_claims s ++ l)
      | Err _ => s
      end
  | TxBegin clk n => withClaim n (BeginOperation clk) s
  | TxComplete clk n e => withClaim n (fun c => CompleteOperation clk c e) s
  | TxSupersede clk n e => withClaim n (fun c => SupersedeVoidWithRefund clk c e) s
  | TxFailOp clk n f => withClaim n (fun c => FailOperation clk c f) s
  | TxClaimHooks o => commit (ClaimWebhooks o) s
  | TxIgnore clk c => commit (IgnoreWebhook clk c) s
  | TxCompleteHook clk c e => commit (CompleteWebhook clk c e) s
  | TxFailHook clk c f => commit (FailWebhook clk c f) s
  | TxClaimActs o clk => commit (ClaimActions o clk) s
  | TxCompleteAct clk c e => commit (CompleteAction clk c e) s
  | TxFailAct clk c f => commit (FailAction clk c f) s
  | TxCodes cmd ts cs => commit (ClaimTicketCodes cmd ts cs) s
  end.
Definition runHistory (l : list Tx) (s : HState) : HState := foldl (fun s t => runTx t s) s l.

(** Before any payment. *)
Definition noPayments (db : PDb) : Prop := intents db = ∅ /\ sagas db = ∅ /\ ops db = ∅.

(** ** Every history keeps the invariant *)
Definition claimFacts (l : list OperationClaim) : list Fact :=
  flat_map (fun c => [FRow (oc_op c) (oc_intent c) (oc_type c); FClaim c]) l.
(** The invariant, the facts of the claims handed out, and any others. *)
Definition HInv (fs : list Fact) (s : HState) : Prop := Facts (fs ++ claimFacts (h_claims s)) (h_db s).

Lemma claimFacts_Forall db l : Forall (fun c => holds db (FClaim c)) l -> Forall (holds db) (claimFacts l).
Proof.
  induction 1 as [|c l Hc Hl IH]; simpl; [done|]. constructor; [|by constructor].
  destruct Hc as (r & Hk & Hi & Ht & _). by exists r.
Qed.

Lemma claimFacts_elem l c : c ∈ l -> FRow (oc_op c) (oc_intent c) (oc_type c) ∈ claimFacts l /\ FClaim c ∈ claimFacts l.
Proof.
  intros Hc. unfold claimFacts. split; apply list_elem_of_In, in_flat_map; exists c; (split; [by apply list_elem_of_In|]); simpl; auto.
Qed.

Lemma commit_inv {E A} fs0 (m : PM E A) s : (forall fs, adds fs m fs) -> HInv fs0 s -> HInv fs0 (commit m s).
Proof.
  intros Hm Hs. unfold commit, HInv, run. simpl. destruct (m (h_db s)) as [[a db]|] eqn:Htx; [|done]. by eapply Hm.
Qed.

Lemma withClaim_inv fs0 n m s :
  (forall fs c, FRow (oc_op c) (oc_intent c) (oc_type c) ∈ fs -> adds fs (m c) fs) -> HInv fs0 s -> HInv fs0 (withClaim n m s).
Proof.
  intros Hm Hs. unfold withClaim. destruct (h_claims s !! n) as [c|] eqn:Hc; [|done].
  unfold commit, HInv, run. simpl. destruct (m c (h_db s)) as [[a db]|] eqn:Htx; [|done].
  eapply Hm; [|exact Hs|exact Htx]. apply elem_of_app. right. by apply claimFacts_elem, list_elem_of_lookup_2 with n.
Qed.

Lemma payTx_inv fs0 t s : HInv fs0 s -> HInv fs0 (runTx t s).
Proof.
  intros Hs. destruct t; simpl; try (apply commit_inv; [|done]; intros fs); try (apply withClaim_inv; [|done]; intros fs c Hc);
    auto using ReserveIntent_keeps, MarkReservationSecured_keeps, FailReservationSecuring_keeps, RequestCancellation_keeps,
      StoreVerified_keeps, BeginOperation_keeps, CompleteOperation_keeps, SupersedeVoidWithRefund_keeps, FailOperation_keeps,
      ClaimWebhooks_keeps, IgnoreWebhook_keeps, CompleteWebhook_keeps, FailWebhook_keeps, ClaimActions_keeps,
      CompleteAction_keeps, FailAction_keeps, ClaimTicketCodes_keeps.
  destruct (ClaimOperations o clk (h_db s)) as [[l db]|] eqn:Htx; [|done].
  pose proof (ClaimOperations_keeps _ _ _ _ _ _ Hs Htx) as [Hinv Hfs]. apply ClaimOperations_rows, claimFacts_Forall in Htx.
  split; [done|]. simpl. unfold claimFacts in *. rewrite flat_map_app, app_assoc. by apply Forall_app.
Qed.

Lemma runHistory_inv fs0 l s : HInv fs0 s -> HInv fs0 (runHistory l s).
Proof. revert s. induction l as [|t l IH]; intros s Hs; [done|]. apply IH, payTx_inv, Hs. Qed.

Lemma noPayments_inv db : noPayments db -> HInv [] (mkHState db []).
Proof.
  intros (Ei & Es & Eo). assert (Hno : forall i t, ~ hasOp db i t) by (intros i t (k & r & Hk & _); by rewrite Eo, lookup_empty in Hk).
  split; [|done]. split; split; simpl.
  - intros k r. by rewrite Ei, lookup_empty.
  - intros k s. by rewrite Es, lookup_empty.
  - intros k r. by rewrite Eo, lookup_empty.
  - intros k r. by rewrite Eo, lookup_empty.
  - intros k1 k2 r1 r2. by rewrite Eo, lookup_empty.
  - intros i Hc. by apply Hno in Hc.
  - intros i Hc. by apply Hno in Hc.
Qed.

Lemma history_inv db l : noPayments db -> HInv [] (runHistory l (mkHState db [])).
Proof. intros Hno. by apply runHistory_inv, noPayments_inv. Qed.
End History.

(** ** Shard actions *)
Section Actions.
Context {hashing : Hashing}.

(** The settlement a shard command rests on: the operation it names (or one of
    its intent) succeeded with the proof and the money that it carries. *)
Definition settled (db : PDb) (k i : uuid) (t : OperationType) (proof : digest) (amount : Z) (currency : string) : Prop :=
  exists r, ops db !! k = Some r /\ succeeded i t r = true /\ o_fp r = Some proof /\ o_amount r = amount /\ o_currency r = currency.
Definition actionProved (db : PDb) (a : Action) : Prop :=
  match a with
  | ActionIssueTickets c => settled db (ic_operation c) (ic_intent c) OperationCapture (ic_proof c) (ic_amount c) (ic_currency c)
  | ActionMarkRefundPending c => exists k, settled db k (mc_intent c) OperationCapture (mc_proof c) (mc_amount c) (mc_currency c)
  | ActionCancelVoided c =>
      settled db (vc_operation c) (vc_intent c) OperationVoid (vc_proof c) (vc_amount c) (vc_currency c) /\ ~ hasOp db (vc_intent c) OperationCapture
  | ActionCompensate c =>
      settled db (rc_operation c) (rc_intent c) OperationRefund (rc_proof c) (rc_amount c) (rc_currency c) /\ hasOp db (rc_intent c) OperationCapture
  end.

Lemma proofOf_Some db i t k r : proofOf db i t = Some (k, r) -> ops db !! k = Some r /\ succeeded i t r = true.
Proof. unfold proofOf. intros Hp. apply head_filter_Some in Hp as [Hs Hin]. by apply elem_of_map_to_list in Hin. Qed.

Lemma proofOf_hasOp db i t : hasOp db i t -> exists k r, proofOf db i t = Some (k, r).
Proof.
  intros (k & r & Hk & Hs). unfold proofOf. destruct (filter _ _) as [|[k' r'] l] eqn:E; [|by exists k', r'].
  exfalso. assert (Hin : (k, r) ∈ filter (fun kr : uuid * OpRow => succeeded i t kr.2 = true) (map_to_list (ops db))).
  { apply list_elem_of_filter. split; [done|]. by apply elem_of_map_to_list. }
  rewrite E in Hin. by apply elem_of_nil in Hin.
Qed.

(** A successful operation carries its response fingerprint and its time. *)
Lemma success_evidence db i t k r :
  Ledger db -> ops db !! k = Some r -> succeeded i t r = true -> is_Some (o_fp r) /\ is_Some (o_completed r).
Proof.
  intros HL Hk Hs. apply succeeded_spec in Hs as (_ & _ & Hs). pose proof (led_check _ HL _ _ Hk) as Hc.
  unfold opCheck in Hc. rewrite Hs in Hc. rewrite !andb_true_iff in Hc. destruct Hc as [[[[_ Hdone] _] Hev] _].
  rewrite bool_decide_true in Hev by done. simpl in Hev. rewrite !andb_true_iff, !bool_decide_eq_true in Hev.
  split; [tauto|]. by destruct (o_completed r).
Qed.

Lemma proofOf_settled db i t k r f ir :
  Ledger db -> intents db !! i = Some ir -> proofOf db i t = Some (k, r) -> o_fp r = Some f ->
  settled db k i t f (i_amount ir) (i_currency ir).
Proof.
  intros HL Hi Hp Hf. apply proofOf_Some in Hp as [Hk Hs]. exists r. repeat split; try done.
  all: pose proof (led_money _ HL _ _ Hk) as Hm; apply succeeded_spec in Hs as (Hii & _); unfold moneyKeyOk in Hm;
    rewrite Hii, Hi, !andb_true_iff, !bool_decide_eq_true in Hm; lia || by destruct Hm.
Qed.

Lemma settled_hasOp db k i t f a c : settled db k i t f a c -> hasOp db i t.
Proof. intros (r & Hk & Hs & _). by exists k, r. Qed.

Lemma buildActionClaim_proved db k s i a :
  PayInv db -> intents db !! s_intent s = Some i -> buildActionClaim db k s i = Ok a -> actionProved db a.
Proof.
  intros [_ HL] Hi Hb. unfold buildActionClaim in Hb.
  destruct (s_state s), (s_step s); try discriminate Hb;
    destruct (proofOf db (s_intent s) _) as [[op r]|] eqn:Hp; try discriminate Hb;
    destruct (o_fp r) as [f|] eqn:Hf; try discriminate Hb; pose proof (proofOf_settled _ _ _ _ _ _ _ HL Hi Hp Hf) as Hset.
  - by injection Hb as <-.
  - injection Hb as <-. by exists op.
  - destruct (o_completed r); [|done]. injection Hb as <-. split; [done|]. simpl. intros Hc.
    eapply led_exclusive; [done|exact Hc|]. by eapply settled_hasOp.
  - destruct (o_completed r); [|done]. injection Hb as <-. split; [done|]. simpl. eapply led_refund; [done|]. by eapply settled_hasOp.
Qed.

Lemma buildClaims_proved o db l cs : PayInv db -> buildClaims o db l = Ok cs -> Forall (fun c => actionProved db (ac_action c)) cs.
Proof.
  intros Hinv. revert cs. induction l as [|[k s] l IH]; simpl; intros cs Hb; [by injection Hb as <-|].
  destruct (intents db !! s_intent s) as [i|] eqn:Hi; [|auto].
  destruct (buildActionClaim db k s i) as [a|] eqn:Ha; [|done]. destruct (buildClaims o db l) as [rest|]; [|done].
  injection Hb as <-. constructor; [by eapply buildActionClaim_proved|auto].
Qed.

Lemma ClaimActions_proved fs o clk db cs db' :
  Facts fs db -> ClaimActions o clk db = Ok (cs, db') -> Forall (fun c => actionProved db' (ac_action c)) cs.
Proof.
  intros HF Htx. pose proof (ClaimActions_keeps _ _ _ _ _ _ HF Htx) as [Hinv _]. unfold ClaimActions in Htx. case_match; [done|].
  apply bind_inv in Htx as (d & d1 & [= -> ->] & Htx). apply bind_inv in Htx as (n & d2 & _ & Htx).
  apply bind_inv in Htx as (d3 & d4 & [= -> ->] & Htx). unfold lift in Htx. destruct (buildClaims _ _ _) as [l|] eqn:Hb; [|done].
  injection Htx as <- <-. by eapply buildClaims_proved.
Qed.

Lemma buildActionClaim_total db k s i :
  PayInv db -> sagas db !! k = Some s -> actionable s = true -> exists a, buildActionClaim db k s i = Ok a.
Proof.
  intros [HE HL] Hk Ha. pose proof (ev_sagas _ HE _ _ Hk) as Hn. unfold buildActionClaim. unfold actionable in Ha.
  destruct (s_state s), (s_step s); try discriminate Ha;
    simpl in Hn; apply proofOf_hasOp in Hn as (op & r & Hp); rewrite Hp; apply proofOf_Some in Hp as [Hr Hs];
    destruct (success_evidence _ _ _ _ _ HL Hr Hs) as [[f ->] [at_ Hat]]; rewrite ?Hat; eauto.
Qed.
End Actions.

(** ** Properties *)
Section Properties.
Context {hashing : Hashing}.

(** C26: After every history of payment transactions - intents reserved,
    secured, cancelled, operations claimed, begun, completed, superseded and
    failed, webhooks confirmed, tickets issued and compensations applied, in
    any interleaving and with any provider evidence - an intent is captured,
    waiting for tickets, completed or waiting for a refund only if a capture
    succeeded, voided only if a void did, refunded only if a refund did, and
    cancelled only after one of the two; likewise every saga that issues
    tickets, refunds or has compensated. *)
Theorem payment_states_evidenced (db : PDb) (l : list Tx) :
  noPayments db -> Evidence (h_db (runHistory l (mkHState db []))).
Proof. intros Hno. destruct (history_inv db l Hno) as [[He _] _]. exact He. Qed.

(** C27: After every history the operations of an intent form a sound ledger:
    each carries the intent's provider, amount and currency, there is at most
    one of each financial type, a capture and a void never both succeed, a
    refund succeeds only after a capture, and every success has its evidence. *)
Theorem payment_ledger_sound (db : PDb) (l : list Tx) :
  noPayments db -> Ledger (h_db (runHistory l (mkHState db []))).
Proof. intros Hno. destruct (history_inv db l Hno) as [[_ HL] _]. exact HL. Qed.

(** C28: Whatever the history, an action that the worker claims for the shards
    is proved by the ledger: tickets are issued and refunds prepared only for
    a succeeded capture with the proof, amount and currency of the command,
    seats of a cancelled payment are released only for a succeeded void and
    never when money was captured, or for a succeeded refund. *)
Theorem shard_actions_proved (db : PDb) (l : list Tx) (o : ClaimOptions) (clk : Z) (cs : list ActionClaim) (db' : PDb) :
  noPayments db -> ClaimActions o clk (h_db (runHistory l (mkHState db []))) = Ok (cs, db') ->
  Forall (fun c => actionProved db' (ac_action c)) cs.
Proof. intros Hno. by eapply ClaimActions_proved, history_inv. Qed.

(** A saga that is due for an action never blocks the claim of its batch:
    after every history the evidence that its claim needs is there, so
    buildActionClaim succeeds. *)
Theorem action_claims_never_blocked (db : PDb) (l : list Tx) (k : uuid) (s : SagaRow) (i : IntentRow) :
  noPayments db -> sagas (h_db (runHistory l (mkHState db []))) !! k = Some s -> actionable s = true ->
  exists a, buildActionClaim (h_db (runHistory l (mkHState db []))) k s i = Ok a.
Proof. intros Hno Hk Ha. destruct (history_inv db l Hno) as [Hinv _]. by apply buildActionClaim_total. Qed.

(** All claims of one operation handed out in a history, however often it
    is retried and by whichever worker, carry the same intent, type, provider,
    amount, currency and provider idempotency key. *)
Theorem retries_keep_identity (db : PDb) (l : list Tx) (c1 c2 : OperationClaim) :
  noPayments db -> c1 ∈ h_claims (runHistory l (mkHState db [])) -> c2 ∈ h_claims (runHistory l (mkHState db [])) ->
  oc_op c1 = oc_op c2 ->
  oc_key c1 = oc_key c2 /\ oc_type c1 = oc_type c2 /\ oc_intent c1 = oc_intent c2 /\ oc_provider c1 = oc_provider c2 /\
  oc_amount c1 = oc_amount c2 /\ oc_currency c1 = oc_currency c2.
Proof.
  intros Hno H1 H2 Heq. destruct (history_inv db l Hno) as [_ Hf]. rewrite Forall_forall in Hf.
  apply claimFacts_elem in H1 as [_ H1]. apply claimFacts_elem in H2 as [_ H2].
  destruct (Hf _ H1) as (r1 & Hr1 & ?). destruct (Hf _ H2) as (r2 & Hr2 & ?). rewrite Heq in Hr1.
  assert (r1 = r2) as -> by congruence. intuition congruence.
Qed.
End Properties.

(** ** A sample history *)
Module SamplePayment.

(** A polynomial digest in the place of SHA-256 and SHA-1. *)
Definition digestOf (m : N) (s : string) : N := foldl (fun h c => ((h * 257 + N_of_ascii c + 1) mod m)%N) 1%N (String.list_ascii_of_string s).
#[export] Instance sampleHashing : Hashing := {
  sha256 s := ((digestOf (2 ^ 255 - 19) s * (2 ^ 201 + 12345)) mod (2 ^ 255 - 19) + 1)%N;
  newSHA1 ns s := (digestOf (2 ^ 61 - 1) (bytesBE 16 ns +:+ s) + 1)%N }.

Definition db0 : PDb :=
  mkPDb ∅ ∅ ∅ ∅ ∅ {[ 10%N := mkDirectoryRow 20 30 true ]} {[ 10%N := mkResLocator 20 "shard-a" 1 30 ]} ∅ ∅ ∅ ∅ true.
Definition at_ (now : Z) : ClaimOptions := mkClaimOptions "worker-1" 10 5 60000000000 now.
Definition evidence (st : Status) (captured refunded : Z) : OperationEvidence :=
  mkOperationEvidence DispositionApplied "pay-1" "" "" st 5000 "EUR" captured refunded 99 0.

(** Reserve, secure, create the checkout at the provider. *)
Definition checkout : list Tx :=
  [ TxReserve 100 (mkReserveIntentRequest 1 2 3 10 20 30 "sandbox" 5000 "EUR" 7 8);
    TxSecured 101 1 (beginCommandID 2) 8;
    TxClaimOps (at_ 200) 200; TxBegin 201 0; TxComplete 202 0 (evidence StatusCreated 0 0) ].
(** A verified event leads to a status query that reports the capture. *)
Definition hook : WebhookClaim := mkWebhookClaim 50 "sandbox" "evt-1" "payment.captured" "pay-1" 299 1 "worker-1" 60000000301.
Definition captured : list Tx :=
  checkout ++
  [ TxStore 300 (mkHookRecord 50 "sandbox" "evt-1" "payment.captured" "pay-1" 77 "key-1" 299 300 300 20 false);
    TxClaimHooks (at_ 301); TxCompleteHook 302 hook (mkWebhookEvidence StatusCaptured 5000 "EUR" 5000 0 302) ].
(** The customer cancels instead, and the provider voids. *)
Definition voided : list Tx :=
  checkout ++
  [ TxCancel 300 (mkCancelIntentRequest 30 1 40 9 (cancellationFingerprint 30 1));
    TxClaimOps (at_ 400) 400; TxBegin 401 1; TxComplete 402 1 (evidence StatusVoided 0 0) ].
Definition after (l : list Tx) : HState := runHistory l (mkHState db0 []).

End SamplePayment.

(** ** Witnesses *)
Section Witnesses.
Import SamplePayment.

Lemma payment_states_evidenced_witness :
  noPayments db0 /\ Evidence (h_db (runHistory captured (mkHState db0 []))) /\
  (i_state <$> intents (h_db (runHistory captured (mkHState db0 []))) !! 1%N) = Some TicketIssuePending.
Proof.
  split; [by repeat split|]. split; [apply payment_states_evidenced; by repeat split|]. vm_compute. reflexivity.
Defined.

Lemma payment_ledger_sound_witness :
  noPayments db0 /\ Ledger (h_db (runHistory voided (mkHState db0 []))) /\
  size (ops (h_db (runHistory voided (mkHState db0 [])))) = 2%nat.
Proof.
  split; [by repeat split|]. split; [apply payment_ledger_sound; by repeat split|]. vm_compute. reflexivity.
Defined.

Lemma shard_actions_proved_witness :
  exists cs db', ClaimActions (at_ 500) 500 (h_db (runHistory captured (mkHState db0 []))) = Ok (cs, db') /\
    length cs = 1%nat /\ Forall (fun c => actionProved db' (ac_action c)) cs.
Proof.
  destruct (ClaimActions (at_ 500) 500 (h_db (runHistory captured (mkHState db0 [])))) as [[cs db']|e] eqn:E.
  - exists cs, db'. split; [reflexivity|]. split.
    + assert (Hl : match ClaimActions (at_ 500) 500 (h_db (runHistory captured (mkHState db0 []))) with
                   | Ok (cs, _) => length cs | Err _ => 0%nat end = 1%nat) by (vm_compute; reflexivity).
      rewrite E in Hl. exact Hl.
    + apply (shard_actions_proved db0 captured (at_ 500) 500 cs db'); [by repeat split|exact E].
  - exfalso. assert (Hl : match ClaimActions (at_ 500) 500 (h_db (runHistory captured (mkHState db0 []))) with
                          | Ok _ => true | Err _ => false end = true) by (vm_compute; reflexivity).
    rewrite E in Hl. discriminate Hl.
Defined.

Lemma action_claims_never_blocked_witness :
  exists s i, sagas (h_db (runHistory voided (mkHState db0 []))) !! 2%N = Some s /\ actionable s = true /\
    exists a, buildActionClaim (h_db (runHistory voided (mkHState db0 []))) 2 s i = Ok a.
Proof.
  destruct (sagas (h_db (runHistory voided (mkHState db0 []))) !! 2%N) as [s|] eqn:E.
  - exists s, (mkIntentRow 10 20 30 "sandbox" None None 5000 "EUR" Voided 7 8 100 None). split; [reflexivity|].
    assert (Ha : actionable s = true).
    { assert (Hs : (actionable <$> sagas (h_db (runHistory voided (mkHState db0 []))) !! 2%N) = Some true) by (vm_compute; reflexivity).
      rewrite E in Hs. by injection Hs. }
    split; [exact Ha|]. apply (action_claims_never_blocked db0 voided 2 s); [by repeat split|exact E|exact Ha].
  - exfalso. assert (Hs : (actionable <$> sagas (h_db (runHistory voided (mkHState db0 []))) !! 2%N) = Some true) by (vm_compute; reflexivity).
    rewrite E in Hs. discriminate Hs.
Defined.

(** A void that is retried once, claimed at 400 and again at 600. *)
Lemma retries_keep_identity_witness :
  exists c1 c2, let l := checkout ++
    [ TxCancel 300 (mkCancelIntentRequest 30 1 40 9 (cancellationFingerprint 30 1));
      TxClaimOps (at_ 400) 400; TxBegin 401 1; TxFailOp 402 1 (mkFailure "rate_limited" 500 false false false);
      TxClaimOps (at_ 600) 600 ] in
    h_claims (runHistory l (mkHState db0 [])) !! 1%nat = Some c1 /\ h_claims (runHistory l (mkHState db0 [])) !! 2%nat = Some c2 /\
    oc_attempts c1 = 1 /\ oc_attempts c2 = 2 /\ oc_key c1 = oc_key c2.
Proof.
  set (l := checkout ++ _). cbv zeta.
  assert (H1 : (oc_attempts <$> h_claims (runHistory l (mkHState db0 [])) !! 1%nat) = Some 1) by (vm_compute; reflexivity).
  assert (H2 : (oc_attempts <$> h_claims (runHistory l (mkHState db0 [])) !! 2%nat) = Some 2) by (vm_compute; reflexivity).
  assert (H3 : (oc_op <$> h_claims (runHistory l (mkHState db0 [])) !! 1%nat) = (oc_op <$> h_claims (runHistory l (mkHState db0 [])) !! 2%nat))
    by (vm_compute; reflexivity).
  destruct (h_claims (runHistory l (mkHState db0 [])) !! 1%nat) as [c1|] eqn:E1; [|discriminate H1].
  destruct (h_claims (runHistory l (mkHState db0 [])) !! 2%nat) as [c2|] eqn:E2; [|discriminate H2].
  injection H1 as H1. injection H2 as H2. injection H3 as H3. exists c1, c2. repeat split; try assumption; try reflexivity.
  apply (retries_keep_identity db0 l c1 c2); [by repeat split|exact (list_elem_of_lookup_2 _ _ _ E1)|exact (list_elem_of_lookup_2 _ _ _ E2)|exact H3].
Defined.
End Witnesses.
