(* ===== verification/PaymentWorkerSafety.v ===== *)
(** * Payment worker: backoff, categories and refinement

    The retry delay is a capped exponential with bounded jitter, failure
    categories always satisfy the tables' pattern, an uncertain operation is
    only queried, the provider is called only for a row that is in flight, and
    a whole pass of the worker is a history of the transactions of
    [PaymentHistory]. *)

From S2P Require Import Prelude PaymentDomain PaymentDb PaymentClaims PaymentFinalize PaymentControl PaymentWorker PaymentLogic PaymentSafety PaymentHistory.

(** ** Backoff *)
Lemma backoffLoop_exact n delay maximum :
  0 < delay <= maximum -> maximum <= MaxInt64 -> backoffLoop n delay maximum = Z.min maximum (delay * 2 ^ Z.of_nat n).
Proof.
  revert delay. induction n as [|n IH]; intros delay Hd Hm.
  - cbn [backoffLoop]. change (2 ^ Z.of_nat 0) with 1. lia.
  - cbn [backoffLoop]. rewrite Nat2Z.inj_succ, Z.pow_succ_r by lia.
    assert (Hp : 0 < 2 ^ Z.of_nat n) by (apply Z.pow_pos_nonneg; lia).
    assert (Hq : Z.quot maximum 2 * 2 <= maximum <= Z.quot maximum 2 * 2 + 1).
    { pose proof (Z.quot_rem' maximum 2). pose proof (Z.rem_bound_pos maximum 2). lia. }
    destruct (delay <? maximum) eqn:E1; [|nia].
    destruct (Z.quot maximum 2 <? delay) eqn:E2; [nia|].
    rewrite wrap64_id by (unfold in_int64, MinInt64; lia). rewrite IH by lia. f_equal. lia.
Qed.

(** The delay before the jitter. *)
Definition exponential (attempt base maximum : Z) : Z := Z.min maximum (base * 2 ^ (Z.max 1 attempt - 1)).

Lemma retryDelay_spec id attempt base maximum :
  0 < base <= maximum -> maximum <= MaxInt64 ->
  exponential attempt base maximum <= retryDelay id attempt base maximum <=
    Z.min maximum (exponential attempt base maximum + exponential attempt base maximum / 4).
Proof.
  intros Hb Hm. unfold retryDelay. set (a := if attempt <? 1 then 1 else attempt).
  assert (Ha : a = Z.max 1 attempt) by (unfold a; destruct (attempt <? 1) eqn:?; lia). clearbody a.
  rewrite backoffLoop_exact, Z2Nat.id by lia. unfold exponential. rewrite <- Ha. clear Ha.
  assert (Hp : 0 < 2 ^ (a - 1) \/ 2 ^ (a - 1) = 0) by (pose proof (Z.pow_nonneg 2 (a - 1)); lia).
  set (d := Z.min maximum (base * 2 ^ (a - 1))) in *. assert (Hd0 : 0 <= d <= maximum) by nia. clearbody d.
  rewrite Z.quot_div_nonneg by lia. pose proof (Z.div_pos d 4). cbv zeta.
  destruct (maximum <=? d) eqn:E1; [lia|]. destruct (d / 4 <=? 0) eqn:E2; [lia|].
  pose proof (Z.mod_pos_bound (Z.lxor (Z.of_N (N.div id (2 ^ 64))) (wrapu64 a)) (d / 4 + 1)) as Hj.
  set (j := _ mod (d / 4 + 1)) in *. clearbody j. destruct (maximum - j <? d) eqn:E3; [lia|].
  rewrite wrap64_id by (unfold in_int64, MinInt64; lia). lia.
Qed.

(** ** Categories *)
Lemma boundLoop_spec l acc :
  forallb categoryChar acc = true -> (length acc < 64)%nat ->
  forallb categoryChar (boundLoop l acc) = true /\ (length (boundLoop l acc) <= 64)%nat.
Proof.
  revert acc. induction l as [|c l IH]; intros acc Hall Hlen; simpl; [lia|].
  set (acc' := if categoryChar c then c :: acc else _).
  assert (Hacc : forallb categoryChar acc' = true /\ (length acc' <= 64)%nat).
  { unfold acc'. destruct (categoryChar c) eqn:Ec; simpl; [rewrite Ec; split; [done|lia]|].
    destruct acc as [|d acc0]; [simpl; split; [done|lia]|]. case_match; [lia|]. simpl in *. split; [|lia]. done. }
  destruct (length acc' =? 64)%nat eqn:E; [done|]. apply IH; [by destruct Hacc|]. apply Nat.eqb_neq in E. lia.
Qed.

Lemma dropUnderscores_spec l : forallb categoryChar l = true ->
  forallb categoryChar (dropUnderscores l) = true /\ (length (dropUnderscores l) <= length l)%nat.
Proof.
  induction l as [|c l IH]; simpl; [done|]. rewrite andb_true_iff. intros [Hc Hl].
  case_bool_decide; [destruct (IH Hl); split; [done|lia]|]. simpl. rewrite Hc, Hl. split; [done|lia].
Qed.

Lemma categoryChar_spec c : categoryChar c = true -> isLower c || isDigit c || oneOf c "_" = true.
Proof. unfold categoryChar, oneOf, underscore. simpl. by rewrite orb_false_r. Qed.

Lemma boundedCategory_valid value : validCategory (boundedCategory value) = true.
Proof.
  unfold boundedCategory.
  destruct (boundLoop_spec (String.list_ascii_of_string (toLower value)) [] eq_refl ltac:(simpl; lia)) as [H1 L1].
  destruct (dropUnderscores_spec _ H1) as [H2 L2].
  assert (H3 : forallb categoryChar (reverse (dropUnderscores (boundLoop (String.list_ascii_of_string (toLower value)) []))) = true).
  { rewrite forallb_forall in *. intros x Hx. apply H2. apply list_elem_of_In. by rewrite <- elem_of_reverse, list_elem_of_In. }
  destruct (dropUnderscores_spec _ H3) as [H4 L4]. rewrite length_reverse in L4.
  destruct (dropUnderscores (reverse _)) as [|c l]; [done|]. destruct (isLower c) eqn:Hc; [|done].
  unfold validCategory. rewrite String.list_ascii_of_string_of_list_ascii, Hc. simpl in H4, L4.
  apply andb_true_iff in H4 as [_ H4]. rewrite andb_true_iff, andb_true_l. split; [|apply Nat.leb_le; lia].
  rewrite forallb_forall in *. intros x Hx. by apply categoryChar_spec, H4.
Qed.

(** ** A pass of the worker is a history *)
Section Refinement.
Context {hashing : Hashing} {P T : Type}.
Context (clock : nat -> Z) (providers : string -> option (Client P)) (shards : ShardGateway T) (cfg : Config).
Implicit Types (w : @WorkerWorld P T) (r : Result).

Definition reaches (cl : list OperationClaim) (db : PDb) (cl' : list OperationClaim) (db' : PDb) : Prop :=
  exists l, runHistory l (mkHState db cl) = mkHState db' cl'.

Lemma reaches_refl cl db : reaches cl db cl db.
Proof. by exists []. Qed.
Lemma reaches_trans cl1 db1 cl2 db2 cl3 db3 : reaches cl1 db1 cl2 db2 -> reaches cl2 db2 cl3 db3 -> reaches cl1 db1 cl3 db3.
Proof. intros [l1 H1] [l2 H2]. exists (l1 ++ l2). unfold runHistory in *. by rewrite foldl_app, H1, H2. Qed.
Lemma reaches_one t cl db cl' db' : runTx t (mkHState db cl) = mkHState db' cl' -> reaches cl db cl' db'.
Proof. intros Ht. by exists [t]. Qed.

Lemma tx_db {E A} (m : Z -> PM E A) w : ww_db (tx clock m w).2 = (run (m (clock (ww_ticks w))) (ww_db w)).2.
Proof. unfold tx. by destruct (run _ _). Qed.

(** A transaction on a claim that was handed out. *)
Lemma reaches_claim n c cl t (m : OperationClaim -> PM WErr unit) db :
  cl !! n = Some c -> (forall s, runTx t s = withClaim n m s) -> reaches cl db cl (run (m c) db).2.
Proof. intros Hc Ht. apply (reaches_one t). rewrite Ht. unfold withClaim. simpl. by rewrite Hc. Qed.
Lemma reaches_commit {E A} cl t (m : PM E A) db : (forall s, runTx t s = commit m s) -> reaches cl db cl (run m db).2.
Proof. intros Ht. apply (reaches_one t). by rewrite Ht. Qed.

(** The states that processing an item goes through. *)
Definition steps (cl : list OperationClaim) w w' : Prop := reaches cl (ww_db w) cl (ww_db w').
Lemma steps_tx_claim n c cl (mk : Z -> Tx) (m : Z -> OperationClaim -> PM WErr unit) w x w' :
  cl !! n = Some c -> (forall clk s, runTx (mk clk) s = withClaim n (m clk) s) -> tx clock (fun clk => m clk c) w = (x, w') -> steps cl w w'.
Proof. intros Hc Ht E. unfold steps. replace w' with (x, w').2 by done. rewrite <- E, tx_db. by eapply reaches_claim. Qed.
Lemma steps_tx {E A} cl (mk : Z -> Tx) (m : Z -> PM E A) w x w' :
  (forall clk s, runTx (mk clk) s = commit (m clk) s) -> tx clock m w = (x, w') -> steps cl w w'.
Proof. intros Ht Eq. unfold steps. replace w' with (x, w').2 by done. rewrite <- Eq, tx_db. by eapply reaches_commit. Qed.
Lemma steps_trans cl w1 w2 w3 : steps cl w1 w2 -> steps cl w2 w3 -> steps cl w1 w3.
Proof. apply reaches_trans. Qed.
Lemma steps_refl cl w : steps cl w w.
Proof. apply reaches_refl. Qed.
Lemma callProvider_db {A} (f : P -> A * P) w x w' : callProvider f w = (x, w') -> ww_db w' = ww_db w.
Proof. unfold callProvider. destruct (f (ww_prov w)). by intros [= _ <-]. Qed.
Lemma callShard_db {A} (f : T -> A * T) w x w' : callShard f w = (x, w') -> ww_db w' = ww_db w.
Proof. unfold callShard. destruct (f (ww_shard w)). by intros [= _ <-]. Qed.
Lemma steps_same cl w w' : ww_db w' = ww_db w -> steps cl w w'.
Proof. unfold steps. intros ->. apply reaches_refl. Qed.

Section Item.
Context (n : nat) (c : OperationClaim) (cl : list OperationClaim) (Hc : cl !! n = Some c).

Lemma failOperation_steps now cat rv un w r e w' r' :
  failOperationWithUncertainty clock cfg now c cat rv un w r = (e, w', r') -> steps cl w w'.
Proof.
  unfold failOperationWithUncertainty. destruct (tx _ _ w) as [x w1] eqn:E. intros Hx.
  assert (w' = w1) as -> by (destruct x; by injection Hx).
  by eapply (steps_tx_claim n c cl (fun clk => TxFailOp clk n _) (fun clk c => FailOperation clk c _)).
Qed.

Lemma begin_steps w x w' : tx clock (fun clk => BeginOperation clk c) w = (x, w') -> steps cl w w'.
Proof. by eapply (steps_tx_claim n c cl (fun clk => TxBegin clk n) BeginOperation). Qed.

Lemma failInvalid_steps now w r e w' r' : failInvalidOperation clock cfg now c w r = (e, w', r') -> steps cl w w'.
Proof.
  unfold failInvalidOperation. case_match; [intros [= _ <- _]; apply steps_refl|]. case_match; [apply failOperation_steps|].
  destruct (tx _ _ w) as [x w1] eqn:E. apply begin_steps in E. destruct x; intros Hx.
  - eapply steps_trans; [exact E|]. by eapply failOperation_steps.
  - by injection Hx as _ <- _.
Qed.

Lemma finishOperation_steps now a w r e w' r' : finishOperation clock cfg now c a w r = (e, w', r') -> steps cl w w'.
Proof.
  unfold finishOperation. destruct a as [ev|pe].
  - case_match.
    + destruct (tx _ _ w) as [x w1] eqn:E. intros Hx. assert (w' = w1) as -> by (destruct x; by injection Hx).
      by eapply (steps_tx_claim n c cl (fun clk => TxSupersede clk n ev) (fun clk c => SupersedeVoidWithRefund clk c ev)).
    + case_match; [apply failOperation_steps|]. destruct (e_disposition ev); try apply failOperation_steps.
      destruct (tx _ _ w) as [x w1] eqn:E. intros Hx. assert (w' = w1) as -> by (destruct x; by injection Hx).
      by eapply (steps_tx_claim n c cl (fun clk => TxComplete clk n ev) (fun clk c => CompleteOperation clk c ev)).
  - destruct (classifyProviderError pe) as [[cat rt] un]. apply failOperation_steps.
Qed.

Lemma processOperation_steps now w r e w' r' : processOperation clock providers cfg now c w r = (e, w', r') -> steps cl w w'.
Proof.
  unfold processOperation. case_match; [apply failInvalid_steps|]. case_match; [apply failOperation_steps|].
  destruct (if bool_decide (oc_previous c = Uncertain) then _ else _) as [b w1] eqn:Eb.
  assert (Hb : steps cl w w1). { case_match; [injection Eb as _ <-; apply steps_refl|by eapply begin_steps]. }
  intros Hx. eapply steps_trans; [exact Hb|]. destruct b as [u|]; [|injection Hx as _ <- _; apply steps_refl].
  destruct (providers (oc_provider c)) as [client|]; [|by eapply failOperation_steps].
  destruct (callProvider _ w1) as [a w2] eqn:Ea. apply callProvider_db in Ea.
  eapply steps_trans; [by apply steps_same|]. by eapply finishOperation_steps.
Qed.
End Item.

Lemma failWebhook_steps cl now c cat rv w r e w' r' : failWebhook clock cfg now c cat rv w r = (e, w', r') -> steps cl w w'.
Proof.
  unfold failWebhook. case_match; [intros [= _ <- _]; apply steps_refl|]. destruct (tx _ _ w) as [x w1] eqn:E. intros Hx.
  assert (w' = w1) as -> by (destruct x; by injection Hx). by eapply (steps_tx cl (fun clk => TxFailHook clk c _)).
Qed.

Lemma processWebhook_steps cl now c w r e w' r' : processWebhook clock providers cfg now c w r = (e, w', r') -> steps cl w w'.
Proof.
  unfold processWebhook. case_match; [apply failWebhook_steps|]. case_match.
  { destruct (tx _ _ w) as [x w1] eqn:E. intros Hx. assert (w' = w1) as -> by (destruct x; by injection Hx).
    by eapply (steps_tx cl (fun clk => TxIgnore clk c)). }
  destruct (providers (wc_provider c)) as [client|]; [|apply failWebhook_steps].
  destruct (callProvider _ w) as [a w1] eqn:Ea. apply callProvider_db in Ea. intros Hx.
  eapply steps_trans; [by apply steps_same|]. destruct a as [v|pe].
  - destruct (tx _ _ w1) as [x w2] eqn:E. assert (Hs : steps cl w1 w2) by by eapply (steps_tx cl (fun clk => TxCompleteHook clk c _)).
    eapply steps_trans; [exact Hs|]. destruct x; [injection Hx as _ <- _; apply steps_refl|].
    destruct (failWebhook _ _ _ _ _ _ _ _) as [[e2 w3] r3] eqn:Ef. injection Hx as _ <- _. by eapply failWebhook_steps.
  - destruct (classifyProviderError pe) as [[cat rt] un]. by eapply failWebhook_steps.
Qed.

Lemma failAction_steps cl now c cat rv w r e w' r' : failAction clock cfg now c cat rv w r = (e, w', r') -> steps cl w w'.
Proof.
  unfold failAction. case_match; [intros [= _ <- _]; apply steps_refl|]. destruct (tx _ _ w) as [x w1] eqn:E. intros Hx.
  assert (w' = w1) as -> by (destruct x; by injection Hx). by eapply (steps_tx cl (fun clk => TxFailAct clk c _)).
Qed.

Lemma processAction_steps cl now c w r e w' r' : processAction clock shards cfg now c w r = (e, w', r') -> steps cl w w'.
Proof.
  unfold processAction. case_match; [apply failAction_steps|].
  destruct (callShard _ w) as [a w1] eqn:Ea. apply callShard_db in Ea. intros Hx. eapply steps_trans; [by apply steps_same|].
  destruct a as [ev|se]; [|by eapply failAction_steps]. case_match; [by eapply failAction_steps|].
  destruct (tx _ _ w1) as [x w2] eqn:E. assert (Hs : steps cl w1 w2) by by eapply (steps_tx cl (fun clk => TxCompleteAct clk c _)).
  eapply steps_trans; [exact Hs|]. destruct x; [injection Hx as _ <- _; apply steps_refl|].
  destruct (failAction _ _ _ _ _ _ _ _) as [[e2 w3] r3] eqn:Ef. injection Hx as _ <- _. by eapply failAction_steps.
Qed.

Lemma processAll_steps {C} (f : C -> WorkerWorld -> Result -> option WorkErr * WorkerWorld * Result) cl l w r errs w' r' errs' :
  (forall c w r e w' r', c ∈ l -> f c w r = (e, w', r') -> steps cl w w') ->
  processAll f l w r errs = (w', r', errs') -> steps cl w w'.
Proof.
  revert w r errs. induction l as [|c l IH]; intros w r errs Hf; simpl; [intros [= <- _ _]; apply steps_refl|].
  destruct (f c w r) as [[e w1] r1] eqn:E. intros Hx. eapply steps_trans; [eapply Hf; [by left|exact E]|].
  eapply IH; [|exact Hx]. intros. eapply Hf; [by right|done].
Qed.

(** A lane that adds no operation claims. *)
Lemma lane_steps {C} (mk : Z -> Tx) (claim : Z -> PM WErr (list C)) count f cl w r errs w' r' errs' :
  (forall clk s, runTx (mk clk) s = commit (claim clk) s) ->
  (forall c w r e w' r', f c w r = (e, w', r') -> steps cl w w') ->
  lane clock claim count f (w, r, errs) = (w', r', errs') -> steps cl w w'.
Proof.
  intros Hm Hf. unfold lane. destruct (tx clock claim w) as [x w1] eqn:E. apply (steps_tx cl mk) in E; [|done].
  destruct x as [l|e]; intros Hx; (eapply steps_trans; [exact E|]).
  - eapply processAll_steps; [|exact Hx]. intros. by eapply Hf.
  - injection Hx as <- _ _. apply steps_refl.
Qed.

Lemma operations_lane_steps o count now cl w r errs w' r' errs' :
  lane clock (ClaimOperations o) count (processOperation clock providers cfg now) (w, r, errs) = (w', r', errs') ->
  exists cl', reaches cl (ww_db w) cl' (ww_db w').
Proof.
  unfold lane, tx, run. destruct (ClaimOperations o _ (ww_db w)) as [[l db]|e] eqn:E; intros Hx.
  - exists (cl ++ l). eapply (reaches_trans _ _ (cl ++ l) db).
    + apply (reaches_one (TxClaimOps o (clock (ww_ticks w)))). simpl. by rewrite E.
    + eapply (processAll_steps _ (cl ++ l) l (mkWorkerWorld db (ww_prov w) (ww_shard w) (S (ww_ticks w)))); [|exact Hx].
      intros c w1 r1 e1 w2 r2 Hc Hp. apply list_elem_of_lookup_1 in Hc as [n Hn].
      eapply (processOperation_steps (length cl + n)); [|exact Hp]. rewrite lookup_app_r by lia. rewrite <- Hn. f_equal. lia.
  - injection Hx as <- _ _. exists cl. apply reaches_refl.
Qed.

Lemma RunOnce_reaches now w w' r' errs :
  RunOnce clock providers shards cfg now w = Some (w', r', errs) -> forall cl, exists cl', reaches cl (ww_db w) cl' (ww_db w').
Proof.
  intros Hr cl. unfold RunOnce in Hr. case_match; [done|]. cbv zeta in Hr.
  destruct (lane clock (ClaimOperations _) _ _ _) as [[w1 r1] e1] eqn:E1.
  destruct (lane clock (fun _ => ClaimWebhooks _) _ _ _) as [[w2 r2] e2] eqn:E2.
  destruct (lane clock (ClaimActions _) _ _ _) as [[w3 r3] e3] eqn:E3. injection Hr as <- _ _.
  destruct (operations_lane_steps _ _ _ cl _ _ _ _ _ _ E1) as [cl' H1]. exists cl'. eapply reaches_trans; [exact H1|].
  eapply reaches_trans.
  - eapply (lane_steps (fun _ => TxClaimHooks _)); [| |exact E2]; [done|]. intros. by eapply processWebhook_steps.
  - eapply (lane_steps (fun clk => TxClaimActs _ clk)); [| |exact E3]; [done|]. intros. by eapply processAction_steps.
Qed.
End Refinement.

(** ** Provider calls *)
Section Calls.
Context {hashing : Hashing} {P T : Type}.
Context (clock : nat -> Z) (providers : string -> option (Client P)) (shards : ShardGateway T) (cfg : Config).
Implicit Types (w : @WorkerWorld P T) (r : Result).

(** A transaction leaves the provider and the shards alone. *)
Definition sameOutside w w' : Prop := ww_prov w' = ww_prov w /\ ww_shard w' = ww_shard w.
Lemma tx_outside {E A} (m : Z -> PM E A) w x w' : tx clock m w = (x, w') -> sameOutside w w'.
Proof. unfold tx. destruct (run _ _). by intros [= _ <-]. Qed.
Lemma sameOutside_trans w1 w2 w3 : sameOutside w1 w2 -> sameOutside w2 w3 -> sameOutside w1 w3.
Proof. unfold sameOutside. intuition congruence. Qed.

Lemma failOperation_outside now c cat rv un w r e w' r' :
  failOperationWithUncertainty clock cfg now c cat rv un w r = (e, w', r') -> sameOutside w w'.
Proof.
  unfold failOperationWithUncertainty. destruct (tx _ _ w) as [x w1] eqn:E. apply tx_outside in E. intros Hx.
  destruct x; by injection Hx as _ <- _.
Qed.
Lemma failInvalid_outside now c w r e w' r' : failInvalidOperation clock cfg now c w r = (e, w', r') -> sameOutside w w'.
Proof.
  unfold failInvalidOperation. case_match; [by intros [= _ <- _]|]. case_match; [apply failOperation_outside|].
  destruct (tx _ _ w) as [x w1] eqn:E. apply tx_outside in E. destruct x; intros Hx; [|by injection Hx as _ <- _].
  eapply sameOutside_trans; [exact E|]. by eapply failOperation_outside.
Qed.
Lemma finishOperation_outside now c a w r e w' r' : finishOperation clock cfg now c a w r = (e, w', r') -> sameOutside w w'.
Proof.
  unfold finishOperation. destruct a as [ev|pe].
  - case_match.
    + destruct (tx _ _ w) as [x w1] eqn:E. apply tx_outside in E. destruct x; by intros [= _ <- _].
    + case_match; [apply failOperation_outside|]. destruct (e_disposition ev); try apply failOperation_outside.
      destruct (tx _ _ w) as [x w1] eqn:E. apply tx_outside in E. destruct x; by intros [= _ <- _].
  - destruct (classifyProviderError pe) as [[cat rt] un]. apply failOperation_outside.
Qed.

(** What processing an operation does to the provider: nothing, or one call
    that is made after the row has been begun (or is uncertain already). *)
Lemma processOperation_call now c w r e w' r' :
  processOperation clock providers cfg now c w r = (e, w', r') ->
  ww_shard w' = ww_shard w /\
  (ww_prov w' = ww_prov w \/
   exists client, providers (oc_provider c) = Some client /\
     (oc_previous c = Uncertain /\ ww_prov w' = (queryUncertain client c (ww_prov w)).2 \/
      oc_previous c <> Uncertain /\ is_ok (run (BeginOperation (clock (ww_ticks w)) c) (ww_db w)).1 = true /\
      ww_prov w' = (invokeProvider client c (ww_prov w)).2)).
Proof.
  unfold processOperation. case_match.
  { intros Hx. apply failInvalid_outside in Hx as [? ?]. auto. }
  case_match. { intros Hx. apply failOperation_outside in Hx as [? ?]. auto. }
  destruct (if bool_decide (oc_previous c = Uncertain) then _ else _) as [b w1] eqn:Eb.
  assert (Ho : sameOutside w w1). { case_match; [by injection Eb as _ <-|by eapply tx_outside]. }
  destruct b as [u|]; intros Hx; [|injection Hx as _ <- _; destruct Ho; auto].
  destruct (providers (oc_provider c)) as [client|]; [|apply failOperation_outside in Hx; destruct (sameOutside_trans _ _ _ Ho Hx); auto].
  unfold callProvider in Hx. destruct ((if bool_decide (oc_previous c = Uncertain) then _ else _) (ww_prov w1)) as [a p] eqn:Ea.
  apply finishOperation_outside in Hx as [Hp Hs]. simpl in Hp, Hs. destruct Ho as [Hp1 Hs1]. split; [congruence|]. right.
  exists client. split; [done|]. case_bool_decide as Hu.
  - left. split; [done|]. by rewrite Hp, <- Hp1, Ea.
  - right. split; [done|]. split; [|by rewrite Hp, <- Hp1, Ea]. unfold tx in Eb. destruct (run _ _) as [x db]. simpl. by injection Eb as -> _.
Qed.

Lemma oneRow_Ok st db db' u : oneRow st db = Ok (u, db') -> st db = Ok (1%nat, db').
Proof.
  intros Htx. apply bind_inv in Htx as (n & d & Hs & Htx). apply exec_Ok in Hs. destruct (n =? 1)%nat eqn:E; [|done].
  apply Nat.eqb_eq in E as ->. by injection Htx as _ <-.
Qed.

Lemma BeginOperation_inflight clk c db u db' :
  BeginOperation clk c db = Ok (u, db') ->
  exists row, ops db' !! oc_op c = Some row /\ o_state row = InFlight /\ held (o_lease row) (oc_lease c) clk = true.
Proof.
  unfold BeginOperation. case_match; [done|]. intros Htx. apply bind_inv in Htx as (v & d1 & Hu & Htx). apply oneRow_Ok in Hu.
  assert (Hops : ops db' = ops d1).
  { destruct (oc_type c); try by injection Htx as _ <-.
    - apply oneRow_Ok in Htx. unfold moveIntent, updIntents in Htx. inv_ok. by subst db'.
    - apply bind_inv in Htx as (v2 & d2 & H1 & Htx). apply oneRow_Ok in H1. apply oneRow_Ok in Htx. unfold moveIntent, updIntents, updSagas in *. inv_ok. by subst db' d2. }
  rewrite Hops. assert (Hsame : forall row, sameOp row (opTo InFlight row)) by (intros row; by repeat split).
  destruct (updOps_inv clk _ _ _ _ _ Hsame Hu) as (_ & _ & Hn & _ & Hfwd).
  destruct (countWhere_1 _ _ (eq_sym Hn)) as (k & row & Hk & Hp). destruct (Hfwd k row Hk) as (row' & Hk' & E).
  rewrite Hp in E. bools. subst k row'. eexists. split; [exact Hk'|]. done.
Qed.

(** C31: Processing an operation whose outcome is uncertain never repeats its
    side effect: the worker leaves the provider alone, reads the payment's
    status, or - for a checkout whose payment identity is unknown - replays
    the checkout with the claim's own idempotency key, amount and currency. *)
Theorem uncertain_operation_only_queried now c w r e w' r' :
  oc_previous c = Uncertain -> processOperation clock providers cfg now c w r = (e, w', r') ->
  ww_shard w' = ww_shard w /\
  (ww_prov w' = ww_prov w \/
   exists client, providers (oc_provider c) = Some client /\
     (oc_ppid c <> ""%string /\ ww_prov w' = (clientStatus client (oc_ppid c) (ww_prov w)).2 \/
      oc_ppid c = ""%string /\ oc_type c = OperationCreateCheckout /\
      ww_prov w' = (clientCheckout client (checkoutRequest c) (ww_prov w)).2)).
Proof.
  intros Hu Hx. apply processOperation_call in Hx as [Hs [Hp|(client & Hc & Hcall)]]; (split; [done|]); [by left|].
  destruct Hcall as [[_ Hp]|[Hno _]]; [|done]. unfold queryUncertain in Hp. case_bool_decide as H1; case_bool_decide as H2; simpl in Hp; rewrite ?Hp; auto.
  - right. exists client. split; [done|]. right. done.
  - right. exists client. split; [done|]. left. done.
  - right. exists client. split; [done|]. left. done.
Qed.

(** A side effect is requested from the provider only after the operation's
    row has durably become in_flight under the worker's unexpired lease: if
    BeginOperation is refused the provider is not called, and the call made is
    the one of the claim's type. *)
Theorem provider_called_in_flight now c w r e w' r' :
  oc_previous c <> Uncertain -> processOperation clock providers cfg now c w r = (e, w', r') -> ww_prov w' <> ww_prov w ->
  exists client db1 row, providers (oc_provider c) = Some client /\
    run (BeginOperation (clock (ww_ticks w)) c) (ww_db w) = (Ok tt, db1) /\ ops db1 !! oc_op c = Some row /\
    o_state row = InFlight /\ held (o_lease row) (oc_lease c) (clock (ww_ticks w)) = true /\
    ww_prov w' = (invokeProvider client c (ww_prov w)).2.
Proof.
  intros Hu Hx Hne. apply processOperation_call in Hx as [Hs [Hp|(client & Hc & Hcall)]]; [done|].
  destruct Hcall as [[? _]|(_ & Hb & Hp)]; [done|]. unfold run in *.
  destruct (BeginOperation _ c (ww_db w)) as [[[] db1]|] eqn:Eb; [|done].
  destruct (BeginOperation_inflight _ _ _ _ _ Eb) as (row & H1 & H2 & H3). by exists client, db1, row.
Qed.

End Calls.

(** The retry delay is a capped exponential backoff with at most a quarter
    of jitter: it is never below base*2^(attempt-1) or the maximum, never
    above the maximum, and no intermediate value overflows int64. *)
Theorem retry_delay_capped_exponential (id : uuid) (attempt base maximum : Z) :
  0 < base <= maximum -> maximum <= MaxInt64 ->
  exponential attempt base maximum <= retryDelay id attempt base maximum <=
    Z.min maximum (exponential attempt base maximum + exponential attempt base maximum / 4).
Proof. apply retryDelay_spec. Qed.

(** C32: Whatever text a provider or shard error carries, the category that the
    worker records matches ^[a-z][a-z0-9_]{0,63}$, the pattern that the tables
    check: recording a failure is never refused because of its category. *)
Theorem failure_category_well_formed (value : string) : validCategory (boundedCategory value) = true.
Proof. apply boundedCategory_valid. Qed.
