(* ===== verification/PaymentScenarios.v ===== *)
(** * Payment scenarios

    Concrete runs of the worker against a scripted provider: the witnesses of
    the worker's properties, and three runs in which an operation or a saga
    does not take the way the code means it to take. *)

From S2P Require Import Prelude PaymentDomain PaymentDb PaymentClaims PaymentFinalize PaymentControl PaymentWorker PaymentLogic PaymentSafety PaymentHistory PaymentWorkerSafety.
Import SamplePayment.

(** A provider that logs its calls and answers from a script. *)
Definition scripted (capture void : res ProviderError OperationResult) (status : res ProviderError Payment) : Client (list string) :=
  mkClient (list string)
    (fun q p => (Ok (mkCheckout "pay-1" "" StatusCreated (pq_amount q) (pq_currency q)), p ++ ["checkout"]))
    (fun _ p => (status, p ++ ["status"]))
    (fun _ p => (Err OtherError, p ++ ["authorize"]))
    (fun _ p => (capture, p ++ ["capture"]))
    (fun _ p => (void, p ++ ["void"]))
    (fun _ p => (Err OtherError, p ++ ["refund"])).
Definition idleShards : ShardGateway unit :=
  mkShardGateway unit (fun _ h => (Err (mkShardErr "" []), h)) (fun _ h => (Err (mkShardErr "" []), h))
    (fun _ h => (Err (mkShardErr "" []), h)) (fun _ h => (Err (mkShardErr "" []), h)).
Definition sampleConfig : Config := mkConfig "worker-1" 10 5 60000000000 4 16 1000000 1.

Definition rateLimited : ProviderError := ProviderErr "rate_limited" true false.
Definition timedOut : ProviderError := ProviderErr "timeout_unknown" true true.

(** Passes of the worker at the given instants, the clock of a pass being its instant. *)
Definition passes (client : Client (list string)) (times : list Z) (db : PDb) : option (@WorkerWorld (list string) unit) :=
  foldl (fun w now => w ← w; x ← RunOnce (fun _ => now) (fun _ => Some client) idleShards sampleConfig now w; Some x.1.1)
    (Some (mkWorkerWorld db [] tt 0)) times.

Definition opState (t : OperationType) (db : PDb) : list OperationState :=
  omap (fun kr => if bool_decide (o_type kr.2 = t) then Some (o_state kr.2) else None) (map_to_list (ops db)).
Definition sagaAtEnd (db : PDb) : option (SagaState * Step) := s ← sagas db !! 2%N; Some (s_state s, s_step s).
Definition intentAtEnd (db : PDb) : option IntentState := i_state <$> intents db !! 1%N.

(** ** Three runs *)

(** The customer cancels after the checkout. *)
Definition cancelling : PDb :=
  h_db (after (checkout ++ [TxCancel 300 (mkCancelIntentRequest 30 1 40 9 (cancellationFingerprint 30 1))])).

(** A void times out and is uncertain; the status query that follows is rate
    limited; the void is then sent again although no query has proved anything
    about the first one: FailOperation records the failed query as retryable. *)
Theorem uncertain_void_reissued :
  exists w, passes (scripted (Err rateLimited) (Err timedOut) (Err rateLimited)) [400; 500; 600] cancelling = Some w /\
    ww_prov w = ["void"; "status"; "void"]%string.
Proof. eexists. split; vm_compute; reflexivity. Qed.

(** The payment is authorized and its capture is due. *)
Definition authorizedHook : WebhookClaim := mkWebhookClaim 50 "sandbox" "evt-1" "payment.authorized" "pay-1" 299 1 "worker-1" 60000000301.
Definition capturing : PDb :=
  h_db (after (checkout ++
    [ TxStore 300 (mkHookRecord 50 "sandbox" "evt-1" "payment.authorized" "pay-1" 77 "key-1" 299 300 300 20 false);
      TxClaimHooks (at_ 301); TxCompleteHook 302 authorizedHook (mkWebhookEvidence StatusAuthorized 5000 "EUR" 0 0 302) ])).

(** A capture that fails retryably is returned to pending but never claimed
    again: BeginOperation has moved its saga to capturing, and ClaimOperations
    takes a capture only in authorized. *)
Theorem capture_retry_never_claimed :
  exists w, passes (scripted (Err rateLimited) (Err timedOut) (Err rateLimited)) [400; 500; 600; 700] capturing = Some w /\
    ww_prov w = ["capture"]%string /\ opState OperationCapture (ww_db w) = [Pending] /\
    sagaAtEnd (ww_db w) = Some (SagaCapturing, StepCapture).
Proof. eexists. split; [vm_compute; reflexivity|]. vm_compute. auto. Qed.

(** A completed payment is cancelled; the shard has been marked and the saga
    waits in (refunding, refund) for the refund. *)
Definition issueEvidence : ActionEvidence :=
  mkActionEvidence (mkIssueTicketsReceipt 0 0 1 10 60 [61%N] ["ABCDEFGHIJKLMNOP"%string] 5000 "EUR" 400 400) noMark noVoid noComp.
Definition actionOf (l : list Tx) (now : Z) : ActionClaim :=
  match ClaimActions (at_ now) now (h_db (after l)) with
  | Ok (c :: _, _) => c
  | _ => mkActionClaim 0 (ActionMarkRefundPending (mkMarkRefundPendingCommand 0 0 0 0 0 0 "" 0 0)) "" 0 "" 0
  end.
Definition completedPayment : list Tx :=
  captured ++ [TxClaimActs (at_ 400) 400; TxCompleteAct 401 (actionOf captured 400) issueEvidence].
Definition cancelledPayment : list Tx := completedPayment ++ [TxCancel 500 (mkCancelIntentRequest 30 1 41 9 (cancellationFingerprint 30 1))].
Definition refundPending : list Tx :=
  cancelledPayment ++ [TxClaimActs (at_ 600) 600; TxCompleteAct 601 (actionOf cancelledPayment 600) issueEvidence].
(** A refund event arrives before the worker has sent the refund. *)
Definition refundHook : WebhookClaim := mkWebhookClaim 51 "sandbox" "evt-2" "payment.refunded" "pay-1" 699 1 "worker-1" 60000000701.
Definition refundConfirmed : PDb :=
  h_db (after (refundPending ++
    [ TxStore 700 (mkHookRecord 51 "sandbox" "evt-2" "payment.refunded" "pay-1" 78 "key-1" 699 700 700 20 false);
      TxClaimHooks (at_ 701); TxCompleteHook 702 refundHook (mkWebhookEvidence StatusRefunded 5000 "EUR" 5000 5000 702) ])).

(** The refund is confirmed by the event, but the saga stays in (refunding,
    refund): the confirmation advances only a compensating saga, no lane of
    the worker claims this pair, and the reservation is never released. *)
Theorem refund_confirmed_by_event_stalls :
  intentAtEnd refundConfirmed = Some Refunded /\ opState OperationRefund refundConfirmed = [Succeeded] /\
  exists w, passes (scripted (Err rateLimited) (Err timedOut) (Err rateLimited)) [800; 900; 1000] refundConfirmed = Some w /\
    ww_prov w = [] /\ sagaAtEnd (ww_db w) = Some (SagaRefunding, StepRefund) /\ intentAtEnd (ww_db w) = Some Refunded.
Proof. split; [vm_compute; reflexivity|]. split; [vm_compute; reflexivity|]. eexists. split; [vm_compute; reflexivity|]. vm_compute. auto. Qed.

(** ** Witnesses *)
Definition sampleClient : Client (list string) := scripted (Err rateLimited) (Err timedOut) (Err rateLimited).
(** The claim of the due void, and the same claim after an unknown outcome. *)
Definition voidClaim : OperationClaim :=
  mkOperationClaim 40 1 10 20 30 "sandbox" OperationVoid Pending "pay-1" "" "" "key" 5000 "EUR" 1 300 "worker-1" 60000000400.
Definition uncertainClaim : OperationClaim :=
  mkOperationClaim 40 1 10 20 30 "sandbox" OperationVoid Uncertain "pay-1" "" "" "key" 5000 "EUR" 1 300 "worker-1" 60000000400.
Definition claimed : PDb := (run (ClaimOperations (at_ 400) 400) cancelling).2.
Definition cancellingWorld : @WorkerWorld (list string) unit := mkWorkerWorld cancelling [] tt 0.
Definition processed (c : OperationClaim) : option WorkErr * @WorkerWorld (list string) unit * Result :=
  processOperation (fun _ => 450) (fun _ => Some sampleClient) sampleConfig 450 c (mkWorkerWorld claimed [] tt 0) noResult.

Lemma uncertain_operation_only_queried_witness :
  oc_previous uncertainClaim = Uncertain /\ ww_prov (processed uncertainClaim).1.2 = ["status"%string] /\
  ww_shard (processed uncertainClaim).1.2 = tt.
Proof.
  split; [reflexivity|]. split; [vm_compute; reflexivity|]. unfold processed.
  destruct (processOperation _ _ _ _ _ _ _) as [[e w'] r'] eqn:E.
  destruct (uncertain_operation_only_queried (fun _ => 450) (fun _ => Some sampleClient) sampleConfig 450 uncertainClaim
              (mkWorkerWorld claimed [] tt 0) noResult e w' r' eq_refl E) as [Hs _]. exact Hs.
Defined.

Lemma provider_called_in_flight_witness :
  oc_previous voidClaim <> Uncertain /\ ww_prov (processed voidClaim).1.2 = ["void"%string] /\
  exists db1 row, run (BeginOperation 450 voidClaim) claimed = (Ok tt, db1) /\ ops db1 !! 40%N = Some row /\ o_state row = InFlight.
Proof.
  assert (Hc : ww_prov (processed voidClaim).1.2 = ["void"%string]) by (vm_compute; reflexivity).
  split; [discriminate|]. split; [exact Hc|]. unfold processed in Hc. destruct (processOperation _ _ _ _ _ _ _) as [[e w'] r'] eqn:E. simpl in Hc.
  destruct (provider_called_in_flight (fun _ => 450) (fun _ => Some sampleClient) sampleConfig 450 voidClaim
              (mkWorkerWorld claimed [] tt 0) noResult e w' r') as (client & db1 & row & _ & Hb & Hr & Hs & _).
  - discriminate.
  - exact E.
  - rewrite Hc. discriminate.
  - exists db1, row. auto.
Defined.


Lemma retry_delay_capped_exponential_witness :
  retryDelay (2 ^ 64 * 5) 3 1000 60000 = 4006 /\
  exponential 3 1000 60000 <= retryDelay (2 ^ 64 * 5) 3 1000 60000 <= Z.min 60000 (exponential 3 1000 60000 + exponential 3 1000 60000 / 4).
Proof.
  split; [vm_compute; reflexivity|]. apply (retry_delay_capped_exponential (2 ^ 64 * 5) 3 1000 60000); [lia|]. unfold MaxInt64. lia.
Defined.
