(* ===== verification/PaymentReconcile.v ===== *)
(** * Payment reconciliation

    Models [src/internal/payment/reconcile/reconciler.go] and [types.go]: the
    checks of one payment across the control database, its shard and the
    provider, and the passes that escalate what they find or replay a recorded
    command.  The store, the providers, the repairer, the context and the clock
    are interfaces: what they answer is an arbitrary function of the calls made
    so far, and the calls are recorded in the order of the code.  The columns of
    a snapshot that no check reads are left out.  Errors are
    lists: nil is the empty list, errors.Join concatenates.  Nil receivers and
    contexts are not modelled; the counters of a result stay below 2^63. *)

From S2P Require Import Prelude PaymentDomain PaymentDb PaymentWorker.

Module Reconcile.
Definition MaxBatchSize : Z := 1000.
Definition MaxFindingsPerIntent : nat := 64.
Inductive RErr :=
| ErrInvalidConfiguration | ErrInvalidRequest | ErrRepairConfirmation | ErrRepairUnavailable | ErrContext | ErrStore (call : string) | ErrReplay.
Abbreviation Error := (list RErr).

Inductive Scope := ScopeIntents | ScopeOperations | ScopeWebhooks | ScopeTickets | ScopeProvider | ScopeAll | ScopeOther (raw : string).
#[export] Instance Scope_eq_dec : EqDecision Scope.
Proof. solve_decision. Defined.
Definition Valid (scope : Scope) : bool := match scope with ScopeOther _ => false | _ => true end.

Record Config := mkConfig { BatchSize : Z; StaleAfter : Z; ReviewDue : Z; hasRepairer : bool }.
Record Options := mkOptions { op_scope : Scope; op_limit : Z; op_repair : bool; op_confirm : bool }.
Record Intent := mkIntent {
  it_id : uuid; it_provider : string; it_ppid : string; it_state : string; it_amount : Z; it_currency : string; it_fp : digest; it_active : Z }.
Record Saga := mkSaga { sg_id : uuid; sg_state : string; sg_step : string; sg_error : string; sg_active : Z }.
Record Operation := mkOperation { ope_type : string; ope_state : string; ope_poid : string; ope_amount : Z }.
Record ControlSnapshot := mkControl {
  cn_intent : Intent; cn_saga : Saga; cn_operations : list Operation; cn_dupEvents : Z; cn_eventConflicts : Z; cn_reviews : Z; cn_cases : Z }.
Record RecordedCommand := mkCommand { cd_id : uuid; cd_kind : string; cd_fp : digest }.
Record ShardSnapshot := mkShard {
  sh_found : bool; sh_resolved : bool; sh_reservation : string; sh_amount : Z; sh_currency : string; sh_seats : Z; sh_orderFound : bool;
  sh_orderState : string; sh_orderAmount : Z; sh_orderCurrency : string; sh_issuance : bool; sh_issuanceIntent : uuid; sh_begin : bool;
  sh_refundPending : bool; sh_cancellation : bool; sh_compensation : bool; sh_fp : digest; sh_active : Z; sh_cancelled : Z; sh_dupCodes : Z;
  sh_missingClaims : Z; sh_conflictCodes : Z; sh_unexpectedClaims : Z; sh_commands : list RecordedCommand }.
Definition zeroShard : ShardSnapshot := mkShard false false "" 0 "" 0 false "" 0 "" false 0 false false false false 0 0 0 0 0 0 0 [].
Record Finding := mkFinding { fd_code : string; fd_repairable : bool; fd_command : uuid; fd_fp : digest }.
Record Report := mkReport { rp_intent : uuid; rp_scope : Scope; rp_rows : Z; rp_findings : list Finding; rp_queried : bool; rp_repairs : Z; rp_truncated : bool }.
Record Result := mkResult {
  rs_scope : Scope; rs_readOnly : bool; rs_rows : Z; rs_mismatches : Z; rs_repairs : Z; rs_reviews : Z; rs_truncated : bool; rs_reports : list Report }.
Definition zeroResult : Result := mkResult (ScopeOther "") false 0 0 0 0 false [].

(** ** The interfaces *)
Inductive Event :=
| EvCandidates (scope : Scope) (before limit : Z)
| EvControl (id : uuid)
| EvShard (id : uuid) (answer : option ShardSnapshot)
| EvStatus (provider ppid : string)
| EvStart (scope : Scope) (intent : uuid) (repair : bool) (now : Z)
| EvFinish (checkpoint : uuid) (rows mismatches repairs : Z) (truncated failed : bool)
| EvEscalate (checkpoint id : uuid) (code : string) (due : Z)
| EvReplay (id : uuid) (command : RecordedCommand).
Abbreviation History := (list Event).
(** [None]: an error. *)
Record World := mkWorld {
  w_candidates : History -> option (list uuid * bool);
  w_control : History -> option ControlSnapshot;
  w_shard : History -> option ShardSnapshot;
  w_registered : string -> bool;
  w_status : History -> option Payment;
  w_start : History -> option uuid;
  w_finish : History -> bool;
  w_escalate : History -> bool * bool;
  w_replay : History -> bool;
  w_cancelled : History -> bool;
  w_now : History -> Z }.

Definition M (A : Type) : Type := History -> A * History.
#[export] Instance M_ret : MRet M := fun A a h => (a, h).
#[export] Instance M_bind : MBind M := fun A B k m h => let '(a, h') := m h in k a h'.
(** A call: the answer may depend on the call and on what was called before. *)
Definition call {A} (e : Event) (answer : History -> A) : M A := fun h => (answer (h ++ [e]), h ++ [e]).
Definition look {A} (f : History -> A) : M A := fun h => (f h, h).

(** ** Findings *)
(** The list of findings so far, and whether one was dropped. *)
Abbreviation Found := (list Finding * bool)%type.
Definition add (code : string) (s : Found) : Found :=
  if existsb (fun f => bool_decide (fd_code f = code)) s.1 then s else
  if (MaxFindingsPerIntent <=? length s.1)%nat then (s.1, true) else
  (s.1 ++ [mkFinding code false uuidNil 0%N], s.2).
Definition addIf (b : bool) (code : string) (s : Found) : Found := if b then add code s else s.

Record Tally := mkTally {
  tl_captured : Z; tl_refunded : Z; tl_captures : Z; tl_refunds : Z; tl_succeeded : Z; tl_poids : list string; tl_uncertain : bool }.
(** One turn of the loop over the operations. *)
Definition tallyOne (o : Operation) (t : Tally) : Tally :=
  let uncertain := tl_uncertain t || bool_decide (ope_state o = "uncertain"%string) in
  let poids := if bool_decide (ope_poid o = ""%string) then tl_poids t else ope_poid o :: tl_poids t in
  let succeeded := bool_decide (ope_state o = "succeeded"%string) in
  if bool_decide (ope_type o = "capture"%string) then
    mkTally (if succeeded then wrap64 (tl_captured t + ope_amount o) else tl_captured t) (tl_refunded t) (tl_captures t + 1) (tl_refunds t)
      (if succeeded then tl_succeeded t + 1 else tl_succeeded t) poids uncertain
  else if bool_decide (ope_type o = "refund"%string) then
    mkTally (tl_captured t) (if succeeded then wrap64 (tl_refunded t + ope_amount o) else tl_refunded t) (tl_captures t) (tl_refunds t + 1)
      (tl_succeeded t) poids uncertain
  else mkTally (tl_captured t) (tl_refunded t) (tl_captures t) (tl_refunds t) (tl_succeeded t) poids uncertain.
Fixpoint tallyAll (ops : list Operation) (t : Tally) (s : Found) : Tally * Found :=
  match ops with
  | [] => (t, s)
  | o :: ops =>
      let s := addIf (negb (bool_decide (ope_poid o = ""%string)) && bool_decide (ope_poid o ∈ tl_poids t)) "duplicate_provider_operation_id" s in
      tallyAll ops (tallyOne o t) s
  end.
Definition scopeIs (scope : Scope) (l : list Scope) : bool := bool_decide (scope ∈ l).
Definition checkControl (scope : Scope) (c : ControlSnapshot) (s : Found) : Found :=
  let s := if scopeIs scope [ScopeIntents; ScopeAll] then
             let s := addIf (1 <? it_active (cn_intent c)) "multiple_active_payment_intents" s in
             let s := addIf (1 <? sg_active (cn_saga c)) "multiple_active_payment_sagas" s in
             let s := addIf (bool_decide (sg_id (cn_saga c) = uuidNil)) "payment_saga_missing" s in
             addIf (bool_decide (it_state (cn_intent c) = "manual_review"%string) && (cn_reviews c =? 0)) "manual_review_not_visible" s
           else s in
  let s := if scopeIs scope [ScopeWebhooks; ScopeAll] then
             addIf (0 <? cn_eventConflicts c) "provider_event_payload_conflict" (addIf (0 <? cn_dupEvents c) "duplicate_provider_event_id" s)
           else s in
  if negb (scopeIs scope [ScopeOperations; ScopeAll]) then s else
  let '(t, s) := tallyAll (cn_operations c) (mkTally 0 0 0 0 0 [] false) s in
  let s := addIf (1 <? tl_captures t) "duplicate_capture_operation" s in
  let s := addIf (1 <? tl_refunds t) "duplicate_refund_operation" s in
  let s := addIf ((0 <? tl_succeeded t) && negb (tl_captured t =? it_amount (cn_intent c))) "captured_amount_mismatch" s in
  let s := addIf (tl_captured t <? tl_refunded t) "refund_exceeds_capture" s in
  let s := addIf (bool_decide (sg_state (cn_saga c) = "completed"%string) && (negb (tl_succeeded t =? 1) || negb (tl_captured t =? it_amount (cn_intent c))))
             "completed_saga_without_full_capture" s in
  addIf (tl_uncertain t && (cn_cases c =? 0)) "uncertain_operation_without_reconciliation" s.

Definition hasSucceeded (ops : list Operation) (kind : string) : bool :=
  existsb (fun o => bool_decide (ope_type o = kind) && bool_decide (ope_state o = "succeeded"%string)) ops.
Fixpoint succeededFrom (ops : list Operation) (kind : string) (total : Z) : Z :=
  match ops with
  | [] => total
  | o :: ops => succeededFrom ops kind (if bool_decide (ope_type o = kind) && bool_decide (ope_state o = "succeeded"%string) then wrap64 (total + ope_amount o) else total)
  end.
Definition succeededAmount (ops : list Operation) (kind : string) : Z := succeededFrom ops kind 0.

Definition capturedRequiresIssuedTickets (c : ControlSnapshot) (sh : ShardSnapshot) (refunded voided : bool) : bool :=
  if refunded || voided then false else
  if bool_decide (it_state (cn_intent c) ∈ ["refund_pending"; "refunded"; "voided"; "cancelled"]) then false else
  if bool_decide (it_state (cn_intent c) = "manual_review"%string) then
    negb (bool_decide (sg_state (cn_saga c) = "manual_review"%string) && bool_decide (sg_step (cn_saga c) = "refund"%string) &&
          bool_decide (sg_error (cn_saga c) = "database_finalize_failed"%string) && sh_refundPending sh)
  else true.
Definition controlFinalizeIncomplete (c : ControlSnapshot) (intentState sagaState step : string) (intentMayBeManual : bool) : bool :=
  let state := it_state (cn_intent c) in
  if bool_decide (state = intentState) && bool_decide (sg_state (cn_saga c) = sagaState) && bool_decide (sg_step (cn_saga c) = step) then true else
  let intentMatches := bool_decide (state = intentState) || intentMayBeManual && bool_decide (state = "manual_review"%string) in
  intentMatches && bool_decide (sg_state (cn_saga c) = "manual_review"%string) && bool_decide (sg_step (cn_saga c) = step) &&
  bool_decide (sg_error (cn_saga c) = "database_finalize_failed"%string).

Definition checkShard (scope : Scope) (c : ControlSnapshot) (sh : ShardSnapshot) (s : Found) : Found :=
  if negb (scopeIs scope [ScopeIntents; ScopeTickets; ScopeAll]) then s else
  if negb (sh_resolved sh) then add "reservation_directory_unresolved" s else
  if negb (sh_found sh) then add "shard_payment_state_missing" s else
  let i := cn_intent c in
  let s := addIf (negb (it_amount i =? sh_amount sh)) "reservation_amount_mismatch" s in
  let s := addIf (negb (bool_decide (it_currency i = sh_currency sh))) "reservation_currency_mismatch" s in
  let captured := hasSucceeded (cn_operations c) "capture" in
  let refunded := hasSucceeded (cn_operations c) "refund" in
  let voided := hasSucceeded (cn_operations c) "void" in
  let s := if scopeIs scope [ScopeIntents; ScopeAll] && bool_decide (it_state i = "reservation_securing"%string) && sh_begin sh then
             if (sh_fp sh =? it_fp i)%N then add "begin_payment_shard_committed_control_incomplete" s else add "begin_payment_shard_receipt_mismatch" s
           else s in
  let s := addIf (scopeIs scope [ScopeIntents; ScopeAll] && captured &&
                  negb (bool_decide (sh_reservation sh ∈ ["payment_pending"; "confirmed"; "refund_pending"; "cancelled"])))
             "captured_payment_reservation_state_mismatch" s in
  if negb (scopeIs scope [ScopeTickets; ScopeAll]) then s else
  let issued := bool_decide (sh_orderState sh = "issued"%string) in
  let s := addIf (bool_decide (it_state i = "completed"%string) && (negb (sh_orderFound sh) || negb issued)) "completed_payment_without_issued_ticket_order" s in
  let s := addIf (captured && capturedRequiresIssuedTickets c sh refunded voided && (negb (sh_orderFound sh) || negb issued)) "captured_payment_without_ticket" s in
  let s := addIf (negb captured && (issued || (0 <? sh_active sh))) "ticket_without_captured_payment" s in
  let s := addIf (sh_orderFound sh && negb (sh_orderAmount sh =? it_amount i)) "ticket_order_amount_mismatch" s in
  let s := addIf (sh_orderFound sh && negb (bool_decide (sh_orderCurrency sh = it_currency i))) "ticket_order_currency_mismatch" s in
  let s := addIf (issued && negb (sh_issuance sh)) "issued_ticket_order_without_receipt" s in
  let s := addIf (sh_issuance sh && negb (bool_decide (sh_issuanceIntent sh = it_id i))) "issuance_receipt_intent_mismatch" s in
  let s := addIf (sh_issuance sh && controlFinalizeIncomplete c "ticket_issue_pending" "issuing_tickets" "issue_tickets" true)
             "issuance_receipt_control_not_finalized" s in
  let s := addIf (sh_refundPending sh && controlFinalizeIncomplete c "refund_pending" "compensating" "refund" true)
             "refund_pending_receipt_control_not_finalized" s in
  let s := addIf (refunded && sh_compensation sh && controlFinalizeIncomplete c "refunded" "refunding" "compensate" false)
             "refund_receipt_control_not_finalized" s in
  let s := addIf (voided && sh_cancellation sh && negb (sh_compensation sh) && controlFinalizeIncomplete c "voided" "compensating" "compensate" false)
             "void_receipt_control_not_finalized" s in
  let s := if bool_decide (sh_reservation sh = "confirmed"%string) && (sh_active sh =? 0) then add "confirmed_reservation_without_active_ticket" s
           else addIf (issued && negb (sh_active sh =? sh_seats sh)) "ticket_count_mismatch" s in
  let s := addIf (refunded && (0 <? sh_active sh)) "fully_refunded_payment_with_active_ticket" s in
  let s := addIf (voided && negb (bool_decide (sh_reservation sh = "cancelled"%string))) "voided_payment_with_live_reservation" s in
  let s := addIf ((0 <? sh_cancelled sh) && captured && negb refunded && negb (bool_decide (it_state i = "refund_pending"%string)))
             "cancelled_ticket_without_required_refund" s in
  let s := addIf (0 <? sh_dupCodes sh) "duplicate_ticket_code" s in
  let s := addIf (0 <? sh_missingClaims sh) "global_ticket_code_claim_missing" s in
  let s := addIf (0 <? sh_conflictCodes sh) "global_ticket_code_conflict" s in
  let s := addIf (0 <? sh_unexpectedClaims sh) "global_ticket_code_claim_unexpected" s in
  addIf (sh_issuance sh && negb (sh_fp sh =? 0)%N && negb (sh_fp sh =? it_fp i)%N) "shard_control_fingerprint_mismatch" s.

(** What [checkProvider] does with a status. *)
Definition checkStatus (c : ControlSnapshot) (p : Payment) (s : Found) : Found :=
  let s := addIf (negb (py_amount p =? it_amount (cn_intent c)) || negb (bool_decide (py_currency p = it_currency (cn_intent c)))) "provider_money_mismatch" s in
  let ops := cn_operations c in
  let s := addIf (negb (py_captured p =? succeededAmount ops "capture") ||
                  hasSucceeded ops "capture" && negb (bool_decide (py_status p = StatusCaptured)) && negb (bool_decide (py_status p = StatusRefunded)))
             "provider_capture_mismatch" s in
  addIf (negb (py_refunded p =? succeededAmount ops "refund") || hasSucceeded ops "refund" && negb (bool_decide (py_status p = StatusRefunded)))
    "provider_refund_mismatch" s.
Definition shouldQueryProvider (scope : Scope) (c : ControlSnapshot) : bool :=
  scopeIs scope [ScopeProvider; ScopeAll] || existsb (fun o => bool_decide (ope_state o = "uncertain"%string)) (cn_operations c).

(** ** Commands *)
Definition repairKind (code : string) : string :=
  if bool_decide (code = "begin_payment_shard_committed_control_incomplete"%string) then "finalize_reservation_begin" else
  if bool_decide (code = "issuance_receipt_control_not_finalized"%string) then "issue_tickets" else
  if bool_decide (code = "refund_pending_receipt_control_not_finalized"%string) then "mark_refund_pending" else
  if bool_decide (code = "refund_receipt_control_not_finalized"%string) then "apply_refund_compensation" else
  if bool_decide (code = "void_receipt_control_not_finalized"%string) then "cancel_voided_reservation" else "".
Definition validateRecordedCommand (c : RecordedCommand) : bool :=
  negb (bool_decide (cd_id c = uuidNil)) &&
  bool_decide (cd_kind c ∈ ["finalize_reservation_begin"; "issue_tickets"; "mark_refund_pending"; "apply_refund_compensation"; "cancel_voided_reservation"]) &&
  negb (cd_fp c =? 0)%N.
(** The switch of matchingRecordedCommand is that of repairKind. *)
Definition matchingRecordedCommand (code : string) (commands : list RecordedCommand) : option RecordedCommand :=
  find (fun c => bool_decide (cd_kind c = repairKind code) && validateRecordedCommand c) commands.
Definition commandForFinding (f : Finding) : option RecordedCommand :=
  if negb (bool_decide (fd_command f = uuidNil)) && negb (fd_fp f =? 0)%N then Some (mkCommand (fd_command f) (repairKind (fd_code f)) (fd_fp f)) else None.
Definition withCommand (commands : list RecordedCommand) (f : Finding) : Finding :=
  match matchingRecordedCommand (fd_code f) commands with
  | Some c => mkFinding (fd_code f) true (cd_id c) (cd_fp c)
  | None => f
  end.

(** ** Passes *)
Section Passes.
Context (w : World) (r : Config).

(** checkProvider. *)
Definition checkProvider (c : ControlSnapshot) (s : Found) : M Found :=
  if bool_decide (it_ppid (cn_intent c) = ""%string) || negb (w_registered w (it_provider (cn_intent c))) then mret (add "provider_status_unavailable" s) else
  status ← call (EvStatus (it_provider (cn_intent c)) (it_ppid (cn_intent c))) (w_status w);
  match status with
  | None => mret (add "provider_status_query_failed" s)
  | Some p => mret (checkStatus c p s)
  end.
Definition loadShard (scope : Scope) (id : uuid) : M (option ShardSnapshot) :=
  if scopeIs scope [ScopeIntents; ScopeTickets; ScopeAll] then
    fun h => let answer := w_shard w h in (answer, h ++ [EvShard id answer])
  else mret (Some zeroShard).
Definition finishFindings (commands : list RecordedCommand) (fs : list Finding) : list Finding :=
  sortBy (fun a b => String.leb (fd_code a) (fd_code b)) (withCommand commands <$> fs).
Definition inspect (id : uuid) (scope : Scope) : M (Error + Report) :=
  if bool_decide (id = uuidNil) || negb (Valid scope) then mret (inl [ErrInvalidRequest]) else
  control ← call (EvControl id) (w_control w);
  match control with
  | None => mret (inl [ErrStore "control"])
  | Some c =>
      if negb (bool_decide (it_id (cn_intent c) = id)) then mret (inl [ErrInvalidRequest]) else
      shard ← loadShard scope id;
      match shard with
      | None => mret (inl [ErrStore "shard"])
      | Some sh =>
          let s := checkShard scope c sh (checkControl scope c ([], false)) in
          let queried := shouldQueryProvider scope c in
          s ← (if queried then checkProvider c s else mret s);
          mret (inr (mkReport id scope 1 (finishFindings (sh_commands sh) s.1) queried 0 s.2))
      end
  end.

(** The loop over the findings of a payment: the findings with their commands,
    the repairs applied, the reviews created, and the error. *)
Fixpoint handleFindings (repair : bool) (checkpoint id : uuid) (due : Z) (fs : list Finding) (replayed : list uuid) (applied reviews : Z)
    : M (list Finding * Z * Z * Error) :=
  match fs with
  | [] => mret ([], applied, reviews, [])
  | f :: fs =>
      match (if repair && fd_repairable f then commandForFinding f else None) with
      | Some command =>
          let f' := mkFinding (fd_code f) (fd_repairable f) (cd_id command) (fd_fp f) in
          if bool_decide (cd_id command ∈ replayed) then
            '(fs', applied, reviews, err) ← handleFindings repair checkpoint id due fs replayed applied reviews; mret (f' :: fs', applied, reviews, err)
          else if negb (validateRecordedCommand command) then mret ([], applied, reviews, [ErrInvalidRequest]) else
          failed ← call (EvReplay id command) (w_replay w);
          if failed : bool then
            '(created, escalationFailed) ← call (EvEscalate checkpoint id "safe_replay_failed" due) (w_escalate w);
            mret ([], applied, if created : bool then reviews + 1 else reviews, ErrReplay :: if escalationFailed : bool then [ErrStore "escalate"] else [])
          else
            '(fs', applied, reviews, err) ← handleFindings repair checkpoint id due fs (cd_id command :: replayed) (applied + 1) reviews;
            mret (f' :: fs', applied, reviews, err)
      | None =>
          '(created, escalationFailed) ← call (EvEscalate checkpoint id (fd_code f) due) (w_escalate w);
          if escalationFailed : bool then mret ([], applied, reviews, [ErrStore "escalate"]) else
          '(fs', applied, reviews, err) ← handleFindings repair checkpoint id due fs replayed applied (if created : bool then reviews + 1 else reviews);
          mret (f :: fs', applied, reviews, err)
      end
  end.
Fixpoint reconcileLoop (scope : Scope) (repair : bool) (checkpoint : uuid) (due : Z) (ids : list uuid) (result : Result) : M (Result * Error) :=
  match ids with
  | [] => mret (result, [])
  | id :: ids =>
      cancelled ← look (w_cancelled w);
      if cancelled : bool then mret (result, [ErrContext]) else
      inspected ← inspect id scope;
      match inspected with
      | inl err => mret (result, err)
      | inr rp =>
          let rows := rs_rows result + rp_rows rp in
          let mismatches := if bool_decide (rp_findings rp = []) then rs_mismatches result else rs_mismatches result + 1 in
          '(fs, applied, reviews, err) ← handleFindings repair checkpoint id due (rp_findings rp) [] (rp_repairs rp) (rs_reviews result);
          if bool_decide (length err = 0%nat) then
            let rp := mkReport (rp_intent rp) (rp_scope rp) (rp_rows rp) fs (rp_queried rp) applied (rp_truncated rp) in
            reconcileLoop scope repair checkpoint due ids
              (mkResult (rs_scope result) (rs_readOnly result) rows mismatches (if 0 <? applied then rs_repairs result + 1 else rs_repairs result) reviews
                 (rs_truncated result) (rs_reports result ++ [rp]))
          else mret (mkResult (rs_scope result) (rs_readOnly result) rows mismatches (rs_repairs result) reviews (rs_truncated result) (rs_reports result), err)
      end
  end.
Definition singleIntent (ids : list uuid) : uuid := match ids with [id] => id | _ => uuidNil end.
Definition reconcileIDs (scope : Scope) (ids : list uuid) (truncated repair confirmed : bool) : M (Result * Error) :=
  if negb (Valid scope) || (MaxBatchSize <? Z.of_nat (length ids)) || negb (Bool.eqb repair confirmed) then mret (zeroResult, [ErrInvalidRequest]) else
  now ← look (w_now w);
  checkpoint ← call (EvStart scope (singleIntent ids) repair now) (w_start w);
  match checkpoint with
  | None => mret (zeroResult, [ErrStore "start"])
  | Some cp =>
      '(result, err) ← reconcileLoop scope repair cp (now + ReviewDue r) ids (mkResult scope (negb repair) 0 0 0 0 truncated []);
      failed ← call (EvFinish cp (rs_rows result) (rs_mismatches result) (rs_repairs result) (rs_truncated result) (negb (bool_decide (length err = 0%nat)))) (w_finish w);
      mret (result, err ++ if failed : bool then [ErrStore "finish"] else [])
  end.

Fixpoint distinctIDs (ids : list uuid) (seen : list uuid) : list uuid :=
  match ids with
  | [] => []
  | id :: ids => if bool_decide (id = uuidNil) || bool_decide (id ∈ seen) then distinctIDs ids seen else id :: distinctIDs ids (id :: seen)
  end.
Definition canonicalIDs (ids : list uuid) (limit : Z) : list uuid := take (Z.to_nat limit) (sortBy (fun a b => (a <=? b)%N) (distinctIDs ids [])).
Fixpoint reconcileEach (o : Options) (truncated : bool) (ids : list uuid) (result : Result) : M (Result * Error) :=
  match ids with
  | [] => mret (result, [])
  | id :: ids =>
      '(part, err) ← reconcileIDs (op_scope o) [id] (truncated && bool_decide (ids = [])) (op_repair o) (op_confirm o);
      let result := mkResult (rs_scope result) (rs_readOnly result) (rs_rows result + rs_rows part) (rs_mismatches result + rs_mismatches part)
                      (rs_repairs result + rs_repairs part) (rs_reviews result + rs_reviews part) (rs_truncated result) (rs_reports result ++ rs_reports part) in
      if bool_decide (length err = 0%nat) then reconcileEach o truncated ids result else mret (result, err)
  end.
Definition ReconcileAll (o : Options) : M (Result * Error) :=
  if negb (Valid (op_scope o)) || (op_limit o <? 1) || (MaxBatchSize <? op_limit o) then mret (zeroResult, [ErrInvalidRequest]) else
  if op_repair o && negb (op_confirm o) then mret (zeroResult, [ErrRepairConfirmation]) else
  if op_repair o && negb (hasRepairer r) then mret (zeroResult, [ErrRepairUnavailable]) else
  now ← look (w_now w);
  candidates ← call (EvCandidates (op_scope o) (now - StaleAfter r) (op_limit o)) (w_candidates w);
  match candidates with
  | None => mret (zeroResult, [ErrStore "candidates"])
  | Some (ids, truncated) =>
      let truncated := if op_limit o <? Z.of_nat (length ids) then true else truncated in
      let ids := canonicalIDs ids (op_limit o) in
      match ids with
      | [] => reconcileIDs (op_scope o) [] truncated (op_repair o) (op_confirm o)
      | _ => reconcileEach o truncated ids (mkResult (op_scope o) (negb (op_repair o)) 0 0 0 0 truncated [])
      end
  end.
Definition RunOnce : M (Result * Error) := ReconcileAll (mkOptions ScopeAll (BatchSize r) false false).
Definition InspectPayment (id : uuid) : M (Error + Report) := inspect id ScopeAll.
Definition ReconcilePayment (id : uuid) : M (Result * Error) :=
  if bool_decide (id = uuidNil) then mret (zeroResult, [ErrInvalidRequest]) else reconcileIDs ScopeAll [id] false false false.
Definition RepairPayment (id : uuid) : M (Result * Error) :=
  if negb (hasRepairer r) || bool_decide (id = uuidNil) then mret (zeroResult, [ErrRepairUnavailable]) else reconcileIDs ScopeAll [id] false true true.
End Passes.
Definition New (c : Config) : option Config :=
  if (BatchSize c <? 1) || (MaxBatchSize <? BatchSize c) || (StaleAfter c <=? 0) || (ReviewDue c <=? 0) then None else Some c.
End Reconcile.
