(* ===== verification/PaymentReconcileSafety.v ===== *)
(** * Payment reconciliation: what a pass does

    A pass replays only commands that the shard recorded for the payment, each
    at most once and only when a repair was confirmed; what it cannot repair it
    escalates; and a payment it reports clean is consistent across the control
    database, its shard and the provider. *)

From S2P Require Import Prelude PaymentDomain PaymentDb PaymentWorker PaymentReconcile.
Import Reconcile.

Lemma mbind_inv {A B} (m : M A) (k : A -> M B) h x : (m ≫= k) h = x -> exists a h1, m h = (a, h1) /\ k a h1 = x.
Proof. unfold mbind, M_bind. destruct (m h) as [a h1]. eauto. Qed.
Lemma ret_inv {A} (a b : A) (h h' : History) : (mret a : M A) h = (b, h') -> b = a /\ h' = h.
Proof. by intros [= <- <-]. Qed.
Lemma call_inv {A} e (f : History -> A) h a h' : call e f h = (a, h') -> h' = h ++ [e].
Proof. by intros [= _ <-]. Qed.
Lemma cons_split {A} (x e : A) l pre post : x :: l = pre ++ e :: post -> (pre = [] /\ e = x /\ post = l) \/ exists pre', pre = x :: pre' /\ l = pre' ++ e :: post.
Proof. destruct pre as [|y pre]; cbn; intros [= -> ->]; [by left|right; eauto]. Qed.

(** ** Traces *)
(** Every replay is confirmed, of a command that the shard's answer for the
    payment recorded before, and the first of that command for the payment. *)
Definition okTrace (repair : bool) (tr : History) : Prop := forall pre id c post, tr = pre ++ EvReplay id c :: post ->
  repair = true /\ validateRecordedCommand c = true /\ (exists sh, EvShard id (Some sh) ∈ pre /\ c ∈ sh_commands sh) /\
  forall c', EvReplay id c' ∈ pre -> cd_id c' <> cd_id c.
Definition touches (ids : list uuid) (tr : History) : Prop := forall id c, EvReplay id c ∈ tr -> id ∈ ids.
(** Every finding of a report was escalated or repaired. *)
Definition handled (tr : History) (rp : Report) : Prop := forall f, f ∈ rp_findings rp ->
  (exists cp due, EvEscalate cp (rp_intent rp) (fd_code f) due ∈ tr) \/ (exists c, EvReplay (rp_intent rp) c ∈ tr /\ cd_id c = fd_command f).

Lemma split_in {A} (x : A) l : x ∈ l -> exists pre post, l = pre ++ x :: post.
Proof. apply list_elem_of_split. Qed.
Lemma okTrace_quiet repair tr : touches [] tr -> okTrace repair tr.
Proof. intros H pre id c post ->. assert (Hin : id ∈ []); [|by apply not_elem_of_nil in Hin]. eapply H. apply elem_of_app. right. by left. Qed.
Lemma app_split {A} (a b pre post : list A) x :
  a ++ b = pre ++ x :: post -> (exists post', a = pre ++ x :: post') \/ (exists pre', pre = a ++ pre' /\ b = pre' ++ x :: post).
Proof.
  revert pre. induction a as [|y a IH]; intros pre H; [right; by exists pre|]. destruct pre as [|z pre]; cbn in H.
  - injection H as -> _. left. by exists a.
  - injection H as -> H. destruct (IH pre H) as [(post' & ->)|(pre' & -> & ->)]; [left|right]; eauto.
Qed.
Lemma okTrace_app repair a b ids ids' :
  okTrace repair a -> okTrace repair b -> touches ids a -> touches ids' b -> (forall i, i ∈ ids -> i ∉ ids') -> okTrace repair (a ++ b).
Proof.
  intros Ha Hb Ta Tb Hdis pre id c post [(post' & H)|(pre' & -> & H)]%app_split; [by eapply Ha|].
  destruct (Hb _ _ _ _ H) as (? & ? & (sh & Hs & ?) & Hn). split_and!; [done|done| |].
  - exists sh. split; [apply elem_of_app; by right|done].
  - intros c' [Hin|Hin]%elem_of_app; [|by apply Hn]. exfalso. eapply Hdis; [by eapply Ta|]. eapply (Tb id c). rewrite H. apply elem_of_app. right. by left.
Qed.
Lemma touches_app ids ids' a b : touches ids a -> touches ids' b -> touches (ids ++ ids') (a ++ b).
Proof. intros Ha Hb id c [H|H]%elem_of_app; apply elem_of_app; [left|right]; eauto. Qed.
Lemma touches_mono ids ids' tr : touches ids tr -> ids ⊆ ids' -> touches ids' tr.
Proof. intros H Hs id c Hin. eapply Hs, H, Hin. Qed.
Lemma handled_app_l a b rp : handled a rp -> handled (a ++ b) rp.
Proof. intros H f Hf. destruct (H f Hf) as [(cp & due & ?)|(c & ? & ?)]; [left; exists cp, due|right; exists c]; [|split; [|done]]; apply elem_of_app; by left. Qed.
Lemma handled_app_r a b rp : handled b rp -> handled (a ++ b) rp.
Proof. intros H f Hf. destruct (H f Hf) as [(cp & due & ?)|(c & ? & ?)]; [left; exists cp, due|right; exists c]; [|split; [|done]]; apply elem_of_app; by right. Qed.

(** ** The findings of a payment *)
Section Passes.
Context (w : World) (r : Config).
(** The trace of the loop over the findings. *)
Definition loopTrace (repair : bool) (cp id : uuid) (due : Z) (fs : list Finding) (replayed : list uuid) (tr : History) : Prop :=
  forall pre e post, tr = pre ++ e :: post ->
    (exists code, e = EvEscalate cp id code due) \/
    exists f c, e = EvReplay id c /\ repair = true /\ f ∈ fs /\ commandForFinding f = Some c /\ validateRecordedCommand c = true /\ cd_id c ∉ replayed /\
      (forall c', EvReplay id c' ∈ pre -> cd_id c' <> cd_id c).
Lemma loopTrace_nil repair cp id due fs replayed : loopTrace repair cp id due fs replayed [].
Proof. intros pre e post H. by destruct pre. Qed.
Lemma loopTrace_escalate repair cp id due f fs replayed code tr :
  loopTrace repair cp id due fs replayed tr -> loopTrace repair cp id due (f :: fs) replayed (EvEscalate cp id code due :: tr).
Proof.
  intros H pre e post [(_ & -> & _)|(pre' & -> & Htr)]%cons_split; [left; eauto|]. destruct (H _ _ _ Htr) as [?|(f' & c & -> & ? & Hf & ? & ? & ? & Hn)]; [by left|right].
  exists f', c. split_and!; try done; [by right|]. intros c' [?|?]%elem_of_cons; [done|by apply Hn].
Qed.
Lemma loopTrace_weaken repair cp id due f fs replayed tr : loopTrace repair cp id due fs replayed tr -> loopTrace repair cp id due (f :: fs) replayed tr.
Proof.
  intros H pre e post Htr. destruct (H _ _ _ Htr) as [?|(f' & c & H1 & H2 & Hf & H3)]; [by left|right]. exists f', c. split; [done|]. split; [done|]. split; [by right|done].
Qed.
Lemma loopTrace_replay cp id due f fs replayed c tr :
  commandForFinding f = Some c -> validateRecordedCommand c = true -> cd_id c ∉ replayed ->
  loopTrace true cp id due fs (cd_id c :: replayed) tr -> loopTrace true cp id due (f :: fs) replayed (EvReplay id c :: tr).
Proof.
  intros Hc Hv Hn H pre e post [(-> & -> & _)|(pre' & -> & Htr)]%cons_split.
  - right. exists f, c. split_and!; try done; [by left|]. by intros c' ?%not_elem_of_nil.
  - destruct (H _ _ _ Htr) as [?|(f' & c1 & -> & ? & Hf & ? & ? & Hni & Hpre)]; [by left|right]. apply not_elem_of_cons in Hni as [Hne Hni].
    exists f', c1. split_and!; try done; [by right|]. intros c' [[= ->]|?]%elem_of_cons; [done|by apply Hpre].
Qed.
Definition answered (id cp : uuid) (due : Z) (replayed : list uuid) (tr : History) (f : Finding) : Prop :=
  EvEscalate cp id (fd_code f) due ∈ tr \/ (exists c, EvReplay id c ∈ tr /\ cd_id c = fd_command f) \/ fd_command f ∈ replayed.
Lemma answered_cons id cp due replayed e tr f : answered id cp due replayed tr f -> answered id cp due replayed (e :: tr) f.
Proof. intros [?|[(c & ? & ?)|?]]; [left; by right|right; left; exists c; split; [by right|done]|by right; right]. Qed.

Lemma handleFindings_trace repair cp id due fs replayed applied reviews h fs' applied' reviews' err h' :
  handleFindings w repair cp id due fs replayed applied reviews h = ((fs', applied', reviews', err), h') ->
  exists tr, h' = h ++ tr /\ loopTrace repair cp id due fs replayed tr /\
    (err = [] -> fd_code <$> fs' = fd_code <$> fs /\ Forall (answered id cp due replayed tr) fs').
Proof.
  revert replayed applied reviews h fs'. induction fs as [|f fs IH]; intros replayed applied reviews h fs'; cbn [handleFindings].
  { intros [[= -> -> -> ->] ->]%ret_inv. exists []. rewrite app_nil_r. split_and!; [done|apply loopTrace_nil|done]. }
  destruct (if repair && fd_repairable f then commandForFinding f else None) as [c|] eqn:Hcmd.
  - assert (Hrep : repair = true /\ commandForFinding f = Some c) by (destruct (repair && fd_repairable f) eqn:Hb; [by apply andb_true_iff in Hb as [-> _]|done]).
    destruct Hrep as [-> Hc]. clear Hcmd. case_bool_decide as Hin.
    + intros ([[[fs1 a1] r1] e1] & h1 & H1 & [[= -> -> -> ->] ->]%ret_inv)%mbind_inv. destruct (IH _ _ _ _ _ H1) as (tr & -> & Hl & Hok).
      exists tr. split_and!; [done|by apply loopTrace_weaken|]. intros He. destruct (Hok He) as [Hcode Hall]. split; [cbn; by rewrite Hcode|].
      constructor; [by right; right|done].
    + destruct (validateRecordedCommand c) eqn:Hv; cbn [negb]; [|intros [[= -> -> -> ->] ->]%ret_inv; exists []; rewrite app_nil_r; split_and!; [done|apply loopTrace_nil|done]].
      intros (failed & h1 & ->%call_inv & H)%mbind_inv. destruct failed.
      * apply mbind_inv in H as ([created ef] & h2 & ->%call_inv & [[= -> -> -> ->] ->]%ret_inv). exists [EvReplay id c; EvEscalate cp id "safe_replay_failed" due].
        rewrite <- app_assoc. split_and!; [done| |done]. eapply loopTrace_replay; [done|done|done|].
        intros pre e post [(_ & -> & _)|(pre' & _ & Htr)]%cons_split; [left; eauto|by destruct pre'].
      * apply mbind_inv in H as ([[[fs1 a1] r1] e1] & h1 & H1 & [[= -> -> -> ->] ->]%ret_inv). destruct (IH _ _ _ _ _ H1) as (tr & -> & Hl & Hok).
        exists (EvReplay id c :: tr). rewrite <- app_assoc. split_and!; [done|by eapply loopTrace_replay|]. intros He. destruct (Hok He) as [Hcode Hall].
        split; [cbn; by rewrite Hcode|]. constructor; [right; left; exists c; split; [by left|done]|].
        eapply Forall_impl; [exact Hall|]. intros g [?|[(c' & ? & ?)|Hg]]; [left; by right|right; left; exists c'; split; [by right|done]|].
        apply elem_of_cons in Hg as [Hg|?]; [right; left; exists c; split; [by left|done]|by right; right].
  - intros ([created ef] & h1 & ->%call_inv & H)%mbind_inv. destruct ef.
    + apply ret_inv in H as [[= -> -> -> ->] ->]. exists [EvEscalate cp id (fd_code f) due]. split_and!; [done|apply loopTrace_escalate, loopTrace_nil|done].
    + apply mbind_inv in H as ([[[fs1 a1] r1] e1] & h1 & H1 & [[= -> -> -> ->] ->]%ret_inv). destruct (IH _ _ _ _ _ H1) as (tr & -> & Hl & Hok).
      exists (EvEscalate cp id (fd_code f) due :: tr). rewrite <- app_assoc. split_and!; [done|by apply loopTrace_escalate|]. intros He. destruct (Hok He) as [Hcode Hall].
      split; [cbn; by rewrite Hcode|]. constructor; [left; by left|]. eapply Forall_impl; [exact Hall|]. intros g. apply answered_cons.
Qed.

(** *** What the checks find *)
(** A finding carries a command only once one was matched. *)
Definition bare (s : Found) : Prop := Forall (fun f => commandForFinding f = None) s.1.
Lemma bare_add code s : bare s -> bare (add code s).
Proof. unfold add, bare. intros H. repeat case_match; cbn; try done. apply Forall_app. split; [done|]. by constructor. Qed.
Lemma bare_addIf b code s : bare s -> bare (addIf b code s).
Proof. destruct b; [apply bare_add|done]. Qed.
#[local] Hint Resolve bare_add bare_addIf : core.
Lemma bare_tallyAll ops t s : bare s -> bare (tallyAll ops t s).2.
Proof. revert t s. induction ops as [|o ops IH]; intros t s H; cbn [tallyAll]; [done|]. apply IH. auto. Qed.
Lemma bare_checkControl scope c s : bare s -> bare (checkControl scope c s).
Proof.
  intros H. unfold checkControl. cbv zeta. set (s2 := if scopeIs scope [ScopeWebhooks; ScopeAll] then _ else _).
  assert (H2 : bare s2) by (unfold s2; repeat case_match; auto 10). destruct (negb _); [done|]. destruct (tallyAll _ _ _) as [t s3] eqn:Ht.
  assert (H3 : bare s3) by (apply (f_equal snd) in Ht; cbn in Ht; rewrite <- Ht; by apply bare_tallyAll). auto 10.
Qed.
Lemma bare_checkShard scope c sh s : bare s -> bare (checkShard scope c sh s).
Proof. intros H. unfold checkShard. cbv zeta. destruct (negb _); [done|]. destruct (negb _); [auto|]. destruct (negb _); [auto|]. repeat (apply bare_addIf || case_match || apply bare_add); done. Qed.
Lemma bare_checkStatus c p s : bare s -> bare (checkStatus c p s).
Proof. intros H. unfold checkStatus. cbv zeta. auto. Qed.
Lemma matching_some code cs c : matchingRecordedCommand code cs = Some c -> c ∈ cs /\ cd_kind c = repairKind code /\ validateRecordedCommand c = true.
Proof. intros [Hin%list_elem_of_In H]%find_some. apply andb_true_iff in H as [?%bool_decide_eq_true ?]. done. Qed.
Lemma finish_recorded cs fs f c : Forall (fun f => commandForFinding f = None) fs -> f ∈ finishFindings cs fs -> commandForFinding f = Some c -> c ∈ cs.
Proof.
  intros Hb Hin Hc. apply elem_of_sortBy, list_elem_of_fmap in Hin as (f0 & -> & Hin). rewrite Forall_forall in Hb. unfold withCommand in Hc.
  destruct (matchingRecordedCommand (fd_code f0) cs) as [c0|] eqn:Hm; [|rewrite (Hb f0 Hin) in Hc; done].
  apply matching_some in Hm as (Hin0 & Hk & _). unfold commandForFinding in Hc. cbn in Hc. destruct (_ && _); [|done]. injection Hc as <-. rewrite <- Hk. by destruct c0.
Qed.
Lemma checkProvider_trace c s h s' h' : checkProvider w c s h = (s', h') -> bare s -> bare s' /\ exists tr, h' = h ++ tr /\ touches [] tr.
Proof.
  unfold checkProvider. destruct (_ || _).
  { intros [-> ->]%ret_inv H. split; [auto|]. exists []. split; [by rewrite app_nil_r|]. by intros id k ?%not_elem_of_nil. }
  intros (status & h1 & ->%call_inv & H)%mbind_inv Hb.
  assert (Ht : touches [] [EvStatus (it_provider (cn_intent c)) (it_ppid (cn_intent c))]) by (by intros id k ?%list_elem_of_singleton).
  destruct status; apply ret_inv in H as [-> ->]; (split; [auto using bare_checkStatus|eauto]).
Qed.
Lemma inspect_trace id scope h x h' :
  inspect w id scope h = (x, h') -> exists tr, h' = h ++ tr /\ touches [] tr /\
    match x with
    | inl err => err <> []
    | inr rp => rp_intent rp = id /\ rp_repairs rp = 0 /\ forall f c, f ∈ rp_findings rp -> commandForFinding f = Some c -> exists sh, EvShard id (Some sh) ∈ tr /\ c ∈ sh_commands sh
    end.
Proof.
  assert (Hnil : touches [] []) by (by intros ? ? ?%not_elem_of_nil). assert (H1 : forall e, (forall i c, e <> EvReplay i c) -> touches [] [e]) by (intros e He i c Hi%list_elem_of_singleton; by destruct (He i c)).
  unfold inspect. destruct (_ || _); [intros [-> ->]%ret_inv; exists []; by rewrite app_nil_r|]. intros (control & h1 & ->%call_inv & H)%mbind_inv.
  assert (Hc : touches [] [EvControl id]) by (by apply H1). destruct control as [c|]; [|apply ret_inv in H as [-> ->]; eauto].
  destruct (negb _); [apply ret_inv in H as [-> ->]; eauto|]. apply mbind_inv in H as (shard & h2 & Hs & H).
  assert (Hsh : exists tr, h2 = (h ++ [EvControl id]) ++ tr /\ touches [] tr /\ forall sh, shard = Some sh -> sh_commands sh = [] \/ EvShard id (Some sh) ∈ tr).
  { unfold loadShard in Hs. destruct (scopeIs _ _); [injection Hs as <- <-|apply ret_inv in Hs as [-> ->]].
    - eexists. split; [done|]. split; [by apply H1|]. intros sh ->. right. by left.
    - exists []. rewrite app_nil_r. split; [done|]. split; [done|]. intros sh [= <-]. by left. }
  destruct Hsh as (tr2 & -> & Ht2 & Hrec). destruct shard as [sh|]; [|apply ret_inv in H as [-> ->]; exists ([EvControl id] ++ tr2); rewrite app_assoc; split_and!; [done|by apply (touches_app [] [])|done]].
  apply mbind_inv in H as (s & h3 & Hp & [-> ->]%ret_inv). set (s0 := checkShard _ _ _ _) in Hp.
  assert (Hs0 : bare s0) by (apply bare_checkShard, bare_checkControl; constructor).
  assert (H3 : bare s /\ exists tr, h3 = ((h ++ [EvControl id]) ++ tr2) ++ tr /\ touches [] tr).
  { destruct (shouldQueryProvider scope c); [by eapply checkProvider_trace|]. apply ret_inv in Hp as [-> ->]. split; [done|]. exists []. by rewrite app_nil_r. }
  destruct H3 as [Hs3 (tr3 & -> & Ht3)]. exists ([EvControl id] ++ tr2 ++ tr3). rewrite !app_assoc. split; [done|]. split; [by repeat apply (touches_app [] [])|].
  split; [done|]. split; [done|]. intros f k Hin Hk. cbn [rp_findings] in Hin. pose proof (finish_recorded _ _ _ _ Hs3 Hin Hk) as Hkin.
  destruct (Hrec sh eq_refl) as [He|He]; [rewrite He in Hkin; by apply not_elem_of_nil in Hkin|]. exists sh. split; [|done]. apply elem_of_app. left. apply elem_of_app. by right.
Qed.

(** ** Passes *)
(** What a pass over [ids] does to the history, and the reports it adds. *)
Definition passed (repair : bool) (ids : list uuid) (h h' : History) (reports : list Report) : Prop :=
  exists tr, h' = h ++ tr /\ okTrace repair tr /\ touches ids tr /\ Forall (handled tr) reports.
Lemma passed_quiet repair h tr : touches [] tr -> passed repair [] h (h ++ tr) [].
Proof. intros H. exists tr. split_and!; [done|by apply okTrace_quiet|done|constructor]. Qed.
Lemma passed_app repair ids ids' h h1 h2 l l' :
  passed repair ids h h1 l -> passed repair ids' h1 h2 l' -> (forall i, i ∈ ids -> i ∉ ids') -> passed repair (ids ++ ids') h h2 (l ++ l').
Proof.
  intros (a & -> & Ha & Ta & La) (b & -> & Hb & Tb & Lb) Hd. exists (a ++ b). rewrite app_assoc. split_and!; [done|by eapply okTrace_app|by apply touches_app|].
  apply Forall_app. split; [by eapply Forall_impl; [exact La|]; intros rp; apply handled_app_l|by eapply Forall_impl; [exact Lb|]; intros rp; apply handled_app_r].
Qed.
Lemma passed_more repair ids ids' h h' l : passed repair ids h h' l -> ids ⊆ ids' -> passed repair ids' h h' l.
Proof. intros (tr & ? & ? & ? & ?) Hs. exists tr. split_and!; [done|done|by eapply touches_mono|done]. Qed.
Lemma payment_passed repair cp id due scope h rp h1 fs applied reviews err h2 n m :
  inspect w id scope h = (inr rp, h1) -> handleFindings w repair cp id due (rp_findings rp) [] n m h1 = ((fs, applied, reviews, err), h2) ->
  passed repair [id] h h2 [] /\
  (err = [] -> passed repair [id] h h2 [mkReport (rp_intent rp) (rp_scope rp) (rp_rows rp) fs (rp_queried rp) applied (rp_truncated rp)]).
Proof.
  intros (tr1 & -> & T1 & Eid & _ & Hrec)%inspect_trace (tr2 & -> & Hl & Hok)%handleFindings_trace.
  assert (T2 : touches [id] tr2).
  { intros i c (pre & post & ->)%split_in. destruct (Hl _ _ _ eq_refl) as [(code & E)|(f & c' & [= -> ->] & _)]; [done|by left]. }
  assert (Htr : okTrace repair (tr1 ++ tr2)).
  { intros pre i c post [(post' & H)|(pre' & -> & H)]%app_split; [exfalso; eapply not_elem_of_nil, (T1 i c); rewrite H; apply elem_of_app; right; by left|].
    destruct (Hl _ _ _ H) as [(code & E)|(f & c' & [= -> ->] & Hrep & Hf & Hc & Hv & _ & Hn)]; [done|]. split; [done|]. split; [done|]. split.
    - destruct (Hrec f c' Hf Hc) as (sh & Hs & Hk). exists sh. split; [apply elem_of_app; by left|done].
    - intros c1 [Hin|Hin]%elem_of_app; [|by apply Hn]. exfalso. by eapply not_elem_of_nil, (T1 id c1). }
  assert (T : touches [id] (tr1 ++ tr2)) by (eapply (touches_app [] [id]); done).
  split; [|intros He]; exists (tr1 ++ tr2); rewrite app_assoc; split_and!; try done. constructor; [|done]. destruct (Hok He) as [_ Hall].
  apply handled_app_r. intros f Hf. cbn [rp_intent rp_findings] in *. rewrite Eid. rewrite Forall_forall in Hall.
  destruct (Hall f Hf) as [?|[?|H]]; [left; eauto|by right|by apply not_elem_of_nil in H].
Qed.
Lemma reconcileLoop_passed scope repair cp due ids result h result' err h' :
  NoDup ids -> reconcileLoop w scope repair cp due ids result h = ((result', err), h') ->
  exists l, rs_reports result' = rs_reports result ++ l /\ passed repair ids h h' l.
Proof.
  revert result h. induction ids as [|id ids IH]; intros result h Hnd; cbn [reconcileLoop].
  { intros [[= -> ->] ->]%ret_inv. exists []. rewrite app_nil_r. split; [done|]. rewrite <- (app_nil_r h) at 2. apply passed_quiet. by intros ? ? ?%not_elem_of_nil. }
  apply NoDup_cons in Hnd as [Hid Hnd]. intros (cancelled & h0 & [= <- <-] & H)%mbind_inv.
  assert (Hquiet : forall tr, touches [] tr -> passed repair (id :: ids) h (h ++ tr) []) by (intros tr Ht; eapply passed_more; [by apply passed_quiet|by intros ? ?%not_elem_of_nil]).
  destruct (w_cancelled w h).
  { apply ret_inv in H as [[= -> ->] ->]. exists []. rewrite app_nil_r. split; [done|]. rewrite <- (app_nil_r h) at 2. apply Hquiet. by intros ? ? ?%not_elem_of_nil. }
  apply mbind_inv in H as ([e|rp] & h1 & Hi & H).
  { apply ret_inv in H as [[= -> ->] ->]. exists []. rewrite app_nil_r. split; [done|]. apply inspect_trace in Hi as (tr & -> & Ht & _). by apply Hquiet. }
  apply mbind_inv in H as ([[[fs applied] reviews] e] & h2 & Hh & H). destruct (payment_passed _ _ _ _ _ _ _ _ _ _ _ _ _ _ _ Hi Hh) as [P0 P1].
  case_bool_decide as He.
  - apply nil_length_inv in He. destruct (IH _ _ Hnd H) as (l & Hl & Pl). cbn [rs_reports] in Hl. rewrite <- app_assoc in Hl. eexists. split; [exact Hl|].
    eapply (passed_app _ [id]); [by apply P1|exact Pl|]. by intros i ->%list_elem_of_singleton.
  - apply ret_inv in H as [[= -> ->] ->]. exists []. rewrite app_nil_r. split; [done|]. eapply passed_more; [exact P0|]. intros i ->%list_elem_of_singleton. by left.
Qed.
Lemma reconcileIDs_passed scope ids truncated repair confirmed h result err h' :
  NoDup ids -> reconcileIDs w r scope ids truncated repair confirmed h = ((result, err), h') ->
  passed (repair && confirmed) ids h h' (rs_reports result).
Proof.
  intros Hnd. unfold reconcileIDs.
  assert (Hquiet : forall b tr, touches [] tr -> passed b ids h (h ++ tr) []) by (intros b tr Ht; eapply passed_more; [by apply passed_quiet|by intros ? ?%not_elem_of_nil]).
  destruct (negb (Valid scope) || _ || _) eqn:Hg.
  { intros [[= -> ->] ->]%ret_inv. rewrite <- (app_nil_r h) at 2. apply Hquiet. by intros ? ? ?%not_elem_of_nil. }
  apply orb_false_iff in Hg as [_ Hrc%negb_false_iff%eqb_prop]. subst confirmed. intros (now & h0 & [= <- <-] & H)%mbind_inv.
  apply mbind_inv in H as (checkpoint & h1 & ->%call_inv & H). destruct checkpoint as [cp|].
  2: { apply ret_inv in H as [[= -> ->] ->]. apply Hquiet. by intros i c Hi%list_elem_of_singleton. }
  apply mbind_inv in H as ([res e] & h2 & Hl & H). apply mbind_inv in H as (failed & h3 & ->%call_inv & [[= -> ->] ->]%ret_inv).
  apply reconcileLoop_passed in Hl as (l & El & P); [|done]. cbn [rs_reports] in El. rewrite El, app_nil_l, andb_diag. rewrite <- (app_nil_l l), <- (app_nil_l ids).
  refine (passed_app _ [] ids h (h ++ [EvStart scope (singleIntent ids) repair (w_now w h)]) _ [] l _ _ _); [| |by intros i ?%not_elem_of_nil].
  - apply passed_quiet. by intros i c Hi%list_elem_of_singleton.
  - rewrite <- (app_nil_r l), <- (app_nil_r ids) at 1. eapply passed_app; [exact P| |intros i _; apply not_elem_of_nil].
    apply passed_quiet. by intros i c Hi%list_elem_of_singleton.
Qed.
Lemma distinctIDs_spec ids seen : NoDup (distinctIDs ids seen) /\ forall i, i ∈ distinctIDs ids seen -> i ∉ seen.
Proof.
  revert seen. induction ids as [|i ids IH]; intros seen; cbn [distinctIDs]; [split; [constructor|by intros ? ?%not_elem_of_nil]|]. destruct (_ || _) eqn:Hb; [apply IH|].
  apply orb_false_iff in Hb as [_ Hb%bool_decide_eq_false]. destruct (IH (i :: seen)) as [Hnd Hs]. split.
  - constructor; [|done]. intros Hin. apply (Hs i Hin). by left.
  - intros j [->|Hin]%elem_of_cons; [done|]. intros Hj. apply (Hs j Hin). by right.
Qed.
Lemma canonicalIDs_NoDup ids limit : NoDup (canonicalIDs ids limit).
Proof. unfold canonicalIDs. eapply sublist_NoDup; [|apply sublist_take]. rewrite sortBy_Permutation. apply distinctIDs_spec. Qed.
Lemma reconcileEach_passed o truncated ids result h result' err h' :
  NoDup ids -> reconcileEach w r o truncated ids result h = ((result', err), h') ->
  exists l, rs_reports result' = rs_reports result ++ l /\ passed (op_repair o && op_confirm o) ids h h' l.
Proof.
  revert result h. induction ids as [|id ids IH]; intros result h Hnd; cbn [reconcileEach].
  { intros [[= -> ->] ->]%ret_inv. exists []. rewrite app_nil_r. split; [done|]. rewrite <- (app_nil_r h) at 2. apply passed_quiet. by intros ? ? ?%not_elem_of_nil. }
  apply NoDup_cons in Hnd as [Hid Hnd]. intros ([part e] & h1 & Hp & H)%mbind_inv. apply reconcileIDs_passed in Hp; [|apply NoDup_singleton]. case_bool_decide as He.
  - destruct (IH _ _ Hnd H) as (l & Hl & Pl). cbn [rs_reports] in Hl. rewrite <- app_assoc in Hl. eexists. split; [exact Hl|].
    eapply (passed_app _ [id]); [exact Hp|exact Pl|]. by intros i ->%list_elem_of_singleton.
  - apply ret_inv in H as [[= -> ->] ->]. cbn [rs_reports]. eexists. split; [done|]. eapply passed_more; [exact Hp|]. intros i ->%list_elem_of_singleton. by left.
Qed.
End Passes.

(** ** The service *)
Inductive Request := ReqRunOnce | ReqReconcile (id : uuid) | ReqRepair (id : uuid) | ReqAll (o : Options).
Definition serve (w : World) (r : Config) (q : Request) : M (Result * Error) :=
  match q with
  | ReqRunOnce => RunOnce w r
  | ReqReconcile id => ReconcilePayment w r id
  | ReqRepair id => RepairPayment w r id
  | ReqAll o => ReconcileAll w r o
  end.
(** A repair that was asked for and confirmed. *)
Definition confirmedRepair (q : Request) : bool :=
  match q with ReqRepair _ => true | ReqAll o => op_repair o && op_confirm o | _ => false end.
Lemma ReconcileAll_passed w r o h result err h' :
  ReconcileAll w r o h = ((result, err), h') -> exists ids, passed (op_repair o && op_confirm o) ids h h' (rs_reports result).
Proof.
  assert (Hnil : forall x, x = (zeroResult, err, h) -> (result, err, h') = x -> exists ids, passed (op_repair o && op_confirm o) ids h h' (rs_reports result)).
  { intros x -> [= -> ->]. exists []. rewrite <- (app_nil_r h) at 2. apply passed_quiet. by intros ? ? ?%not_elem_of_nil. }
  unfold ReconcileAll. do 3 (case_match; [intros [[= -> ->] ->]%ret_inv; by eapply Hnil|]). intros (now & h0 & [= <- <-] & Hx)%mbind_inv.
  apply mbind_inv in Hx as (candidates & h1 & ->%call_inv & Hx). set (ev := EvCandidates _ _ _) in *.
  assert (Hev : touches [] [ev]) by (by intros i c Hi%list_elem_of_singleton).
  destruct candidates as [[ids truncated]|]; [|apply ret_inv in Hx as [[= -> ->] ->]; exists []; by apply passed_quiet]. cbv zeta in Hx.
  assert (Hp : exists ids, passed (op_repair o && op_confirm o) ids (h ++ [ev]) h' (rs_reports result)).
  { pose proof (canonicalIDs_NoDup ids (op_limit o)) as Hnd. destruct (canonicalIDs ids (op_limit o)) as [|i is'] eqn:Hc.
    - apply reconcileIDs_passed in Hx; [|constructor]. by exists [].
    - apply reconcileEach_passed in Hx as (l & Hl & Pl); [|done]. cbn [rs_reports] in Hl. rewrite Hl. eauto. }
  destruct Hp as (ids' & Hp). exists ([] ++ ids'). rewrite <- (app_nil_l (rs_reports result)). eapply passed_app; [by apply passed_quiet|exact Hp|by intros i ?%not_elem_of_nil].
Qed.


(** ** A clean report *)
Definition ofType (kind : string) (ops : list Operation) : list Operation := List.filter (fun o => bool_decide (ope_type o = kind)) ops.
Definition succeededOf (kind : string) (ops : list Operation) : list Operation :=
  List.filter (fun o => bool_decide (ope_type o = kind) && bool_decide (ope_state o = "succeeded"%string)) ops.
Definition succeededIn (kind : string) (o : Operation) : Prop := ope_type o = kind /\ ope_state o = "succeeded"%string.
(** The control database on its own. *)
Record ledgerConsistent (c : ControlSnapshot) : Prop := mkLedgerConsistent {
  lc_saga : sg_id (cn_saga c) <> uuidNil;
  lc_poids : NoDup (filter (fun p => p <> ""%string) (ope_poid <$> cn_operations c));
  lc_captures : (length (ofType "capture" (cn_operations c)) <= 1)%nat;
  lc_refunds : (length (ofType "refund" (cn_operations c)) <= 1)%nat;
  lc_amount : forall o, o ∈ cn_operations c -> succeededIn "capture" o -> wrap64 (ope_amount o) = it_amount (cn_intent c);
  lc_refunded : forall o o', o ∈ cn_operations c -> succeededIn "refund" o -> o' ∈ cn_operations c -> succeededIn "capture" o' -> wrap64 (ope_amount o) <= wrap64 (ope_amount o');
  lc_completed : sg_state (cn_saga c) = "completed"%string -> exists o, o ∈ cn_operations c /\ succeededIn "capture" o }.
(** The shard against it. *)
Record shardConsistent (c : ControlSnapshot) (sh : ShardSnapshot) : Prop := mkShardConsistent {
  sc_money : it_amount (cn_intent c) = sh_amount sh /\ it_currency (cn_intent c) = sh_currency sh;
  sc_tickets : 0 < sh_active sh -> (exists o, o ∈ cn_operations c /\ succeededIn "capture" o) /\ ~ exists o, o ∈ cn_operations c /\ succeededIn "refund" o;
  sc_issued : sh_orderState sh = "issued"%string ->
    (exists o, o ∈ cn_operations c /\ succeededIn "capture" o) /\ sh_issuance sh = true /\ sh_issuanceIntent sh = it_id (cn_intent c) /\ sh_active sh = sh_seats sh;
  sc_order : sh_orderFound sh = true -> sh_orderAmount sh = it_amount (cn_intent c) /\ sh_orderCurrency sh = it_currency (cn_intent c);
  sc_completed : it_state (cn_intent c) = "completed"%string -> sh_orderFound sh = true /\ sh_orderState sh = "issued"%string;
  sc_voided : (exists o, o ∈ cn_operations c /\ succeededIn "void" o) -> sh_reservation sh = "cancelled"%string;
  sc_codes : sh_dupCodes sh <= 0 /\ sh_missingClaims sh <= 0 /\ sh_conflictCodes sh <= 0 /\ sh_unexpectedClaims sh <= 0 }.
(** The provider against it. *)
Record providerConsistent (c : ControlSnapshot) (p : Payment) : Prop := mkProviderConsistent {
  pc_money : py_amount p = it_amount (cn_intent c) /\ py_currency p = it_currency (cn_intent c);
  pc_captured : py_captured p = succeededAmount (cn_operations c) "capture";
  pc_refunded : py_refunded p = succeededAmount (cn_operations c) "refund";
  pc_status : (exists o, o ∈ cn_operations c /\ succeededIn "refund" o) -> py_status p = StatusRefunded }.

Definition clean (s : Found) : Prop := s.1 = [].
Lemma clean_add code s : clean (add code s) <-> False.
Proof.
  unfold add, clean. split; [|done]. destruct s as [[|f fs] t]; cbn; [done|]. destruct (_ || _); [done|]. case_match; cbn; [done|]. intros H0. by destruct fs.
Qed.
Lemma clean_addIf b code s : clean (addIf b code s) <-> b = false /\ clean s.
Proof. destruct b; cbn; [rewrite clean_add; naive_solver|naive_solver]. Qed.
Lemma hasSucceeded_spec ops kind : hasSucceeded ops kind = true <-> exists o, o ∈ ops /\ succeededIn kind o.
Proof.
  unfold hasSucceeded, succeededIn. rewrite existsb_exists. setoid_rewrite list_elem_of_In. setoid_rewrite andb_true_iff. setoid_rewrite bool_decide_eq_true. done.
Qed.
Lemma hasSucceeded_none ops kind : hasSucceeded ops kind = false <-> ~ exists o, o ∈ ops /\ succeededIn kind o.
Proof. rewrite <- hasSucceeded_spec. by destruct (hasSucceeded ops kind). Qed.

(** The tally of the loop. *)
Record tallied (ops : list Operation) (t t' : Tally) : Prop := mkTallied {
  ta_captures : tl_captures t' = tl_captures t + Z.of_nat (length (ofType "capture" ops));
  ta_refunds : tl_refunds t' = tl_refunds t + Z.of_nat (length (ofType "refund" ops));
  ta_succeeded : tl_succeeded t' = tl_succeeded t + Z.of_nat (length (succeededOf "capture" ops));
  ta_captured : tl_captured t' = succeededFrom ops "capture" (tl_captured t);
  ta_refunded : tl_refunded t' = succeededFrom ops "refund" (tl_refunded t) }.
Lemma tallyAll_spec ops t s : tallied ops t (tallyAll ops t s).1.
Proof.
  revert t s. induction ops as [|o ops IH]; intros t s; cbn [tallyAll]; [split; cbn; lia|]. destruct (IH (tallyOne o t) (addIf (negb (bool_decide (ope_poid o = ""%string)) && bool_decide (ope_poid o ∈ tl_poids t)) "duplicate_provider_operation_id" s)) as [E1 E2 E3 E4 E5].
  unfold ofType, succeededOf in *.
  split; [rewrite E1|rewrite E2|rewrite E3|rewrite E4|rewrite E5]; unfold tallyOne; cbn [List.filter succeededFrom]; clear E1 E2 E3 E4 E5 IH.
  all: cbn; repeat case_bool_decide; cbn; try congruence; lia.
Qed.
Lemma clean_tallyAll ops t s :
  clean (tallyAll ops t s).2 ->
  clean s /\ NoDup (filter (fun p => p <> ""%string) (ope_poid <$> ops)) /\ forall p, p ∈ filter (fun p => p <> ""%string) (ope_poid <$> ops) -> p ∉ tl_poids t.
Proof.
  revert t s. induction ops as [|o ops IH]; intros t s; cbn [tallyAll]; [intros H; split_and!; [done|constructor|by intros p ?%not_elem_of_nil]|].
  intros (Hs & Hnd & Hf)%IH. apply clean_addIf in Hs as [Hb Hs]. split; [done|]. rewrite fmap_cons, filter_cons.
  assert (Hp : tl_poids (tallyOne o t) = if bool_decide (ope_poid o = ""%string) then tl_poids t else ope_poid o :: tl_poids t) by (unfold tallyOne; repeat case_match; done).
  rewrite Hp in Hf. destruct (decide (ope_poid o = ""%string)) as [He|Hne].
  { rewrite decide_False by tauto. by rewrite (bool_decide_eq_true_2 _ He) in Hf. }
  rewrite decide_True by done.
  rewrite bool_decide_eq_false_2 in Hf by done. rewrite bool_decide_eq_false_2 in Hb by done. cbn in Hb. apply bool_decide_eq_false in Hb. split.
  - constructor; [|done]. intros Hin. apply (Hf _ Hin). by left.
  - intros p [->|Hin]%elem_of_cons; [done|]. intros Hp'. apply (Hf _ Hin). by right.
Qed.
Lemma ofType_in kind ops o : o ∈ ops -> ope_type o = kind -> (1 <= length (ofType kind ops))%nat.
Proof.
  intros Hin Ht. unfold ofType. destruct (List.filter _ ops) as [|x l] eqn:E; [|cbn; lia]. apply list_elem_of_In in Hin.
  assert (Hf : In o (List.filter (fun o => bool_decide (ope_type o = kind)) ops)) by (apply filter_In; split; [done|by apply bool_decide_eq_true]). by rewrite E in Hf.
Qed.
Lemma succeededFrom_none ops kind total : ofType kind ops = [] -> succeededFrom ops kind total = total.
Proof.
  revert total. induction ops as [|o ops IH]; intros total; cbn; [done|]. unfold ofType. cbn. case_bool_decide; [done|]. cbn. apply IH.
Qed.
Lemma single_amount kind ops o :
  (length (ofType kind ops) <= 1)%nat -> o ∈ ops -> succeededIn kind o -> succeededAmount ops kind = wrap64 (ope_amount o).
Proof.
  unfold succeededAmount. induction ops as [|x ops IH]; intros Hlen Hin [Ht Hs]; [by apply not_elem_of_nil in Hin|]. cbn [succeededFrom]. unfold ofType in Hlen. cbn [List.filter] in Hlen.
  apply elem_of_cons in Hin as [<-|Hin].
  - rewrite (bool_decide_eq_true_2 _ Ht) in *. rewrite (bool_decide_eq_true_2 _ Hs). cbn [length andb] in *. rewrite Z.add_0_l. apply succeededFrom_none.
    apply nil_length_inv. unfold ofType. lia.
  - pose proof (ofType_in kind ops o Hin Ht) as Hge. unfold ofType in Hge. destruct (bool_decide (ope_type x = kind)); [cbn [length] in Hlen; lia|]. cbn [andb].
    apply IH; [done|done|done].
Qed.
Lemma succeededOf_pos kind ops : (0 < length (succeededOf kind ops))%nat <-> exists o, o ∈ ops /\ succeededIn kind o.
Proof.
  unfold succeededOf, succeededIn. split.
  - destruct (List.filter _ ops) as [|o l] eqn:E; cbn; [lia|]. intros _. assert (Hin : In o (List.filter (fun o => bool_decide (ope_type o = kind) && bool_decide (ope_state o = "succeeded"%string)) ops)) by (rewrite E; by left).
    apply filter_In in Hin as [Hin%list_elem_of_In [?%bool_decide_eq_true ?%bool_decide_eq_true]%andb_true_iff]. eauto.
  - intros (o & Hin%list_elem_of_In & Ht & Hs). assert (Hf : In o (List.filter (fun o => bool_decide (ope_type o = kind) && bool_decide (ope_state o = "succeeded"%string)) ops)).
    { apply filter_In. split; [done|]. by rewrite !bool_decide_eq_true_2. }
    destruct (List.filter _ ops); [done|cbn; lia].
Qed.
Lemma clean_checkControl c s : clean (checkControl ScopeAll c s) -> ledgerConsistent c.
Proof.
  unfold checkControl. change (scopeIs ScopeAll [ScopeIntents; ScopeAll]) with true. change (scopeIs ScopeAll [ScopeWebhooks; ScopeAll]) with true.
  change (scopeIs ScopeAll [ScopeOperations; ScopeAll]) with true. cbn [negb]. cbv zeta. set (s0 := addIf _ _ _).
  pose proof (tallyAll_spec (cn_operations c) (mkTally 0 0 0 0 0 [] false) s0) as Ht. destruct (tallyAll _ _ _) as [t s1] eqn:Hta. cbn [fst] in Ht.
  rewrite !clean_addIf. intros (_ & Hcomp & Href & Hamt & Hrefs & Hcaps & Hclean). assert (Hs1 : clean (tallyAll (cn_operations c) (mkTally 0 0 0 0 0 [] false) s0).2) by (by rewrite Hta).
  apply clean_tallyAll in Hs1 as (Hs0 & Hnd & _). unfold s0 in Hs0. rewrite !clean_addIf in Hs0. destruct Hs0 as (_ & _ & _ & Hsaga & _).
  destruct Ht as [E1 E2 E3 E4 E5]. cbn in E1, E2, E3, E4, E5. change (succeededFrom (cn_operations c) "capture" 0) with (succeededAmount (cn_operations c) "capture") in E4.
  change (succeededFrom (cn_operations c) "refund" 0) with (succeededAmount (cn_operations c) "refund") in E5.
  assert (Hc1 : (length (ofType "capture" (cn_operations c)) <= 1)%nat) by lia. assert (Hr1 : (length (ofType "refund" (cn_operations c)) <= 1)%nat) by lia.
  split; [by apply bool_decide_eq_false in Hsaga|done|done|done| | |].
  - intros o Hin Ho. rewrite <- (single_amount _ _ o Hc1 Hin Ho), <- E4. assert (0 < length (succeededOf "capture" (cn_operations c)))%nat by (apply succeededOf_pos; eauto). lia.
  - intros o o' Hin Ho Hin' Ho'. rewrite <- (single_amount _ _ o Hr1 Hin Ho), <- (single_amount _ _ o' Hc1 Hin' Ho'), <- E4, <- E5. lia.
  - intros Hst. rewrite (bool_decide_eq_true_2 _ Hst) in Hcomp. cbn in Hcomp. apply succeededOf_pos. lia.
Qed.
(** A condition that raised no finding. *)
Lemma quiet_and a b : a && b = false -> a = true -> b = false.
Proof. by destruct a. Qed.
Lemma clean_checkShard c sh s : clean (checkShard ScopeAll c sh s) -> shardConsistent c sh /\ clean s.
Proof.
  unfold checkShard. change (scopeIs ScopeAll [ScopeIntents; ScopeTickets; ScopeAll]) with true. change (scopeIs ScopeAll [ScopeIntents; ScopeAll]) with true.
  change (scopeIs ScopeAll [ScopeTickets; ScopeAll]) with true. cbn [negb andb]. destruct (sh_resolved sh); cbn [negb]; [|by intros ?%clean_add].
  destruct (sh_found sh); cbn [negb]; [|by intros ?%clean_add]. cbv zeta. rewrite !clean_addIf.
  intros (_ & H1 & H2 & H3 & H4 & _ & Hvoid & Hrefund & H).
  destruct (bool_decide (sh_reservation sh = "confirmed"%string) && _) in H; [by apply clean_add in H|]. rewrite !clean_addIf in H.
  destruct H as (Hcount & _ & _ & _ & _ & Hint & Hrec & Hcur & Hamt & Hun & _ & Hcomp & _ & H).
  destruct (_ && sh_begin sh) in H; [destruct (_ =? _)%N in H; by apply clean_add in H|]. rewrite !clean_addIf in H. destruct H as (Hc2 & Ha2 & Hs). split; [|done].
  assert (Hcap : (bool_decide (sh_orderState sh = "issued"%string) || (0 <? sh_active sh)) = true -> exists o, o ∈ cn_operations c /\ succeededIn "capture" o).
  { intros Hb. apply hasSucceeded_spec. rewrite Hb, andb_true_r in Hun. by apply negb_false_iff in Hun. }
  apply negb_false_iff in Hc2, Ha2. split.
  - split; [lia|by apply bool_decide_eq_true in Hc2].
  - intros Hpos. split; [apply Hcap, orb_true_iff; right; lia|]. apply hasSucceeded_none. destruct (hasSucceeded _ "refund"); [|done]. cbn in Hrefund. lia.
  - intros Hi. rewrite (bool_decide_eq_true_2 _ Hi) in *. cbn [andb orb] in *. apply negb_false_iff in Hrec, Hcount. rewrite Hrec in Hint. cbn in Hint.
    apply negb_false_iff, bool_decide_eq_true in Hint. split; [by apply Hcap|]. split_and!; [done|done|lia].
  - intros Hf. rewrite Hf in *. cbn in Hamt, Hcur. apply negb_false_iff in Hamt, Hcur. split; [lia|by apply bool_decide_eq_true in Hcur].
  - intros Hi. rewrite (bool_decide_eq_true_2 _ Hi) in Hcomp. cbn in Hcomp. apply orb_false_iff in Hcomp as [Hf%negb_false_iff Hi'%negb_false_iff%bool_decide_eq_true]. done.
  - intros Hv%hasSucceeded_spec. rewrite Hv in Hvoid. cbn in Hvoid. by apply negb_false_iff, bool_decide_eq_true in Hvoid.
  - lia.
Qed.
Lemma clean_checkStatus c p s : clean (checkStatus c p s) -> providerConsistent c p /\ clean s.
Proof.
  unfold checkStatus. cbv zeta. rewrite !clean_addIf. intros ([Hr Hrs]%orb_false_iff & [Hc _]%orb_false_iff & [Hm Hcu%negb_false_iff%bool_decide_eq_true]%orb_false_iff & Hs).
  split; [|done]. split; [split; [lia|done]|lia|lia|]. intros Ho%hasSucceeded_spec. rewrite Ho in Hrs. cbn in Hrs. by apply negb_false_iff, bool_decide_eq_true in Hrs.
Qed.
Lemma clean_finish cs (s : Found) : finishFindings cs s.1 = [] -> clean s.
Proof. intros H%(f_equal length). unfold finishFindings in H. rewrite length_sortBy, length_fmap in H. by apply nil_length_inv in H. Qed.


(** ** Samples *)
Module ReconcileSample.
Definition intentRow (state : string) : Intent := mkIntent 5 "stripe" "pay-1" state 100 "EUR" 9 1.
Definition sagaRow : Saga := mkSaga 6 "completed" "complete" "" 1.
Definition capture : Operation := mkOperation "capture" "succeeded" "op-1" 100.
Definition control (state : string) (ops : list Operation) : ControlSnapshot := mkControl (intentRow state) sagaRow ops 0 0 0 0.
Definition world (c : ControlSnapshot) (sh : ShardSnapshot) (p : Payment) : World :=
  mkWorld (fun _ => Some ([5%N], false)) (fun _ => Some c) (fun _ => Some sh) (fun _ => true) (fun _ => Some p) (fun _ => Some 77%N) (fun _ => false)
    (fun _ => (true, false)) (fun _ => false) (fun _ => false) (fun _ => 1000).
Definition config : Config := mkConfig 10 60 60 true.
(** Begun on the shard, not finalized in the control database. *)
Definition begun : World :=
  world (control "reservation_securing" [])
    (mkShard true true "payment_pending" 100 "EUR" 1 false "" 0 "" false 0 true false false false 9 0 0 0 0 0 0 [mkCommand 8 "finalize_reservation_begin" 9])
    (mkPayment "pay-1" StatusAuthorized 100 "EUR" 0 0 0).
Definition repaired : Result * Error * History := serve begun config (ReqRepair 5) [].

(** Captured, issued and known to the provider. *)
Definition settledShard : ShardSnapshot :=
  mkShard true true "confirmed" 100 "EUR" 1 true "issued" 100 "EUR" true 5 true false false false 9 1 0 0 0 0 0 [].
Definition settledPayment : Payment := mkPayment "pay-1" StatusCaptured 100 "EUR" 100 0 0.
Definition settled : World := world (control "completed" [capture]) settledShard settledPayment.
Definition settledReport : Report := mkReport 5 ScopeAll 1 [] true 0 false.
Definition settledControl : ControlSnapshot := control "completed" [capture].
End ReconcileSample.
