(* ===== verification/PaymentIdempotency.v ===== *)
(** * Payment idempotency, quarantine and fencing

    The application service creates one intent per owner and idempotency key
    and replays it; the first digest of a provider event is canonical and a
    conflicting one quarantines the event for good; a worker whose lease is
    lost cannot finalize; the tables' guards and the domain's state machines
    are the same relations but for one edge. *)

From S2P Require Import Prelude PaymentDomain PaymentDb PaymentClaims PaymentFinalize PaymentControl PaymentLogic PaymentSafety PaymentHistory.

(** ** Guards and domain tables *)

(** The transition guards of the database and the transition tables of the
    Go domain allow the same steps of intents and operations; of sagas the
    database allows one more, from completed to compensating. *)
Theorem guards_match_domain :
  (forall a b, edgeOk intentEdges a b = bool_decide (a = b) || bool_decide (b ∈ IntentModel.intentTransitions a)) /\
  (forall a b, edgeOk opEdges a b = bool_decide (a = b) || bool_decide (b ∈ OperationModel.operationTransitions a)) /\
  (forall a b, edgeOk sagaEdges a b = bool_decide (a = b) || bool_decide (b ∈ SagaModel.sagaTransitions a) ||
                                      bool_decide (a = SagaCompleted /\ b = SagaCompensating)).
Proof. repeat split; intros a b; destruct a, b; reflexivity. Qed.

(** ** One row by its key *)
Lemma NoDup_omap_inj {A B} (g : A -> option B) (l : list A) x y z :
  NoDup (omap g l) -> x ∈ l -> y ∈ l -> g x = Some z -> g y = Some z -> x = y.
Proof.
  induction l as [|a l IH]; intros Hn Hx Hy Ex Ey; [by apply elem_of_nil in Hx|]. simpl in Hn.
  apply elem_of_cons in Hx as [->|Hx], Hy as [->|Hy]; auto.
  - rewrite Ex in Hn. apply NoDup_cons in Hn as [Hz _]. exfalso. apply Hz, list_elem_of_omap. eauto.
  - rewrite Ey in Hn. apply NoDup_cons in Hn as [Hz _]. exfalso. apply Hz, list_elem_of_omap. eauto.
  - apply IH; auto. destruct (g a); [|done]. by apply NoDup_cons in Hn as [_ Hn].
Qed.

Lemma intents_one_key t k1 k2 r1 r2 :
  intentsUnique t = true -> t !! k1 = Some r1 -> t !! k2 = Some r2 -> i_owner r1 = i_owner r2 -> i_key r1 = i_key r2 -> k1 = k2.
Proof.
  intros Hu H1 H2 Ho Hk. unfold intentsUnique in Hu. rewrite !andb_true_iff, !bool_decide_eq_true in Hu. destruct Hu as [_ Hn].
  apply elem_of_map_to_list in H1. apply elem_of_map_to_list in H2.
  assert (E : (k1, r1) = (k2, r2)); [|by injection E].
  eapply (NoDup_omap_inj _ _ _ _ (i_owner r1, i_key r1)); [exact Hn|done|done|done|]. simpl. congruence.
Qed.

Lemma filter_one {R} (p : uuid -> R -> bool) (t : gmap uuid R) k r :
  t !! k = Some r -> p k r = true -> (forall k' r', t !! k' = Some r' -> p k' r' = true -> k' = k) ->
  filter (fun kr : uuid * R => p kr.1 kr.2 = true) (map_to_list t) = [(k, r)].
Proof.
  intros Hk Hp Hone. apply Permutation_singleton_r, NoDup_Permutation.
  - apply NoDup_filter, NoDup_map_to_list.
  - apply NoDup_singleton.
  - intros [k' r']. rewrite list_elem_of_filter, elem_of_map_to_list, list_elem_of_singleton. simpl. split.
    + intros [Hp' Hk']. pose proof (Hone _ _ Hk' Hp') as ->. congruence.
    + intros [= -> ->]. done.
Qed.

Lemma filter_none_map {R} (p : uuid -> R -> bool) (t : gmap uuid R) :
  (forall k r, t !! k = Some r -> p k r = false) -> filter (fun kr : uuid * R => p kr.1 kr.2 = true) (map_to_list t) = [].
Proof.
  intros Hno. apply filter_none. intros [k r] Hin Hp. apply elem_of_map_to_list in Hin. simpl in Hp. by rewrite (Hno _ _ Hin) in Hp.
Qed.

(** A guard that throws has not fired. *)
Ltac passed H := match type of H with (if ?b then _ else _) _ = _ => destruct b eqn:?; [discriminate H|] end.

Section Create.
Context {hashing : Hashing}.

(** A selection that singles out one intent reads its row and its first saga. *)
Lemma selectIntent_one db p k r :
  intents db !! k = Some r -> p k r = true -> (forall k' r', intents db !! k' = Some r' -> p k' r' = true -> k' = k) ->
  selectIntent db p = head (map (scanIntent (k, r)) (sagasOf db k)).
Proof. intros Hk Hp Hone. unfold selectIntent. rewrite (filter_one p _ k r) by done. unfold joinedRows. simpl. by rewrite app_nil_r. Qed.

Lemma selectIntent_id db k r :
  intents db !! k = Some r -> selectIntent db (fun k' _ => bool_decide (k' = k)) = head (map (scanIntent (k, r)) (sagasOf db k)).
Proof. intros Hk. apply selectIntent_one; [done|by apply bool_decide_true|]. intros k' r' _ Hb. by apply bool_decide_eq_true in Hb. Qed.

Lemma selectIntent_key db k r :
  intentsUnique (intents db) = true -> intents db !! k = Some r ->
  selectIntent db (byKey (i_owner r) (i_key r)) = head (map (scanIntent (k, r)) (sagasOf db k)).
Proof.
  intros Hu Hk. apply selectIntent_one; [done|unfold byKey; by rewrite !bool_decide_true by done|].
  intros k' r' Hk' Hb. unfold byKey in Hb. bools. by eapply intents_one_key.
Qed.

Lemma selectIntent_Some db p rec fp :
  selectIntent db p = Some (rec, fp) ->
  exists r ks, intents db !! r_id rec = Some r /\ p (r_id rec) r = true /\ head (sagasOf db (r_id rec)) = Some ks /\ (rec, fp) = scanIntent (r_id rec, r) ks.
Proof.
  unfold selectIntent, joinedRows. intros Hs.
  assert (Hgen : forall l, (forall ki, ki ∈ l -> intents db !! ki.1 = Some ki.2 /\ p ki.1 ki.2 = true) ->
    head (flat_map (fun ki => map (scanIntent ki) (sagasOf db ki.1)) l) = Some (rec, fp) ->
    exists r ks, intents db !! r_id rec = Some r /\ p (r_id rec) r = true /\ head (sagasOf db (r_id rec)) = Some ks /\ (rec, fp) = scanIntent (r_id rec, r) ks).
  { induction l as [|[k r] l IH]; intros Hl Hh; [done|]. simpl in Hh. destruct (sagasOf db k) as [|ks rest] eqn:Es.
    - apply IH; [|done]. intros ki Hki. apply Hl. by right.
    - apply (inj Some) in Hh. destruct (Hl (k, r) ltac:(by left)) as [Hk Hp]. simpl in Hk, Hp.
      assert (E : k = r_id rec) by (change k with (r_id (scanIntent (k, r) ks).1); by rewrite Hh). rewrite <- E. exists r, ks. rewrite Es. split; [done|]. split; [done|]. split; [done|]. by rewrite <- Hh. }
  apply (Hgen _) in Hs; [done|]. intros [k r] Hin. apply list_elem_of_filter in Hin as [Hp Hin]. by apply elem_of_map_to_list in Hin.
Qed.

Lemma moveIntent_row i from f db n db' row :
  moveIntent i from f db = Ok (n, db') -> intents db !! i = Some row -> i_state row = from ->
  intents db' !! i = Some (f row) /\ intentsUnique (intents db') = true /\ sagas db' = sagas db.
Proof.
  unfold moveIntent, updIntents. intros Hu Hi Hs. inv_ok. subst n db'. simpl. rewrite lookup_updWhere, Hi. simpl.
  rewrite !bool_decide_true by done. split; [done|]. split; [|done].
  match goal with H : negb (intentsUnique _) = false |- _ => by apply negb_false_iff in H end.
Qed.

Lemma updSagas_intents clk p f db n db' : updSagas clk p f db = Ok (n, db') -> intents db' = intents db.
Proof. unfold updSagas. intros Hu. inv_ok. by subst db'. Qed.
Lemma insOp_intents k r db n db' : insOp k r db = Ok (n, db') -> intents db' = intents db /\ sagas db' = sagas db.
Proof. unfold insOp. intros Hu. repeat case_match; inv_ok; simplify_eq; done. Qed.

(** Securing moves the reserved intent on; afterwards its key finds it. *)
Lemma MarkReservationSecured_lookup clk i cmd db row rec db' :
  intents db !! i = Some row -> i_state row = ReservationSecuring ->
  MarkReservationSecured clk i cmd (i_fp row) db = Ok (rec, db') ->
  r_state rec = CheckoutPending /\ selectIntent db' (byKey (i_owner row) (i_key row)) = Some (rec, i_fp row).
Proof.
  intros Hi Hst Htx. unfold MarkReservationSecured in Htx. case_match; [done|].
  apply bind_inv in Htx as (d0 & d & [= -> ->] & Htx). destruct (selectIntent d _) as [[r0 fp0]|]; [|done]. case_match; [done|].
  apply bind_inv in Htx as (n1 & d1 & H1 & Htx). apply exec_Ok in H1. destruct (moveIntent_row _ _ _ _ _ _ _ H1 Hi Hst) as (Hi1 & Hu1 & _).
  apply bind_inv in Htx as (n2 & d2 & H2 & Htx). apply exec_Ok in H2. apply updSagas_intents in H2.
  destruct (operationIdentity i "create_checkout") as [op key].
  apply bind_inv in Htx as (n3 & d3 & H3 & Htx). apply exec_Ok in H3. apply insOp_intents in H3 as [H3 _].
  apply bind_inv in Htx as (d4 & d5 & [= -> ->] & Htx). destruct (opOfType d5 i OperationCreateCheckout) as [[k o]|]; [|done]. case_match; [done|].
  assert (Hi5 : intents d5 !! i = Some (intentTo CheckoutPending row)) by by rewrite H3, H2.
  assert (Hu5 : intentsUnique (intents d5) = true) by by rewrite H3, H2.
  pose proof (selectIntent_key d5 i _ Hu5 Hi5) as Hkey. rewrite (selectIntent_id d5 i _ Hi5) in Htx. simpl in Hkey.
  destruct (sagasOf d5 i) as [|ks rest]; [done|]. simpl in Htx, Hkey. injection Htx as <- <-. by rewrite Hkey.
Qed.

(** What a repeated request finds. *)
Definition replayable (owner : uuid) (key fp : digest) (rec : IntentRecord) (db : PDb) : Prop :=
  LookupIntentByIdempotency owner key fp db = Ok (Some rec) /\ r_state rec <> ReservationSecuring.

Lemma run_Ok {E A} (m : PM E A) db a db' : run m db = (Ok a, db') -> m db = Ok (a, db').
Proof. unfold run. destruct (m db) as [[x d]|]; [|done]. by intros [= -> ->]. Qed.

Section Service.
Context {G : Type} (gateway : ReservationGateway G) (grace : Z) (providerName : string).

Lemma secureReservation_replayable clk r fp now db g rec db' g' row :
  intents db !! r_id r = Some row -> i_state row = ReservationSecuring -> i_fp row = fp ->
  i_owner row <> uuidNil -> i_key row <> 0%N -> fp <> 0%N ->
  secureReservation gateway grace clk r fp now (db, g) = (Ok rec, (db', g')) -> replayable (i_owner row) (i_key row) fp rec db'.
Proof.
  intros Hi Hst <- Ho Hk Hf Hx. unfold secureReservation in Hx.
  destruct (BeginPayment gateway _ g) as [[b|e] g1].
  - case_match; [done|]. apply orb_false_iff in H as [_ Hfp]. apply negb_false_iff, N.eqb_eq in Hfp.
    destruct (run _ db) as [[rec'|e] d] eqn:Hr; [|done]. injection Hx as -> -> _. apply run_Ok in Hr. rewrite Hfp in Hr.
    destruct (MarkReservationSecured_lookup _ _ _ _ _ _ _ Hi Hst Hr) as [Hs Hsel]. split; [|by rewrite Hs].
    unfold LookupIntentByIdempotency. rewrite bool_decide_false by done. apply N.eqb_neq in Hk, Hf. rewrite Hk, Hf, Hsel. simpl.
    by rewrite N.eqb_refl.
  - destruct e; try done. destruct (run _ db) as [[?|?] d]; done.
Qed.

Lemma reserve_new clk q db rec b db' :
  selectIntent db (byKey (rq_owner q) (rq_key q)) = None -> ReserveIntent clk q db = Ok ((rec, b), db') ->
  b = false /\ exists row, intents db' !! r_id rec = Some row /\ i_state row = ReservationSecuring /\ i_fp row = rq_fp q /\
    i_owner row = rq_owner q /\ i_key row = rq_key q.
Proof.
  intros Hnone Htx. unfold ReserveIntent in Htx. case_match; [done|]. apply bind_inv in Htx as (x & d & Hr & Htx).
  unfold reserveTx in Hr. apply bind_inv in Hr as (d0 & d1 & [= -> ->] & Hr). rewrite Hnone in Hr.
  passed Hr. passed Hr. cbv zeta in Hr. destruct (insIntent _ _ d1) as [[n d2]|[]] eqn:Hins; [| |discriminate Hr].
  - apply bind_inv in Hr as (n2 & d3 & H2 & Hr). apply exec_Ok in H2.
    apply bind_inv in Hr as (d4 & d5 & [= -> ->] & Hr). destruct (selectIntent d5 _) as [[r0 f0]|] eqn:Hsel; [|done].
    injection Hr as <- <-. injection Htx as <- <- <-. split; [done|].
    apply selectIntent_Some in Hsel as (row & ks & Hrow & Hid & _ & _). apply bool_decide_eq_true in Hid.
    exists row. split; [done|].
    assert (Hd : intents d5 !! rq_intent q = intents d2 !! rq_intent q).
    { unfold insSaga in H2. by repeat (case_match; simplify_eq; try done). }
    unfold insIntent in Hins. inv_ok. subst d2. simpl in Hd. rewrite lookup_insert_eq in Hd. rewrite Hid, Hd in Hrow. by injection Hrow as <-.
  - injection Hr as <- <-. apply bind_inv in Htx as (d6 & d7 & [= -> ->] & Htx). unfold LookupIntentByIdempotency in Htx. rewrite Hnone in Htx.
    apply bind_inv in Htx as (f & d8 & Hl & Htx). unfold lift in Hl.
    match type of Hl with context [if ?b then Err _ else _] => destruct b; [discriminate Hl|] end. injection Hl as <- _. discriminate Htx.
Qed.

Lemma lookup_nonzero owner key fp db rec :
  LookupIntentByIdempotency owner key fp db = Ok rec -> owner <> uuidNil /\ key <> 0%N /\ fp <> 0%N.
Proof.
  unfold LookupIntentByIdempotency. intros Hl. apply failif_Ok in Hl as [Hz _]. rewrite !orb_false_iff, bool_decide_eq_false, !N.eqb_neq in Hz. tauto.
Qed.

Lemma CreateIntent_replayable clk now ids owner res key w rec w' kh fp :
  intentIdentity owner res key = Ok (kh, fp) -> CreateIntent gateway grace providerName clk now ids owner res key w = (Ok rec, w') ->
  replayable owner kh fp rec w'.1.
Proof.
  intros Hid Hx. destruct w as [db g], w' as [db' g']. unfold CreateIntent in Hx. rewrite Hid in Hx.
  destruct (LookupIntentByIdempotency owner kh fp db) as [[ex|]|] eqn:Hl; [| |done]; pose proof (lookup_nonzero _ _ _ _ _ Hl) as (Ho & Hk & Hf).
  - case_bool_decide as Hs; simpl in Hx; [|by injection Hx as <- <- _].
    pose proof Hl as Hl'. unfold LookupIntentByIdempotency in Hl'. apply failif_Ok in Hl' as [_ Hl'].
    destruct (selectIntent db _) as [[r0 f0]|] eqn:Hsel; [|done]. apply failif_Ok in Hl' as [Hf0 [= ->]].
    apply negb_false_iff, N.eqb_eq in Hf0. apply selectIntent_Some in Hsel as (row & ks & Hrow & Hby & _ & Hscan).
    injection Hscan as E1 E2. unfold byKey in Hby. apply andb_true_iff in Hby as [Hb1 Hb2]. apply bool_decide_eq_true in Hb1, Hb2.
    rewrite <- Hb1, <- Hb2. eapply (secureReservation_replayable _ ex); [exact Hrow| |congruence|congruence|congruence|done|exact Hx].
    rewrite E1 in Hs. exact Hs.
  - destruct (GetPayableReservation gateway res g) as [s|]; [|done]. case_match; [done|]. case_match; [done|].
    destruct ids as [[i sg] c]. case_match; [done|]. destruct (run _ db) as [[[r b]|] d] eqn:Hr; [|done]. apply run_Ok in Hr.
    match goal with H : negb (bool_decide (sn_id s = res)) || negb (bool_decide (sn_owner s = owner)) = false |- _ =>
      apply orb_false_iff in H as [_ Hso]; apply negb_false_iff, bool_decide_eq_true in Hso end.
    assert (Hnone : selectIntent db (byKey owner kh) = None).
    { unfold LookupIntentByIdempotency in Hl. apply failif_Ok in Hl as [_ Hl]. destruct (selectIntent db _) as [[? ?]|]; [|done]. by apply failif_Ok in Hl as [_ ?]. }
    apply reserve_new in Hr as (-> & row & Hrow & Hst & Hfp & Hown & Hkey); [|simpl; by rewrite Hso]. simpl in *.
    assert (i_owner row = owner) as <- by congruence. rewrite <- Hkey.
    eapply secureReservation_replayable; [exact Hrow|exact Hst|exact Hfp|done|congruence|done|exact Hx].
Qed.

End Service.
End Create.

(** ** Conflicting events *)
Section Quarantine.
Context {hashing : Hashing}.

Lemma eventRow_Some db p e k x : eventRow db p e = Some (k, x) -> inbox db !! k = Some x /\ x_provider x = p /\ x_event x = e.
Proof. unfold eventRow. intros Hr. apply head_filter_Some in Hr as [[? ?] Hin]. by apply elem_of_map_to_list in Hin. Qed.

Lemma StoreVerified_conflict clk h db db' k x :
  StoreVerified clk h db = Ok (StoreConflict, db') -> eventRow db (h_provider h) (h_event h) = Some (k, x) ->
  webhookConflictQuarantinable (x_state x) = true ->
  exists x', inbox db' !! k = Some x' /\ x_hash x' = x_hash x /\ x_state x' = SecurityConflict.
Proof.
  intros Htx Hrow Hq. unfold StoreVerified in Htx. apply bind_inv in Htx as (n & d & Hins & Htx). apply exec_Ok in Hins.
  unfold insInbox in Hins. rewrite Hrow in Hins. destruct (negb (hookCheck h)); [done|]. injection Hins as <- <-.
  apply bind_inv in Htx as (d0 & d1 & [= -> ->] & Htx). rewrite Hrow in Htx. destruct (x_hash x =? h_hash h)%N; [by unfold mret, PM_ret in Htx|].
  apply bind_inv in Htx as (n2 & d2 & Hrec & Htx). apply exec_Ok in Hrec. unfold recordConflict in Hrec. injection Hrec as <- <-.
  rewrite Hq in Htx. apply bind_inv in Htx as (u & d3 & Hh & Htx). injection Htx as <-.
  apply bind_inv in Hh as (n3 & d4 & Hu & Hh). apply exec_Ok in Hu. destruct (n3 =? 1)%nat; [|done]. injection Hh as _ <-.
  unfold updInbox in Hu. inv_ok. subst d4. simpl. apply eventRow_Some in Hrow as (Hk & Hp & He).
  rewrite lookup_updWhere, Hk. simpl. unfold eventIs. rewrite Hp, He, !bool_decide_true by done. simpl. eauto.
Qed.

(** A claimed event was waiting. *)
Lemma ClaimWebhooks_waiting fs o db cs db' k h s :
  Facts (FInbox k h s :: fs) db -> ClaimWebhooks o db = Ok (cs, db') -> Forall (fun c => wc_inbox c <> k) cs.
Proof.
  intros HF Htx. unfold ClaimWebhooks in Htx. passed Htx. apply bind_inv in Htx as (n & d & Hu & Htx). apply exec_Ok in Hu.
  assert (HF' : Facts (FInbox k h s :: fs) d) by by eapply stmt_updInbox; [| |exact Hu].
  destruct HF' as [_ Hf]. apply Forall_cons in Hf as [(x & Hk & _ & Hst & Hfin) _].
  apply bind_inv in Htx as (d0 & d1 & [= -> ->] & Htx). cbv zeta in Htx. apply bind_inv in Htx as (n2 & d2 & _ & Htx).
  injection Htx as <- _. rewrite Forall_forall. intros c Hc. apply list_elem_of_fmap in Hc as ([k' x'] & -> & Hc). simpl. intros ->.
  apply elem_of_sortBy, list_elem_of_filter in Hc as [Hid _]. simpl in Hid.
  unfold claimedIds in Hid. apply list_elem_of_fmap in Hid as ([k2 x2] & Hk2 & Hid). simpl in Hk2. subst k2.
  apply elem_of_take in Hid as (i & Hid & _). apply list_elem_of_lookup_2, elem_of_sortBy, list_elem_of_filter in Hid as [[Hw _] Hin].
  apply elem_of_map_to_list in Hin. assert (x2 = x) as -> by congruence. simpl in Hw. rewrite Hst in Hw. destruct Hw as [-> | ->]; done.
Qed.

(** The first digest of a provider event is canonical: when an event that
    is still waiting or being processed arrives again with another digest, it
    is quarantined with its first digest, stays so through every later history
    of transactions, and is never claimed for processing again. *)
Theorem webhook_conflict_quarantined db0 l1 clk h db' k x l2 :
  noPayments db0 ->
  StoreVerified clk h (h_db (runHistory l1 (mkHState db0 []))) = Ok (StoreConflict, db') ->
  eventRow (h_db (runHistory l1 (mkHState db0 []))) (h_provider h) (h_event h) = Some (k, x) ->
  x_state x = Received \/ x_state x = InboxProcessing \/ x_state x = InboxFailedRetryable ->
  let later := h_db (runHistory l2 (mkHState db' (h_claims (runHistory l1 (mkHState db0 []))))) in
  (exists x', inbox later !! k = Some x' /\ x_hash x' = x_hash x /\ x_state x' = SecurityConflict) /\
  forall o cs db2, ClaimWebhooks o later = Ok (cs, db2) -> Forall (fun c => wc_inbox c <> k) cs.
Proof.
  intros Hno Hst Hrow Hwait later.
  assert (Hq : webhookConflictQuarantinable (x_state x) = true) by (destruct Hwait as [-> | [-> | ->]]; done).
  destruct (StoreVerified_conflict _ _ _ _ _ _ Hst Hrow Hq) as (x' & Hk & Hh & Hs).
  pose proof (StoreVerified_keeps _ _ _ _ _ _ (history_inv db0 l1 Hno) Hst) as [Hinv Hf].
  assert (HI : HInv [FInbox k (x_hash x) SecurityConflict] (mkHState db' (h_claims (runHistory l1 (mkHState db0 []))))).
  { split; [done|]. constructor; [|done]. by exists x'. }
  apply (runHistory_inv _ l2) in HI. fold later in HI. split.
  - destruct HI as [_ Hf']. apply Forall_cons in Hf' as [(x2 & ? & ? & ? & _) _]. by exists x2.
  - intros o cs db2 Hc. by eapply ClaimWebhooks_waiting.
Qed.
End Quarantine.

(** ** Fencing *)
Section Fencing.
Context {hashing : Hashing}.

Lemma oneRow_row {R} (t : gmap uuid R) p : (forall k r, t !! k = Some r -> p k r = false) -> countWhere p t <> 1%nat.
Proof. intros Hno Hc. apply countWhere_1 in Hc as (k & r & Hk & Hp). by rewrite (Hno _ _ Hk) in Hp. Qed.

Lemma oneRow_updOps_Err clk p f db :
  (forall k r, ops db !! k = Some r -> p k r = false) -> exists e, oneRow (updOps clk p f) db = Err e.
Proof.
  intros Hno. destruct (oneRow (updOps clk p f) db) as [[u d]|e] eqn:Hr; [|eauto]. exfalso.
  apply bind_inv in Hr as (n & d1 & Hu & Hr). apply exec_Ok in Hu. destruct (n =? 1)%nat eqn:E; [|done]. apply Nat.eqb_eq in E as ->.
  unfold updOps in Hu. inv_ok. eapply oneRow_row; [exact Hno|done].
Qed.

Lemma bind_Err {E A B} (m : PM E A) (k : A -> PM E B) db e : m db = Err e -> (m ≫= k) db = Err e.
Proof. unfold mbind, PM_bind. by intros ->. Qed.

Lemma run_Err {E A} (m : PM E A) db e : m db = Err e -> run m db = (Err e, db).
Proof. unfold run. by intros ->. Qed.

(** A worker that no longer holds the lease of an operation - another worker
    took it, it was recovered, or it expired - can neither begin, nor complete,
    nor fail it: each transaction returns an error and changes no table. *)
Theorem stale_lease_fenced clk c db :
  oc_previous c <> Uncertain ->
  (forall r, ops db !! oc_op c = Some r -> held (o_lease r) (oc_lease c) clk = false) ->
  (exists e, run (BeginOperation clk c) db = (Err e, db)) /\
  (forall ev, exists e, run (CompleteOperation clk c ev) db = (Err e, db)) /\
  (forall f, exists e, run (FailOperation clk c f) db = (Err e, db)).
Proof.
  intros Hprev Hheld.
  assert (Hno : forall s k r, ops db !! k = Some r -> bool_decide (k = oc_op c) && s r && held (o_lease r) (oc_lease c) clk = false).
  { intros s k r Hk. case_bool_decide as E; [|done]. subst k. rewrite (Hheld _ Hk). by rewrite andb_false_r. }
  split; [|split].
  - unfold BeginOperation. case_match; [by exists ErrLeaseLost|].
    destruct (oneRow_updOps_Err clk _ (opTo InFlight) db (Hno (fun r => bool_decide (o_state r = Claimed)))) as [e He].
    exists e. by apply run_Err, bind_Err.
  - intros ev. unfold CompleteOperation. case_match; [by exists ErrStoreUnavailable|]. cbv zeta. rewrite bool_decide_false by done.
    match goal with |- context [oneRow (updOps clk ?p ?f)] => destruct (oneRow_updOps_Err clk p f db (Hno (fun r => bool_decide (o_state r = InFlight)))) as [e He] end.
    exists e. by apply run_Err, bind_Err.
  - intros f. unfold FailOperation. case_match; [by exists ErrStoreUnavailable|]. rewrite bool_decide_false by done. cbv zeta.
    assert (Hfin : forall next, exists e, finalizeOperationFailure clk c InFlight next f db = Err e).
    { intros next. unfold finalizeOperationFailure, mbind, PM_bind, getDb. apply oneRow_updOps_Err. intros k r Hk.
      rewrite (bool_decide_false (InFlight = Uncertain)) by done. rewrite andb_false_l, orb_false_r.
      exact (Hno (fun r => bool_decide (o_state r = InFlight)) k r Hk). }
    destruct (f_review f); [destruct (Hfin FailedPermanent) as [e He]; exists e; by apply run_Err, bind_Err|].
    match goal with |- context [finalizeOperationFailure clk c InFlight ?nx f] => destruct (Hfin nx) as [e He] end.
    exists e. by apply run_Err, bind_Err.
Qed.
End Fencing.

(** ** Witnesses *)
Section Witnesses.
Import SamplePayment.

(** A gateway that counts the payments begun at the shard. *)
Definition sampleGateway : ReservationGateway nat :=
  mkReservationGateway nat
    (fun r _ => Ok (mkReservationSnapshot r 30 20 "held" 5000 "EUR" 1000))
    (fun c g => (Ok (mkBeginPaymentReceipt (bp_command c) (bp_intent c) (bp_fp c)), S g)).
Definition created : res AppErr IntentRecord * World nat :=
  CreateIntent sampleGateway 900 "sandbox" 100 100 (1%N, 2%N, 3%N) 30 10 "checkout-key" (db0, 0%nat).


(** The event of the sample history, delivered again with another body. *)
Definition firstDelivery : list Tx :=
  checkout ++ [TxStore 300 (mkHookRecord 50 "sandbox" "evt-1" "payment.captured" "pay-1" 77 "key-1" 299 300 300 20 false)].
Definition changedDelivery : HookRecord := mkHookRecord 52 "sandbox" "evt-1" "payment.captured" "pay-1" 78 "key-1" 299 310 310 20 false.

Lemma webhook_conflict_quarantined_witness :
  exists db' k x,
    StoreVerified 310 changedDelivery (h_db (runHistory firstDelivery (mkHState db0 []))) = Ok (StoreConflict, db') /\
    x_state x = Received /\
    exists x', inbox (h_db (runHistory [TxClaimHooks (at_ 400)] (mkHState db' (h_claims (runHistory firstDelivery (mkHState db0 [])))))) !! k = Some x' /\
      x_hash x' = x_hash x /\ x_state x' = SecurityConflict.
Proof.
  destruct (StoreVerified 310 changedDelivery (h_db (runHistory firstDelivery (mkHState db0 [])))) as [[res db']|e] eqn:E.
  - assert (Hres : res = StoreConflict).
    { assert (Hs : match StoreVerified 310 changedDelivery (h_db (runHistory firstDelivery (mkHState db0 []))) with Ok (r, _) => Some r | Err _ => None end = Some StoreConflict)
        by (vm_compute; reflexivity). rewrite E in Hs. by injection Hs. }
    subst res.
    destruct (eventRow (h_db (runHistory firstDelivery (mkHState db0 []))) "sandbox" "evt-1") as [[k x]|] eqn:Hrow.
    + exists db', k, x. split; [reflexivity|].
      assert (Hq : x_state x = Received).
      { assert (Hs : match eventRow (h_db (runHistory firstDelivery (mkHState db0 []))) "sandbox" "evt-1" with
                     | Some (_, x) => Some (x_state x) | None => None end = Some Received) by (vm_compute; reflexivity).
        rewrite Hrow in Hs. by injection Hs. }
      split; [exact Hq|].
      exact (proj1 (webhook_conflict_quarantined db0 firstDelivery 310 changedDelivery db' k x [TxClaimHooks (at_ 400)]
        ltac:(by repeat split) E Hrow (or_introl Hq))).
    + exfalso. assert (Hs : match eventRow (h_db (runHistory firstDelivery (mkHState db0 []))) "sandbox" "evt-1" with
                            | Some _ => true | None => false end = true) by (vm_compute; reflexivity).
      rewrite Hrow in Hs. discriminate Hs.
  - exfalso. assert (Hs : is_ok (StoreVerified 310 changedDelivery (h_db (runHistory firstDelivery (mkHState db0 [])))) = true) by (vm_compute; reflexivity).
    rewrite E in Hs. discriminate Hs.
Defined.

(** The checkout operation is claimed by worker-1; worker-2 cannot touch it. *)
Definition otherClaim : OperationClaim :=
  mkOperationClaim 40 1 10 20 30 "sandbox" OperationVoid Pending "pay-1" "" "" "key" 5000 "EUR" 1 300 "worker-2" 60000000400.
Definition voiding : PDb :=
  h_db (runHistory (checkout ++ [TxCancel 300 (mkCancelIntentRequest 30 1 40 9 (cancellationFingerprint 30 1)); TxClaimOps (at_ 400) 400]) (mkHState db0 [])).

Lemma stale_lease_fenced_witness :
  (o_state <$> ops voiding !! 40%N) = Some Claimed /\ exists e, run (BeginOperation 401 otherClaim) voiding = (Err e, voiding).
Proof.
  split; [vm_compute; reflexivity|].
  refine (proj1 (stale_lease_fenced 401 otherClaim voiding _ _)); [discriminate|].
  intros r Hr.
  assert (Hs : (fun r => held (o_lease r) "worker-2" 401) <$> ops voiding !! 40%N = Some false) by (vm_compute; reflexivity).
  change (oc_op otherClaim) with 40%N in Hr. rewrite Hr in Hs. simpl in Hs. injection Hs as Hs. exact Hs.
Defined.
End Witnesses.
