(* ===== verification/Transaction.v ===== *)
(** * Transactions

    The monad of the physical-shard and control-database programs: a
    transaction threads the tables and rolls back, by leaving no new tables, on
    an error.  It comes with the inversion of its successful and failed runs,
    and with programs that respect an order on the tables, statement by
    statement. *)

From S2P Require Import Prelude.

Definition Txn (S E A : Type) : Type := S -> res E (A * S).
#[export] Instance Txn_ret S E : MRet (Txn S E) := fun A a d => Ok (a, d).
#[export] Instance Txn_bind S E : MBind (Txn S E) := fun A B k m d =>
  match m d with Ok (a, d') => k a d' | Err e => Err e end.
Definition raise {S E A} (e : E) : Txn S E A := fun _ => Err e.
(** The tables. *)
Definition shard {S E} : Txn S E S := fun d => Ok (d, d).
(** A read of the tables. *)
Definition reads {S E A} (f : S -> res E A) : Txn S E A := fun d => match f d with Ok a => Ok (a, d) | Err e => Err e end.
(** execOne: a statement that must affect one row. *)
Definition one {S E} (e : E) (s : S -> option S) : Txn S E unit := fun d =>
  match s d with Some d' => Ok (tt, d') | None => Err e end.
(** A statement that returns a row count. *)
Definition counted {S E} (e : E) (s : S -> option (nat * S)) : Txn S E nat := fun d =>
  match s d with Some nd => Ok nd | None => Err e end.
(** A statement whose row count is not looked at. *)
Definition modify {S E} (f : S -> S) : Txn S E unit := fun d => Ok (tt, f d).
Definition guardS {S E} (b : bool) (e : E) : Txn S E unit := if b then raise e else mret tt.

(** ** Runs *)
Section Runs.
Context {S : Type}.
Implicit Types d : S.
Lemma sbind_Ok {E A B} (m : Txn S E A) (k : A -> Txn S E B) d b d'' :
  (m ≫= k) d = Ok (b, d'') <-> exists a d', m d = Ok (a, d') /\ k a d' = Ok (b, d'').
Proof. unfold mbind, Txn_bind. destruct (m d) as [[a d']|e]; naive_solver. Qed.
Lemma sret_Ok {E A} (a b : A) d d' : (mret a : Txn S E A) d = Ok (b, d') <-> a = b /\ d = d'.
Proof. unfold mret, Txn_ret. naive_solver. Qed.
Lemma raise_Ok {E A} (e : E) d (a : A) d' : raise e d = Ok (a, d') <-> False.
Proof. unfold raise. naive_solver. Qed.
Lemma shard_Ok {E} d a d' : (shard : Txn S E S) d = Ok (a, d') <-> d = a /\ d = d'.
Proof. unfold shard. naive_solver. Qed.
Lemma one_Ok {E} (e : E) s d u d' : one e s d = Ok (u, d') <-> s d = Some d'.
Proof. unfold one. destruct u, (s d); naive_solver. Qed.
Lemma counted_Ok {E} (e : E) s d n d' : counted e s d = Ok (n, d') <-> s d = Some (n, d').
Proof. unfold counted. destruct (s d) as [[? ?]|]; naive_solver. Qed.
Lemma modify_Ok {E} f d u d' : (modify f : Txn S E unit) d = Ok (u, d') <-> f d = d'.
Proof. unfold modify. destruct u. naive_solver. Qed.
Lemma guardS_Ok {E} b (e : E) d u d' : guardS b e d = Ok (u, d') <-> b = false /\ d = d'.
Proof. unfold guardS, raise, mret, Txn_ret. destruct b, u; naive_solver. Qed.
Lemma reads_Ok {E A} (f : S -> res E A) d a d' : reads f d = Ok (a, d') <-> f d = Ok a /\ d = d'.
Proof. unfold reads. destruct (f d); naive_solver. Qed.
Lemma sbind_Err {E A B} (m : Txn S E A) (k : A -> Txn S E B) d e :
  (m ≫= k) d = Err e -> m d = Err e \/ exists a d1, m d = Ok (a, d1) /\ k a d1 = Err e.
Proof. unfold mbind, Txn_bind. destruct (m d) as [[a d1]|]; [right; eauto|intros [= <-]; by left]. Qed.
End Runs.

(** ** Programs that respect a relation *)
Definition respects {S} (R : S -> S -> Prop) {E A} (m : Txn S E A) : Prop := forall d a d', m d = Ok (a, d') -> R d d'.

Section Respects.
Context {S : Type} (R : S -> S -> Prop) `{!PreOrder R} {E : Type}.
Lemma respects_ret {A} (a : A) : respects R (mret a : Txn S E A).
Proof. intros d b d' [_ <-]%sret_Ok. reflexivity. Qed.
Lemma respects_bind {A B} (m : Txn S E A) (k : A -> Txn S E B) : respects R m -> (forall a, respects R (k a)) -> respects R (m ≫= k).
Proof. intros Hm Hk d b d' (a & d1 & H1 & H2)%sbind_Ok. transitivity d1; [by eapply Hm|by eapply Hk]. Qed.
Lemma respects_raise {A} (e : E) : respects R (raise e : Txn S E A).
Proof. intros d a d' []%raise_Ok. Qed.
Lemma respects_shard : respects R (shard : Txn S E S).
Proof. intros d a d' [_ <-]%shard_Ok. reflexivity. Qed.
Lemma respects_guard b (e : E) : respects R (guardS b e).
Proof. intros d a d' [_ <-]%guardS_Ok. reflexivity. Qed.
Lemma respects_reads {A} (f : S -> res E A) : respects R (reads f).
Proof. intros d a d' [_ <-]%reads_Ok. reflexivity. Qed.
Lemma respects_one (e : E) s : (forall d d', s d = Some d' -> R d d') -> respects R (one e s).
Proof. intros H d a d' H1%one_Ok. eauto. Qed.
Lemma respects_counted (e : E) s : (forall d n d', s d = Some (n, d') -> R d d') -> respects R (counted e s).
Proof. intros H d a d' H1%counted_Ok. eauto. Qed.
Lemma respects_modify (f : S -> S) : (forall d, R d (f d)) -> respects R (modify f : Txn S E unit).
Proof. intros H d a d' <-%modify_Ok. eauto. Qed.
End Respects.
