(* ===== verification/ShardDb.v ===== *)
(** * The physical booking shard: tables, constraints and statements

    The tables of one physical shard database
    ([src/migrations/booking-shard/000001_booking_shard.up.sql] and
    [000002_payment_ticket_issuance.up.sql]) that the booking command executor
    and the payment shard store read and write, with their CHECK and UNIQUE
    constraints, their foreign keys and the guards of their BEFORE triggers.

    A table is a finite map from its primary key, or from the unique column by
    which the code looks it up, with the primary key as a field.  A statement
    that must change one row returns the new tables, or [None] when it changes
    another number of rows or violates a constraint: the code treats the two
    alike.  A transaction threads the tables, rolls back on an error and reads
    clock_timestamp() once.  updated_at and the journal that capture triggers
    write during a migration are not modelled, and neither are the columns of
    the snapshot tables that no modelled statement reads. *)

From S2P Require Import Prelude Transaction SegmentMask Sharding PaymentDomain PaymentDb BookingDb.
Import ShardTypes.

(** ** Rows *)
Record SnapRow := mkSnapRow { bs_segments : Z; bs_version : Z; bs_status : string; bs_bookable : bool; bs_active : bool }.
Record CatRow := mkCatRow { ct_coach : Z; ct_order : Z; ct_active : bool }.
Record FareSnap := mkFareSnap {
  fs_run : uuid; fs_gen : Z; fs_from : Z; fs_to : Z; fs_class : string; fs_amount : Z; fs_currency : string;
  fs_version : Z; fs_active : bool }.
Record InvRow := mkInvRow { iv_segments : Z; iv_class : string; iv_occupied : varbit; iv_version : Z }.

(** payment_intent_id, payment_amount_minor, payment_currency and
    payment_grace_expires_at: all NULL or none. *)
Record PaySnap := mkPaySnap { py_intent : uuid; py_amount : Z; py_currency : string; py_grace : Z }.
#[export] Instance PaySnap_eq_dec : EqDecision PaySnap.
Proof. solve_decision. Defined.
Record ResRow := mkResRow {
  rv_user : uuid; rv_run : uuid; rv_gen : Z; rv_segments : Z; rv_from : Z; rv_to : Z; rv_class : string;
  rv_status : RStatus; rv_expires : Z; rv_total : Z; rv_currency : string; rv_created : Z; rv_payment : option PaySnap }.

Record RSeatRow := mkRSeatRow {
  st_reservation : uuid; st_run : uuid; st_gen : Z; st_segments : Z; st_seat : uuid; st_passenger : uuid; st_fare : uuid;
  st_mask : varbit; st_amount : Z; st_currency : string }.

Inductive OStatus :=
| OConfirmed | OPaymentPending | OPaymentAuthorized | OPaymentCaptured | OIssuancePending | OIssued | ORefundPending
| ORefunded | OCancelled | OManualReview.
#[export] Instance OStatus_eq_dec : EqDecision OStatus.
Proof. solve_decision. Defined.
(** payment_currency is the currency when payment_intent_id is set. *)
Record OrdRow := mkOrdRow {
  od_reservation : uuid; od_user : uuid; od_run : uuid; od_gen : Z; od_status : OStatus; od_total : Z; od_currency : string;
  od_intent : option uuid; od_authorized : Z; od_captured : Z; od_refunded : Z; od_created : Z }.

Inductive TStatus := TPending | TActive | TRefundPending | TCancelled.
#[export] Instance TStatus_eq_dec : EqDecision TStatus.
Proof. solve_decision. Defined.
Record TixRow := mkTixRow { tk_order : uuid; tk_seat : uuid; tk_run : uuid; tk_gen : Z; tk_code : string; tk_status : TStatus }.

(** The columns status, result_*, error_code and completed_at together: the
    row CHECKs allow exactly these combinations. *)
Inductive BState := BStarted | BSucceeded (type : string) (id : uuid) | BRejected (code : string).
Record BReceipt := mkBReceipt { bk_id : uuid; bk_run : uuid; bk_gen : Z; bk_type : string; bk_fp : digest; bk_state : BState }.

Inductive PayOp :=
| OpPaymentBegin | OpAuthorizationRecorded | OpCaptureRecorded | OpPaymentReview | OpRefundPending | OpPaymentCancelled.
#[export] Instance PayOp_eq_dec : EqDecision PayOp.
Proof. solve_decision. Defined.
Inductive PState := PStarted | PSucceeded (resource : uuid) (result : RStatus) (committed : Z) | PRejected (code : string).
Record PReceipt := mkPReceipt {
  pc_id : uuid; pc_intent : uuid; pc_reservation : uuid; pc_run : uuid; pc_gen : Z; pc_op : PayOp; pc_fp : digest;
  pc_amount : Z; pc_currency : string; pc_state : PState }.

(** By issuance_id. *)
Record IssuanceRow := mkIssuanceRow {
  is_id : uuid; is_intent : uuid; is_reservation : uuid; is_operation : uuid; is_order : uuid; is_run : uuid; is_gen : Z;
  is_proof : digest; is_amount : Z; is_currency : string; is_count : nat; is_created : Z }.
(** By id. *)
Record RefundRow := mkRefundRow {
  rf_operation : uuid; rf_intent : uuid; rf_reservation : uuid; rf_order : uuid; rf_run : uuid; rf_gen : Z;
  rf_proof : digest; rf_captured : Z; rf_refunded : Z; rf_currency : string; rf_at : Z }.
(** By compensation_id. *)
Record CompRow := mkCompRow {
  cp_id : uuid; cp_intent : uuid; cp_reservation : uuid; cp_order : uuid; cp_refund : uuid; cp_run : uuid; cp_gen : Z;
  cp_released : nat; cp_tickets : nat }.

(** The values of a JSON payload. *)
Inductive Field := FUuid (u : uuid) | FInt (z : Z) | FText (s : string).
Record EventRow := mkEventRow {
  ev_run : uuid; ev_gen : Z; ev_type : string; ev_aggregate : uuid; ev_event : string; ev_payload : list (string * Field) }.

Record FenceRow := mkFenceRow { wf_gen : Z; wf_enabled : bool; wf_state : string }.
Record EvidenceRow := mkEvidenceRow { we_id : uuid; we_count : Z; we_first : option Z; we_last : option Z; we_command : option uuid }.

Record Shard := mkShard {
  snapshots : gmap (uuid * Z) SnapRow;
  catalog : gmap (uuid * Z * uuid) CatRow;
  fareSnaps : gmap uuid FareSnap;
  inv : gmap (uuid * Z * uuid) InvRow;
  resv : gmap uuid ResRow;
  rseats : gmap uuid RSeatRow;
  orders : gmap uuid OrdRow;
  tix : gmap uuid TixRow;
  breceipts : gmap uuid BReceipt;
  preceipts : gmap uuid PReceipt;
  issuances : gmap uuid IssuanceRow;
  refunds : gmap uuid RefundRow;
  comps : gmap uuid CompRow;
  outboxE : gmap uuid EventRow;
  fences : gmap uuid FenceRow;
  evidence : gmap (uuid * Z) EvidenceRow }.

Definition set_snapshots (d : Shard) v : Shard := mkShard v (catalog d) (fareSnaps d) (inv d) (resv d) (rseats d) (orders d) (tix d) (breceipts d) (preceipts d) (issuances d) (refunds d) (comps d) (outboxE d) (fences d) (evidence d).
Definition set_inv (d : Shard) v : Shard := mkShard (snapshots d) (catalog d) (fareSnaps d) v (resv d) (rseats d) (orders d) (tix d) (breceipts d) (preceipts d) (issuances d) (refunds d) (comps d) (outboxE d) (fences d) (evidence d).
Definition set_resv (d : Shard) v : Shard := mkShard (snapshots d) (catalog d) (fareSnaps d) (inv d) v (rseats d) (orders d) (tix d) (breceipts d) (preceipts d) (issuances d) (refunds d) (comps d) (outboxE d) (fences d) (evidence d).
Definition set_rseats (d : Shard) v : Shard := mkShard (snapshots d) (catalog d) (fareSnaps d) (inv d) (resv d) v (orders d) (tix d) (breceipts d) (preceipts d) (issuances d) (refunds d) (comps d) (outboxE d) (fences d) (evidence d).
Definition set_orders (d : Shard) v : Shard := mkShard (snapshots d) (catalog d) (fareSnaps d) (inv d) (resv d) (rseats d) v (tix d) (breceipts d) (preceipts d) (issuances d) (refunds d) (comps d) (outboxE d) (fences d) (evidence d).
Definition set_tix (d : Shard) v : Shard := mkShard (snapshots d) (catalog d) (fareSnaps d) (inv d) (resv d) (rseats d) (orders d) v (breceipts d) (preceipts d) (issuances d) (refunds d) (comps d) (outboxE d) (fences d) (evidence d).
Definition set_breceipts (d : Shard) v : Shard := mkShard (snapshots d) (catalog d) (fareSnaps d) (inv d) (resv d) (rseats d) (orders d) (tix d) v (preceipts d) (issuances d) (refunds d) (comps d) (outboxE d) (fences d) (evidence d).
Definition set_preceipts (d : Shard) v : Shard := mkShard (snapshots d) (catalog d) (fareSnaps d) (inv d) (resv d) (rseats d) (orders d) (tix d) (breceipts d) v (issuances d) (refunds d) (comps d) (outboxE d) (fences d) (evidence d).
Definition set_issuances (d : Shard) v : Shard := mkShard (snapshots d) (catalog d) (fareSnaps d) (inv d) (resv d) (rseats d) (orders d) (tix d) (breceipts d) (preceipts d) v (refunds d) (comps d) (outboxE d) (fences d) (evidence d).
Definition set_refunds (d : Shard) v : Shard := mkShard (snapshots d) (catalog d) (fareSnaps d) (inv d) (resv d) (rseats d) (orders d) (tix d) (breceipts d) (preceipts d) (issuances d) v (comps d) (outboxE d) (fences d) (evidence d).
Definition set_comps (d : Shard) v : Shard := mkShard (snapshots d) (catalog d) (fareSnaps d) (inv d) (resv d) (rseats d) (orders d) (tix d) (breceipts d) (preceipts d) (issuances d) (refunds d) v (outboxE d) (fences d) (evidence d).
Definition set_outboxE (d : Shard) v : Shard := mkShard (snapshots d) (catalog d) (fareSnaps d) (inv d) (resv d) (rseats d) (orders d) (tix d) (breceipts d) (preceipts d) (issuances d) (refunds d) (comps d) v (fences d) (evidence d).
Definition set_evidence (d : Shard) v : Shard := mkShard (snapshots d) (catalog d) (fareSnaps d) (inv d) (resv d) (rseats d) (orders d) (tix d) (breceipts d) (preceipts d) (issuances d) (refunds d) (comps d) (outboxE d) (fences d) v.


(** ** Reading *)
Definition existsRow {K A} `{Countable K} (m : gmap K A) (p : K -> A -> bool) : bool :=
  existsb (fun kr => p kr.1 kr.2) (map_to_list m).
(** The seats of a reservation in the order of their ids. *)
Definition byId {A} (l : list (uuid * A)) : list (uuid * A) := sortBy (fun a b => (a.1 <=? b.1)%N) l.
Definition seatsOfReservation (d : Shard) (r : uuid) : list (uuid * RSeatRow) :=
  byId (filter (fun kr => st_reservation kr.2 = r) (map_to_list (rseats d))).
Definition ticketsOfOrder (d : Shard) (o : uuid) : list (uuid * TixRow) :=
  byId (filter (fun kr => tk_order kr.2 = o) (map_to_list (tix d))).
Definition orderOfReservation (d : Shard) (r : uuid) : option (uuid * OrdRow) :=
  head (filter (fun kr => od_reservation kr.2 = r) (map_to_list (orders d))).

(** ** Constraints *)
Definition snapshotOf (d : Shard) (run : uuid) (gen : Z) : bool := bool_decide (is_Some (snapshots d !! (run, gen))).
Definition intentOf (r : ResRow) : option uuid := py_intent <$> rv_payment r.

(** reservations_payment_snapshot_check. *)
Definition paySnapCheck (r : ResRow) : bool :=
  match rv_payment r with
  | None => match rv_status r with PaymentPending | PaymentReview | RefundPending => false | _ => true end
  | Some p =>
      match rv_status r with Held | Expired => false | _ => true end &&
      (py_amount p =? rv_total r) && (0 <=? py_amount p) && bool_decide (py_currency p = rv_currency r) &&
      validCurrencyCode (py_currency p) && (rv_created r <? py_grace p)
  end.
Definition resCheck (d : Shard) (r : ResRow) : bool :=
  (0 <? rv_gen r) && (0 <=? rv_from r) && (rv_from r <? rv_to r) && (rv_to r <=? rv_segments r) && (0 <=? rv_total r) &&
  validCurrencyCode (rv_currency r) && (rv_created r <? rv_expires r) && paySnapCheck r &&
  match snapshots d !! (rv_run r, rv_gen r) with Some s => bs_segments s =? rv_segments r | None => false end.
(** booking_shard_guard_reservation_payment_snapshot: the snapshot of the
    payment, once set, is immutable with the money it was taken of. *)
Definition resGuard (old new : ResRow) : bool :=
  match rv_payment old with
  | None => true
  | Some _ => bool_decide (rv_payment new = rv_payment old) && (rv_total new =? rv_total old) && bool_decide (rv_currency new = rv_currency old)
  end.
(** reservations_payment_intent_unique_idx. *)
Definition intentFree (d : Shard) (k : uuid) (r : ResRow) : bool :=
  match intentOf r with
  | None => true
  | Some i => negb (existsRow (resv d) (fun k' r' => negb (bool_decide (k' = k)) && bool_decide (intentOf r' = Some i)))
  end.

(** The foreign keys to a reservation of a run and generation, with its money
    and, where the row has one, its payment intent. *)
Definition resMoney (d : Shard) (r run : uuid) (gen total : Z) (currency : string) (intent : option uuid) : bool :=
  match resv d !! r with
  | None => false
  | Some v => bool_decide (rv_run v = run) && (rv_gen v =? gen) && (rv_total v =? total) && bool_decide (rv_currency v = currency) &&
              match intent with None => true | Some i => bool_decide (intentOf v = Some i) end
  end.

Definition orderCheck (r : OrdRow) : bool :=
  (0 <? od_gen r) && (0 <=? od_total r) && validCurrencyCode (od_currency r) &&
  ((od_authorized r =? 0) || (od_authorized r =? od_total r)) && ((od_captured r =? 0) || (od_captured r =? od_authorized r)) &&
  ((od_refunded r =? 0) || (od_refunded r =? od_captured r)) &&
  (0 <=? od_refunded r) && (od_refunded r <=? od_captured r) && (od_captured r <=? od_authorized r) && (od_authorized r <=? od_total r) &&
  match od_intent r with
  | None => (od_authorized r =? 0) && (od_captured r =? 0) && (od_refunded r =? 0) &&
            match od_status r with OConfirmed | OCancelled => true | _ => false end
  | Some _ => negb (bool_decide (od_status r = OConfirmed))
  end &&
  match od_status r with
  | OPaymentAuthorized => od_authorized r =? od_total r
  | OPaymentCaptured | OIssuancePending | OIssued | ORefundPending => od_captured r =? od_total r
  | ORefunded => (od_captured r =? od_total r) && (od_refunded r =? od_captured r)
  | OCancelled => (od_captured r =? 0) || (od_refunded r =? od_captured r)
  | _ => true
  end.
(** booking_shard_guard_ticket_order_payment_snapshot. *)
Definition orderGuard (old new : OrdRow) : bool :=
  match od_intent old with
  | None => true
  | Some _ => bool_decide (od_intent new = od_intent old) && (od_total new =? od_total old) && bool_decide (od_currency new = od_currency old)
  end &&
  (od_authorized old <=? od_authorized new) && (od_captured old <=? od_captured new) && (od_refunded old <=? od_refunded new).
Definition orderIntentFree (d : Shard) (k : uuid) (r : OrdRow) : bool :=
  match od_intent r with
  | None => true
  | Some i => negb (existsRow (orders d) (fun k' r' => negb (bool_decide (k' = k)) && bool_decide (od_intent r' = Some i)))
  end.

(** ** Statements *)
Definition insReservation (k : uuid) (r : ResRow) (d : Shard) : option Shard :=
  if bool_decide (is_Some (resv d !! k)) || negb (resCheck d r) || negb (intentFree d k r) then None
  else Some (set_resv d (<[k := r]> (resv d))).
(** UPDATE reservations SET ... WHERE id = k AND p. *)
Definition updReservation (k : uuid) (p : ResRow -> bool) (f : ResRow -> ResRow) (d : Shard) : option Shard :=
  match resv d !! k with
  | Some r => if p r && resGuard r (f r) && resCheck d (f r) && intentFree d k (f r) then Some (set_resv d (<[k := f r]> (resv d))) else None
  | None => None
  end.

Definition insRSeat (k : uuid) (s : RSeatRow) (d : Shard) : option Shard :=
  if bool_decide (is_Some (rseats d !! k)) ||
     existsRow (rseats d) (fun _ s' => bool_decide (st_reservation s' = st_reservation s) &&
                                       (bool_decide (st_seat s' = st_seat s) || bool_decide (st_passenger s' = st_passenger s)))
  then None else
  if negb match resv d !! st_reservation s with
          | Some r => bool_decide (rv_run r = st_run s) && (rv_gen r =? st_gen s) && (rv_segments r =? st_segments s)
          | None => false end ||
     negb (bool_decide (is_Some (inv d !! (st_run s, st_gen s, st_seat s)))) ||
     negb match fareSnaps d !! st_fare s with Some f => bool_decide (fs_run f = st_run s) && (fs_gen f =? st_gen s) | None => false end ||
     negb ((Z.of_nat (length (st_mask s)) =? st_segments s) && (0 <? bit_count (st_mask s))%nat && (0 <=? st_amount s) && validCurrencyCode (st_currency s))
  then None else Some (set_rseats d (<[k := s]> (rseats d))).

Definition insOrder (k : uuid) (r : OrdRow) (d : Shard) : option Shard :=
  if bool_decide (is_Some (orders d !! k)) || existsRow (orders d) (fun _ r' => bool_decide (od_reservation r' = od_reservation r)) ||
     negb (orderCheck r) || negb (orderIntentFree d k r) ||
     negb (resMoney d (od_reservation r) (od_run r) (od_gen r) (od_total r) (od_currency r) (od_intent r))
  then None else Some (set_orders d (<[k := r]> (orders d))).
(** ON CONFLICT (reservation_id) DO NOTHING. *)
Definition insOrderNothing (k : uuid) (r : OrdRow) (d : Shard) : option Shard :=
  if existsRow (orders d) (fun _ r' => bool_decide (od_reservation r' = od_reservation r)) then Some d else insOrder k r d.
Definition updOrder (k : uuid) (p : OrdRow -> bool) (f : OrdRow -> OrdRow) (d : Shard) : option Shard :=
  match orders d !! k with
  | Some r => if p r && orderGuard r (f r) && orderCheck (f r) then Some (set_orders d (<[k := f r]> (orders d))) else None
  | None => None
  end.

Definition insTicket (k : uuid) (t : TixRow) (d : Shard) : option Shard :=
  if bool_decide (is_Some (tix d !! k)) ||
     existsRow (tix d) (fun _ t' => bool_decide (tk_seat t' = tk_seat t) || bool_decide (tk_code t' = tk_code t))
  then None else
  if negb match orders d !! tk_order t with Some o => bool_decide (od_run o = tk_run t) && (od_gen o =? tk_gen t) | None => false end ||
     negb match rseats d !! tk_seat t with Some s => bool_decide (st_run s = tk_run t) && (st_gen s =? tk_gen t) | None => false end ||
     negb ((16 <=? String.length (tk_code t))%nat && (String.length (tk_code t) <=? 64)%nat)
  then None else Some (set_tix d (<[k := t]> (tix d))).
(** ON CONFLICT (reservation_seat_id) DO NOTHING. *)
Definition insTicketNothing (k : uuid) (t : TixRow) (d : Shard) : option Shard :=
  if existsRow (tix d) (fun _ t' => bool_decide (tk_seat t' = tk_seat t)) then Some d else insTicket k t d.
(** UPDATE tickets SET status = new WHERE ticket_order_id = o AND status IN from. *)
Definition retix (o : uuid) (from : list TStatus) (new : TStatus) (t : TixRow) : TixRow :=
  if bool_decide (tk_order t = o) && bool_decide (tk_status t ∈ from)
  then mkTixRow (tk_order t) (tk_seat t) (tk_run t) (tk_gen t) (tk_code t) new else t.
Definition updTickets (o : uuid) (from : list TStatus) (new : TStatus) (d : Shard) : Shard :=
  set_tix d (retix o from new <$> tix d).

(** The joined rows of the inventory release: the seats of the reservation
    with their inventory row. *)
Definition joined (d : Shard) (r : uuid) : list ((uuid * Z * uuid) * InvRow * varbit) :=
  omap (fun ks => let key := (st_run ks.2, st_gen ks.2, st_seat ks.2) in (fun iv => (key, iv, st_mask ks.2)) <$> inv d !! key)
       (seatsOfReservation d r).
Definition freeRow (j : (uuid * Z * uuid) * InvRow * varbit) (m : gmap (uuid * Z * uuid) InvRow) : gmap (uuid * Z * uuid) InvRow :=
  <[j.1.1 := mkInvRow (iv_segments j.1.2) (iv_class j.1.2) (varbit_and (iv_occupied j.1.2) (varbit_not j.2)) (iv_version j.1.2 + 1)]> m.
(** UPDATE seat_inventory ... FROM reservation_seats, on the joined rows: the
    number of rows, or the error of & on bit strings of different lengths. *)
Definition releaseRows (rows : list ((uuid * Z * uuid) * InvRow * varbit)) (d : Shard) : option (nat * Shard) :=
  if existsb (fun j => negb (length (iv_occupied j.1.2) =? length j.2)%nat) rows then None else
  let hit := filter (fun j => varbit_and (iv_occupied j.1.2) j.2 = j.2) rows in
  Some (length hit, set_inv d (foldr freeRow (inv d) hit)).
Definition releaseSeats (r : uuid) (d : Shard) : option (nat * Shard) := releaseRows (joined d r) d.

Definition insBReceipt (k : uuid) (r : BReceipt) (d : Shard) : option Shard :=
  if bool_decide (is_Some (breceipts d !! k)) || existsRow (breceipts d) (fun _ r' => bool_decide (bk_id r' = bk_id r)) ||
     negb (snapshotOf d (bk_run r) (bk_gen r)) then None
  else Some (set_breceipts d (<[k := r]> (breceipts d))).
(** UPDATE booking_command_receipts ... WHERE command_id = k AND status = 'started'. *)
Definition closeBReceipt (k : uuid) (s : BState) (d : Shard) : option Shard :=
  match breceipts d !! k with
  | Some r => match bk_state r with
              | BStarted => Some (set_breceipts d (<[k := mkBReceipt (bk_id r) (bk_run r) (bk_gen r) (bk_type r) (bk_fp r) s]> (breceipts d)))
              | _ => None end
  | None => None
  end.

Definition preceiptClash (k : uuid) (r r' : PReceipt) : bool :=
  bool_decide (pc_id r' = pc_id r) ||
  bool_decide (pc_intent r' = pc_intent r) && bool_decide (pc_op r' = pc_op r) && bool_decide (pc_fp r' = pc_fp r) ||
  match pc_state r' with PRejected _ => false | _ =>
    bool_decide (pc_op r = OpPaymentBegin) && bool_decide (pc_op r' = OpPaymentBegin) && bool_decide (pc_reservation r' = pc_reservation r) ||
    bool_decide (pc_op r = OpCaptureRecorded) && bool_decide (pc_op r' = OpCaptureRecorded) && bool_decide (pc_intent r' = pc_intent r)
  end.
Definition insPReceipt (k : uuid) (r : PReceipt) (d : Shard) : option Shard :=
  if bool_decide (is_Some (preceipts d !! k)) || existsRow (preceipts d) (fun k' r' => preceiptClash k r r') ||
     negb (resMoney d (pc_reservation r) (pc_run r) (pc_gen r) (pc_amount r) (pc_currency r) (Some (pc_intent r))) ||
     negb ((0 <? pc_gen r) && (0 <=? pc_amount r) && validCurrencyCode (pc_currency r)) then None
  else Some (set_preceipts d (<[k := r]> (preceipts d))).
Definition closePReceipt (k resource : uuid) (result : RStatus) (clk : Z) (d : Shard) : option Shard :=
  match preceipts d !! k with
  | Some r => match pc_state r with
              | PStarted => Some (set_preceipts d (<[k := mkPReceipt (pc_id r) (pc_intent r) (pc_reservation r) (pc_run r) (pc_gen r) (pc_op r)
                                    (pc_fp r) (pc_amount r) (pc_currency r) (PSucceeded resource result clk)]> (preceipts d)))
              | _ => None end
  | None => None
  end.

(** The foreign key to the order of a payment. *)
Definition orderMoney (d : Shard) (o run : uuid) (gen : Z) (intent : uuid) (total : Z) (currency : string) : bool :=
  match orders d !! o with
  | None => false
  | Some r => bool_decide (od_run r = run) && (od_gen r =? gen) && bool_decide (od_intent r = Some intent) && (od_total r =? total) &&
              bool_decide (od_currency r = currency)
  end.
Definition insIssuance (k : uuid) (r : IssuanceRow) (d : Shard) : option Shard :=
  if bool_decide (is_Some (issuances d !! k)) ||
     existsRow (issuances d) (fun _ r' => bool_decide (is_id r' = is_id r) || bool_decide (is_intent r' = is_intent r) ||
       bool_decide (is_reservation r' = is_reservation r) || bool_decide (is_operation r' = is_operation r) || bool_decide (is_order r' = is_order r)) ||
     negb (resMoney d (is_reservation r) (is_run r) (is_gen r) (is_amount r) (is_currency r) (Some (is_intent r))) ||
     negb (orderMoney d (is_order r) (is_run r) (is_gen r) (is_intent r) (is_amount r) (is_currency r)) ||
     negb ((0 <=? is_amount r) && validCurrencyCode (is_currency r) && (0 <? is_count r)%nat) then None
  else Some (set_issuances d (<[k := r]> (issuances d))).
Definition insRefund (k : uuid) (r : RefundRow) (d : Shard) : option Shard :=
  if bool_decide (is_Some (refunds d !! k)) ||
     existsRow (refunds d) (fun _ r' => bool_decide (rf_operation r' = rf_operation r) || bool_decide (rf_intent r' = rf_intent r) ||
       bool_decide (rf_reservation r' = rf_reservation r) || bool_decide (rf_order r' = rf_order r)) ||
     negb (resMoney d (rf_reservation r) (rf_run r) (rf_gen r) (rf_captured r) (rf_currency r) (Some (rf_intent r))) ||
     negb (orderMoney d (rf_order r) (rf_run r) (rf_gen r) (rf_intent r) (rf_captured r) (rf_currency r)) ||
     negb ((0 <? rf_captured r) && (rf_refunded r =? rf_captured r) && validCurrencyCode (rf_currency r)) then None
  else Some (set_refunds d (<[k := r]> (refunds d))).
Definition insComp (k : uuid) (r : CompRow) (d : Shard) : option Shard :=
  if bool_decide (is_Some (comps d !! k)) ||
     existsRow (comps d) (fun _ r' => bool_decide (cp_id r' = cp_id r) || bool_decide (cp_intent r' = cp_intent r) ||
       bool_decide (cp_reservation r' = cp_reservation r) || bool_decide (cp_order r' = cp_order r) || bool_decide (cp_refund r' = cp_refund r)) ||
     negb match refunds d !! cp_refund r with
          | Some f => bool_decide (rf_intent f = cp_intent r) && bool_decide (rf_reservation f = cp_reservation r) &&
                      bool_decide (rf_order f = cp_order r) && bool_decide (rf_run f = cp_run r) && (rf_gen f =? cp_gen r)
          | None => false end ||
     negb (0 <? cp_released r)%nat then None
  else Some (set_comps d (<[k := r]> (comps d))).

Definition aggregateTypes : list string := ["reservation"; "ticket_order"; "ticket"; "payment"; "train_run"; "booking_command"].
Definition insEvent (k : uuid) (e : EventRow) (d : Shard) : option Shard :=
  if bool_decide (is_Some (outboxE d !! k)) || negb (snapshotOf d (ev_run e) (ev_gen e)) || negb (bool_decide (ev_type e ∈ aggregateTypes)) then None
  else Some (set_outboxE d (<[k := e]> (outboxE d))).

(** INSERT INTO train_run_target_write_evidence ... ON CONFLICT(train_run_id,
    assignment_generation) DO UPDATE, with its CHECK and guard; the statement
    of an expiry does not name last_command_id. *)
Definition insEvidence (id run : uuid) (gen : Z) (command : option uuid) (clk : Z) (d : Shard) : option Shard :=
  match evidence d !! (run, gen) with
  | Some e =>
      let first := default clk (we_first e) in
      if (match we_last e with Some l => clk <? l | None => false end) || (clk <? first) || (MaxInt64 <=? we_count e) then None
      else Some (set_evidence d (<[(run, gen) := mkEvidenceRow (we_id e) (we_count e + 1) (Some first) (Some clk) (from_option Some (we_command e) command)]> (evidence d)))
  | None =>
      if existsRow (evidence d) (fun _ e => bool_decide (we_id e = id)) || negb (snapshotOf d run gen) then None
      else Some (set_evidence d (<[(run, gen) := mkEvidenceRow id 1 (Some clk) (Some clk) command]> (evidence d)))
  end.

(** Transactions on a shard. *)
Abbreviation SM E A := (Txn Shard E A).
