(* ===== verification/ShardBooking.v ===== *)
(** * Booking commands on a physical shard

    Models [src/internal/booking/command/physical/executor.go],
    [lifecycle.go] and [train_run.go]: one durable booking command executed in
    exactly one transaction of a physical shard, with the commands and receipts
    of [src/internal/booking/command/coordinator.go].

    The router is the RouteResolver interface: what it answers, cached or
    refreshed, is an argument.  A handle whose pool is nil, or that cannot
    begin a transaction, is a shard that the fleet does not have.  The fence
    row that every transaction locks serialises those of one train run, so the
    candidate query never meets a locked row. *)

From stdpp Require Import pretty.
From S2P Require Import Prelude Transaction SegmentMask Sharding PaymentDomain PaymentDb PaymentClaims BookingDb ShardDb.
Import ShardTypes.

(** ** Commands and receipts *)
Definition OperationCreateReservation : string := "reservation.create".
Definition OperationConfirmReservation : string := "reservation.confirm".
Definition OperationCancelReservation : string := "reservation.cancel".

Inductive ReceiptStatus := ReceiptCommitted | ReceiptFailed.
#[export] Instance ReceiptStatus_eq_dec : EqDecision ReceiptStatus.
Proof. solve_decision. Defined.

Inductive CommandState :=
| StateReserved | StateExecuting | StateCommittedOnShard | StateFinalized | StateFailed | StateExpired | StateNeedsRepair.
#[export] Instance CommandState_eq_dec : EqDecision CommandState.
Proof. solve_decision. Defined.

Record CreateReservationPayload := mkPayload {
  pl_from : Z; pl_to : Z; pl_class : string; pl_passengers : list uuid; pl_expires : Z; pl_version : Z }.
#[export] Instance Payload_eq_dec : EqDecision CreateReservationPayload.
Proof. solve_decision. Defined.
Record Command := mkCommand {
  cm_id : uuid; cm_op : string; cm_owner : uuid; cm_run : uuid; cm_reservation : uuid; cm_route : ShardRoute; cm_fp : digest;
  cm_state : CommandState; cm_payload : CreateReservationPayload }.
Record Receipt := mkReceipt {
  cr_command : uuid; cr_fp : digest; cr_resource : uuid; cr_status : ReceiptStatus; cr_order : uuid; cr_count : Z;
  cr_tickets : list uuid; cr_codes : list string; cr_released : Z; cr_total : Z; cr_currency : string; cr_created : Z }.
Definition MaxReceiptTickets : nat := 100.

(** The errors of the executor; [ExecRoute] are the routing errors. *)
Inductive ExecErr :=
| ErrInvalidPayload | ErrFareUnavailable | ErrInsufficientInventory | ErrReservationExpired | ErrInvalidLifecycleState
| ErrShardPersistence | ErrReceiptMismatch | ExecRoute (e : RouteErr).
#[export] Instance ExecErr_eq_dec : EqDecision ExecErr.
Proof. solve_decision. Defined.

(** physical.Resolution: the route and, of the handle, its shard and whether it
    may write. *)
Record Resolution := mkResolution { rz_route : ShardRoute; rz_shard : string; rz_write : bool }.
Definition Resolver : Type := uuid -> bool -> option Resolution.
(** The databases behind the handles. *)
Abbreviation Fleet := (gmap string Shard).

Definition committedReceipt (c : Command) : Receipt :=
  mkReceipt (cm_id c) (cm_fp c) (cm_reservation c) ReceiptCommitted uuidNil 0 [] [] 0 0 "" 0.
Definition sameRoute (a b : ShardRoute) : bool :=
  bool_decide (trainRunID a = trainRunID b) && bool_decide (shardID a = shardID b) && (generation a =? generation b).

Definition lifecycleOp (op : string) : bool :=
  bool_decide (op = OperationConfirmReservation) || bool_decide (op = OperationCancelReservation).
Definition seatClass (s : string) : bool := bool_decide (s ∈ ["standard"; "business"; "first"]%string).
(** The loop over the passengers: none is nil and none occurs twice. *)
Fixpoint distinctPassengers (l seen : list uuid) : bool :=
  match l with
  | [] => true
  | p :: l' => negb (bool_decide (p = uuidNil)) && negb (bool_decide (p ∈ seen)) && distinctPassengers l' (p :: seen)
  end.
Definition validCommand (c : Command) : bool :=
  let p := cm_payload c in
  if bool_decide (cm_id c = uuidNil) || bool_decide (cm_owner c = uuidNil) || bool_decide (cm_run c = uuidNil) ||
     bool_decide (cm_reservation c = uuidNil) || (cm_fp c =? 0)%N || negb (bool_decide (trainRunID (cm_route c) = cm_run c)) ||
     (generation (cm_route c) <=? 0) then false else
  if lifecycleOp (cm_op c) then
    (pl_from p =? 0) && (pl_to p =? 0) && bool_decide (pl_class p = ""%string) && bool_decide (pl_passengers p = []) &&
    (pl_expires p =? 0) && (pl_version p =? 0)
  else if negb (bool_decide (cm_op c = OperationCreateReservation)) then false else
  if (Z.of_nat (length (pl_passengers p)) <? 1) || (6 <? Z.of_nat (length (pl_passengers p))) || (pl_from p <? 0) ||
     (pl_to p <=? pl_from p) || negb (seatClass (pl_class p)) || (pl_version p <=? 0) then false else
  if pl_expires p =? 0 then false else distinctPassengers (pl_passengers p) [].

(** ** Rejections *)
Definition rejectionCode (e : ExecErr) : option string :=
  match e with
  | ErrFareUnavailable => Some "fare_unavailable"%string
  | ErrInsufficientInventory => Some "inventory_unavailable"%string
  | ErrReservationExpired => Some "reservation_expired"%string
  | ErrInvalidLifecycleState => Some "invalid_lifecycle_state"%string
  | _ => None
  end.
Definition rejectionFromCode (code : string) : option ExecErr :=
  if bool_decide (code = "fare_unavailable"%string) then Some ErrFareUnavailable else
  if bool_decide (code = "inventory_unavailable"%string) then Some ErrInsufficientInventory else
  if bool_decide (code = "reservation_expired"%string) then Some ErrReservationExpired else
  if bool_decide (code = "invalid_lifecycle_state"%string) then Some ErrInvalidLifecycleState else None.

(** ** Receipts *)
Definition loadOrderTicketIdentities (d : Shard) (order : uuid) (expected : nat) : res ExecErr (list uuid * list string) :=
  if bool_decide (order = uuidNil) || (expected <? 1)%nat || (MaxReceiptTickets <? expected)%nat then Err ErrShardPersistence else
  let rows := take (MaxReceiptTickets + 1) (ticketsOfOrder d order) in
  if existsb (fun kt => bool_decide (kt.1 = uuidNil) || (String.length (tk_code kt.2) <? 16)%nat || (64 <? String.length (tk_code kt.2))%nat) rows
  then Err ErrShardPersistence else
  if negb (length rows =? expected)%nat || (MaxReceiptTickets <? length rows)%nat then Err ErrShardPersistence else
  Ok (map fst rows, map (fun kt => tk_code kt.2) rows).

(** The confirmed order of a reservation with its tickets: the join is empty
    when there are no tickets. *)
Definition orderReceipt (c : Command) (d : Shard) : res ExecErr Receipt :=
  match orderOfReservation d (cm_reservation c) with
  | None => Err ErrShardPersistence
  | Some (o, r) =>
      let n := length (ticketsOfOrder d o) in
      if bool_decide (o = uuidNil) || (n <? 1)%nat || (od_total r <? 0) || (MaxReceiptTickets <? n)%nat ||
         negb (String.length (od_currency r) =? 3)%nat || (od_created r =? 0) then Err ErrShardPersistence else
      let* ts := loadOrderTicketIdentities d o n in
      Ok (mkReceipt (cm_id c) (cm_fp c) (cm_reservation c) ReceiptCommitted o (Z.of_nat n) ts.1 ts.2 0 (od_total r) (od_currency r) (od_created r))
  end.

Definition releasedReceipt (c : Command) (n : Z) : Receipt :=
  mkReceipt (cm_id c) (cm_fp c) (cm_reservation c) ReceiptCommitted uuidNil 0 [] [] n 0 "" 0.

Definition loadReceipt (c : Command) (d : Shard) : res ExecErr (option Receipt) :=
  match breceipts d !! cm_id c with
  | None => Ok None
  | Some r =>
      if negb (bk_fp r =? cm_fp c)%N then Err ErrReceiptMismatch else
      match bk_state r with
      | BRejected code => match rejectionFromCode code with Some e => Err e | None => Err ErrReceiptMismatch end
      | BStarted => Err ErrReceiptMismatch
      | BSucceeded _ id =>
          if negb (bool_decide (id = cm_reservation c)) then Err ErrReceiptMismatch else
          if bool_decide (cm_op c = OperationConfirmReservation) then let* v := orderReceipt c d in Ok (Some v) else
          if bool_decide (cm_op c = OperationCancelReservation)
          then Ok (Some (releasedReceipt c (Z.of_nat (length (seatsOfReservation d (cm_reservation c))))))
          else Ok (Some (committedReceipt c))
      end
  end.

(** ** Authority *)
Definition snapshotStatusOpen (s : string) : bool := bool_decide (s = "scheduled"%string) || bool_decide (s = "boarding"%string).
Definition fenceSnapshot (run : uuid) (d : Shard) : option (FenceRow * SnapRow) :=
  f ← fences d !! run; s ← snapshots d !! (run, wf_gen f); Some (f, s).
Definition fenceOpen (f : FenceRow) : bool := wf_enabled f && bool_decide (wf_state f = "active"%string).

Definition lockLocalAuthority (c : Command) (d : Shard) : res ExecErr Z :=
  match fenceSnapshot (cm_run c) d with
  | None => Err (ExecRoute ErrShardUnavailable)
  | Some (f, s) =>
      if negb (wf_gen f =? generation (cm_route c)) || negb (bs_version s =? pl_version (cm_payload c)) then Err (ExecRoute ErrAssignmentStale) else
      if negb (fenceOpen f) || negb (bs_bookable s) || negb (snapshotStatusOpen (bs_status s)) then Err (ExecRoute ErrWriteFenced) else
      if (bs_segments s <=? 0) || (bs_segments s <? pl_to (cm_payload c)) then Err ErrInvalidPayload else Ok (bs_segments s)
  end.
Definition lockLifecycleAuthority (c : Command) (d : Shard) : res ExecErr unit :=
  match fenceSnapshot (cm_run c) d with
  | None => Err (ExecRoute ErrShardUnavailable)
  | Some (f, s) =>
      if negb (wf_gen f =? generation (cm_route c)) then Err (ExecRoute ErrAssignmentStale) else
      if negb (fenceOpen f) then Err (ExecRoute ErrWriteFenced) else
      if bool_decide (cm_op c = OperationConfirmReservation) && negb (snapshotStatusOpen (bs_status s)) then Err (ExecRoute ErrWriteFenced) else Ok tt
  end.

(** ** Shared writes *)
(** strconv.FormatInt(value, 10). *)
Definition decimal (z : Z) : string := pretty z.

Section Writes.
Context {hashing : Hashing}.

Definition ex1 (s : Shard -> option Shard) : SM ExecErr unit := one ErrShardPersistence s.
Definition evidenceID (run : uuid) (shard : string) (gen : Z) : uuid :=
  newSHA1 run ("target-write-evidence:" +:+ shard +:+ ":" +:+ decimal gen).
Definition recordTargetWrite (route : ShardRoute) (command : uuid) (clk : Z) : Shard -> option Shard :=
  insEvidence (evidenceID (trainRunID route) (shardID route) (generation route)) (trainRunID route) (generation route) (Some command) clk.
Definition startReceipt (c : Command) : SM ExecErr unit :=
  ex1 (insBReceipt (cm_id c) (mkBReceipt (newSHA1 (cm_id c) "command-receipt") (cm_run c) (generation (cm_route c)) (cm_op c) (cm_fp c) BStarted)).
Definition succeedReceipt (c : Command) : SM ExecErr unit :=
  ex1 (closeBReceipt (cm_id c) (BSucceeded "reservation" (cm_reservation c))).

(** The mutation between SAVEPOINT and RELEASE: a permanent error rolls back to
    the savepoint and is committed as a rejected receipt. *)
Definition withSavepoint (c : Command) (m : SM ExecErr Receipt) : SM ExecErr (res ExecErr Receipt) := fun d =>
  match m d with
  | Ok (r, d') => Ok (Ok r, d')
  | Err e =>
      match rejectionCode e with
      | None => Err e
      | Some code => match closeBReceipt (cm_id c) (BRejected code) d with Some d' => Ok (Err e, d') | None => Err ErrShardPersistence end
      end
  end.

(** ** Create *)
Definition fareFor (c : Command) (d : Shard) : option (uuid * FareSnap) :=
  let p := cm_payload c in
  head (sortBy (fun a b => (fs_version b.2 <? fs_version a.2) || ((fs_version a.2 =? fs_version b.2) && (a.1 <=? b.1)%N))
    (filter (fun kf => fs_run kf.2 = cm_run c /\ fs_gen kf.2 = generation (cm_route c) /\ fs_from kf.2 = pl_from p /\ fs_to kf.2 = pl_to p /\
                       fs_class kf.2 = pl_class p /\ fs_active kf.2 = true) (map_to_list (fareSnaps d)))).

Definition varbitOfString (s : string) : varbit := map (fun c => bool_decide (c = "1"%char)) (String.list_ascii_of_string s).

(** The candidate seats in allocation order: coach_order, seat_order, seat_id. *)
Definition seatBefore (a b : uuid * CatRow * InvRow) : bool :=
  let '((x, ca), _) := a in let '((y, cb), _) := b in
  (ct_coach ca <? ct_coach cb) ||
  ((ct_coach ca =? ct_coach cb) && ((ct_order ca <? ct_order cb) || ((ct_order ca =? ct_order cb) && (x <=? y)%N))).
Definition seatCandidate (run : uuid) (gen : Z) (class : string) (segments : Z) (mask : varbit) (d : Shard)
    (kr : (uuid * Z * uuid) * InvRow) : option (uuid * CatRow * InvRow) :=
  let '((run', gen', seat), r) := kr in
  if bool_decide (run' = run) && (gen' =? gen) && bool_decide (iv_class r = class) && (Z.of_nat (length (iv_occupied r)) =? segments) &&
     bool_decide (varbit_and (iv_occupied r) mask = replicate (Z.to_nat segments) false)
  then match catalog d !! (run, gen, seat) with Some c => if ct_active c then Some (seat, c, r) else None | None => None end
  else None.
Definition nextSeat (run : uuid) (gen : Z) (class : string) (segments : Z) (mask : varbit) (d : Shard) : option (uuid * InvRow) :=
  match head (sortBy seatBefore (omap (seatCandidate run gen class segments mask d) (map_to_list (inv d)))) with
  | Some ((seat, _), r) => Some (seat, r)
  | None => None
  end.
Definition occupySeat (run : uuid) (gen : Z) (seat : uuid) (r : InvRow) (mask : varbit) (d : Shard) : Shard :=
  set_inv d (<[(run, gen, seat) := mkInvRow (iv_segments r) (iv_class r) (varbit_or (iv_occupied r) mask) (iv_version r + 1)]> (inv d)).
Fixpoint allocateSeats (n : nat) (run : uuid) (gen : Z) (class : string) (segments : Z) (mask : varbit) : SM ExecErr (list uuid) :=
  match n with
  | O => mret []
  | S n' =>
      d ← shard;
      match nextSeat run gen class segments mask d with
      | None => raise ErrInsufficientInventory
      | Some (seat, r) =>
          if bool_decide (seat = uuidNil) then raise ErrShardPersistence else
          modify (occupySeat run gen seat r mask) ;;
          seats ← allocateSeats n' run gen class segments mask;
          mret (seat :: seats)
      end
  end.

Definition seatRow (c : Command) (segments : Z) (fare : uuid) (amount : Z) (currency : string) (mask : varbit) (p seat : uuid) : RSeatRow :=
  mkRSeatRow (cm_reservation c) (cm_run c) (generation (cm_route c)) segments seat p fare mask amount currency.
Definition seatRowID (c : Command) (p : uuid) : uuid := newSHA1 (cm_reservation c) ("passenger:" +:+ uuidString p).
Fixpoint insertSeats (c : Command) (segments : Z) (fare : uuid) (amount : Z) (currency : string) (mask : varbit) (ps : list (uuid * uuid)) : SM ExecErr unit :=
  match ps with
  | [] => mret tt
  | (p, seat) :: ps' =>
      ex1 (insRSeat (seatRowID c p) (seatRow c segments fare amount currency mask p seat)) ;;
      insertSeats c segments fare amount currency mask ps'
  end.

Definition heldPayload (c : Command) : list (string * Field) :=
  [("command_id"%string, FUuid (cm_id c)); ("reservation_id"%string, FUuid (cm_reservation c)); ("train_run_id"%string, FUuid (cm_run c));
   ("assignment_generation"%string, FInt (generation (cm_route c))); ("status"%string, FText "held")].

Definition createMutation (clk segments : Z) (c : Command) : SM ExecErr Receipt :=
  let p := cm_payload c in
  let gen := generation (cm_route c) in
  let n := Z.of_nat (length (pl_passengers p)) in
  d ← shard;
  match fareFor c d with
  | None => raise ErrFareUnavailable
  | Some (fare, f) =>
      if bool_decide (fare = uuidNil) || (fs_amount f <? 0) || negb (String.length (fs_currency f) =? 3)%nat then raise ErrShardPersistence else
      if Z.quot MaxInt64 n <? fs_amount f then raise ErrInvalidPayload else
      match NewSegmentMask segments (pl_from p) (pl_to p) with
      | Err _ => raise ErrInvalidPayload
      | Ok m =>
          let mask := varbitOfString (MaskString m) in
          seats ← allocateSeats (length (pl_passengers p)) (cm_run c) gen (pl_class p) segments mask;
          ex1 (insReservation (cm_reservation c) (mkResRow (cm_owner c) (cm_run c) gen segments (pl_from p) (pl_to p) (pl_class p) Held
                 (pl_expires p) (wrap64 (fs_amount f * n)) (fs_currency f) clk None)) ;;
          insertSeats c segments fare (fs_amount f) (fs_currency f) mask (zip (pl_passengers p) seats) ;;
          ex1 (insEvent (newSHA1 (cm_id c) "reservation-held")
                 (mkEventRow (cm_run c) gen "reservation" (cm_reservation c) "reservation.held" (heldPayload c))) ;;
          ex1 (recordTargetWrite (mkShardRoute (cm_run c) (shardID (cm_route c)) gen) (cm_id c) clk) ;;
          succeedReceipt c ;;
          mret (committedReceipt c)
      end
  end.

(** ** Confirm and cancel *)
Definition lockOwnedPhysicalReservation (c : Command) (d : Shard) : res ExecErr ResRow :=
  match resv d !! cm_reservation c with
  | Some r =>
      if bool_decide (rv_user r = cm_owner c) && bool_decide (rv_run r = cm_run c) && (rv_gen r =? generation (cm_route c)) &&
         bool_decide (rv_payment r = None)
      then if (rv_total r <? 0) || negb (String.length (rv_currency r) =? 3)%nat then Err ErrShardPersistence else Ok r
      else Err ErrInvalidPayload
  | None => Err ErrInvalidPayload
  end.
Definition resTo (s : RStatus) (r : ResRow) : ResRow :=
  mkResRow (rv_user r) (rv_run r) (rv_gen r) (rv_segments r) (rv_from r) (rv_to r) (rv_class r) s (rv_expires r) (rv_total r) (rv_currency r)
    (rv_created r) (rv_payment r).
Definition resIn (l : list RStatus) (r : ResRow) : bool := bool_decide (rv_status r ∈ l).

Definition lifecycleFields (c : Command) : list (string * Field) :=
  [("command_id"%string, FUuid (cm_id c)); ("reservation_id"%string, FUuid (cm_reservation c)); ("train_run_id"%string, FUuid (cm_run c));
   ("assignment_generation"%string, FInt (generation (cm_route c)))].
Definition appendLifecycleEvent (c : Command) (event : string) (fields : list (string * Field)) : SM ExecErr unit :=
  ex1 (insEvent (newSHA1 (cm_id c) event)
         (mkEventRow (cm_run c) (generation (cm_route c)) "reservation" (cm_reservation c) event (fields ++ lifecycleFields c))).

Definition confirmTicketID (c : Command) (seat : uuid) : uuid := newSHA1 (cm_id c) (bytesBE 16 seat).
Fixpoint confirmTickets (c : Command) (wasHeld : bool) (order : uuid) (seats : list uuid) : SM ExecErr unit :=
  match seats with
  | [] => mret tt
  | seat :: seats' =>
      let t := confirmTicketID c seat in
      ex1 (insTicketNothing t (mkTixRow order seat (cm_run c) (generation (cm_route c)) ("TKT" +:+ uuidString t) TActive)) ;;
      (if wasHeld
       then ex1 (insEvent (newSHA1 t "ticket.created") (mkEventRow (cm_run c) (generation (cm_route c)) "ticket" t "ticket.created"
              [("command_id"%string, FUuid (cm_id c)); ("ticket_id"%string, FUuid t); ("ticket_order_id"%string, FUuid order);
               ("reservation_id"%string, FUuid (cm_reservation c)); ("train_run_id"%string, FUuid (cm_run c));
               ("assignment_generation"%string, FInt (generation (cm_route c)))]))
       else mret tt) ;;
      confirmTickets c wasHeld order seats'
  end.

(** The receipt and whether the reservation changed. *)
Definition confirmReservation (clk : Z) (c : Command) : SM ExecErr (Receipt * bool) :=
  r ← reads (lockOwnedPhysicalReservation c);
  let held := bool_decide (rv_status r = Held) in
  guardS (negb (resIn [Held; Confirmed] r)) (if bool_decide (rv_status r = Expired) then ErrReservationExpired else ErrInvalidLifecycleState) ;;
  (if held then guardS (rv_expires r <=? clk) ErrReservationExpired ;; ex1 (updReservation (cm_reservation c) (resIn [Held]) (resTo Confirmed))
   else mret tt) ;;
  ex1 (insOrderNothing (newSHA1 (cm_id c) "ticket-order")
         (mkOrdRow (cm_reservation c) (cm_owner c) (cm_run c) (generation (cm_route c)) OConfirmed (rv_total r) (rv_currency r) None 0 0 0 clk)) ;;
  d ← shard;
  match orderOfReservation d (cm_reservation c) with
  | None => raise ErrShardPersistence
  | Some (order, o) =>
      guardS (negb (bool_decide (od_user o = cm_owner c)) || bool_decide (order = uuidNil)) ErrShardPersistence ;;
      let seats := map fst (seatsOfReservation d (cm_reservation c)) in
      guardS (bool_decide (uuidNil ∈ seats) || (length seats =? 0)%nat || (MaxReceiptTickets <? length seats)%nat) ErrShardPersistence ;;
      confirmTickets c held order seats ;;
      (if held then appendLifecycleEvent c "reservation.confirmed"
         [("status"%string, FText "confirmed"); ("ticket_order_id"%string, FUuid order); ("ticket_count"%string, FInt (Z.of_nat (length seats)))]
       else mret tt) ;;
      ts ← reads (fun d => loadOrderTicketIdentities d order (length seats));
      mret (mkReceipt (cm_id c) (cm_fp c) (cm_reservation c) ReceiptCommitted order (Z.of_nat (length seats)) ts.1 ts.2 0
              (rv_total r) (rv_currency r) (od_created o), held)
  end.

Definition ordTo (s : OStatus) (o : OrdRow) : OrdRow :=
  mkOrdRow (od_reservation o) (od_user o) (od_run o) (od_gen o) s (od_total o) (od_currency o) (od_intent o) (od_authorized o) (od_captured o)
    (od_refunded o) (od_created o).
(** UPDATE ticket_orders SET status='cancelled' WHERE reservation_id = r, and
    the tickets of the order. *)
Definition cancelOrderOf (r : uuid) (d : Shard) : option Shard :=
  match orderOfReservation d r with Some (k, _) => updOrder k (fun _ => true) (ordTo OCancelled) d | None => Some d end.
Definition cancelTicketsOf (r : uuid) (d : Shard) : Shard :=
  match orderOfReservation d r with
  | Some (k, _) => updTickets k [TPending; TActive; TRefundPending; TCancelled] TCancelled d
  | None => d
  end.

Definition cancelReservation (c : Command) : SM ExecErr (Receipt * bool) :=
  r ← reads (lockOwnedPhysicalReservation c);
  guardS (negb (resIn [Held; Confirmed; Cancelled] r)) ErrInvalidLifecycleState ;;
  d ← shard;
  let released := length (seatsOfReservation d (cm_reservation c)) in
  guardS (released <? 1)%nat ErrShardPersistence ;;
  let changed := negb (bool_decide (rv_status r = Cancelled)) in
  (if changed then
     ex1 (updReservation (cm_reservation c) (resIn [rv_status r]) (resTo Cancelled)) ;;
     n ← counted ErrShardPersistence (releaseSeats (cm_reservation c));
     guardS (negb (n =? released)%nat) ErrShardPersistence ;;
     ex1 (cancelOrderOf (cm_reservation c)) ;;
     modify (cancelTicketsOf (cm_reservation c)) ;;
     appendLifecycleEvent c "reservation.cancelled" [("status"%string, FText "cancelled"); ("released_seat_count"%string, FInt (Z.of_nat released))]
   else mret tt) ;;
  mret (releasedReceipt c (Z.of_nat released), changed).

Definition lifecycleMutation (clk : Z) (c : Command) : SM ExecErr Receipt :=
  rc ← (if bool_decide (cm_op c = OperationConfirmReservation) then confirmReservation clk c else cancelReservation c);
  (if rc.2 : bool then ex1 (recordTargetWrite (cm_route c) (cm_id c) clk) else mret tt) ;;
  succeedReceipt c ;;
  mret (rc.1 : Receipt).

(** ** Execution *)

(** executeLifecycleTx. *)
Definition executeLifecycleTx (clk : Z) (c : Command) (write : bool) : SM ExecErr (res ExecErr Receipt) :=
  guardS (negb write) (ExecRoute ErrWriteFenced) ;;
  reads (lockLifecycleAuthority c) ;;
  found ← reads (loadReceipt c);
  match found with
  | Some r => mret (Ok r)
  | None => startReceipt c ;; withSavepoint c (lifecycleMutation clk c)
  end.
Definition executeCreateTx (maxTTL now clk : Z) (c : Command) (write : bool) : SM ExecErr (res ExecErr Receipt) :=
  let expires := pl_expires (cm_payload c) in
  guardS ((expires <=? now) || (maxTTL <? expires - now)) ErrInvalidPayload ;;
  guardS (negb write) (ExecRoute ErrWriteFenced) ;;
  segments ← reads (lockLocalAuthority c);
  found ← reads (loadReceipt c);
  match found with
  | Some r => mret (Ok r)
  | None => startReceipt c ;; withSavepoint c (createMutation clk segments c)
  end.
(** The transaction of executeOnce: committed with a receipt or a durable
    rejection, or rolled back. *)
Definition executeTx (maxTTL now clk : Z) (c : Command) (write : bool) : SM ExecErr (res ExecErr Receipt) :=
  found ← reads (loadReceipt c);
  match found with
  | Some r => mret (Ok r)
  | None => if lifecycleOp (cm_op c) then executeLifecycleTx clk c write else executeCreateTx maxTTL now clk c write
  end.

Definition onShard {E A} (unavailable : E) (s : string) (m : SM E (res E A)) (fl : Fleet) : res E A * Fleet :=
  match fl !! s with
  | None => (Err unavailable, fl)
  | Some d => match m d with Ok (r, d') => (r, <[s := d']> fl) | Err e => (Err e, fl) end
  end.
Definition executeOnce (maxTTL now clk : Z) (c : Command) (rz : Resolution) (fl : Fleet) : res ExecErr Receipt * Fleet :=
  if negb (bool_decide (rz_shard rz = shardID (cm_route c))) then (Err (ExecRoute ErrShardUnavailable), fl)
  else onShard (ExecRoute ErrShardUnavailable) (rz_shard rz) (executeTx maxTTL now clk c (rz_write rz)) fl.
Definition refreshAndExecute (router : Resolver) (maxTTL now clk : Z) (c : Command) (fl : Fleet) : res ExecErr Receipt * Fleet :=
  match router (cm_run c) true with
  | None => (Err (ExecRoute ErrShardUnavailable), fl)
  | Some rz => if negb (sameRoute (rz_route rz) (cm_route c)) then (Err (ExecRoute ErrAssignmentStale), fl) else executeOnce maxTTL now clk c rz fl
  end.
Definition Execute (router : Resolver) (maxTTL now clk : Z) (c : Command) (fl : Fleet) : res ExecErr Receipt * Fleet :=
  if negb (validCommand c) then (Err ErrInvalidPayload, fl) else
  match router (cm_run c) false with
  | None => (Err (ExecRoute ErrShardUnavailable), fl)
  | Some rz =>
      if negb (sameRoute (rz_route rz) (cm_route c)) then refreshAndExecute router maxTTL now clk c fl else
      match executeOnce maxTTL now clk c rz fl with
      | (Err (ExecRoute ErrAssignmentStale), fl') => refreshAndExecute router maxTTL now clk c fl'
      | r => r
      end
  end.

(** ** Cancelling a train run *)
Definition cancelRunCommand (run : uuid) (gen : Z) : uuid := newSHA1 run ("train-run.cancel:" +:+ decimal gen).
Definition cancelRunFingerprint (run : uuid) (gen : Z) : digest := sha256 ("train_run.cancel:" +:+ uuidString run +:+ ":" +:+ decimal gen).
Definition cancelSnapshot (run : uuid) (gen : Z) (d : Shard) : option Shard :=
  match snapshots d !! (run, gen) with
  | Some s => if bs_active s then Some (set_snapshots d (<[(run, gen) := mkSnapRow (bs_segments s) (bs_version s + 1) "cancelled" false (bs_active s)]> (snapshots d))) else None
  | None => None
  end.
Definition cancelTrainRunTx (clk : Z) (run : uuid) (rz : Resolution) : SM ExecErr (res ExecErr unit) :=
  let gen := generation (rz_route rz) in
  let cmd := cancelRunCommand run gen in
  let fp := cancelRunFingerprint run gen in
  d ← shard;
  match breceipts d !! cmd with
  | Some r =>
      match bk_state r with
      | BSucceeded _ id => if negb (bool_decide (id = run)) || negb (bk_fp r =? fp)%N then raise ErrShardPersistence else mret (Ok tt)
      | _ => raise ErrShardPersistence
      end
  | None =>
      guardS (negb (rz_write rz)) (ExecRoute ErrWriteFenced) ;;
      match fenceSnapshot run d with
      | None => raise (ExecRoute ErrShardUnavailable)
      | Some (f, s) =>
          guardS (negb (wf_gen f =? gen)) (ExecRoute ErrAssignmentStale) ;;
          guardS (negb (fenceOpen f)) (ExecRoute ErrWriteFenced) ;;
          guardS (bool_decide (bs_status s = "departed"%string) || bool_decide (bs_status s = "completed"%string)) ErrInvalidPayload ;;
          ex1 (insBReceipt cmd (mkBReceipt (newSHA1 cmd "command-receipt") run gen "train_run.cancel" fp BStarted)) ;;
          ex1 (cancelSnapshot run gen) ;;
          ex1 (insEvent (newSHA1 cmd "trainrun.cancelled") (mkEventRow run gen "train_run" run "trainrun.cancelled"
                 [("command_id"%string, FUuid cmd); ("train_run_id"%string, FUuid run); ("assignment_generation"%string, FInt gen);
                  ("status"%string, FText "cancelled")])) ;;
          ex1 (insEvidence (evidenceID run (shardID (rz_route rz)) gen) run gen (Some cmd) clk) ;;
          ex1 (closeBReceipt cmd (BSucceeded "train_run" run)) ;;
          mret (Ok tt)
      end
  end.
Definition CancelTrainRun (router : Resolver) (clk : Z) (run : uuid) (fl : Fleet) : res ExecErr unit * Fleet :=
  if bool_decide (run = uuidNil) then (Err ErrInvalidPayload, fl) else
  match router run false with
  | None => (Err (ExecRoute ErrShardUnavailable), fl)
  | Some rz => onShard (ExecRoute ErrShardUnavailable) (rz_shard rz) (cancelTrainRunTx clk run rz) fl
  end.
End Writes.
