(* ===== verification/ShardPayment.v ===== *)
(** * Payment commands on a physical shard

    Module [Store] models [src/internal/payment/shard/postgres/store.go],
    [compensation.go] and [void.go]: the transactions that take a held
    reservation into payment, issue its tickets, and release it after a void
    or a refund.  Module [Gateway] models
    [src/internal/payment/shard/gateway.go] and
    [src/internal/payment/shard/postgres/directory.go]: each command resolves
    the reservation's directory entry again and retries once on a refreshed
    route.  The gateway implements the interfaces of the payment service
    ([ReservationGateway]) and of the payment worker ([ShardGateway]).

    A command of type IssueTicketsCommand carries its planned tickets as two
    more arguments. *)

From stdpp Require Import pretty.
From S2P Require Import Prelude Transaction SegmentMask Sharding PaymentDomain PaymentDb PaymentClaims PaymentFinalize PaymentControl PaymentWorker BookingDb ShardDb ShardBooking.
Import ShardTypes.

(** The errors of the store: those of the payment service, an unavailable
    shard, and routing errors. *)
Inductive PayErr := App (e : AppErr) | ErrShardPaymentUnavailable | PayRoute (e : RouteErr).
#[export] Instance PayErr_eq_dec : EqDecision PayErr.
Proof. solve_decision. Defined.

Module Store.
Section Store.
Context {hashing : Hashing}.

(** ** Shared steps *)
Definition px (s : Shard -> option Shard) : SM PayErr unit := one ErrShardPaymentUnavailable s.
Definition unavailable {A} : SM PayErr A := raise ErrShardPaymentUnavailable.

Definition lockFence (route : ShardRoute) (d : Shard) : res PayErr unit :=
  match fences d !! trainRunID route with
  | None => Err ErrShardPaymentUnavailable
  | Some f =>
      if negb (wf_gen f =? generation route) then Err (PayRoute ErrAssignmentStale) else
      if negb (fenceOpen f) then Err (PayRoute ErrWriteFenced) else Ok tt
  end.
Definition resolve (router : Resolver) (route : ShardRoute) (requireWrite : bool) (fl : Fleet) : res PayErr string :=
  match router (trainRunID route) false with
  | None => Err ErrShardPaymentUnavailable
  | Some rz =>
      if bool_decide (fl !! rz_shard rz = None) then Err ErrShardPaymentUnavailable else
      if negb (sameRoute (rz_route rz) route) then Err (PayRoute ErrAssignmentStale) else
      if requireWrite && negb (rz_write rz) then Err (PayRoute ErrWriteFenced) else Ok (rz_shard rz)
  end.
(** One transaction on the resolved shard. *)
Definition inTx {A} (router : Resolver) (route : ShardRoute) (m : SM PayErr A) (fl : Fleet) : res PayErr A * Fleet :=
  match resolve router route true fl with
  | Err e => (Err e, fl)
  | Ok s => match fl !! s with
            | None => (Err ErrShardPaymentUnavailable, fl)
            | Some d => match m d with Ok (a, d') => (Ok a, <[s := d']> fl) | Err e => (Err e, fl) end
            end
  end.

(** SELECT ... FROM reservations WHERE id AND train_run_id AND
    assignment_generation. *)
Definition routedReservation (route : ShardRoute) (id : uuid) (d : Shard) : option ResRow :=
  r ← resv d !! id;
  if bool_decide (rv_run r = trainRunID route) && (rv_gen r =? generation route) then Some r else None.
Definition ticketOrderID (intent : uuid) : uuid := newSHA1 intent "ticket-order".
Definition commandReceiptID (command : uuid) : uuid := newSHA1 command "payment-command-receipt".
Definition startedReceipt (route : ShardRoute) (command intent reservation : uuid) (op : PayOp) (fp : digest) (amount : Z) (currency : string) : SM PayErr unit :=
  px (insPReceipt command (mkPReceipt (commandReceiptID command) intent reservation (trainRunID route) (generation route) op fp amount currency PStarted)).

Definition appendOutbox (route : ShardRoute) (aggregate : uuid) (type event : string) (fields : list (string * Field)) : SM PayErr unit :=
  px (insEvent (newSHA1 aggregate event) (mkEventRow (trainRunID route) (generation route) type aggregate event fields)).
Definition orderFields (intent reservation order : uuid) : list (string * Field) :=
  [("payment_intent_id"%string, FUuid intent); ("reservation_id"%string, FUuid reservation); ("ticket_order_id"%string, FUuid order)].

(** SELECT ... FROM ticket_orders WHERE id AND reservation_id AND
    payment_intent_id AND total_amount_minor AND currency. *)
Definition paymentOrder (order reservation intent : uuid) (amount : Z) (currency : string) (d : Shard) : option OrdRow :=
  o ← orders d !! order;
  if bool_decide (od_reservation o = reservation) && bool_decide (od_intent o = Some intent) && (od_total o =? amount) &&
     bool_decide (od_currency o = currency) then Some o else None.
Definition routedOrder (route : ShardRoute) (order reservation intent : uuid) (amount : Z) (currency : string) (d : Shard) : option OrdRow :=
  o ← paymentOrder order reservation intent amount currency d;
  if bool_decide (od_run o = trainRunID route) && (od_gen o =? generation route) then Some o else None.
Definition ordIn (l : list OStatus) (o : OrdRow) : bool := bool_decide (od_status o ∈ l).
(** SET status, authorized and captured amounts of the total. *)
Definition ordCaptured (s : OStatus) (o : OrdRow) : OrdRow :=
  mkOrdRow (od_reservation o) (od_user o) (od_run o) (od_gen o) s (od_total o) (od_currency o) (od_intent o) (od_total o) (od_total o) (od_refunded o) (od_created o).
Definition ordRefunded (o : OrdRow) : OrdRow :=
  mkOrdRow (od_reservation o) (od_user o) (od_run o) (od_gen o) ORefunded (od_total o) (od_currency o) (od_intent o) (od_total o) (od_total o) (od_total o) (od_created o).

(** loadPaymentCommandReceipt: the resource and the result of a command that
    succeeded. *)
Definition loadPaymentCommandReceipt (command intent : uuid) (fp : digest) (d : Shard) : res PayErr (option (uuid * RStatus)) :=
  match preceipts d !! command with
  | None => Ok None
  | Some r =>
      match pc_state r with
      | PSucceeded resource result _ =>
          if negb (bool_decide (pc_intent r = intent)) || negb (pc_fp r =? fp)%N then Err (App ErrPaymentConflict) else Ok (Some (resource, result))
      | _ => Err (App ErrPaymentConflict)
      end
  end.

(** ** BeginPayment *)
Definition validBeginCommand (route : ShardRoute) (c : BeginPaymentCommand) : bool :=
  negb (bool_decide (bp_command c = uuidNil)) && negb (bool_decide (bp_intent c = uuidNil)) && negb (bool_decide (bp_reservation c = uuidNil)) &&
  negb (bool_decide (bp_owner c = uuidNil)) && bool_decide (bp_run c = trainRunID route) && (0 <? bp_amount c) &&
  (String.length (bp_currency c) =? 3)%nat && negb (bp_grace c =? 0) && negb (bp_fp c =? 0)%N.
Definition loadBeginReceipt (c : BeginPaymentCommand) (d : Shard) : res PayErr (option BeginPaymentReceipt) :=
  let* found := loadPaymentCommandReceipt (bp_command c) (bp_intent c) (bp_fp c) d in
  match found with
  | None => Ok None
  | Some (resource, result) =>
      if negb (bool_decide (resource = bp_reservation c)) || negb (bool_decide (result = PaymentPending)) then Err (App ErrPaymentConflict)
      else Ok (Some (mkBeginPaymentReceipt (bp_command c) (bp_intent c) (bp_fp c)))
  end.
Definition securedBy (c : BeginPaymentCommand) (r : ResRow) : ResRow :=
  mkResRow (rv_user r) (rv_run r) (rv_gen r) (rv_segments r) (rv_from r) (rv_to r) (rv_class r) PaymentPending (rv_expires r) (rv_total r)
    (rv_currency r) (rv_created r) (Some (mkPaySnap (bp_intent c) (bp_amount c) (bp_currency c) (bp_grace c))).
Definition beginWrites (clk : Z) (route : ShardRoute) (c : BeginPaymentCommand) : SM PayErr BeginPaymentReceipt :=
  px (updReservation (bp_reservation c)
        (fun r => bool_decide (rv_run r = trainRunID route) && (rv_gen r =? generation route) && resIn [Held] r &&
                  bool_decide (rv_payment r = None) && (clk <? rv_expires r)) (securedBy c)) ;;
  startedReceipt route (bp_command c) (bp_intent c) (bp_reservation c) OpPaymentBegin (bp_fp c) (bp_amount c) (bp_currency c) ;;
  px (insOrder (ticketOrderID (bp_intent c)) (mkOrdRow (bp_reservation c) (bp_owner c) (trainRunID route) (generation route) OPaymentPending
        (bp_amount c) (bp_currency c) (Some (bp_intent c)) 0 0 0 clk)) ;;
  px (insEvent (newSHA1 (bp_command c) "reservation.payment_pending")
        (mkEventRow (trainRunID route) (generation route) "reservation" (bp_reservation c) "reservation.payment_pending"
           [("command_id"%string, FUuid (bp_command c)); ("payment_intent_id"%string, FUuid (bp_intent c));
            ("reservation_id"%string, FUuid (bp_reservation c)); ("status"%string, FText "payment_pending")])) ;;
  px (closePReceipt (bp_command c) (bp_reservation c) PaymentPending clk) ;;
  px (recordTargetWrite route (bp_command c) clk) ;;
  mret (mkBeginPaymentReceipt (bp_command c) (bp_intent c) (bp_fp c)).
Definition beginTx (clk : Z) (route : ShardRoute) (c : BeginPaymentCommand) : SM PayErr BeginPaymentReceipt :=
  found ← reads (loadBeginReceipt c);
  match found with
  | Some r => mret r
  | None =>
      reads (lockFence route) ;;
      found ← reads (loadBeginReceipt c);
      match found with
      | Some r => mret r
      | None =>
          d ← shard;
          match routedReservation route (bp_reservation c) d with
          | None => raise (App ErrPaymentNotFound)
          | Some r =>
              guardS (negb (bool_decide (rv_user r = bp_owner c))) (App ErrPaymentNotFound) ;;
              guardS (negb (resIn [Held] r) || (rv_expires r <=? clk) || (bp_grace c <=? rv_expires r) || negb (rv_total r =? bp_amount c) ||
                      negb (bool_decide (rv_currency r = bp_currency c)) || bool_decide (is_Some (rv_payment r))) (App ErrReservationNotPayable) ;;
              beginWrites clk route c
          end
      end
  end.
Definition BeginPayment (router : Resolver) (clk : Z) (route : ShardRoute) (c : BeginPaymentCommand) (fl : Fleet) : res PayErr BeginPaymentReceipt * Fleet :=
  if negb (validBeginCommand route c) then (Err (App ErrReservationNotPayable), fl) else inTx router route (beginTx clk route c) fl.

(** ** GetPayableReservation *)
Definition statusText (s : RStatus) : string :=
  match s with
  | Held => "held" | PaymentPending => "payment_pending" | PaymentReview => "payment_review" | Confirmed => "confirmed"
  | RefundPending => "refund_pending" | Expired => "expired" | Cancelled => "cancelled"
  end.
Definition GetPayableReservation (router : Resolver) (route : ShardRoute) (id : uuid) (fl : Fleet) : res PayErr ReservationSnapshot :=
  let* s := resolve router route false fl in
  match fl !! s with
  | None => Err ErrShardPaymentUnavailable
  | Some d =>
      match routedReservation route id d with
      | None => Err (App ErrPaymentNotFound)
      | Some r => Ok (mkReservationSnapshot id (rv_user r) (rv_run r) (statusText (rv_status r)) (rv_total r) (rv_currency r) (rv_expires r))
      end
  end.

(** ** Ticket issuance *)
Definition base64url (n : N) : ascii :=
  if (n <? 26)%N then ascii_of_N (65 + n) else if (n <? 52)%N then ascii_of_N (71 + n) else
  if (n <? 62)%N then ascii_of_N (n - 4) else if (n =? 62)%N then "-"%char else "_"%char.
Fixpoint sextets (n : nat) (v : N) : string :=
  match n with O => EmptyString | S m => String (base64url ((v / 64 ^ N.of_nat m) mod 64)) (sextets m v) end.
#[global] Arguments sextets : simpl never.
(** base64.RawURLEncoding of the first 24 bytes of the digest. *)
Definition opaqueTicketCode (issuance seat : uuid) : string :=
  sextets 32 (sha256 ("m6-ticket-v1" +:+ bytesBE 16 issuance +:+ bytesBE 16 seat) / 2 ^ 64).
Definition issuedTicketID (issuance seat : uuid) : uuid := newSHA1 issuance (bytesBE 16 seat).

Definition validIssueCommandBase (route : ShardRoute) (c : IssueTicketsCommand) : bool :=
  negb (bool_decide (ic_command c = uuidNil)) && negb (bool_decide (ic_issuance c = uuidNil)) && negb (bool_decide (ic_intent c = uuidNil)) &&
  negb (bool_decide (ic_operation c = uuidNil)) && negb (bool_decide (ic_reservation c = uuidNil)) && negb (bool_decide (ic_owner c = uuidNil)) &&
  bool_decide (ic_run c = trainRunID route) && (0 <=? ic_amount c) && (String.length (ic_currency c) =? 3)%nat && negb (ic_proof c =? 0)%N &&
  negb (ic_fp c =? 0)%N.
Definition validIssueCommand (route : ShardRoute) (c : IssueTicketsCommand) (ids : list uuid) (codes : list string) : bool :=
  validIssueCommandBase route c && (0 <? length ids)%nat && (length ids =? length codes)%nat.

(** The seat ids of the reservation on the route, in order. *)
Definition routedSeats (route : ShardRoute) (id : uuid) (d : Shard) : list uuid :=
  map fst (filter (fun ks => st_run ks.2 = trainRunID route /\ st_gen ks.2 = generation route) (seatsOfReservation d id)).
Definition inPayment (c : IssueTicketsCommand) (r : ResRow) : bool :=
  resIn [PaymentPending; PaymentReview] r && bool_decide (intentOf r = Some (ic_intent c)) && (rv_total r =? ic_amount c) &&
  bool_decide (rv_currency r = ic_currency c).
Definition planTx (route : ShardRoute) (c : IssueTicketsCommand) (d : Shard) : res PayErr (list uuid * list string) :=
  match routedReservation route (ic_reservation c) d with
  | None => Err (App ErrPaymentNotFound)
  | Some r =>
      if negb (bool_decide (rv_user r = ic_owner c)) || negb (inPayment c r) then Err (App ErrReservationNotPayable) else
      let seats := routedSeats route (ic_reservation c) d in
      if bool_decide (uuidNil ∈ seats) || (100 <? length seats)%nat || (length seats =? 0)%nat then Err ErrShardPaymentUnavailable else
      Ok (map (issuedTicketID (ic_issuance c)) seats, map (opaqueTicketCode (ic_issuance c)) seats)
  end.
Definition PlanTicketIssue (router : Resolver) (route : ShardRoute) (c : IssueTicketsCommand) (fl : Fleet) : res PayErr (list uuid * list string) :=
  if negb (validIssueCommandBase route c) then Err (App ErrReservationNotPayable) else
  let* s := resolve router route true fl in
  match fl !! s with None => Err ErrShardPaymentUnavailable | Some d => planTx route c d end.

(** The stored issuance of a command, if it matches the command in every
    column and its order is still issued. *)
Definition loadIssuanceReceipt (c : IssueTicketsCommand) (d : Shard) : res PayErr (option IssueTicketsReceipt) :=
  match issuances d !! ic_issuance c with
  | None => Ok None
  | Some r =>
      if negb (bool_decide (is_intent r = ic_intent c)) || negb (bool_decide (is_reservation r = ic_reservation c)) ||
         negb (bool_decide (is_operation r = ic_operation c)) || negb (is_amount r =? ic_amount c) ||
         negb (bool_decide (is_currency r = ic_currency c)) || (is_count r <? 1)%nat || (100 <? is_count r)%nat ||
         negb (is_proof r =? ic_proof c)%N then Err (App ErrPaymentConflict) else
      match preceipts d !! ic_command c with
      | None => Err (App ErrPaymentConflict)
      | Some p =>
          if negb (bool_decide (pc_op p = OpCaptureRecorded)) || negb (bool_decide (pc_intent p = ic_intent c)) || negb (pc_fp p =? ic_fp c)%N ||
             negb match pc_state p with PSucceeded resource _ _ => bool_decide (resource = is_order r) | _ => false end
          then Err (App ErrPaymentConflict) else
          match paymentOrder (is_order r) (ic_reservation c) (ic_intent c) (ic_amount c) (ic_currency c) d with
          | None => Err (App ErrPaymentConflict)
          | Some o =>
              if negb (bool_decide (od_status o = OIssued)) || (od_created o =? 0) then Err (App ErrPaymentConflict) else
              let rows := take 101 (ticketsOfOrder d (is_order r)) in
              if existsb (fun kt => bool_decide (kt.1 = uuidNil) || negb (ValidTicketCode (tk_code kt.2))) rows || negb (length rows =? is_count r)%nat
              then Err ErrShardPaymentUnavailable else
              Ok (Some (mkIssueTicketsReceipt (ic_command c) (ic_issuance c) (ic_intent c) (ic_reservation c) (is_order r) (map fst rows)
                          (map (fun kt => tk_code kt.2) rows) (is_amount r) (is_currency r) (od_created o) (is_created r)))
          end
      end
  end.

(** The loop over the seats: the planned identity of each ticket is checked,
    the ticket inserted and its event appended. *)
Fixpoint issueLoop (route : ShardRoute) (c : IssueTicketsCommand) (order : uuid) (plan : list (uuid * (uuid * string))) : SM PayErr unit :=
  match plan with
  | [] => mret tt
  | (seat, (id, code)) :: plan' =>
      let t := issuedTicketID (ic_issuance c) seat in
      let k := opaqueTicketCode (ic_issuance c) seat in
      guardS (negb (bool_decide (id = t)) || negb (bool_decide (code = k))) (App ErrPaymentConflict) ;;
      px (insTicket t (mkTixRow order seat (trainRunID route) (generation route) k TActive)) ;;
      appendOutbox route t "ticket" "ticket.issued" (orderFields (ic_intent c) (ic_reservation c) order ++ [("ticket_id"%string, FUuid t)]) ;;
      issueLoop route c order plan'
  end.

Definition issuable : list OStatus := [OPaymentPending; OPaymentAuthorized; OPaymentCaptured; OIssuancePending].
Definition issueWrites (clk : Z) (route : ShardRoute) (c : IssueTicketsCommand) (ids : list uuid) (codes : list string) (order : uuid) (created : Z)
    : SM PayErr IssueTicketsReceipt :=
  startedReceipt route (ic_command c) (ic_intent c) (ic_reservation c) OpCaptureRecorded (ic_fp c) (ic_amount c) (ic_currency c) ;;
  px (updOrder order (ordIn issuable) (ordCaptured OIssued)) ;;
  px (updReservation (ic_reservation c) (resIn [PaymentPending; PaymentReview]) (resTo Confirmed)) ;;
  d ← shard;
  let seats := routedSeats route (ic_reservation c) d in
  guardS (bool_decide (uuidNil ∈ seats) || (length seats =? 0)%nat || (100 <? length seats)%nat) ErrShardPaymentUnavailable ;;
  guardS (negb (length ids =? length seats)%nat || negb (length codes =? length seats)%nat) (App ErrPaymentConflict) ;;
  issueLoop route c order (zip seats (zip ids codes)) ;;
  px (insIssuance (ic_issuance c) (mkIssuanceRow (newSHA1 (ic_issuance c) "ticket-issuance-receipt") (ic_intent c) (ic_reservation c)
        (ic_operation c) order (trainRunID route) (generation route) (ic_proof c) (ic_amount c) (ic_currency c) (length seats) clk)) ;;
  guardS (clk =? 0) ErrShardPaymentUnavailable ;;
  let counts := orderFields (ic_intent c) (ic_reservation c) order ++ [("ticket_count"%string, FInt (Z.of_nat (length seats)))] in
  appendOutbox route (ic_reservation c) "reservation" "reservation.confirmed" counts ;;
  appendOutbox route order "ticket_order" "ticket_order.issued" counts ;;
  px (closePReceipt (ic_command c) order Confirmed clk) ;;
  px (recordTargetWrite route (ic_command c) clk) ;;
  mret (mkIssueTicketsReceipt (ic_command c) (ic_issuance c) (ic_intent c) (ic_reservation c) order
          (map (issuedTicketID (ic_issuance c)) seats) (map (opaqueTicketCode (ic_issuance c)) seats) (ic_amount c) (ic_currency c) created clk).
Definition issueTx (clk : Z) (route : ShardRoute) (c : IssueTicketsCommand) (ids : list uuid) (codes : list string) : SM PayErr IssueTicketsReceipt :=
  found ← reads (loadIssuanceReceipt c);
  match found with
  | Some r => mret r
  | None =>
      reads (lockFence route) ;;
      found ← reads (loadIssuanceReceipt c);
      match found with
      | Some r => mret r
      | None =>
          d ← shard;
          match routedReservation route (ic_reservation c) d with
          | None => raise (App ErrPaymentNotFound)
          | Some r =>
              guardS (negb (bool_decide (rv_user r = ic_owner c))) (App ErrPaymentNotFound) ;;
              guardS (negb (inPayment c r)) (App ErrReservationNotPayable) ;;
              let order := ticketOrderID (ic_intent c) in
              match routedOrder route order (ic_reservation c) (ic_intent c) (ic_amount c) (ic_currency c) d with
              | None => unavailable
              | Some o =>
                  guardS (negb (ordIn issuable o) || (od_created o =? 0)) ErrShardPaymentUnavailable ;;
                  issueWrites clk route c ids codes order (od_created o)
              end
          end
      end
  end.
Definition IssueTickets (router : Resolver) (clk : Z) (route : ShardRoute) (c : IssueTicketsCommand) (ids : list uuid) (codes : list string) (fl : Fleet)
    : res PayErr IssueTicketsReceipt * Fleet :=
  if negb (validIssueCommand route c ids codes) then (Err (App ErrReservationNotPayable), fl) else inTx router route (issueTx clk route c ids codes) fl.

(** ** MarkRefundPending *)
Definition validRefundPendingCommand (route : ShardRoute) (c : MarkRefundPendingCommand) : bool :=
  negb (bool_decide (mc_command c = uuidNil)) && negb (bool_decide (mc_intent c = uuidNil)) && negb (bool_decide (mc_reservation c = uuidNil)) &&
  bool_decide (mc_run c = trainRunID route) && negb (bool_decide (mc_owner c = uuidNil)) && (0 <=? mc_amount c) &&
  (String.length (mc_currency c) =? 3)%nat && negb (mc_proof c =? 0)%N && negb (mc_fp c =? 0)%N.
Definition markReceipt (c : MarkRefundPendingCommand) : MarkRefundPendingReceipt :=
  mkMarkRefundPendingReceipt (mc_command c) (mc_intent c) (mc_reservation c) (ticketOrderID (mc_intent c)).
Definition loadMarkReceipt (c : MarkRefundPendingCommand) (d : Shard) : res PayErr (option MarkRefundPendingReceipt) :=
  let* found := loadPaymentCommandReceipt (mc_command c) (mc_intent c) (mc_fp c) d in
  match found with
  | None => Ok None
  | Some (resource, result) =>
      if negb (bool_decide (result = RefundPending)) || negb (bool_decide (resource = mc_reservation c)) then Err (App ErrPaymentConflict)
      else Ok (Some (markReceipt c))
  end.
Definition markWrites (clk : Z) (route : ShardRoute) (c : MarkRefundPendingCommand) (order : uuid) : SM PayErr MarkRefundPendingReceipt :=
  startedReceipt route (mc_command c) (mc_intent c) (mc_reservation c) OpRefundPending (mc_fp c) (mc_amount c) (mc_currency c) ;;
  px (updReservation (mc_reservation c) (resIn [PaymentPending; PaymentReview; Confirmed]) (resTo RefundPending)) ;;
  px (updOrder order (ordIn [OPaymentPending; OPaymentAuthorized; OPaymentCaptured; OIssuancePending; OIssued; OManualReview]) (ordCaptured ORefundPending)) ;;
  modify (updTickets order [TActive] TRefundPending) ;;
  appendOutbox route (mc_reservation c) "reservation" "reservation.refund_pending" (orderFields (mc_intent c) (mc_reservation c) order) ;;
  px (closePReceipt (mc_command c) (mc_reservation c) RefundPending clk) ;;
  px (recordTargetWrite route (mc_command c) clk) ;;
  mret (markReceipt c).
Definition markTx (clk : Z) (route : ShardRoute) (c : MarkRefundPendingCommand) : SM PayErr MarkRefundPendingReceipt :=
  found ← reads (loadMarkReceipt c);
  match found with
  | Some r => mret r
  | None =>
      reads (lockFence route) ;;
      found ← reads (loadMarkReceipt c);
      match found with
      | Some r => mret r
      | None =>
          d ← shard;
          match routedReservation route (mc_reservation c) d with
          | None => raise (App ErrPaymentNotFound)
          | Some r =>
              guardS (negb (bool_decide (rv_user r = mc_owner c))) (App ErrPaymentNotFound) ;;
              guardS (negb (bool_decide (intentOf r = Some (mc_intent c))) || negb (rv_total r =? mc_amount c) ||
                      negb (bool_decide (rv_currency r = mc_currency c)) || negb (resIn [PaymentPending; PaymentReview; Confirmed; RefundPending] r))
                (App ErrReservationNotPayable) ;;
              let order := ticketOrderID (mc_intent c) in
              match paymentOrder order (mc_reservation c) (mc_intent c) (mc_amount c) (mc_currency c) d with
              | None => unavailable
              | Some o =>
                  guardS (resIn [RefundPending] r && ordIn [ORefundPending] o) (App ErrPaymentConflict) ;;
                  markWrites clk route c order
              end
          end
      end
  end.
Definition MarkRefundPending (router : Resolver) (clk : Z) (route : ShardRoute) (c : MarkRefundPendingCommand) (fl : Fleet)
    : res PayErr MarkRefundPendingReceipt * Fleet :=
  if negb (validRefundPendingCommand route c) then (Err (App ErrReservationNotPayable), fl) else inTx router route (markTx clk route c) fl.

(** ** ApplyRefundCompensation *)
Definition validCompensationCommand (route : ShardRoute) (c : ApplyRefundCompensationCommand) : bool :=
  negb (bool_decide (rc_command c = uuidNil)) && negb (bool_decide (rc_compensation c = uuidNil)) && negb (bool_decide (rc_operation c = uuidNil)) &&
  negb (bool_decide (rc_intent c = uuidNil)) && negb (bool_decide (rc_reservation c = uuidNil)) && negb (bool_decide (rc_owner c = uuidNil)) &&
  bool_decide (rc_run c = trainRunID route) && (0 <? rc_amount c) && (String.length (rc_currency c) =? 3)%nat && negb (rc_proof c =? 0)%N &&
  negb (rc_fp c =? 0)%N && negb (rc_refunded c =? 0).
Definition compReceipt (c : ApplyRefundCompensationCommand) (order : uuid) (released cancelled : nat) : ApplyRefundCompensationReceipt :=
  mkApplyRefundCompensationReceipt (rc_command c) (rc_compensation c) (rc_intent c) (rc_reservation c) order (Z.of_nat released) (Z.of_nat cancelled).
Definition loadCompensationReceipt (c : ApplyRefundCompensationCommand) (d : Shard) : res PayErr (option ApplyRefundCompensationReceipt) :=
  match comps d !! rc_compensation c with
  | None => Ok None
  | Some p =>
      if negb (bool_decide (cp_intent p = rc_intent c)) || negb (bool_decide (cp_reservation p = rc_reservation c)) then Err (App ErrPaymentConflict) else
      match refunds d !! cp_refund p with
      | None => Err (App ErrPaymentConflict)
      | Some f =>
          if negb (bool_decide (rf_operation f = rc_operation c)) || negb (rf_captured f =? rc_amount c) || negb (rf_refunded f =? rc_amount c) ||
             negb (bool_decide (rf_currency f = rc_currency c)) || negb (rf_proof f =? rc_proof c)%N then Err (App ErrPaymentConflict) else
          Ok (Some (compReceipt c (cp_order p) (cp_released p) (cp_tickets p)))
      end
  end.
Definition loadCompensationCommand (c : ApplyRefundCompensationCommand) (d : Shard) : res PayErr (option ApplyRefundCompensationReceipt) :=
  let* command := loadPaymentCommandReceipt (rc_command c) (rc_intent c) (rc_fp c) d in
  let* receipt := loadCompensationReceipt c d in
  match command, receipt with
  | Some (resource, result), Some r =>
      if negb (bool_decide (result = Cancelled)) || negb (bool_decide (resource = rc_reservation c)) then Err (App ErrPaymentConflict) else Ok (Some r)
  | Some _, None | None, Some _ => Err (App ErrPaymentConflict)
  | None, None => Ok None
  end.
Definition cancellable : list TStatus := [TActive; TRefundPending].
Fixpoint cancelledEvents (route : ShardRoute) (c : ApplyRefundCompensationCommand) (order : uuid) (ts : list uuid) : SM PayErr unit :=
  match ts with
  | [] => mret tt
  | t :: ts' =>
      appendOutbox route t "ticket" "ticket.cancelled" (orderFields (rc_intent c) (rc_reservation c) order ++ [("ticket_id"%string, FUuid t)]) ;;
      cancelledEvents route c order ts'
  end.
Definition compWrites (clk : Z) (route : ShardRoute) (c : ApplyRefundCompensationCommand) (order : uuid) : SM PayErr ApplyRefundCompensationReceipt :=
  startedReceipt route (rc_command c) (rc_intent c) (rc_reservation c) OpPaymentCancelled (rc_fp c) (rc_amount c) (rc_currency c) ;;
  let refundReceipt := newSHA1 (rc_operation c) "payment-refund-receipt" in
  px (insRefund refundReceipt (mkRefundRow (rc_operation c) (rc_intent c) (rc_reservation c) order (trainRunID route) (generation route) (rc_proof c)
        (rc_amount c) (rc_amount c) (rc_currency c) (rc_refunded c))) ;;
  d ← shard;
  let seats := length (seatsOfReservation d (rc_reservation c)) in
  guardS (seats <? 1)%nat ErrShardPaymentUnavailable ;;
  n ← counted ErrShardPaymentUnavailable (releaseSeats (rc_reservation c));
  guardS (negb (n =? seats)%nat) ErrShardPaymentUnavailable ;;
  d ← shard;
  let ts := map fst (filter (fun kt => tk_status kt.2 ∈ cancellable) (ticketsOfOrder d order)) in
  guardS (bool_decide (uuidNil ∈ ts) || (100 <? length ts)%nat) ErrShardPaymentUnavailable ;;
  modify (updTickets order cancellable TCancelled) ;;
  px (updOrder order (ordIn [ORefundPending]) ordRefunded) ;;
  px (updReservation (rc_reservation c) (resIn [RefundPending]) (resTo Cancelled)) ;;
  px (insComp (rc_compensation c) (mkCompRow (newSHA1 (rc_compensation c) "payment-compensation-receipt") (rc_intent c) (rc_reservation c) order
        refundReceipt (trainRunID route) (generation route) seats (length ts))) ;;
  appendOutbox route (rc_reservation c) "reservation" "reservation.cancelled" (orderFields (rc_intent c) (rc_reservation c) order) ;;
  appendOutbox route order "payment" "payment.compensation_applied" (orderFields (rc_intent c) (rc_reservation c) order) ;;
  cancelledEvents route c order ts ;;
  px (closePReceipt (rc_command c) (rc_reservation c) Cancelled clk) ;;
  px (recordTargetWrite route (rc_command c) clk) ;;
  mret (compReceipt c order seats (length ts)).
Definition compTx (clk : Z) (route : ShardRoute) (c : ApplyRefundCompensationCommand) : SM PayErr ApplyRefundCompensationReceipt :=
  found ← reads (loadCompensationCommand c);
  match found with
  | Some r => mret r
  | None =>
      reads (lockFence route) ;;
      found ← reads (loadCompensationCommand c);
      match found with
      | Some r => mret r
      | None =>
          d ← shard;
          match routedReservation route (rc_reservation c) d with
          | None => unavailable
          | Some r =>
              guardS (negb (bool_decide (rv_user r = rc_owner c))) (App ErrPaymentNotFound) ;;
              guardS (negb (resIn [RefundPending] r) || negb (bool_decide (intentOf r = Some (rc_intent c))) || negb (rv_total r =? rc_amount c) ||
                      negb (bool_decide (rv_currency r = rc_currency c))) (App ErrReservationNotPayable) ;;
              let order := ticketOrderID (rc_intent c) in
              match paymentOrder order (rc_reservation c) (rc_intent c) (rc_amount c) (rc_currency c) d with
              | None => unavailable
              | Some o => guardS (negb (ordIn [ORefundPending] o)) ErrShardPaymentUnavailable ;; compWrites clk route c order
              end
          end
      end
  end.
Definition ApplyRefundCompensation (router : Resolver) (clk : Z) (route : ShardRoute) (c : ApplyRefundCompensationCommand) (fl : Fleet)
    : res PayErr ApplyRefundCompensationReceipt * Fleet :=
  if negb (validCompensationCommand route c) then (Err (App ErrReservationNotPayable), fl) else inTx router route (compTx clk route c) fl.

(** ** CancelVoidedReservation *)
Definition validVoidCancellationCommand (route : ShardRoute) (c : CancelVoidedReservationCommand) : bool :=
  negb (bool_decide (vc_command c = uuidNil)) && negb (bool_decide (vc_operation c = uuidNil)) && negb (bool_decide (vc_intent c = uuidNil)) &&
  negb (bool_decide (vc_reservation c = uuidNil)) && negb (bool_decide (vc_owner c = uuidNil)) && bool_decide (vc_run c = trainRunID route) &&
  (0 <=? vc_amount c) && (String.length (vc_currency c) =? 3)%nat && negb (vc_proof c =? 0)%N &&
  (vc_fp c =? VoidCancellationFingerprint (vc_command c) (vc_operation c) (vc_intent c) (vc_reservation c) (vc_run c) (vc_owner c) (vc_amount c)
                (vc_currency c) (vc_proof c))%N && negb (vc_voided c =? 0).
Definition voidReceipt (c : CancelVoidedReservationCommand) (seats : nat) (at_ : Z) : CancelVoidedReservationReceipt :=
  mkCancelVoidedReservationReceipt (vc_command c) (vc_operation c) (vc_intent c) (vc_reservation c) (ticketOrderID (vc_intent c)) (Z.of_nat seats) at_.
Definition loadVoidCancellationReceipt (c : CancelVoidedReservationCommand) (d : Shard) : res PayErr (option CancelVoidedReservationReceipt) :=
  match preceipts d !! vc_command c with
  | None => Ok None
  | Some p =>
      match pc_state p with
      | PSucceeded resource result committed =>
          if negb (bool_decide (pc_intent p = vc_intent c)) || negb (bool_decide (pc_reservation p = vc_reservation c)) ||
             negb (bool_decide (pc_op p = OpPaymentCancelled)) || negb (bool_decide (resource = vc_reservation c)) ||
             negb (bool_decide (result = Cancelled)) || negb (pc_fp p =? vc_fp c)%N then Err (App ErrPaymentConflict) else
          let seats := length (seatsOfReservation d (vc_reservation c)) in
          if (seats <? 1)%nat || (100 <? seats)%nat then Err ErrShardPaymentUnavailable else Ok (Some (voidReceipt c seats committed))
      | _ => Err (App ErrPaymentConflict)
      end
  end.
Definition voidable : list OStatus := [OPaymentPending; OPaymentAuthorized; OManualReview].
Definition voidWrites (clk : Z) (route : ShardRoute) (c : CancelVoidedReservationCommand) (order : uuid) (seats : nat) : SM PayErr CancelVoidedReservationReceipt :=
  startedReceipt route (vc_command c) (vc_intent c) (vc_reservation c) OpPaymentCancelled (vc_fp c) (vc_amount c) (vc_currency c) ;;
  n ← counted ErrShardPaymentUnavailable (releaseSeats (vc_reservation c));
  guardS (negb (n =? seats)%nat) ErrShardPaymentUnavailable ;;
  px (updOrder order (fun o => ordIn voidable o && (od_captured o =? 0) && (od_refunded o =? 0)) (ordTo OCancelled)) ;;
  px (updReservation (vc_reservation c) (resIn [PaymentPending; PaymentReview]) (resTo Cancelled)) ;;
  appendOutbox route (vc_reservation c) "reservation" "reservation.cancelled" (orderFields (vc_intent c) (vc_reservation c) order) ;;
  appendOutbox route order "payment" "payment.void_compensation_applied" (orderFields (vc_intent c) (vc_reservation c) order) ;;
  px (closePReceipt (vc_command c) (vc_reservation c) Cancelled clk) ;;
  guardS (clk =? 0) ErrShardPaymentUnavailable ;;
  px (recordTargetWrite route (vc_command c) clk) ;;
  mret (voidReceipt c seats clk).
Definition voidTx (clk : Z) (route : ShardRoute) (c : CancelVoidedReservationCommand) : SM PayErr CancelVoidedReservationReceipt :=
  found ← reads (loadVoidCancellationReceipt c);
  match found with
  | Some r => mret r
  | None =>
      reads (lockFence route) ;;
      found ← reads (loadVoidCancellationReceipt c);
      match found with
      | Some r => mret r
      | None =>
          d ← shard;
          guardS (existsRow (preceipts d) (fun _ p => bool_decide (pc_intent p = vc_intent c) && bool_decide (pc_op p = OpPaymentCancelled)))
            (App ErrPaymentConflict) ;;
          match routedReservation route (vc_reservation c) d with
          | None => raise (App ErrPaymentNotFound)
          | Some r =>
              guardS (negb (bool_decide (rv_user r = vc_owner c))) (App ErrPaymentNotFound) ;;
              guardS (negb (bool_decide (intentOf r = Some (vc_intent c))) || negb (rv_total r =? vc_amount c) ||
                      negb (bool_decide (rv_currency r = vc_currency c)) || negb (resIn [PaymentPending; PaymentReview] r))
                (App ErrReservationNotPayable) ;;
              let order := ticketOrderID (vc_intent c) in
              match routedOrder route order (vc_reservation c) (vc_intent c) (vc_amount c) (vc_currency c) d with
              | None => unavailable
              | Some o =>
                  guardS (negb (ordIn voidable o) || negb (od_captured o =? 0) || negb (od_refunded o =? 0) ||
                          (negb (od_authorized o =? 0) && negb (od_authorized o =? vc_amount c))) (App ErrPaymentConflict) ;;
                  guardS (existsRow (issuances d) (fun _ r => bool_decide (is_intent r = vc_intent c)) ||
                          negb (length (ticketsOfOrder d order) =? 0)%nat ||
                          existsRow (refunds d) (fun _ r => bool_decide (rf_intent r = vc_intent c)) ||
                          existsRow (comps d) (fun _ r => bool_decide (cp_intent r = vc_intent c))) (App ErrPaymentConflict) ;;
                  let seats := length (routedSeats route (vc_reservation c) d) in
                  guardS ((seats <? 1)%nat || (100 <? seats)%nat) ErrShardPaymentUnavailable ;;
                  voidWrites clk route c order seats
              end
          end
      end
  end.
Definition CancelVoidedReservation (router : Resolver) (clk : Z) (route : ShardRoute) (c : CancelVoidedReservationCommand) (fl : Fleet)
    : res PayErr CancelVoidedReservationReceipt * Fleet :=
  if negb (validVoidCancellationCommand route c) then (Err (App ErrReservationNotPayable), fl) else inTx router route (voidTx clk route c) fl.
End Store.
End Store.

Module Gateway.
(** ** Errors as the callers see them *)
Definition mapShardError (e : PayErr) : PayErr :=
  match e with
  | App ErrPaymentNotFound => App ErrPaymentNotFound
  | App ErrReservationNotPayable => App ErrReservationNotPayable
  | App ErrPaymentConflict => App ErrPaymentConflict
  | _ => ErrShardPaymentUnavailable
  end.
Definition routeText (e : RouteErr) : string :=
  match e with
  | ErrAssignmentStale => "shard_assignment_stale" | ErrWriteFenced => "shard_write_fenced" | ErrShardUnavailable => "shard_unavailable"
  | ErrTrainRunMigrating => "train_run_migrating" | ErrLocatorNotFound => "shard_locator_not_found"
  end.
Definition appText (e : AppErr) : string :=
  match e with
  | ErrInvalidPaymentRequest => "invalid payment request" | ErrPaymentNotFound => "payment resource not found"
  | ErrPaymentConflict => "payment intent conflict" | ErrReservationNotPayable => "reservation not payable"
  | ErrPaymentUnavailable => "payment unavailable" | ErrControlFinalizationDeferred => "payment control finalization deferred"
  | ErrShardPaymentCommandDeferred => "payment shard command deferred" | PaymentControl.ErrDatabase _ => "database"
  end.
Definition errText (e : PayErr) : string :=
  match e with App e => appText e | ErrShardPaymentUnavailable => "payment shard unavailable" | PayRoute e => routeText e end.
Definition sentinelText (s : Sentinel) : string :=
  match s with
  | ErrTicketPlanUnavailable => "ticket issue plan unavailable" | ErrTicketClaimUnauthorized => "ticket code claim not authorized"
  | ErrTicketClaimReadFailed => "ticket code claim authorization unavailable"
  | ErrTicketClaimReadTimeout => "ticket code claim authorization timeout"
  | ErrTicketClaimSQLFailed => "ticket code claim authorization query failed"
  | ErrTicketClaimScanFailed => "ticket code claim authorization scan failed"
  | ErrTicketClaimDecodeFailed => "ticket code claim authorization decode failed"
  | ErrTicketClaimConflict => "ticket code claim conflict" | ErrTicketClaimCommitFailed => "ticket code claim commit unavailable"
  | ErrTicketClaimUnavailable => "ticket code claim unavailable" | ErrTicketIssueUnavailable => "ticket issue command unavailable"
  end.
Definition newline : string := String (ascii_of_nat 10) EmptyString.
(** An error of the store for the worker, alone or in errors.Join with a
    sentinel. *)
Definition plainErr (e : PayErr) : ShardErr := mkShardErr (errText e) [].
Definition joined (s : Sentinel) (e : ShardErr) : ShardErr := mkShardErr (sentinelText s +:+ newline +:+ se_text e) (s :: se_is e).
(** The service distinguishes the errors of mapShardError; it treats all
    others alike. *)
Definition serviceErr (e : PayErr) : AppErr := match e with App e => e | _ => ErrPaymentUnavailable end.

(** ** The directory *)
Record DirectoryRow := mkDirectoryRow { dr_run : uuid; dr_shard : string; dr_gen : Z; dr_state : string }.
(** reservation_directory, and storage_kind of booking_shards. *)
Definition ResolveReservation (rows : gmap uuid DirectoryRow) (kinds : gmap string string) (id : uuid) (_ : bool) : res PayErr ShardRoute :=
  if bool_decide (id = uuidNil) then Err (App ErrPaymentNotFound) else
  match rows !! id with
  | None => Err (App ErrPaymentNotFound)
  | Some r =>
      match kinds !! dr_shard r with
      | None => Err (App ErrPaymentNotFound)
      | Some kind =>
          if negb (bool_decide (dr_state r = "active"%string)) || negb (bool_decide (kind = "postgres"%string)) then Err (PayRoute ErrShardUnavailable) else
          match ParseShardID (dr_shard r) with
          | Err _ => Err (PayRoute ErrShardUnavailable)
          | Ok s =>
              if negb (bool_decide (s = ShardPhysicalZero) || bool_decide (s = ShardPhysicalOne)) then Err (PayRoute ErrShardUnavailable) else
              match NewAssignmentGeneration (dr_gen r) with
              | Err _ => Err (PayRoute ErrShardUnavailable)
              | Ok gen => match NewShardRoute (dr_run r) s gen with Ok route => Ok route | Err _ => Err (PayRoute ErrShardUnavailable) end
              end
          end
      end
  end.

Section Gateway.
Context {hashing : Hashing} {C : Type}.
(** The router and the directory as they answer during one call, the instant
    of its transactions, and the claimer of ticket codes with its state. *)
Context (router : Resolver) (directory : uuid -> bool -> res PayErr ShardRoute) (clk : Z).
Context (ticketCodes : option (IssueTicketsCommand -> list uuid -> list string -> C -> res ShardErr unit * C)).

Definition staleOrFenced (e : PayErr) : bool :=
  bool_decide (e = PayRoute ErrAssignmentStale) || bool_decide (e = PayRoute ErrWriteFenced).

(** The shape of CancelVoidedReservation, MarkRefundPending,
    ApplyRefundCompensation and BeginPayment: resolve, call, and on a stale or
    fenced route resolve again and call once more. *)
Definition dispatch {A} (reservation run : uuid) (call : ShardRoute -> Fleet -> res PayErr A * Fleet) (fl : Fleet) : res PayErr A * Fleet :=
  if bool_decide (reservation = uuidNil) || bool_decide (run = uuidNil) then (Err (App ErrReservationNotPayable), fl) else
  match directory reservation false with
  | Err e => (Err (mapShardError e), fl)
  | Ok route =>
      if negb (bool_decide (trainRunID route = run)) then (Err ErrShardPaymentUnavailable, fl) else
      match call route fl with
      | (Ok a, fl') => (Ok a, fl')
      | (Err e, fl') =>
          if staleOrFenced e then
            match directory reservation true with
            | Ok refreshed => if negb (bool_decide (trainRunID refreshed = run)) then (Err ErrShardPaymentUnavailable, fl') else call refreshed fl'
            | Err _ => (Err ErrShardPaymentUnavailable, fl')
            end
          else (Err (mapShardError e), fl')
      end
  end.

Definition BeginPayment (c : BeginPaymentCommand) : Fleet -> res PayErr BeginPaymentReceipt * Fleet :=
  dispatch (bp_reservation c) (bp_run c) (fun route => Store.BeginPayment router clk route c).
Definition MarkRefundPending (c : MarkRefundPendingCommand) : Fleet -> res PayErr MarkRefundPendingReceipt * Fleet :=
  dispatch (mc_reservation c) (mc_run c) (fun route => Store.MarkRefundPending router clk route c).
Definition CancelVoidedReservation (c : CancelVoidedReservationCommand) : Fleet -> res PayErr CancelVoidedReservationReceipt * Fleet :=
  dispatch (vc_reservation c) (vc_run c) (fun route => Store.CancelVoidedReservation router clk route c).
Definition ApplyRefundCompensation (c : ApplyRefundCompensationCommand) : Fleet -> res PayErr ApplyRefundCompensationReceipt * Fleet :=
  dispatch (rc_reservation c) (rc_run c) (fun route => Store.ApplyRefundCompensation router clk route c).

Definition GetPayableReservation (id : uuid) (fl : Fleet) : res PayErr ReservationSnapshot :=
  if bool_decide (id = uuidNil) then Err (App ErrPaymentNotFound) else
  match directory id false with
  | Err e => Err (mapShardError e)
  | Ok route =>
      match Store.GetPayableReservation router route id fl with
      | Ok s => Ok s
      | Err e =>
          if staleOrFenced e then
            match directory id true with
            | Err e => Err (mapShardError e)
            | Ok route => match Store.GetPayableReservation router route id fl with Ok s => Ok s | Err e => Err (mapShardError e) end
            end
          else Err (mapShardError e)
      end
  end.

Definition IssueTickets (c : IssueTicketsCommand) (w : Fleet * C) : res ShardErr IssueTicketsReceipt * (Fleet * C) :=
  let '(fl, codes) := w in
  match ticketCodes with
  | None => (Err (plainErr (App ErrReservationNotPayable)), w)
  | Some claim =>
      if bool_decide (ic_reservation c = uuidNil) || bool_decide (ic_run c = uuidNil) then (Err (plainErr (App ErrReservationNotPayable)), w) else
      match directory (ic_reservation c) false with
      | Err e => (Err (plainErr (mapShardError e)), w)
      | Ok route =>
          if negb (bool_decide (trainRunID route = ic_run c)) then (Err (plainErr ErrShardPaymentUnavailable), w) else
          match Store.PlanTicketIssue router route c fl with
          | Err e => (Err (joined ErrTicketPlanUnavailable (plainErr (mapShardError e))), w)
          | Ok (ids, planned) =>
              match claim c ids planned codes with
              | (Err e, codes') => (Err (joined ErrTicketClaimUnavailable e), (fl, codes'))
              | (Ok _, codes') =>
                  match Store.IssueTickets router clk route c ids planned fl with
                  | (Ok r, fl') => (Ok r, (fl', codes'))
                  | (Err e, fl') =>
                      if staleOrFenced e then
                        match directory (ic_reservation c) true with
                        | Ok refreshed =>
                            if negb (bool_decide (trainRunID refreshed = ic_run c)) then (Err (joined ErrTicketIssueUnavailable (plainErr ErrShardPaymentUnavailable)), (fl', codes')) else
                            match Store.IssueTickets router clk refreshed c ids planned fl' with
                            | (Ok r, fl2) => (Ok r, (fl2, codes'))
                            | (Err e2, fl2) => (Err (joined ErrTicketIssueUnavailable (plainErr (mapShardError e2))), (fl2, codes'))
                            end
                        | Err _ => (Err (joined ErrTicketIssueUnavailable (plainErr ErrShardPaymentUnavailable)), (fl', codes'))
                        end
                      else (Err (joined ErrTicketIssueUnavailable (plainErr (mapShardError e))), (fl', codes'))
                  end
              end
          end
      end
  end.

(** ** The gateway as the interface of its two clients *)
Definition forWorker {A} (call : Fleet -> res PayErr A * Fleet) (w : Fleet * C) : res ShardErr A * (Fleet * C) :=
  let '(r, fl) := call w.1 in (match r with Ok a => Ok a | Err e => Err (plainErr e) end, (fl, w.2)).
Definition workerGateway : ShardGateway (Fleet * C) :=
  mkShardGateway (Fleet * C) IssueTickets (fun c => forWorker (MarkRefundPending c)) (fun c => forWorker (CancelVoidedReservation c))
    (fun c => forWorker (ApplyRefundCompensation c)).
Definition serviceGateway : ReservationGateway Fleet :=
  mkReservationGateway Fleet
    (fun id fl => match GetPayableReservation id fl with Ok s => Ok s | Err e => Err (serviceErr e) end)
    (fun c fl => let '(r, fl') := BeginPayment c fl in (match r with Ok a => Ok a | Err e => Err (serviceErr e) end, fl')).
End Gateway.
End Gateway.
