(* ===== verification/ShardExpiry.v ===== *)
(** * Expiry of holds on a physical shard

    Models HoldExpirationProcessor of
    [src/internal/sharding/physicalworker/postgres_processors.go]: a pass over
    one shard expires the overdue holds of train runs whose fence is open, one
    transaction each, the longest overdue first. *)

From S2P Require Import Prelude Transaction SegmentMask Sharding PaymentDomain PaymentDb PaymentClaims BookingDb ShardDb ShardBooking.
Import ShardTypes.

Inductive WorkerErr := ErrInvalidPostgresProcessor | ErrExpirationStore.
#[export] Instance WorkerErr_eq_dec : EqDecision WorkerErr.
Proof. solve_decision. Defined.

(** maxWorkLimit of orchestrator.go. *)
Definition maxWorkLimit : Z := 10000.

(** The row of the candidate query: a hold that is over, joined with the open
    fence of its generation. *)
Definition overdue (now : Z) (d : Shard) (r : ResRow) : bool :=
  bool_decide (rv_status r = Held) && (rv_expires r <=? now) &&
  match fences d !! rv_run r with Some f => (wf_gen f =? rv_gen r) && fenceOpen f | None => false end.
Definition expiresBefore (a b : uuid * ResRow) : bool :=
  (rv_expires a.2 <? rv_expires b.2) || ((rv_expires a.2 =? rv_expires b.2) && (a.1 <=? b.1)%N).
Definition expiryCandidate (now : Z) (d : Shard) : option (uuid * ResRow) :=
  head (sortBy expiresBefore (filter (fun kr => overdue now d kr.2 = true) (map_to_list (resv d)))).

(** UPDATE seat_inventory ... for the seats of the reservation on the run and
    generation. *)
Definition releaseRouted (id run : uuid) (gen : Z) (d : Shard) : option (nat * Shard) :=
  releaseRows (filter (fun j => j.1.1.1.1 = run /\ j.1.1.1.2 = gen) (joined d id)) d.

Section Expiry.
Context {hashing : Hashing}.

Definition expiryEvidenceID (run : uuid) (shardName : string) : uuid := newSHA1 run ("target-write-evidence:" +:+ shardName).
Definition expiredPayload (id run : uuid) (gen : Z) (seats : nat) : list (string * Field) :=
  [("reservation_id"%string, FUuid id); ("train_run_id"%string, FUuid run); ("assignment_generation"%string, FInt gen);
   ("status"%string, FText "expired"); ("released_seat_count"%string, FInt (Z.of_nat seats))].

(** The transaction of expireOne: whether a hold was expired. *)
Definition expireOne (clk now : Z) (shardName : string) : SM WorkerErr bool :=
  d ← shard;
  match expiryCandidate now d with
  | None => mret false
  | Some (id, r) =>
      let seats := length (seatsOfReservation d id) in
      guardS (bool_decide (id = uuidNil) || bool_decide (rv_run r = uuidNil) || (rv_gen r <=? 0) || (seats =? 0)%nat) ErrExpirationStore ;;
      n ← counted ErrExpirationStore (releaseRouted id (rv_run r) (rv_gen r));
      guardS (negb (n =? seats)%nat) ErrExpirationStore ;;
      one ErrExpirationStore (updReservation id (fun r => resIn [Held] r && (rv_expires r <=? now)) (resTo Expired)) ;;
      one ErrExpirationStore (insEvent (newSHA1 id "reservation-expired")
            (mkEventRow (rv_run r) (rv_gen r) "reservation" id "reservation.expired" (expiredPayload id (rv_run r) (rv_gen r) seats))) ;;
      one ErrExpirationStore (insEvidence (expiryEvidenceID (rv_run r) shardName) (rv_run r) (rv_gen r) None clk) ;;
      mret true
  end.

(** The loop of Process, [limit] holds at most: the number expired, and the
    error that ended the pass. *)
Fixpoint expireLoop (limit : nat) (clk now : Z) (shardName : string) (d : Shard) : (nat * option WorkerErr) * Shard :=
  match limit with
  | O => ((O, None), d)
  | S limit' =>
      match expireOne clk now shardName d with
      | Err e => ((O, Some e), d)
      | Ok (false, d') => ((O, None), d')
      | Ok (true, d') => let '((n, e), d'') := expireLoop limit' clk now shardName d' in ((S n, e), d'')
      end
  end.
Definition ProcessExpirations (limit clk now : Z) (shardName : string) (fl : Fleet) : (nat * option WorkerErr) * Fleet :=
  match fl !! shardName with
  | None => ((O, Some ErrInvalidPostgresProcessor), fl)
  | Some d =>
      if (limit <? 1) || (maxWorkLimit <? limit) then ((O, Some ErrInvalidPostgresProcessor), fl) else
      let '(r, d') := expireLoop (Z.to_nat limit) clk now shardName d in (r, <[shardName := d']> fl)
  end.
End Expiry.
