(* ===== verification/ShardLogic.v ===== *)
(** * Physical shard: execution of transactions

    Inversion of the statements and transactions of [ShardDb]: what a
    statement that succeeds has checked and how it changes the tables.  The
    tactic [inv_S] decomposes a successful transaction into its statements. *)

From S2P Require Import Prelude Transaction SegmentMask Sharding PaymentDomain PaymentDb PaymentClaims BookingDb Occupancy ShardDb ShardBooking.
Import ShardTypes.

Lemma existsRow_true {K A} `{Countable K} (m : gmap K A) (p : K -> A -> bool) :
  existsRow m p = true <-> exists k x, m !! k = Some x /\ p k x = true.
Proof.
  unfold existsRow. rewrite existsb_elem. split.
  - intros ([k x] & Hin%elem_of_map_to_list & Hp). eauto.
  - intros (k & x & Hk & Hp). exists (k, x). by rewrite elem_of_map_to_list.
Qed.
Lemma existsRow_false {K A} `{Countable K} (m : gmap K A) (p : K -> A -> bool) :
  existsRow m p = false <-> forall k x, m !! k = Some x -> p k x = false.
Proof.
  rewrite <- not_true_iff_false, existsRow_true. split.
  - intros Hn k x Hk. destruct (p k x) eqn:E; [|done]. destruct Hn. eauto.
  - intros Hall (k & x & Hk & Hp). rewrite (Hall k x Hk) in Hp. done.
Qed.

(** Split boolean hypotheses into their conjuncts. *)
Ltac bsplit := repeat match goal with
  | H : _ && _ = true |- _ => apply andb_true_iff in H as [? ?]
  | H : _ || _ = false |- _ => apply orb_false_iff in H as [? ?]
  | H : negb _ = true |- _ => apply negb_true_iff in H
  | H : negb _ = false |- _ => apply negb_false_iff in H
  | H : bool_decide _ = true |- _ => apply bool_decide_eq_true in H
  | H : bool_decide _ = false |- _ => apply bool_decide_eq_false in H
  | H : (_ =? _)%Z = true |- _ => apply Z.eqb_eq in H
  | H : (_ =? _)%nat = true |- _ => apply Nat.eqb_eq in H
  | H : (_ =? _)%N = true |- _ => apply N.eqb_eq in H
  | H : existsRow _ _ = false |- _ => rewrite existsRow_false in H
  end.

(** ** Statements on the reservations *)
Lemma insReservation_Some k r d d' :
  insReservation k r d = Some d' -> resv d !! k = None /\ resCheck d r = true /\ d' = set_resv d (<[k := r]> (resv d)).
Proof.
  unfold insReservation. intros H. destruct (_ || _) eqn:E; [done|]. injection H as <-. bsplit.
  split; [by apply eq_None_not_Some|done].
Qed.
Lemma updReservation_Some k p f d d' :
  updReservation k p f d = Some d' ->
  exists r, resv d !! k = Some r /\ p r = true /\ resCheck d (f r) = true /\ resGuard r (f r) = true /\ d' = set_resv d (<[k := f r]> (resv d)).
Proof.
  unfold updReservation. destruct (resv d !! k) as [r|] eqn:E; [|done]. intros H. destruct (_ && _) eqn:Hb; [|done].
  injection H as <-. bsplit. eauto 6.
Qed.
Lemma insRSeat_Some k s d d' :
  insRSeat k s d = Some d' ->
  rseats d !! k = None /\
  (forall k' s', rseats d !! k' = Some s' -> st_reservation s' = st_reservation s -> st_seat s' <> st_seat s) /\
  (exists r, resv d !! st_reservation s = Some r /\ rv_run r = st_run s /\ rv_gen r = st_gen s /\ rv_segments r = st_segments s) /\
  d' = set_rseats d (<[k := s]> (rseats d)).
Proof.
  unfold insRSeat. intros H. destruct (_ || _) eqn:E; [done|]. bsplit.
  destruct (resv d !! st_reservation s) as [r|] eqn:Er; [|done].
  destruct (_ || _) eqn:E2 in H; [done|]. injection H as <-. bsplit. split_and!; try done.
  - by apply eq_None_not_Some.
  - intros k' s' Hk' Hr Hs. specialize (H1 k' s' Hk'). rewrite (bool_decide_true _ Hr), (bool_decide_true _ Hs) in H1. done.
  - exists r. done.
Qed.

(** ** Statements on orders and tickets *)
Lemma insOrder_Some k o d d' :
  insOrder k o d = Some d' ->
  orders d !! k = None /\ (forall k' o', orders d !! k' = Some o' -> od_reservation o' <> od_reservation o) /\ orderCheck o = true /\
  resMoney d (od_reservation o) (od_run o) (od_gen o) (od_total o) (od_currency o) (od_intent o) = true /\
  d' = set_orders d (<[k := o]> (orders d)).
Proof.
  unfold insOrder. intros H. destruct (_ || _) eqn:E; [done|]. injection H as <-. bsplit. split_and!; try done.
  - by apply eq_None_not_Some.
  - intros k' o' Hk' Heq. specialize (H3 k' o' Hk'). by rewrite bool_decide_true in H3.
Qed.
Lemma updOrder_Some k p f d d' :
  updOrder k p f d = Some d' ->
  exists o, orders d !! k = Some o /\ p o = true /\ orderCheck (f o) = true /\ d' = set_orders d (<[k := f o]> (orders d)).
Proof.
  unfold updOrder. destruct (orders d !! k) as [o|] eqn:E; [|done]. intros H. destruct (_ && _) eqn:Hb; [|done].
  injection H as <-. bsplit. eauto 6.
Qed.
Lemma insTicket_Some k t d d' :
  insTicket k t d = Some d' ->
  tix d !! k = None /\ (forall k' t', tix d !! k' = Some t' -> tk_seat t' <> tk_seat t) /\
  is_Some (orders d !! tk_order t) /\ is_Some (rseats d !! tk_seat t) /\ d' = set_tix d (<[k := t]> (tix d)).
Proof.
  unfold insTicket. intros H. destruct (_ || _) eqn:E; [done|]. bsplit.
  destruct (orders d !! tk_order t) eqn:Eo; [|done]. destruct (rseats d !! tk_seat t) eqn:Es; [|by rewrite orb_true_r in H].
  destruct (_ || _) eqn:E2 in H; [done|]. injection H as <-. split_and!; try done.
  - by apply eq_None_not_Some.
  - intros k' t' Hk' Heq. specialize (H1 k' t' Hk'). by rewrite (bool_decide_true _ Heq) in H1.
Qed.

(** ** Statements on the other tables *)
Lemma insPReceipt_Some k r d d' :
  insPReceipt k r d = Some d' ->
  preceipts d !! k = None /\ resMoney d (pc_reservation r) (pc_run r) (pc_gen r) (pc_amount r) (pc_currency r) (Some (pc_intent r)) = true /\
  d' = set_preceipts d (<[k := r]> (preceipts d)).
Proof.
  unfold insPReceipt. intros H. destruct (_ || _) eqn:E; [done|]. injection H as <-. bsplit. split_and!; try done. by apply eq_None_not_Some.
Qed.
Lemma closePReceipt_Some k resource result clk d d' :
  closePReceipt k resource result clk d = Some d' ->
  exists r, preceipts d !! k = Some r /\ pc_state r = PStarted /\
    d' = set_preceipts d (<[k := mkPReceipt (pc_id r) (pc_intent r) (pc_reservation r) (pc_run r) (pc_gen r) (pc_op r) (pc_fp r) (pc_amount r)
           (pc_currency r) (PSucceeded resource result clk)]> (preceipts d)).
Proof.
  unfold closePReceipt. destruct (preceipts d !! k) as [r|] eqn:E; [|done]. destruct (pc_state r) eqn:Es; try done. intros [= <-]. eauto.
Qed.
Lemma insBReceipt_Some k r d d' :
  insBReceipt k r d = Some d' -> breceipts d !! k = None /\ d' = set_breceipts d (<[k := r]> (breceipts d)).
Proof.
  unfold insBReceipt. intros H. destruct (_ || _) eqn:E; [done|]. injection H as <-. bsplit. split; [by apply eq_None_not_Some|done].
Qed.
Lemma closeBReceipt_Some k s d d' :
  closeBReceipt k s d = Some d' ->
  exists r, breceipts d !! k = Some r /\ bk_state r = BStarted /\
    d' = set_breceipts d (<[k := mkBReceipt (bk_id r) (bk_run r) (bk_gen r) (bk_type r) (bk_fp r) s]> (breceipts d)).
Proof.
  unfold closeBReceipt. destruct (breceipts d !! k) as [r|] eqn:E; [|done]. destruct (bk_state r) eqn:Es; try done. intros [= <-]. eauto.
Qed.
Lemma insIssuance_Some k r d d' : insIssuance k r d = Some d' -> issuances d !! k = None /\ d' = set_issuances d (<[k := r]> (issuances d)).
Proof.
  unfold insIssuance. intros H. destruct (_ || _) eqn:E; [done|]. injection H as <-. bsplit. split; [by apply eq_None_not_Some|done].
Qed.
Lemma insRefund_Some k r d d' : insRefund k r d = Some d' -> refunds d !! k = None /\ d' = set_refunds d (<[k := r]> (refunds d)).
Proof.
  unfold insRefund. intros H. destruct (_ || _) eqn:E; [done|]. injection H as <-. bsplit. split; [by apply eq_None_not_Some|done].
Qed.
Lemma insComp_Some k r d d' : insComp k r d = Some d' -> comps d !! k = None /\ d' = set_comps d (<[k := r]> (comps d)).
Proof.
  unfold insComp. intros H. destruct (_ || _) eqn:E; [done|]. injection H as <-. bsplit. split; [by apply eq_None_not_Some|done].
Qed.
Lemma insEvent_Some k e d d' : insEvent k e d = Some d' -> d' = set_outboxE d (<[k := e]> (outboxE d)).
Proof. unfold insEvent. intros H. destruct (_ || _); [done|]. by injection H as <-. Qed.
Lemma insEvidence_Some id run gen command clk d d' :
  insEvidence id run gen command clk d = Some d' -> exists v, d' = set_evidence d v.
Proof. unfold insEvidence. intros H. repeat case_match; simplify_eq; eauto. Qed.

(** Decompose a successful transaction. *)
Ltac inv_step H :=
  first
    [ let a := fresh "a" in let d := fresh "d" in let Hm := fresh "Hm" in
      apply sbind_Ok in H as (a & d & Hm & H); inv_S Hm
    | apply sret_Ok in H as [? ?]
    | apply raise_Ok in H as []
    | apply shard_Ok in H as [? ?]
    | apply one_Ok in H
    | apply counted_Ok in H
    | apply modify_Ok in H
    | apply guardS_Ok in H as [H ?]
    | apply reads_Ok in H as [H ?] ]
with inv_S H := repeat (cbv beta zeta in H; inv_step H); subst.
