(* ===== verification/ShardDurable.v ===== *)
(** * Physical shard: what transactions never take back

    The order [durable] on the tables of a shard: receipts that are closed,
    reservation seats, outbox events and the records of issuances, refunds and
    compensations stay as they are; orders and tickets keep their identity, and
    the amounts of an order only grow.  Every transaction of the model moves up
    this order, by the structure of its program. *)

From S2P Require Import Prelude Transaction SegmentMask Sharding PaymentDomain PaymentDb PaymentClaims PaymentFinalize PaymentControl PaymentWorker BookingDb ShardDb ShardBooking ShardPayment ShardExpiry ShardLogic.
Import ShardTypes.

(** ** The order *)
Record sameOrder (o o' : OrdRow) : Prop := {
  so_reservation : od_reservation o' = od_reservation o; so_user : od_user o' = od_user o; so_total : od_total o' = od_total o;
  so_currency : od_currency o' = od_currency o; so_intent : od_intent o' = od_intent o; so_created : od_created o' = od_created o;
  so_authorized : od_authorized o <= od_authorized o'; so_captured : od_captured o <= od_captured o'; so_refunded : od_refunded o <= od_refunded o' }.
Definition sameTicket (t t' : TixRow) : Prop := tk_order t' = tk_order t /\ tk_seat t' = tk_seat t /\ tk_code t' = tk_code t.
(** Every row is kept, up to a relation. *)
Definition keptRows {A} (R : A -> A -> Prop) (m m' : gmap uuid A) : Prop := forall k x, m !! k = Some x -> exists x', m' !! k = Some x' /\ R x x'.
(** A receipt keeps its command, and its outcome once it has one. *)
Definition closedB (r r' : BReceipt) : Prop := bk_fp r' = bk_fp r /\ (bk_state r <> BStarted -> r' = r).
Definition closedP (r r' : PReceipt) : Prop :=
  pc_intent r' = pc_intent r /\ pc_reservation r' = pc_reservation r /\ pc_op r' = pc_op r /\ pc_fp r' = pc_fp r /\ (pc_state r <> PStarted -> r' = r).

Record durable (d d' : Shard) : Prop := {
  du_fences : fences d' = fences d;
  du_seats : rseats d ⊆ rseats d';
  du_events : outboxE d ⊆ outboxE d';
  du_issuances : issuances d ⊆ issuances d';
  du_refunds : refunds d ⊆ refunds d';
  du_comps : comps d ⊆ comps d';
  du_booking : keptRows closedB (breceipts d) (breceipts d');
  du_payment : keptRows closedP (preceipts d) (preceipts d');
  du_orders : keptRows sameOrder (orders d) (orders d');
  du_tickets : keptRows sameTicket (tix d) (tix d') }.

#[export] Instance sameOrder_preorder : PreOrder sameOrder.
Proof. split; [intros o; by split|intros o1 o2 o3 [] []; split; congruence || lia]. Qed.
#[export] Instance sameTicket_preorder : PreOrder sameTicket.
Proof. split; [by intros t|intros t1 t2 t3 (? & ? & ?) (? & ? & ?); unfold sameTicket; split_and!; congruence]. Qed.
#[export] Instance closedB_preorder : PreOrder closedB.
Proof. split; [by intros r|]. intros r1 r2 r3 (? & H1) (? & H2). split; [congruence|]. intros Hc. specialize (H1 Hc) as ->. by apply H2. Qed.
#[export] Instance closedP_preorder : PreOrder closedP.
Proof.
  split; [by intros r|]. intros r1 r2 r3 (? & ? & ? & ? & Ha) (? & ? & ? & ? & Hb). unfold closedP. split_and!; try congruence.
  intros Hc. specialize (Ha Hc) as ->. by apply Hb.
Qed.
#[export] Instance keptRows_preorder {A} (R : A -> A -> Prop) `{!PreOrder R} : PreOrder (keptRows R).
Proof.
  split; [intros m k x Hk; exists x; split; [done|reflexivity]|]. intros m1 m2 m3 H1 H2 k x Hk.
  destruct (H1 k x Hk) as (y & Hy & ?). destruct (H2 k y Hy) as (z & Hz & ?). exists z. split; [done|by transitivity y].
Qed.
#[export] Instance durable_preorder : PreOrder durable.
Proof.
  split; [intros d; split; reflexivity|]. intros d1 d2 d3 [] []. split; try (etransitivity; eassumption).
Qed.

Lemma kept_insert_new {A} (R : A -> A -> Prop) `{!PreOrder R} (m : gmap uuid A) k x : m !! k = None -> keptRows R m (<[k := x]> m).
Proof. intros Hk j y Hj. exists y. rewrite lookup_insert_ne by congruence. split; [done|reflexivity]. Qed.
Lemma kept_update {A} (R : A -> A -> Prop) `{!PreOrder R} (m : gmap uuid A) k x x' : m !! k = Some x -> R x x' -> keptRows R m (<[k := x']> m).
Proof.
  intros Hk Hx j y Hj. destruct (decide (k = j)) as [<-|Hne].
  - exists x'. rewrite lookup_insert_eq. split; [done|congruence].
  - exists y. rewrite lookup_insert_ne by done. split; [done|reflexivity].
Qed.

(** ** Statements *)
Ltac dur := split; simpl; try reflexivity; try (by apply insert_subseteq); try (by eapply kept_insert_new; eauto with typeclass_instances).

Lemma durable_insReservation k r d d' : insReservation k r d = Some d' -> durable d d'.
Proof. intros (_ & _ & ->)%insReservation_Some. dur. Qed.
Lemma durable_updReservation k p f d d' : updReservation k p f d = Some d' -> durable d d'.
Proof. intros (r & _ & _ & _ & _ & ->)%updReservation_Some. dur. Qed.
Lemma durable_insRSeat k s d d' : insRSeat k s d = Some d' -> durable d d'.
Proof. intros (Hk & _ & _ & ->)%insRSeat_Some. dur. Qed.
Lemma durable_insOrder k o d d' : insOrder k o d = Some d' -> durable d d'.
Proof. intros (Hk & _ & _ & _ & ->)%insOrder_Some. dur. Qed.
Lemma durable_insOrderNothing k o d d' : insOrderNothing k o d = Some d' -> durable d d'.
Proof. unfold insOrderNothing. destruct (existsRow _ _); [by intros [= <-]|apply durable_insOrder]. Qed.
Lemma durable_insTicket k t d d' : insTicket k t d = Some d' -> durable d d'.
Proof. intros (Hk & _ & _ & _ & ->)%insTicket_Some. dur. Qed.
Lemma durable_insTicketNothing k t d d' : insTicketNothing k t d = Some d' -> durable d d'.
Proof. unfold insTicketNothing. destruct (existsRow _ _); [by intros [= <-]|apply durable_insTicket]. Qed.
Lemma durable_insPReceipt k r d d' : insPReceipt k r d = Some d' -> durable d d'.
Proof. intros (Hk & _ & ->)%insPReceipt_Some. dur. Qed.
Lemma durable_closePReceipt k a b clk d d' : closePReceipt k a b clk d = Some d' -> durable d d'.
Proof. intros (r & Hk & Hs & ->)%closePReceipt_Some. dur. eapply kept_update; [apply _|exact Hk|]. by split_and!. Qed.
Lemma durable_insBReceipt k r d d' : insBReceipt k r d = Some d' -> durable d d'.
Proof. intros (Hk & ->)%insBReceipt_Some. dur. Qed.
Lemma durable_closeBReceipt k s d d' : closeBReceipt k s d = Some d' -> durable d d'.
Proof. intros (r & Hk & Hs & ->)%closeBReceipt_Some. dur. eapply kept_update; [apply _|exact Hk|]. by split_and!. Qed.
Lemma durable_insIssuance k r d d' : insIssuance k r d = Some d' -> durable d d'.
Proof. intros (Hk & ->)%insIssuance_Some. dur. Qed.
Lemma durable_insRefund k r d d' : insRefund k r d = Some d' -> durable d d'.
Proof. intros (Hk & ->)%insRefund_Some. dur. Qed.
Lemma durable_insComp k r d d' : insComp k r d = Some d' -> durable d d'.
Proof. intros (Hk & ->)%insComp_Some. dur. Qed.
Lemma durable_insEvent k e d d' : insEvent k e d = Some d' -> durable d d'.
Proof.
  unfold insEvent. destruct (_ || _) eqn:Hb; [done|]. intros [= <-]. bsplit. dur.
  apply insert_subseteq. by apply eq_None_not_Some.
Qed.
Lemma durable_insEvidence id run gen command clk d d' : insEvidence id run gen command clk d = Some d' -> durable d d'.
Proof. intros (v & ->)%insEvidence_Some. dur. Qed.
(** An update that keeps the identity of the order. *)
Definition keepsOrder (f : OrdRow -> OrdRow) : Prop := forall o,
  od_reservation (f o) = od_reservation o /\ od_user (f o) = od_user o /\ od_total (f o) = od_total o /\ od_currency (f o) = od_currency o /\
  od_intent (f o) = od_intent o /\ od_created (f o) = od_created o.
Lemma durable_updOrder k p f d d' : keepsOrder f -> updOrder k p f d = Some d' -> durable d d'.
Proof.
  intros Hf. unfold updOrder. destruct (orders d !! k) as [o|] eqn:Ho; [|done]. intros H. destruct (_ && _) eqn:Hb; [|done]. injection H as <-.
  bsplit. dur. eapply kept_update; [apply _|exact Ho|]. unfold orderGuard in *. bsplit. destruct (Hf o) as (? & ? & ? & ? & ? & ?). split; try done; by apply Z.leb_le.
Qed.
Lemma keepsOrder_ordTo s : keepsOrder (ordTo s).
Proof. by intros o. Qed.
Lemma keepsOrder_ordCaptured s : keepsOrder (Store.ordCaptured s).
Proof. by intros o. Qed.
Lemma keepsOrder_ordRefunded : keepsOrder Store.ordRefunded.
Proof. by intros o. Qed.
Lemma durable_cancelOrderOf r d d' : cancelOrderOf r d = Some d' -> durable d d'.
Proof. unfold cancelOrderOf. destruct (orderOfReservation d r) as [[k o]|]; [|by intros [= <-]]. apply durable_updOrder, keepsOrder_ordTo. Qed.
Lemma durable_updTickets o from new d : durable d (updTickets o from new d).
Proof.
  dur. intros q t Hq. rewrite lookup_fmap, Hq. eexists. split; [done|]. unfold retix. by destruct (_ && _).
Qed.
Lemma durable_cancelTicketsOf r d : durable d (cancelTicketsOf r d).
Proof. unfold cancelTicketsOf. destruct (orderOfReservation d r) as [[k o]|]; [apply durable_updTickets|reflexivity]. Qed.
Lemma durable_releaseRows rows d n d' : releaseRows rows d = Some (n, d') -> durable d d'.
Proof. unfold releaseRows. destruct (existsb _ _); [done|]. intros [= _ <-]. dur. Qed.
Lemma durable_releaseSeats r d n d' : releaseSeats r d = Some (n, d') -> durable d d'.
Proof. apply durable_releaseRows. Qed.
Lemma durable_occupySeat run gen seat r mask d : durable d (occupySeat run gen seat r mask d).
Proof. dur. Qed.
Lemma durable_cancelSnapshot run gen d d' : cancelSnapshot run gen d = Some d' -> durable d d'.
Proof. unfold cancelSnapshot. intros H. repeat case_match; simplify_eq. dur. Qed.

Create HintDb durable.
#[export] Hint Resolve durable_insReservation durable_updReservation durable_insRSeat durable_insOrder durable_insOrderNothing durable_insTicket
  durable_insTicketNothing durable_insPReceipt durable_closePReceipt durable_insBReceipt durable_closeBReceipt durable_insIssuance durable_insRefund
  durable_insComp durable_insEvent durable_insEvidence durable_updOrder keepsOrder_ordTo keepsOrder_ordCaptured keepsOrder_ordRefunded durable_cancelOrderOf durable_updTickets durable_cancelTicketsOf durable_releaseRows durable_releaseSeats
  durable_occupySeat durable_cancelSnapshot : durable.

(** Follow the program; what is left are statements and loops. *)
Ltac follow := repeat first
  [ apply respects_ret; apply _ | apply respects_bind; [apply _| |intros ?] | apply respects_raise | apply respects_shard; apply _
  | apply respects_guard; apply _ | apply respects_reads; apply _
  | apply respects_one; eauto with durable; fail | apply respects_counted; eauto with durable; fail | apply respects_modify; eauto with durable; fail
  | assumption
  | match goal with |- respects _ (match ?x with _ => _ end) => destruct x end ].

(** ** Transactions *)
Section Transactions.
Context {hashing : Hashing}.

Lemma durable_recordTargetWrite route command clk d d' : recordTargetWrite route command clk d = Some d' -> durable d d'.
Proof. apply durable_insEvidence. Qed.
#[local] Hint Resolve durable_recordTargetWrite : durable.

Lemma durable_allocateSeats n run gen class segments mask : respects durable (allocateSeats n run gen class segments mask).
Proof. induction n as [|n IH]; simpl; follow. Qed.
Lemma durable_insertSeats c segments fare amount currency mask ps : respects durable (insertSeats c segments fare amount currency mask ps).
Proof. induction ps as [|[p seat] ps IH]; simpl; unfold ex1; follow. Qed.
Lemma durable_confirmTickets c held order seats : respects durable (confirmTickets c held order seats).
Proof. induction seats as [|seat seats IH]; simpl; unfold ex1; follow. Qed.
Lemma durable_issueLoop route c order plan : respects durable (Store.issueLoop route c order plan).
Proof. induction plan as [|[seat [id code]] plan IH]; simpl; unfold Store.px, Store.appendOutbox; follow. Qed.
Lemma durable_cancelledEvents route c order ts : respects durable (Store.cancelledEvents route c order ts).
Proof. induction ts as [|t ts IH]; simpl; unfold Store.appendOutbox, Store.px; follow. Qed.

Ltac program := follow; auto using durable_allocateSeats, durable_insertSeats, durable_confirmTickets, durable_issueLoop, durable_cancelledEvents.
Lemma durable_createMutation clk segments c : respects durable (createMutation clk segments c).
Proof. unfold createMutation, succeedReceipt, ex1. program. Qed.
Lemma durable_lifecycleMutation clk c : respects durable (lifecycleMutation clk c).
Proof.
  unfold lifecycleMutation, confirmReservation, cancelReservation, succeedReceipt, appendLifecycleEvent, ex1. program.
Qed.
Lemma durable_withSavepoint c m : respects durable m -> respects durable (withSavepoint c m).
Proof.
  intros Hm d a d' Hok. unfold withSavepoint in Hok. destruct (m d) as [[r d1]|e] eqn:E; [injection Hok as _ <-; by eapply Hm|].
  destruct (rejectionCode e); [|done]. destruct (closeBReceipt _ _ _) eqn:Ec; [|done]. injection Hok as _ <-. by eapply durable_closeBReceipt.
Qed.
Lemma durable_executeTx maxTTL now clk c write : respects durable (executeTx maxTTL now clk c write).
Proof.
  unfold executeTx, executeLifecycleTx, executeCreateTx, startReceipt, ex1. program;
    apply durable_withSavepoint; auto using durable_createMutation, durable_lifecycleMutation.
Qed.
Lemma durable_cancelTrainRunTx clk run rz : respects durable (cancelTrainRunTx clk run rz).
Proof. unfold cancelTrainRunTx, ex1. program. Qed.
Lemma durable_expireOne clk now name : respects durable (expireOne clk now name).
Proof. unfold expireOne, releaseRouted. program. Qed.
Lemma durable_beginTx clk route c : respects durable (Store.beginTx clk route c).
Proof. unfold Store.beginTx, Store.beginWrites, Store.startedReceipt, Store.px. program. Qed.
Lemma durable_issueTx clk route c ids codes : respects durable (Store.issueTx clk route c ids codes).
Proof. unfold Store.issueTx, Store.issueWrites, Store.startedReceipt, Store.appendOutbox, Store.unavailable, Store.px. program. Qed.
Lemma durable_markTx clk route c : respects durable (Store.markTx clk route c).
Proof. unfold Store.markTx, Store.markWrites, Store.startedReceipt, Store.appendOutbox, Store.unavailable, Store.px. program. Qed.
Lemma durable_compTx clk route c : respects durable (Store.compTx clk route c).
Proof. unfold Store.compTx, Store.compWrites, Store.startedReceipt, Store.appendOutbox, Store.unavailable, Store.px. program. Qed.
Lemma durable_voidTx clk route c : respects durable (Store.voidTx clk route c).
Proof. unfold Store.voidTx, Store.voidWrites, Store.startedReceipt, Store.appendOutbox, Store.unavailable, Store.px. program. Qed.
End Transactions.
