(* ===== verification/ShardInvariant.v ===== *)
(** * Physical shard: the invariant

    The tables of a physical shard after any interleaving of booking and
    payment commands: each inventory row is exactly the union of the masks of
    the active reservations on it, each reservation is paired with at most one
    order whose state fits its own, and tickets are in the state of their
    order, one per seat of a confirmed reservation. *)

From S2P Require Import Prelude Transaction SegmentMask BookingDomain Sharding PaymentDomain PaymentDb PaymentClaims BookingDb Occupancy ShardDb ShardBooking ShardLogic.
Import ShardTypes.

(** ** The invariant *)

(** The statuses that hold seats. *)
Definition holding (s : RStatus) : bool := match s with Expired | Cancelled => false | _ => true end.
Definition claimOf (rs : gmap uuid ResRow) (s : RSeatRow) : option ((uuid * Z * uuid) * varbit) :=
  match rs !! st_reservation s with
  | Some r => if holding (rv_status r) then Some ((st_run s, st_gen s, st_seat s), st_mask s) else None
  | None => None
  end.
Definition claimsOf (rs : gmap uuid ResRow) (seats : gmap uuid RSeatRow) : list ((uuid * Z * uuid) * varbit) :=
  omap (fun ks => claimOf rs ks.2) (map_to_list seats).
Definition occupied (d : Shard) : gmap (uuid * Z * uuid) varbit := iv_occupied <$> inv d.

(** The reservation states an order of a given state goes with. *)
Definition paired (o : OStatus) (r : RStatus) : bool :=
  match o with
  | OConfirmed | OIssued => bool_decide (r = Confirmed)
  | OPaymentPending | OPaymentAuthorized | OPaymentCaptured | OIssuancePending | OManualReview =>
      bool_decide (r = PaymentPending) || bool_decide (r = PaymentReview)
  | ORefundPending => bool_decide (r = RefundPending)
  | ORefunded | OCancelled => bool_decide (r = Cancelled)
  end.
(** The state of the tickets of an order; before issuance it has none. *)
Definition ticketsAre (o : OStatus) : option TStatus :=
  match o with
  | OConfirmed | OIssued => Some TActive
  | ORefundPending => Some TRefundPending
  | ORefunded | OCancelled => Some TCancelled
  | _ => None
  end.
Definition issuedStatus (o : OStatus) : bool := match o with OConfirmed | OIssued => true | _ => false end.
(** The statuses of a reservation that has an order. *)
Definition needsOrder (r : RStatus) : bool :=
  match r with PaymentPending | PaymentReview | Confirmed | RefundPending => true | _ => false end.

Record orderFits (o : OrdRow) (r : ResRow) : Prop := {
  of_user : od_user o = rv_user r;
  of_total : od_total o = rv_total r;
  of_currency : od_currency o = rv_currency r;
  of_intent : od_intent o = intentOf r;
  of_status : paired (od_status o) (rv_status r) = true;
  of_check : orderCheck o = true }.

Record ShInv (d : Shard) : Prop := {
  in_exact : exact (occupied d) (claimsOf (resv d) (rseats d));
  in_seats : forall k s, rseats d !! k = Some s ->
    exists r, resv d !! st_reservation s = Some r /\ rv_run r = st_run s /\ rv_gen r = st_gen s;
  in_unique : forall k k' s s', rseats d !! k = Some s -> rseats d !! k' = Some s' ->
    st_reservation s = st_reservation s' -> st_seat s = st_seat s' -> k = k';
  in_orders : forall k o, orders d !! k = Some o -> exists r, resv d !! od_reservation o = Some r /\ orderFits o r;
  in_order1 : forall k k' o o', orders d !! k = Some o -> orders d !! k' = Some o' -> od_reservation o = od_reservation o' -> k = k';
  in_ordered : forall k r, resv d !! k = Some r -> needsOrder (rv_status r) = true ->
    exists j o, orders d !! j = Some o /\ od_reservation o = k;
  in_tickets : forall k t, tix d !! k = Some t ->
    exists o s, orders d !! tk_order t = Some o /\ rseats d !! tk_seat t = Some s /\ st_reservation s = od_reservation o /\
      ticketsAre (od_status o) = Some (tk_status t);
  in_ticket1 : forall k k' t t', tix d !! k = Some t -> tix d !! k' = Some t' -> tk_seat t = tk_seat t' -> k = k';
  in_full : forall k o q s, orders d !! k = Some o -> issuedStatus (od_status o) = true -> rseats d !! q = Some s ->
    st_reservation s = od_reservation o -> exists j t, tix d !! j = Some t /\ tk_seat t = q /\ tk_order t = k }.

(** Only these tables matter. *)
Definition core (d : Shard) := (inv d, resv d, rseats d, orders d, tix d).
Lemma ShInv_core d d' : core d' = core d -> ShInv d -> ShInv d'.
Proof.
  unfold core. intros [= Hi Hr Hs Ho Ht] []. split; unfold occupied in *; rewrite ?Hi, ?Hr, ?Hs, ?Ho, ?Ht; assumption.
Qed.

(** ** Orders and tickets of a reservation *)
Lemma orderOfReservation_Some d k j o :
  orderOfReservation d k = Some (j, o) -> orders d !! j = Some o /\ od_reservation o = k.
Proof.
  unfold orderOfReservation. intros H%head_Some_elem_of. apply list_elem_of_filter in H as [Hr H%elem_of_map_to_list]. done.
Qed.
Lemma orderOfReservation_None d k j o : orderOfReservation d k = None -> orders d !! j = Some o -> od_reservation o <> k.
Proof.
  unfold orderOfReservation. intros H Ho Hr.
  assert (Hin : (j, o) ∈ filter (fun kr : uuid * OrdRow => od_reservation kr.2 = k) (map_to_list (orders d)))
    by (apply list_elem_of_filter; split; [done|by apply elem_of_map_to_list]).
  destruct (filter _ _); [by apply not_elem_of_nil in Hin|done].
Qed.
Lemma elem_of_seatsOf d k q s : (q, s) ∈ seatsOfReservation d k <-> rseats d !! q = Some s /\ st_reservation s = k.
Proof.
  unfold seatsOfReservation, byId. rewrite elem_of_sortBy, list_elem_of_filter, elem_of_map_to_list. simpl. naive_solver.
Qed.

(** A reservation without an order: held, or unpaid and cancelled or expired. *)
Lemma held_no_order d k r j o :
  ShInv d -> resv d !! k = Some r -> rv_status r = Held -> orders d !! j = Some o -> od_reservation o <> k.
Proof.
  intros Hi Hr Hs Ho Heq. destruct (in_orders _ Hi j o Ho) as (r' & Hr' & Hf). rewrite Heq in Hr'.
  assert (r' = r) as -> by congruence. destruct Hf as [_ _ _ _ Hp _]. rewrite Hs in Hp. by destruct (od_status o).
Qed.

(** ** Changing the status of a reservation *)

Lemma omap_ext_in {A B} (f g : A -> option B) (l : list A) : (forall x, x ∈ l -> f x = g x) -> omap f l = omap g l.
Proof.
  induction l as [|x l IH]; intros H; [done|]. simpl. rewrite (H x) by (by left).
  destruct (g x); [f_equal|]; apply IH; intros; apply H; by right.
Qed.

(** Claims depend on whether the reservations hold. *)
Lemma claimsOf_restatus rs seats k r r' :
  rs !! k = Some r -> holding (rv_status r') = holding (rv_status r) -> claimsOf (<[k := r']> rs) seats = claimsOf rs seats.
Proof.
  intros Hk Hh. unfold claimsOf. apply omap_ext_in. intros [q s] _. unfold claimOf. simpl.
  destruct (decide (st_reservation s = k)) as [->|Hne].
  - by rewrite lookup_insert_eq, Hk, Hh.
  - by rewrite lookup_insert_ne.
Qed.

Section Restatus.
Context (d d' : Shard) (k : uuid) (r r' : ResRow).
Hypothesis (Hinv : ShInv d) (Hr : resv d !! k = Some r) (Hresv : resv d' = <[k := r']> (resv d)).
Hypothesis (Hseats : rseats d' = rseats d).
Hypothesis (Hrun : rv_run r' = rv_run r) (Hgen : rv_gen r' = rv_gen r).
Hypothesis (Hexact : exact (occupied d') (claimsOf (resv d') (rseats d'))).

Lemma restatus_seats q s : rseats d' !! q = Some s ->
  exists r0, resv d' !! st_reservation s = Some r0 /\ rv_run r0 = st_run s /\ rv_gen r0 = st_gen s.
Proof.
  rewrite Hseats, Hresv. intros Hq. destruct (in_seats _ Hinv q s Hq) as (r0 & H0 & H1 & H2).
  destruct (decide (st_reservation s = k)) as [He|Hne].
  - exists r'. rewrite He in *. rewrite lookup_insert_eq. assert (r0 = r) as -> by congruence. split; [done|]. by rewrite Hrun, Hgen.
  - exists r0. by rewrite lookup_insert_ne.
Qed.

(** Without an order, before or after. *)
Lemma ShInv_solo :
  orders d' = orders d -> tix d' = tix d -> (forall j o, orders d !! j = Some o -> od_reservation o <> k) ->
  needsOrder (rv_status r') = false -> ShInv d'.
Proof.
  intros Ho Ht Hno Hneed. destruct Hinv as [_ _ Hu Hor Ho1 Hod Htk Ht1 Hfull]. split.
  - done.
  - exact restatus_seats.
  - rewrite Hseats. exact Hu.
  - intros j o Hj. rewrite Ho in Hj. destruct (Hor j o Hj) as (r0 & H0 & Hf). exists r0. rewrite Hresv, lookup_insert_ne; [done|].
    intros He. by apply (Hno j o).
  - rewrite Ho. exact Ho1.
  - intros k0 r0. rewrite Hresv, Ho. destruct (decide (k = k0)) as [<-|Hne].
    + rewrite lookup_insert_eq. intros [= <-]. congruence.
    + rewrite lookup_insert_ne by done. apply Hod.
  - rewrite Ht, Ho, Hseats. exact Htk.
  - rewrite Ht. exact Ht1.
  - rewrite Ht, Ho, Hseats. exact Hfull.
Qed.

(** With the order [j], new or already there. *)
Lemma ShInv_ordered j o' :
  orders d' = <[j := o']> (orders d) -> od_reservation o' = k -> orderFits o' r' ->
  (forall i o, orders d !! i = Some o -> od_reservation o = k -> i = j) ->
  (forall o, orders d !! j = Some o -> od_reservation o = k) ->
  (forall q t, tk_order t <> j -> tix d' !! q = Some t <-> tix d !! q = Some t) ->
  (forall q t, tix d' !! q = Some t -> tk_order t = j ->
     ticketsAre (od_status o') = Some (tk_status t) /\ exists s, rseats d !! tk_seat t = Some s /\ st_reservation s = k) ->
  (forall q q' t t', tix d' !! q = Some t -> tix d' !! q' = Some t' -> tk_seat t = tk_seat t' -> q = q') ->
  (issuedStatus (od_status o') = true -> forall q s, rseats d !! q = Some s -> st_reservation s = k ->
     exists i t, tix d' !! i = Some t /\ tk_seat t = q /\ tk_order t = j) ->
  ShInv d'.
Proof.
  intros Ho Hres Hfit Honly Hwas Hother Hmine Hone Hfull'. destruct Hinv as [_ _ Hu Hor Ho1 Hod Htk Ht1 Hfull]. split.
  - done.
  - exact restatus_seats.
  - rewrite Hseats. exact Hu.
  - intros i o. rewrite Ho, Hresv. destruct (decide (j = i)) as [<-|Hne].
    + rewrite lookup_insert_eq. intros [= <-]. exists r'. by rewrite Hres, lookup_insert_eq.
    + rewrite lookup_insert_ne by done. intros Hi. destruct (Hor i o Hi) as (r0 & H0 & Hf). exists r0.
      rewrite lookup_insert_ne; [done|]. intros He. by apply Hne; symmetry; apply (Honly i o).
  - intros i i' o o2. rewrite Ho. destruct (decide (j = i)) as [<-|Hne], (decide (j = i')) as [<-|Hne']; [done| | |].
    + rewrite lookup_insert_eq, lookup_insert_ne by done. intros [= <-] Hi' He. destruct Hne'. symmetry. apply (Honly i' o2); congruence.
    + rewrite lookup_insert_eq, lookup_insert_ne by done. intros Hi [= <-] He. destruct Hne. symmetry. apply (Honly i o); congruence.
    + rewrite !lookup_insert_ne by done. apply Ho1.
  - intros k0 r0. rewrite Hresv, Ho. destruct (decide (k = k0)) as [<-|Hne].
    + intros _ _. exists j, o'. by rewrite lookup_insert_eq.
    + rewrite lookup_insert_ne by done. intros H0 Hn. destruct (Hod k0 r0 H0 Hn) as (i & o & Hi & He). exists i, o.
      rewrite lookup_insert_ne; [done|]. intros Hji. apply Hne. rewrite <- He. symmetry. apply Hwas. congruence.
  - intros q t Hq. rewrite Ho, Hseats. destruct (decide (tk_order t = j)) as [He|Hne].
    + destruct (Hmine q t Hq He) as (Hst & s & Hs & Hrs). exists o', s. rewrite He, lookup_insert_eq. split_and!; congruence.
    + apply Hother in Hq; [|done]. destruct (Htk q t Hq) as (o & s & Hto & Hts & Hrs & Hst). exists o, s. by rewrite lookup_insert_ne.
  - exact Hone.
  - intros i o q s. rewrite Ho, Hseats. destruct (decide (j = i)) as [<-|Hne].
    + rewrite lookup_insert_eq. intros [= <-] Hi Hq Hs. apply (Hfull' Hi q s); congruence.
    + rewrite lookup_insert_ne by done. intros Hi His Hq Hs. destruct (Hfull i o q s Hi His Hq Hs) as (p & t & Hp & Hps & Hpo).
      exists p, t. split; [|done]. apply Hother; congruence.
Qed.
End Restatus.

(** ** Releasing the seats of a reservation *)
Lemma omap_split {A B} (f f' : A -> option B) (g : A -> B) (P : A -> Prop) `{!forall x, Decision (P x)} (l : list A) :
  (forall x, x ∈ l -> P x -> f x = Some (g x) /\ f' x = None) -> (forall x, x ∈ l -> ~ P x -> f x = f' x) ->
  omap f l ≡ₚ map g (filter P l) ++ omap f' l.
Proof.
  induction l as [|x l IH]; intros Hp Hn; [done|].
  assert (IH' : omap f l ≡ₚ map g (filter P l) ++ omap f' l) by (apply IH; intros; [apply Hp|apply Hn]; by try right).
  rewrite filter_cons. destruct (decide (P x)) as [Hx|Hx]; simpl.
  - destruct (Hp x) as [-> ->]; [by left|done|]. simpl. by rewrite <- IH'.
  - rewrite (Hn x) by (by left || done). destruct (f' x); [|exact IH'].
    rewrite <- Permutation_middle. constructor. exact IH'.
Qed.

Definition seatKey (s : RSeatRow) : uuid * Z * uuid := (st_run s, st_gen s, st_seat s).
Lemma claims_release (rs : gmap uuid ResRow) d k r r' :
  rs !! k = Some r -> holding (rv_status r) = true -> holding (rv_status r') = false ->
  claimsOf rs (rseats d) ≡ₚ map (fun ks => (seatKey ks.2, st_mask ks.2)) (seatsOfReservation d k) ++ claimsOf (<[k := r']> rs) (rseats d).
Proof.
  intros Hk Hh Hh'. unfold seatsOfReservation, byId.
  rewrite (Permutation_map _ (sortBy_Permutation (fun a b => (a.1 <=? b.1)%N) (filter (fun kr : uuid * RSeatRow => st_reservation kr.2 = k) (map_to_list (rseats d))))).
  apply (omap_split _ _ (fun ks => (seatKey ks.2, st_mask ks.2)) (fun kr : uuid * RSeatRow => st_reservation kr.2 = k)); intros [q s] _ HP;
    unfold claimOf; simpl in *.
  - by rewrite HP, Hk, lookup_insert_eq, Hh, Hh'.
  - by rewrite lookup_insert_ne.
Qed.

Lemma freeRow_other rows m key : key ∉ map (fun j => j.1.1) rows -> foldr freeRow m rows !! key = m !! key.
Proof.
  induction rows as [|j rows IH]; [done|]. simpl. intros [Hne Hin]%not_elem_of_cons. unfold freeRow at 1.
  rewrite lookup_insert_ne by done. by apply IH.
Qed.

Lemma free_exact rows m rest :
  NoDup (map (fun j => j.1.1) rows) -> (forall j, j ∈ rows -> m !! j.1.1 = Some j.1.2) ->
  exact (iv_occupied <$> m) (map (fun j => (j.1.1, j.2)) rows ++ rest) -> exact (iv_occupied <$> foldr freeRow m rows) rest.
Proof.
  revert rest. induction rows as [|j rows IH]; intros rest Hn Hm He; [done|].
  simpl in Hn. apply NoDup_cons in Hn as [Hj Hn].
  assert (He' : exact (iv_occupied <$> foldr freeRow m rows) ((j.1.1, j.2) :: rest)).
  { apply IH; [done|intros; apply Hm; by right|]. eapply exact_perm; [|exact He]. simpl. by rewrite <- Permutation_middle. }
  simpl. unfold freeRow at 1. rewrite fmap_insert. eapply exact_release in He'; [exact He'|].
  rewrite lookup_fmap, freeRow_other by done. by rewrite Hm by (by left).
Qed.

Lemma omap_full_map {A B} (f : A -> option B) (g : A -> B) (l : list A) : (forall x, x ∈ l -> f x = Some (g x)) -> omap f l = map g l.
Proof.
  induction l as [|x l IH]; intros H; [done|]. simpl. rewrite (H x) by (by left). f_equal. apply IH. intros. apply H. by right.
Qed.
Lemma filter_same_length {A} (P : A -> Prop) `{!forall x, Decision (P x)} (l : list A) : length (filter P l) = length l -> filter P l = l.
Proof.
  induction l as [|x l IH]; [done|]. rewrite filter_cons. case_decide; simpl; intros Hl.
  - f_equal. apply IH. lia.
  - pose proof (length_filter P l). lia.
Qed.

Section Release.
Context (rs : gmap uuid ResRow) (d d1 : Shard) (k : uuid) (r r' : ResRow) (n : nat).
Hypothesis (Hexact : exact (iv_occupied <$> inv d) (claimsOf rs (rseats d))) (Hk : rs !! k = Some r).
Hypothesis (Hh : holding (rv_status r) = true) (Hh' : holding (rv_status r') = false).
Hypothesis (Huniq : forall q q' s s', rseats d !! q = Some s -> rseats d !! q' = Some s' ->
  st_reservation s = st_reservation s' -> st_seat s = st_seat s' -> q = q').
Hypothesis (Hrel : releaseSeats k d = Some (n, d1)) (Hn : n = length (seatsOfReservation d k)).

Lemma release_rows ks : ks ∈ seatsOfReservation d k -> exists iv, inv d !! seatKey ks.2 = Some iv.
Proof.
  destruct ks as [q s]. intros Hin. simpl.
  destruct (ex_claims _ _ Hexact (seatKey s, st_mask s)) as (v & Hv & _).
  - rewrite (claims_release rs d k r r') by done. apply elem_of_app. left. apply list_elem_of_fmap. by exists (q, s).
  - simpl in Hv. rewrite lookup_fmap in Hv. destruct (inv d !! seatKey s); [eauto|done].
Qed.

Lemma seats_NoDup : NoDup (map (fun ks => seatKey ks.2) (seatsOfReservation d k)).
Proof.
  unfold seatsOfReservation, byId. rewrite (Permutation_map _ (sortBy_Permutation _ _)).
  assert (Hno : NoDup (filter (fun kr : uuid * RSeatRow => st_reservation kr.2 = k) (map_to_list (rseats d)))) by apply NoDup_filter, NoDup_map_to_list.
  apply (NoDup_fmap_2_strong (fun ks : uuid * RSeatRow => seatKey ks.2)); [|done].
  intros [q s] [q' s'] H1 H2 [= _ _ Hseat]. apply list_elem_of_filter in H1 as [Hr1 H1%elem_of_map_to_list], H2 as [Hr2 H2%elem_of_map_to_list].
  simpl in *. assert (q = q') as <- by (eapply Huniq; eauto; congruence). congruence.
Qed.

Lemma releaseSeats_exact :
  exists v, d1 = set_inv d v /\ exact (iv_occupied <$> v) (claimsOf (<[k := r']> rs) (rseats d)).
Proof.
  unfold releaseSeats, releaseRows in Hrel. destruct (existsb _ _) eqn:Hb; [done|]. injection Hrel as Hlen <-.
  set (dflt := fun ks : uuid * RSeatRow => default (mkInvRow 0 "" [] 0) (inv d !! seatKey ks.2)).
  assert (Hj : joined d k = map (fun ks => (seatKey ks.2, dflt ks, st_mask ks.2)) (seatsOfReservation d k)).
  { unfold joined. apply omap_full_map. intros ks Hin. destruct (release_rows ks Hin) as (iv & Hiv).
    unfold dflt, seatKey in *. by rewrite Hiv. }
  eexists. split; [done|].
  rewrite filter_same_length by (rewrite Hlen, Hn, Hj; by rewrite length_map).
  rewrite Hj. apply free_exact.
  - rewrite map_map. exact seats_NoDup.
  - intros j Hin. apply list_elem_of_fmap in Hin as (ks & -> & Hin). simpl. destruct (release_rows ks Hin) as (iv & Hiv). unfold dflt. by rewrite Hiv.
  - rewrite map_map. simpl. eapply exact_perm; [|exact Hexact]. by apply claims_release with (r := r).
Qed.
End Release.

(** ** Allocating seats *)
Lemma nextSeat_Some run gen class segments mask d seat r :
  nextSeat run gen class segments mask d = Some (seat, r) ->
  inv d !! (run, gen, seat) = Some r /\ Z.of_nat (length (iv_occupied r)) = segments /\
  varbit_and (iv_occupied r) mask = replicate (Z.to_nat segments) false.
Proof.
  unfold nextSeat. destruct (head _) as [[[x c] r']|] eqn:E; [|done]. intros [= -> ->].
  apply head_Some_elem_of in E. rewrite elem_of_sortBy in E. apply list_elem_of_omap in E as ([[[run' gen'] seat'] r0] & Hin%elem_of_map_to_list & Hc).
  unfold seatCandidate in Hc. destruct (_ && _) eqn:Hb; [|done]. bsplit. subst.
  destruct (catalog d !! _) as [ct|]; [|done]. destruct (ct_active ct); [|done]. injection Hc as <- _ <-. done.
Qed.

Definition newClaims (run : uuid) (gen : Z) (mask : varbit) (seats : list uuid) : list ((uuid * Z * uuid) * varbit) :=
  map (fun seat => ((run, gen, seat), mask)) seats.

Lemma allocateSeats_exact n run gen class segments mask d seats d' l :
  allocateSeats n run gen class segments mask d = Ok (seats, d') -> Z.of_nat (length mask) = segments -> exact (occupied d) l ->
  length seats = n /\ exact (occupied d') (newClaims run gen mask seats ++ l) /\ d' = set_inv d (inv d').
Proof.
  revert d seats d' l. induction n as [|n IH]; intros d seats d' l Hok <- He; simpl in Hok.
  { apply sret_Ok in Hok as [<- <-]. split; [done|]. split; [done|]. by destruct d. }
  inv_S Hok. destruct (nextSeat run gen class (Z.of_nat (length mask)) mask d0) as [[seat r]|] eqn:Hs; [|by apply raise_Ok in Hok].
  destruct (bool_decide (seat = uuidNil)); [by apply raise_Ok in Hok|]. inv_S Hok.
  apply nextSeat_Some in Hs as (Hi & Hl & Hd).
  match goal with H : allocateSeats _ _ _ _ _ _ _ = Ok _ |- _ => rename H into Hrec end.
  eapply (IH _ _ _ (((run, gen, seat), mask) :: l)) in Hrec as (Hlen & Hex & Hd'); [|done|].
  - split; [simpl; lia|]. split.
    + eapply exact_perm; [|exact Hex]. simpl. by rewrite <- Permutation_middle.
    + rewrite Hd'. unfold set_inv, occupySeat. simpl. done.
  - unfold occupySeat, occupied. simpl. rewrite fmap_insert. simpl. apply exact_occupy; [done| |lia|].
    + rewrite lookup_fmap. by rewrite Hi.
    + rewrite Hd. f_equal. lia.
Qed.

(** ** Statements outside the five tables of the invariant *)
Lemma keep_insPReceipt k r d d' : insPReceipt k r d = Some d' -> core d' = core d.
Proof. intros (_ & _ & ->)%insPReceipt_Some. done. Qed.
Lemma keep_closePReceipt k a b clk d d' : closePReceipt k a b clk d = Some d' -> core d' = core d.
Proof. intros (? & _ & _ & ->)%closePReceipt_Some. done. Qed.
Lemma keep_insIssuance k r d d' : insIssuance k r d = Some d' -> core d' = core d.
Proof. intros (_ & ->)%insIssuance_Some. done. Qed.
Lemma keep_insRefund k r d d' : insRefund k r d = Some d' -> core d' = core d.
Proof. intros (_ & ->)%insRefund_Some. done. Qed.
Lemma keep_insComp k r d d' : insComp k r d = Some d' -> core d' = core d.
Proof. intros (_ & ->)%insComp_Some. done. Qed.
Lemma keep_insEvent k e d d' : insEvent k e d = Some d' -> core d' = core d.
Proof. intros ->%insEvent_Some. done. Qed.
Lemma keep_recordTargetWrite {hashing : Hashing} route command clk d d' : recordTargetWrite route command clk d = Some d' -> core d' = core d.
Proof. unfold recordTargetWrite. intros (v & ->)%insEvidence_Some. done. Qed.
Lemma keep_insBReceipt k r d d' : insBReceipt k r d = Some d' -> core d' = core d.
Proof. intros (_ & ->)%insBReceipt_Some. done. Qed.
Lemma keep_closeBReceipt k r d d' : closeBReceipt k r d = Some d' -> core d' = core d.
Proof. intros (? & _ & _ & ->)%closeBReceipt_Some. done. Qed.

Ltac keep := repeat match goal with
  | H : insPReceipt _ _ _ = Some _ |- _ => apply keep_insPReceipt in H
  | H : closePReceipt _ _ _ _ _ = Some _ |- _ => apply keep_closePReceipt in H
  | H : insBReceipt _ _ _ = Some _ |- _ => apply keep_insBReceipt in H
  | H : closeBReceipt _ _ _ = Some _ |- _ => apply keep_closeBReceipt in H
  | H : insIssuance _ _ _ = Some _ |- _ => apply keep_insIssuance in H
  | H : insRefund _ _ _ = Some _ |- _ => apply keep_insRefund in H
  | H : insComp _ _ _ = Some _ |- _ => apply keep_insComp in H
  | H : insEvent _ _ _ = Some _ |- _ => apply keep_insEvent in H
  | H : recordTargetWrite _ _ _ _ = Some _ |- _ => apply keep_recordTargetWrite in H
  end.

(** ** What a transaction does to the reservations *)
Definition toDomain (s : RStatus) : ReservationModel.ReservationStatus :=
  match s with
  | Held => ReservationModel.Held | PaymentPending => ReservationModel.PaymentPending | PaymentReview => ReservationModel.PaymentReview
  | Confirmed => ReservationModel.Confirmed | RefundPending => ReservationModel.RefundPending | Expired => ReservationModel.Expired
  | Cancelled => ReservationModel.Cancelled
  end.
(** The edges of the domain's lifecycle at an instant, and the three of the
    payment commands that it does not have. *)
Definition extraEdges : list (RStatus * RStatus) := [(PaymentPending, RefundPending); (PaymentPending, Cancelled); (PaymentReview, Cancelled)].
Definition shardEdge (t exp : Z) (s s' : RStatus) : Prop :=
  ReservationModel.edge t exp (toDomain s) (toDomain s') \/ (s, s') ∈ extraEdges.

(** The fence of the reservation's run is open in its generation. *)
Definition openFor (d : Shard) (r : ResRow) : Prop :=
  exists f, fences d !! rv_run r = Some f /\ fenceOpen f = true /\ wf_gen f = rv_gen r.
(** Who changes the reservation: the payment of a reservation is set when a
    hold enters payment and after that only payment commands change it. *)
Inductive Actor := ByBooking | ByPayment.
Record moves (by_ : Actor) (t : Z) (r r' : ResRow) : Prop := {
  mv_edge : shardEdge t (rv_expires r) (rv_status r) (rv_status r');
  mv_row : r' = mkResRow (rv_user r) (rv_run r) (rv_gen r) (rv_segments r) (rv_from r) (rv_to r) (rv_class r) (rv_status r') (rv_expires r)
             (rv_total r) (rv_currency r) (rv_created r) (rv_payment r');
  mv_payment : match by_ with
               | ByBooking => rv_payment r = None /\ rv_payment r' = None
               | ByPayment => is_Some (rv_payment r') /\ (is_Some (rv_payment r) -> rv_payment r' = rv_payment r)
               end }.

Inductive effect (by_ : Actor) (t : Z) (d d' : Shard) : Prop :=
| eff_none : resv d' = resv d -> effect by_ t d d'
| eff_new k r : by_ = ByBooking -> resv d !! k = None -> rv_status r = Held -> rv_payment r = None -> openFor d r ->
    resv d' = <[k := r]> (resv d) -> effect by_ t d d'
| eff_move k r r' : resv d !! k = Some r -> openFor d r -> moves by_ t r r' -> resv d' = <[k := r']> (resv d) -> effect by_ t d d'.

(** The invariant holds after, and one reservation was written. *)
Definition wrote (d d' : Shard) (k : uuid) (r' : ResRow) : Prop := ShInv d' /\ resv d' = <[k := r']> (resv d).
Lemma wrote_core d d1 d2 k r : core d2 = core d1 -> wrote d d1 k r -> wrote d d2 k r.
Proof. intros Hc [Hi Hr]. split; [by apply (ShInv_core d1)|]. injection Hc as _ -> _ _ _. done. Qed.
Lemma wrote_from d d1 d2 k r : core d1 = core d -> wrote d1 d2 k r -> wrote d d2 k r.
Proof. intros Hc [Hi Hr]. split; [done|]. injection Hc as _ Hc _ _ _. by rewrite Hr, Hc. Qed.
