(* ===== verification/ShardSafety.v ===== *)
(** * Physical shard: every transaction keeps the invariant

    Each booking and payment transaction of a shard, committed with a result
    or with a durable rejection, keeps [ShInv]; so does every history of calls
    to the executor and the payment gateway over a fleet of shards. *)

From S2P Require Import Prelude Transaction SegmentMask Sharding PaymentDomain PaymentDb PaymentClaims PaymentFinalize PaymentControl PaymentWorker BookingDb Occupancy ShardDb ShardBooking ShardPayment ShardLogic ShardInvariant.
Import ShardTypes.

(** Replace the state after a statement by the tables it set. *)
Ltac stmts := repeat match goal with
  | H : insPReceipt _ _ _ = Some _ |- _ => apply insPReceipt_Some in H as (? & ? & ->)
  | H : closePReceipt _ _ _ _ _ = Some _ |- _ => apply closePReceipt_Some in H as (? & ? & ? & ->)
  | H : insBReceipt _ _ _ = Some _ |- _ => apply insBReceipt_Some in H as (? & ->)
  | H : closeBReceipt _ _ _ = Some _ |- _ => apply closeBReceipt_Some in H as (? & ? & ? & ->)
  | H : insIssuance _ _ _ = Some _ |- _ => apply insIssuance_Some in H as (? & ->)
  | H : insRefund _ _ _ = Some _ |- _ => apply insRefund_Some in H as (? & ->)
  | H : insComp _ _ _ = Some _ |- _ => apply insComp_Some in H as (? & ->)
  | H : insEvent _ _ _ = Some _ |- _ => apply insEvent_Some in H as ->
  | H : insEvidence _ _ _ _ _ _ = Some _ |- _ => apply insEvidence_Some in H as (? & ->)
  | H : recordTargetWrite _ _ _ _ = Some _ |- _ => unfold recordTargetWrite in H
  end.

Section Safety.
Context {hashing : Hashing}.


(** ** Create *)
Lemma insertSeats_Ok c segments fare amount currency mask ps d u d' :
  insertSeats c segments fare amount currency mask ps d = Ok (u, d') ->
  d' = set_rseats d (rseats d') /\
  map_to_list (rseats d') ≡ₚ map (fun ps => (seatRowID c ps.1, seatRow c segments fare amount currency mask ps.1 ps.2)) ps ++ map_to_list (rseats d) /\
  ((forall q q' s s', rseats d !! q = Some s -> rseats d !! q' = Some s' -> st_reservation s = st_reservation s' -> st_seat s = st_seat s' -> q = q') ->
   forall q q' s s', rseats d' !! q = Some s -> rseats d' !! q' = Some s' -> st_reservation s = st_reservation s' -> st_seat s = st_seat s' -> q = q') /\
  (ps <> [] -> exists r, resv d !! cm_reservation c = Some r /\ rv_run r = cm_run c /\ rv_gen r = generation (cm_route c)).
Proof.
  revert d. induction ps as [|[p seat] ps IH]; intros d Hok; simpl in Hok.
  { apply sret_Ok in Hok as [_ <-]. split_and!; try done. by destruct d. }
  inv_S Hok. apply insRSeat_Some in Hm as (Hfresh & Hno & Hres & ->). apply IH in Hok as (Hd & Hl & Hu & _). simpl in *. split_and!.
  - by rewrite Hd.
  - rewrite Hl. rewrite map_to_list_insert by done. by rewrite Permutation_middle.
  - intros Hold. apply Hu. intros q q' s s'. destruct (decide (seatRowID c p = q)) as [<-|Hq], (decide (seatRowID c p = q')) as [<-|Hq']; [done| | |].
    + rewrite lookup_insert_eq, lookup_insert_ne by done. intros [= <-] Hs' Hr Hst. by destruct (Hno q' s' Hs').
    + rewrite lookup_insert_eq, lookup_insert_ne by done. intros Hs [= <-] Hr Hst. by destruct (Hno q s Hs).
    + rewrite !lookup_insert_ne by done. apply Hold.
  - intros _. destruct Hres as (r & ? & ? & ? & _). eauto.
Qed.

Lemma length_varbitOfString m : Z.of_nat (length (varbitOfString (MaskString m))) = Z.of_nat (Z.to_nat (bitLength m)).
Proof.
  unfold varbitOfString, MaskString. rewrite length_map, String.list_ascii_of_string_of_list_ascii, length_map, length_seq. done.
Qed.

Lemma claims_new (rs : gmap uuid ResRow) (seats : gmap uuid RSeatRow) k r :
  rs !! k = None -> (forall q s, seats !! q = Some s -> exists r, rs !! st_reservation s = Some r) ->
  claimsOf (<[k := r]> rs) seats = claimsOf rs seats.
Proof.
  intros Hk Hs. apply omap_ext_in. intros [q s] Hin%elem_of_map_to_list. unfold claimOf. simpl. rewrite lookup_insert_ne; [done|].
  intros ->. destruct (Hs q s Hin) as (r0 & Hr0). congruence.
Qed.

Section Create.
Context (d d' : Shard) (k : uuid) (row : ResRow) (new : list (uuid * RSeatRow)).
Hypothesis (Hi : ShInv d) (Hk : resv d !! k = None) (Hresv : resv d' = <[k := row]> (resv d)) (Hrow : rv_status row = Held).
Hypothesis (Hlist : map_to_list (rseats d') ≡ₚ new ++ map_to_list (rseats d)).
Hypothesis (Hnew : forall q s, (q, s) ∈ new -> st_reservation s = k /\ st_run s = rv_run row /\ st_gen s = rv_gen row).
Hypothesis (Huniq : forall q q' s s', rseats d' !! q = Some s -> rseats d' !! q' = Some s' ->
  st_reservation s = st_reservation s' -> st_seat s = st_seat s' -> q = q').
Hypothesis (Hord : orders d' = orders d) (Htix : tix d' = tix d).
Hypothesis (Hex : exact (occupied d') (map (fun qs => (seatKey qs.2, st_mask qs.2)) new ++ claimsOf (resv d) (rseats d))).

Lemma create_seat q s : rseats d' !! q = Some s <-> (q, s) ∈ new \/ rseats d !! q = Some s.
Proof. rewrite <- !elem_of_map_to_list, Hlist, elem_of_app. done. Qed.
Lemma create_no_order j o : orders d !! j = Some o -> od_reservation o <> k.
Proof. intros Ho He. destruct (in_orders _ Hi j o Ho) as (r & Hr & _). congruence. Qed.

Lemma create_claims : claimsOf (resv d') (rseats d') ≡ₚ map (fun qs => (seatKey qs.2, st_mask qs.2)) new ++ claimsOf (resv d) (rseats d).
Proof.
  rewrite <- (claims_new (resv d) (rseats d) k row Hk) by (intros q s Hq; destruct (in_seats _ Hi q s Hq) as (r & ? & _); eauto).
  rewrite <- Hresv. unfold claimsOf at 1. rewrite Hlist, omap_app. apply Permutation_app; [|done].
  rewrite (omap_full_map _ (fun qs => (seatKey qs.2, st_mask qs.2))); [done|]. intros [q s] Hin. destruct (Hnew q s Hin) as (He & _).
  unfold claimOf. simpl. rewrite He, Hresv, lookup_insert_eq. by rewrite Hrow.
Qed.

Lemma ShInv_create : ShInv d'.
Proof.
  pose proof Hi as [_ Hs _ Ho Ho1 Hod Ht Ht1 Hf]. split.
  - eapply exact_perm; [symmetry; exact create_claims|exact Hex].
  - intros q s [Hin|Hq]%create_seat; rewrite Hresv.
    + destruct (Hnew q s Hin) as (-> & ? & ?). exists row. by rewrite lookup_insert_eq.
    + destruct (Hs q s Hq) as (r & Hr & ? & ?). exists r. rewrite lookup_insert_ne by congruence. done.
  - exact Huniq.
  - intros j o. rewrite Hord, Hresv. intros Hj. destruct (Ho j o Hj) as (r & Hr & ?). exists r. rewrite lookup_insert_ne by congruence. done.
  - rewrite Hord. exact Ho1.
  - intros k0 r0. rewrite Hresv, Hord. destruct (decide (k = k0)) as [<-|Hne].
    + rewrite lookup_insert_eq. intros [= <-]. by rewrite Hrow.
    + rewrite lookup_insert_ne by done. apply Hod.
  - intros q t. rewrite Htix, Hord. intros Hq. destruct (Ht q t Hq) as (o & s & ? & ? & ? & ?). exists o, s. rewrite create_seat. eauto.
  - rewrite Htix. exact Ht1.
  - intros j o q s. rewrite Hord, Htix, create_seat. intros Hj His [Hin|Hq] Hr; [|by eapply Hf].
    destruct (Hnew q s Hin) as (He & _). exfalso. apply (create_no_order j o Hj). congruence.
Qed.
End Create.

Lemma createMutation_inv clk segments c d v d' :
  ShInv d -> createMutation clk segments c d = Ok (v, d') ->
  exists row, resv d !! cm_reservation c = None /\ rv_status row = Held /\ rv_payment row = None /\ rv_run row = cm_run c /\
    rv_gen row = generation (cm_route c) /\ rv_user row = cm_owner c /\
    rv_expires row = pl_expires (cm_payload c) /\ wrote d d' (cm_reservation c) row.
Proof.
  intros Hi Hok. unfold createMutation in Hok. inv_S Hok. destruct (fareFor c d0) as [[fare f]|]; [|by apply raise_Ok in Hok].
  destruct (_ || _); [by apply raise_Ok in Hok|]. destruct (_ <? _); [by apply raise_Ok in Hok|].
  destruct (NewSegmentMask _ _ _) as [m|] eqn:Em; [|by apply raise_Ok in Hok].
  apply NewSegmentMask_Ok in Em as (Hrange & Hto & Hm).
  assert (Hl : Z.of_nat (length (varbitOfString (MaskString m))) = segments) by (rewrite length_varbitOfString; subst m; simpl; lia).
  clear Hm Hrange. revert Hok Hl. generalize (varbitOfString (MaskString m)) as mask. intros mask Hok Hl. clear m.
  unfold ex1, succeedReceipt in Hok.
  apply sbind_Ok in Hok as (seats & d1 & Hal & Hok). eapply allocateSeats_exact in Hal as (Hn & Hex & Hd1); [|done|exact (in_exact _ Hi)].
  rewrite Hd1 in *. clear Hd1. inv_S Hok.
  match goal with H : insReservation _ ?row _ = Some _ |- _ => exists row end.
  apply insReservation_Some in Hm as (Hfresh & _ & ->). apply insertSeats_Ok in Hm0 as (Hd2 & Hls & Hu & _).
  rewrite Hd2 in *. clear Hd2. stmts. simpl in *. split; [exact Hfresh|]. do 6 (split; [done|]). split; [|done].
  eapply (ShInv_create d0 _ (cm_reservation c) _ (map (fun ps => (seatRowID c ps.1, seatRow c (Z.of_nat (length mask)) fare (fs_amount f) (fs_currency f) mask ps.1 ps.2))
            (zip (pl_passengers (cm_payload c)) seats))); simpl; try done.
  - intros q s Hin. apply list_elem_of_fmap in Hin as (ps & [= -> ->] & _). done.
  - apply Hu. exact (in_unique _ Hi).
  - rewrite map_map. simpl. unfold newClaims, occupied in *. simpl in *.
    replace (map _ (zip _ seats)) with (map (fun seat => (cm_run c, generation (cm_route c), seat, mask)) seats); [exact Hex|].
    clear -Hn. revert Hn. generalize (pl_passengers (cm_payload c)) as ps. induction seats as [|seat seats IH]; intros [|p ps] Hn; try done.
    simpl. f_equal. apply IH. by injection Hn.
Qed.

(** ** Issuing tickets *)
Definition uniqueSeats (m : gmap uuid TixRow) : Prop :=
  forall q q' t t', m !! q = Some t -> m !! q' = Some t' -> tk_seat t = tk_seat t' -> q = q'.
(** Active tickets of an order were added so that each of the seats has one. *)
Record ticketsAdded (order : uuid) (seats : list uuid) (m m' : gmap uuid TixRow) : Prop := {
  ta_keep : forall q t, m !! q = Some t -> m' !! q = Some t;
  ta_new : forall q t, m' !! q = Some t -> m !! q = Some t \/ (tk_order t = order /\ tk_status t = TActive /\ tk_seat t ∈ seats);
  ta_all : forall s, s ∈ seats -> exists q t, m' !! q = Some t /\ tk_seat t = s;
  ta_unique : uniqueSeats m -> uniqueSeats m' }.

Lemma ticketsAdded_nil order m : ticketsAdded order [] m m.
Proof. split; try done; [by left|by intros s ?%not_elem_of_nil]. Qed.

Lemma ticketsAdded_cons order seat seats k t m m' :
  m !! k = None -> (forall q t', m !! q = Some t' -> tk_seat t' <> seat) -> tk_order t = order -> tk_status t = TActive -> tk_seat t = seat ->
  ticketsAdded order seats (<[k := t]> m) m' -> ticketsAdded order (seat :: seats) m m'.
Proof.
  intros Hk Hno Ho Hs Hst [Hkeep Hnew Hall Hu]. split.
  - intros q t' Hq. apply Hkeep. rewrite lookup_insert_ne by congruence. done.
  - intros q t' Hq. apply Hnew in Hq as [Hq|(? & ? & ?)]; [|right; split_and!; [done..|by right]].
    destruct (decide (k = q)) as [<-|Hne].
    + rewrite lookup_insert_eq in Hq. injection Hq as <-. right. split_and!; [done..|]. rewrite Hst. left.
    + rewrite lookup_insert_ne in Hq by done. by left.
  - intros s [->|Hin]%elem_of_cons; [|by apply Hall]. exists k, t. split; [|done]. apply Hkeep. by rewrite lookup_insert_eq.
  - intros Hm. apply Hu. intros q q' t1 t2. destruct (decide (k = q)) as [<-|Hq], (decide (k = q')) as [<-|Hq']; [done| | |].
    + rewrite lookup_insert_eq, lookup_insert_ne by done. intros [= <-] H2 He. by destruct (Hno q' t2 H2); congruence.
    + rewrite lookup_insert_eq, lookup_insert_ne by done. intros H1 [= <-] He. by destruct (Hno q t1 H1); congruence.
    + rewrite !lookup_insert_ne by done. apply Hm.
Qed.

Lemma ticketsAdded_skip order seat seats q t m m' :
  m !! q = Some t -> tk_seat t = seat -> ticketsAdded order seats m m' -> ticketsAdded order (seat :: seats) m m'.
Proof.
  intros Hq Hst [Hkeep Hnew Hall Hu]. split; try done.
  - intros q' t' Hq'. destruct (Hnew q' t' Hq') as [?|(? & ? & ?)]; [by left|]. right. split_and!; [done..|by right].
  - intros s [->|Hin]%elem_of_cons; [|by apply Hall]. exists q, t. split; [by apply Hkeep|done].
Qed.

Lemma confirmTickets_Ok c wasHeld order seats d u d' :
  confirmTickets c wasHeld order seats d = Ok (u, d') ->
  exists tx ev, d' = set_outboxE (set_tix d tx) ev /\ ticketsAdded order seats (tix d) tx.
Proof.
  revert d. induction seats as [|seat seats IH]; intros d Hok; simpl in Hok.
  { apply sret_Ok in Hok as [_ <-]. exists (tix d), (outboxE d). split; [by destruct d|apply ticketsAdded_nil]. }
  apply sbind_Ok in Hok as (u1 & d1 & H1 & Hok). apply sbind_Ok in Hok as (u2 & d2 & H2 & Hok).
  apply one_Ok in H1. assert (Hd2 : d2 = set_outboxE d1 (outboxE d2)).
  { destruct wasHeld; [apply one_Ok, insEvent_Some in H2 as ->; done|]. apply sret_Ok in H2 as [_ <-]. by destruct d1. }
  rewrite Hd2 in *. clear Hd2 H2. apply IH in Hok as (tx & ev & -> & Hadd). simpl in *. exists tx, ev.
  unfold insTicketNothing in H1. destruct (existsRow _ _) eqn:Ex.
  - injection H1 as <-. apply existsRow_true in Ex as (q & t & Hq & Ht%bool_decide_eq_true). split; [done|]. by eapply ticketsAdded_skip.
  - apply insTicket_Some in H1 as (Hf & Hno & _ & _ & ->). simpl in *. split; [done|]. eapply ticketsAdded_cons; [exact Hf|exact Hno| | | |exact Hadd]; done.
Qed.

Section Issue.
Context (d d' : Shard) (k j : uuid) (r r' : ResRow) (o' : OrdRow) (seats : list uuid).
Hypothesis (Hi : ShInv d) (Hr : resv d !! k = Some r) (Hresv : resv d' = <[k := r']> (resv d)) (Hseats : rseats d' = rseats d) (Hinv : inv d' = inv d).
Hypothesis (Hrun : rv_run r' = rv_run r) (Hgen : rv_gen r' = rv_gen r) (Hh : holding (rv_status r) = true) (Hst : rv_status r' = Confirmed).
Hypothesis (Hord : orders d' = <[j := o']> (orders d)) (Hres : od_reservation o' = k) (Hfit : orderFits o' r').
Hypothesis (Hiss : issuedStatus (od_status o') = true).
Hypothesis (Honly : forall i o, orders d !! i = Some o -> od_reservation o = k -> i = j).
Hypothesis (Hwas : forall o, orders d !! j = Some o -> od_reservation o = k).
Hypothesis (Hold : forall q t, tix d !! q = Some t -> tk_order t = j -> tk_status t = TActive).
Hypothesis (Hadd : ticketsAdded j seats (tix d) (tix d')).
Hypothesis (Hmem : forall q, q ∈ seats <-> exists s, rseats d !! q = Some s /\ st_reservation s = k).

Lemma ShInv_issue : ShInv d'.
Proof.
  assert (Htk : ticketsAre (od_status o') = Some TActive) by (destruct (od_status o'); done).
  assert (Hmine : forall q t, tix d !! q = Some t -> tk_order t = j -> exists s, rseats d !! tk_seat t = Some s /\ st_reservation s = k).
  { intros q t Hq Ht. destruct (in_tickets _ Hi q t Hq) as (o & s & Ho & Hs & Hrs & _). exists s. split; [done|]. rewrite Hrs. apply Hwas. congruence. }
  destruct Hadd as [Hkeep Hnew Hall Hu]. eapply (ShInv_ordered d d' k r r'); try done.
  - rewrite Hresv, Hseats. unfold occupied. rewrite Hinv, (claimsOf_restatus _ _ k r r') by (done || by rewrite Hst, Hh). exact (in_exact _ Hi).
  - intros q t Ht. split; [|apply Hkeep]. intros Hq. apply Hnew in Hq as [?|[? _]]; [done|congruence].
  - intros q t Hq Ht. apply Hnew in Hq as [Hq|(_ & Hs & Hin)].
    + rewrite (Hold q t Hq Ht). split; [done|]. by eapply Hmine.
    + rewrite Hs. split; [done|]. by apply Hmem.
  - apply Hu. exact (in_ticket1 _ Hi).
  - intros _ q s Hq Hs. destruct (Hall q) as (i & t & Ht & Hts); [apply Hmem; eauto|]. exists i, t. split_and!; try done.
    destruct (Hnew i t Ht) as [Hti|[? _]]; [|done]. destruct (in_tickets _ Hi i t Hti) as (o & s' & Ho & Hs' & Hrs & _).
    apply (Honly (tk_order t) o Ho). congruence.
Qed.
End Issue.

(** ** Confirm and cancel *)
Lemma lockOwnedPhysical_Ok c d r :
  lockOwnedPhysicalReservation c d = Ok r ->
  resv d !! cm_reservation c = Some r /\ rv_user r = cm_owner c /\ rv_run r = cm_run c /\ rv_gen r = generation (cm_route c) /\ rv_payment r = None.
Proof.
  unfold lockOwnedPhysicalReservation. destruct (resv d !! _) as [r0|] eqn:E; [|done]. destruct (_ && _) eqn:Hb; [|done].
  destruct (_ || _); [done|]. intros [= ->]. bsplit. done.
Qed.

Lemma elem_of_seatIds d k q : q ∈ map fst (seatsOfReservation d k) <-> exists s, rseats d !! q = Some s /\ st_reservation s = k.
Proof.
  rewrite list_elem_of_fmap. split.
  - intros ([q' s] & -> & Hin%elem_of_seatsOf). eauto.
  - intros (s & Hs). exists (q, s). by rewrite elem_of_seatsOf.
Qed.

(** The order that confirmation finds after inserting its own, if there was
    none. *)
Lemma confirm_order d d1 d2 k r r' new o order found :
  ShInv d -> resv d !! k = Some r -> core d1 = (inv d, <[k := r']> (resv d), rseats d, orders d, tix d) ->
  insOrderNothing new o d1 = Some d2 -> orderOfReservation d2 k = Some (order, found) -> od_reservation o = k ->
  orders d2 = <[order := found]> (orders d) /\ od_reservation found = k /\
  (forall i o, orders d !! i = Some o -> od_reservation o = k -> i = order) /\
  (forall o, orders d !! order = Some o -> od_reservation o = k) /\
  (found = o /\ orders d !! order = None /\ orderCheck o = true \/ orders d !! order = Some found) /\ core d2 = (inv d, <[k := r']> (resv d), rseats d, orders d2, tix d).
Proof.
  intros Hi Hr Hc Hins Hfind Hres. apply orderOfReservation_Some in Hfind as [Hfound Hk]. injection Hc as Hci Hcr Hcs Hco Hct.
  unfold insOrderNothing in Hins. destruct (existsRow _ _) eqn:Ex.
  - injection Hins as <-. rewrite Hco in *. rewrite insert_id by done. unfold core. rewrite Hci, Hcr, Hcs, Hct, Hco. split_and!; try done; [|congruence|by right].
    intros i o1 Ho1 He. apply (in_order1 _ Hi i order o1 found Ho1 Hfound). congruence.
  - apply insOrder_Some in Hins as (Hnew & Hno & Hchk & _ & ->). simpl in *. rewrite Hco in *.
    destruct (decide (new = order)) as [->|Hne].
    + rewrite lookup_insert_eq in Hfound. injection Hfound as <-. unfold core. simpl. rewrite Hci, Hcr, Hcs, Hct. split_and!; try done; [|congruence|by left].
      intros i o1 Ho1 He. destruct (Hno i o1 Ho1). congruence.
    + rewrite lookup_insert_ne in Hfound by done. destruct (Hno order found Hfound). congruence.
Qed.

Lemma confirmReservation_inv clk c d rc d' : ShInv d -> confirmReservation clk c d = Ok (rc, d') ->
  exists r, resv d !! cm_reservation c = Some r /\ rv_run r = cm_run c /\ rv_gen r = generation (cm_route c) /\
    (r.(rv_status) = Confirmed /\ wrote d d' (cm_reservation c) r \/ moves ByBooking clk r (resTo Confirmed r) /\ wrote d d' (cm_reservation c) (resTo Confirmed r)).
Proof.
  intros Hi Hok. unfold confirmReservation in Hok. apply sbind_Ok in Hok as (r & d0 & Hlock & Hok). apply reads_Ok in Hlock as [Hlock <-].
  apply lockOwnedPhysical_Ok in Hlock as (Hr & Huser & Hrun & Hgen & Hpay). cbv zeta in Hok. apply sbind_Ok in Hok as (? & ? & Hg & Hok).
  apply guardS_Ok in Hg as [Hin%negb_false_iff <-]. apply bool_decide_eq_true in Hin.
  apply sbind_Ok in Hok as (u & d1 & Hupd & Hok).
  assert (Hst : rv_status r = Held \/ rv_status r = Confirmed) by set_solver. clear Hin.
  set (r' := if bool_decide (rv_status r = Held) then resTo Confirmed r else r).
  assert (Hr' : rv_status r' = Confirmed /\ rv_user r' = rv_user r /\ rv_run r' = rv_run r /\ rv_gen r' = rv_gen r /\ rv_total r' = rv_total r /\
                rv_currency r' = rv_currency r /\ rv_payment r' = None) 
    by (unfold r'; case_bool_decide; simpl; destruct Hst; split_and!; congruence).
  assert (Hc1 : core d1 = (inv d, <[cm_reservation c := r']> (resv d), rseats d, orders d, tix d) /\ (rv_status r = Held -> clk < rv_expires r)).
  { unfold r'. destruct Hst as [Hst|Hst]; rewrite Hst in *; simpl in *.
    - apply sbind_Ok in Hupd as (? & ? & [Hexp%Z.leb_gt <-]%guardS_Ok & Hupd%one_Ok).
      apply updReservation_Some in Hupd as (r0 & Hr0 & _ & _ & _ & ->). simpl. by assert (r0 = r) as -> by congruence.
    - apply sret_Ok in Hupd as [_ <-]. by rewrite insert_id. }
  destruct Hc1 as [Hc1 Hexp]. cut (wrote d d' (cm_reservation c) r').
  { clear -Hst Hr Hrun Hgen Hpay Hexp. intros Hw. exists r. split_and!; try done. unfold r' in Hw. destruct Hst as [Hst|Hst]; rewrite Hst in Hw; [right|left]; (split; [|done]); [|done].
    split; simpl; [|done|done]. left. rewrite Hst. constructor. by apply Hexp. }
  clear Hupd. apply sbind_Ok in Hok as (? & d2 & Hins & Hok). apply one_Ok in Hins. apply sbind_Ok in Hok as (? & ? & [<- <-]%shard_Ok & Hok).
  destruct (orderOfReservation d2 _) as [[order found]|] eqn:Hfind; [|by apply raise_Ok in Hok].
  destruct (confirm_order d d1 d2 _ r r' _ _ order found Hi Hr Hc1 Hins Hfind eq_refl) as (Hord & Hfk & Honly & Hwas & Hcase & Hc2).
  clear Hins Hfind. apply sbind_Ok in Hok as (? & ? & [Hg <-]%guardS_Ok & Hok). apply sbind_Ok in Hok as (? & ? & [_ <-]%guardS_Ok & Hok).
  apply sbind_Ok in Hok as (? & d3 & (tx & ev & Hd3 & Hadd)%confirmTickets_Ok & Hok).
  injection Hc2 as Hci Hcr Hcs Hct. rewrite Hct in Hadd.
  apply sbind_Ok in Hok as (? & d4 & Hev & Hok). apply sbind_Ok in Hok as (ts & ? & [_ <-]%reads_Ok & Hok). apply sret_Ok in Hok as [_ <-].
  assert (Hd4 : core d4 = core d3).
  { destruct (bool_decide (rv_status r = Held)); [|by apply sret_Ok in Hev as [_ <-]]. apply one_Ok, insEvent_Some in Hev as ->. done. }
  apply (wrote_core _ d3); [done|]. rewrite Hd3. split; [|simpl; congruence].
  destruct Hr' as (Hs' & Hu' & Hrun' & Hgen' & Ht' & Hcur' & Hp').
  assert (Hseats : map fst (seatsOfReservation d2 (cm_reservation c)) = map fst (seatsOfReservation d (cm_reservation c))).
  { unfold seatsOfReservation. by rewrite Hcs. }
  rewrite Hseats in Hadd.
  assert (Hfit : orderFits found r' /\ issuedStatus (od_status found) = true /\ (forall q t, tix d !! q = Some t -> tk_order t = order -> tk_status t = TActive)).
  { destruct Hcase as [(-> & Hnone & Hchk)|Hex].
    - split; [|split; [done|]].
      + split; simpl; try congruence; [unfold intentOf; by rewrite Hp'|by rewrite Hs'].
      + intros q t Hq Ht. destruct (in_tickets _ Hi q t Hq) as (o & s & Ho & _). congruence.
    - destruct (in_orders _ Hi order found Hex) as (r0 & Hr0 & Hf). rewrite Hfk in Hr0. assert (r0 = r) as -> by congruence.
      destruct Hf as [F1 F2 F3 F4 F5 F6]. assert (Hconf : rv_status r = Confirmed) by (destruct Hst as [Hst|]; [rewrite Hst in F5; by destruct (od_status found)|done]).
      split; [|split].
      + split; try congruence. unfold intentOf in *. by rewrite F4, Hp', Hpay.
      + rewrite Hconf in F5. by destruct (od_status found).
      + intros q t Hq Ht. destruct (in_tickets _ Hi q t Hq) as (o & s & Ho & _ & _ & Hts). rewrite Ht in Ho. assert (o = found) as -> by congruence.
        rewrite Hconf in F5. destruct (od_status found); simpl in *; try done; by injection Hts. }
  destruct Hfit as (Hfit & Hiss & Hold).
  eapply (ShInv_issue d _ (cm_reservation c) order r r' found); simpl; try done.
  - destruct Hst as [-> | ->]; done.
  - intros q. apply elem_of_seatIds.
Qed.

Lemma lookup_retix o from new (m : gmap uuid TixRow) q t :
  (retix o from new <$> m) !! q = Some t <-> exists t0, m !! q = Some t0 /\ t = retix o from new t0.
Proof. rewrite lookup_fmap. destruct (m !! q); simpl; naive_solver. Qed.
Lemma retix_order o from new t : tk_order (retix o from new t) = tk_order t.
Proof. unfold retix. by destruct (_ && _). Qed.
Lemma retix_seat o from new t : tk_seat (retix o from new t) = tk_seat t.
Proof. unfold retix. by destruct (_ && _). Qed.
Lemma retix_other o from new t : tk_order t <> o -> retix o from new t = t.
Proof. intros Hne. unfold retix. by rewrite bool_decide_false. Qed.
Lemma retix_status o from new t : tk_order t = o -> tk_status (retix o from new t) = if bool_decide (tk_status t ∈ from) then new else tk_status t.
Proof. intros <-. unfold retix. rewrite bool_decide_true by done. simpl. by destruct (bool_decide _). Qed.

(** A reservation with an order moves, and the tickets of the order follow. *)
Section Move.
Context (d d' : Shard) (k j : uuid) (r r' : ResRow) (o o' : OrdRow) (from : list TStatus) (new : TStatus).
Hypothesis (Hi : ShInv d) (Hr : resv d !! k = Some r) (Hresv : resv d' = <[k := r']> (resv d)) (Hseats : rseats d' = rseats d).
Hypothesis (Hrun : rv_run r' = rv_run r) (Hgen : rv_gen r' = rv_gen r).
Hypothesis (Ho : orders d !! j = Some o) (Hres : od_reservation o = k) (Hord : orders d' = <[j := o']> (orders d)) (Hres' : od_reservation o' = k).
Hypothesis (Hfit : orderFits o' r') (Hiss : issuedStatus (od_status o') = false) (Htix : tix d' = retix j from new <$> tix d).
Hypothesis (Hfollow : forall st, ticketsAre (od_status o) = Some st -> ticketsAre (od_status o') = Some (if bool_decide (st ∈ from) then new else st)).
Hypothesis (Hexact : exact (occupied d') (claimsOf (resv d') (rseats d'))).

Lemma ShInv_move : ShInv d'.
Proof.
  eapply (ShInv_ordered d d' k r r' Hi Hr Hresv Hseats Hrun Hgen Hexact j o'); try done.
  - intros i o1 Ho1 He. apply (in_order1 _ Hi i j o1 o Ho1 Ho). congruence.
  - congruence.
  - intros q t Hne. rewrite Htix, lookup_retix. split.
    + intros (t0 & Ht0 & ->). rewrite retix_order in Hne. by rewrite retix_other.
    + intros Ht. exists t. by rewrite retix_other.
  - intros q t. rewrite Htix, lookup_retix. intros (t0 & Ht0 & ->) Hj. rewrite retix_order in Hj. rewrite retix_seat, retix_status by done.
    destruct (in_tickets _ Hi q t0 Ht0) as (o1 & s & Ho1 & Hs & Hrs & Hst). rewrite Hj in Ho1. assert (o1 = o) as -> by congruence.
    split; [by apply Hfollow|]. exists s. split; [done|congruence].
  - intros q q' t t'. rewrite Htix, !lookup_retix. intros (t0 & Ht0 & ->) (t1 & Ht1 & ->). rewrite !retix_seat. apply (in_ticket1 _ Hi q q' t0 t1 Ht0 Ht1).
  - congruence.
Qed.
End Move.

Lemma resTo_fits o o' r s :
  orderFits o r -> od_user o' = od_user o -> od_total o' = od_total o -> od_currency o' = od_currency o -> od_intent o' = od_intent o ->
  orderCheck o' = true -> paired (od_status o') s = true -> orderFits o' (resTo s r).
Proof. intros [] ? ? ? ? ? ?. split; unfold intentOf in *; simpl in *; congruence. Qed.

Lemma cancelReservation_inv c d rc d' : ShInv d -> cancelReservation c d = Ok (rc, d') ->
  exists r, resv d !! cm_reservation c = Some r /\ rv_run r = cm_run c /\ rv_gen r = generation (cm_route c) /\
    (ShInv d' /\ resv d' = resv d \/ (forall t, moves ByBooking t r (resTo Cancelled r)) /\ wrote d d' (cm_reservation c) (resTo Cancelled r)).
Proof.
  intros Hi Hok. unfold cancelReservation in Hok. apply sbind_Ok in Hok as (r & d0 & [Hlock <-]%reads_Ok & Hok).
  apply lockOwnedPhysical_Ok in Hlock as (Hr & _ & Hrun & Hgen & Hpay). apply sbind_Ok in Hok as (? & ? & [Hin%negb_false_iff <-]%guardS_Ok & Hok).
  apply bool_decide_eq_true in Hin. apply sbind_Ok in Hok as (? & ? & [<- <-]%shard_Ok & Hok). cbv zeta in Hok.
  apply sbind_Ok in Hok as (? & ? & [_ <-]%guardS_Ok & Hok). apply sbind_Ok in Hok as (? & d9 & Hch & Hok). apply sret_Ok in Hok as [_ <-].
  exists r. do 3 (split; [done|]). destruct (bool_decide (rv_status r = Cancelled)) eqn:Hc; simpl in Hch; [left; by apply sret_Ok in Hch as [_ <-]|].
  apply bool_decide_eq_false in Hc. assert (Hst : rv_status r = Held \/ rv_status r = Confirmed) by set_solver. clear Hin Hrun Hgen. right. split.
  { intros t. split; simpl; [|done|done]. left. destruct Hst as [-> | ->]; constructor. }
  inv_S Hch. stmts. apply updReservation_Some in Hm as (r0 & Hr0 & _ & _ & _ & ->). assert (r0 = r) as -> by congruence. clear Hr0.
  apply negb_false_iff, Nat.eqb_eq in Hm1. rename Hm0 into Hrel, Hm2 into Hord.
  eapply (releaseSeats_exact (resv d) _ _ (cm_reservation c) r (resTo Cancelled r)) in Hrel as (v & Hd1 & Hex);
    [|exact (in_exact _ Hi)|done|by destruct Hst as [-> | ->]|done|exact (in_unique _ Hi)|exact Hm1].
  simpl in *. unfold cancelOrderOf, cancelTicketsOf in *.
  match goal with |- wrote _ (set_outboxE ?x _) _ _ => apply (wrote_core _ x); [done|] end.
  subst d2. simpl in *.
  set (d2 := set_inv _ v) in *. destruct (orderOfReservation d2 _) as [[j o]|] eqn:Hfind.
  - apply updOrder_Some in Hord as (o0 & Ho0 & _ & Hchk & Hd2). apply orderOfReservation_Some in Hfind as [Ho Hres]. simpl in *.
    assert (o0 = o) as -> by congruence. clear Ho0. destruct (in_orders _ Hi j o Ho) as (r0 & Hr0 & Hf).
    rewrite Hres in Hr0. assert (r0 = r) as -> by congruence.
    destruct (orderOfReservation d1 _) as [[j' o1]|] eqn:Hfind1.
    2: { apply (orderOfReservation_None _ _ j (ordTo OCancelled o)) in Hfind1; [done|]. rewrite Hd2. simpl. by rewrite lookup_insert_eq. }
    apply orderOfReservation_Some in Hfind1 as [Ho1 Hres1]. rewrite Hd2 in Ho1. simpl in Ho1.
    assert (j' = j) as ->.
    { destruct (decide (j = j')) as [|Hne]; [done|]. rewrite lookup_insert_ne in Ho1 by done. apply (in_order1 _ Hi j' j o1 o Ho1 Ho). congruence. }
    rewrite Hd2. split; [|done].
    eapply (ShInv_move d _ (cm_reservation c) j r (resTo Cancelled r) o (ordTo OCancelled o) [TPending; TActive; TRefundPending; TCancelled] TCancelled);
      simpl; try done.
    + by apply (resTo_fits o).
    + intros st _. f_equal. case_bool_decide as Hb; [done|]. destruct st; set_solver.
  - injection Hord as <-. rewrite Hfind. split; [|done]. eapply (ShInv_solo d _ (cm_reservation c) r (resTo Cancelled r)); try done.
    intros j o Ho. by apply (orderOfReservation_None d2 _ j).
Qed.

(** ** Payment transactions *)

(** Up to the first statement that writes: the stored receipt is returned, or
    the fence is open and there is none. *)
Ltac opening H Hi := repeat first
  [ let f := fresh "found" in apply sbind_Ok in H as (f & ? & [_ <-]%reads_Ok & H); destruct f; [apply sret_Ok in H as [_ <-]; split; [exact Hi|by apply eff_none]|]
  | let Hf := fresh "Hfence" in apply sbind_Ok in H as (? & ? & [Hf <-]%reads_Ok & H) ];
  apply sbind_Ok in H as (? & ? & [<- <-]%shard_Ok & H).

Lemma routedReservation_Some route id d r :
  Store.routedReservation route id d = Some r -> resv d !! id = Some r /\ rv_run r = trainRunID route /\ rv_gen r = generation route.
Proof.
  unfold Store.routedReservation. destruct (resv d !! id) as [r0|]; simpl; [|done]. destruct (_ && _) eqn:Hb; [|done]. intros [= ->]. bsplit. done.
Qed.
Lemma paymentOrder_Some order k intent amount currency d o :
  Store.paymentOrder order k intent amount currency d = Some o -> orders d !! order = Some o /\ od_reservation o = k.
Proof.
  unfold Store.paymentOrder. destruct (orders d !! order) as [o0|]; simpl; [|done]. destruct (_ && _) eqn:Hb; [|done]. intros [= ->]. bsplit. done.
Qed.
Lemma routedOrder_Some route order k intent amount currency d o :
  Store.routedOrder route order k intent amount currency d = Some o -> orders d !! order = Some o /\ od_reservation o = k.
Proof.
  unfold Store.routedOrder. destruct (Store.paymentOrder _ _ _ _ _ d) as [o0|] eqn:E; simpl; [|done]. destruct (_ && _); [|done].
  intros [= ->]. by apply paymentOrder_Some in E.
Qed.
Lemma resMoney_true d k run gen total currency intent r :
  resMoney d k run gen total currency intent = true -> resv d !! k = Some r ->
  rv_total r = total /\ rv_currency r = currency /\ (forall i, intent = Some i -> intentOf r = Some i).
Proof.
  unfold resMoney. intros H Hr. rewrite Hr in H. bsplit. split_and!; try done. intros i ->. by bsplit.
Qed.

Lemma lockFence_open route d r u :
  Store.lockFence route d = Ok u -> rv_run r = trainRunID route -> rv_gen r = generation route -> openFor d r.
Proof.
  unfold Store.lockFence. intros H Hrun Hgen. destruct (fences d !! _) as [f|] eqn:Ef; [|done].
  destruct (negb (wf_gen f =? _)) eqn:Eg; [done|]. destruct (negb (fenceOpen f)) eqn:Eo; [done|]. bsplit. exists f. rewrite Hrun. split_and!; congruence.
Qed.

Lemma beginTx_inv clk route c d v d' : ShInv d -> Store.beginTx clk route c d = Ok (v, d') -> ShInv d' /\ effect ByPayment clk d d'.
Proof.
  intros Hi Hok. unfold Store.beginTx in Hok. opening Hok Hi.
  destruct (Store.routedReservation _ _ d) as [r|] eqn:Er; [|by apply raise_Ok in Hok]. apply routedReservation_Some in Er as (Hr & Hrun & Hgen).
  apply sbind_Ok in Hok as (? & ? & [Hown%negb_false_iff%bool_decide_eq_true <-]%guardS_Ok & Hok). apply sbind_Ok in Hok as (? & ? & [Hg <-]%guardS_Ok & Hok).
  unfold resIn in Hg. bsplit. assert (Hlt : clk < rv_expires r) by lia. assert (Hno0 : ~ is_Some (rv_payment r)) by done.
  unfold Store.beginWrites in Hok. inv_S Hok. apply updReservation_Some in Hm as (r0 & Hr0 & _ & _ & _ & ->).
  assert (r0 = r) as -> by congruence. clear Hr0. apply insPReceipt_Some in Hm0 as (_ & _ & ->). apply insOrder_Some in Hm1 as (Hnew & Hno & Hchk & Hmoney & ->). stmts. simpl in *.
  assert (Hst : rv_status r = Held) by set_solver. split.
  2: { eapply (eff_move _ _ _ _ _ r (Store.securedBy c r)); [exact Hr|by eapply lockFence_open| |done]. split; simpl; [|done|by split].
       left. rewrite Hst. by constructor. }
  eapply (ShInv_ordered d _ (bp_reservation c) r (Store.securedBy c r)); simpl; try done.
  - rewrite (claimsOf_restatus _ _ _ r) by (done || by rewrite Hst). exact (in_exact _ Hi).
  - intros i o Ho He. by destruct (Hno i o Ho).
  - congruence.
  - intros q t Hq Ht. destruct (in_tickets _ Hi q t Hq) as (o & s & Ho & _). simpl in *. congruence.
  - exact (in_ticket1 _ Hi).
Qed.

Lemma issueLoop_Ok route c order plan d u d' :
  Store.issueLoop route c order plan d = Ok (u, d') ->
  exists tx ev, d' = set_outboxE (set_tix d tx) ev /\ ticketsAdded order (map fst plan) (tix d) tx.
Proof.
  revert d. induction plan as [|[seat [id code]] plan IH]; intros d Hok; simpl in Hok.
  { apply sret_Ok in Hok as [_ <-]. exists (tix d), (outboxE d). split; [by destruct d|apply ticketsAdded_nil]. }
  inv_S Hok. apply insTicket_Some in Hm0 as (Hf & Hno & _ & _ & ->). stmts. apply IH in Hok as (tx & ev & -> & Hadd). simpl in *. exists tx, ev.
  split; [done|]. eapply ticketsAdded_cons; [exact Hf|exact Hno| | | |exact Hadd]; done.
Qed.

Lemma map_fst_zip_le {A B} (l : list A) (k : list B) : (length l <= length k)%nat -> map fst (zip l k) = l.
Proof. revert k. induction l as [|x l IH]; intros [|y k] Hl; simpl in *; try done; [lia|]. f_equal. apply IH. lia. Qed.
Lemma routedSeats_all route k d r :
  ShInv d -> resv d !! k = Some r -> rv_run r = trainRunID route -> rv_gen r = generation route ->
  Store.routedSeats route k d = map fst (seatsOfReservation d k).
Proof.
  intros Hi Hr Hrun Hgen. unfold Store.routedSeats. f_equal. apply filter_all. intros [q s] Hin%elem_of_seatsOf. simpl.
  destruct Hin as [Hs Hk]. destruct (in_seats _ Hi q s Hs) as (r0 & Hr0 & ? & ?). rewrite Hk in Hr0. assert (r0 = r) as -> by congruence. split; congruence.
Qed.

(** The rest of a transaction keeps the tables of the invariant. *)
Ltac tail H d :=
  match goal with |- wrote ?a _ ?k ?r => cut (wrote a d k r) end;
  [ clear -H; let Hw := fresh in intros Hw; unfold Store.appendOutbox, Store.px in H; inv_S H; keep;
    match goal with |- wrote ?a ?x ?k ?r => apply (wrote_core a d x); [congruence|exact Hw] end
  | clear H ].
(** The first statement of a payment transaction opens its receipt. *)
Lemma opened_inv {A} route command intent reservation op fp amount currency (k : SM PayErr A) d v d' :
  ShInv d -> (Store.startedReceipt route command intent reservation op fp amount currency ;; k) d = Ok (v, d') ->
  exists d1, ShInv d1 /\ core d1 = core d /\ k d1 = Ok (v, d').
Proof.
  intros Hi Hok. unfold Store.startedReceipt, Store.px in Hok. apply sbind_Ok in Hok as (? & d1 & H1%one_Ok & Hok). keep.
  exists d1. split; [by apply (ShInv_core d)|done].
Qed.

Lemma seatsOf_core d d' k : core d' = core d -> seatsOfReservation d' k = seatsOfReservation d k.
Proof. intros [= _ _ Hs _ _]. unfold seatsOfReservation. by rewrite Hs. Qed.

(** A status change of a reservation in payment. *)
Lemma paid_move t d d' k r intent s :
  resv d !! k = Some r -> openFor d r -> intentOf r = Some intent -> shardEdge t (rv_expires r) (rv_status r) s ->
  resv d' = <[k := resTo s r]> (resv d) -> effect ByPayment t d d'.
Proof.
  intros Hr Ho Hint He Hr'. eapply (eff_move _ _ _ _ _ r (resTo s r)); [exact Hr|done| |done]. split; simpl; [done|done|]. split; [|done].
  unfold intentOf in Hint. by destruct (rv_payment r).
Qed.

Lemma issueWrites_inv clk route c ids codes order created d v d' r o :
  ShInv d -> resv d !! ic_reservation c = Some r -> rv_run r = trainRunID route -> rv_gen r = generation route ->
  resIn [PaymentPending; PaymentReview] r = true -> orders d !! order = Some o -> od_reservation o = ic_reservation c ->
  Store.issueWrites clk route c ids codes order created d = Ok (v, d') -> wrote d d' (ic_reservation c) (resTo Confirmed r).
Proof.
  intros Hi Hr Hrun Hgen Hpay%bool_decide_eq_true Ho Hres Hok. apply opened_inv in Hok as (d1 & Hi1 & H1 & Hok); [|done]. unfold Store.px in Hok. clear Hi. rename Hi1 into Hi.
  apply (wrote_from _ d1); [done|]. injection H1 as _ H1r _ H1o _.
  rewrite <- H1r in Hr. rewrite <- H1o in Ho. clear H1r H1o.
  apply sbind_Ok in Hok as (? & d2 & H2%one_Ok & Hok). apply updOrder_Some in H2 as (o0 & Ho0 & Hio & Hchk & Hd2). assert (o0 = o) as -> by congruence.
  apply sbind_Ok in Hok as (? & d3 & H3%one_Ok & Hok). apply updReservation_Some in H3 as (r0 & Hr0 & _ & _ & _ & Hd3).
  rewrite Hd2 in Hr0, Hd3. simpl in Hr0. assert (r0 = r) as -> by congruence.
  apply sbind_Ok in Hok as (? & ? & [<- <-]%shard_Ok & Hok). cbv zeta in Hok. apply sbind_Ok in Hok as (? & ? & [_ <-]%guardS_Ok & Hok).
  apply sbind_Ok in Hok as (? & ? & [Hl <-]%guardS_Ok & Hok). apply sbind_Ok in Hok as (? & d4 & H4 & Hok).
  apply issueLoop_Ok in H4 as (tx & ev & Hd4 & Hadd).
  assert (Hseats : Store.routedSeats route (ic_reservation c) d3 = map fst (seatsOfReservation d1 (ic_reservation c))).
  { rewrite <- (routedSeats_all route _ d1 r) by done. unfold Store.routedSeats. by rewrite Hd3. }
  rewrite Hseats in Hl, Hadd. apply orb_false_iff in Hl as [Hl1%negb_false_iff%Nat.eqb_eq Hl2%negb_false_iff%Nat.eqb_eq].
  rewrite map_fst_zip_le in Hadd by (rewrite length_zip_with; lia).
  tail Hok d4. clear Hseats.
  destruct (in_orders _ Hi order o Ho) as (r1 & Hr1 & Hf). rewrite Hres in Hr1. assert (r1 = r) as -> by congruence. apply bool_decide_eq_true in Hio.
  rewrite Hd4, Hd3. rewrite Hd3 in Hadd. simpl in Hadd. split; [|done].
  eapply (ShInv_issue d1 _ (ic_reservation c) order r (resTo Confirmed r) (Store.ordCaptured OIssued o) (map fst (seatsOfReservation d1 (ic_reservation c)))); simpl; try done.
  - assert (rv_status r = PaymentPending \/ rv_status r = PaymentReview) as [-> | ->] by set_solver; done.
  - by apply (resTo_fits o).
  - intros i o1 Ho1 He. apply (in_order1 _ Hi i order o1 o Ho1 Ho). congruence.
  - congruence.
  - intros q t Hq Ht. destruct (in_tickets _ Hi q t Hq) as (o1 & s & Ho1 & _ & _ & Hts). rewrite Ht in Ho1. assert (o1 = o) as -> by congruence.
    unfold Store.issuable in Hio. destruct (od_status o); simpl in Hts; set_solver.
  - intros q. apply elem_of_seatIds.
Qed.

Lemma issueTx_inv clk route c ids codes d v d' : ShInv d -> Store.issueTx clk route c ids codes d = Ok (v, d') -> ShInv d' /\ effect ByPayment clk d d'.
Proof.
  intros Hi Hok. unfold Store.issueTx in Hok. opening Hok Hi.
  destruct (Store.routedReservation _ _ d) as [r|] eqn:Er; [|by apply raise_Ok in Hok]. apply routedReservation_Some in Er as (Hr & Hrun & Hgen).
  apply sbind_Ok in Hok as (? & ? & [_ <-]%guardS_Ok & Hok). apply sbind_Ok in Hok as (? & ? & [Hpay%negb_false_iff <-]%guardS_Ok & Hok). cbv zeta in Hok.
  destruct (Store.routedOrder _ _ _ _ _ _ d) as [o|] eqn:Eo; [|by apply raise_Ok in Hok]. apply routedOrder_Some in Eo as [Ho Hres].
  apply sbind_Ok in Hok as (? & ? & [Hio <-]%guardS_Ok & Hok). unfold Store.inPayment in Hpay. 
  apply andb_true_iff in Hpay as [Hpay _]. apply andb_true_iff in Hpay as [Hpay _]. apply andb_true_iff in Hpay as [Hpay Hint%bool_decide_eq_true].
  eapply issueWrites_inv in Hok as [Hi' Hr']; try done. split; [done|]. eapply (paid_move _ _ _ _ _ _ Confirmed); [exact Hr|by eapply lockFence_open|exact Hint| |exact Hr'].
  apply bool_decide_eq_true in Hpay. left. destruct (rv_status r); try constructor; set_solver.
Qed.

Lemma markWrites_inv clk route c order d v d' r o :
  ShInv d -> resv d !! mc_reservation c = Some r -> orders d !! order = Some o -> od_reservation o = mc_reservation c ->
  Store.markWrites clk route c order d = Ok (v, d') ->
  rv_status r ∈ [PaymentPending; PaymentReview; Confirmed] /\ wrote d d' (mc_reservation c) (resTo RefundPending r).
Proof.
  intros Hi0 Hr Ho Hres Hok. apply opened_inv in Hok as (d1 & Hi & H1 & Hok); [|done]. unfold Store.px in Hok. clear Hi0.
  pose proof H1 as H1c. injection H1 as _ H1r _ H1o _. rewrite <- H1r in Hr. rewrite <- H1o in Ho. clear H1r H1o.
  apply sbind_Ok in Hok as (? & d2 & H2%one_Ok & Hok). apply updReservation_Some in H2 as (r0 & Hr0 & Hst%bool_decide_eq_true & _ & _ & Hd2).
  assert (r0 = r) as -> by congruence. split; [done|]. apply (wrote_from _ d1); [done|]. apply sbind_Ok in Hok as (? & d3 & H3%one_Ok & Hok).
  apply updOrder_Some in H3 as (o0 & Ho0 & Hos%bool_decide_eq_true & Hchk & Hd3). rewrite Hd2 in Ho0, Hd3. simpl in Ho0. assert (o0 = o) as -> by congruence.
  apply sbind_Ok in Hok as (? & d4 & <-%modify_Ok & Hok). tail Hok (updTickets order [TActive] TRefundPending d3). rewrite Hd3. split; [|done].
  destruct (in_orders _ Hi order o Ho) as (r1 & Hr1 & Hf). rewrite Hres in Hr1. assert (r1 = r) as -> by congruence.
  eapply (ShInv_move d1 _ (mc_reservation c) order r (resTo RefundPending r) o (Store.ordCaptured ORefundPending o) [TActive] TRefundPending); simpl; try done.
  - by apply (resTo_fits o).
  - intros st Hs. clear -Hs Hos. destruct (od_status o); simpl in Hs; simplify_eq; try done; set_solver.
  - rewrite (claimsOf_restatus _ _ _ r); [exact (in_exact _ Hi)|done|]. destruct (rv_status r); done || set_solver.
Qed.

Lemma markTx_inv clk route c d v d' : ShInv d -> Store.markTx clk route c d = Ok (v, d') -> ShInv d' /\ effect ByPayment clk d d'.
Proof.
  intros Hi Hok. unfold Store.markTx in Hok. opening Hok Hi.
  destruct (Store.routedReservation _ _ d) as [r|] eqn:Er; [|by apply raise_Ok in Hok]. apply routedReservation_Some in Er as (Hr & Hrun & Hgen).
  apply sbind_Ok in Hok as (? & ? & [_ <-]%guardS_Ok & Hok). apply sbind_Ok in Hok as (? & ? & [Hint <-]%guardS_Ok & Hok). cbv zeta in Hok.
  destruct (Store.paymentOrder _ _ _ _ _ d) as [o|] eqn:Eo; [|by apply raise_Ok in Hok]. apply paymentOrder_Some in Eo as [Ho Hres].
  apply sbind_Ok in Hok as (? & ? & [_ <-]%guardS_Ok & Hok). do 3 (apply orb_false_iff in Hint as [Hint _]). apply negb_false_iff, bool_decide_eq_true in Hint.
  eapply markWrites_inv in Hok as [Hst [Hi' Hr']]; try done. split; [done|]. eapply (paid_move _ _ _ _ _ _ RefundPending); [exact Hr|by eapply lockFence_open|exact Hint| |exact Hr'].
  unfold shardEdge, extraEdges. destruct (rv_status r); try set_solver; left; constructor.
Qed.

Lemma cancelledEvents_keep route c order ts d u d' : Store.cancelledEvents route c order ts d = Ok (u, d') -> core d' = core d.
Proof.
  revert d. induction ts as [|t ts IH]; intros d Hok; simpl in Hok; [by apply sret_Ok in Hok as [_ <-]|].
  unfold Store.appendOutbox, Store.px in Hok. apply sbind_Ok in Hok as (? & d1 & H1%one_Ok & Hok). keep. apply IH in Hok. congruence.
Qed.

Lemma compWrites_inv clk route c order d v d' r o :
  ShInv d -> resv d !! rc_reservation c = Some r -> rv_status r = RefundPending ->
  orders d !! order = Some o -> od_reservation o = rc_reservation c -> od_status o = ORefundPending ->
  Store.compWrites clk route c order d = Ok (v, d') -> wrote d d' (rc_reservation c) (resTo Cancelled r).
Proof.
  intros Hi0 Hr Hst Ho Hres Hos Hok. apply opened_inv in Hok as (d1 & Hi & H1 & Hok); [|done]. unfold Store.px in Hok. clear Hi0.
  apply (wrote_from _ d1); [done|]. injection H1 as _ H1r _ H1o _. rewrite <- H1r in Hr. rewrite <- H1o in Ho. clear H1r H1o. cbv zeta in Hok.
  apply sbind_Ok in Hok as (? & d2 & H2%one_Ok & Hok). keep. apply (wrote_from _ d2); [done|]. apply (ShInv_core _ d2) in Hi; [|done]. injection H2 as _ H2r _ H2o _.
  rewrite <- H2r in Hr. rewrite <- H2o in Ho. clear H2r H2o d1.
  apply sbind_Ok in Hok as (? & ? & [<- <-]%shard_Ok & Hok). cbv zeta in Hok. apply sbind_Ok in Hok as (? & ? & [_ <-]%guardS_Ok & Hok).
  apply sbind_Ok in Hok as (n & d3 & Hrel%counted_Ok & Hok). apply sbind_Ok in Hok as (? & ? & [Hn%negb_false_iff%Nat.eqb_eq <-]%guardS_Ok & Hok).
  apply sbind_Ok in Hok as (? & ? & [<- <-]%shard_Ok & Hok). cbv zeta in Hok. apply sbind_Ok in Hok as (? & ? & [_ <-]%guardS_Ok & Hok).
  apply sbind_Ok in Hok as (? & d4 & H4%modify_Ok & Hok). apply sbind_Ok in Hok as (? & d5 & H5%one_Ok & Hok).
  apply updOrder_Some in H5 as (o0 & Ho0 & _ & Hchk & Hd5). apply sbind_Ok in Hok as (? & d6 & H6%one_Ok & Hok).
  apply updReservation_Some in H6 as (r0 & Hr0 & _ & _ & _ & Hd6).
  apply sbind_Ok in Hok as (? & d7 & H7%one_Ok & Hok). keep. unfold Store.appendOutbox, Store.px in Hok.
  apply sbind_Ok in Hok as (? & d8 & H8%one_Ok & Hok). apply sbind_Ok in Hok as (? & d9 & H9%one_Ok & Hok). keep.
  apply sbind_Ok in Hok as (? & d10 & H10%cancelledEvents_keep & Hok). tail Hok d10. apply (wrote_core _ d6); [congruence|]. clear H7 H8 H9 H10.
  eapply (releaseSeats_exact (resv d2) _ _ (rc_reservation c) r (resTo Cancelled r)) in Hrel as (w & Hd3 & Hex);
    [|exact (in_exact _ Hi)|done|by rewrite Hst|done|exact (in_unique _ Hi)|exact Hn].
  rewrite <- H4, Hd3 in Ho0, Hd5. simpl in Ho0. assert (o0 = o) as -> by congruence. rewrite Hd5 in Hr0, Hd6. simpl in Hr0. assert (r0 = r) as -> by congruence.
  destruct (in_orders _ Hi order o Ho) as (r1 & Hr1 & Hf). rewrite Hres in Hr1. assert (r1 = r) as -> by congruence. rewrite Hd6. split; [|done].
  eapply (ShInv_move d2 _ (rc_reservation c) order r (resTo Cancelled r) o (Store.ordRefunded o) Store.cancellable TCancelled); simpl; try done.
  - by apply (resTo_fits o).
  - intros st. rewrite Hos. intros [= <-]. done.
Qed.

Lemma compTx_inv clk route c d v d' : ShInv d -> Store.compTx clk route c d = Ok (v, d') -> ShInv d' /\ effect ByPayment clk d d'.
Proof.
  intros Hi Hok. unfold Store.compTx in Hok. opening Hok Hi.
  destruct (Store.routedReservation _ _ d) as [r|] eqn:Er; [|by apply raise_Ok in Hok]. apply routedReservation_Some in Er as (Hr & Hrun & Hgen).
  apply sbind_Ok in Hok as (? & ? & [_ <-]%guardS_Ok & Hok). apply sbind_Ok in Hok as (? & ? & [Hst <-]%guardS_Ok & Hok). cbv zeta in Hok.
  destruct (Store.paymentOrder _ _ _ _ _ d) as [o|] eqn:Eo; [|by apply raise_Ok in Hok]. apply paymentOrder_Some in Eo as [Ho Hres].
  apply sbind_Ok in Hok as (? & ? & [Hos%negb_false_iff%bool_decide_eq_true <-]%guardS_Ok & Hok). unfold resIn in Hst. bsplit.
  assert (Hrs : rv_status r = RefundPending) by set_solver.
  eapply compWrites_inv in Hok as [Hi' Hr']; [|done|exact Hr|done|exact Ho|done|set_solver]. split; [done|].
  eapply (paid_move _ _ _ _ _ _ Cancelled); [exact Hr|by eapply lockFence_open|eassumption| |exact Hr']. left. rewrite Hrs. constructor.
Qed.

(** A void leaves the tickets alone: there are none. *)
Lemma retix_none o new (m : gmap uuid TixRow) : retix o [] new <$> m = m.
Proof.
  apply map_eq. intros q. rewrite lookup_fmap. destruct (m !! q) as [t|]; [|done]. simpl. f_equal. unfold retix.
  by rewrite (bool_decide_false (tk_status t ∈ [])), andb_false_r by apply not_elem_of_nil.
Qed.

Lemma voidWrites_inv clk route c order d v d' r o :
  ShInv d -> resv d !! vc_reservation c = Some r -> resIn [PaymentPending; PaymentReview] r = true ->
  orders d !! order = Some o -> od_reservation o = vc_reservation c -> Store.ordIn Store.voidable o = true ->
  Store.voidWrites clk route c order (length (seatsOfReservation d (vc_reservation c))) d = Ok (v, d') ->
  wrote d d' (vc_reservation c) (resTo Cancelled r).
Proof.
  intros Hi0 Hr Hst%bool_decide_eq_true Ho Hres Hos%bool_decide_eq_true Hok. apply opened_inv in Hok as (d1 & Hi & H1 & Hok); [|done]. unfold Store.px in Hok. clear Hi0.
  apply (wrote_from _ d1); [done|]. rewrite <- (seatsOf_core d d1) in Hok by done. injection H1 as _ H1r _ H1o _. rewrite <- H1r in Hr. rewrite <- H1o in Ho. clear H1r H1o.
  apply sbind_Ok in Hok as (n & d2 & Hrel%counted_Ok & Hok). apply sbind_Ok in Hok as (? & ? & [Hn%negb_false_iff%Nat.eqb_eq <-]%guardS_Ok & Hok).
  apply sbind_Ok in Hok as (? & d3 & H3%one_Ok & Hok). apply updOrder_Some in H3 as (o0 & Ho0 & _ & Hchk & Hd3).
  apply sbind_Ok in Hok as (? & d4 & H4%one_Ok & Hok). apply updReservation_Some in H4 as (r0 & Hr0 & _ & _ & _ & Hd4). tail Hok d4.
  eapply (releaseSeats_exact (resv d1) _ _ (vc_reservation c) r (resTo Cancelled r)) in Hrel as (w & Hd2 & Hex);
    [|exact (in_exact _ Hi)|done|clear -Hst; destruct (rv_status r); done || set_solver|done|exact (in_unique _ Hi)|exact Hn].
  rewrite Hd2 in Ho0, Hd3. simpl in Ho0. assert (o0 = o) as -> by congruence. rewrite Hd3 in Hr0, Hd4. simpl in Hr0. assert (r0 = r) as -> by congruence.
  destruct (in_orders _ Hi order o Ho) as (r1 & Hr1 & Hf). rewrite Hres in Hr1. assert (r1 = r) as -> by congruence. rewrite Hd4. split; [|done].
  eapply (ShInv_move d1 _ (vc_reservation c) order r (resTo Cancelled r) o (ordTo OCancelled o) [] TCancelled); simpl; try done.
  - by apply (resTo_fits o).
  - by rewrite retix_none.
  - intros st. clear -Hos. unfold Store.voidable in Hos. destruct (od_status o); try done; set_solver.
Qed.

Lemma voidTx_inv clk route c d v d' : ShInv d -> Store.voidTx clk route c d = Ok (v, d') -> ShInv d' /\ effect ByPayment clk d d'.
Proof.
  intros Hi Hok. unfold Store.voidTx in Hok. opening Hok Hi. apply sbind_Ok in Hok as (? & ? & [_ <-]%guardS_Ok & Hok).
  destruct (Store.routedReservation _ _ d) as [r|] eqn:Er; [|by apply raise_Ok in Hok]. apply routedReservation_Some in Er as (Hr & Hrun & Hgen).
  apply sbind_Ok in Hok as (? & ? & [_ <-]%guardS_Ok & Hok). apply sbind_Ok in Hok as (? & ? & [Hst <-]%guardS_Ok & Hok). cbv zeta in Hok.
  destruct (Store.routedOrder _ _ _ _ _ _ d) as [o|] eqn:Eo; [|by apply raise_Ok in Hok]. apply routedOrder_Some in Eo as [Ho Hres].
  apply sbind_Ok in Hok as (? & ? & [Hos <-]%guardS_Ok & Hok). apply sbind_Ok in Hok as (? & ? & [_ <-]%guardS_Ok & Hok).
  apply sbind_Ok in Hok as (? & ? & [_ <-]%guardS_Ok & Hok). apply orb_false_iff in Hst as [Hint Hst%negb_false_iff]. do 2 (apply orb_false_iff in Hint as [Hint _]). apply negb_false_iff, bool_decide_eq_true in Hint.
  do 3 (apply orb_false_iff in Hos as [Hos _]). apply negb_false_iff in Hos.
  rewrite (routedSeats_all route _ d r), length_map in Hok by done. eapply voidWrites_inv in Hok as [Hi' Hr']; try done. split; [done|].
  eapply (paid_move _ _ _ _ _ _ Cancelled); [exact Hr|by eapply lockFence_open|exact Hint| |exact Hr']. apply bool_decide_eq_true in Hst.
  unfold shardEdge, extraEdges. destruct (rv_status r); set_solver.
Qed.
End Safety.
