(* ===== verification/ShardCalls.v ===== *)
(** * Physical shards: calls and the transactions they run

    A call to the booking executor, the payment gateway or the hold expirer is
    a sequence of transactions on the shards of the fleet, whatever the router
    and the directory answer: a preorder on shards that its transactions
    respect relates every shard before the call to the shard after it. *)

From S2P Require Import Prelude Transaction SegmentMask BookingDomain Sharding PaymentDomain PaymentDb PaymentClaims PaymentFinalize PaymentControl PaymentWorker BookingDb ShardDb ShardBooking ShardPayment ShardExpiry ShardLogic.
Import ShardTypes.

Definition fleetRel (R : Shard -> Shard -> Prop) (fl fl' : Fleet) : Prop :=
  dom fl' = dom fl /\ forall s d d', fl !! s = Some d -> fl' !! s = Some d' -> R d d'.
Definition callRel (R : Shard -> Shard -> Prop) {A} (call : Fleet -> A * Fleet) : Prop := forall fl, fleetRel R fl (call fl).2.
Lemma fleetRel_before R fl fl' s d' : fleetRel R fl fl' -> fl' !! s = Some d' -> exists d, fl !! s = Some d /\ R d d'.
Proof.
  intros [Hdom H] Hd'. assert (Hin : s ∈ dom fl) by (rewrite <- Hdom; apply elem_of_dom; eauto). apply elem_of_dom in Hin as [d Hd]. eauto.
Qed.
Lemma fleetRel_after R fl fl' s d : fleetRel R fl fl' -> fl !! s = Some d -> exists d', fl' !! s = Some d' /\ R d d'.
Proof.
  intros [Hdom H] Hd. assert (Hin : s ∈ dom fl') by (rewrite Hdom; apply elem_of_dom; eauto). apply elem_of_dom in Hin as [d' Hd']. eauto.
Qed.
Lemma fleetRel_mono (R R' : Shard -> Shard -> Prop) fl fl' : (forall d d', R d d' -> R' d d') -> fleetRel R fl fl' -> fleetRel R' fl fl'.
Proof. intros Hm [Hdom H]. split; [done|]. eauto. Qed.

Section Calls.
Context {hashing : Hashing} (R : Shard -> Shard -> Prop) `{!PreOrder R}.

#[export] Instance fleetRel_preorder : PreOrder (fleetRel R).
Proof.
  split.
  - intros fl. split; [done|]. intros s d d' H1 H2. assert (d' = d) as -> by congruence. reflexivity.
  - intros fl1 fl2 fl3 [D1 H1] [D2 H2]. split; [congruence|]. intros s d d' Hd Hd'. destruct (fleetRel_after R fl1 fl2 s d) as (d2 & Hd2 & HR); [by split|done|].
    transitivity d2; [done|by eapply H2].
Qed.
Lemma fleetRel_insert fl s d d' : fl !! s = Some d -> R d d' -> fleetRel R fl (<[s := d']> fl).
Proof.
  intros Hs Ht. split; [apply dom_insert_lookup_L; by rewrite Hs|]. intros s1 d1 d1' H1. destruct (decide (s = s1)) as [<-|Hne].
  - rewrite lookup_insert_eq. intros [= <-]. by assert (d1 = d) as -> by congruence.
  - rewrite lookup_insert_ne by done. intros H2. assert (d1' = d1) as -> by congruence. reflexivity.
Qed.

(** ** The executor and the expirer *)
Lemma onShard_rel {E A} (e : E) s (m : SM E (res E A)) : respects R m -> callRel R (onShard e s m).
Proof.
  intros Hm fl. unfold onShard. destruct (fl !! s) as [d|] eqn:Ed; [|reflexivity]. destruct (m d) as [[r d']|] eqn:E1; [|reflexivity].
  eapply fleetRel_insert; [exact Ed|]. by eapply Hm.
Qed.
Lemma executeOnce_rel maxTTL now clk c rz : (forall write, respects R (executeTx maxTTL now clk c write)) -> callRel R (executeOnce maxTTL now clk c rz).
Proof. intros Hm fl. unfold executeOnce. destruct (negb _); [reflexivity|]. by apply onShard_rel. Qed.
Lemma refresh_rel router maxTTL now clk c :
  (forall write, respects R (executeTx maxTTL now clk c write)) -> callRel R (refreshAndExecute router maxTTL now clk c).
Proof. intros Hm fl. unfold refreshAndExecute. destruct (router _ true); [|reflexivity]. destruct (negb _); [reflexivity|]. by apply executeOnce_rel. Qed.
Lemma Execute_rel router maxTTL now clk c : (forall write, respects R (executeTx maxTTL now clk c write)) -> callRel R (Execute router maxTTL now clk c).
Proof.
  intros Hm fl. unfold Execute. destruct (negb _); [reflexivity|]. destruct (router _ false) as [rz|]; [|reflexivity].
  destruct (negb _); [by apply refresh_rel|]. pose proof (executeOnce_rel maxTTL now clk c rz Hm fl) as H1.
  destruct (executeOnce _ _ _ _ _ _) as [[v|e] fl1]; [done|]. destruct e as [| | | | | | |[]]; try done. etransitivity; [exact H1|by apply refresh_rel].
Qed.
Lemma CancelTrainRun_rel router clk run : (forall rz, respects R (cancelTrainRunTx clk run rz)) -> callRel R (CancelTrainRun router clk run).
Proof.
  intros Hm fl. unfold CancelTrainRun. case_bool_decide; [reflexivity|]. destruct (router _ _); [|reflexivity]. by apply onShard_rel.
Qed.
Lemma expireLoop_rel limit clk now name d : respects R (expireOne clk now name) -> R d (expireLoop limit clk now name d).2.
Proof.
  intros Hm. revert d. induction limit as [|n IH]; intros d; simpl; [reflexivity|]. destruct (expireOne clk now name d) as [[[] d1]|e] eqn:E; [| |reflexivity].
  - specialize (IH d1). destruct (expireLoop n clk now name d1) as [[k e] d2]. simpl in *. transitivity d1; [by eapply Hm|done].
  - simpl. by eapply Hm.
Qed.
Lemma ProcessExpirations_rel limit clk now name : respects R (expireOne clk now name) -> callRel R (ProcessExpirations limit clk now name).
Proof.
  intros Hm fl. unfold ProcessExpirations. destruct (fl !! name) as [d|] eqn:Ed; [|reflexivity]. destruct (_ || _); [reflexivity|].
  pose proof (expireLoop_rel (Z.to_nat limit) clk now name d Hm) as Hl. destruct (expireLoop _ _ _ _ _) as [r d']. by eapply fleetRel_insert.
Qed.

(** ** The payment gateway *)
Lemma inTx_rel {A} router route (b : bool) (e : PayErr) (m : SM PayErr A) :
  respects R m -> callRel R (fun fl => if b then (Err e, fl) else Store.inTx router route m fl).
Proof.
  intros Hm fl. destruct b; [reflexivity|]. unfold Store.inTx. destruct (Store.resolve _ _ _ _) as [s|]; [|reflexivity].
  destruct (fl !! s) as [d|] eqn:Ed; [|reflexivity]. destruct (m d) as [[a d']|] eqn:E; [|reflexivity].
  eapply fleetRel_insert; [exact Ed|]. by eapply Hm.
Qed.
Lemma dispatch_rel {A} directory reservation run (call : ShardRoute -> Fleet -> res PayErr A * Fleet) :
  (forall route, callRel R (call route)) -> callRel R (Gateway.dispatch directory reservation run call).
Proof.
  intros Hc fl. unfold Gateway.dispatch. destruct (_ || _); [reflexivity|]. destruct (directory _ false) as [route|]; [|reflexivity].
  destruct (negb _); [reflexivity|]. pose proof (Hc route fl) as H1. destruct (call route fl) as [[v|e] fl1]; [done|].
  destruct (Gateway.staleOrFenced e); [|done]. destruct (directory _ true) as [route'|]; [|done]. destruct (negb _); [done|].
  etransitivity; [exact H1|apply Hc].
Qed.
Lemma gatewayIssue_rel {C} router directory clk (claim : option (IssueTicketsCommand -> list uuid -> list string -> C -> res ShardErr unit * C)) c w :
  (forall route ids codes, respects R (Store.issueTx clk route c ids codes)) -> fleetRel R w.1 (Gateway.IssueTickets router directory clk claim c w).2.1.
Proof.
  intros Hm. destruct w as [fl codes]. unfold Gateway.IssueTickets. destruct claim as [claim|]; [|reflexivity]. destruct (_ || _); [reflexivity|].
  destruct (directory _ false) as [route|]; [|reflexivity]. destruct (negb _); [reflexivity|].
  destruct (Store.PlanTicketIssue _ _ _ _) as [[ids planned]|]; [|reflexivity]. destruct (claim c ids planned codes) as [[[]|e] codes']; [|reflexivity].
  assert (Hs : forall route, callRel R (Store.IssueTickets router clk route c ids planned)) by (intros rt; by apply inTx_rel).
  pose proof (Hs route fl) as H1. destruct (Store.IssueTickets _ _ route _ _ _ _) as [[v|e] fl1]; [done|]. destruct (Gateway.staleOrFenced e); [|done].
  destruct (directory _ true) as [route'|]; [|done]. destruct (negb _); [done|]. pose proof (Hs route' fl1) as H2.
  destruct (Store.IssueTickets _ _ route' _ _ _ _) as [[v|e2] fl2]; (etransitivity; [exact H1|exact H2]).
Qed.
End Calls.
