(* ===== verification/ShardHistory.v ===== *)
(** * Physical shards: histories of calls

    Every call to the booking executor, the payment gateway and the hold
    expirer is a sequence of transactions on the shards of the fleet, whatever
    the router and the directory answer; each transaction keeps the invariant
    of its shard, moves at most one reservation along the lifecycle, under an
    open fence, and takes back nothing durable. *)

From S2P Require Import Prelude Transaction SegmentMask BookingDomain Sharding PaymentDomain PaymentDb PaymentClaims PaymentFinalize PaymentControl PaymentWorker BookingDb Occupancy ShardDb ShardBooking ShardPayment ShardExpiry ShardLogic ShardDurable ShardInvariant ShardSafety ShardCalls.
Import ShardTypes.

(** One committed transaction. *)
Record txStep (by_ : Actor) (t : Z) (d d' : Shard) : Prop := {
  ts_inv : ShInv d'; ts_effect : effect by_ t d d'; ts_durable : durable d d' }.
Definition sound (by_ : Actor) (t : Z) {E A} (m : SM E A) : Prop := forall d a d', ShInv d -> m d = Ok (a, d') -> txStep by_ t d d'.
(** A sequence of them. *)
Definition txSteps (by_ : Actor) (t : Z) : Shard -> Shard -> Prop := rtc (fun d d' => ShInv d -> txStep by_ t d d').
Definition fleetSteps (by_ : Actor) (t : Z) : Fleet -> Fleet -> Prop := fleetRel (txSteps by_ t).
Lemma sound_respects by_ t {E A} (m : SM E A) : sound by_ t m -> respects (txSteps by_ t) m.
Proof. intros Hm d a d' Hok. apply rtc_once. intros Hi. by eapply Hm. Qed.

Section History.
Context {hashing : Hashing}.

(** ** The executor *)
Lemma lockLocal_open c d n r : lockLocalAuthority c d = Ok n -> rv_run r = cm_run c -> rv_gen r = generation (cm_route c) -> openFor d r.
Proof.
  unfold lockLocalAuthority, fenceSnapshot. intros H Hrun Hgen. destruct (fences d !! _) as [f|] eqn:Ef; simpl in H; [|done].
  destruct (snapshots d !! _); simpl in H; [|done]. destruct (_ || _) eqn:E1 in H; [done|]. destruct (_ || _) eqn:E2 in H; [done|]. bsplit.
  exists f. rewrite Hrun. split_and!; congruence.
Qed.
Lemma lockLifecycle_open c d u r : lockLifecycleAuthority c d = Ok u -> rv_run r = cm_run c -> rv_gen r = generation (cm_route c) -> openFor d r.
Proof.
  unfold lockLifecycleAuthority, fenceSnapshot. intros H Hrun Hgen. destruct (fences d !! _) as [f|] eqn:Ef; simpl in H; [|done].
  destruct (snapshots d !! _); simpl in H; [|done]. destruct (negb _) eqn:E1 in H; [done|]. destruct (negb _) eqn:E2 in H; [done|]. bsplit.
  exists f. rewrite Hrun. split_and!; congruence.
Qed.

(** The mutation of a command under its authority. *)
Definition mutates (t : Z) (c : Command) {A} (m : SM ExecErr A) : Prop := forall d a d',
  ShInv d -> (forall r, rv_run r = cm_run c -> rv_gen r = generation (cm_route c) -> openFor d r) -> m d = Ok (a, d') -> ShInv d' /\ effect ByBooking t d d'.

Lemma effect_core by_ t d1 d2 d' : core d2 = core d1 -> fences d2 = fences d1 -> effect by_ t d2 d' -> effect by_ t d1 d'.
Proof.
  intros [= _ Hr _ _ _] Hf [He|k r ? ? ? ? (f & ?) ?|k r r' ? (f & ?) ? ?]; rewrite Hr, ?Hf in *.
  - by apply eff_none.
  - eapply eff_new; try done. by exists f.
  - eapply eff_move; try done. by exists f.
Qed.

Lemma lifecycle_mutates clk c : mutates clk c (lifecycleMutation clk c).
Proof.
  intros d a d' Hi Hopen Hok. unfold lifecycleMutation in Hok. apply sbind_Ok in Hok as (rc & d1 & H1 & Hok).
  assert (Hc : core d' = core d1).
  { unfold ex1, succeedReceipt in Hok. clear H1 Hi Hopen. destruct (rc.2); inv_S Hok; keep; congruence. }
  cut (ShInv d1 /\ effect ByBooking clk d d1).
  { intros [Hi1 He]. split; [by apply (ShInv_core d1)|]. injection Hc as _ Hr _ _ _. destruct He; [apply eff_none|eapply eff_new|eapply eff_move]; try done; congruence. }
  clear Hok Hc. destruct (bool_decide _).
  - apply confirmReservation_inv in H1 as (r & Hr & Hrun & Hgen & [(_ & Hi1 & Hw)|(Hm & Hi1 & Hw)]); [| |done]; (split; [done|]).
    + apply eff_none. by rewrite Hw, insert_id.
    + eapply eff_move; [exact Hr|by apply Hopen|exact Hm|exact Hw].
  - apply cancelReservation_inv in H1 as (r & Hr & Hrun & Hgen & [(Hi1 & Hw)|(Hm & Hi1 & Hw)]); [| |done]; (split; [done|]).
    + by apply eff_none.
    + eapply eff_move; [exact Hr|by apply Hopen|exact (Hm clk)|exact Hw].
Qed.
Lemma create_mutates clk segments c : mutates clk c (createMutation clk segments c).
Proof.
  intros d a d' Hi Hopen Hok. apply createMutation_inv in Hok as (row & Hnew & Hst & Hpay & Hrun & Hgen & _ & _ & Hi' & Hw); [|done].
  split; [done|]. eapply eff_new; try done. by apply Hopen.
Qed.

Lemma started_sound t c m d a d' :
  ShInv d -> mutates t c m -> (forall r, rv_run r = cm_run c -> rv_gen r = generation (cm_route c) -> openFor d r) ->
  (startReceipt c ;; withSavepoint c m) d = Ok (a, d') -> ShInv d' /\ effect ByBooking t d d'.
Proof.
  intros Hi Hm Hopen Hok. unfold startReceipt, ex1 in Hok. apply sbind_Ok in Hok as (? & d1 & H1%one_Ok & Hok).
  pose proof (durable_insBReceipt _ _ _ _ H1) as [Hf _ _ _ _ _ _ _ _ _]. keep. apply (ShInv_core d d1) in Hi as Hi1; [|done].
  cut (ShInv d' /\ effect ByBooking t d1 d'); [intros [? ?]; split; [done|by eapply effect_core]|].
  unfold withSavepoint in Hok. destruct (m d1) as [[r d2]|e] eqn:E.
  - injection Hok as _ <-. eapply Hm; [done| |exact E]. intros r0 Hr Hg. destruct (Hopen r0 Hr Hg) as (f & ? & ? & ?). exists f. by rewrite Hf.
  - destruct (rejectionCode e); [|done]. destruct (closeBReceipt _ _ _) as [d2|] eqn:Ec; [|done]. injection Hok as _ <-. keep.
    split; [by apply (ShInv_core d1)|]. apply eff_none. by injection Ec.
Qed.

Lemma executeTx_sound maxTTL now clk c write : sound ByBooking clk (executeTx maxTTL now clk c write).
Proof.
  intros d a d' Hi Hok. pose proof (durable_executeTx _ _ _ _ _ _ _ _ Hok) as Hdur.
  cut (ShInv d' /\ effect ByBooking clk d d'); [intros [? ?]; by split|]. unfold executeTx in Hok.
  apply sbind_Ok in Hok as (found & ? & [_ <-]%reads_Ok & Hok). destruct found; [apply sret_Ok in Hok as [_ <-]; split; [done|by apply eff_none]|].
  destruct (lifecycleOp _).
  - unfold executeLifecycleTx in Hok. apply sbind_Ok in Hok as (? & ? & [_ <-]%guardS_Ok & Hok). apply sbind_Ok in Hok as (? & ? & [Hauth <-]%reads_Ok & Hok).
    apply sbind_Ok in Hok as (found & ? & [_ <-]%reads_Ok & Hok). destruct found; [apply sret_Ok in Hok as [_ <-]; split; [done|by apply eff_none]|].
    eapply started_sound in Hok; [done|done|apply lifecycle_mutates|]. intros r. by eapply lockLifecycle_open.
  - unfold executeCreateTx in Hok. cbv zeta in Hok. apply sbind_Ok in Hok as (? & ? & [_ <-]%guardS_Ok & Hok). apply sbind_Ok in Hok as (? & ? & [_ <-]%guardS_Ok & Hok).
    apply sbind_Ok in Hok as (n & ? & [Hauth <-]%reads_Ok & Hok). apply sbind_Ok in Hok as (found & ? & [_ <-]%reads_Ok & Hok).
    destruct found; [apply sret_Ok in Hok as [_ <-]; split; [done|by apply eff_none]|].
    eapply started_sound in Hok; [done|done|apply create_mutates|]. intros r. by eapply lockLocal_open.
Qed.

Lemma cancelTrainRunTx_sound t clk run rz : sound ByBooking t (cancelTrainRunTx clk run rz).
Proof.
  intros d a d' Hi Hok. pose proof (durable_cancelTrainRunTx _ _ _ _ _ _ Hok) as Hdur.
  cut (core d' = core d). { intros Hc. split; [by apply (ShInv_core d)|apply eff_none; by injection Hc|done]. }
  clear Hdur Hi. unfold cancelTrainRunTx, ex1 in Hok. apply sbind_Ok in Hok as (? & ? & [<- <-]%shard_Ok & Hok). destruct (breceipts d !! _) as [r|].
  { destruct (bk_state r); try by apply raise_Ok in Hok. destruct (_ || _); [by apply raise_Ok in Hok|]. by apply sret_Ok in Hok as [_ <-]. }
  apply sbind_Ok in Hok as (? & ? & [_ <-]%guardS_Ok & Hok). destruct (fenceSnapshot run d) as [[f s]|]; [|by apply raise_Ok in Hok].
  inv_S Hok. keep.
  match goal with H : cancelSnapshot _ _ ?a = Some ?b |- _ => assert (core b = core a) by (unfold cancelSnapshot in H; repeat case_match; simplify_eq; done) end.
  match goal with H : insEvidence _ _ _ _ _ ?a = Some ?b |- _ => assert (core b = core a) by (apply insEvidence_Some in H as (v & ->); done) end.
  congruence.
Qed.

(** ** The expirer *)
Lemma expiryCandidate_Some now d id r : expiryCandidate now d = Some (id, r) -> resv d !! id = Some r /\ overdue now d r = true.
Proof.
  unfold expiryCandidate. intros H%head_Some_elem_of. apply elem_of_sortBy, list_elem_of_filter in H as [Ho H%elem_of_map_to_list]. done.
Qed.
Lemma releaseRouted_all d id r :
  ShInv d -> resv d !! id = Some r -> releaseRouted id (rv_run r) (rv_gen r) d = releaseSeats id d.
Proof.
  intros Hi Hr. unfold releaseRouted, releaseSeats. f_equal. apply filter_all. intros j Hj. unfold joined in Hj.
  apply list_elem_of_omap in Hj as ([q s] & [Hs Hk]%elem_of_seatsOf & Hj). simpl in *. destruct (inv d !! _); [|done]. injection Hj as <-. simpl.
  destruct (in_seats _ Hi q s Hs) as (r0 & Hr0 & <- & <-). rewrite Hk in Hr0. by assert (r0 = r) as -> by congruence.
Qed.
Lemma overdue_true now d r :
  overdue now d r = true -> rv_status r = Held /\ rv_expires r <= now /\ openFor d r.
Proof.
  unfold overdue. intros H. bsplit. destruct (fences d !! rv_run r) as [f|] eqn:Ef; [|done]. bsplit. split_and!; [done|by apply Z.leb_le|]. by exists f.
Qed.

(** What an expired hold was and what is left of it. *)
Lemma expireOne_Ok clk now name d d' :
  ShInv d -> expireOne clk now name d = Ok (true, d') ->
  exists id r, resv d !! id = Some r /\ rv_status r = Held /\ rv_expires r <= now /\ openFor d r /\
    moves ByBooking now r (resTo Expired r) /\ wrote d d' id (resTo Expired r).
Proof.
  intros Hi Hok. unfold expireOne in Hok. apply sbind_Ok in Hok as (? & ? & [<- <-]%shard_Ok & Hok).
  destruct (expiryCandidate now d) as [[id r]|] eqn:Ec; [|by apply sret_Ok in Hok as [? _]]. apply expiryCandidate_Some in Ec as [Hr Ho].
  apply overdue_true in Ho as (Hst & Hexp & Hopen). cbv zeta in Hok. apply sbind_Ok in Hok as (? & ? & [_ <-]%guardS_Ok & Hok).
  apply sbind_Ok in Hok as (n & d1 & Hrel%counted_Ok & Hok). apply sbind_Ok in Hok as (? & ? & [Hn%negb_false_iff%Nat.eqb_eq <-]%guardS_Ok & Hok).
  rewrite releaseRouted_all in Hrel by done. apply sbind_Ok in Hok as (? & d2 & H2%one_Ok & Hok). apply updReservation_Some in H2 as (r0 & Hr0 & _ & Hchk & _ & Hd2).
  apply sbind_Ok in Hok as (? & d3 & H3%one_Ok & Hok). apply sbind_Ok in Hok as (? & d4 & H4%one_Ok & Hok). apply sret_Ok in Hok as [_ <-]. keep.
  apply insEvidence_Some in H4 as (v & ->). exists id, r. do 4 (split; [done|]).
  eapply (releaseSeats_exact (resv d) _ _ id r (resTo Expired r)) in Hrel as (w & Hd1 & Hex); [|exact (in_exact _ Hi)|done|by rewrite Hst|done|exact (in_unique _ Hi)|exact Hn].
  rewrite Hd1 in Hr0, Hd2, Hchk. simpl in Hr0. assert (r0 = r) as -> by congruence. split.
  - assert (Hp : rv_payment r = None).
    { unfold resCheck, paySnapCheck in Hchk. simpl in Hchk. destruct (rv_payment r); [|done]. rewrite andb_false_r in Hchk. bsplit. done. }
    split; simpl; [|done|done]. left. rewrite Hst. by constructor.
  - apply (wrote_core _ d2); [done|]. rewrite Hd2. split; [|done].
    eapply (ShInv_solo d _ id r (resTo Expired r)); try done. intros j o Ho. by eapply held_no_order.
Qed.
Lemma expireOne_sound clk now name : sound ByBooking now (expireOne clk now name).
Proof.
  intros d a d' Hi Hok. pose proof (durable_expireOne _ _ _ _ _ _ Hok) as Hdur. destruct a.
  - apply expireOne_Ok in Hok as (id & r & Hr & _ & _ & Hopen & Hm & Hi' & Hw); [|done]. split; [done| |done]. by eapply eff_move.
  - unfold expireOne in Hok. apply sbind_Ok in Hok as (? & ? & [<- <-]%shard_Ok & Hok).
    destruct (expiryCandidate now d) as [[id r]|]; [inv_S Hok; done|]. apply sret_Ok in Hok as [_ <-]. split; [done|by apply eff_none|done].
Qed.

(** ** Payment transactions *)
Lemma beginTx_sound clk route c : sound ByPayment clk (Store.beginTx clk route c).
Proof. intros d a d' Hi Hok. pose proof (durable_beginTx _ _ _ _ _ _ Hok). apply beginTx_inv in Hok as [? ?]; [by split|done]. Qed.
Lemma issueTx_sound clk route c ids codes : sound ByPayment clk (Store.issueTx clk route c ids codes).
Proof. intros d a d' Hi Hok. pose proof (durable_issueTx _ _ _ _ _ _ _ _ Hok). apply issueTx_inv in Hok as [? ?]; [by split|done]. Qed.
Lemma markTx_sound clk route c : sound ByPayment clk (Store.markTx clk route c).
Proof. intros d a d' Hi Hok. pose proof (durable_markTx _ _ _ _ _ _ Hok). apply markTx_inv in Hok as [? ?]; [by split|done]. Qed.
Lemma compTx_sound clk route c : sound ByPayment clk (Store.compTx clk route c).
Proof. intros d a d' Hi Hok. pose proof (durable_compTx _ _ _ _ _ _ Hok). apply compTx_inv in Hok as [? ?]; [by split|done]. Qed.
Lemma voidTx_sound clk route c : sound ByPayment clk (Store.voidTx clk route c).
Proof. intros d a d' Hi Hok. pose proof (durable_voidTx _ _ _ _ _ _ Hok). apply voidTx_inv in Hok as [? ?]; [by split|done]. Qed.

(** ** Calls *)
Lemma Execute_steps router maxTTL now clk c fl : fleetSteps ByBooking clk fl (Execute router maxTTL now clk c fl).2.
Proof. apply Execute_rel; [apply _|]. intros write. apply sound_respects, executeTx_sound. Qed.
End History.
