(* ===== verification/ShardProperties.v ===== *)
(** * Physical shards: what holds after any history

    Calls to the booking executor, the hold expirer and the payment gateway in
    any order, with any answers of the router and the directory, on a fleet
    that starts with free inventory: seats are never sold twice, tickets and
    money agree with the reservations, reservations move along the lifecycle of
    the domain under an open fence, and completed commands stay completed. *)

From S2P Require Import Prelude Transaction SegmentMask BookingDomain Sharding PaymentDomain PaymentDb PaymentClaims PaymentFinalize PaymentControl PaymentWorker BookingDb Occupancy ShardDb ShardBooking ShardPayment ShardExpiry ShardLogic ShardDurable ShardInvariant ShardSafety ShardCalls ShardHistory.
Import ShardTypes.

(** ** Calls *)

(** What the parts outside answer during a call: the router, the directory,
    and the instant of its transactions. *)
Record Env := mkEnv { env_router : Resolver; env_directory : uuid -> bool -> res PayErr ShardRoute; env_clk : Z }.
Inductive Call :=
| CallExecute (maxTTL now : Z) (c : Command)
| CallCancelTrainRun (run : uuid)
| CallExpire (limit now : Z) (name : string)
| CallBegin (c : BeginPaymentCommand)
| CallIssue (c : IssueTicketsCommand)
| CallMark (c : MarkRefundPendingCommand)
| CallVoid (c : CancelVoidedReservationCommand)
| CallCompensate (c : ApplyRefundCompensationCommand).
Definition actor (c : Call) : Actor := match c with CallExecute _ _ _ | CallCancelTrainRun _ | CallExpire _ _ _ => ByBooking | _ => ByPayment end.
Definition instant (e : Env) (c : Call) : Z := match c with CallExpire _ now _ => now | _ => env_clk e end.

Section Properties.
Context {hashing : Hashing} {C : Type}.
Context (claim : option (IssueTicketsCommand -> list uuid -> list string -> C -> res ShardErr unit * C)).

Definition runCall (e : Env) (c : Call) (w : Fleet * C) : Fleet * C :=
  let '(fl, codes) := w in
  let '(mkEnv router directory clk) := e in
  match c with
  | CallExecute maxTTL now c => ((Execute router maxTTL now clk c fl).2, codes)
  | CallCancelTrainRun run => ((CancelTrainRun router clk run fl).2, codes)
  | CallExpire limit now name => ((ProcessExpirations limit clk now name fl).2, codes)
  | CallBegin c => ((Gateway.BeginPayment router directory clk c fl).2, codes)
  | CallIssue c => (Gateway.IssueTickets router directory clk claim c w).2
  | CallMark c => ((Gateway.MarkRefundPending router directory clk c fl).2, codes)
  | CallVoid c => ((Gateway.CancelVoidedReservation router directory clk c fl).2, codes)
  | CallCompensate c => ((Gateway.ApplyRefundCompensation router directory clk c fl).2, codes)
  end.
Definition runCalls (l : list (Env * Call)) (w : Fleet * C) : Fleet * C := foldl (fun w ec => runCall ec.1 ec.2 w) w l.

(** The transactions of a call respect a relation. *)
Definition callRespects (R : Shard -> Shard -> Prop) (e : Env) (c : Call) : Prop :=
  let clk := env_clk e in
  match c with
  | CallExecute maxTTL now c => forall write, respects R (executeTx maxTTL now clk c write)
  | CallCancelTrainRun run => forall rz, respects R (cancelTrainRunTx clk run rz)
  | CallExpire _ now name => respects R (expireOne clk now name)
  | CallBegin c => forall route, respects R (Store.beginTx clk route c)
  | CallIssue c => forall route ids codes, respects R (Store.issueTx clk route c ids codes)
  | CallMark c => forall route, respects R (Store.markTx clk route c)
  | CallVoid c => forall route, respects R (Store.voidTx clk route c)
  | CallCompensate c => forall route, respects R (Store.compTx clk route c)
  end.
Lemma runCall_rel R `{!PreOrder R} e c w : callRespects R e c -> fleetRel R w.1 (runCall e c w).1.
Proof.
  destruct w as [fl codes], e as [router directory clk], c; cbn [runCall callRespects env_clk fst]; intros Hm.
  - by apply Execute_rel.
  - by apply CancelTrainRun_rel.
  - by apply ProcessExpirations_rel.
  - apply dispatch_rel; [apply _|]. intros route. by apply inTx_rel.
  - by apply (gatewayIssue_rel R router directory clk claim c (fl, codes)).
  - apply dispatch_rel; [apply _|]. intros route. by apply inTx_rel.
  - apply dispatch_rel; [apply _|]. intros route. by apply inTx_rel.
  - apply dispatch_rel; [apply _|]. intros route. by apply inTx_rel.
Qed.
Lemma runCall_steps e c w : fleetSteps (actor c) (instant e c) w.1 (runCall e c w).1.
Proof.
  apply runCall_rel; [apply _|]. destruct c; simpl; intros; apply sound_respects;
    auto using executeTx_sound, cancelTrainRunTx_sound, expireOne_sound, beginTx_sound, issueTx_sound, markTx_sound, voidTx_sound, compTx_sound.
Qed.

(** A shard without reservations, all of its inventory free. *)
Record pristine (d : Shard) : Prop := {
  pr_resv : resv d = ∅; pr_seats : rseats d = ∅; pr_orders : orders d = ∅; pr_tix : tix d = ∅;
  pr_free : forall k v i, inv d !! k = Some v -> bit (iv_occupied v) i = false }.
Lemma pristine_ShInv d : pristine d -> ShInv d.
Proof.
  intros [Hr Hs Ho Ht Hf]. split; rewrite ?Hr, ?Hs, ?Ho, ?Ht; try (by intros; rewrite lookup_empty in *); try (by intros ? ? ? ? ?; rewrite lookup_empty in *).
  unfold claimsOf. rewrite map_to_list_empty. apply exact_nil. intros k v. unfold occupied. rewrite lookup_fmap. destruct (inv d !! k) as [iv|] eqn:E; [|done].
  intros [= <-] i. by eapply Hf.
Qed.

Definition FleetInv (fl : Fleet) : Prop := map_Forall (fun _ => ShInv) fl.
Lemma txSteps_inv by_ t d d' : txSteps by_ t d d' -> ShInv d -> ShInv d'.
Proof. induction 1 as [|d d1 d' H _ IH]; intros Hi; [done|]. apply IH. by destruct (H Hi). Qed.
Lemma txSteps_durable by_ t d d' : txSteps by_ t d d' -> ShInv d -> durable d d'.
Proof. induction 1 as [|d d1 d' H _ IH]; intros Hi; [reflexivity|]. destruct (H Hi) as [Hi1 _ Hd]. transitivity d1; [done|by apply IH]. Qed.
Lemma runCall_inv e c w : FleetInv w.1 -> FleetInv (runCall e c w).1.
Proof.
  intros Hf s d' Hd'. destruct (fleetRel_before _ _ _ _ _ (runCall_steps e c w) Hd') as (d & Hd & Hs). eapply txSteps_inv; [exact Hs|]. by apply (Hf s).
Qed.
Lemma runCalls_inv l w : FleetInv w.1 -> FleetInv (runCalls l w).1.
Proof. revert w. induction l as [|[e c] l IH]; intros w Hf; [done|]. apply IH. by apply runCall_inv. Qed.
Lemma shardHistory_inv l w s d : map_Forall (fun _ => pristine) w.1 -> (runCalls l w).1 !! s = Some d -> ShInv d.
Proof. intros Hp Hd. eapply (runCalls_inv l w); [|exact Hd]. intros s0 d0 H0. apply pristine_ShInv. by eapply Hp. Qed.

(** ** Seats *)
Lemma claimsOf_two rs seats q q' st st' c c' :
  q <> q' -> seats !! q = Some st -> seats !! q' = Some st' -> claimOf rs st = Some c -> claimOf rs st' = Some c' ->
  exists rest, claimsOf rs seats ≡ₚ c :: c' :: rest.
Proof.
  intros Hne Hq Hq' Hc Hc'. exists (claimsOf rs (delete q' (delete q seats))). unfold claimsOf.
  rewrite <- (map_to_list_delete seats q st) by done. rewrite <- (map_to_list_delete (delete q seats) q' st') by (by rewrite lookup_delete_ne).
  simpl. by rewrite Hc, Hc'.
Qed.
Lemma claimsOf_bit (d : Shard) k i :
  (exists c, c ∈ claimsOf (resv d) (rseats d) /\ c.1 = k /\ bit c.2 i = true) <->
  exists q st r, rseats d !! q = Some st /\ seatKey st = k /\ resv d !! st_reservation st = Some r /\ holding (rv_status r) = true /\ bit (st_mask st) i = true.
Proof.
  split.
  - intros ([k' m] & Hin & Hk & Hb). simpl in *. subst k'. apply list_elem_of_omap in Hin as ([q st] & Hq%elem_of_map_to_list & Hc). unfold claimOf in Hc. simpl in Hc.
    destruct (resv d !! st_reservation st) as [r|] eqn:Er; [|done]. destruct (holding (rv_status r)) eqn:Eh; [|done]. injection Hc as <- <-. exists q, st, r. done.
  - intros (q & st & r & Hq & Hk & Hr & Hh & Hb). exists (seatKey st, st_mask st). split; [|done].
    apply list_elem_of_omap. exists (q, st). split; [by apply elem_of_map_to_list|]. unfold claimOf. simpl. by rewrite Hr, Hh.
Qed.
Lemma claimsAt_pos {K} `{Countable K} (k : K) i l : (0 < claimsAt k i l)%nat <-> exists c, c ∈ l /\ c.1 = k /\ bit c.2 i = true.
Proof.
  unfold claimsAt. split.
  - intros Hp. induction l as [|c l IH]; [cbn in Hp; lia|]. rewrite countIf_cons in Hp. destruct (_ && _) eqn:Hb.
    + bsplit. exists c. split; [left|done].
    + destruct IH as (c0 & Hin & ?); [lia|]. exists c0. split; [by right|done].
  - intros (c & Hin & <- & Hb). eapply countIf_pos; [exact Hin|]. simpl. by rewrite bool_decide_true.
Qed.

(** C9: on a fleet of physical shards that starts with free inventory, after
    any sequence of calls to the booking executor, the hold expirer and the
    payment gateway - whatever the router and the directory answer, and with
    every error path - no segment of a seat is held by two reservation seats,
    and a segment is marked occupied exactly when a reservation that is held,
    in payment, confirmed or awaiting its refund has it. *)
Theorem shard_seats_never_sold_twice l w s d :
  map_Forall (fun _ => pristine) w.1 -> (runCalls l w).1 !! s = Some d ->
  (forall q q' st st' r r' i, q <> q' -> rseats d !! q = Some st -> rseats d !! q' = Some st' -> seatKey st = seatKey st' ->
     resv d !! st_reservation st = Some r -> holding (rv_status r) = true -> resv d !! st_reservation st' = Some r' -> holding (rv_status r') = true ->
     bit (st_mask st) i && bit (st_mask st') i = false) /\
  (forall k iv i, inv d !! k = Some iv ->
     bit (iv_occupied iv) i = true <->
     exists q st r, rseats d !! q = Some st /\ seatKey st = k /\ resv d !! st_reservation st = Some r /\ holding (rv_status r) = true /\
       bit (st_mask st) i = true).
Proof.
  intros Hp Hd. pose proof (shardHistory_inv l w s d Hp Hd) as Hi. pose proof (in_exact _ Hi) as He. split.
  - intros q q' st st' r r' i Hne Hq Hq' Hk Hr Hh Hr' Hh'.
    destruct (claimsOf_two (resv d) (rseats d) q q' st st' (seatKey st, st_mask st) (seatKey st', st_mask st')) as (rest & Hperm); try done;
      [unfold claimOf; by rewrite Hr, Hh|unfold claimOf; by rewrite Hr', Hh'|].
    rewrite Hperm, Hk in He. by apply (exact_disjoint _ _ 0 1 (seatKey st') (st_mask st) (st_mask st') i He).
  - intros k iv i Hk. rewrite <- claimsOf_bit, <- claimsAt_pos. rewrite (ex_rows _ _ He k (iv_occupied iv) i) by (unfold occupied; by rewrite lookup_fmap, Hk).
    destruct (bit (iv_occupied iv) i); simpl; split; done || lia.
Qed.

(** ** Tickets and money *)

(** C10: after any such history a confirmed reservation has exactly one order,
    confirmed or issued, which was captured in full if it was paid, and exactly
    one ticket per seat, active and of this order; an active ticket belongs to
    a confirmed reservation; and the order of a reservation that was cancelled
    or has expired keeps no money: what was captured has been refunded. *)
Theorem shard_tickets_and_money_agree l w s d k r :
  map_Forall (fun _ => pristine) w.1 -> (runCalls l w).1 !! s = Some d -> resv d !! k = Some r ->
  (rv_status r = Confirmed ->
     exists j o, orders d !! j = Some o /\ od_reservation o = k /\ issuedStatus (od_status o) = true /\
       (forall j' o', orders d !! j' = Some o' -> od_reservation o' = k -> j' = j) /\
       (is_Some (rv_payment r) -> od_captured o = rv_total r /\ od_status o = OIssued) /\
       forall q st, rseats d !! q = Some st -> st_reservation st = k ->
         exists i t, tix d !! i = Some t /\ tk_seat t = q /\ tk_order t = j /\ tk_status t = TActive /\
           forall i' t', tix d !! i' = Some t' -> tk_seat t' = q -> i' = i) /\
  (forall i t st, tix d !! i = Some t -> rseats d !! tk_seat t = Some st -> st_reservation st = k -> tk_status t = TActive -> rv_status r = Confirmed) /\
  (holding (rv_status r) = false -> forall j o, orders d !! j = Some o -> od_reservation o = k -> od_refunded o = od_captured o).
Proof.
  intros Hp Hd Hr. pose proof (shardHistory_inv l w s d Hp Hd) as Hi. split_and!.
  - intros Hst. destruct (in_ordered _ Hi k r Hr) as (j & o & Hj & Hk); [by rewrite Hst|]. destruct (in_orders _ Hi j o Hj) as (r0 & Hr0 & Hf).
    rewrite Hk in Hr0. assert (r0 = r) as -> by congruence. destruct Hf as [_ Htot _ Hint Hpair Hchk].
    assert (Hiss : issuedStatus (od_status o) = true) by (rewrite Hst in Hpair; by destruct (od_status o)). exists j, o. split_and!; try done.
    + intros j' o' Hj' Hk'. apply (in_order1 _ Hi j' j o' o Hj' Hj). congruence.
    + intros [p Hpay]. unfold intentOf in Hint. rewrite Hpay in Hint. simpl in Hint. unfold orderCheck in Hchk. rewrite Hint in Hchk. bsplit.
      destruct (od_status o); try done. split; [lia|done].
    + intros q st Hq Hst'. destruct (in_full _ Hi j o q st Hj Hiss Hq) as (i & t & Hti & Hts & Hto); [congruence|]. exists i, t.
      destruct (in_tickets _ Hi i t Hti) as (o2 & s2 & Ho2 & _ & _ & Htst). rewrite Hto in Ho2. assert (o2 = o) as -> by congruence.
      split_and!; try done; [by destruct (od_status o); try done; injection Htst as ->|]. intros i' t' Hi' Ht'. apply (in_ticket1 _ Hi i' i t' t Hi' Hti). congruence.
  - intros i t st Hti Hq Hk Hact. destruct (in_tickets _ Hi i t Hti) as (o & s2 & Ho & Hs2 & Hsr & Htst). assert (s2 = st) as -> by congruence.
    destruct (in_orders _ Hi _ o Ho) as (r0 & Hr0 & Hf). rewrite <- Hsr, Hk in Hr0. assert (r0 = r) as -> by congruence. rewrite Hact in Htst.
    pose proof (of_status _ _ Hf) as Hpair. destruct (od_status o); try done; by apply bool_decide_eq_true in Hpair.
  - intros Hh j o Hj Hk. destruct (in_orders _ Hi j o Hj) as (r0 & Hr0 & Hf). rewrite Hk in Hr0. assert (r0 = r) as -> by congruence.
    destruct Hf as [_ _ _ _ Hpair Hchk]. unfold orderCheck in Hchk. bsplit.
    destruct (od_status o), (rv_status r); try done; repeat match goal with H : (_ || _) = true |- _ => apply orb_true_iff in H as [H|H] end; bsplit; lia.
Qed.

(** ** The lifecycle of a reservation *)
Lemma moves_same by_ t r r' : moves by_ t r r' -> rv_run r' = rv_run r /\ rv_gen r' = rv_gen r.
Proof. intros [_ -> _]. done. Qed.
Lemma openFor_same d d' r r' : fences d' = fences d -> rv_run r' = rv_run r -> rv_gen r' = rv_gen r -> openFor d' r' -> openFor d r.
Proof. intros Hf Hrun Hgen (f & Hl & ? & ?). exists f. rewrite <- Hf, <- Hrun, <- Hgen. done. Qed.

Lemma effect_row by_ t d d' k r :
  effect by_ t d d' -> resv d !! k = Some r -> exists r', resv d' !! k = Some r' /\ (r' = r \/ moves by_ t r r' /\ openFor d r).
Proof.
  intros [He|k0 r0 _ Hnew _ _ _ He|k0 r0 r0' Hr0 Ho Hm He] Hr; rewrite He.
  - eauto.
  - rewrite lookup_insert_ne by congruence. eauto.
  - destruct (decide (k0 = k)) as [->|Hne]; [rewrite lookup_insert_eq|rewrite lookup_insert_ne by done; eauto].
    assert (r0 = r) as -> by congruence. eauto.
Qed.

Lemma txSteps_row by_ t d d' k r :
  txSteps by_ t d d' -> ShInv d -> resv d !! k = Some r ->
  exists r', resv d' !! k = Some r' /\ rtc (moves by_ t) r r' /\ (r' <> r -> openFor d r).
Proof.
  intros Hs. revert r. induction Hs as [|d d1 d' H _ IH]; intros r Hi Hr; [exists r; split_and!; done|].
  destruct (H Hi) as [Hi1 He Hd]. destruct (effect_row _ _ _ _ _ _ He Hr) as (r1 & Hr1 & Hcase). destruct (IH r1 Hi1 Hr1) as (r' & Hr' & Hm & Hopen).
  exists r'. split; [done|]. destruct Hcase as [->|[Hm1 Ho1]].
  - split; [done|]. intros Hne. destruct (Hopen Hne) as (f & Hf & ? & ?). exists f. by rewrite <- (du_fences _ _ Hd).
  - split; [by eapply rtc_l|]. done.
Qed.

Lemma txSteps_new by_ t d d' k r' :
  txSteps by_ t d d' -> ShInv d -> resv d !! k = None -> resv d' !! k = Some r' -> by_ = ByBooking /\ openFor d r'.
Proof.
  intros Hs. induction Hs as [|d d1 d' H Hs IH]; intros Hi Hk Hr'; [congruence|]. destruct (H Hi) as [Hi1 He Hd].
  destruct (resv d1 !! k) as [r1|] eqn:E1.
  - destruct (txSteps_row _ _ _ _ k r1 Hs Hi1 E1) as (r2 & Hr2 & Hm & _). assert (r2 = r') as -> by congruence.
    assert (Hsame : rv_run r' = rv_run r1 /\ rv_gen r' = rv_gen r1).
    { clear -Hm. induction Hm as [|a b r2 Hab _ IH]; [done|]. apply moves_same in Hab as [? ?]. destruct IH. split; congruence. }
    destruct He as [He|k0 r0 Hby Hnew _ _ Ho He|k0 r0 r0' Hr0 Ho Hm0 He]; rewrite He in E1; [congruence| |].
    + destruct (decide (k0 = k)) as [->|Hne]; [|rewrite lookup_insert_ne in E1 by done; congruence]. rewrite lookup_insert_eq in E1. injection E1 as ->.
      split; [done|]. destruct Hsame. apply (openFor_same d d r' r1); congruence || done.
    + destruct (decide (k0 = k)) as [->|Hne]; [congruence|rewrite lookup_insert_ne in E1 by done; congruence].
  - destruct (IH Hi1 eq_refl Hr') as [Hby (f & Hf & ? & ?)]. split; [done|]. exists f. by rewrite <- (du_fences _ _ Hd).
Qed.

(** One call after a history. *)
Lemma call_steps l w e c s d' :
  map_Forall (fun _ => pristine) w.1 -> (runCall e c (runCalls l w)).1 !! s = Some d' ->
  exists d, (runCalls l w).1 !! s = Some d /\ ShInv d /\ txSteps (actor c) (instant e c) d d'.
Proof.
  intros Hp Hd'. destruct (fleetRel_before _ _ _ _ _ (runCall_steps e c (runCalls l w)) Hd') as (d & Hd & Hs).
  exists d. split_and!; try done. by eapply shardHistory_inv.
Qed.

(** C11: each call moves a stored reservation only along edges of the lifecycle
    of the domain model ([ReservationModel.edge]: confirmation and payment
    strictly before the deadline, expiry at or after it) at the instant of the
    call, or along the three edges of the payment commands that the domain
    does not have; user, run, itinerary, price and deadline never change, a
    reservation is never deleted, and the commands of the booking side leave a
    reservation that has entered payment as it is. *)
Theorem shard_lifecycle_refines_domain l w e c s d d' k r :
  map_Forall (fun _ => pristine) w.1 -> (runCalls l w).1 !! s = Some d -> (runCall e c (runCalls l w)).1 !! s = Some d' -> resv d !! k = Some r ->
  exists r', resv d' !! k = Some r' /\ rtc (moves (actor c) (instant e c)) r r' /\
    (actor c = ByBooking -> is_Some (rv_payment r) -> r' = r).
Proof.
  intros Hp Hd Hd' Hr. destruct (call_steps l w e c s d' Hp Hd') as (d0 & Hd0 & Hi & Hs). assert (d0 = d) as -> by congruence.
  destruct (txSteps_row _ _ _ _ k r Hs Hi Hr) as (r' & Hr' & Hm & _). exists r'. split_and!; try done. intros Hact [p Hpay]. rewrite Hact in Hm.
  destruct Hm as [|r r1 r' [_ _ [Hnone _]] _]; [done|]. congruence.
Qed.

(** C12: a call creates or changes a reservation only while the write fence of
    its train run on that shard is open and in the generation of the
    reservation; no call changes a fence, so once the fence of a run is closed
    for a cutover its reservations stay exactly as they are. *)
Theorem fence_guards_reservations l w e c s d d' k r' :
  map_Forall (fun _ => pristine) w.1 -> (runCalls l w).1 !! s = Some d -> (runCall e c (runCalls l w)).1 !! s = Some d' ->
  fences d' = fences d /\ (resv d' !! k = Some r' -> resv d !! k <> Some r' -> openFor d r').
Proof.
  intros Hp Hd Hd'. destruct (call_steps l w e c s d' Hp Hd') as (d0 & Hd0 & Hi & Hs). assert (d0 = d) as -> by congruence.
  split; [exact (du_fences _ _ (txSteps_durable _ _ _ _ Hs Hi))|]. intros Hr' Hne. destruct (resv d !! k) as [r|] eqn:Er.
  - destruct (txSteps_row _ _ _ _ k r Hs Hi Er) as (r1 & Hr1 & Hm & Hopen). assert (r1 = r') as -> by congruence.
    assert (Hsame : rv_run r' = rv_run r /\ rv_gen r' = rv_gen r).
    { clear -Hm. induction Hm as [|a b r2 Hab _ IH]; [done|]. apply moves_same in Hab as [? ?]. destruct IH. split; congruence. }
    destruct Hsame as [Hrun Hgen]. apply (openFor_same d d r' r); [done|congruence..|]. apply Hopen. congruence.
  - by destruct (txSteps_new _ _ _ _ k r' Hs Hi Er Hr').
Qed.

(** ** What is committed stays committed *)
Record sameBooking (r r' : ResRow) : Prop := {
  sb_user : rv_user r' = rv_user r; sb_run : rv_run r' = rv_run r; sb_gen : rv_gen r' = rv_gen r; sb_segments : rv_segments r' = rv_segments r;
  sb_from : rv_from r' = rv_from r; sb_to : rv_to r' = rv_to r; sb_class : rv_class r' = rv_class r; sb_expires : rv_expires r' = rv_expires r;
  sb_total : rv_total r' = rv_total r; sb_currency : rv_currency r' = rv_currency r; sb_created : rv_created r' = rv_created r;
  sb_payment : is_Some (rv_payment r) -> rv_payment r' = rv_payment r;
  sb_terminal : rv_status r = Expired \/ rv_status r = Cancelled -> r' = r }.
#[local] Instance sameBooking_preorder : PreOrder sameBooking.
Proof.
  split; [by intros r|]. intros r1 r2 r3 H1 H2. pose proof (sb_payment _ _ H1). pose proof (sb_terminal _ _ H1) as Ht. pose proof (sb_payment _ _ H2).
  pose proof (sb_terminal _ _ H2) as Ht2. destruct H1, H2. split; try congruence.
  - intros Hp. specialize (H Hp). rewrite <- H. apply H0. by rewrite H.
  - intros Hs. specialize (Ht Hs) as ->. by apply Ht2.
Qed.
Lemma moves_sameBooking by_ t r r' : moves by_ t r r' -> sameBooking r r'.
Proof.
  intros [He Hr Hp]. assert (Hnt : ~ (rv_status r = Expired \/ rv_status r = Cancelled)).
  { intros Hs. destruct He as [He|Hin]; [|unfold extraEdges in Hin; destruct Hs as [Hs|Hs]; rewrite Hs in Hin; set_solver].
    destruct Hs as [Hs|Hs]; rewrite Hs in He; inversion He. }
  split; try (by rewrite Hr); intros [p Hsome]. destruct by_; [destruct Hp; congruence|]. destruct Hp as [_ Hp]. apply Hp. eauto.
Qed.

(** Durable facts and the identity of reservations, together. *)
Record settled (d d' : Shard) : Prop := {
  se_durable : durable d d';
  se_rows : forall k r, resv d !! k = Some r -> exists r', resv d' !! k = Some r' /\ sameBooking r r' }.
#[export] Instance settled_preorder : PreOrder settled.
Proof.
  split; [intros d; split; [reflexivity|]; intros k r Hr; exists r; split; [done|reflexivity]|]. intros d1 d2 d3 [D1 R1] [D2 R2].
  split; [by transitivity d2|]. intros k r Hr. destruct (R1 k r Hr) as (r2 & Hr2 & S1). destruct (R2 k r2 Hr2) as (r3 & Hr3 & S2).
  exists r3. split; [done|by transitivity r2].
Qed.
Lemma runCall_settled e c w s d : FleetInv w.1 -> w.1 !! s = Some d -> exists d', (runCall e c w).1 !! s = Some d' /\ settled d d'.
Proof.
  intros Hf Hd. destruct (runCall_steps e c w) as [Hdom H]. assert (Hin : s ∈ dom (runCall e c w).1) by (rewrite Hdom; apply elem_of_dom; eauto).
  apply elem_of_dom in Hin as [d' Hd']. exists d'. split; [done|]. specialize (H s d d' Hd Hd'). pose proof (Hf s d Hd) as Hi. simpl in Hi.
  split; [by eapply txSteps_durable|]. intros k r Hr. destruct (txSteps_row _ _ _ _ k r H Hi Hr) as (r' & Hr' & Hm & _). exists r'. split; [done|].
  clear -Hm. induction Hm as [|a b r2 Hab _ IH]; [reflexivity|]. transitivity b; [by eapply moves_sameBooking|done].
Qed.
Lemma runCalls_settled l w s d : FleetInv w.1 -> w.1 !! s = Some d -> exists d', (runCalls l w).1 !! s = Some d' /\ settled d d'.
Proof.
  revert w d. induction l as [|[e c] l IH]; intros w d Hf Hd; [exists d; split; [done|reflexivity]|]. destruct (runCall_settled e c w s d Hf Hd) as (d1 & Hd1 & S1).
  destruct (IH (runCall e c w) d1) as (d' & Hd' & S2); [by apply runCall_inv|done|]. exists d'. split; [done|by transitivity d1].
Qed.

(** C13: whatever is called afterwards, a shard keeps every closed receipt,
    reservation seat, outbox event and record of an issuance, refund or
    compensation unchanged; every order, with amounts authorized, captured and
    refunded that only grow; every ticket, with its code; and every
    reservation, unchanged once it is expired or cancelled, with the payment
    it entered. *)
Theorem committed_facts_are_final l l' w s d d' :
  map_Forall (fun _ => pristine) w.1 -> (runCalls l w).1 !! s = Some d -> (runCalls (l ++ l') w).1 !! s = Some d' -> settled d d'.
Proof.
  intros Hp Hd Hd'. assert (Heq : runCalls (l ++ l') w = runCalls l' (runCalls l w)) by apply foldl_app. rewrite Heq in Hd'.
  destruct (runCalls_settled l' (runCalls l w) s d) as (d0 & Hd0 & Hs); [|done|].
  - intros s0 d0 H0. by eapply shardHistory_inv.
  - by assert (d0 = d') as -> by congruence.
Qed.
End Properties.
