(* ===== verification/ShardReplay.v ===== *)
(** * Physical shards: commands that are sent again

    The receipt that a completed command leaves behind, and what the executor
    and the payment store answer when the command is sent again, however much
    later. *)

From S2P Require Import Prelude Transaction SegmentMask BookingDomain Sharding PaymentDomain PaymentDb PaymentClaims PaymentFinalize PaymentControl PaymentWorker BookingDb Occupancy ShardDb ShardBooking ShardPayment ShardExpiry ShardLogic ShardDurable ShardInvariant ShardSafety ShardCalls ShardHistory ShardProperties.
Import ShardTypes.

(** ** Receipts are kept *)
Lemma kept_closedP d d' k r : durable d d' -> preceipts d !! k = Some r -> pc_state r <> PStarted -> preceipts d' !! k = Some r.
Proof. intros Hd Hk Hs. destruct (du_payment _ _ Hd k r Hk) as (r' & Hr' & (_ & _ & _ & _ & Hc)). by rewrite Hr', (Hc Hs). Qed.
Lemma kept_closedB d d' k r : durable d d' -> breceipts d !! k = Some r -> bk_state r <> BStarted -> breceipts d' !! k = Some r.
Proof. intros Hd Hk Hs. destruct (du_booking _ _ Hd k r Hk) as (r' & Hr' & (_ & Hc)). by rewrite Hr', (Hc Hs). Qed.

Lemma loadPayment_Some command intent fp d x :
  Store.loadPaymentCommandReceipt command intent fp d = Ok (Some x) <->
  exists r t, preceipts d !! command = Some r /\ pc_state r = PSucceeded x.1 x.2 t /\ pc_intent r = intent /\ pc_fp r = fp.
Proof.
  unfold Store.loadPaymentCommandReceipt. destruct (preceipts d !! command) as [r|] eqn:E.
  - destruct (pc_state r) as [|resource result t|] eqn:Es.
    + split; [done|]. intros (? & ? & [= <-] & ? & _). congruence.
    + destruct (_ || _) eqn:Hb.
      * split; [done|]. intros (r0 & t0 & [= <-] & Hs & Hi & Hf). by rewrite Hi, Hf, bool_decide_true, N.eqb_refl in Hb.
      * bsplit. split; [intros [= <-]; exists r, t; simpl; split_and!; congruence|]. intros (r0 & t0 & [= <-] & Hs & _). rewrite Es in Hs. destruct x. simpl in *. congruence.
    + split; [done|]. intros (? & ? & [= <-] & ? & _). congruence.
  - split; [done|]. by intros (? & ? & ? & _).
Qed.
Lemma loadPayment_durable command intent fp d d' x :
  durable d d' -> Store.loadPaymentCommandReceipt command intent fp d = Ok (Some x) -> Store.loadPaymentCommandReceipt command intent fp d' = Ok (Some x).
Proof.
  rewrite !loadPayment_Some. intros Hd (r & t & Hr & Hs & ?). exists r, t. split; [|done]. eapply kept_closedP; [done..|]. by rewrite Hs.
Qed.

Section Replay.
Context {hashing : Hashing}.

(** The receipt of a payment command is opened, and closed by its last
    statements. *)
Lemma receipt_closed {A} route route' command command' intent reservation op fp amount currency (rest : SM PayErr A) resource result clk d d1 d2 d3 d' v :
  Store.startedReceipt route command intent reservation op fp amount currency d = Ok (tt, d1) ->
  respects durable rest -> rest d1 = Ok (v, d') ->
  closePReceipt command resource result clk d2 = Some d3 -> recordTargetWrite route' command' clk d3 = Some d' ->
  Store.loadPaymentCommandReceipt command intent fp d' = Ok (Some (resource, result)).
Proof.
  intros Hs Hr Hrest (r & Hr2 & _ & ->)%closePReceipt_Some Hw. apply Hr in Hrest. apply loadPayment_Some.
  unfold Store.startedReceipt, Store.px in Hs. apply one_Ok, insPReceipt_Some in Hs as (_ & _ & ->).
  destruct (du_payment _ _ Hrest command (mkPReceipt (Store.commandReceiptID command) intent reservation (trainRunID route) (generation route) op fp amount currency PStarted))
    as (r1 & Hr1 & (Hi & _ & _ & Hf & _)); [simpl; by rewrite lookup_insert_eq|]. simpl in *.
  unfold recordTargetWrite in Hw. apply insEvidence_Some in Hw as (v' & ->). simpl in Hr1. rewrite lookup_insert_eq in Hr1. injection Hr1 as <-. simpl in *.
  eexists _, clk. split; [simpl; apply lookup_insert_eq|]. done.
Qed.

Ltac program := follow; try (apply durable_cancelledEvents || apply durable_issueLoop).
(** After [opening]: the stored receipt was returned, or the writes ran. *)
Ltac opened H := repeat first
  [ let f := fresh "found" in let Hl := fresh "Hload" in apply sbind_Ok in H as (f & ? & [Hl <-]%reads_Ok & H); destruct f;
      [apply sret_Ok in H as [<- <-]; exact Hl|]; clear Hl
  | apply sbind_Ok in H as (? & ? & [_ <-]%reads_Ok & H) ];
  apply sbind_Ok in H as (? & ? & [<- <-]%shard_Ok & H).

Lemma beginTx_receipt clk route c d v d' : Store.beginTx clk route c d = Ok (v, d') -> Store.loadBeginReceipt c d' = Ok (Some v).
Proof.
  intros Hok. unfold Store.beginTx in Hok. opened Hok. destruct (Store.routedReservation _ _ d) as [r|]; [|by apply raise_Ok in Hok].
  apply sbind_Ok in Hok as (? & ? & [_ <-]%guardS_Ok & Hok). apply sbind_Ok in Hok as (? & ? & [_ <-]%guardS_Ok & Hok). unfold Store.beginWrites in Hok.
  apply sbind_Ok in Hok as (? & d1 & _ & Hok). apply sbind_Ok in Hok as ([] & d2 & Hs & Hok). pose proof Hok as Hrest. unfold Store.px in Hok. inv_S Hok.
  unfold Store.loadBeginReceipt. erewrite receipt_closed; [|exact Hs| |exact Hrest|eassumption|eassumption].
  - simpl. by rewrite !bool_decide_true.
  - unfold Store.px. program.
Qed.

Lemma markTx_receipt clk route c d v d' : Store.markTx clk route c d = Ok (v, d') -> Store.loadMarkReceipt c d' = Ok (Some v).
Proof.
  intros Hok. unfold Store.markTx in Hok. opened Hok. destruct (Store.routedReservation _ _ d) as [r|]; [|by apply raise_Ok in Hok].
  apply sbind_Ok in Hok as (? & ? & [_ <-]%guardS_Ok & Hok). apply sbind_Ok in Hok as (? & ? & [_ <-]%guardS_Ok & Hok). cbv zeta in Hok.
  destruct (Store.paymentOrder _ _ _ _ _ d) as [o|]; [|by apply raise_Ok in Hok]. apply sbind_Ok in Hok as (? & ? & [_ <-]%guardS_Ok & Hok).
  unfold Store.markWrites in Hok. apply sbind_Ok in Hok as ([] & d2 & Hs & Hok). pose proof Hok as Hrest. unfold Store.appendOutbox, Store.px in Hok. inv_S Hok.
  unfold Store.loadMarkReceipt. erewrite receipt_closed; [|exact Hs| |exact Hrest|eassumption|eassumption].
  - simpl. by rewrite !bool_decide_true.
  - unfold Store.appendOutbox, Store.px. program.
Qed.

(** The rest of a transaction takes nothing back. *)
Ltac rises H name := match type of H with ?m _ = Ok (_, _) =>
  let R := fresh in assert (R : respects durable m) by (unfold Store.appendOutbox, Store.px; program); pose proof (R _ _ _ H) as name; clear R end.

Lemma compWrites_records clk route c order d v d' :
  Store.compWrites clk route c order d = Ok (v, d') ->
  Store.loadPaymentCommandReceipt (rc_command c) (rc_intent c) (rc_fp c) d' = Ok (Some (rc_reservation c, Cancelled)) /\
  Store.loadCompensationReceipt c d' = Ok (Some v).
Proof.
  intros Hok. unfold Store.compWrites in Hok. apply sbind_Ok in Hok as ([] & d1 & Hs & Hok). pose proof Hok as Hrest. cbv zeta in Hok.
  unfold Store.px at 1 in Hok. apply sbind_Ok in Hok as (? & d2 & H2%one_Ok & Hok). apply insRefund_Some in H2 as (_ & Hd2). rises Hok Href.
  match type of Hd2 with d2 = set_refunds _ (<[?k := ?row]> _) => assert (Hr : refunds d' !! k = Some row) end.
  { eapply lookup_weaken; [|exact (du_refunds _ _ Href)]. rewrite Hd2. apply lookup_insert_eq. }
  do 9 (cbv zeta in Hok; apply sbind_Ok in Hok as (? & ? & ? & Hok)). apply sbind_Ok in Hok as (? & d3 & Hins%one_Ok & Hok). apply insComp_Some in Hins as (_ & Hd3).
  rises Hok Hcomp. match type of Hd3 with d3 = set_comps _ (<[?k := ?row]> _) => assert (Hc : comps d' !! k = Some row) end.
  { eapply lookup_weaken; [|exact (du_comps _ _ Hcomp)]. rewrite Hd3. apply lookup_insert_eq. }
  clear Hd2 Hd3. unfold Store.appendOutbox, Store.px in Hok. inv_S Hok. split.
  - eapply receipt_closed; [exact Hs| |exact Hrest|eassumption|eassumption]. unfold Store.appendOutbox, Store.px. program.
  - unfold Store.loadCompensationReceipt. rewrite Hc. simpl. rewrite Hr. simpl. rewrite !bool_decide_true by done. rewrite Z.eqb_refl, N.eqb_refl. done.
Qed.
Lemma compTx_receipt clk route c d v d' : Store.compTx clk route c d = Ok (v, d') -> Store.loadCompensationCommand c d' = Ok (Some v).
Proof.
  intros Hok. unfold Store.compTx in Hok. opened Hok. destruct (Store.routedReservation _ _ d) as [r|]; [|by apply raise_Ok in Hok].
  apply sbind_Ok in Hok as (? & ? & [_ <-]%guardS_Ok & Hok). apply sbind_Ok in Hok as (? & ? & [_ <-]%guardS_Ok & Hok). cbv zeta in Hok.
  destruct (Store.paymentOrder _ _ _ _ _ d) as [o|]; [|by apply raise_Ok in Hok]. apply sbind_Ok in Hok as (? & ? & [_ <-]%guardS_Ok & Hok).
  apply compWrites_records in Hok as [Hl Hc]. unfold Store.loadCompensationCommand. rewrite Hl. simpl. rewrite Hc. simpl. by rewrite !bool_decide_true.
Qed.

(** ** Replays *)

(** A transaction that begins by loading the receipt it leaves. *)
Record replayable {E A} (by_ : Actor) (m : Z -> SM E A) (load : Shard -> res E (option A)) : Prop := {
  rp_sound : forall clk, sound by_ clk (m clk);
  rp_leaves : forall clk d v d', m clk d = Ok (v, d') -> load d' = Ok (Some v);
  rp_loads : forall clk d v, load d = Ok (Some v) -> m clk d = Ok (v, d);
  rp_keeps : forall d d' v, durable d d' -> load d = Ok (Some v) -> load d' = Ok (Some v) }.

Lemma begin_replayable route c : replayable ByPayment (fun clk => Store.beginTx clk route c) (Store.loadBeginReceipt c).
Proof.
  split; [intros; apply beginTx_sound|intros; by eapply beginTx_receipt| |].
  - intros clk d v Hl. unfold Store.beginTx, mbind, Txn_bind, reads. by rewrite Hl.
  - intros d d' v Hd. unfold Store.loadBeginReceipt. destruct (Store.loadPaymentCommandReceipt _ _ _ d) as [[x|]|] eqn:E; [|done..].
    by rewrite (loadPayment_durable _ _ _ _ _ _ Hd E).
Qed.
Lemma mark_replayable route c : replayable ByPayment (fun clk => Store.markTx clk route c) (Store.loadMarkReceipt c).
Proof.
  split; [intros; apply markTx_sound|intros; by eapply markTx_receipt| |].
  - intros clk d v Hl. unfold Store.markTx, mbind, Txn_bind, reads. by rewrite Hl.
  - intros d d' v Hd. unfold Store.loadMarkReceipt. destruct (Store.loadPaymentCommandReceipt _ _ _ d) as [[x|]|] eqn:E; [|done..].
    by rewrite (loadPayment_durable _ _ _ _ _ _ Hd E).
Qed.
Lemma comp_replayable route c : replayable ByPayment (fun clk => Store.compTx clk route c) (Store.loadCompensationCommand c).
Proof.
  split; [intros; apply compTx_sound|intros; by eapply compTx_receipt| |].
  - intros clk d v Hl. unfold Store.compTx, mbind, Txn_bind, reads. by rewrite Hl.
  - intros d d' v Hd. unfold Store.loadCompensationCommand. destruct (Store.loadPaymentCommandReceipt _ _ _ d) as [[x|]|] eqn:E; simpl; [|by destruct (Store.loadCompensationReceipt c d) as [[]|]|done].
    rewrite (loadPayment_durable _ _ _ _ _ _ Hd E). simpl. unfold Store.loadCompensationReceipt. destruct (comps d !! _) as [p|] eqn:Ec; [|by destruct x].
    rewrite (lookup_weaken _ _ _ _ Ec (du_comps _ _ Hd)). destruct (_ || _); [done|]. destruct (refunds d !! cp_refund p) as [f|] eqn:Er; [|done].
    by rewrite (lookup_weaken _ _ _ _ Er (du_refunds _ _ Hd)).
Qed.

Lemma inTx_Ok {A} router route (m : SM PayErr A) fl v fl1 :
  Store.inTx router route m fl = (Ok v, fl1) ->
  exists s d d', Store.resolve router route true fl = Ok s /\ fl !! s = Some d /\ m d = Ok (v, d') /\ fl1 = <[s := d']> fl.
Proof.
  unfold Store.inTx. destruct (Store.resolve router route true fl) as [s|] eqn:Er; [|done]. destruct (fl !! s) as [d|] eqn:Ed; [|done].
  destruct (m d) as [[a d']|] eqn:Em; [|done]. intros [= <- <-]. exists s, d, d'. done.
Qed.
Lemma resolve_shard router route write fl fl2 s :
  Store.resolve router route write fl = Ok s -> is_Some (fl2 !! s) -> Store.resolve router route write fl2 = Ok s.
Proof.
  unfold Store.resolve. destruct (router _ _) as [rz|]; [|done]. destruct (bool_decide _) eqn:Eb; [done|]. destruct (negb _); [done|]. destruct (_ && _); [done|].
  intros [= <-] [d Hd]. rewrite bool_decide_false; [done|]. congruence.
Qed.

Context {C : Type} (claim : option (IssueTicketsCommand -> list uuid -> list string -> C -> res ShardErr unit * C)).

Lemma replay {A} (m : Z -> SM PayErr A) load router route (b : bool) (e : PayErr) clk clk' fl v fl1 l codes :
  replayable ByPayment m load -> FleetInv fl ->
  (if b then (Err e, fl) else Store.inTx router route (m clk) fl) = (Ok v, fl1) ->
  (if b then (Err e, (runCalls claim l (fl1, codes)).1) else Store.inTx router route (m clk') (runCalls claim l (fl1, codes)).1) =
    (Ok v, (runCalls claim l (fl1, codes)).1).
Proof.
  intros [Hsound Hleaves Hloads Hkeeps] Hf Hok. destruct b; [done|]. apply inTx_Ok in Hok as (s & d & d' & Hres & Hd & Hm & Hfl1).
  assert (Hf1 : FleetInv fl1). { rewrite Hfl1. apply map_Forall_insert_2; [|done]. destruct (Hsound clk d v d'); [by apply (Hf s)|done|done]. }
  destruct (runCalls_settled claim l (fl1, codes) s d') as (d2 & Hd2 & [Hdur _]); [done|simpl; rewrite Hfl1; apply lookup_insert_eq|].
  set (fl2 := (runCalls claim l (fl1, codes)).1) in *. unfold Store.inTx. rewrite (resolve_shard router route true fl fl2 s Hres) by eauto. rewrite Hd2.
  rewrite (Hloads clk' d2 v) by (eapply Hkeeps; [exact Hdur|by eapply Hleaves]). by rewrite insert_id.
Qed.

(** C23: a payment command that a shard has completed - entering payment, marking
    the refund, compensating - is answered from its receipt when it is sent
    again on the same route, after any number of other calls: with the same
    receipt and without changing anything. *)
Theorem payment_commands_replay router route clk clk' l0 w l codes fl1 :
  map_Forall (fun _ => pristine) w.1 ->
  let fl := (runCalls claim l0 w).1 in
  let fl2 := (runCalls claim l (fl1, codes)).1 in
  (forall c v, Store.BeginPayment router clk route c fl = (Ok v, fl1) -> Store.BeginPayment router clk' route c fl2 = (Ok v, fl2)) /\
  (forall c v, Store.MarkRefundPending router clk route c fl = (Ok v, fl1) -> Store.MarkRefundPending router clk' route c fl2 = (Ok v, fl2)) /\
  (forall c v, Store.ApplyRefundCompensation router clk route c fl = (Ok v, fl1) -> Store.ApplyRefundCompensation router clk' route c fl2 = (Ok v, fl2)).
Proof.
  intros Hp fl fl2. assert (Hf : FleetInv fl) by (intros s d Hd; by eapply shardHistory_inv). split_and!; intros c v Hok.
  - eapply (replay (fun clk => Store.beginTx clk route c)); [apply begin_replayable|exact Hf|exact Hok].
  - eapply (replay (fun clk => Store.markTx clk route c)); [apply mark_replayable|exact Hf|exact Hok].
  - eapply (replay (fun clk => Store.compTx clk route c)); [apply comp_replayable|exact Hf|exact Hok].
Qed.

(** ** Bookings *)

(** What the executor answers from the receipt of a create command. *)
Definition answers (c : Command) (d : Shard) (o : res ExecErr Receipt) : Prop :=
  loadReceipt c d = match o with Ok v => Ok (Some v) | Err e => Err e end.
(** A receipt, or a rejection that is recorded. *)
Definition final (o : res ExecErr Receipt) : Prop := match o with Ok _ => True | Err e => is_Some (rejectionCode e) end.

Lemma rejection_code_roundtrip e code : rejectionCode e = Some code -> rejectionFromCode code = Some e.
Proof. destruct e; intros [= <-]; reflexivity. Qed.

Lemma load_closed c d r o :
  cm_op c = OperationCreateReservation -> breceipts d !! cm_id c = Some r -> bk_fp r = cm_fp c ->
  (bk_state r = BSucceeded "reservation" (cm_reservation c) /\ o = Ok (committedReceipt c) \/
   exists e code, bk_state r = BRejected code /\ rejectionCode e = Some code /\ o = Err e) -> answers c d o.
Proof.
  intros Hop Hr Hfp Ho. unfold answers, loadReceipt. rewrite Hr, Hfp, N.eqb_refl. simpl. destruct Ho as [[-> ->]|(e & code & -> & Hc & ->)].
  - rewrite bool_decide_true by done. rewrite Hop. done.
  - by rewrite (rejection_code_roundtrip e code Hc).
Qed.
Lemma answers_durable c d d' o :
  cm_op c = OperationCreateReservation -> final o -> durable d d' -> answers c d o -> answers c d' o.
Proof.
  intros Hop Hfin Hd. unfold answers, loadReceipt. destruct (breceipts d !! cm_id c) as [r|] eqn:Er; [|by destruct o].
  destruct (negb _) eqn:Ef; [destruct o; [done|]; intros [= <-]; by destruct Hfin|]. intros Ha.
  assert (Hs : bk_state r <> BStarted). { intros Hs. rewrite Hs in Ha. destruct o; [done|]. injection Ha as <-. by destruct Hfin. }
  rewrite (kept_closedB _ _ _ _ Hd Er Hs), Ef. rewrite Hop in *. done.
Qed.

Lemma create_answers maxTTL now clk c write d o d' :
  cm_op c = OperationCreateReservation -> executeTx maxTTL now clk c write d = Ok (o, d') -> answers c d' o.
Proof.
  intros Hop Hok. unfold executeTx in Hok. apply sbind_Ok in Hok as (found & ? & [Hl <-]%reads_Ok & Hok). destruct found; [apply sret_Ok in Hok as [<- <-]; exact Hl|]. clear Hl.
  rewrite Hop in Hok. unfold executeCreateTx in Hok. cbn [lifecycleOp] in Hok. cbv zeta in Hok.
  apply sbind_Ok in Hok as (? & ? & [_ <-]%guardS_Ok & Hok). apply sbind_Ok in Hok as (? & ? & [_ <-]%guardS_Ok & Hok).
  apply sbind_Ok in Hok as (n & ? & [_ <-]%reads_Ok & Hok). apply sbind_Ok in Hok as (found & ? & [Hl <-]%reads_Ok & Hok).
  destruct found; [apply sret_Ok in Hok as [<- <-]; exact Hl|]. clear Hl. unfold startReceipt, ex1 in Hok.
  apply sbind_Ok in Hok as (? & d1 & (_ & Hd1)%one_Ok%insBReceipt_Some & Hok). unfold withSavepoint in Hok.
  destruct (createMutation clk n c d1) as [[r d2]|e] eqn:Em.
  - injection Hok as <- <-. pose proof (durable_createMutation _ _ _ _ _ _ Em) as Hdur.
    match type of Hd1 with d1 = set_breceipts _ (<[_ := ?row]> _) => destruct (du_booking _ _ Hdur (cm_id c) row) as (r1 & Hr1 & Hfp & _) end;
      [rewrite Hd1; apply lookup_insert_eq|]. clear Hd1 Hdur.
    unfold createMutation in Em. inv_S Em. destruct (fareFor c _) as [[fare f]|]; [|by apply raise_Ok in Em].
    destruct (_ || _); [by apply raise_Ok in Em|]. destruct (_ <? _); [by apply raise_Ok in Em|]. destruct (NewSegmentMask _ _ _); [|by apply raise_Ok in Em].
    do 5 (apply sbind_Ok in Em as (? & ? & _ & Em)). unfold succeedReceipt, ex1 in Em. apply sbind_Ok in Em as (? & d3 & (r3 & Hr3 & _ & Hd3)%one_Ok%closeBReceipt_Some & Em).
    apply sret_Ok in Em as [<- <-]. rewrite Hd3 in Hr1. simpl in Hr1. rewrite lookup_insert_eq in Hr1. injection Hr1 as <-.
    eapply load_closed; [done|rewrite Hd3; apply lookup_insert_eq|done|by left].
  - destruct (rejectionCode e) as [code|] eqn:Ec; [|done]. destruct (closeBReceipt _ _ _) as [d2|] eqn:Eb; [|done]. injection Hok as <- <-.
    apply closeBReceipt_Some in Eb as (r2 & Hr2 & _ & ->). rewrite Hd1 in Hr2. simpl in Hr2. rewrite lookup_insert_eq in Hr2. injection Hr2 as <-.
    eapply load_closed; [done|simpl; apply lookup_insert_eq|done|]. right. exists e, code. done.
Qed.

(** A rejection that is returned without a commit was loaded. *)
Lemma create_rejected maxTTL now clk c write d e :
  cm_op c = OperationCreateReservation -> is_Some (rejectionCode e) -> executeTx maxTTL now clk c write d = Err e -> answers c d (Err e).
Proof.
  intros Hop [code Hc] Hok. unfold answers. unfold executeTx in Hok. apply sbind_Err in Hok as [Hl|(found & ? & [Hl <-]%reads_Ok & Hok)].
  { unfold reads in Hl. destruct (loadReceipt c d); [done|]. by injection Hl as ->. }
  destruct found; [done|]. rewrite Hop in Hok. unfold executeCreateTx in Hok. cbv zeta in Hok. simpl in Hok.
  apply sbind_Err in Hok as [Hg|(? & ? & [_ <-]%guardS_Ok & Hok)]; [unfold guardS, raise, mret, Txn_ret in Hg; destruct (_ || _); [injection Hg as <-|]; done|].
  apply sbind_Err in Hok as [Hg|(? & ? & [_ <-]%guardS_Ok & Hok)]; [unfold guardS, raise, mret, Txn_ret in Hg; destruct (negb _); [injection Hg as <-|]; done|].
  apply sbind_Err in Hok as [Hg|(n & ? & [_ <-]%reads_Ok & Hok)].
  { exfalso. unfold reads, lockLocalAuthority in Hg. destruct (fenceSnapshot (cm_run c) d) as [[f s]|]; [|by injection Hg as <-].
    repeat (destruct (_ || _); [by injection Hg as <-|]). done. }
  apply sbind_Err in Hok as [Hl2|(found & ? & [Hl2 <-]%reads_Ok & Hok)].
  { unfold reads in Hl2. destruct (loadReceipt c d); [done|]. by injection Hl2 as ->. }
  destruct found; [done|]. exfalso. unfold startReceipt, ex1 in Hok. apply sbind_Err in Hok as [H1|(? & d1 & _ & Hok)].
  - unfold one in H1. destruct (insBReceipt _ _ _); [done|]. by injection H1 as <-.
  - unfold withSavepoint in Hok. destruct (createMutation clk n c d1) as [[r d2]|e0]; [done|]. destruct (rejectionCode e0) eqn:E0; [|congruence].
    destruct (closeBReceipt _ _ _); [done|]. by injection Hok as <-.
Qed.

Lemma executeOnce_final maxTTL now clk c rz fl o fl1 :
  cm_op c = OperationCreateReservation -> final o -> executeOnce maxTTL now clk c rz fl = (o, fl1) ->
  rz_shard rz = shardID (cm_route c) /\ exists d, fl1 !! shardID (cm_route c) = Some d /\ answers c d o.
Proof.
  intros Hop Hfin. unfold executeOnce. destruct (negb _) eqn:En; [intros [= <- <-]; by destruct Hfin|]. bsplit. rewrite En. split; [done|].
  unfold onShard in *. destruct (fl !! _) as [d|] eqn:Ed; [|injection H as <- <-; by destruct Hfin].
  destruct (executeTx _ _ _ _ _ d) as [[r d']|e] eqn:E; injection H as <- <-.
  - exists d'. split; [apply lookup_insert_eq|]. by eapply create_answers.
  - exists d. split; [done|]. by eapply create_rejected.
Qed.
Lemma executeOnce_answers maxTTL now clk c rz fl d o :
  rz_shard rz = shardID (cm_route c) -> fl !! shardID (cm_route c) = Some d -> answers c d o -> executeOnce maxTTL now clk c rz fl = (o, fl).
Proof.
  intros Hs Hd Ha. unfold executeOnce, onShard. rewrite Hs, bool_decide_true, Hd by done. simpl. unfold executeTx, mbind, Txn_bind, reads. unfold answers in Ha. rewrite Ha.
  destruct o as [v|e]; [|done]. simpl. by rewrite insert_id.
Qed.

Lemma refresh_final router maxTTL now clk c fl o fl1 :
  cm_op c = OperationCreateReservation -> final o -> refreshAndExecute router maxTTL now clk c fl = (o, fl1) ->
  (exists rz, router (cm_run c) true = Some rz /\ sameRoute (rz_route rz) (cm_route c) = true /\ rz_shard rz = shardID (cm_route c)) /\
  exists d, fl1 !! shardID (cm_route c) = Some d /\ answers c d o.
Proof.
  intros Hop Hfin. unfold refreshAndExecute. destruct (router (cm_run c) true) as [rz|]; [|intros [= <- _]; by destruct Hfin].
  destruct (sameRoute _ _) eqn:Es; simpl; [|intros [= <- _]; by destruct Hfin]. intros [Hs Ha]%executeOnce_final; [|done..]. eauto.
Qed.
(** What the first answer leaves behind. *)
Lemma Execute_final router maxTTL now clk c fl o fl1 :
  cm_op c = OperationCreateReservation -> final o -> Execute router maxTTL now clk c fl = (o, fl1) ->
  exists d, fl1 !! shardID (cm_route c) = Some d /\ answers c d o.
Proof.
  intros Hop Hfin. unfold Execute. destruct (negb (validCommand c)); [intros [= <- _]; by destruct Hfin|].
  destruct (router (cm_run c) false) as [rz|]; [|intros [= <- _]; by destruct Hfin]. destruct (negb _); [by intros [_ Ha]%refresh_final|].
  destruct (executeOnce maxTTL now clk c rz fl) as [o1 fl0] eqn:E1. intros Hok.
  assert (Hcase : refreshAndExecute router maxTTL now clk c fl0 = (o, fl1) \/ (o1, fl0) = (o, fl1)).
  { destruct o1 as [v|[| | | | | | |[]]]; auto. }
  destruct Hcase as [[_ Ha]%refresh_final|[= -> ->]]; [done..|]. by apply executeOnce_final in E1 as [_ Ha].
Qed.
(** Asked again, the executor finds it. *)
Lemma Execute_answers router maxTTL now clk now' clk' c fl fl2 o fl1 d :
  cm_op c = OperationCreateReservation -> final o -> Execute router maxTTL now clk c fl = (o, fl1) ->
  fl2 !! shardID (cm_route c) = Some d -> answers c d o -> Execute router maxTTL now' clk' c fl2 = (o, fl2).
Proof.
  intros Hop Hfin Hok Hd Ha. unfold Execute in *. destruct (negb (validCommand c)); [injection Hok as <- _; by destruct Hfin|].
  destruct (router (cm_run c) false) as [rz|]; [|injection Hok as <- _; by destruct Hfin].
  destruct (negb (sameRoute (rz_route rz) _)).
  { apply refresh_final in Hok as [(rz' & Hr & Hsame & Hs) _]; [|done..]. unfold refreshAndExecute. rewrite Hr, Hsame. simpl. by eapply executeOnce_answers. }
  assert (Hs : rz_shard rz = shardID (cm_route c)).
  { destruct (executeOnce maxTTL now clk c rz fl) as [o1 fl0] eqn:E1. destruct (decide (rz_shard rz = shardID (cm_route c))) as [|Hne]; [done|]. exfalso.
    unfold executeOnce in E1. rewrite bool_decide_false in E1 by done. injection E1 as <- <-. injection Hok as <- _. by destruct Hfin. }
  rewrite (executeOnce_answers maxTTL now' clk' c rz fl2 d o Hs Hd Ha). destruct o as [v|[| | | | | | |[]]]; try done. by destruct Hfin.
Qed.

(** a create command that has been answered with a receipt or with one of
    the recorded rejections (no fare, no seats) is answered alike whenever the
    executor is asked again with the same route - after any number of other
    calls, when the hold has long expired, and whatever has happened to the
    reservation - and the repetition changes nothing. *)
Theorem create_command_replays router maxTTL now now' clk clk' c l0 w l codes o fl1 :
  map_Forall (fun _ => pristine) w.1 -> cm_op c = OperationCreateReservation -> final o ->
  Execute router maxTTL now clk c (runCalls claim l0 w).1 = (o, fl1) ->
  let fl2 := (runCalls claim l (fl1, codes)).1 in
  Execute router maxTTL now' clk' c fl2 = (o, fl2).
Proof.
  intros Hp Hop Hfin Hok fl2. set (fl := (runCalls claim l0 w).1) in *. assert (Hf : FleetInv fl) by (intros s d Hd; by eapply shardHistory_inv).
  assert (Hf1 : FleetInv fl1).
  { intros s d' Hd'. pose proof (Execute_steps router maxTTL now clk c fl) as Hst. rewrite Hok in Hst.
    destruct (fleetRel_before _ _ _ _ _ Hst Hd') as (d & Hd & Hs). eapply txSteps_inv; [exact Hs|]. by apply (Hf s). }
  assert (Hkeep : forall d, fl1 !! shardID (cm_route c) = Some d -> answers c d o -> exists d2, fl2 !! shardID (cm_route c) = Some d2 /\ answers c d2 o).
  { intros d Hd Ha. destruct (runCalls_settled claim l (fl1, codes) _ d Hf1 Hd) as (d2 & Hd2 & [Hdur _]). exists d2. split; [done|]. by eapply answers_durable. }
  destruct (Execute_final _ _ _ _ _ _ _ _ Hop Hfin Hok) as (d & Hd & Ha). destruct (Hkeep d Hd Ha) as (d2 & Hd2 & Ha2).
  by eapply Execute_answers.
Qed.
End Replay.
