(* ===== verification/ShardIssuance.v ===== *)
(** * Physical shards: expiry passes and the retry of an issuance

    The expirer's progress, and the gateway's answer to an IssueTickets command
    that the shard has already carried out, as the payment worker takes it. *)

From S2P Require Import Prelude Transaction SegmentMask BookingDomain Sharding PaymentDomain PaymentDb PaymentClaims PaymentFinalize PaymentControl PaymentWorker BookingDb Occupancy ShardDb ShardBooking ShardPayment ShardExpiry ShardLogic ShardDurable ShardInvariant ShardSafety ShardCalls ShardHistory ShardProperties ShardReplay.
Import ShardTypes.

(** ** Expiry *)

(** The holds a pass at [now] should expire. *)
Definition overdueHolds (now : Z) (d : Shard) : list (uuid * ResRow) := filter (fun kr => overdue now d kr.2 = true) (map_to_list (resv d)).

(** What failAction returns once it has asked for a compensation. *)
Definition compensated {P T} (x : res WErr unit * @WorkerWorld P T) (r : Result) : option WorkErr * @WorkerWorld P T * Result :=
  match x with
  | (Err e, ww') => (Some (FailFailed e), ww', r)
  | (Ok _, ww') => (None, ww', compensatingOne r)
  end.

Section Issuance.
Context {hashing : Hashing}.

Lemma overdue_fences now d d' r : fences d' = fences d -> overdue now d' r = overdue now d r.
Proof. unfold overdue. by intros ->. Qed.
Lemma overdueHolds_expired now d d' id r :
  fences d' = fences d -> resv d !! id = Some r -> overdue now d r = true -> resv d' = <[id := resTo Expired r]> (resv d) ->
  length (overdueHolds now d) = S (length (overdueHolds now d')).
Proof.
  intros Hf Hr Ho Hr'. unfold overdueHolds. rewrite Hr'.
  rewrite <- (map_to_list_delete (resv d) id r) by done.
  rewrite <- (map_to_list_delete (<[id := resTo Expired r]> (resv d)) id (resTo Expired r)) by apply lookup_insert_eq.
  rewrite delete_insert_eq, !filter_cons. simpl. rewrite decide_True by done. simpl. f_equal. f_equal.
  apply list_filter_iff. intros [q x]. simpl. by rewrite (overdue_fences now d d').
Qed.

Lemma expireOne_progress clk now name d b d' :
  ShInv d -> expireOne clk now name d = Ok (b, d') ->
  if b then length (overdueHolds now d) = S (length (overdueHolds now d')) else d' = d /\ overdueHolds now d = [].
Proof.
  intros Hi Hok. pose proof (durable_expireOne _ _ _ _ _ _ Hok) as Hdur. destruct b.
  - apply expireOne_Ok in Hok as (id & r & Hr & Hst & Hexp & Hopen & _ & _ & Hw); [|done].
    eapply overdueHolds_expired; [exact (du_fences _ _ Hdur)|exact Hr| |exact Hw]. unfold overdue. destruct Hopen as (f & -> & -> & ->).
    rewrite bool_decide_true, Z.eqb_refl by done. simpl. rewrite andb_true_r. by apply Z.leb_le.
  - unfold expireOne in Hok. apply sbind_Ok in Hok as (? & ? & [<- <-]%shard_Ok & Hok).
    destruct (expiryCandidate now d) as [[id r]|] eqn:Ec; [inv_S Hok; done|]. apply sret_Ok in Hok as [_ <-]. split; [done|].
    unfold expiryCandidate, overdueHolds in *. destruct (filter _ _) as [|x l] eqn:Ef; [done|]. exfalso.
    assert (Hin : x ∈ sortBy expiresBefore (x :: l)) by (apply elem_of_sortBy; left). by destruct (sortBy expiresBefore (x :: l)); [apply not_elem_of_nil in Hin|].
Qed.
Lemma expireLoop_progress n clk now name d k e d' :
  ShInv d -> expireLoop n clk now name d = ((k, e), d') ->
  length (overdueHolds now d) = (k + length (overdueHolds now d'))%nat /\ (k <= n)%nat /\ (e = None -> (k < n)%nat -> overdueHolds now d' = []).
Proof.
  revert d k e d'. induction n as [|n IH]; intros d k e d' Hi Hok; simpl in Hok; [injection Hok as <- <- <-; split_and!; lia|].
  destruct (expireOne clk now name d) as [[[|] d1]|e1] eqn:E.
  - destruct (expireLoop n clk now name d1) as [[k1 e1] d2] eqn:El. injection Hok as <- <- <-. pose proof (expireOne_progress _ _ _ _ _ _ Hi E) as Hp. simpl in Hp.
    destruct (IH d1 k1 e1 d2) as (H1 & H2 & H3); [by destruct (expireOne_sound _ _ _ _ _ _ Hi E)|done|]. split_and!; [lia..|]. intros -> Hlt. apply H3; [done|lia].
  - injection Hok as <- <- <-. destruct (expireOne_progress _ _ _ _ _ _ Hi E) as [-> Hnil]. rewrite Hnil. split_and!; [done|lia|done].
  - injection Hok as <- <- <-. split_and!; [done|lia|done].
Qed.

Context {C : Type} (claim : option (IssueTicketsCommand -> list uuid -> list string -> C -> res ShardErr unit * C)).

(** C24: a pass of the expirer that reports [n] holds has expired exactly [n]
    of the overdue holds of its shard, [limit] at most; a pass that ends
    without an error before its limit leaves no hold that is overdue under an
    open fence. *)
Theorem expirer_drains_overdue_holds limit clk now name l w n e fl' d d' :
  map_Forall (fun _ => pristine) w.1 -> (runCalls claim l w).1 !! name = Some d ->
  ProcessExpirations limit clk now name (runCalls claim l w).1 = ((n, e), fl') -> fl' !! name = Some d' ->
  length (overdueHolds now d) = (n + length (overdueHolds now d'))%nat /\ Z.of_nat n <= Z.max 0 limit /\
  (e = None -> Z.of_nat n < limit -> overdueHolds now d' = []).
Proof.
  intros Hp Hd Hok Hd'. pose proof (shardHistory_inv claim l w name d Hp Hd) as Hi. unfold ProcessExpirations in Hok. rewrite Hd in Hok.
  destruct (_ || _) eqn:Hb.
  - injection Hok as <- <- <-. assert (d' = d) as -> by congruence. split_and!; [done|lia|done].
  - destruct (expireLoop _ _ _ _ _) as [[k e0] d1] eqn:El. injection Hok as <- <- <-. rewrite lookup_insert_eq in Hd'. injection Hd' as ->.
    destruct (expireLoop_progress _ _ _ _ _ _ _ _ Hi El) as (H1 & H2 & H3). apply orb_false_iff in Hb as [Hb1%Z.ltb_ge _]. split_and!; [done|lia|].
    intros He Hlt. apply H3; [done|lia].
Qed.

(** ** The retry of an issuance *)
Lemma loadIssuance_issued c d v :
  Store.loadIssuanceReceipt c d = Ok (Some v) -> exists j o, orders d !! j = Some o /\ od_reservation o = ic_reservation c /\ od_status o = OIssued.
Proof.
  unfold Store.loadIssuanceReceipt. destruct (issuances d !! _) as [i|]; [|done]. destruct (_ || _); [done|]. destruct (preceipts d !! _) as [p|]; [|done].
  destruct (_ || _); [done|]. destruct (Store.paymentOrder _ _ _ _ _ d) as [o|] eqn:Eo; [|done]. apply paymentOrder_Some in Eo as [Ho Hr].
  destruct (_ || _) eqn:Hb; [done|]. intros _. bsplit. eauto.
Qed.
Lemma inPayment_status c r : Store.inPayment c r = true -> rv_status r = PaymentPending \/ rv_status r = PaymentReview.
Proof. unfold Store.inPayment, resIn. intros H. bsplit. set_solver. Qed.
Lemma payment_not_issued c d r v :
  ShInv d -> resv d !! ic_reservation c = Some r -> Store.inPayment c r = true -> Store.loadIssuanceReceipt c d = Ok (Some v) -> False.
Proof.
  intros Hi Hr Hpay (j & o & Ho & Hres & Hst)%loadIssuance_issued. destruct (in_orders _ Hi j o Ho) as (r0 & Hr0 & Hf). rewrite Hres in Hr0.
  assert (r0 = r) as -> by congruence. pose proof (of_status _ _ Hf) as Hp. rewrite Hst in Hp. apply bool_decide_eq_true in Hp.
  apply inPayment_status in Hpay as []; congruence.
Qed.
(** Issuing the tickets of a reservation in payment confirms it. *)
Lemma issueTx_confirms clk route c ids codes d v d' r :
  ShInv d -> Store.routedReservation route (ic_reservation c) d = Some r -> Store.inPayment c r = true ->
  Store.issueTx clk route c ids codes d = Ok (v, d') -> Store.routedReservation route (ic_reservation c) d' = Some (resTo Confirmed r).
Proof.
  intros Hi Hrr Hpay Hok. pose proof Hrr as (Hr & Hrun & Hgen)%routedReservation_Some. unfold Store.issueTx in Hok.
  apply sbind_Ok in Hok as (found & ? & [Hl <-]%reads_Ok & Hok). destruct found; [by destruct (payment_not_issued c d r i Hi Hr Hpay Hl)|].
  apply sbind_Ok in Hok as (? & ? & [_ <-]%reads_Ok & Hok). apply sbind_Ok in Hok as (found & ? & [Hl2 <-]%reads_Ok & Hok).
  destruct found; [by destruct (payment_not_issued c d r i Hi Hr Hpay Hl2)|]. apply sbind_Ok in Hok as (? & ? & [<- <-]%shard_Ok & Hok). rewrite Hrr in Hok.
  apply sbind_Ok in Hok as (? & ? & [_ <-]%guardS_Ok & Hok). apply sbind_Ok in Hok as (? & ? & [_ <-]%guardS_Ok & Hok). cbv zeta in Hok.
  destruct (Store.routedOrder _ _ _ _ _ _ d) as [o|] eqn:Eo; [|by apply raise_Ok in Hok]. apply routedOrder_Some in Eo as [Ho Hres].
  apply sbind_Ok in Hok as (? & ? & [_ <-]%guardS_Ok & Hok). apply inPayment_status in Hpay.
  eapply issueWrites_inv in Hok as [_ Hw]; [|done|exact Hr|done|done|apply bool_decide_eq_true; set_solver|exact Ho|done].
  unfold Store.routedReservation. rewrite Hw, lookup_insert_eq. simpl. by rewrite Hrun, Hgen, bool_decide_true, Z.eqb_refl.
Qed.

Lemma planTx_Ok route c d ids codes :
  Store.planTx route c d = Ok (ids, codes) -> exists r, Store.routedReservation route (ic_reservation c) d = Some r /\ Store.inPayment c r = true.
Proof.
  unfold Store.planTx. destruct (Store.routedReservation _ _ d) as [r|]; [|done]. destruct (_ || _) eqn:Hb; [done|]. bsplit. eauto.
Qed.

(** After an issuance the plan of the same command is refused. *)
Lemma issued_plan_refused router route clk c ids codes planned fl v fl1 :
  FleetInv fl -> Store.PlanTicketIssue router route c fl = Ok planned -> Store.IssueTickets router clk route c ids codes fl = (Ok v, fl1) ->
  Store.PlanTicketIssue router route c fl1 = Err (App ErrReservationNotPayable).
Proof.
  intros Hf Hplan Hok. unfold Store.PlanTicketIssue in *. destruct (negb _); [done|]. unfold Store.IssueTickets in Hok. destruct (negb _); [done|].
  apply inTx_Ok in Hok as (s & d & d' & Hres & Hd & Hm & ->). rewrite Hres in Hplan. simpl in Hplan. rewrite Hd in Hplan. destruct planned as [pi pc].
  apply planTx_Ok in Hplan as (r & Hr & Hpay). rewrite (resolve_shard _ _ _ _ (<[s := d']> fl) _ Hres) by (rewrite lookup_insert_eq; eauto). simpl.
  rewrite lookup_insert_eq. unfold Store.planTx. rewrite (issueTx_confirms _ _ _ _ _ _ _ _ _ (Hf s d Hd) Hr Hpay Hm).
  replace (Store.inPayment c (resTo Confirmed r)) with false by done. by rewrite orb_true_r.
Qed.

(** The answer of the gateway, and what the worker makes of it. *)
Definition planRefused : ShardErr := Gateway.joined ErrTicketPlanUnavailable (Gateway.plainErr (App ErrReservationNotPayable)).
Lemma planRefused_permanent : permanentShardError planRefused = true /\ shardFailureCategory planRefused = "shard_ticket_plan_failed"%string.
Proof. split; vm_compute; reflexivity. Qed.

Lemma gateway_issue_again router directory clk clk' claimer c fl codes codes' v fl1 codes1 :
  FleetInv fl -> (forall id, directory id true = directory id false) ->
  Gateway.IssueTickets router directory clk (Some claimer) c (fl, codes) = (Ok v, (fl1, codes1)) ->
  Gateway.IssueTickets (C := C) router directory clk' (Some claimer) c (fl1, codes') = (Err planRefused, (fl1, codes')).
Proof.
  intros Hf Hdir. unfold Gateway.IssueTickets. destruct (_ || _); [done|]. rewrite Hdir. destruct (directory (ic_reservation c) false) as [route|]; [|done].
  destruct (negb _) eqn:En; [done|]. destruct (Store.PlanTicketIssue router route c fl) as [[ids planned]|] eqn:Ep; [|done].
  destruct (claimer c ids planned codes) as [[[]|] codes2]; [|done].
  assert (Hst : forall fl2 o, Store.IssueTickets router clk route c ids planned fl = (o, fl2) -> (exists e, o = Err e /\ fl2 = fl) \/ exists v, o = Ok v).
  { intros fl2 [v2|e2]; [by eauto|]. unfold Store.IssueTickets, Store.inTx. intros H. left. exists e2. split; [done|]. repeat case_match; simplify_eq; done. }
  destruct (Store.IssueTickets router clk route c ids planned fl) as [o fl2] eqn:Ei. destruct (Hst fl2 o eq_refl) as [(e & -> & ->)|(v2 & ->)].
  - destruct (Gateway.staleOrFenced e); [|done]. rewrite Ei. done.
  - intros [= <- <- <-]. by rewrite (issued_plan_refused _ _ _ _ _ _ _ _ _ _ Hf Ep Ei).
Qed.

(** C25: once a shard has issued the tickets of a payment, sending the command
    again through the gateway is refused as not payable: the plan is computed
    before the receipt is looked up.  The worker takes the refusal for a
    permanent failure of the issuance, on whatever attempt, and so turns a
    retry of an action that had succeeded (its result not yet recorded in the
    control database) into a compensation: a refund of issued tickets. *)
Theorem issued_action_retry_compensates {P} router directory clk clk' claimer ic l w fl1 codes codes1 v
    (clock : nat -> Z) cfg now a (ww : @WorkerWorld P (Fleet * C)) r :
  map_Forall (fun _ => pristine) w.1 -> (forall id, directory id true = directory id false) ->
  Gateway.IssueTickets router directory clk (Some claimer) ic ((runCalls claim l w).1, codes) = (Ok v, (fl1, codes1)) ->
  validActionClaim a (cfg_worker cfg) = true -> ac_action a = ActionIssueTickets ic -> ac_lease a <> ""%string -> ww_shard ww = (fl1, codes1) ->
  let refusal := mkFailure "shard_ticket_plan_failed" zeroTime false false true in
  processAction clock (Gateway.workerGateway router directory clk' (Some claimer)) cfg now a ww r =
    compensated (tx clock (fun clk => FailAction clk a refusal) ww) r.
Proof.
  intros Hp Hdir Hok Hv Ha Hlease Hs refusal. assert (Hf : FleetInv (runCalls claim l w).1) by (intros s d Hd; by eapply shardHistory_inv).
  pose proof (gateway_issue_again router directory clk clk' claimer ic _ codes codes1 v fl1 codes1 Hf Hdir Hok) as Hagain.
  unfold processAction. rewrite Hv. simpl. unfold callShard. rewrite Hs, Ha. unfold callAction, mapRes. cbn [gwIssue Gateway.workerGateway]. rewrite Hagain. simpl.
  destruct planRefused_permanent as [-> ->]. rewrite orb_true_r. unfold failAction. unfold validActionClaim in Hv. bsplit.
  rewrite !bool_decide_false by done. simpl. rewrite Ha. simpl.
  replace (boundedCategory "shard_ticket_plan_failed") with "shard_ticket_plan_failed"%string by (vm_compute; reflexivity).
  destruct ww. simpl in *. subst. unfold compensated. by destruct (tx _ _ _) as [[]].
Qed.
End Issuance.
