(* ===== verification/ShardScenarios.v ===== *)
(** * Physical shards: scenarios

    One train run with two seats on one physical shard: a booking is paid and
    its tickets are issued; another hold expires.  The witnesses of the
    properties of the shard. *)

From S2P Require Import Prelude Transaction SegmentMask BookingDomain Sharding PaymentDomain PaymentDb PaymentClaims PaymentFinalize PaymentControl PaymentWorker PaymentLogic PaymentSafety PaymentHistory BookingDb Occupancy ShardDb ShardBooking ShardPayment ShardExpiry ShardLogic ShardDurable ShardInvariant ShardCalls ShardHistory ShardProperties ShardReplay ShardIssuance.
Import ShardTypes SamplePayment.

Module SampleShard.
Definition route : ShardRoute := mkShardRoute 20 ShardPhysicalZero 1.
Definition router : Resolver := fun run _ => if bool_decide (run = 20%N) then Some (mkResolution route ShardPhysicalZero true) else None.
Definition directory : uuid -> bool -> res PayErr ShardRoute := fun _ _ => Ok route.
Definition free : InvRow := mkInvRow 3 "standard" [false; false; false] 0.
Definition emptyShard : Shard :=
  mkShard {[ (20%N, 1) := mkSnapRow 3 1 "scheduled" true true ]}
    {[ (20%N, 1, 40%N) := mkCatRow 1 1 true; (20%N, 1, 41%N) := mkCatRow 1 2 true ]}
    {[ 50%N := mkFareSnap 20 1 0 2 "standard" 2500 "EUR" 1 true ]}
    {[ (20%N, 1, 40%N) := free; (20%N, 1, 41%N) := free ]}
    ∅ ∅ ∅ ∅ ∅ ∅ ∅ ∅ ∅ ∅ {[ 20%N := mkFenceRow 1 true "active" ]} ∅.
Definition fleet : Fleet := {[ ShardPhysicalZero := emptyShard ]}.
Definition env (t : Z) : Env := mkEnv router directory t.

(** A hold of both seats until 1000, entering payment, and the command of the
    worker's issuance action. *)
Definition create (id reservation : uuid) : Command :=
  mkCommand id OperationCreateReservation 30 20 reservation route 7 StateExecuting (mkPayload 0 2 "standard" [61; 62]%N 1000 1).
Definition begin_ : BeginPaymentCommand := mkBeginPaymentCommand 71 1 10 20 30 5000 "EUR" 2000 8.
Definition noAction : ActionClaim := mkActionClaim 0 (ActionMarkRefundPending (mkMarkRefundPendingCommand 0 0 0 0 0 0 "" 0 0)) "" 0 "" 0.
Definition firstAction (x : res WErr (list ActionClaim * PDb)) : ActionClaim := match x with Ok (a :: _, _) => a | _ => noAction end.
Definition action : ActionClaim := firstAction (ClaimActions (at_ 400) 400 (h_db (after captured))).
Definition issueOf (a : Action) : IssueTicketsCommand := match a with ActionIssueTickets c => c | _ => mkIssueTicketsCommand 0 0 0 0 0 0 0 0 "" 0 0 end.
Definition issue : IssueTicketsCommand := issueOf (ac_action action).
Definition claimer : IssueTicketsCommand -> list uuid -> list string -> unit -> res ShardErr unit * unit := fun _ _ _ u => (Ok tt, u).

Definition held : list (Env * Call) := [(env 50, CallExecute 1000 50 (create 70 10))].
Definition paying : list (Env * Call) := held ++ [(env 101, CallBegin begin_)].
Definition issued : list (Env * Call) := paying ++ [(env 405, CallIssue issue)].
Definition refund : MarkRefundPendingCommand := mkMarkRefundPendingCommand 72 1 10 20 30 5000 "EUR" 9 10.
Definition refunding : list (Env * Call) := issued ++ [(env 500, CallMark refund)].
Definition afterCalls (l : list (Env * Call)) : Fleet := (runCalls (Some claimer) l (fleet, tt)).1.
Definition shardAfter (l : list (Env * Call)) : Shard := default emptyShard (afterCalls l !! ShardPhysicalZero).
Definition statusAfter (l : list (Env * Call)) : option RStatus := rv_status <$> resv (shardAfter l) !! 10%N.
Definition ticketsAfter (l : list (Env * Call)) : list TStatus := (fun kt => tk_status kt.2) <$> map_to_list (tix (shardAfter l)).

Lemma fleet_pristine : map_Forall (fun _ => pristine) (fleet, tt).1.
Proof.
  apply map_Forall_singleton. split; try reflexivity. intros k v i Hk. simpl in Hk.
  assert (v = free) as -> by (apply lookup_insert_Some in Hk as [[_ <-]|[_ [_ <-]%lookup_singleton_Some]]; reflexivity).
  unfold bit. destruct i as [|[|[|[|i]]]]; reflexivity.
Defined.
Lemma shardAfter_lookup l : is_Some (afterCalls l !! ShardPhysicalZero) -> afterCalls l !! ShardPhysicalZero = Some (shardAfter l).
Proof. unfold shardAfter. intros [d ->]. reflexivity. Defined.
End SampleShard.
Import SampleShard.

Example scenario_held : statusAfter held = Some Held /\ statusAfter paying = Some PaymentPending /\ statusAfter issued = Some Confirmed /\
  ticketsAfter issued = [TActive; TActive] /\ statusAfter refunding = Some RefundPending /\ ticketsAfter refunding = [TRefundPending; TRefundPending].
Proof. vm_compute. auto 10. Qed.

(** ** Witnesses *)
Lemma shard_seats_never_sold_twice_witness :
  statusAfter issued = Some Confirmed /\
  exists q st r, rseats (shardAfter issued) !! q = Some st /\ seatKey st = (20%N, 1, 40%N) /\ resv (shardAfter issued) !! st_reservation st = Some r /\
    holding (rv_status r) = true /\ bit (st_mask st) 1 = true.
Proof.
  split; [vm_compute; reflexivity|].
  destruct (shard_seats_never_sold_twice (Some claimer) issued (fleet, tt) ShardPhysicalZero (shardAfter issued) fleet_pristine) as [_ Hbits].
  - apply (shardAfter_lookup issued). vm_compute. eexists. reflexivity.
  - apply (Hbits (20%N, 1, 40%N) (mkInvRow 3 "standard" [true; true; false] 1) 1%nat); vm_compute; reflexivity.
Defined.

Lemma shard_tickets_and_money_agree_witness :
  exists r, resv (shardAfter issued) !! 10%N = Some r /\ rv_status r = Confirmed /\
    exists j o, orders (shardAfter issued) !! j = Some o /\ od_reservation o = 10%N /\ od_captured o = rv_total r /\ rv_total r = 5000.
Proof.
  eexists. split; [vm_compute; reflexivity|]. split; [reflexivity|].
  edestruct (shard_tickets_and_money_agree (Some claimer) issued (fleet, tt) ShardPhysicalZero (shardAfter issued) 10%N) as [Hc _].
  - exact fleet_pristine.
  - apply (shardAfter_lookup issued). vm_compute. eexists. reflexivity.
  - vm_compute. reflexivity.
  - destruct (Hc eq_refl) as (j & o & Ho & Hr & _ & _ & Hpay & _). exists j, o. destruct Hpay as [Hcap _]; [eexists; reflexivity|].
    split; [exact Ho|]. split; [exact Hr|]. split; [exact Hcap|reflexivity].
Defined.

Lemma shard_lifecycle_refines_domain_witness :
  exists r r', resv (shardAfter paying) !! 10%N = Some r /\ resv (shardAfter issued) !! 10%N = Some r' /\
    rv_status r = PaymentPending /\ rv_status r' = Confirmed /\ rtc (moves ByPayment 405) r r'.
Proof.
  eexists. edestruct (shard_lifecycle_refines_domain (Some claimer) paying (fleet, tt) (env 405) (CallIssue issue) ShardPhysicalZero
    (shardAfter paying) (shardAfter issued) 10%N) as (r' & Hr' & Hm & _).
  - exact fleet_pristine.
  - apply (shardAfter_lookup paying). vm_compute. eexists. reflexivity.
  - apply (shardAfter_lookup issued). vm_compute. eexists. reflexivity.
  - vm_compute. reflexivity.
  - exists r'. split; [vm_compute; reflexivity|]. split; [exact Hr'|]. split; [reflexivity|]. split; [|exact Hm].
    assert (Hs : statusAfter issued = Some Confirmed) by (vm_compute; reflexivity). unfold statusAfter in Hs. rewrite Hr' in Hs. injection Hs as Hs. exact Hs.
Defined.

Lemma fence_guards_reservations_witness :
  exists r', resv (shardAfter held) !! 10%N = Some r' /\ resv emptyShard !! 10%N = None /\ openFor emptyShard r'.
Proof.
  eexists. split; [vm_compute; reflexivity|]. split; [reflexivity|].
  edestruct (fence_guards_reservations (Some claimer) [] (fleet, tt) (env 50) (CallExecute 1000 50 (create 70 10)) ShardPhysicalZero
    emptyShard (shardAfter held) 10%N) as [_ Ho].
  - exact fleet_pristine.
  - reflexivity.
  - apply (shardAfter_lookup held). vm_compute. eexists. reflexivity.
  - apply Ho; [vm_compute; reflexivity|discriminate].
Defined.

Lemma committed_facts_are_final_witness :
  statusAfter paying = Some PaymentPending /\ settled (shardAfter paying) (shardAfter issued).
Proof.
  split; [vm_compute; reflexivity|].
  apply (committed_facts_are_final (Some claimer) paying [(env 405, CallIssue issue)] (fleet, tt) ShardPhysicalZero).
  - exact fleet_pristine.
  - apply (shardAfter_lookup paying). vm_compute. eexists. reflexivity.
  - apply (shardAfter_lookup issued). vm_compute. eexists. reflexivity.
Defined.

Lemma payment_commands_replay_witness :
  exists v fl1, Store.BeginPayment router 101 route begin_ (afterCalls held) = (Ok v, fl1) /\
    statusAfter issued = Some Confirmed /\
    Store.BeginPayment router 900 route begin_ (runCalls (Some claimer) [(env 405, CallIssue issue)] (fl1, tt)).1 =
      (Ok v, (runCalls (Some claimer) [(env 405, CallIssue issue)] (fl1, tt)).1).
Proof.
  set (x := Store.BeginPayment router 101 route begin_ (afterCalls held)). assert (Hx : exists v, x.1 = Ok v) by (vm_compute; eexists; reflexivity).
  destruct Hx as [v Hv]. exists v, x.2. assert (E : x = (Ok v, x.2)) by (rewrite <- Hv; apply surjective_pairing). split; [exact E|]. split; [vm_compute; reflexivity|].
  destruct (payment_commands_replay (Some claimer) router route 101 900 held (fleet, tt) [(env 405, CallIssue issue)] tt x.2 fleet_pristine) as [Hb _].
  apply Hb. exact E.
Defined.

Lemma create_command_replays_witness :
  exists v fl1, Execute router 1000 50 50 (create 70 10) fleet = (Ok v, fl1) /\
    Execute router 1000 5000 5000 (create 70 10) (runCalls (Some claimer) [(env 2000, CallExpire 10 2000 ShardPhysicalZero)] (fl1, tt)).1 =
      (Ok v, (runCalls (Some claimer) [(env 2000, CallExpire 10 2000 ShardPhysicalZero)] (fl1, tt)).1).
Proof.
  set (x := Execute router 1000 50 50 (create 70 10) fleet). assert (Hx : exists v, x.1 = Ok v) by (vm_compute; eexists; reflexivity).
  destruct Hx as [v Hv]. exists v, x.2. assert (E : x = (Ok v, x.2)) by (rewrite <- Hv; apply surjective_pairing). split; [exact E|].
  apply (create_command_replays (Some claimer) router 1000 50 5000 50 5000 (create 70 10) [] (fleet, tt) _ tt (Ok v) x.2 fleet_pristine eq_refl I E).
Defined.

Lemma expirer_drains_overdue_holds_witness :
  statusAfter (held ++ [(env 2000, CallExpire 10 2000 ShardPhysicalZero)]) = Some Expired /\
  overdueHolds 2000 (shardAfter (held ++ [(env 2000, CallExpire 10 2000 ShardPhysicalZero)])) = [].
Proof.
  split; [vm_compute; reflexivity|].
  destruct (ProcessExpirations 10 2000 2000 ShardPhysicalZero (afterCalls held)) as [[n e] fl'] eqn:E.
  destruct (expirer_drains_overdue_holds (Some claimer) 10 2000 2000 ShardPhysicalZero held (fleet, tt) n e fl' (shardAfter held)
    (shardAfter (held ++ [(env 2000, CallExpire 10 2000 ShardPhysicalZero)])) fleet_pristine) as (_ & _ & Hd).
  - apply (shardAfter_lookup held). vm_compute. eexists. reflexivity.
  - exact E.
  - assert (Hfl : fl' = afterCalls (held ++ [(env 2000, CallExpire 10 2000 ShardPhysicalZero)])).
    { change (fl' = (ProcessExpirations 10 2000 2000 ShardPhysicalZero (afterCalls held)).2). rewrite E. reflexivity. }
    rewrite Hfl. apply shardAfter_lookup. vm_compute. eexists. reflexivity.
  - assert (Hn : (ProcessExpirations 10 2000 2000 ShardPhysicalZero (afterCalls held)).1 = (1%nat, None)) by (vm_compute; reflexivity).
    rewrite E in Hn. injection Hn as -> ->. apply Hd; [reflexivity|lia].
Defined.

(** The shard has issued the tickets at 405; the worker, which has not recorded
    it, tries again at 600. *)
Definition issuedWorld : @WorkerWorld unit (Fleet * unit) :=
  mkWorkerWorld ((run (ClaimActions (at_ 400) 400) (h_db (after captured))).2) tt (afterCalls issued, tt) 0.
Definition sampleWorker : PaymentWorker.Config := mkConfig "worker-1" 10 5 60000000000 4 16 1000000 1.
Definition retried : option WorkErr * @WorkerWorld unit (Fleet * unit) * Result :=
  processAction (fun _ => 600) (Gateway.workerGateway router directory 600 (Some claimer)) sampleWorker 600 action issuedWorld noResult.
Lemma issued_step : afterCalls issued = (Gateway.IssueTickets router directory 405 (Some claimer) issue (afterCalls paying, tt)).2.1.
Proof. unfold afterCalls, issued, runCalls. rewrite foldl_app. by destruct (foldl _ _ paying) as [fl []]. Defined.
(** The first issuance succeeds, and the claim of the worker is valid. *)
Lemma first_issue : exists v, Gateway.IssueTickets router directory 405 (Some claimer) issue (afterCalls paying, tt) = (Ok v, (afterCalls issued, tt)).
Proof.
  rewrite issued_step. set (x := Gateway.IssueTickets _ _ _ _ _ _). assert (Hx : exists v, x.1 = Ok v) by (vm_compute; eexists; reflexivity).
  destruct Hx as [v Hv]. exists v. clearbody x. destruct x as [r [fl []]]. simpl in *. by rewrite Hv.
Defined.
Lemma action_valid : validActionClaim action (cfg_worker sampleWorker) = true.
Proof. vm_compute. reflexivity. Defined.
Lemma action_issues : ac_action action = ActionIssueTickets issue.
Proof. vm_compute. reflexivity. Defined.
Lemma action_lease : ac_lease action <> ""%string.
Proof. vm_compute. discriminate. Defined.
Definition intentStates (db : PDb) : option IntentState := i_state <$> intents db !! 1%N.
Definition refundStates (db : PDb) : list OperationState :=
  omap (fun kr => if bool_decide (o_type kr.2 = OperationRefund) then Some (o_state kr.2) else None) (map_to_list (ops db)).
Lemma issued_action_retry_compensates_witness :
  statusAfter issued = Some Confirmed /\ ticketsAfter issued = [TActive; TActive] /\
  retried = compensated (tx (fun _ => 600) (fun clk => FailAction clk action (mkFailure "shard_ticket_plan_failed" zeroTime false false true)) issuedWorld) noResult /\
  intentStates (ww_db retried.1.2) = Some IntentModel.RefundPending /\ refundStates (ww_db retried.1.2) = [Pending].
Proof.
  split; [vm_compute; reflexivity|]. split; [vm_compute; reflexivity|]. split; [|split; vm_compute; reflexivity].
  destruct first_issue as (v & E). unfold retried.
  exact (issued_action_retry_compensates (Some claimer) router directory 405 600 claimer issue paying (fleet, tt) (afterCalls issued) tt tt v (fun _ => 600)
    sampleWorker 600 action issuedWorld noResult fleet_pristine (fun _ => eq_refl) E action_valid action_issues action_lease eq_refl).
Defined.
