(* ===== verification/ShardReceipts.v ===== *)
(** * Physical shards: the receipts of booking commands

    Which transactions write booking_command_receipts: the executor, once for a
    command, with its outcome; the cancellation of a run, with a receipt of its
    own kind; no other. *)

From S2P Require Import Prelude Transaction SegmentMask BookingDomain Sharding PaymentDomain PaymentDb PaymentClaims PaymentFinalize PaymentControl PaymentWorker BookingDb Occupancy ShardDb ShardBooking ShardPayment ShardExpiry ShardLogic ShardDurable ShardInvariant ShardSafety ShardCalls ShardHistory ShardProperties.
Import ShardTypes.

(** ** Transactions that leave the receipts alone *)
Definition sameReceipts (d d' : Shard) : Prop := breceipts d' = breceipts d.
#[export] Instance sameReceipts_preorder : PreOrder sameReceipts.
Proof. split; [done|]. unfold sameReceipts. congruence. Qed.
(** ... and make no reservation. *)
Definition sameTables (d d' : Shard) : Prop := breceipts d' = breceipts d /\ dom (resv d') = dom (resv d).
#[export] Instance sameTables_preorder : PreOrder sameTables.
Proof. split; [done|]. intros d1 d2 d3 [] []. split; congruence. Qed.
Lemma sameTables_receipts d d' : sameTables d d' -> sameReceipts d d'.
Proof. by intros []. Qed.

Lemma same_insReservation k r d d' : insReservation k r d = Some d' -> sameReceipts d d'.
Proof. by intros (_ & _ & ->)%insReservation_Some. Qed.
Lemma same_updReservation k p f d d' : updReservation k p f d = Some d' -> sameTables d d'.
Proof. intros (r & Hr & _ & _ & _ & ->)%updReservation_Some. split; [done|]. simpl. apply dom_insert_lookup_L. eauto. Qed.
Lemma same_insRSeat k s d d' : insRSeat k s d = Some d' -> sameTables d d'.
Proof. by intros (_ & _ & _ & ->)%insRSeat_Some. Qed.
Lemma same_insOrder k o d d' : insOrder k o d = Some d' -> sameTables d d'.
Proof. by intros (_ & _ & _ & _ & ->)%insOrder_Some. Qed.
Lemma same_insOrderNothing k o d d' : insOrderNothing k o d = Some d' -> sameTables d d'.
Proof. unfold insOrderNothing. destruct (existsRow _ _); [by intros [= <-]|apply same_insOrder]. Qed.
Lemma same_updOrder k p f d d' : updOrder k p f d = Some d' -> sameTables d d'.
Proof. by intros (o & _ & _ & _ & ->)%updOrder_Some. Qed.
Lemma same_insTicket k t d d' : insTicket k t d = Some d' -> sameTables d d'.
Proof. by intros (_ & _ & _ & _ & ->)%insTicket_Some. Qed.
Lemma same_insTicketNothing k t d d' : insTicketNothing k t d = Some d' -> sameTables d d'.
Proof. unfold insTicketNothing. destruct (existsRow _ _); [by intros [= <-]|apply same_insTicket]. Qed.
Lemma same_insPReceipt k r d d' : insPReceipt k r d = Some d' -> sameTables d d'.
Proof. by intros (_ & _ & ->)%insPReceipt_Some. Qed.
Lemma same_closePReceipt k a b clk d d' : closePReceipt k a b clk d = Some d' -> sameTables d d'.
Proof. by intros (r & _ & _ & ->)%closePReceipt_Some. Qed.
Lemma same_insIssuance k r d d' : insIssuance k r d = Some d' -> sameTables d d'.
Proof. by intros (_ & ->)%insIssuance_Some. Qed.
Lemma same_insRefund k r d d' : insRefund k r d = Some d' -> sameTables d d'.
Proof. by intros (_ & ->)%insRefund_Some. Qed.
Lemma same_insComp k r d d' : insComp k r d = Some d' -> sameTables d d'.
Proof. by intros (_ & ->)%insComp_Some. Qed.
Lemma same_insEvent k e d d' : insEvent k e d = Some d' -> sameTables d d'.
Proof. by intros ->%insEvent_Some. Qed.
Lemma same_insEvidence id run gen command clk d d' : insEvidence id run gen command clk d = Some d' -> sameTables d d'.
Proof. by intros (v & ->)%insEvidence_Some. Qed.
Lemma same_cancelOrderOf r d d' : cancelOrderOf r d = Some d' -> sameTables d d'.
Proof. unfold cancelOrderOf. destruct (orderOfReservation d r) as [[k o]|]; [apply same_updOrder|by intros [= <-]]. Qed.
Lemma same_updTickets o from new d : sameTables d (updTickets o from new d).
Proof. done. Qed.
Lemma same_cancelTicketsOf r d : sameTables d (cancelTicketsOf r d).
Proof. unfold cancelTicketsOf. by destruct (orderOfReservation d r) as [[k o]|]. Qed.
Lemma same_releaseRows rows d n d' : releaseRows rows d = Some (n, d') -> sameTables d d'.
Proof. unfold releaseRows. destruct (existsb _ _); [done|]. by intros [= _ <-]. Qed.
Lemma same_releaseSeats r d n d' : releaseSeats r d = Some (n, d') -> sameTables d d'.
Proof. apply same_releaseRows. Qed.
Lemma same_occupySeat run gen seat r mask d : sameTables d (occupySeat run gen seat r mask d).
Proof. done. Qed.
Lemma same_cancelSnapshot run gen d d' : cancelSnapshot run gen d = Some d' -> sameTables d d'.
Proof. unfold cancelSnapshot. intros H. by repeat case_match; simplify_eq. Qed.

Create HintDb receipts.
#[export] Hint Resolve sameTables_receipts same_insReservation same_updReservation same_insRSeat same_insOrder same_insOrderNothing same_updOrder same_insTicket
  same_insTicketNothing same_insPReceipt same_closePReceipt same_insIssuance same_insRefund same_insComp same_insEvent same_insEvidence
  same_cancelOrderOf same_updTickets same_cancelTicketsOf same_releaseRows same_releaseSeats same_occupySeat same_cancelSnapshot : receipts.
Ltac followR := repeat first
  [ apply respects_ret; apply _ | apply respects_bind; [apply _| |intros ?] | apply respects_raise | apply respects_shard; apply _
  | apply respects_guard; apply _ | apply respects_reads; apply _
  | apply respects_one; eauto with receipts; fail | apply respects_counted; eauto with receipts; fail | apply respects_modify; eauto with receipts; fail
  | assumption
  | match goal with |- respects _ (match ?x with _ => _ end) => destruct x end ].

Section Receipts.
Context {hashing : Hashing}.

Lemma same_recordTargetWrite route command clk d d' : recordTargetWrite route command clk d = Some d' -> sameTables d d'.
Proof. apply same_insEvidence. Qed.
#[local] Hint Resolve same_recordTargetWrite : receipts.
Lemma same_allocateSeats n run gen class segments mask : respects sameTables (allocateSeats n run gen class segments mask).
Proof. induction n as [|n IH]; simpl; followR. Qed.
Lemma same_insertSeats c segments fare amount currency mask ps : respects sameTables (insertSeats c segments fare amount currency mask ps).
Proof. induction ps as [|[p seat] ps IH]; simpl; unfold ex1; followR. Qed.
Lemma same_confirmTickets c held order seats : respects sameTables (confirmTickets c held order seats).
Proof. induction seats as [|seat seats IH]; simpl; unfold ex1; followR. Qed.
Lemma same_issueLoop route c order plan : respects sameTables (Store.issueLoop route c order plan).
Proof. induction plan as [|[seat [id code]] plan IH]; simpl; unfold Store.px, Store.appendOutbox; followR. Qed.
Lemma same_cancelledEvents route c order ts : respects sameTables (Store.cancelledEvents route c order ts).
Proof. induction ts as [|t ts IH]; simpl; unfold Store.appendOutbox, Store.px; followR. Qed.
Ltac programR := followR; auto using same_allocateSeats, same_insertSeats, same_confirmTickets, same_issueLoop, same_cancelledEvents.
Lemma same_confirmReservation clk c : respects sameTables (confirmReservation clk c).
Proof. unfold confirmReservation, appendLifecycleEvent, ex1. programR. Qed.
Lemma same_cancelReservation c : respects sameTables (cancelReservation c).
Proof. unfold cancelReservation, appendLifecycleEvent, ex1. programR. Qed.
Lemma same_expireOne clk now name : respects sameTables (expireOne clk now name).
Proof. unfold expireOne, releaseRouted. programR. Qed.
Lemma same_beginTx clk route c : respects sameTables (Store.beginTx clk route c).
Proof. unfold Store.beginTx, Store.beginWrites, Store.startedReceipt, Store.px. programR. Qed.
Lemma same_issueTx clk route c ids codes : respects sameTables (Store.issueTx clk route c ids codes).
Proof. unfold Store.issueTx, Store.issueWrites, Store.startedReceipt, Store.appendOutbox, Store.unavailable, Store.px. programR. Qed.
Lemma same_markTx clk route c : respects sameTables (Store.markTx clk route c).
Proof. unfold Store.markTx, Store.markWrites, Store.startedReceipt, Store.appendOutbox, Store.unavailable, Store.px. programR. Qed.
Lemma same_compTx clk route c : respects sameTables (Store.compTx clk route c).
Proof. unfold Store.compTx, Store.compWrites, Store.startedReceipt, Store.appendOutbox, Store.unavailable, Store.px. programR. Qed.
Lemma same_voidTx clk route c : respects sameTables (Store.voidTx clk route c).
Proof. unfold Store.voidTx, Store.voidWrites, Store.startedReceipt, Store.appendOutbox, Store.unavailable, Store.px. programR. Qed.

Lemma respects_receipts {E A} (m : SM E A) : respects sameTables m -> respects sameReceipts m.
Proof. intros Hm d a d' H%Hm. by apply sameTables_receipts. Qed.

(** ** The receipt of a command *)
Definition closedReceipt (c : Command) (s : BState) : BReceipt :=
  mkBReceipt (newSHA1 (cm_id c) "command-receipt") (cm_run c) (generation (cm_route c)) (cm_op c) (cm_fp c) s.
(** Closing it is the last thing a mutation does. *)
Definition succeeds (c : Command) (m : SM ExecErr Receipt) : Prop := forall d v d', m d = Ok (v, d') ->
  exists br, breceipts d !! cm_id c = Some br /\
    breceipts d' = <[cm_id c := mkBReceipt (bk_id br) (bk_run br) (bk_gen br) (bk_type br) (bk_fp br) (BSucceeded "reservation" (cm_reservation c))]> (breceipts d).
Lemma succeeds_end c v : succeeds c (succeedReceipt c ;; mret v).
Proof.
  intros d v' d' H. apply sbind_Ok in H as (u & d2 & H & [_ <-]%sret_Ok). unfold succeedReceipt, ex1 in H.
  apply one_Ok, closeBReceipt_Some in H as (br & Hbr & _ & ->). eauto.
Qed.
Lemma succeeds_bind {A} c (m : SM ExecErr A) (k : A -> SM ExecErr Receipt) : respects sameReceipts m -> (forall x, succeeds c (k x)) -> succeeds c (x ← m; k x).
Proof. intros Hm Hk d v d' (x & d1 & H1%Hm & H2)%sbind_Ok. apply Hk in H2. unfold sameReceipts in H1. by rewrite H1 in H2. Qed.
Lemma succeeds_raise c e : succeeds c (raise e).
Proof. intros d v d' []%raise_Ok. Qed.
Ltac succeed := repeat first [ apply succeeds_end | apply succeeds_raise | apply succeeds_bind; [first [apply respects_receipts, same_allocateSeats|apply respects_receipts, same_insertSeats|unfold ex1; followR; fail]|intros ?]
  | match goal with |- succeeds _ (match ?x with _ => _ end) => destruct x end ].
Lemma create_succeeds clk segments c : succeeds c (createMutation clk segments c).
Proof. unfold createMutation. succeed. Qed.
Lemma lifecycle_succeeds clk c : succeeds c (lifecycleMutation clk c).
Proof.
  unfold lifecycleMutation. apply succeeds_bind; [case_bool_decide; [apply respects_receipts, same_confirmReservation|apply respects_receipts, same_cancelReservation]|]. intros [r changed]. simpl. succeed.
Qed.

Lemma lifecycle_reservations clk c d v d' : lifecycleMutation clk c d = Ok (v, d') -> dom (resv d') = dom (resv d).
Proof.
  unfold lifecycleMutation, succeedReceipt, ex1. intros H. apply sbind_Ok in H as (rc & d1 & H1 & H).
  assert (Hd : sameTables d d1) by (case_bool_decide; [by eapply same_confirmReservation|by eapply same_cancelReservation]).
  apply sbind_Ok in H as (? & d2 & H2 & H). assert (Hd2 : sameTables d1 d2).
  { destruct (rc.2); [by apply one_Ok, same_recordTargetWrite in H2|by apply sret_Ok in H2 as [_ <-]]. }
  apply sbind_Ok in H as (? & d3 & (br & _ & _ & ->)%one_Ok%closeBReceipt_Some & [_ <-]%sret_Ok). destruct Hd, Hd2. simpl. congruence.
Qed.

(** A transaction of the executor that commits something new: the receipt of
    its command, closed with its outcome; a create command only before the
    hold expires, and with its reservation. *)
Record receiptWritten (now : Z) (c : Command) (d d' : Shard) (s : BState) : Prop := {
  rw_new : breceipts d !! cm_id c = None;
  rw_time : lifecycleOp (cm_op c) = false -> now < pl_expires (cm_payload c);
  rw_row : breceipts d' = <[cm_id c := closedReceipt c s]> (breceipts d);
  rw_state : s = BSucceeded "reservation" (cm_reservation c) \/ exists code, s = BRejected code;
  rw_reservation : lifecycleOp (cm_op c) = false -> s = BSucceeded "reservation" (cm_reservation c) ->
    exists row, resv d' = <[cm_reservation c := row]> (resv d) /\ rv_user row = cm_owner c /\ rv_run row = cm_run c /\ rv_gen row = generation (cm_route c) /\
      rv_expires row = pl_expires (cm_payload c);
  rw_others : lifecycleOp (cm_op c) = true \/ s <> BSucceeded "reservation" (cm_reservation c) -> dom (resv d') = dom (resv d) }.
(** Mutation and savepoint. *)
Lemma started_writes c m d o d' :
  succeeds c m -> (startReceipt c ;; withSavepoint c m) d = Ok (o, d') ->
  exists s d1, breceipts d !! cm_id c = None /\ breceipts d' = <[cm_id c := closedReceipt c s]> (breceipts d) /\ core d1 = core d /\
    ((s = BSucceeded "reservation" (cm_reservation c) /\ exists v, o = Ok v /\ m d1 = Ok (v, d')) \/
     exists e code, s = BRejected code /\ rejectionCode e = Some code /\ o = Err e /\ core d' = core d).
Proof.
  intros Hm H. apply sbind_Ok in H as (u & d1 & H1 & H). unfold startReceipt, ex1 in H1. apply one_Ok in H1. pose proof H1 as Hc. apply keep_insBReceipt in Hc.
  apply insBReceipt_Some in H1 as (Hnew & Hd1). unfold withSavepoint in H. destruct (m d1) as [[v d2]|e] eqn:Em.
  - injection H as <- <-. pose proof Em as Hs. apply Hm in Hs as (br & Hbr & Hrow). rewrite Hd1 in Hbr, Hrow. simpl in Hbr, Hrow. rewrite lookup_insert_eq in Hbr.
    injection Hbr as <-. rewrite insert_insert_eq in Hrow. simpl in Hrow. eexists _, d1. split_and!; [done|exact Hrow|done|]. left. eauto.
  - destruct (rejectionCode e) as [code|] eqn:Er; [|done]. destruct (closeBReceipt _ _ _) as [d2|] eqn:Ec; [|done]. injection H as <- <-.
    apply closeBReceipt_Some in Ec as (br & Hbr & _ & ->). rewrite Hd1 in *. simpl in *. rewrite lookup_insert_eq in Hbr. injection Hbr as <-.
    rewrite insert_insert_eq. exists (BRejected code). eexists. split_and!; [done|done|exact Hc|]. right. eauto 10.
Qed.
(** A receipt that says the command succeeded. *)
Definition succeededOn (c : Command) (d : Shard) : Prop :=
  exists br kind, breceipts d !! cm_id c = Some br /\ bk_fp br = cm_fp c /\ bk_state br = BSucceeded kind (cm_reservation c).
Lemma loadReceipt_succeeded c d r : loadReceipt c d = Ok (Some r) -> succeededOn c d.
Proof.
  unfold loadReceipt. destruct (breceipts d !! cm_id c) as [br|] eqn:Eb; [|done]. destruct (negb (_ =? _)%N) eqn:Ef; [done|].
  destruct (bk_state br) as [|kind id|code] eqn:Es; [done| |by destruct (rejectionFromCode code)]. case_bool_decide as Hid; [|done]. intros _.
  exists br, kind. bsplit. subst id. done.
Qed.
Lemma started_outcome c m d o d' :
  succeeds c m -> (startReceipt c ;; withSavepoint c m) d = Ok (o, d') ->
  match o with Ok _ => succeededOn c d' | Err e => is_Some (rejectionCode e) end.
Proof.
  intros Hm H. apply started_writes in H as (s & d1 & _ & Hrow & _ & Ho); [|done]. destruct Ho as [[-> (v & -> & _)]|(e & code & -> & Hc & -> & _)]; [|eauto].
  exists (closedReceipt c (BSucceeded "reservation" (cm_reservation c))), "reservation"%string. rewrite Hrow, lookup_insert_eq. done.
Qed.
Lemma executeTx_outcome maxTTL now clk c write d o d' :
  executeTx maxTTL now clk c write d = Ok (o, d') -> match o with Ok _ => succeededOn c d' | Err e => is_Some (rejectionCode e) end.
Proof.
  intros H. unfold executeTx in H. apply sbind_Ok in H as (found & ? & [Hl <-]%reads_Ok & H).
  destruct found; [apply sret_Ok in H as [<- <-]; by eapply loadReceipt_succeeded|]. destruct (lifecycleOp (cm_op c)).
  - unfold executeLifecycleTx in H. apply sbind_Ok in H as (? & ? & [_ <-]%guardS_Ok & H). apply sbind_Ok in H as (? & ? & [_ <-]%reads_Ok & H).
    apply sbind_Ok in H as (found & ? & [Hl2 <-]%reads_Ok & H). destruct found; [apply sret_Ok in H as [<- <-]; by eapply loadReceipt_succeeded|].
    by eapply started_outcome, H; apply lifecycle_succeeds.
  - unfold executeCreateTx in H. cbv zeta in H. apply sbind_Ok in H as (? & ? & [_ <-]%guardS_Ok & H). apply sbind_Ok in H as (? & ? & [_ <-]%guardS_Ok & H).
    apply sbind_Ok in H as (n & ? & [_ <-]%reads_Ok & H). apply sbind_Ok in H as (found & ? & [Hl2 <-]%reads_Ok & H).
    destruct found; [apply sret_Ok in H as [<- <-]; by eapply loadReceipt_succeeded|]. by eapply started_outcome, H; apply create_succeeds.
Qed.
Lemma executeTx_writes maxTTL now clk c write d o d' :
  ShInv d -> executeTx maxTTL now clk c write d = Ok (o, d') -> d' = d \/ exists s, receiptWritten now c d d' s.
Proof.
  intros Hi H. unfold executeTx in H. apply sbind_Ok in H as (found & ? & [_ <-]%reads_Ok & H). destruct found; [apply sret_Ok in H as [_ <-]; by left|].
  destruct (lifecycleOp (cm_op c)) eqn:Eop.
  - unfold executeLifecycleTx in H. apply sbind_Ok in H as (? & ? & [_ <-]%guardS_Ok & H). apply sbind_Ok in H as (? & ? & [_ <-]%reads_Ok & H).
    apply sbind_Ok in H as (found & ? & [_ <-]%reads_Ok & H). destruct found; [apply sret_Ok in H as [_ <-]; by left|]. right.
    apply started_writes in H as (s & d1 & Hnew & Hrow & Hc & Ho); [|apply lifecycle_succeeds]. exists s.
    split; try done; try congruence; [destruct Ho as [[-> _]|(e & code & -> & _)]; eauto|]. intros _.
    destruct Ho as [(_ & v & _ & Hm)|(e & code & _ & _ & _ & Hc')]; [|by injection Hc' as _ ->]. injection Hc as _ <- _ _ _. by eapply lifecycle_reservations.
  - unfold executeCreateTx in H. cbv zeta in H. apply sbind_Ok in H as (? & ? & [Ht <-]%guardS_Ok & H). apply sbind_Ok in H as (? & ? & [_ <-]%guardS_Ok & H).
    apply sbind_Ok in H as (n & ? & [_ <-]%reads_Ok & H). apply sbind_Ok in H as (found & ? & [_ <-]%reads_Ok & H).
    destruct found; [apply sret_Ok in H as [_ <-]; by left|]. right. apply orb_false_iff in Ht as [Ht _].
    apply started_writes in H as (s & d1 & Hnew & Hrow & Hc & Ho); [|apply create_succeeds]. exists s.
    split; try done; [lia|destruct Ho as [[-> _]|(e & code & -> & _)]; eauto| |].
    + intros _ ->. destruct Ho as [[_ (v & _ & Hm)]|(e & code & [=] & _)]. pose proof Hc as Hc1. injection Hc as _ Hrv _ _ _.
      apply createMutation_inv in Hm as (row & _ & _ & _ & Hrun & Hgen & Hu & Hx & _ & Hw); [|by apply (ShInv_core d)]. exists row. rewrite Hw, Hrv. done.
    + intros [Hl|Hn]; [congruence|]. destruct Ho as [[-> _]|(e & code & _ & _ & _ & Hc')]; [done|]. by injection Hc' as _ ->.
Qed.

(** ** The other calls *)

(** New receipts are those of cancelled runs. *)
Definition ofRun (k : uuid) : Prop := exists run gen, k = cancelRunCommand run gen.
Definition elsewhere (d d' : Shard) : Prop :=
  dom (resv d') = dom (resv d) /\ forall k br, breceipts d' !! k = Some br -> breceipts d !! k = Some br \/ ofRun k.
#[export] Instance elsewhere_preorder : PreOrder elsewhere.
Proof. split; [by split; [|by left]|]. intros d1 d2 d3 [D1 H1] [D2 H2]. split; [congruence|]. intros k br [H|H]%H2; [by apply H1|by right]. Qed.
Lemma respects_elsewhere {E A} (m : SM E A) : respects sameTables m -> respects elsewhere m.
Proof. intros Hm d a d' [Hb Hr]%Hm. split; [done|]. intros k br. rewrite Hb. by left. Qed.
Lemma cancelTrainRunTx_elsewhere clk run rz : respects elsewhere (cancelTrainRunTx clk run rz).
Proof.
  unfold cancelTrainRunTx. cbv zeta. apply respects_bind; [apply _|apply respects_shard; apply _|]. intros d0. destruct (breceipts d0 !! _) as [r|].
  { destruct (bk_state r); try apply respects_raise. destruct (_ || _); [apply respects_raise|apply respects_ret; apply _]. }
  apply respects_bind; [apply _|apply respects_guard; apply _|intros _]. destruct (fenceSnapshot _ _) as [[f s]|]; [|apply respects_raise].
  do 3 (apply respects_bind; [apply _|apply respects_guard; apply _|intros _]). intros d a d' H. unfold ex1 in H.
  apply sbind_Ok in H as (? & d1 & H1%one_Ok & H). apply sbind_Ok in H as (? & d2 & H2%one_Ok & H). apply sbind_Ok in H as (? & d3 & H3%one_Ok & H).
  apply sbind_Ok in H as (? & d4 & H4%one_Ok & H). apply sbind_Ok in H as (? & d5 & H5%one_Ok & H). apply sret_Ok in H as [_ <-].
  apply insBReceipt_Some in H1 as (_ & ->). apply same_cancelSnapshot in H2. apply same_insEvent in H3. apply same_insEvidence in H4.
  apply closeBReceipt_Some in H5 as (r & Hr & _ & ->). destruct H2 as [H2 R2], H3 as [H3 R3], H4 as [H4 R4]. split; [simpl in *; congruence|].
  rewrite H4, H3, H2 in Hr. simpl in *. rewrite lookup_insert_eq in Hr. injection Hr as <-.
  intros k br. simpl. rewrite H4, H3, H2, insert_insert_eq. destruct (decide (cancelRunCommand run (generation (rz_route rz)) = k)) as [<-|Hne].
  - intros _. right. by eexists _, _.
  - rewrite lookup_insert_ne by done. by left.
Qed.
Lemma other_calls_elsewhere e c : (forall maxTTL now cmd, c <> CallExecute maxTTL now cmd) -> callRespects elsewhere e c.
Proof.
  intros Hc. destruct c; simpl; intros; [by destruct (Hc maxTTL now c)|apply cancelTrainRunTx_elsewhere|..]; apply respects_elsewhere;
    auto using same_expireOne, same_beginTx, same_issueTx, same_markTx, same_compTx, same_voidTx.
Qed.

(** ** Execute on the fleet *)

(** Nothing, or the transaction of the command on the shard of its route. *)
Definition executed (now : Z) (c : Command) (o : res ExecErr Receipt) (fl fl' : Fleet) : Prop :=
  (fl' = fl \/ exists d d' s, fl !! shardID (cm_route c) = Some d /\ fl' = <[shardID (cm_route c) := d']> fl /\ receiptWritten now c d d' s) /\
  (is_ok o = true -> exists d, fl' !! shardID (cm_route c) = Some d /\ succeededOn c d).
Lemma executeOnce_executed maxTTL now clk c rz fl o fl' :
  FleetInv fl -> executeOnce maxTTL now clk c rz fl = (o, fl') -> executed now c o fl fl' /\ (o = Err (ExecRoute ErrAssignmentStale) -> fl' = fl).
Proof.
  intros Hf. unfold executeOnce. destruct (negb _) eqn:En; [intros [= <- <-]; split; [split; [by left|done]|done]|]. bsplit. rewrite En. unfold onShard.
  destruct (fl !! _) as [d|] eqn:Ed; [|intros [= <- <-]; split; [split; [by left|done]|done]].
  destruct (executeTx _ _ _ _ _ d) as [[r d']|e] eqn:E; intros [= <- <-]; [|split; [split; [by left|done]|done]].
  pose proof (executeTx_outcome _ _ _ _ _ _ _ _ E) as Ho. apply executeTx_writes in E; [|by apply (Hf _ _ Ed)]. split; [split|].
  - destruct E as [->|[s Hs]]; [left; by rewrite insert_id|]. right. exists d, d', s. done.
  - intros Hok. destruct r; [|done]. exists d'. rewrite lookup_insert_eq. done.
  - intros ->. by destruct Ho.
Qed.
Lemma refresh_executed router maxTTL now clk c fl o fl' :
  FleetInv fl -> refreshAndExecute router maxTTL now clk c fl = (o, fl') -> executed now c o fl fl'.
Proof.
  intros Hf. unfold refreshAndExecute. destruct (router _ true); [|intros [= <- <-]; split; [by left|done]].
  destruct (negb _); [intros [= <- <-]; split; [by left|done]|]. intros H. by apply executeOnce_executed in H as [? _].
Qed.
Lemma Execute_executed router maxTTL now clk c fl o fl' : FleetInv fl -> Execute router maxTTL now clk c fl = (o, fl') -> executed now c o fl fl'.
Proof.
  intros Hf. unfold Execute. destruct (negb _); [intros [= <- <-]; split; [by left|done]|]. destruct (router _ false) as [rz|]; [|intros [= <- <-]; split; [by left|done]].
  destruct (negb _); [by apply refresh_executed|]. destruct (executeOnce _ _ _ _ _ _) as [o1 fl1] eqn:E1. apply executeOnce_executed in E1 as [H1 Hs]; [|done].
  intros H. destruct o1 as [v|[| | | | | | |[]]]; try (by injection H as <- <-). rewrite Hs in H by done. by eapply refresh_executed.
Qed.
End Receipts.
