(* ===== verification/CommandDb.v ===== *)
(** * Booking command saga: the control database

    The tables of the control database that the booking command saga writes
    ([src/migrations/000009_physical_shard_control_plane.up.sql]:
    booking_commands, booking_quota_leases, reservation_directory,
    reservation_lifecycle_states; [000008_train_run_sharding.up.sql]: the shard
    locators; [000010_payment_control_plane.up.sql]: ticket_code_directory and
    its readiness), with the statements the saga runs on them.

    A statement that violates a constraint is [None]; the foreign keys of the
    locators are deferred to the commit in the code, whose failure is reported
    like that of the statement, so they are checked by the statement.  The
    foreign keys to users and train runs are not modelled.  A transaction reads
    clock_timestamp() once; updated_at is kept where a query orders by it. *)

From S2P Require Import Prelude Transaction BookingDomain Sharding PaymentDomain PaymentDb PaymentClaims BookingDb ShardDb ShardBooking.
Import ShardTypes.

(** ** Rows *)
Inductive LeaseState := LeasePending | LeaseActiveHold | LeaseReleased | LeaseExpired | LeaseRepairRequired.
#[export] Instance LeaseState_eq_dec : EqDecision LeaseState.
Proof. solve_decision. Defined.
Inductive DirState := DirPending | DirActive | DirFailed | DirMoving | DirTombstoned.
#[export] Instance DirState_eq_dec : EqDecision DirState.
Proof. solve_decision. Defined.

Record CmdRow := mkCmdRow {
  bc_op : string; bc_owner : uuid; bc_run : uuid; bc_reservation : uuid; bc_key : digest; bc_fp : digest; bc_shard : string; bc_gen : Z;
  bc_state : CommandState; bc_lease : option (string * Z); bc_result : option uuid; bc_error : option string; bc_finalized : option Z; bc_updated : Z }.
Record LeaseRow := mkLeaseRow {
  ql_id : uuid; ql_owner : uuid; ql_run : uuid; ql_count : Z; ql_state : LeaseState; ql_expires : Z; ql_released : option Z }.
Record DirRow := mkDirRow {
  dr_run : uuid; dr_owner : uuid; dr_command : option uuid; dr_state : DirState; dr_hint : option (string * Z); dr_error : option string;
  dr_active : option Z; dr_tombstoned : option Z }.
Record LifeRow := mkLifeRow { lf_owner : uuid; lf_status : string; lf_rank : Z; lf_command : uuid }.
(** booking_shards, as far as it is read. *)
Record CatShard := mkCatShard {
  ks_kind : string; ks_enabled : bool; ks_write : bool; ks_health : string; ks_state : string; ks_protocol : Z; ks_schema : Z; ks_fencing : Z }.

(** What other parts of the system write. *)
Record ControlEnv := mkControlEnv {
  users : gmap uuid bool; passengersOf : gmap uuid uuid; runAssignments : gmap uuid AssignmentRow; shardCatalog : gmap string CatShard;
  legacyClaims : gmap uuid QuotaRow }.
(** [commands], [leases] by command id; [dirs], [lifecycles], [rlocs] by
    reservation; [codesOf] by ticket code, [codesReady] its readiness. *)
Record ControlDb := mkControlDb {
  cenv : ControlEnv; commands : gmap uuid CmdRow; leases : gmap uuid LeaseRow; dirs : gmap uuid DirRow; lifecycles : gmap uuid LifeRow;
  rlocs : gmap uuid LocatorRow; olocs : gmap uuid OrderLocatorRow; tlocs : gmap uuid TicketLocatorRow; codesOf : gmap string uuid;
  codesReady : bool; finals : gmap uuid uuid }.
Definition set_cenv d v := mkControlDb v (commands d) (leases d) (dirs d) (lifecycles d) (rlocs d) (olocs d) (tlocs d) (codesOf d) (codesReady d) (finals d).
Definition set_commands d v := mkControlDb (cenv d) v (leases d) (dirs d) (lifecycles d) (rlocs d) (olocs d) (tlocs d) (codesOf d) (codesReady d) (finals d).
Definition set_leases d v := mkControlDb (cenv d) (commands d) v (dirs d) (lifecycles d) (rlocs d) (olocs d) (tlocs d) (codesOf d) (codesReady d) (finals d).
Definition set_dirs d v := mkControlDb (cenv d) (commands d) (leases d) v (lifecycles d) (rlocs d) (olocs d) (tlocs d) (codesOf d) (codesReady d) (finals d).
Definition set_lifecycles d v := mkControlDb (cenv d) (commands d) (leases d) (dirs d) v (rlocs d) (olocs d) (tlocs d) (codesOf d) (codesReady d) (finals d).
Definition set_rlocs d v := mkControlDb (cenv d) (commands d) (leases d) (dirs d) (lifecycles d) v (olocs d) (tlocs d) (codesOf d) (codesReady d) (finals d).
Definition set_olocs d v := mkControlDb (cenv d) (commands d) (leases d) (dirs d) (lifecycles d) (rlocs d) v (tlocs d) (codesOf d) (codesReady d) (finals d).
Definition set_tlocs d v := mkControlDb (cenv d) (commands d) (leases d) (dirs d) (lifecycles d) (rlocs d) (olocs d) v (codesOf d) (codesReady d) (finals d).
Definition set_codes d v r := mkControlDb (cenv d) (commands d) (leases d) (dirs d) (lifecycles d) (rlocs d) (olocs d) (tlocs d) v r (finals d).
Definition set_finals d v := mkControlDb (cenv d) (commands d) (leases d) (dirs d) (lifecycles d) (rlocs d) (olocs d) (tlocs d) (codesOf d) (codesReady d) v.

Abbreviation CM E A := (Txn ControlDb E A).

(** ** Statements *)
Definition insCommand (k : uuid) (r : CmdRow) (d : ControlDb) : option ControlDb :=
  if bool_decide (is_Some (commands d !! k)) ||
     existsRow (commands d) (fun _ r' => bool_decide (bc_owner r' = bc_owner r) && bool_decide (bc_op r' = bc_op r) && (bc_key r' =? bc_key r)%N) ||
     negb (bool_decide (bc_op r ∈ [OperationCreateReservation; OperationConfirmReservation; OperationCancelReservation])) || (bc_gen r <=? 0) ||
     negb (bool_decide (is_Some (shardCatalog (cenv d) !! bc_shard r)))
  then None else Some (set_commands d (<[k := r]> (commands d))).
(** expires_at > created_at, the instant of the insertion. *)
Definition insLease (k : uuid) (r : LeaseRow) (clk : Z) (d : ControlDb) : option ControlDb :=
  if bool_decide (is_Some (leases d !! k)) || existsRow (leases d) (fun _ r' => bool_decide (ql_id r' = ql_id r)) ||
     (ql_count r <=? 0) || (ql_expires r <=? clk)
  then None else Some (set_leases d (<[k := r]> (leases d))).
Definition insDirectory (k : uuid) (r : DirRow) (d : ControlDb) : option ControlDb :=
  if bool_decide (is_Some (dirs d !! k)) || existsRow (dirs d) (fun _ r' => bool_decide (dr_command r' = dr_command r))
  then None else Some (set_dirs d (<[k := r]> (dirs d))).

(** UPDATE booking_commands ... WHERE command_id: finalized, or a terminal
    failure. *)
Definition finalizedRow (resource : uuid) (clk : Z) (r : CmdRow) : CmdRow :=
  mkCmdRow (bc_op r) (bc_owner r) (bc_run r) (bc_reservation r) (bc_key r) (bc_fp r) (bc_shard r) (bc_gen r) StateFinalized None (Some resource) None
    (Some (default clk (bc_finalized r))) clk.
Definition terminalRow (s : CommandState) (category : string) (clk : Z) (r : CmdRow) : CmdRow :=
  mkCmdRow (bc_op r) (bc_owner r) (bc_run r) (bc_reservation r) (bc_key r) (bc_fp r) (bc_shard r) (bc_gen r) s None None (Some category) None clk.
Definition leasedRow (worker : string) (until clk : Z) (r : CmdRow) : CmdRow :=
  mkCmdRow (bc_op r) (bc_owner r) (bc_run r) (bc_reservation r) (bc_key r) (bc_fp r) (bc_shard r) (bc_gen r) (bc_state r) (Some (worker, until))
    (bc_result r) (bc_error r) (bc_finalized r) clk.
Definition updCommand (k : uuid) (f : CmdRow -> CmdRow) (d : ControlDb) : option ControlDb :=
  match commands d !! k with Some r => Some (set_commands d (<[k := f r]> (commands d))) | None => None end.

(** UPDATE booking_quota_leases: where the state allows it. *)
Definition leaseTo (s : LeaseState) (released : option Z) (r : LeaseRow) : LeaseRow :=
  mkLeaseRow (ql_id r) (ql_owner r) (ql_run r) (ql_count r) s (ql_expires r) released.
Definition updLease (k : uuid) (from : list LeaseState) (f : LeaseRow -> LeaseRow) (d : ControlDb) : option ControlDb :=
  match leases d !! k with
  | Some r => if bool_decide (ql_state r ∈ from) then Some (set_leases d (<[k := f r]> (leases d))) else None
  | None => None
  end.
(** A statement whose row count is ignored: none affected is fine. *)
Definition ifAny (s : ControlDb -> option ControlDb) (d : ControlDb) : ControlDb := default d (s d).

(** UPDATE reservation_directory ... WHERE reservation_id AND command_id AND
    state IN (...). *)
Definition updDirectory (k command : uuid) (from : list DirState) (f : DirRow -> DirRow) (d : ControlDb) : option ControlDb :=
  match dirs d !! k with
  | Some r => if bool_decide (dr_command r = Some command) && bool_decide (dr_state r ∈ from) then Some (set_dirs d (<[k := f r]> (dirs d))) else None
  | None => None
  end.
Definition dirActive (shard : string) (gen clk : Z) (r : DirRow) : DirRow :=
  mkDirRow (dr_run r) (dr_owner r) (dr_command r) DirActive (Some (shard, gen)) None (Some (default clk (dr_active r))) (dr_tombstoned r).
Definition dirFailed (category : string) (r : DirRow) : DirRow :=
  mkDirRow (dr_run r) (dr_owner r) (dr_command r) DirFailed (dr_hint r) (Some category) None None.

(** The assignment a locator refers to. *)
Definition assignedTo (route : ShardRoute) (d : ControlDb) : bool :=
  match runAssignments (cenv d) !! trainRunID route with
  | Some a => bool_decide (a_shard a = shardID route) && (a_generation a =? generation route)
  | None => false
  end.
(** INSERT ... ON CONFLICT DO UPDATE ... WHERE the row agrees: one row, or none
    when it does not. *)
Definition putReservationLocator (k : uuid) (r : LocatorRow) (d : ControlDb) : option ControlDb :=
  match rlocs d !! k with
  | Some r' => if bool_decide (l_route r' = l_route r) && bool_decide (l_owner r' = l_owner r) then Some d else None
  | None => if assignedTo (l_route r) d then Some (set_rlocs d (<[k := r]> (rlocs d))) else None
  end.
Definition putOrderLocator (k : uuid) (r : OrderLocatorRow) (d : ControlDb) : option ControlDb :=
  if negb (bool_decide (ol_status r ∈ ["confirmed"; "cancelled"])) || (ol_total r <? 0) || negb (MoneyModel.validCurrency (ol_currency r)) then None else
  match olocs d !! k with
  | Some r' =>
      if bool_decide (ol_reservation r' = ol_reservation r) && bool_decide (ol_owner r' = ol_owner r) && bool_decide (ol_route r' = ol_route r)
      then Some (set_olocs d (<[k := r]> (olocs d))) else None
  | None =>
      if existsRow (olocs d) (fun _ r' => bool_decide (ol_reservation r' = ol_reservation r)) || negb (assignedTo (ol_route r) d) ||
         negb (bool_decide (is_Some (rlocs d !! ol_reservation r)))
      then None else Some (set_olocs d (<[k := r]> (olocs d)))
  end.
Definition orderStatus (reservation owner : uuid) (status : string) (d : ControlDb) : ControlDb :=
  set_olocs d ((fun r => if bool_decide (ol_reservation r = reservation) && bool_decide (ol_owner r = owner)
    then mkOrderLocatorRow (ol_reservation r) (ol_route r) (ol_owner r) status (ol_total r) (ol_currency r) (ol_created r) else r) <$> olocs d).
(** The trigger on inserted ticket locators withdraws the readiness when the
    ticket has no code yet. *)
Definition codeClaimed (t : uuid) (d : ControlDb) : bool := existsRow (codesOf d) (fun _ t' => bool_decide (t' = t)).
Definition putTicketLocator (k : uuid) (r : TicketLocatorRow) (d : ControlDb) : option ControlDb :=
  match tlocs d !! k with
  | Some r' =>
      if bool_decide (tl_order r' = tl_order r) && bool_decide (tl_reservation r' = tl_reservation r) && bool_decide (tl_owner r' = tl_owner r) &&
         bool_decide (tl_route r' = tl_route r) then Some d else None
  | None =>
      if negb (bool_decide (is_Some (olocs d !! tl_order r))) || negb (bool_decide (is_Some (rlocs d !! tl_reservation r))) || negb (assignedTo (tl_route r) d)
      then None
      else let d' := set_tlocs d (<[k := r]> (tlocs d)) in Some (set_codes d' (codesOf d') (codesReady d' && codeClaimed k d'))
  end.
Definition putTicketCode (code : string) (t : uuid) (d : ControlDb) : option ControlDb :=
  if (String.length code <? 16)%nat || (64 <? String.length code)%nat then None else
  match codesOf d !! code with
  | Some t' => if bool_decide (t' = t) then Some d else None
  | None => if codeClaimed t d then None else Some (set_codes d (<[code := t]> (codesOf d)) (codesReady d))
  end.

(** The lifecycle projection: the row of the higher rank stays; the status it
    has afterwards. *)
Definition advanceLifecycle (k owner command : uuid) (status : string) (rank : Z) (d : ControlDb) : option (string * ControlDb) :=
  match lifecycles d !! k with
  | None => if bool_decide (is_Some (dirs d !! k)) then Some (status, set_lifecycles d (<[k := mkLifeRow owner status rank command]> (lifecycles d))) else None
  | Some r =>
      if negb (bool_decide (lf_owner r = owner)) then None else
      if lf_rank r <=? rank then Some (status, set_lifecycles d (<[k := mkLifeRow owner status rank command]> (lifecycles d)))
      else Some (lf_status r, d)
  end.

(** outbox_events: INSERT ... ON CONFLICT (id) DO NOTHING of the event that
    names the command. *)
Definition NameSpaceOID : uuid := 0x6ba7b8129dad11d180b400c04fd430c8%N.
Section Events.
Context {hashing : Hashing}.
Definition finalizedEventID (command : uuid) : uuid := newSHA1 NameSpaceOID ("booking-command.finalized:" +:+ uuidString command).
Definition insFinalEvent (command : uuid) (d : ControlDb) : ControlDb :=
  match finals d !! finalizedEventID command with Some _ => d | None => set_finals d (<[finalizedEventID command := command]> (finals d)) end.
End Events.
