(* ===== verification/CommandControl.v ===== *)
(** * Booking command saga: repository and coordinator

    Models [src/internal/booking/command/postgres] (reserve.go, lifecycle.go,
    finalize.go) and the coordinator of
    [src/internal/booking/command/coordinator.go].

    A command is reserved in the control database (identity, quota lease,
    pending directory entry), executed on the shard of its route, and finalized
    in the control database.  The transactions take the API clock [now] and the
    database clock [clk]; the identifiers uuid.New() returns are arguments.
    The counts of the quota query fit an integer. *)

From S2P Require Import Prelude Transaction Sharding PaymentDomain PaymentDb PaymentClaims BookingDb ShardDb ShardBooking CommandDb.
Import ShardTypes.

Inductive RepoErr := ErrIdempotencyConflict | ErrQuotaExceeded | ErrPassengerOwnership | RepoInvalidPayload | ErrRouteUnavailable | ErrControlWrite.
#[export] Instance RepoErr_eq_dec : EqDecision RepoErr.
Proof. solve_decision. Defined.

Record ReserveRequest := mkReserveRequest {
  rr_owner : uuid; rr_run : uuid; rr_op : string; rr_key : digest; rr_fp : digest; rr_count : Z; rr_payload : CreateReservationPayload }.
Record LifecycleRequest := mkLifecycleRequest { lr_owner : uuid; lr_reservation : uuid; lr_op : string; lr_key : digest; lr_fp : digest }.
Record Options := mkOptions { op_ttl : Z; op_holds : Z; op_runHolds : Z; op_passengers : Z }.
Definition SupportedFencingProtocolVersion : Z := 1.
Definition SupportedSchemaVersion : Z := 2.

(** The passengers in byte order. *)
Definition CloneCreateReservationPayload (p : CreateReservationPayload) : CreateReservationPayload :=
  mkPayload (pl_from p) (pl_to p) (pl_class p) (sortBy N.leb (pl_passengers p)) (pl_expires p) (pl_version p).

(** ** Routes *)
Definition routeOf (run : uuid) (shard : string) (gen : Z) : res RepoErr ShardRoute :=
  match ParseShardID shard with
  | Err _ => Err ErrRouteUnavailable
  | Ok id =>
      match NewAssignmentGeneration gen with
      | Err _ => Err ErrRouteUnavailable
      | Ok g => match NewShardRoute run id g with Ok r => Ok r | Err _ => Err ErrRouteUnavailable end
      end
  end.
Definition physicalID (shard : string) : bool := bool_decide (shard = ShardPhysicalZero) || bool_decide (shard = ShardPhysicalOne).
(** What both queries ask of booking_shards. *)
Definition servesWrites (k : CatShard) : bool :=
  ks_enabled k && ks_write k && bool_decide (ks_health k = "healthy"%string) && bool_decide (ks_state k = "active"%string) &&
  (ks_protocol k =? 1) && (ks_schema k =? SupportedSchemaVersion) && (ks_fencing k <=? SupportedFencingProtocolVersion).
Definition loadPhysicalRoute (run : uuid) (d : ControlDb) : res RepoErr ShardRoute :=
  match runAssignments (cenv d) !! run with
  | None => Err ErrRouteUnavailable
  | Some a =>
      match shardCatalog (cenv d) !! a_shard a with
      | None => Err ErrRouteUnavailable
      | Some k =>
          if bool_decide (a_state a ∈ ["stable"; "migrating"; "rollback_window"]) && bool_decide (ks_kind k = "postgres"%string) && servesWrites k && physicalID (a_shard a)
          then routeOf run (a_shard a) (a_generation a) else Err ErrRouteUnavailable
      end
  end.

(** ** Reserve *)
Definition byKey (owner : uuid) (op : string) (key : digest) (d : ControlDb) : option (uuid * CmdRow) :=
  head (filter (fun kr => bc_owner kr.2 = owner /\ bc_op kr.2 = op /\ bc_key kr.2 = key) (map_to_list (commands d))).
Definition loadExistingCommand (q : ReserveRequest) (d : ControlDb) : res RepoErr (option Command) :=
  match byKey (rr_owner q) (rr_op q) (rr_key q) d with
  | None => Ok None
  | Some (k, r) =>
      match leases d !! k with
      | None => Ok None
      | Some l =>
          if negb (bool_decide (bc_run r = rr_run q)) || negb (ql_count l =? rr_count q) || negb (bc_fp r =? rr_fp q)%N then Err ErrIdempotencyConflict else
          let* route := routeOf (bc_run r) (bc_shard r) (bc_gen r) in
          let p := CloneCreateReservationPayload (rr_payload q) in
          Ok (Some (mkCommand k (bc_op r) (bc_owner r) (bc_run r) (bc_reservation r) route (bc_fp r) (bc_state r)
                      (mkPayload (pl_from p) (pl_to p) (pl_class p) (pl_passengers p) (ql_expires l) (pl_version p))))
      end
  end.
(** The rows of passengers that belong to the user and are requested. *)
Definition lockOwnedPassengers (q : ReserveRequest) (d : ControlDb) : res RepoErr unit :=
  if negb (Z.of_nat (length (pl_passengers (rr_payload q))) =? rr_count q) || (rr_count q <? 1) then Err ErrPassengerOwnership else
  let owned := length (filter (fun kv => kv.2 = rr_owner q /\ kv.1 ∈ pl_passengers (rr_payload q)) (map_to_list (passengersOf (cenv d)))) in
  if negb (Z.of_nat owned =? rr_count q) then Err ErrPassengerOwnership else Ok tt.

(** The quota query: active legacy claims, and leases that count and have no
    active legacy claim of the same reservation. *)
Definition countedLease (s : LeaseState) : bool := bool_decide (s ∈ [LeasePending; LeaseActiveHold; LeaseRepairRequired]).
Definition activeLegacy (user : uuid) (d : ControlDb) : list (uuid * Z) :=
  map (fun kr => (q_run kr.2, q_count kr.2)) (filter (fun kr => q_user kr.2 = user /\ q_active kr.2 = true) (map_to_list (legacyClaims (cenv d)))).
Definition legacyFor (user reservation : uuid) (d : ControlDb) : bool :=
  match legacyClaims (cenv d) !! reservation with Some q => bool_decide (q_user q = user) && q_active q | None => false end.
Definition activePhysical (user : uuid) (d : ControlDb) : list (uuid * Z) :=
  omap (fun kl => match commands d !! kl.1 with
                  | Some c => if bool_decide (ql_owner kl.2 = user) && countedLease (ql_state kl.2) && negb (legacyFor user (bc_reservation c) d)
                              then Some (ql_run kl.2, ql_count kl.2) else None
                  | None => None
                  end) (map_to_list (leases d)).
Definition countedHolds (user : uuid) (d : ControlDb) : list (uuid * Z) := activeLegacy user d ++ activePhysical user d.
Definition sumCounts (l : list (uuid * Z)) : Z := foldr (fun rc n => rc.2 + n) 0 l.
Definition overQuota (o : Options) (q : ReserveRequest) (d : ControlDb) : bool :=
  let l := countedHolds (rr_owner q) d in
  (op_holds o <? Z.of_nat (length l) + 1) || (op_runHolds o <? Z.of_nat (length (filter (fun rc => rc.1 = rr_run q) l)) + 1) ||
  (op_passengers o <? sumCounts l + rr_count q).

(** The identifiers of a new command. *)
Record NewIDs := mkNewIDs { id_command : uuid; id_reservation : uuid; id_lease : uuid }.
Definition cx (s : ControlDb -> option ControlDb) : CM RepoErr unit := one ErrControlWrite s.
Definition newCommand (ids : NewIDs) (q : ReserveRequest) (route : ShardRoute) : Command :=
  mkCommand (id_command ids) (rr_op q) (rr_owner q) (rr_run q) (id_reservation ids) route (rr_fp q) StateReserved
    (CloneCreateReservationPayload (rr_payload q)).
Definition reservedRow (c : Command) (key : digest) (clk : Z) : CmdRow :=
  mkCmdRow (cm_op c) (cm_owner c) (cm_run c) (cm_reservation c) key (cm_fp c) (shardID (cm_route c)) (generation (cm_route c)) StateReserved
    None None None None clk.
Definition reserveWrites (ids : NewIDs) (clk : Z) (q : ReserveRequest) (c : Command) : CM RepoErr unit :=
  cx (insCommand (cm_id c) (reservedRow c (rr_key q) clk)) ;;
  cx (insLease (cm_id c) (mkLeaseRow (id_lease ids) (cm_owner c) (cm_run c) (rr_count q) LeasePending (pl_expires (rr_payload q)) None) clk) ;;
  cx (insDirectory (cm_reservation c) (mkDirRow (cm_run c) (cm_owner c) (Some (cm_id c)) DirPending
        (Some (shardID (cm_route c), generation (cm_route c))) None None None)).
Definition Reserve (o : Options) (ids : NewIDs) (now clk : Z) (q : ReserveRequest) : CM RepoErr Command :=
  d ← shard;
  guardS (negb (default false (users (cenv d) !! rr_owner q))) ErrControlWrite ;;
  found ← reads (loadExistingCommand q);
  match found with
  | Some c => mret c
  | None =>
      let ttl := pl_expires (rr_payload q) - now in
      guardS ((ttl <=? 0) || (op_ttl o <? ttl)) RepoInvalidPayload ;;
      reads (lockOwnedPassengers q) ;;
      route ← reads (loadPhysicalRoute (rr_run q));
      guardS (overQuota o q d) ErrQuotaExceeded ;;
      let c := newCommand ids q route in
      reserveWrites ids clk q c ;;
      mret c
  end.

(** ** ReserveLifecycle *)
Definition noPayload : CreateReservationPayload := mkPayload 0 0 "" [] 0 0.
Definition loadExistingLifecycleCommand (q : LifecycleRequest) (d : ControlDb) : res RepoErr (option Command) :=
  match byKey (lr_owner q) (lr_op q) (lr_key q) d with
  | None => Ok None
  | Some (k, r) =>
      if negb (bool_decide (bc_reservation r = lr_reservation q)) || negb (bc_fp r =? lr_fp q)%N then Err ErrIdempotencyConflict else
      let* route := routeOf (bc_run r) (bc_shard r) (bc_gen r) in
      Ok (Some (mkCommand k (bc_op r) (bc_owner r) (bc_run r) (bc_reservation r) route (bc_fp r) (bc_state r) noPayload))
  end.
Definition directoryRoute (q : LifecycleRequest) (d : ControlDb) : res RepoErr ShardRoute :=
  match dirs d !! lr_reservation q with
  | Some r =>
      match dr_hint r with
      | Some (s, g) =>
          match shardCatalog (cenv d) !! s with
          | Some k =>
              if bool_decide (dr_owner r = lr_owner q) && servesWrites k && bool_decide (dr_state r = DirActive) && bool_decide (ks_kind k = "postgres"%string) &&
                 physicalID s then routeOf (dr_run r) s g else Err ErrRouteUnavailable
          | None => Err ErrRouteUnavailable
          end
      | None => Err ErrRouteUnavailable
      end
  | None => Err ErrRouteUnavailable
  end.
Definition ReserveLifecycle (command : uuid) (clk : Z) (q : LifecycleRequest) : CM RepoErr Command :=
  found ← reads (loadExistingLifecycleCommand q);
  match found with
  | Some c => mret c
  | None =>
      route ← reads (directoryRoute q);
      let c := mkCommand command (lr_op q) (lr_owner q) (trainRunID route) (lr_reservation q) route (lr_fp q) StateReserved noPayload in
      cx (insCommand command (reservedRow c (lr_key q) clk)) ;;
      mret c
  end.

(** ** Finalize *)
Section Finalize.
Context {hashing : Hashing}.

Definition receiptFor (c : Command) (r : Receipt) : bool :=
  bool_decide (cr_status r = ReceiptCommitted) && bool_decide (cr_command r = cm_id c) && bool_decide (cr_resource r = cm_reservation c) && (cr_fp r =? cm_fp c)%N.
Definition terminalState (s : CommandState) : bool := bool_decide (s = StateFailed) || bool_decide (s = StateExpired).
Definition lockFinalizable (e : RepoErr) (c : Command) (r : Receipt) (d : ControlDb) : res RepoErr unit :=
  match commands d !! cm_id c with
  | None => Err ErrControlWrite
  | Some row =>
      if negb (bc_fp row =? cr_fp r)%N || negb (bool_decide (bc_reservation row = cr_resource r)) || terminalState (bc_state row) then Err e else Ok tt
  end.
Definition locatorOf (c : Command) : LocatorRow := mkLocatorRow (cm_route c) (cm_owner c).
Definition finalizeCreate (clk : Z) (c : Command) (r : Receipt) : CM RepoErr unit :=
  reads (lockFinalizable ErrIdempotencyConflict c r) ;;
  cx (updCommand (cm_id c) (finalizedRow (cr_resource r) clk)) ;;
  modify (ifAny (updDirectory (cr_resource r) (cm_id c) [DirPending; DirActive] (dirActive (shardID (cm_route c)) (generation (cm_route c)) clk))) ;;
  cx (putReservationLocator (cm_reservation c) (locatorOf c)) ;;
  modify (ifAny (updLease (cm_id c) [LeasePending; LeaseActiveHold; LeaseRepairRequired] (fun l => leaseTo LeaseActiveHold (ql_released l) l))) ;;
  modify (insFinalEvent (cm_id c)).

Definition advanceReservationLifecycle (e : RepoErr) (c : Command) : CM RepoErr string :=
  let cancelled := bool_decide (cm_op c = OperationCancelReservation) in
  d ← shard;
  match advanceLifecycle (cm_reservation c) (cm_owner c) (cm_id c) (if cancelled then "cancelled" else "confirmed") (if cancelled then 2 else 1) d with
  | Some (status, d') =>
      if bool_decide (status ∈ ["confirmed"; "cancelled"]) then modify (fun _ => d') ;; mret status else raise e
  | None => raise e
  end.
(** Every ticket with an id, none twice, and its code. *)
Fixpoint distinctTickets (l : list (uuid * string)) (ids : list uuid) (codes : list string) : bool :=
  match l with
  | [] => true
  | (t, k) :: l' =>
      negb (bool_decide (t = uuidNil)) && (16 <=? String.length k)%nat && (String.length k <=? 64)%nat && negb (bool_decide (t ∈ ids)) &&
      negb (bool_decide (k ∈ codes)) && distinctTickets l' (t :: ids) (k :: codes)
  end.
Definition validConfirmationReceipt (r : Receipt) : bool :=
  negb (bool_decide (cr_order r = uuidNil)) && (1 <=? cr_count r) && (cr_count r <=? Z.of_nat MaxReceiptTickets) &&
  (Z.of_nat (length (cr_tickets r)) =? cr_count r) && (Z.of_nat (length (cr_codes r)) =? cr_count r) &&
  distinctTickets (zip (cr_tickets r) (cr_codes r)) [] [].
Definition ticketLocator (c : Command) (r : Receipt) : TicketLocatorRow :=
  mkTicketLocatorRow (cr_order r) (cm_reservation c) (cm_route c) (cm_owner c).
(** ticket_code_directory is there since migration 10. *)
Fixpoint insertTicketLocators (c : Command) (r : Receipt) (l : list (uuid * string)) : CM RepoErr unit :=
  match l with
  | [] => mret tt
  | (t, k) :: l' =>
      cx (putTicketLocator t (ticketLocator c r)) ;;
      cx (putTicketCode k t) ;;
      insertTicketLocators c r l'
  end.
Definition orderLocator (c : Command) (r : Receipt) (status : string) : OrderLocatorRow :=
  mkOrderLocatorRow (cm_reservation c) (cm_route c) (cm_owner c) status (cr_total r) (cr_currency r) (cr_created r).
(** The quota lease of the create command of the reservation. *)
Definition releaseQuota (reservation : uuid) (clk : Z) (d : ControlDb) : ControlDb :=
  match dirs d !! reservation with
  | Some r =>
      match dr_command r with
      | Some k => ifAny (updLease k [LeasePending; LeaseActiveHold; LeaseRepairRequired; LeaseReleased] (fun l => leaseTo LeaseReleased (Some (default clk (ql_released l))) l)) d
      | None => d
      end
  | None => d
  end.
Definition finalizeLifecycle (clk : Z) (c : Command) (r : Receipt) : CM RepoErr unit :=
  reads (lockFinalizable ErrControlWrite c r) ;;
  cx (updCommand (cm_id c) (finalizedRow (cr_resource r) clk)) ;;
  status ← advanceReservationLifecycle ErrControlWrite c;
  (if bool_decide (cm_op c = OperationConfirmReservation) then
     guardS (negb (validConfirmationReceipt r) || (cr_total r <? 0) || negb (String.length (cr_currency r) =? 3)%nat || (cr_created r =? 0)) ErrControlWrite ;;
     cx (putOrderLocator (cr_order r) (orderLocator c r status)) ;;
     insertTicketLocators c r (zip (cr_tickets r) (cr_codes r))
   else if bool_decide (cm_op c = OperationCancelReservation) then modify (orderStatus (cm_reservation c) (cm_owner c) status) else mret tt) ;;
  modify (releaseQuota (cm_reservation c) clk) ;;
  modify (insFinalEvent (cm_id c)).
Definition Finalize (clk : Z) (c : Command) (r : Receipt) : CM RepoErr unit :=
  if negb (receiptFor c r) then raise ErrControlWrite else
  if bool_decide (cm_op c = OperationConfirmReservation) || bool_decide (cm_op c = OperationCancelReservation) then finalizeLifecycle clk c r
  else finalizeCreate clk c r.
End Finalize.

(** ** The coordinator *)
Inductive SagaErr :=
| ErrInvalidCommand | ErrControlUnavailable (e : RepoErr) | ErrShardExecution (e : option ExecErr) | SagaReceiptMismatch | ErrFinalizationDeferred (e : RepoErr).
Record Result := mkResult { rs_command : uuid; rs_reservation : uuid; rs_order : uuid; rs_tickets : Z; rs_released : Z; rs_replayed : bool }.

Definition validCreateReservationPayload (p : CreateReservationPayload) (n : Z) : bool :=
  (0 <=? pl_from p) && (pl_from p <? pl_to p) && seatClass (pl_class p) && (Z.of_nat (length (pl_passengers p)) =? n) && negb (pl_expires p =? 0) &&
  (0 <? pl_version p) && distinctPassengers (pl_passengers p) [].
Definition validReserveRequest (q : ReserveRequest) : bool :=
  negb (bool_decide (rr_owner q = uuidNil)) && negb (bool_decide (rr_run q = uuidNil)) && bool_decide (rr_op q = OperationCreateReservation) &&
  negb (rr_key q =? 0)%N && negb (rr_fp q =? 0)%N && (0 <? rr_count q) && (rr_count q <=? 6) && validCreateReservationPayload (rr_payload q) (rr_count q).
(** Everything but the expiry, which the API clock assigns. *)
Definition equalCreateReservationPayload (a b : CreateReservationPayload) : bool :=
  let a := CloneCreateReservationPayload a in
  let b := CloneCreateReservationPayload b in
  (pl_from a =? pl_from b) && (pl_to a =? pl_to b) && bool_decide (pl_class a = pl_class b) && (pl_version a =? pl_version b) &&
  bool_decide (pl_passengers a = pl_passengers b).
Definition liveState (s : CommandState) : bool :=
  bool_decide (s ∈ [StateReserved; StateExecuting; StateCommittedOnShard; StateFinalized; StateNeedsRepair]).
Definition validCommandForRequest (c : Command) (q : ReserveRequest) : bool :=
  negb (bool_decide (cm_id c = uuidNil)) && negb (bool_decide (cm_reservation c = uuidNil)) && bool_decide (cm_owner c = rr_owner q) &&
  bool_decide (cm_run c = rr_run q) && bool_decide (cm_op c = rr_op q) && (cm_fp c =? rr_fp q)%N && bool_decide (trainRunID (cm_route c) = rr_run q) &&
  equalCreateReservationPayload (cm_payload c) (rr_payload q) && liveState (cm_state c).
Definition validLifecycleRequest (q : LifecycleRequest) : bool :=
  negb (bool_decide (lr_owner q = uuidNil)) && negb (bool_decide (lr_reservation q = uuidNil)) && lifecycleOp (lr_op q) &&
  negb (lr_key q =? 0)%N && negb (lr_fp q =? 0)%N.
Definition validLifecycleCommand (c : Command) (q : LifecycleRequest) : bool :=
  negb (bool_decide (cm_id c = uuidNil)) && bool_decide (cm_owner c = lr_owner q) && bool_decide (cm_reservation c = lr_reservation q) &&
  negb (bool_decide (cm_run c = uuidNil)) && bool_decide (cm_op c = lr_op q) && (cm_fp c =? lr_fp q)%N && bool_decide (trainRunID (cm_route c) = cm_run c) &&
  (0 <? generation (cm_route c)) && liveState (cm_state c).

(** A transaction of the control database, committed or rolled back. *)
Definition commit {E A} (m : CM E A) (d : ControlDb) : res E A * ControlDb :=
  match m d with Ok (a, d') => (Ok a, d') | Err e => (Err e, d) end.

(** What the parts outside answer during a call: the identifiers, the clocks of
    the three transactions, of the API and of the executor, the router and the
    executor's limit. *)
Record SagaEnv := mkSagaEnv { sg_ids : NewIDs; sg_router : Resolver; sg_ttl : Z; sg_now : Z; sg_exec : Z; sg_reserve : Z; sg_shard : Z; sg_finalize : Z }.
Abbreviation SagaWorld := (ControlDb * Fleet)%type.

Section Coordinator.
Context {hashing : Hashing} (o : Options).

(** The shard receipt of a command, and what is left of the saga. *)
Definition onShardReceipt (e : SagaEnv) (c : Command) (finalize : bool) (d : ControlDb) (fl : Fleet) : res SagaErr Receipt * SagaWorld :=
  let '(executed, fl') := Execute (sg_router e) (sg_ttl e) (sg_exec e) (sg_shard e) c fl in
  match executed with
  | Err x => (Err (ErrShardExecution (Some x)), (d, fl'))
  | Ok r =>
      if negb (receiptFor c r) then (Err SagaReceiptMismatch, (d, fl')) else
      if negb finalize then (Ok r, (d, fl')) else
      match commit (Finalize (sg_finalize e) c r) d with
      | (Ok _, d') => (Ok r, (d', fl'))
      | (Err x, d') => (Err (ErrFinalizationDeferred x), (d', fl'))
      end
  end.
Definition ExecuteCreate (e : SagaEnv) (q : ReserveRequest) (w : SagaWorld) : res SagaErr Result * SagaWorld :=
  let '(d, fl) := w in
  if negb (validReserveRequest q) then (Err ErrInvalidCommand, w) else
  let '(reserved, d1) := commit (Reserve o (sg_ids e) (sg_now e) (sg_reserve e) q) d in
  match reserved with
  | Err x => (Err (ErrControlUnavailable x), (d1, fl))
  | Ok c =>
      if negb (validCommandForRequest c q) then (Err ErrInvalidCommand, (d1, fl)) else
      if bool_decide (cm_state c = StateFinalized) then (Ok (mkResult (cm_id c) (cm_reservation c) uuidNil 0 0 false), (d1, fl)) else
      if terminalState (cm_state c) then (Err (ErrShardExecution None), (d1, fl)) else
      let '(r, w') := onShardReceipt e c true d1 fl in
      (let* r := r in Ok (mkResult (cm_id c) (cr_resource r) uuidNil 0 0 false), w')
  end.
Definition ExecuteLifecycle (e : SagaEnv) (q : LifecycleRequest) (w : SagaWorld) : res SagaErr Result * SagaWorld :=
  let '(d, fl) := w in
  if negb (validLifecycleRequest q) then (Err ErrInvalidCommand, w) else
  let '(reserved, d1) := commit (ReserveLifecycle (id_command (sg_ids e)) (sg_reserve e) q) d in
  match reserved with
  | Err x => (Err (ErrControlUnavailable x), (d1, fl))
  | Ok c =>
      if negb (validLifecycleCommand c q) then (Err ErrInvalidCommand, (d1, fl)) else
      if terminalState (cm_state c) then (Err (ErrShardExecution None), (d1, fl)) else
      let replayed := bool_decide (cm_state c = StateFinalized) in
      let '(r, w') := onShardReceipt e c (negb replayed) d1 fl in
      (let* r := r in Ok (mkResult (cm_id c) (cr_resource r) (cr_order r) (cr_count r) (cr_released r) replayed), w')
  end.
End Coordinator.
