(* ===== verification/PhysicalRouter.v ===== *)
(** * Physical shard router

    Models [src/internal/sharding/physical]: the registry of allowlisted
    connections (registry.go) and the catalog router with its bounded,
    short-lived cache of assignments (catalog_router.go).

    The registry is the set of shards that have a connection: NewRegistry
    accepts only references equal to the name of a physical shard, and the
    catalog's topology constraint makes the connection reference of a physical
    shard its name.  Go's iteration over the cache is any order of its keys, an
    argument. *)

From S2P Require Import Prelude Transaction Sharding PaymentDomain PaymentDb PaymentClaims BookingDb ShardDb ShardBooking CommandDb CommandControl.
Import ShardTypes.

Abbreviation Registry := (gset string).
Definition SupportedProtocolVersion : Z := 1.
Definition maxCatalogRouteTTL : Z := 5 * 60 * 1000000000.
Definition maxCachedPhysicalRoutes : nat := N.to_nat 4096.
Lemma someCachedRoutes : (0 < maxCachedPhysicalRoutes)%nat.
Proof. unfold maxCachedPhysicalRoutes. lia. Qed.
#[global] Opaque maxCachedPhysicalRoutes.

(** Registry.Resolve: the shard and whether its handle may write. *)
Definition registryResolve (reg : Registry) (shard : string) (k : CatShard) : option (string * bool) :=
  if bool_decide (shard ∈ reg) && bool_decide (ks_kind k = "postgres"%string) && (ks_protocol k =? SupportedProtocolVersion) &&
     (ks_schema k =? SupportedSchemaVersion) && ks_enabled k && bool_decide (ks_health k ∈ ["healthy"; "degraded"]%string) &&
     bool_decide (ks_state k ∈ ["active"; "draining"]%string)
  then Some (shard, ks_write k) else None.

(** CatalogRouter.load; every error is ErrShardUnavailable. *)
Definition load (reg : Registry) (d : ControlDb) (run : uuid) : option Resolution :=
  a ← runAssignments (cenv d) !! run;
  if negb (bool_decide (a_state a ∈ ["stable"; "migrating"; "rollback_window"]%string)) then None else
  k ← shardCatalog (cenv d) !! a_shard a;
  if negb (physicalID (a_shard a)) then None else
  match routeOf run (a_shard a) (a_generation a) with
  | Err _ => None
  | Ok route =>
      if (ks_fencing k <? 1) || (SupportedFencingProtocolVersion <? ks_fencing k) || negb (ks_protocol k =? SupportedProtocolVersion) ||
         negb (ks_schema k =? SupportedSchemaVersion) then None else
      h ← registryResolve reg (a_shard a) k;
      Some (mkResolution route h.1 h.2)
  end.

Abbreviation RouteTable := (gmap uuid (Resolution * Z)).
(** An entry that is no longer valid, else any. *)
Definition evictOneLocked (order : list uuid) (now : Z) (cache : RouteTable) : RouteTable :=
  let expired run := match cache !! run with Some (_, e) => e <=? now | None => false end in
  match List.find expired order with
  | Some run => delete run cache
  | None => match order with run :: _ => delete run cache | [] => cache end
  end.
(** Resolve: the clock is read once. *)
Definition Resolve (reg : Registry) (ttl : Z) (order : list uuid) (now : Z) (d : ControlDb) (run : uuid) (force : bool) (cache : RouteTable)
    : option Resolution * RouteTable :=
  if bool_decide (run = uuidNil) then (None, cache) else
  match (if force then None else match cache !! run with Some (r, e) => if now <? e then Some r else None | None => None end) with
  | Some r => (Some r, cache)
  | None =>
      match load reg d run with
      | None => (None, cache)
      | Some r =>
          let cache' := if (maxCachedPhysicalRoutes <=? size cache)%nat then evictOneLocked order now cache else cache in
          (Some r, <[run := (r, now + ttl)]> cache')
      end
  end.

(** ** What the cache answers *)

(** The calls of a router, each with its instant, the control database it would
    read and the iteration order; the clock does not go back. *)
Record RouterCall := mkRouterCall { rc_now : Z; rc_db : ControlDb; rc_run : uuid; rc_force : bool; rc_order : list uuid }.
Definition runRouter (reg : Registry) (ttl : Z) (l : list RouterCall) : RouteTable :=
  foldl (fun cache q => (Resolve reg ttl (rc_order q) (rc_now q) (rc_db q) (rc_run q) (rc_force q) cache).2) ∅ l.

(** An iteration visits the keys of the cache. *)
Definition visits (order : list uuid) (cache : RouteTable) : Prop := forall run, run ∈ order <-> is_Some (cache !! run).
Inductive routerHistory (reg : Registry) (ttl : Z) : list RouterCall -> Prop :=
| rh_nil : routerHistory reg ttl []
| rh_snoc l q : routerHistory reg ttl l -> visits (rc_order q) (runRouter reg ttl l) -> routerHistory reg ttl (l ++ [q]).

Lemma evict_sub order now cache run x : evictOneLocked order now cache !! run = Some x -> cache !! run = Some x.
Proof.
  unfold evictOneLocked. destruct (List.find _ _) as [k|]; [by intros [_ ?]%lookup_delete_Some|].
  destruct order; [done|]. by intros [_ ?]%lookup_delete_Some.
Qed.
Lemma evict_size order now cache : visits order cache -> (0 < size cache)%nat -> (size (evictOneLocked order now cache) < size cache)%nat.
Proof.
  intros Hv Hs. assert (Hdel : forall k, k ∈ order -> (size (delete k cache) < size cache)%nat).
  { intros k [x Hk]%Hv. rewrite map_size_delete, Hk. simpl. lia. }
  unfold evictOneLocked. destruct (List.find _ _) as [k|] eqn:Ef; [apply find_some in Ef as [Hk _]; by apply Hdel, list_elem_of_In|].
  destruct order as [|k order']; [|apply Hdel; left]. exfalso. destruct (map_choose cache) as (run & x & Hx).
  - intros ->. rewrite map_size_empty in Hs. lia.
  - apply (not_elem_of_nil run), Hv. eauto.
Qed.

Lemma Resolve_size reg ttl order now d run force cache :
  visits order cache -> (size cache <= maxCachedPhysicalRoutes)%nat -> (size (Resolve reg ttl order now d run force cache).2 <= maxCachedPhysicalRoutes)%nat.
Proof.
  intros Hv Hs. unfold Resolve. case_bool_decide; [done|]. destruct (if force then _ else _); [done|]. destruct (load reg d run); [|done]. cbn [snd].
  set (cache' := if (maxCachedPhysicalRoutes <=? size cache)%nat then evictOneLocked order now cache else cache). assert (Hroom : (size cache' < maxCachedPhysicalRoutes)%nat).
  { unfold cache'. pose proof someCachedRoutes. destruct (Nat.leb_spec maxCachedPhysicalRoutes (size cache)); [|done].
    pose proof (evict_size order now cache Hv ltac:(lia)). lia. }
  rewrite map_size_insert. unfold id. destruct (cache' !! run); lia.
Qed.

(** An entry was what the catalog said when it was stored. *)
Definition witnessed (reg : Registry) (ttl : Z) (l : list RouterCall) (run : uuid) (r : Resolution) (e : Z) : Prop :=
  exists q, q ∈ l /\ rc_run q = run /\ load reg (rc_db q) run = Some r /\ e = rc_now q + ttl.
Lemma runRouter_snoc reg ttl l q :
  runRouter reg ttl (l ++ [q]) = (Resolve reg ttl (rc_order q) (rc_now q) (rc_db q) (rc_run q) (rc_force q) (runRouter reg ttl l)).2.
Proof. unfold runRouter. by rewrite foldl_app. Qed.
Lemma runRouter_witnessed reg ttl l run r e : runRouter reg ttl l !! run = Some (r, e) -> witnessed reg ttl l run r e.
Proof.
  revert run r e. induction l as [|q l IH] using rev_ind; intros run r e; [done|]. rewrite runRouter_snoc. intros H.
  assert (Hold : runRouter reg ttl l !! run = Some (r, e) -> witnessed reg ttl (l ++ [q]) run r e).
  { intros (q0 & Hq & Hrest)%IH. exists q0. split; [apply elem_of_app; by left|done]. }
  unfold Resolve in H. case_bool_decide; [by apply Hold|]. destruct (if rc_force q then _ else _); [by apply Hold|].
  destruct (load reg (rc_db q) (rc_run q)) as [r'|] eqn:El; [|by apply Hold]. simpl in H.
  destruct (decide (rc_run q = run)) as [<-|Hne].
  - rewrite lookup_insert_eq in H. injection H as -> <-. exists q. split_and!; [apply elem_of_app; right; by apply list_elem_of_singleton|done..].
  - rewrite lookup_insert_ne in H by done. apply Hold. destruct (_ <=? _)%nat; [by eapply evict_sub|done].
Qed.
Lemma router_bounded reg ttl l : routerHistory reg ttl l -> (size (runRouter reg ttl l) <= maxCachedPhysicalRoutes)%nat.
Proof.
  induction 1 as [|l q Hl IH Hv]; [change (size (∅ : RouteTable) <= maxCachedPhysicalRoutes)%nat; rewrite map_size_empty; lia|]. rewrite runRouter_snoc. by apply Resolve_size.
Qed.

(** C19: the physical router remembers at most 4096 routes, and what it answers
    is what the control catalog said: a forced answer what it says now, any
    other answer what it said at a call of the same router less than one
    time-to-live ago; an answer always is a route to a physical shard that has
    a connection, of the run that was asked for. *)
Theorem physical_routes_are_recent reg ttl l q r :
  routerHistory reg ttl l -> (forall p, p ∈ l -> rc_now p <= rc_now q) -> 0 < ttl ->
  (Resolve reg ttl (rc_order q) (rc_now q) (rc_db q) (rc_run q) (rc_force q) (runRouter reg ttl l)).1 = Some r ->
  (size (runRouter reg ttl l) <= maxCachedPhysicalRoutes)%nat /\
  (rc_force q = true -> load reg (rc_db q) (rc_run q) = Some r) /\
  (exists p, p ∈ l ++ [q] /\ rc_run p = rc_run q /\ rc_now p <= rc_now q < rc_now p + ttl /\ load reg (rc_db p) (rc_run q) = Some r) /\
  trainRunID (rz_route r) = rc_run q /\ shardID (rz_route r) = rz_shard r /\ rz_shard r ∈ reg.
Proof.
  intros Hh Hmono Httl Hr. split; [by apply router_bounded|]. unfold Resolve in Hr. case_bool_decide; [done|].
  assert (Hload : forall d, load reg d (rc_run q) = Some r -> trainRunID (rz_route r) = rc_run q /\ shardID (rz_route r) = rz_shard r /\ rz_shard r ∈ reg).
  { intros d. unfold load. destruct (runAssignments _ !! _) as [a|]; [|done]. simpl. destruct (negb _); [done|].
    destruct (shardCatalog _ !! _) as [k|]; [|done]. simpl. destruct (negb _); [done|]. destruct (routeOf _ _ _) as [route|] eqn:Er; [|done].
    destruct (_ || _); [done|]. unfold registryResolve. destruct (_ && _) eqn:Ek; [|done]. simpl. intros [= <-]. simpl.
    rewrite !andb_true_iff in Ek. destruct Ek as [[[[[[Hin _] _] _] _] _] _]. apply bool_decide_eq_true in Hin. unfold routeOf, ParseShardID, NewShardRoute in Er.
    repeat case_match; simplify_eq; done. }
  destruct (rc_force q) eqn:Ef; [|destruct (runRouter reg ttl l !! rc_run q) as [[r0 e]|] eqn:Ec; [destruct (Z.ltb_spec (rc_now q) e)|]].
  - destruct (load reg _ _) as [r1|] eqn:El; [|done]. injection Hr as ->. split; [done|]. split; [|by apply (Hload (rc_db q))].
    exists q. split_and!; [apply elem_of_app; right; by apply list_elem_of_singleton|done|lia..|done].
  - injection Hr as ->. split; [done|]. apply runRouter_witnessed in Ec as (p & Hp & Hrun & Hl & ->). split; [|by apply (Hload (rc_db p))].
    exists p. split_and!; [apply elem_of_app; by left|done|by apply Hmono|lia|done].
  - destruct (load reg _ _) as [r1|] eqn:El; [|done]. injection Hr as ->. split; [done|]. split; [|by apply (Hload (rc_db q))].
    exists q. split_and!; [apply elem_of_app; right; by apply list_elem_of_singleton|done|lia..|done].
  - destruct (load reg _ _) as [r1|] eqn:El; [|done]. injection Hr as ->. split; [done|]. split; [|by apply (Hload (rc_db q))].
    exists q. split_and!; [apply elem_of_app; right; by apply list_elem_of_singleton|done|lia..|done].
Qed.
