(* ===== verification/CommandReconcile.v ===== *)
(** * Booking command saga: reconciliation

    Models [src/internal/booking/command/reconcile]: the store that leases and
    repairs control rows (postgres/store.go), the inspector of shard receipts
    (physical/inspector.go) and the service that decides (service.go).

    The inspector's query for the order of a confirmation selects an
    unqualified [id] from ticket_orders joined with tickets, which both have a
    column of that name: the database refuses the statement, so the inspection
    of a committed confirmation is always a receipt mismatch.  The zero value
    of a receipt is one that is not committed.  Timeouts and metrics are not
    modelled. *)

From S2P Require Import Prelude Transaction Sharding PaymentDomain PaymentDb PaymentClaims BookingDb ShardDb ShardBooking CommandDb CommandControl PhysicalRouter.
Import ShardTypes.

Inductive ObservationKind := ObservationMissing | ObservationStarted | ObservationCommitted | ObservationRejected.
#[export] Instance ObservationKind_eq_dec : EqDecision ObservationKind.
Proof. solve_decision. Defined.
Inductive Outcome := OutcomeDeferred | OutcomeFinalized | OutcomeFailed | OutcomeExpired.
#[export] Instance Outcome_eq_dec : EqDecision Outcome.
Proof. solve_decision. Defined.
Inductive RecErr := ErrInvalidCandidate | ErrShardUnreachable | RecReceiptMismatch | ErrControlStore.
#[export] Instance RecErr_eq_dec : EqDecision RecErr.
Proof. solve_decision. Defined.
Record Candidate := mkCandidate { cd_command : Command; cd_expires : Z }.
Record Observation := mkObservation { ob_kind : ObservationKind; ob_command : uuid; ob_fp : digest; ob_resource : uuid; ob_code : string; ob_receipt : Receipt }.
Definition zeroReceipt : Receipt := mkReceipt uuidNil 0%N uuidNil ReceiptFailed uuidNil 0 [] [] 0 0 "" 0.
Definition maxBatchSize : Z := 500.

(** ** Inspection of a shard *)
Definition ResolveHandle (reg : Registry) (d : ControlDb) (s : string) : res RecErr string :=
  if negb (physicalID s) then Err ErrShardUnreachable else
  match shardCatalog (cenv d) !! s with
  | None => Err ErrShardUnreachable
  | Some k => match registryResolve reg s k with Some h => Ok h.1 | None => Err ErrShardUnreachable end
  end.
Definition observed (kind : ObservationKind) (k : uuid) (fp : digest) (resource : uuid) (code : string) (r : Receipt) : Observation :=
  mkObservation kind k fp resource code r.
Definition inspectReceipt (c : Candidate) (d : Shard) : res RecErr Observation :=
  let cmd := cd_command c in
  match breceipts d !! cm_id cmd with
  | None => Ok (observed ObservationMissing uuidNil 0%N uuidNil "" zeroReceipt)
  | Some r =>
      if negb (bool_decide (bk_run r = cm_run cmd)) || negb (bk_gen r =? generation (cm_route cmd)) || negb (bool_decide (bk_type r = cm_op cmd))
      then Err ErrShardUnreachable else
      match bk_state r with
      | BStarted => Ok (observed ObservationStarted (cm_id cmd) (bk_fp r) uuidNil "" zeroReceipt)
      | BSucceeded _ id =>
          if bool_decide (cm_op cmd = OperationConfirmReservation) then Err RecReceiptMismatch else
          Ok (observed ObservationCommitted (cm_id cmd) (bk_fp r) id "" (mkReceipt (cm_id cmd) (bk_fp r) id ReceiptCommitted uuidNil 0 [] [] 0 0 "" 0))
      | BRejected code => Ok (observed ObservationRejected (cm_id cmd) (bk_fp r) uuidNil code zeroReceipt)
      end
  end.
Definition inspectorInspect (reg : Registry) (c : Candidate) (d : ControlDb) (fl : Fleet) : res RecErr Observation :=
  let* s := ResolveHandle reg d (shardID (cm_route (cd_command c))) in
  match fl !! s with None => Err ErrShardUnreachable | Some sh => inspectReceipt c sh end.

Definition validCandidate (c : Candidate) : bool :=
  let cmd := cd_command c in
  negb (bool_decide (cm_id cmd = uuidNil)) &&
  bool_decide (cm_op cmd ∈ [OperationCreateReservation; OperationConfirmReservation; OperationCancelReservation]) &&
  negb (bool_decide (cm_owner cmd = uuidNil)) && negb (bool_decide (cm_run cmd = uuidNil)) && negb (bool_decide (cm_reservation cmd = uuidNil)) &&
  negb (cm_fp cmd =? 0)%N && bool_decide (trainRunID (cm_route cmd) = cm_run cmd) && (0 <? generation (cm_route cmd)) &&
  (negb (bool_decide (cm_op cmd = OperationCreateReservation)) || negb (cd_expires c =? 0)) && liveState (cm_state cmd).
Definition validObservation (c : Candidate) (o : Observation) : bool :=
  let cmd := cd_command c in
  let r := ob_receipt o in
  if bool_decide (ob_kind o = ObservationMissing) then
    bool_decide (ob_command o = uuidNil) && (ob_fp o =? 0)%N && bool_decide (ob_resource o = uuidNil) && bool_decide (cr_command r = uuidNil)
  else
    let '(k, fp, resource) :=
      if negb (bool_decide (cr_command r = uuidNil)) then (cr_command r, cr_fp r, cr_resource r) else (ob_command o, ob_fp o, ob_resource o) in
    if negb (bool_decide (k = cm_id cmd)) || negb (fp =? cm_fp cmd)%N then false else
    match ob_kind o with
    | ObservationCommitted => bool_decide (resource = cm_reservation cmd) && bool_decide (cr_status r = ReceiptCommitted)
    | ObservationRejected => bool_decide (resource = uuidNil) && (0 <? String.length (ob_code o))%nat && (String.length (ob_code o) <=? 64)%nat
    | ObservationStarted => bool_decide (resource = uuidNil) && bool_decide (ob_code o = ""%string)
    | ObservationMissing => false
    end.
(** Service.Inspect. *)
Definition Inspect (reg : Registry) (c : Candidate) (d : ControlDb) (fl : Fleet) : res RecErr Observation :=
  if negb (validCandidate c) then Err ErrInvalidCandidate else
  let* o := inspectorInspect reg c d fl in
  if negb (validObservation c o) then Err RecReceiptMismatch else Ok o.

(** ** The store *)
Definition rx (s : ControlDb -> option ControlDb) : CM RecErr unit := one ErrControlStore s.
Definition dirOf (k : uuid) (d : ControlDb) : option (uuid * DirRow) :=
  head (filter (fun kr => dr_command kr.2 = Some k) (map_to_list (dirs d))).
Definition unfinished (s : CommandState) : bool := bool_decide (s ∈ [StateReserved; StateExecuting; StateCommittedOnShard; StateNeedsRepair]).
Definition eligible (clk : Z) (d : ControlDb) (k : uuid) (r : CmdRow) : bool :=
  (match bc_lease r with Some (_, until) => until <? clk | None => true end) &&
  (if bool_decide (bc_op r = OperationCreateReservation) then
     match leases d !! k, dirOf k d with
     | Some l, Some (_, e) =>
         unfinished (bc_state r) ||
         (bool_decide (bc_state r = StateFinalized) && (negb (bool_decide (ql_state l = LeaseActiveHold)) || negb (bool_decide (dr_state e = DirActive))))
     | _, _ => false
     end
   else lifecycleOp (bc_op r) && unfinished (bc_state r)).
Definition claimBefore (a b : uuid * CmdRow) : bool :=
  (bc_updated a.2 <? bc_updated b.2) || ((bc_updated a.2 =? bc_updated b.2) && (a.1 <=? b.1)%N).
Definition claimable (clk batch : Z) (d : ControlDb) : list (uuid * CmdRow) :=
  take (Z.to_nat batch) (sortBy claimBefore (filter (fun kr => eligible clk d kr.1 kr.2 = true) (map_to_list (commands d)))).
(** The expiry a command without a lease is given; no decision reads it. *)
Definition hundredYears : Z := 100 * 365 * 86400 * 1000000000.
Definition candidateOf (clk : Z) (d : ControlDb) (kr : uuid * CmdRow) : res RecErr Candidate :=
  let '(k, r) := kr in
  if negb (physicalID (bc_shard r)) then Err ErrControlStore else
  match routeOf (bc_run r) (bc_shard r) (bc_gen r) with
  | Err _ => Err ErrControlStore
  | Ok route =>
      Ok (mkCandidate (mkCommand k (bc_op r) (bc_owner r) (bc_run r) (bc_reservation r) route (bc_fp r) (bc_state r) noPayload)
            (match leases d !! k with Some l => ql_expires l | None => clk + hundredYears end))
  end.
Fixpoint candidatesOf (clk : Z) (d : ControlDb) (l : list (uuid * CmdRow)) : res RecErr (list Candidate) :=
  match l with
  | [] => Ok []
  | kr :: l' => let* c := candidateOf clk d kr in let* cs := candidatesOf clk d l' in Ok (c :: cs)
  end.
Definition claimRows (worker : string) (until clk : Z) (l : list (uuid * CmdRow)) (d : ControlDb) : ControlDb :=
  set_commands d (foldr (fun kr m => <[kr.1 := leasedRow worker until clk kr.2]> m) (commands d) l).
(** Claim: the batch in the order of the identifiers, all rows having been
    updated at the same instant. *)
Definition Claim (worker : string) (batch ttl clk : Z) : CM RecErr (list Candidate) :=
  guardS ((batch <? 1) || (ttl <=? 0)) ErrControlStore ;;
  d ← shard;
  let rows := byId (claimable clk batch d) in
  cs ← reads (fun d => candidatesOf clk d rows);
  modify (claimRows worker (clk + ttl) clk rows) ;;
  mret cs.

Definition lockAndVerify (cmd : Command) (d : ControlDb) : res RecErr CommandState :=
  match commands d !! cm_id cmd with
  | None => Err ErrControlStore
  | Some r => if negb (bc_fp r =? cm_fp cmd)%N || negb (bool_decide (bc_reservation r = cm_reservation cmd)) then Err ErrControlStore else Ok (bc_state r)
  end.
Definition anyLease : list LeaseState := [LeasePending; LeaseActiveHold; LeaseReleased; LeaseExpired; LeaseRepairRequired].
Definition reactivated (shard : string) (gen clk : Z) (r : DirRow) : DirRow :=
  mkDirRow (dr_run r) (dr_owner r) (dr_command r) DirActive (Some (shard, gen)) None (Some (default clk (dr_active r))) None.

Section Store.
Context {hashing : Hashing}.
Definition repairCreate (clk : Z) (cmd : Command) : CM RecErr unit :=
  s ← reads (lockAndVerify cmd);
  guardS (terminalState s) ErrControlStore ;;
  rx (updCommand (cm_id cmd) (finalizedRow (cm_reservation cmd) clk)) ;;
  rx (updDirectory (cm_reservation cmd) (cm_id cmd) [DirPending; DirActive; DirFailed] (reactivated (shardID (cm_route cmd)) (generation (cm_route cmd)) clk)) ;;
  rx (putReservationLocator (cm_reservation cmd) (locatorOf cmd)) ;;
  rx (updLease (cm_id cmd) anyLease (leaseTo LeaseActiveHold None)) ;;
  modify (insFinalEvent (cm_id cmd)).
(** Here the codes of the tickets are neither asked for nor claimed. *)
Fixpoint distinctIds (l seen : list uuid) : bool :=
  match l with
  | [] => true
  | t :: l' => negb (bool_decide (t = uuidNil)) && negb (bool_decide (t ∈ seen)) && distinctIds l' (t :: seen)
  end.
Definition validReconciledReceipt (r : Receipt) : bool :=
  negb (bool_decide (cr_order r = uuidNil)) && (1 <=? cr_count r) && (cr_count r <=? Z.of_nat MaxReceiptTickets) &&
  (Z.of_nat (length (cr_tickets r)) =? cr_count r) && distinctIds (cr_tickets r) [].
Fixpoint insertTicketLocatorsOnly (c : Command) (r : Receipt) (l : list uuid) : CM RecErr unit :=
  match l with
  | [] => mret tt
  | t :: l' => rx (putTicketLocator t (ticketLocator c r)) ;; insertTicketLocatorsOnly c r l'
  end.
Definition advanceReconciledLifecycle (c : Command) : CM RecErr string :=
  let cancelled := bool_decide (cm_op c = OperationCancelReservation) in
  d ← shard;
  match advanceLifecycle (cm_reservation c) (cm_owner c) (cm_id c) (if cancelled then "cancelled" else "confirmed") (if cancelled then 2 else 1) d with
  | Some (status, d') =>
      if bool_decide (status ∈ ["confirmed"; "cancelled"]) then modify (fun _ => d') ;; mret status else raise ErrControlStore
  | None => raise ErrControlStore
  end.
Definition repairLifecycle (clk : Z) (cmd : Command) (r : Receipt) : CM RecErr unit :=
  s ← reads (lockAndVerify cmd);
  guardS (terminalState s) ErrControlStore ;;
  rx (updCommand (cm_id cmd) (finalizedRow (cm_reservation cmd) clk)) ;;
  status ← advanceReconciledLifecycle cmd;
  (if bool_decide (cm_op cmd = OperationConfirmReservation) then
     guardS (negb (validReconciledReceipt r) || (cr_total r <? 0) || negb (String.length (cr_currency r) =? 3)%nat || (cr_created r =? 0)) ErrControlStore ;;
     rx (putOrderLocator (cr_order r) (orderLocator cmd r status)) ;;
     insertTicketLocatorsOnly cmd r (cr_tickets r)
   else if bool_decide (cm_op cmd = OperationCancelReservation) then modify (orderStatus (cm_reservation cmd) (cm_owner cmd) status) else mret tt) ;;
  modify (releaseQuota (cm_reservation cmd) clk) ;;
  modify (insFinalEvent (cm_id cmd)).
Definition repairFinalize (clk : Z) (cmd : Command) (r : Receipt) : CM RecErr unit :=
  if negb (receiptFor cmd r) then raise ErrControlStore else
  if lifecycleOp (cm_op cmd) then repairLifecycle clk cmd r else repairCreate clk cmd.
Definition terminal (clk : Z) (cmd : Command) (target : CommandState) (category : string) (quota : LeaseState) : CM RecErr unit :=
  guardS (negb (terminalState target)) ErrControlStore ;;
  s ← reads (lockAndVerify cmd);
  guardS (bool_decide (s = StateFinalized)) ErrControlStore ;;
  d ← shard;
  guardS (bool_decide (target = StateExpired) && negb match leases d !! cm_id cmd with Some l => ql_expires l <=? clk | None => false end) ErrControlStore ;;
  rx (updCommand (cm_id cmd) (terminalRow target category clk)) ;;
  (if negb (bool_decide (cm_op cmd = OperationCreateReservation)) then mret tt else
   rx (updDirectory (cm_reservation cmd) (cm_id cmd) [DirPending; DirFailed] (dirFailed category)) ;;
   rx (updLease (cm_id cmd) anyLease (fun l => leaseTo quota (Some (default clk (ql_released l))) l))).
Definition Fail (clk : Z) (cmd : Command) : CM RecErr unit := terminal clk cmd StateFailed "shard_rejected" LeaseReleased.
Definition Expire (clk : Z) (cmd : Command) : CM RecErr unit := terminal clk cmd StateExpired "command_expired" LeaseExpired.

(** ** The service *)

(** What Repair does with an observation at the service's clock. *)
Definition decision (now clk : Z) (c : Candidate) (o : Observation) : option (Outcome * CM RecErr unit) :=
  let cmd := cd_command c in
  match ob_kind o with
  | ObservationCommitted =>
      let r := if bool_decide (cr_command (ob_receipt o) = uuidNil) then committedReceipt cmd else ob_receipt o in
      Some (OutcomeFinalized, repairFinalize clk cmd r)
  | ObservationRejected => Some (OutcomeFailed, Fail clk cmd)
  | ObservationMissing =>
      if negb (bool_decide (cm_op cmd = OperationCreateReservation)) || (now <? cd_expires c) || bool_decide (cm_state cmd = StateFinalized)
      then None else Some (OutcomeExpired, Expire clk cmd)
  | ObservationStarted => None
  end.
Definition Repair (reg : Registry) (now clk : Z) (c : Candidate) (w : SagaWorld) : (Outcome * option RecErr) * ControlDb :=
  let '(d, fl) := w in
  match Inspect reg c d fl with
  | Err e => ((OutcomeDeferred, Some e), d)
  | Ok o =>
      match decision now clk c o with
      | None => ((OutcomeDeferred, None), d)
      | Some (outcome, m) =>
          match commit m d with
          | (Ok _, d') => ((outcome, None), d')
          | (Err e, d') => ((OutcomeDeferred, Some e), d')
          end
      end
  end.
Fixpoint repairAll (reg : Registry) (now clk : Z) (cs : list Candidate) (w : SagaWorld) : list (Outcome * option RecErr) * SagaWorld :=
  match cs with
  | [] => ([], w)
  | c :: cs' =>
      let '(x, d) := Repair reg now clk c w in
      let '(xs, w') := repairAll reg now clk cs' (d, w.2) in
      (x :: xs, w')
  end.
(** RunOnce: the outcome of every candidate, of which Result is the tally; the
    batch never exceeds its bound. *)
Definition RunOnceReconcile (reg : Registry) (worker : string) (batch ttl now clk : Z) (w : SagaWorld) : res RecErr (list (Outcome * option RecErr)) * SagaWorld :=
  let '(d, fl) := w in
  match commit (Claim worker batch ttl clk) d with
  | (Err e, d') => (Err e, (d', fl))
  | (Ok cs, d') =>
      if (batch <? Z.of_nat (length cs)) then (Err ErrInvalidCandidate, (d', fl)) else
      let '(xs, w') := repairAll reg now clk cs (d', fl) in (Ok xs, w')
  end.
End Store.
