(* ===== verification/CommandLogic.v ===== *)
(** * Booking command saga: execution of the control transactions

    What the transactions of [CommandControl] and [CommandReconcile] do to the
    commands, the quota leases and the reservation directory when they
    commit. *)

From S2P Require Import Prelude Transaction Sharding PaymentDomain PaymentDb PaymentClaims BookingDb ShardDb ShardBooking ShardLogic CommandDb CommandControl PhysicalRouter CommandReconcile.
Import ShardTypes.

(** ** Statements *)
(** The unique index on owner, operation and key. *)
Definition sameKey (r r' : CmdRow) : Prop := bc_owner r' = bc_owner r /\ bc_op r' = bc_op r /\ bc_key r' = bc_key r.
Definition keyFree (r : CmdRow) (d : ControlDb) : Prop := forall j r', commands d !! j = Some r' -> ~ sameKey r r'.
Lemma insCommand_Some k r d d' : insCommand k r d = Some d' -> commands d !! k = None /\ keyFree r d /\ d' = set_commands d (<[k := r]> (commands d)).
Proof.
  unfold insCommand. intros H. destruct (_ || _) eqn:E; [done|]. injection H as <-. bsplit. split_and!; [by apply eq_None_not_Some| |done].
  intros j r' Hj (Ho & Hop & Hk). match goal with H : forall k _, _ |- _ => specialize (H j r' Hj) end. rewrite Ho, Hop, Hk, !bool_decide_true, N.eqb_refl in * by done. done.
Qed.
Lemma insLease_Some k r clk d d' :
  insLease k r clk d = Some d' -> leases d !! k = None /\ clk < ql_expires r /\ d' = set_leases d (<[k := r]> (leases d)).
Proof. unfold insLease. intros H. destruct (_ || _) eqn:E; [done|]. injection H as <-. bsplit. split; [by apply eq_None_not_Some|]. split; [lia|done]. Qed.
Lemma insDirectory_Some k r d d' :
  insDirectory k r d = Some d' ->
  dirs d !! k = None /\ (forall k' e, dirs d !! k' = Some e -> dr_command e <> dr_command r) /\ d' = set_dirs d (<[k := r]> (dirs d)).
Proof.
  unfold insDirectory. intros H. destruct (_ || _) eqn:E; [done|]. injection H as <-. bsplit. split_and!; [by apply eq_None_not_Some| |done].
  intros k' e Hk Heq. specialize (H0 k' e Hk). by rewrite bool_decide_true in H0.
Qed.
Lemma updCommand_Some k f d d' : updCommand k f d = Some d' -> exists r, commands d !! k = Some r /\ d' = set_commands d (<[k := f r]> (commands d)).
Proof. unfold updCommand. destruct (commands d !! k) as [r|]; [|done]. intros [= <-]. eauto. Qed.
Lemma updLease_Some k from f d d' :
  updLease k from f d = Some d' -> exists l, leases d !! k = Some l /\ ql_state l ∈ from /\ d' = set_leases d (<[k := f l]> (leases d)).
Proof. unfold updLease. destruct (leases d !! k) as [l|]; [|done]. case_bool_decide; [|done]. intros [= <-]. eauto. Qed.
Lemma updDirectory_Some k c from f d d' :
  updDirectory k c from f d = Some d' ->
  exists e, dirs d !! k = Some e /\ dr_command e = Some c /\ dr_state e ∈ from /\ d' = set_dirs d (<[k := f e]> (dirs d)).
Proof. unfold updDirectory. destruct (dirs d !! k) as [e|]; [|done]. destruct (_ && _) eqn:E; [|done]. intros [= <-]. bsplit. eauto. Qed.

(** The tables that decide where a saga stands. *)
Definition tables (d : ControlDb) := (commands d, leases d, dirs d).
Lemma putReservationLocator_tables k r d d' : putReservationLocator k r d = Some d' -> tables d' = tables d.
Proof. unfold putReservationLocator. intros H. by repeat case_match; simplify_eq. Qed.
Lemma putOrderLocator_tables k r d d' : putOrderLocator k r d = Some d' -> tables d' = tables d.
Proof. unfold putOrderLocator. intros H. by repeat case_match; simplify_eq. Qed.
Lemma putTicketLocator_tables k r d d' : putTicketLocator k r d = Some d' -> tables d' = tables d.
Proof. unfold putTicketLocator. intros H. by repeat case_match; simplify_eq. Qed.
Lemma putTicketCode_tables k r d d' : putTicketCode k r d = Some d' -> tables d' = tables d.
Proof. unfold putTicketCode. intros H. by repeat case_match; simplify_eq. Qed.
Lemma advanceLifecycle_tables k o c s r d st d' : advanceLifecycle k o c s r d = Some (st, d') -> tables d' = tables d.
Proof. unfold advanceLifecycle. intros H. by repeat case_match; simplify_eq. Qed.

(** ** Rows *)
Lemma routeOf_Ok run s g route : routeOf run s g = Ok route -> route = mkShardRoute run s g /\ 0 < g /\ run <> uuidNil.
Proof. unfold routeOf, ParseShardID, NewAssignmentGeneration, NewShardRoute. intros H. repeat case_match; simplify_eq. bsplit. split_and!; [done|lia|done]. Qed.
Lemma byKey_Some owner op key d k r :
  byKey owner op key d = Some (k, r) -> commands d !! k = Some r /\ bc_owner r = owner /\ bc_op r = op /\ bc_key r = key.
Proof. unfold byKey. intros H%head_Some_elem_of. apply list_elem_of_filter in H as [H Hin%elem_of_map_to_list]. done. Qed.
Lemma dirOf_Some k d j e : dirOf k d = Some (j, e) -> dirs d !! j = Some e /\ dr_command e = Some k.
Proof. unfold dirOf. intros H%head_Some_elem_of. apply list_elem_of_filter in H as [H Hin%elem_of_map_to_list]. done. Qed.

(** The row a command was read from or written to. *)
Record names (r : CmdRow) (c : Command) : Prop := {
  nm_op : bc_op r = cm_op c; nm_owner : bc_owner r = cm_owner c; nm_run : bc_run r = cm_run c; nm_reservation : bc_reservation r = cm_reservation c;
  nm_fp : bc_fp r = cm_fp c; nm_shard : bc_shard r = shardID (cm_route c); nm_gen : bc_gen r = generation (cm_route c) }.
(** A change of state keeps what a command is. *)
Record sameCommand (r r' : CmdRow) : Prop := {
  sc_op : bc_op r' = bc_op r; sc_owner : bc_owner r' = bc_owner r; sc_run : bc_run r' = bc_run r; sc_reservation : bc_reservation r' = bc_reservation r;
  sc_key : bc_key r' = bc_key r; sc_fp : bc_fp r' = bc_fp r; sc_shard : bc_shard r' = bc_shard r; sc_gen : bc_gen r' = bc_gen r }.
Lemma names_same r r' c : sameCommand r r' -> names r c -> names r' c.
Proof. intros [] []. split; congruence. Qed.

(** ** Reserve and ReserveLifecycle *)
Lemma loadExisting_Ok q d c :
  loadExistingCommand q d = Ok (Some c) ->
  exists r l, commands d !! cm_id c = Some r /\ names r c /\ bc_op r = rr_op q /\ cm_state c = bc_state r /\ bc_run r = trainRunID (cm_route c) /\
    leases d !! cm_id c = Some l /\ ql_expires l = pl_expires (cm_payload c) /\ bc_owner r = rr_owner q /\ bc_key r = rr_key q /\ bc_fp r = rr_fp q.
Proof.
  unfold loadExistingCommand. destruct (byKey _ _ _ d) as [[k r]|] eqn:Ek; [|done]. apply byKey_Some in Ek as (Hr & Ho & Hop & Hk).
  destruct (leases d !! k) as [l|] eqn:El; [|done]. destruct (_ || _) eqn:Eb; [done|]. bsplit. destruct (routeOf _ _ _) as [route|] eqn:Er; [|done].
  apply routeOf_Ok in Er as (-> & _ & _). intros [= <-]. simpl. exists r, l. split_and!; try done.
Qed.
(** A new command with its rows. *)
Record reservedAs (q : ReserveRequest) (c : Command) (d d' : ControlDb) : Prop := {
  rd_command : commands d !! cm_id c = None; rd_lease : leases d !! cm_id c = None; rd_dir : dirs d !! cm_reservation c = None;
  rd_unnamed : forall k e, dirs d !! k = Some e -> dr_command e <> Some (cm_id c);
  rd_row : exists row, commands d' = <[cm_id c := row]> (commands d) /\ names row c /\ bc_state row = StateReserved /\ keyFree row d /\ bc_key row = rr_key q /\ bc_fp row = rr_fp q;
  rd_leased : exists l, leases d' = <[cm_id c := l]> (leases d) /\ ql_owner l = cm_owner c /\ ql_run l = cm_run c /\ ql_state l = LeasePending /\
    ql_expires l = pl_expires (cm_payload c) /\ ql_count l = rr_count q;
  rd_pending : exists e, dirs d' = <[cm_reservation c := e]> (dirs d) /\ dr_command e = Some (cm_id c) /\ dr_owner e = cm_owner c /\ dr_run e = cm_run c /\
    dr_state e = DirPending /\ dr_hint e = Some (shardID (cm_route c), generation (cm_route c));
  rd_route : trainRunID (cm_route c) = cm_run c; rd_op : cm_op c = rr_op q; rd_owner : cm_owner c = rr_owner q; rd_run : cm_run c = rr_run q;
  rd_env : cenv d' = cenv d }.
Lemma Reserve_Ok o ids now clk q d c d' :
  Reserve o ids now clk q d = Ok (c, d') ->
  (loadExistingCommand q d = Ok (Some c) /\ d' = d) \/ (loadExistingCommand q d = Ok None /\ overQuota o q d = false /\ cm_id c = id_command ids /\ reservedAs q c d d').
Proof.
  unfold Reserve, reserveWrites, cx. intros H. apply sbind_Ok in H as (? & ? & [<- <-]%shard_Ok & H). apply sbind_Ok in H as (? & ? & [_ <-]%guardS_Ok & H).
  apply sbind_Ok in H as (found & ? & [Hl <-]%reads_Ok & H). destruct found as [c0|]; [apply sret_Ok in H as [<- <-]; by left|]. right.
  cbv zeta in H. apply sbind_Ok in H as (? & ? & [_ <-]%guardS_Ok & H). apply sbind_Ok in H as (? & ? & [_ <-]%reads_Ok & H).
  apply sbind_Ok in H as (route & ? & [Hr <-]%reads_Ok & H). apply sbind_Ok in H as (? & ? & [Hq <-]%guardS_Ok & H).
  apply sbind_Ok in H as (? & d3 & Hw & [<- <-]%sret_Ok). apply sbind_Ok in Hw as (? & d1 & (Hc & Hkey & ->)%one_Ok%insCommand_Some & Hw).
  apply sbind_Ok in Hw as (? & d2 & (Hle & _ & ->)%one_Ok%insLease_Some & (Hd & Hu & ->)%one_Ok%insDirectory_Some). simpl in *.
  assert (Hroute : trainRunID route = rr_run q).
  { unfold loadPhysicalRoute in Hr. repeat case_match; simplify_eq. by apply routeOf_Ok in Hr as (-> & _). }
  split_and!; [done..|]. split; simpl; try done; eexists; (split; [reflexivity|]); split_and!; try done.
Qed.
Lemma loadExistingLifecycle_Ok q d c :
  loadExistingLifecycleCommand q d = Ok (Some c) ->
  exists r, commands d !! cm_id c = Some r /\ names r c /\ bc_op r = lr_op q /\ cm_state c = bc_state r.
Proof.
  unfold loadExistingLifecycleCommand. destruct (byKey _ _ _ d) as [[k r]|] eqn:Ek; [|done]. apply byKey_Some in Ek as (Hr & Ho & Hop & _).
  destruct (_ || _); [done|]. destruct (routeOf _ _ _) as [route|] eqn:Er; [|done]. apply routeOf_Ok in Er as (-> & _ & _). intros [= <-]. simpl.
  exists r. split_and!; done.
Qed.
Lemma ReserveLifecycle_Ok id clk q d c d' :
  ReserveLifecycle id clk q d = Ok (c, d') ->
  (loadExistingLifecycleCommand q d = Ok (Some c) /\ d' = d) \/
  (commands d !! cm_id c = None /\ cm_id c = id /\ cm_op c = lr_op q /\ leases d' = leases d /\ dirs d' = dirs d /\ cenv d' = cenv d /\
   (exists row, commands d' = <[cm_id c := row]> (commands d) /\ names row c /\ bc_state row = StateReserved /\ keyFree row d) /\
   exists e, dirs d !! cm_reservation c = Some e /\ dr_state e = DirActive /\ dr_owner e = cm_owner c /\ dr_run e = cm_run c /\
     dr_hint e = Some (shardID (cm_route c), generation (cm_route c))).
Proof.
  unfold ReserveLifecycle, cx. intros H. apply sbind_Ok in H as (found & ? & [Hl <-]%reads_Ok & H).
  destruct found as [c0|]; [apply sret_Ok in H as [<- <-]; by left|]. right. apply sbind_Ok in H as (route & ? & [Hr <-]%reads_Ok & H).
  cbv zeta in H. apply sbind_Ok in H as (? & d1 & (Hc & Hkey & ->)%one_Ok%insCommand_Some & [<- <-]%sret_Ok). simpl in *. split_and!; try done.
  - eexists. split; [done|]. split_and!; done.
  - unfold directoryRoute in Hr. destruct (dirs d !! lr_reservation q) as [e|] eqn:Ed; [|done]. destruct (dr_hint e) as [[s g]|] eqn:Eh; [|done].
    destruct (shardCatalog _ !! s); [|done]. destruct (_ && _) eqn:Eb; [|done]. bsplit. apply routeOf_Ok in Hr as (-> & _). simpl. exists e. split_and!; done.
Qed.

(** ** Finalize *)
Definition updMap {A} (m : gmap uuid A) (k : uuid) (p : A -> bool) (f : A -> A) : gmap uuid A :=
  match m !! k with Some x => if p x then <[k := f x]> m else m | None => m end.
Lemma lookup_updMap {A} (m : gmap uuid A) k p f j :
  updMap m k p f !! j = if decide (j = k) then (fun x => if p x then f x else x) <$> m !! k else m !! j.
Proof.
  unfold updMap. destruct (decide (j = k)) as [->|Hne].
  - destruct (m !! k) as [x|] eqn:E; simpl; [|done]. destruct (p x); [by rewrite lookup_insert_eq|done].
  - destruct (m !! k); [|done]. destruct (p a); [by rewrite lookup_insert_ne|done].
Qed.
Lemma ifAny_updLease k from f d : tables (ifAny (updLease k from f) d) = (commands d, updMap (leases d) k (fun l => bool_decide (ql_state l ∈ from)) f, dirs d).
Proof. unfold ifAny, updLease, updMap. destruct (leases d !! k); [|done]. by case_bool_decide. Qed.
Lemma ifAny_updDirectory k c from f d :
  tables (ifAny (updDirectory k c from f) d) =
    (commands d, leases d, updMap (dirs d) k (fun e => bool_decide (dr_command e = Some c) && bool_decide (dr_state e ∈ from)) f).
Proof. unfold ifAny, updDirectory, updMap. destruct (dirs d !! k); [|done]. by destruct (_ && _). Qed.
Definition freeable (l : LeaseRow) : bool := bool_decide (ql_state l ∈ [LeasePending; LeaseActiveHold; LeaseRepairRequired; LeaseReleased]).
Definition released (clk : Z) (l : LeaseRow) : LeaseRow := leaseTo LeaseReleased (Some (default clk (ql_released l))) l.
Lemma releaseQuota_tables reservation clk d :
  tables (releaseQuota reservation clk d) =
    (commands d, match dirs d !! reservation ≫= dr_command with Some k => updMap (leases d) k freeable (released clk) | None => leases d end, dirs d).
Proof.
  unfold releaseQuota. destruct (dirs d !! reservation) as [e|]; [|done]. simpl. destruct (dr_command e); [|done]. apply ifAny_updLease.
Qed.

Section Finalize.
Context {hashing : Hashing}.
Lemma insFinalEvent_tables k d : tables (insFinalEvent k d) = tables d.
Proof. unfold insFinalEvent. by destruct (finals d !! _). Qed.
Lemma lockFinalizable_Ok e c r d :
  lockFinalizable e c r d = Ok tt ->
  exists row, commands d !! cm_id c = Some row /\ bc_fp row = cr_fp r /\ bc_reservation row = cr_resource r /\ terminalState (bc_state row) = false.
Proof. unfold lockFinalizable. destruct (commands d !! cm_id c) as [row|]; [|done]. destruct (_ || _) eqn:E; [done|]. intros _. bsplit. eauto. Qed.

Definition counts (l : LeaseRow) : bool := bool_decide (ql_state l ∈ [LeasePending; LeaseActiveHold; LeaseRepairRequired]).
Lemma finalizeCreate_Ok clk c r d u d' :
  finalizeCreate clk c r d = Ok (u, d') ->
  exists row, commands d !! cm_id c = Some row /\ bc_fp row = cr_fp r /\ bc_reservation row = cr_resource r /\ terminalState (bc_state row) = false /\
    tables d' = (<[cm_id c := finalizedRow (cr_resource r) clk row]> (commands d),
                 updMap (leases d) (cm_id c) counts (fun l => leaseTo LeaseActiveHold (ql_released l) l),
                 updMap (dirs d) (cr_resource r) (fun e => bool_decide (dr_command e = Some (cm_id c)) && bool_decide (dr_state e ∈ [DirPending; DirActive]))
                   (dirActive (shardID (cm_route c)) (generation (cm_route c)) clk)).
Proof.
  unfold finalizeCreate, cx. intros H. apply sbind_Ok in H as ([] & ? & [(row & Hrow & Hfp & Hres & Ht)%lockFinalizable_Ok <-]%reads_Ok & H).
  apply sbind_Ok in H as (? & d1 & (row' & Hrow' & ->)%one_Ok%updCommand_Some & H). assert (row' = row) as -> by congruence.
  apply sbind_Ok in H as (? & d2 & <-%modify_Ok & H). apply sbind_Ok in H as (? & d3 & H3%one_Ok%putReservationLocator_tables & H).
  apply sbind_Ok in H as (? & d4 & <-%modify_Ok & <-%modify_Ok). exists row. split_and!; [done..|]. rewrite insFinalEvent_tables, ifAny_updLease.
  rewrite ifAny_updDirectory in H3. injection H3 as -> -> ->. done.
Qed.

Lemma insertTicketLocators_tables c r l d u d' : insertTicketLocators c r l d = Ok (u, d') -> tables d' = tables d.
Proof.
  revert d. induction l as [|[t k] l IH]; intros d; simpl; [by intros [_ <-]%sret_Ok|]. unfold cx. intros H.
  apply sbind_Ok in H as (? & d1 & H1%one_Ok%putTicketLocator_tables & H). apply sbind_Ok in H as (? & d2 & H2%one_Ok%putTicketCode_tables & H%IH). congruence.
Qed.
Lemma advanceReservation_tables e c d s d' : advanceReservationLifecycle e c d = Ok (s, d') -> tables d' = tables d.
Proof.
  unfold advanceReservationLifecycle. cbv zeta. intros H. apply sbind_Ok in H as (? & ? & [<- <-]%shard_Ok & H).
  destruct (advanceLifecycle _ _ _ _ _ d) as [[st d1]|] eqn:E; [|by apply raise_Ok in H]. apply advanceLifecycle_tables in E.
  case_bool_decide; [|by apply raise_Ok in H]. apply sbind_Ok in H as (? & ? & <-%modify_Ok & [_ <-]%sret_Ok). done.
Qed.
(** A lifecycle command is finalized and the quota of its reservation freed. *)
Definition lifecycleFinalized (clk : Z) (c : Command) (resource : uuid) (row : CmdRow) (d d' : ControlDb) : Prop :=
  tables d' = (<[cm_id c := finalizedRow resource clk row]> (commands d),
               match dirs d !! cm_reservation c ≫= dr_command with Some k => updMap (leases d) k freeable (released clk) | None => leases d end, dirs d).
Lemma finalizeLifecycle_Ok clk c r d u d' :
  finalizeLifecycle clk c r d = Ok (u, d') ->
  exists row, commands d !! cm_id c = Some row /\ bc_fp row = cr_fp r /\ bc_reservation row = cr_resource r /\ terminalState (bc_state row) = false /\
    lifecycleFinalized clk c (cr_resource r) row d d'.
Proof.
  unfold finalizeLifecycle, cx. intros H. apply sbind_Ok in H as ([] & ? & [(row & Hrow & Hfp & Hres & Ht)%lockFinalizable_Ok <-]%reads_Ok & H).
  apply sbind_Ok in H as (? & d1 & (row' & Hrow' & ->)%one_Ok%updCommand_Some & H). assert (row' = row) as -> by congruence.
  apply sbind_Ok in H as (status & d2 & H2%advanceReservation_tables & H). apply sbind_Ok in H as (? & d3 & H3 & H).
  assert (Ht3 : tables d3 = tables d2).
  { case_bool_decide.
    - apply sbind_Ok in H3 as (? & ? & [_ <-]%guardS_Ok & H3). apply sbind_Ok in H3 as (? & d4 & H4%one_Ok%putOrderLocator_tables & H5%insertTicketLocators_tables). congruence.
    - case_bool_decide; [by apply modify_Ok in H3 as <-|by apply sret_Ok in H3 as [_ <-]]. }
  apply sbind_Ok in H as (? & d4 & <-%modify_Ok & <-%modify_Ok). exists row. split_and!; [done..|]. unfold lifecycleFinalized.
  rewrite insFinalEvent_tables, releaseQuota_tables. rewrite H2 in Ht3. by injection Ht3 as -> -> ->.
Qed.

(** ** Repairs *)
Lemma lockAndVerify_Ok cmd d s :
  lockAndVerify cmd d = Ok s -> exists row, commands d !! cm_id cmd = Some row /\ bc_fp row = cm_fp cmd /\ bc_reservation row = cm_reservation cmd /\ bc_state row = s.
Proof. unfold lockAndVerify. destruct (commands d !! _) as [row|]; [|done]. destruct (_ || _) eqn:E; [done|]. intros [= <-]. bsplit. eauto. Qed.
Lemma repairCreate_Ok clk cmd d u d' :
  repairCreate clk cmd d = Ok (u, d') ->
  exists row l e, commands d !! cm_id cmd = Some row /\ terminalState (bc_state row) = false /\ leases d !! cm_id cmd = Some l /\
    dirs d !! cm_reservation cmd = Some e /\ dr_command e = Some (cm_id cmd) /\ dr_state e ∈ [DirPending; DirActive; DirFailed] /\
    tables d' = (<[cm_id cmd := finalizedRow (cm_reservation cmd) clk row]> (commands d), <[cm_id cmd := leaseTo LeaseActiveHold None l]> (leases d),
                 <[cm_reservation cmd := reactivated (shardID (cm_route cmd)) (generation (cm_route cmd)) clk e]> (dirs d)).
Proof.
  unfold repairCreate, rx. intros H. apply sbind_Ok in H as (s & ? & [(row & Hrow & _ & _ & <-)%lockAndVerify_Ok <-]%reads_Ok & H).
  apply sbind_Ok in H as (? & ? & [Ht <-]%guardS_Ok & H). apply sbind_Ok in H as (? & d1 & (row' & Hrow' & ->)%one_Ok%updCommand_Some & H).
  assert (row' = row) as -> by congruence. apply sbind_Ok in H as (? & d2 & (e & He & Hk & Hs & ->)%one_Ok%updDirectory_Some & H).
  apply sbind_Ok in H as (? & d3 & H3%one_Ok%putReservationLocator_tables & H).
  apply sbind_Ok in H as (? & d4 & (l & Hl & _ & ->)%one_Ok%updLease_Some & <-%modify_Ok). injection H3 as Hc Hle Hd. rewrite Hle in Hl. simpl in *.
  exists row, l, e. split_and!; try done. rewrite insFinalEvent_tables. unfold tables. simpl. by rewrite Hc, Hle, Hd.
Qed.
Lemma locatorsOnly_tables c r l d u d' : insertTicketLocatorsOnly c r l d = Ok (u, d') -> tables d' = tables d.
Proof.
  revert d. induction l as [|t l IH]; intros d; simpl; [by intros [_ <-]%sret_Ok|]. unfold rx. intros H.
  apply sbind_Ok in H as (? & d1 & H1%one_Ok%putTicketLocator_tables & H%IH). congruence.
Qed.
Lemma advanceReconciled_tables c d s d' : advanceReconciledLifecycle c d = Ok (s, d') -> tables d' = tables d.
Proof.
  unfold advanceReconciledLifecycle. cbv zeta. intros H. apply sbind_Ok in H as (? & ? & [<- <-]%shard_Ok & H).
  destruct (advanceLifecycle _ _ _ _ _ d) as [[st d1]|] eqn:E; [|by apply raise_Ok in H]. apply advanceLifecycle_tables in E.
  case_bool_decide; [|by apply raise_Ok in H]. apply sbind_Ok in H as (? & ? & <-%modify_Ok & [_ <-]%sret_Ok). done.
Qed.
Lemma repairLifecycle_Ok clk cmd r d u d' :
  repairLifecycle clk cmd r d = Ok (u, d') ->
  exists row, commands d !! cm_id cmd = Some row /\ terminalState (bc_state row) = false /\ lifecycleFinalized clk cmd (cm_reservation cmd) row d d'.
Proof.
  unfold repairLifecycle, rx. intros H. apply sbind_Ok in H as (s & ? & [(row & Hrow & _ & _ & <-)%lockAndVerify_Ok <-]%reads_Ok & H).
  apply sbind_Ok in H as (? & ? & [Ht <-]%guardS_Ok & H). apply sbind_Ok in H as (? & d1 & (row' & Hrow' & ->)%one_Ok%updCommand_Some & H).
  assert (row' = row) as -> by congruence. apply sbind_Ok in H as (status & d2 & H2%advanceReconciled_tables & H). apply sbind_Ok in H as (? & d3 & H3 & H).
  assert (Ht3 : tables d3 = tables d2).
  { case_bool_decide.
    - apply sbind_Ok in H3 as (? & ? & [_ <-]%guardS_Ok & H3). apply sbind_Ok in H3 as (? & d4 & H4%one_Ok%putOrderLocator_tables & H5%locatorsOnly_tables). congruence.
    - case_bool_decide; [by apply modify_Ok in H3 as <-|by apply sret_Ok in H3 as [_ <-]]. }
  apply sbind_Ok in H as (? & d4 & <-%modify_Ok & <-%modify_Ok). exists row. split_and!; [done..|]. unfold lifecycleFinalized.
  rewrite insFinalEvent_tables, releaseQuota_tables. rewrite H2 in Ht3. by injection Ht3 as -> -> ->.
Qed.
(** A command fails or expires. *)
Definition terminated (clk : Z) (cmd : Command) (target : CommandState) (category : string) (quota : LeaseState) (row : CmdRow) (d d' : ControlDb) : Prop :=
  if bool_decide (cm_op cmd = OperationCreateReservation) then
    exists l e, leases d !! cm_id cmd = Some l /\ (target = StateExpired -> ql_expires l <= clk) /\ dirs d !! cm_reservation cmd = Some e /\
      dr_command e = Some (cm_id cmd) /\ dr_state e ∈ [DirPending; DirFailed] /\
      tables d' = (<[cm_id cmd := terminalRow target category clk row]> (commands d),
                   <[cm_id cmd := leaseTo quota (Some (default clk (ql_released l))) l]> (leases d), <[cm_reservation cmd := dirFailed category e]> (dirs d))
  else tables d' = (<[cm_id cmd := terminalRow target category clk row]> (commands d), leases d, dirs d).
Lemma terminal_Ok clk cmd target category quota d u d' :
  terminal clk cmd target category quota d = Ok (u, d') ->
  exists row, commands d !! cm_id cmd = Some row /\ bc_state row <> StateFinalized /\ terminated clk cmd target category quota row d d'.
Proof.
  unfold terminal, rx. intros H. apply sbind_Ok in H as (? & ? & [_ <-]%guardS_Ok & H).
  apply sbind_Ok in H as (s & ? & [(row & Hrow & _ & _ & <-)%lockAndVerify_Ok <-]%reads_Ok & H). apply sbind_Ok in H as (? & ? & [Hf%bool_decide_eq_false <-]%guardS_Ok & H).
  apply sbind_Ok in H as (? & ? & [<- <-]%shard_Ok & H). apply sbind_Ok in H as (? & ? & [Hx <-]%guardS_Ok & H).
  apply sbind_Ok in H as (? & d1 & (row' & Hrow' & ->)%one_Ok%updCommand_Some & H). assert (row' = row) as -> by congruence. exists row. split_and!; [done..|].
  unfold terminated. case_bool_decide as Hop; [|by apply sret_Ok in H as [_ <-]]. simpl in H.
  apply sbind_Ok in H as (? & d2 & (e & He & Hk & Hs & ->)%one_Ok%updDirectory_Some & (l & Hl & _ & ->)%one_Ok%updLease_Some). simpl in *.
  exists l, e. split_and!; try done. intros ->. rewrite Hl in Hx. rewrite bool_decide_true in Hx by done. simpl in Hx. apply negb_false_iff in Hx. lia.
Qed.
End Finalize.
