(* ===== verification/CommandSaga.v ===== *)
(** * Booking command saga: histories

    The control database and the shards together, with everything that can
    happen to a booking command: reservations of commands, executions of any
    command that was ever handed out, by any number of coordinators that may
    stop in between, finalizations with any receipt that was ever returned,
    claims, inspections and repairs of the reconciler in any interleaving, the
    payment gateway and the expirer on the shards, and changes of the rest of
    the control database.  The clock of the control database, which does not
    go back, dates every step; the clocks of the API, the reconciler and the
    shards are free.  The identifiers of new commands are random, and so not the
    name-based ones of the cancellations of runs. *)

From S2P Require Import Prelude Transaction SegmentMask BookingDomain Sharding PaymentDomain PaymentDb PaymentClaims PaymentFinalize PaymentControl PaymentWorker BookingDb ShardDb ShardBooking ShardPayment ShardExpiry ShardLogic ShardDurable ShardInvariant ShardCalls ShardHistory ShardProperties ShardReplay ShardReceipts CommandDb CommandControl PhysicalRouter CommandReconcile CommandLogic.
Import ShardTypes.

(** What the coordinators and reconcilers hold in memory is kept beside the
    databases: the commands handed out, the receipts returned, the candidates
    claimed and the observations made. *)
Record Saga := mkSaga {
  sw_ctl : ControlDb; sw_fleet : Fleet; sw_time : Z; sw_issued : list Command; sw_receipts : list (Command * Receipt); sw_claimed : list Candidate;
  sw_seen : list (Candidate * Observation) }.

Section Saga.
Context {hashing : Hashing} {C : Type}.
Context (claim : option (IssueTicketsCommand -> list uuid -> list string -> C -> res ShardErr unit * C)).
Context (o : Options) (reg : Registry).

(** What coordinators and the calls on the shards do. *)
Inductive commandStep (w : Saga) : Saga -> Prop :=
| ss_reserve ids q now t c d : sw_time w <= t -> ~ ofRun (id_command ids) -> validReserveRequest q = true -> Reserve o ids now t q (sw_ctl w) = Ok (c, d) ->
    commandStep w (mkSaga d (sw_fleet w) t (c :: sw_issued w) (sw_receipts w) (sw_claimed w) (sw_seen w))
| ss_lifecycle id q t c d : sw_time w <= t -> ~ ofRun id -> validLifecycleRequest q = true -> ReserveLifecycle id t q (sw_ctl w) = Ok (c, d) ->
    commandStep w (mkSaga d (sw_fleet w) t (c :: sw_issued w) (sw_receipts w) (sw_claimed w) (sw_seen w))
| ss_execute router ttl now clk t c r fl : sw_time w <= t -> c ∈ sw_issued w -> Execute router ttl now clk c (sw_fleet w) = (r, fl) ->
    commandStep w (mkSaga (sw_ctl w) fl t (sw_issued w) (match r with Ok v => (c, v) :: sw_receipts w | Err _ => sw_receipts w end) (sw_claimed w) (sw_seen w))
| ss_finalize t c r d : sw_time w <= t -> (c, r) ∈ sw_receipts w -> Finalize t c r (sw_ctl w) = Ok (tt, d) ->
    commandStep w (mkSaga d (sw_fleet w) t (sw_issued w) (sw_receipts w) (sw_claimed w) (sw_seen w))
| ss_shard t e c codes : sw_time w <= t -> (forall ttl now cmd, c <> CallExecute ttl now cmd) ->
    commandStep w (mkSaga (sw_ctl w) (runCall claim e c (sw_fleet w, codes)).1 t (sw_issued w) (sw_receipts w) (sw_claimed w) (sw_seen w)).
(** What the reconciler does. *)
Inductive repairStep (w : Saga) : Saga -> Prop :=
| ss_claim worker batch ttl t cs d : sw_time w <= t -> Claim worker batch ttl t (sw_ctl w) = Ok (cs, d) ->
    repairStep w (mkSaga d (sw_fleet w) t (sw_issued w) (sw_receipts w) (cs ++ sw_claimed w) (sw_seen w))
| ss_inspect t c ob : sw_time w <= t -> c ∈ sw_claimed w -> Inspect reg c (sw_ctl w) (sw_fleet w) = Ok ob ->
    repairStep w (mkSaga (sw_ctl w) (sw_fleet w) t (sw_issued w) (sw_receipts w) (sw_claimed w) ((c, ob) :: sw_seen w))
| ss_repair now t c ob out m d : sw_time w <= t -> (c, ob) ∈ sw_seen w -> decision now t c ob = Some (out, m) -> m (sw_ctl w) = Ok (tt, d) ->
    repairStep w (mkSaga d (sw_fleet w) t (sw_issued w) (sw_receipts w) (sw_claimed w) (sw_seen w)).
(** Other parts of the system change the catalogs. *)
Inductive sagaStep (w : Saga) : Saga -> Prop :=
| ss_command w' : commandStep w w' -> sagaStep w w'
| ss_reconcile w' : repairStep w w' -> sagaStep w w'
| ss_control t v : sw_time w <= t ->
    sagaStep w (mkSaga (set_cenv (sw_ctl w) v) (sw_fleet w) t (sw_issued w) (sw_receipts w) (sw_claimed w) (sw_seen w)).

(** No command has been reserved yet. *)
Record sagaStart (w : Saga) : Prop := {
  st_commands : commands (sw_ctl w) = ∅; st_leases : leases (sw_ctl w) = ∅; st_dirs : dirs (sw_ctl w) = ∅;
  st_shards : forall s d, sw_fleet w !! s = Some d -> pristine d /\ breceipts d = ∅;
  st_issued : sw_issued w = []; st_receipts : sw_receipts w = []; st_claimed : sw_claimed w = []; st_seen : sw_seen w = [] }.
Definition sagaRun : Saga -> Saga -> Prop := rtc sagaStep.

(** ** Where a command stands *)
Definition receiptOn (fl : Fleet) (k : uuid) (r : CmdRow) (P : BState -> Prop) : Prop :=
  exists d br, fl !! bc_shard r = Some d /\ breceipts d !! k = Some br /\ bk_fp br = bc_fp r /\ P (bk_state br).
Definition succeededFor (r : CmdRow) (s : BState) : Prop := exists kind, s = BSucceeded kind (bc_reservation r).
Definition rejectedWith (s : BState) : Prop := exists code, s = BRejected code.

(** The quota lease and the directory entry of a create command, and how they
    agree with its state and with the receipt on its shard. *)
Definition createStands (t : Z) (fl : Fleet) (k : uuid) (r : CmdRow) (l : LeaseRow) (e : DirRow) : Prop :=
  match bc_state r with
  | StateReserved => dr_state e = DirPending /\ ql_state l = LeasePending
  | StateFinalized => dr_state e = DirActive /\ (ql_state l = LeaseActiveHold \/ ql_state l = LeaseReleased) /\ receiptOn fl k r (succeededFor r)
  | StateFailed => dr_state e = DirFailed /\ ql_state l = LeaseReleased /\ receiptOn fl k r rejectedWith
  | StateExpired => dr_state e = DirFailed /\ ql_state l = LeaseExpired /\ ql_expires l <= t
  | _ => False
  end.
Definition lifecycleStands (fl : Fleet) (k : uuid) (r : CmdRow) : Prop :=
  match bc_state r with
  | StateReserved => True
  | StateFinalized => receiptOn fl k r (succeededFor r)
  | StateFailed => receiptOn fl k r rejectedWith
  | _ => False
  end.
Record leaseFor (r : CmdRow) (l : LeaseRow) : Prop := { lo_owner : ql_owner l = bc_owner r; lo_run : ql_run l = bc_run r }.
Record entryFor (k : uuid) (r : CmdRow) (e : DirRow) : Prop := {
  en_command : dr_command e = Some k; en_owner : dr_owner e = bc_owner r; en_run : dr_run e = bc_run r; en_hint : dr_hint e = Some (bc_shard r, bc_gen r) }.
Definition stands (t : Z) (fl : Fleet) (d : ControlDb) (k : uuid) (r : CmdRow) : Prop :=
  if bool_decide (bc_op r = OperationCreateReservation) then
    exists l e, leases d !! k = Some l /\ leaseFor r l /\ dirs d !! bc_reservation r = Some e /\ entryFor k r e /\ createStands t fl k r l e
  else lifecycleOp (bc_op r) = true /\ (exists e, dirs d !! bc_reservation r = Some e /\ dr_state e = DirActive) /\ lifecycleStands fl k r.

(** A receipt on a shard is that of a command routed there; a successful create
    command has made its reservation. *)
Definition bookingOp (op : string) : bool := bool_decide (op = OperationCreateReservation) || lifecycleOp op.
Definition madeReservation (d : ControlDb) (sh : Shard) (k : uuid) (r : CmdRow) : Prop :=
  exists row l, resv sh !! bc_reservation r = Some row /\ rv_user row = bc_owner r /\ rv_run row = bc_run r /\ rv_gen row = bc_gen r /\
    leases d !! k = Some l /\ rv_expires row = ql_expires l.
Record receiptOf (d : ControlDb) (s : string) (sh : Shard) (k : uuid) (br : BReceipt) (r : CmdRow) : Prop := {
  ro_row : commands d !! k = Some r; ro_shard : bc_shard r = s; ro_op : bk_type br = bc_op r; ro_fp : bk_fp br = bc_fp r;
  ro_run : bk_run br = bc_run r; ro_gen : bk_gen br = bc_gen r; ro_closed : bk_state br <> BStarted;
  ro_resource : forall kind id, bk_state br = BSucceeded kind id -> id = bc_reservation r;
  ro_made : succeededFor r (bk_state br) -> bc_op r = OperationCreateReservation -> madeReservation d sh k r }.

(** A command in memory has its row; a create command's expiry is its lease's. *)
Definition backed (d : ControlDb) (c : Command) (expires : Z) : Prop :=
  exists r, commands d !! cm_id c = Some r /\ names r c /\
    (bc_op r = OperationCreateReservation -> exists l, leases d !! cm_id c = Some l /\ ql_expires l = expires).
Definition succeededAt (fl : Fleet) (c : Command) : Prop := exists d, fl !! shardID (cm_route c) = Some d /\ succeededOn c d.
Definition rejectedAt (fl : Fleet) (c : Command) : Prop :=
  exists d br, fl !! shardID (cm_route c) = Some d /\ breceipts d !! cm_id c = Some br /\ bk_fp br = cm_fp c /\ rejectedWith (bk_state br).

Record SagaInv (w : Saga) : Prop := {
  si_fleet : FleetInv (sw_fleet w);
  si_issued : forall c, c ∈ sw_issued w -> backed (sw_ctl w) c (pl_expires (cm_payload c));
  si_receipts : forall c r, (c, r) ∈ sw_receipts w -> c ∈ sw_issued w /\ succeededAt (sw_fleet w) c;
  si_claimed : forall c, c ∈ sw_claimed w -> backed (sw_ctl w) (cd_command c) (cd_expires c);
  si_seen : forall c ob, (c, ob) ∈ sw_seen w -> c ∈ sw_claimed w /\
    (ob_kind ob = ObservationCommitted -> succeededAt (sw_fleet w) (cd_command c)) /\ (ob_kind ob = ObservationRejected -> rejectedAt (sw_fleet w) (cd_command c));
  si_rows : forall k r, commands (sw_ctl w) !! k = Some r -> stands (sw_time w) (sw_fleet w) (sw_ctl w) k r;
  si_ids : forall k, is_Some (commands (sw_ctl w) !! k) -> ~ ofRun k;
  si_keys : forall k k' r r', commands (sw_ctl w) !! k = Some r -> commands (sw_ctl w) !! k' = Some r' -> sameKey r r' -> k' = k;
  si_dirs : forall j e, dirs (sw_ctl w) !! j = Some e ->
    exists k r, dr_command e = Some k /\ commands (sw_ctl w) !! k = Some r /\ bc_op r = OperationCreateReservation /\ bc_reservation r = j;
  si_shards : forall s sh k br, sw_fleet w !! s = Some sh -> breceipts sh !! k = Some br ->
    ofRun k \/ exists r, receiptOf (sw_ctl w) s sh k br r;
  si_made : forall s sh j row, sw_fleet w !! s = Some sh -> resv sh !! j = Some row ->
    exists k r, commands (sw_ctl w) !! k = Some r /\ bc_op r = OperationCreateReservation /\ bc_reservation r = j /\ bc_shard r = s /\
      receiptOn (sw_fleet w) k r (succeededFor r) }.

(** ** Steps on the shards *)
Definition kept (fl fl' : Fleet) : Prop := fleetRel settled fl fl'.
Lemma receiptOn_kept fl fl' k r P : (forall s, P s -> s <> BStarted) -> kept fl fl' -> receiptOn fl k r P -> receiptOn fl' k r P.
Proof.
  intros HP Hk (d & br & Hd & Hbr & Hfp & Hs). destruct (fleetRel_after _ _ _ _ _ Hk Hd) as (d' & Hd' & [Hdur _]). exists d', br. split_and!; try done.
  eapply kept_closedB; [exact Hdur|exact Hbr|by apply HP].
Qed.
Lemma succeededFor_closed r s : succeededFor r s -> s <> BStarted.
Proof. by intros [kind ->]. Qed.
Lemma rejectedWith_closed s : rejectedWith s -> s <> BStarted.
Proof. by intros [code ->]. Qed.
Lemma succeededAt_kept fl fl' c : kept fl fl' -> succeededAt fl c -> succeededAt fl' c.
Proof.
  intros Hk (d & Hd & br & kind & Hbr & Hfp & Hs). destruct (fleetRel_after _ _ _ _ _ Hk Hd) as (d' & Hd' & [Hdur _]). exists d'. split; [done|].
  exists br, kind. split_and!; try done. eapply kept_closedB; [exact Hdur|exact Hbr|congruence].
Qed.
Lemma rejectedAt_kept fl fl' c : kept fl fl' -> rejectedAt fl c -> rejectedAt fl' c.
Proof.
  intros Hk (d & br & Hd & Hbr & Hfp & Hs). destruct (fleetRel_after _ _ _ _ _ Hk Hd) as (d' & Hd' & [Hdur _]). exists d', br. split_and!; try done.
  eapply kept_closedB; [exact Hdur|exact Hbr|by apply rejectedWith_closed].
Qed.
Lemma stands_kept t t' fl fl' d k r : t <= t' -> kept fl fl' -> stands t fl d k r -> stands t' fl' d k r.
Proof.
  intros Ht Hk. unfold stands. case_bool_decide.
  - intros (l & e & Hl & Hlf & He & Hef & Hs). exists l, e. split_and!; try done. unfold createStands in *. destruct (bc_state r); try done.
    + destruct Hs as (? & ? & ?). split_and!; [done..|]. eapply receiptOn_kept; [apply succeededFor_closed|done|done].
    + destruct Hs as (? & ? & ?). split_and!; [done..|]. eapply receiptOn_kept; [apply rejectedWith_closed|done|done].
    + destruct Hs as (? & ? & ?). split_and!; [done..|lia].
  - intros (Hl & He & Hs). split_and!; try done. unfold lifecycleStands in *. destruct (bc_state r); try done.
    + eapply receiptOn_kept; [apply succeededFor_closed|done|done].
    + eapply receiptOn_kept; [apply rejectedWith_closed|done|done].
Qed.
Lemma receiptOf_kept d s sh sh' k br r : settled sh sh' -> receiptOf d s sh k br r -> receiptOf d s sh' k br r.
Proof.
  intros [_ Hrows] []. split; try done. intros Hs Hop. destruct (ro_made0 Hs Hop) as (row & l & Hr & Hu & Hrun & Hg & Hl & Hx).
  destruct (Hrows _ _ Hr) as (row' & Hr' & []). exists row', l. split_and!; try done; congruence.
Qed.
Lemma inv_shards w fl' t' receipts' :
  SagaInv w -> sw_time w <= t' -> kept (sw_fleet w) fl' -> FleetInv fl' ->
  (forall s sh sh' k br, sw_fleet w !! s = Some sh -> fl' !! s = Some sh' -> breceipts sh' !! k = Some br ->
     breceipts sh !! k = Some br \/ ofRun k \/ exists r, receiptOf (sw_ctl w) s sh' k br r) ->
  (forall s sh sh' j, sw_fleet w !! s = Some sh -> fl' !! s = Some sh' -> is_Some (resv sh' !! j) ->
     is_Some (resv sh !! j) \/ exists k r, commands (sw_ctl w) !! k = Some r /\ bc_op r = OperationCreateReservation /\ bc_reservation r = j /\ bc_shard r = s /\
       receiptOn fl' k r (succeededFor r)) ->
  (forall c r, (c, r) ∈ receipts' -> c ∈ sw_issued w /\ succeededAt fl' c) ->
  SagaInv (mkSaga (sw_ctl w) fl' t' (sw_issued w) receipts' (sw_claimed w) (sw_seen w)).
Proof.
  intros Hi Ht Hk Hf Hnew Hmade Hrec. destruct Hi as [Fl Is Rc Cl Se Ro Id Ke Di Sh Ma]. split; simpl; try done.
  - intros c ob Hin. destruct (Se c ob Hin) as (Hc & Hs & Hr). split_and!; [done|intros H; by eapply succeededAt_kept, Hs|intros H; by eapply rejectedAt_kept, Hr].
  - intros k r Hr. eapply stands_kept; [exact Ht|exact Hk|by apply Ro].
  - intros s sh' k br Hs' Hbr. destruct (fleetRel_before _ _ _ _ _ Hk Hs') as (sh & Hs & Hset).
    destruct (Hnew s sh sh' k br Hs Hs' Hbr) as [Hold|Hr]; [|done]. destruct (Sh s sh k br Hs Hold) as [?|(r & Hr)]; [by left|]. right. exists r. by eapply receiptOf_kept.
  - intros s sh' j row Hs' Hrow. destruct (fleetRel_before _ _ _ _ _ Hk Hs') as (sh & Hs & Hset).
    destruct (Hmade s sh sh' j Hs Hs') as [[row0 Hrow0]|?]; [by eauto| |done]. destruct (Ma s sh j row0 Hs Hrow0) as (k & r & ? & ? & ? & ? & Hro).
    exists k, r. split_and!; try done. eapply receiptOn_kept; [apply succeededFor_closed|exact Hk|done].
Qed.

Lemma runCall_kept e c fl codes : FleetInv fl -> kept fl (runCall claim e c (fl, codes)).1.
Proof.
  intros Hf. destruct (runCall_steps claim e c (fl, codes)) as [Hdom _]. split; [exact Hdom|]. intros s d d' Hd Hd'.
  destruct (runCall_settled claim e c (fl, codes) s d Hf Hd) as (d0 & Hd0 & Hs). by assert (d0 = d') as -> by congruence.
Qed.
Lemma step_shard w t e c codes :
  SagaInv w -> sw_time w <= t -> (forall ttl now cmd, c <> CallExecute ttl now cmd) ->
  SagaInv (mkSaga (sw_ctl w) (runCall claim e c (sw_fleet w, codes)).1 t (sw_issued w) (sw_receipts w) (sw_claimed w) (sw_seen w)).
Proof.
  intros Hi Ht Hc. pose proof (si_fleet _ Hi) as Hf. pose proof (runCall_kept e c (sw_fleet w) codes Hf) as Hk.
  assert (Hel : fleetRel elsewhere (sw_fleet w) (runCall claim e c (sw_fleet w, codes)).1).
  { apply (runCall_rel claim elsewhere e c (sw_fleet w, codes)). by apply other_calls_elsewhere. }
  apply inv_shards; try done.
  - by apply runCall_inv.
  - intros s sh sh' k br Hs Hs' Hbr. destruct Hel as [_ Hel]. destruct (Hel s sh sh' Hs Hs') as [_ Hb]. destruct (Hb k br Hbr); auto.
  - intros s sh sh' j Hs Hs' Hj. destruct Hel as [_ Hel]. destruct (Hel s sh sh' Hs Hs') as [Hdom _]. left. rewrite <- elem_of_dom, <- Hdom, elem_of_dom. done.
  - intros c0 r Hin. destruct (si_receipts _ Hi c0 r Hin). split; [done|by eapply succeededAt_kept].
Qed.

Lemma backed_op d c x : (forall k r, commands d !! k = Some r -> bookingOp (bc_op r) = true) -> backed d c x -> lifecycleOp (cm_op c) = false -> cm_op c = OperationCreateReservation.
Proof.
  intros Hops (r & Hr & Hn & _) Hl. specialize (Hops _ _ Hr). unfold bookingOp in Hops. rewrite (nm_op _ _ Hn), Hl, orb_false_r in Hops. by apply bool_decide_eq_true in Hops.
Qed.
Lemma stands_op t fl d k r : stands t fl d k r -> bookingOp (bc_op r) = true.
Proof. unfold stands, bookingOp. case_bool_decide; [done|]. by intros [-> _]. Qed.
Lemma Execute_kept router ttl now clk c fl : FleetInv fl -> kept fl (Execute router ttl now clk c fl).2 /\ FleetInv (Execute router ttl now clk c fl).2.
Proof.
  intros Hf. set (e := mkEnv router (fun _ _ => Err (App ErrPaymentNotFound)) clk). set (nobody := None : option (IssueTicketsCommand -> list uuid -> list string -> unit -> res ShardErr unit * unit)).
  change (Execute router ttl now clk c fl).2 with (runCall nobody e (CallExecute ttl now c) (fl, tt)).1. split; [|by apply runCall_inv].
  destruct (runCall_steps nobody e (CallExecute ttl now c) (fl, tt)) as [Hdom _]. split; [exact Hdom|]. intros s d d' Hd Hd'.
  destruct (runCall_settled nobody e (CallExecute ttl now c) (fl, tt) s d Hf Hd) as (d0 & Hd0 & Hs). by assert (d0 = d') as -> by congruence.
Qed.
(** A new receipt is that of the command. *)
Lemma written_receipt w t c d d' s :
  SagaInv w -> c ∈ sw_issued w -> receiptWritten t c d d' s ->
  exists r, receiptOf (sw_ctl w) (shardID (cm_route c)) d' (cm_id c) (closedReceipt c s) r.
Proof.
  intros Hi Hc [Hnew Ht Hrow Hst Hres Hoth]. destruct (si_issued _ Hi c Hc) as (r & Hr & Hn & Hl). exists r.
  pose proof (si_rows _ Hi _ _ Hr) as Hop%stands_op. destruct Hn as [Nop Now Nrun Nres Nfp Nsh Ng]. split; simpl; try done.
  - destruct Hst as [->|[code ->]]; done.
  - intros kind id Heq. destruct Hst as [->|[code ->]]; [|done]. congruence.
  - intros [kind Hk] Hcr. destruct Hst as [Hs|[code Hs]]; [|congruence]. assert (Hlf : lifecycleOp (cm_op c) = false) by (rewrite <- Nop, Hcr; done).
    destruct (Hres Hlf Hs) as (row & Hrv & Hu & Hrun & Hg & Hx). destruct (Hl Hcr) as (l & Hl1 & Hl2).
    exists row, l. rewrite Hrv, Nres, lookup_insert_eq. split_and!; try done; congruence.
Qed.
Lemma step_execute w router ttl now clk t c r fl :
  SagaInv w -> sw_time w <= t -> c ∈ sw_issued w -> Execute router ttl now clk c (sw_fleet w) = (r, fl) ->
  SagaInv (mkSaga (sw_ctl w) fl t (sw_issued w) (match r with Ok v => (c, v) :: sw_receipts w | Err _ => sw_receipts w end) (sw_claimed w) (sw_seen w)).
Proof.
  intros Hi Ht Hc He. pose proof (si_fleet _ Hi) as Hf. destruct (Execute_kept router ttl now clk c (sw_fleet w) Hf) as [Hk Hf']. rewrite He in Hk, Hf'. simpl in Hk, Hf'.
  apply Execute_executed in He as [Hex Hok]; [|done]. apply inv_shards; try done.
  - intros s sh sh' k br Hs Hs' Hbr. destruct Hex as [->|(d & d' & st & Hd & -> & Hw)]; [left; by assert (sh' = sh) as -> by congruence|].
    destruct (decide (shardID (cm_route c) = s)) as [<-|Hne]; [|rewrite lookup_insert_ne in Hs' by done; left; by assert (sh' = sh) as -> by congruence].
    rewrite lookup_insert_eq in Hs'. injection Hs' as <-. assert (sh = d) as -> by congruence. pose proof (rw_row _ _ _ _ _ Hw) as Hrow. rewrite Hrow in Hbr.
    destruct (decide (cm_id c = k)) as [<-|Hnk]; [|rewrite lookup_insert_ne in Hbr by done; by left]. rewrite lookup_insert_eq in Hbr. injection Hbr as <-. right; right.
    by eapply written_receipt.
  - intros s sh sh' j Hs Hs' Hj. destruct Hex as [->|(d & d' & st & Hd & -> & Hw)]; [left; by assert (sh' = sh) as -> by congruence|].
    destruct (decide (shardID (cm_route c) = s)) as [<-|Hne]; [|rewrite lookup_insert_ne in Hs' by done; left; by assert (sh' = sh) as -> by congruence].
    rewrite lookup_insert_eq in Hs'. injection Hs' as <-. assert (sh = d) as -> by congruence. pose proof (written_receipt w now c d d' st Hi Hc Hw) as (r0 & Hr0).
    assert (Hn : (lifecycleOp (cm_op c) = false /\ st = BSucceeded "reservation" (cm_reservation c)) \/
                 (lifecycleOp (cm_op c) = true \/ st <> BSucceeded "reservation" (cm_reservation c))).
    { destruct (lifecycleOp (cm_op c)); [by right; left|]. destruct (rw_state _ _ _ _ _ Hw) as [->|[code ->]]; [by left|by right; right]. }
    destruct Hn as [[Hl ->]|Hn].
    + destruct (rw_reservation _ _ _ _ _ Hw Hl eq_refl) as (row & Hrv & _). rewrite Hrv in Hj. destruct (decide (cm_reservation c = j)) as [<-|Hnj].
      * right. exists (cm_id c), r0. destruct Hr0 as [Rrow Rsh Rop Rfp Rrun Rgen Rcl Rres Rmade]. simpl in *. specialize (Rres _ _ eq_refl). split_and!; try done.
        -- pose proof (si_issued _ Hi c Hc) as Hb. eapply backed_op in Hb; [congruence| |done]. intros k r1 Hr1. by eapply stands_op, (si_rows _ Hi).
        -- exists d', (closedReceipt c (BSucceeded "reservation" (cm_reservation c))). rewrite Rsh, lookup_insert_eq, (rw_row _ _ _ _ _ Hw), lookup_insert_eq.
           split_and!; try done. exists "reservation"%string. simpl. congruence.
      * left. by rewrite lookup_insert_ne in Hj.
    + left. rewrite <- elem_of_dom, <- (rw_others _ _ _ _ _ Hw), elem_of_dom; done.
  - intros c0 v Hin. assert (Hold : (c0, v) ∈ sw_receipts w -> c0 ∈ sw_issued w /\ succeededAt fl c0).
    { intros H. destruct (si_receipts _ Hi c0 v H). split; [done|by eapply succeededAt_kept]. }
    destruct r as [v0|]; [|by apply Hold]. apply elem_of_cons in Hin as [[= -> ->]|Hin]; [|by apply Hold]. split; [done|]. by apply Hok.
Qed.

(** ** Steps on the control database *)
Record sameLease (l l' : LeaseRow) : Prop := {
  sl_owner : ql_owner l' = ql_owner l; sl_run : ql_run l' = ql_run l; sl_expires : ql_expires l' = ql_expires l;
  sl_state : ql_state l' = ql_state l \/
    (ql_state l = LeaseActiveHold \/ ql_state l = LeaseReleased) /\ ql_state l' = LeaseReleased }.
Record sameEntry (e e' : DirRow) : Prop := {
  se_command : dr_command e' = dr_command e; se_active : dr_state e = DirActive -> dr_state e' = DirActive }.
(** A step of command [k]: other commands, their leases and their directory
    entries stay what they are. *)
Record frame (k : uuid) (d d' : ControlDb) : Prop := {
  fr_commands : forall j, j <> k -> commands d' !! j = commands d !! j;
  fr_row : forall r, commands d !! k = Some r -> exists r', commands d' !! k = Some r' /\ sameCommand r r';
  fr_leases : forall j l, leases d !! j = Some l -> exists l', leases d' !! j = Some l' /\ ql_expires l' = ql_expires l /\ (j <> k -> sameLease l l');
  fr_dirs : forall j e, dirs d !! j = Some e -> exists e', dirs d' !! j = Some e' /\ sameEntry e e' /\ (dr_command e <> Some k -> e' = e) }.
Lemma stands_frame t t' fl d d' k j r : t <= t' -> frame k d d' -> j <> k -> stands t fl d j r -> stands t' fl d' j r.
Proof.
  intros Ht [Fc _ Fl Fd] Hj. unfold stands. case_bool_decide.
  - intros (l & e & Hl & [Lo Lr] & He & [Ec Eo Er Eh] & Hs). destruct (Fl j l Hl) as (l' & Hl' & _ & Hsame). destruct (Hsame Hj) as [So Sr Sx Ss].
    destruct (Fd _ e He) as (e' & He' & _ & Heq). rewrite Heq in He' by congruence. exists l', e. split_and!; [done|split; congruence|done|done|].
    unfold createStands in *. destruct (bc_state r); try done.
    + destruct Hs as [? Hp]. split; [done|]. destruct Ss as [->|[[Hx|Hx] _]]; congruence.
    + destruct Hs as (? & Hp & ?). split_and!; [done| |done]. destruct Ss as [->|[_ ?]]; auto.
    + destruct Hs as (? & Hp & ?). split_and!; [done| |done]. destruct Ss as [->|[_ ?]]; done.
    + destruct Hs as (? & Hp & ?). split_and!; [done| |lia]. destruct Ss as [->|[[Hx|Hx] _]]; congruence.
  - intros (Hl & (e & He & Ha) & Hs). split_and!; [done| |done]. destruct (Fd _ e He) as (e' & He' & [_ Hact] & _). eauto.
Qed.
Lemma backed_frame k d d' c x : frame k d d' -> backed d c x -> backed d' c x.
Proof.
  intros [Fc Fr Fl _] (r & Hr & Hn & Hl).
  assert (Hr' : exists r', commands d' !! cm_id c = Some r' /\ sameCommand r r').
  { destruct (decide (cm_id c = k)) as [<-|Hne]; [by apply Fr|]. exists r. rewrite Fc by done. split; [done|by split]. }
  destruct Hr' as (r' & Hr' & Hsame). exists r'. split_and!; [done|by eapply names_same|]. rewrite (sc_op _ _ Hsame). intros (l & Hl1 & Hl2)%Hl.
  destruct (Fl _ l Hl1) as (l' & ? & ? & _). exists l'. split; [done|congruence].
Qed.
Lemma receiptOn_same fl k r r' (P P' : BState -> Prop) : sameCommand r r' -> (forall s, P s -> P' s) -> receiptOn fl k r P -> receiptOn fl k r' P'.
Proof. intros [] HP (d & br & ? & ? & ? & ?). exists d, br. split_and!; [congruence|done|congruence|by apply HP]. Qed.
Lemma succeededFor_same r r' s : sameCommand r r' -> succeededFor r s -> succeededFor r' s.
Proof. intros [] [kind ->]. exists kind. congruence. Qed.
Lemma frame_row k d d' j r : frame k d d' -> commands d !! j = Some r -> exists r', commands d' !! j = Some r' /\ sameCommand r r'.
Proof.
  intros [Fc Fr _ _] Hr. destruct (decide (j = k)) as [->|Hne]; [by apply Fr|]. exists r. rewrite Fc by done. split; [done|by split].
Qed.
Definition uniqueKeys (d : ControlDb) : Prop := forall k k' r r', commands d !! k = Some r -> commands d !! k' = Some r' -> sameKey r r' -> k' = k.
Lemma sameKey_same r1 r1' r2 r2' : sameCommand r1 r1' -> sameCommand r2 r2' -> sameKey r1' r2' -> sameKey r1 r2.
Proof. intros [] [] (? & ? & ?). split_and!; congruence. Qed.
Lemma keys_frame k d d' :
  frame k d d' -> uniqueKeys d -> (commands d !! k = None -> forall r, commands d' !! k = Some r -> ~ ofRun k /\ keyFree r d) -> uniqueKeys d'.
Proof.
  intros Hf Hu Hnew.
  assert (Hback : forall j r', commands d' !! j = Some r' -> (exists r, commands d !! j = Some r /\ sameCommand r r') \/ (j = k /\ keyFree r' d)).
  { intros j r' Hr'. destruct (commands d !! j) as [r|] eqn:Er.
    - left. destruct (frame_row _ _ _ _ _ Hf Er) as (r1 & Hr1 & Hs). assert (r1 = r') as -> by congruence. eauto.
    - right. destruct (decide (j = k)) as [->|Hne]; [split; [done|by apply (Hnew Er)]|]. rewrite (fr_commands _ _ _ Hf) in Hr' by done. congruence. }
  intros j j' r r' Hr Hr' Hs. destruct (Hback j r Hr) as [(r0 & Hr0 & S0)|[-> Hfree]], (Hback j' r' Hr') as [(r1 & Hr1 & S1)|[-> Hfree']]; [| | |done].
  - eapply Hu; [exact Hr0|exact Hr1|]. by eapply sameKey_same.
  - exfalso. apply (Hfree' j r0 Hr0). destruct Hs as (? & ? & ?), S0. split_and!; congruence.
  - exfalso. apply (Hfree j' r1 Hr1). destruct Hs as (? & ? & ?), S1. split_and!; congruence.
Qed.
(** The step of one command preserves the invariant if its own row stands. *)
Lemma inv_control w k d' t' issued' claimed' :
  SagaInv w -> sw_time w <= t' -> frame k (sw_ctl w) d' ->
  (forall r, commands d' !! k = Some r -> stands t' (sw_fleet w) d' k r) -> (commands (sw_ctl w) !! k = None -> forall r, commands d' !! k = Some r -> ~ ofRun k /\ keyFree r (sw_ctl w)) ->
  (forall j e, dirs d' !! j = Some e -> is_Some (dirs (sw_ctl w) !! j) \/
     exists r, dr_command e = Some k /\ commands d' !! k = Some r /\ bc_op r = OperationCreateReservation /\ bc_reservation r = j) ->
  (forall c, c ∈ sw_issued w -> c ∈ issued') -> (forall c, c ∈ issued' -> c ∈ sw_issued w \/ backed d' c (pl_expires (cm_payload c))) ->
  (forall c, c ∈ sw_claimed w -> c ∈ claimed') -> (forall c, c ∈ claimed' -> c ∈ sw_claimed w \/ backed d' (cd_command c) (cd_expires c)) ->
  SagaInv (mkSaga d' (sw_fleet w) t' issued' (sw_receipts w) claimed' (sw_seen w)).
Proof.
  intros Hi Ht Hf Hk Hid Hd Hin Hin' Hcl Hcl'. destruct Hi as [Fl Is Rc Cl Se Ro Id Ke Di Sh Ma]. split; simpl; try done.
  - intros c Hc. destruct (Hin' c Hc) as [Hold|?]; [by eapply backed_frame, Is|done].
  - intros c r Hc. destruct (Rc c r Hc). auto.
  - intros c Hc. destruct (Hcl' c Hc) as [Hold|?]; [by eapply backed_frame, Cl|done].
  - intros c ob Hc. destruct (Se c ob Hc) as (? & ? & ?). auto.
  - intros j r Hr. destruct (decide (j = k)) as [->|Hne]; [by apply Hk|]. eapply stands_frame; [exact Ht|exact Hf|done|]. apply Ro. by rewrite (fr_commands _ _ _ Hf) in Hr.
  - intros j Hj. destruct (commands (sw_ctl w) !! j) as [r|] eqn:Er; [by apply Id|]. destruct (decide (j = k)) as [->|Hne]; [destruct Hj as [r Hr]; by apply (Hid Er r)|].
    rewrite (fr_commands _ _ _ Hf), Er in Hj by done. by destruct Hj.
  - by eapply keys_frame.
  - intros j e He. destruct (Hd j e He) as [[e0 He0]|?]; [|eauto]. destruct (fr_dirs _ _ _ Hf j e0 He0) as (e1 & He1 & [Hc _] & _). assert (e1 = e) as -> by congruence.
    destruct (Di j e0 He0) as (k0 & r0 & Hk0 & Hr0 & Hop & Hres). destruct (frame_row _ _ _ _ _ Hf Hr0) as (r' & Hr' & []). exists k0, r'. split_and!; congruence.
  - intros s sh j br Hs Hbr. destruct (Sh s sh j br Hs Hbr) as [?|(r & [])]; [by left|]. right. destruct (frame_row _ _ _ _ _ Hf ro_row0) as (r' & Hr' & Hsame).
    exists r'. pose proof Hsame as []. split; try congruence.
    + intros kind id Heq. rewrite (ro_resource0 kind id Heq). congruence.
    + intros Hs' Hop'. destruct ro_made0 as (row & l & ? & ? & ? & ? & Hl & Hx); [by eapply (succeededFor_same r'); [split; congruence|]|congruence|].
      destruct (fr_leases _ _ _ Hf _ _ Hl) as (l' & Hl' & Hx' & _). exists row, l'. split_and!; congruence.
  - intros s sh j row Hs Hrow. destruct (Ma s sh j row Hs Hrow) as (k0 & r0 & Hr0 & Hop & Hres & Hsh & Hro).
    destruct (frame_row _ _ _ _ _ Hf Hr0) as (r' & Hr' & Hsame). exists k0, r'. pose proof Hsame as []. split_and!; try congruence.
    eapply receiptOn_same; [exact Hsame|intros st; by apply succeededFor_same|done].
Qed.
Lemma frame_tables k d d' : tables d' = tables d -> frame k d d'.
Proof. intros [= Hc Hl Hd]. split; [by rewrite Hc|intros r; rewrite Hc; exists r; by split|intros j l; rewrite Hl; exists l; split_and!; [done..|by split; [..|left]]|]. intros j e. rewrite Hd. exists e. split_and!; [done|by split|done]. Qed.
Lemma stands_tables t t' fl d d' k r : t <= t' -> tables d' = tables d -> stands t fl d k r -> stands t' fl d' k r.
Proof. intros Ht [= _ Hl Hd] Hs. apply (stands_kept t t' fl fl) in Hs; [|done|reflexivity]. unfold stands in *. by rewrite Hl, Hd. Qed.
(** The tables of the saga stay, what is in memory may grow. *)
Lemma inv_tables w d' t' issued' claimed' :
  SagaInv w -> sw_time w <= t' -> tables d' = tables (sw_ctl w) ->
  (forall c, c ∈ sw_issued w -> c ∈ issued') -> (forall c, c ∈ issued' -> c ∈ sw_issued w \/ backed (sw_ctl w) c (pl_expires (cm_payload c))) ->
  (forall c, c ∈ sw_claimed w -> c ∈ claimed') -> (forall c, c ∈ claimed' -> c ∈ sw_claimed w \/ backed (sw_ctl w) (cd_command c) (cd_expires c)) ->
  SagaInv (mkSaga d' (sw_fleet w) t' issued' (sw_receipts w) claimed' (sw_seen w)).
Proof.
  intros Hi Ht Hd Hin Hin' Hcl Hcl'. pose proof (frame_tables uuidNil _ _ Hd) as Hf. apply (inv_control w uuidNil); try done.
  - intros r Hr. eapply stands_tables; [exact Ht|exact Hd|]. apply (si_rows _ Hi). injection Hd as Hd _ _. by rewrite <- Hd.
  - injection Hd as -> _ _. congruence.
  - intros j e He. left. injection Hd as _ _ Hd. rewrite <- Hd. eauto.
  - intros c Hc. destruct (Hin' c Hc); [by left|right; by eapply backed_frame].
  - intros c Hc. destruct (Hcl' c Hc); [by left|right; by eapply backed_frame].
Qed.

(** *** Reservations *)
Lemma step_reserve w ids q now t c d :
  SagaInv w -> sw_time w <= t -> ~ ofRun (id_command ids) -> validReserveRequest q = true -> Reserve o ids now t q (sw_ctl w) = Ok (c, d) ->
  SagaInv (mkSaga d (sw_fleet w) t (c :: sw_issued w) (sw_receipts w) (sw_claimed w) (sw_seen w)).
Proof.
  intros Hi Ht Hid Hv H. assert (Hop : rr_op q = OperationCreateReservation) by (unfold validReserveRequest in Hv; by bsplit).
  apply Reserve_Ok in H as [[H ->]|(_ & _ & Hcid & H)].
  - apply loadExisting_Ok in H as (r & l & Hr & Hn & _ & _ & _ & Hl & Hx & _).
    apply inv_tables; [done..|set_solver| |done|by left]. intros c' [->|?]%elem_of_cons; [right|by left]. exists r. split_and!; [done..|]. eauto.
  - destruct H as [Rc Rl Rd Ru (row & Hrow & Hn & Hst & Hfree & _) (l & Hl & Lo & Lr & Ls & Lx & _) (e & He & Ec & Eo & Er & Es & Eh) _ Rop _ _ _].
    assert (Hnew : commands d !! cm_id c = Some row) by (by rewrite Hrow, lookup_insert_eq). assert (Hnewl : leases d !! cm_id c = Some l) by (by rewrite Hl, lookup_insert_eq).
    pose proof Hn as [Nop Now Nrun Nres Nfp Nsh Ng]. assert (Hcreate : bc_op row = OperationCreateReservation) by congruence.
    rewrite <- Hcid in Hid. apply (inv_control w (cm_id c)); try done.
    + split; [intros j Hj; by rewrite Hrow, lookup_insert_ne|intros r; by rewrite Rc| |].
      * intros j l0 Hl0. exists l0. rewrite Hl, lookup_insert_ne by congruence. split_and!; [done..|]. by split; [..|left].
      * intros j e0 He0. exists e0. rewrite He, lookup_insert_ne by congruence. split_and!; [done|by split|done].
    + intros r. rewrite Hnew. intros [= <-]. unfold stands. rewrite bool_decide_true by done. exists l, e. rewrite He, Nres, lookup_insert_eq.
      split_and!; [done|split; congruence|done|split; congruence|]. unfold createStands. by rewrite Hst.
    + intros _ r. rewrite Hnew. by intros [= <-].
    + intros j e0. rewrite He. destruct (decide (cm_reservation c = j)) as [<-|Hne].
      * rewrite lookup_insert_eq. intros [= <-]. right. exists row. split_and!; done.
      * rewrite lookup_insert_ne by done. left. eauto.
    + set_solver.
    + intros c' [->|?]%elem_of_cons; [right|by left]. exists row. split_and!; [done..|]. eauto.
    + by left.
Qed.
Lemma step_lifecycle w id q t c d :
  SagaInv w -> sw_time w <= t -> ~ ofRun id -> validLifecycleRequest q = true -> ReserveLifecycle id t q (sw_ctl w) = Ok (c, d) ->
  SagaInv (mkSaga d (sw_fleet w) t (c :: sw_issued w) (sw_receipts w) (sw_claimed w) (sw_seen w)).
Proof.
  intros Hi Ht Hid Hv H. assert (Hop : lifecycleOp (lr_op q) = true) by (unfold validLifecycleRequest in Hv; by bsplit).
  assert (Hnc : lr_op q <> OperationCreateReservation) by (intros Heq; by rewrite Heq in Hop).
  apply ReserveLifecycle_Ok in H as [[H ->]|(Hc & <- & Hcop & Hl & Hd & _ & (row & Hrow & Hn & Hst & Hfree) & (e & He & Hact & _))].
  - apply loadExistingLifecycle_Ok in H as (r & Hr & Hn & Hrop & _). apply inv_tables; [done..|set_solver| |done|by left].
    intros c' [->|?]%elem_of_cons; [right|by left]. exists r. split_and!; [done..|]. intros Heq. congruence.
  - assert (Hnew : commands d !! cm_id c = Some row) by (by rewrite Hrow, lookup_insert_eq). pose proof (nm_op _ _ Hn) as Nop.
    apply (inv_control w (cm_id c)); try done.
    + split; [intros j Hj; by rewrite Hrow, lookup_insert_ne|intros r; by rewrite Hc| |].
      * intros j l0 Hl0. exists l0. rewrite Hl. split_and!; [done..|]. by split; [..|left].
      * intros j e0 He0. exists e0. rewrite Hd. split_and!; [done|by split|done].
    + intros r. rewrite Hnew. intros [= <-]. unfold stands. rewrite bool_decide_false by congruence. rewrite Nop, Hcop. split_and!; [done| |].
      * exists e. rewrite Hd, (nm_reservation _ _ Hn). done.
      * unfold lifecycleStands. by rewrite Hst.
    + intros _ r. rewrite Hnew. by intros [= <-].
    + intros j e0. rewrite Hd. left. eauto.
    + set_solver.
    + intros c' [->|?]%elem_of_cons; [right|by left]. exists row. split_and!; [done..|]. intros Heq. congruence.
    + by left.
Qed.

(** *** Completion of a command *)
Lemma names_unique r r' c : names r c -> names r' c -> bc_op r' = bc_op r /\ bc_reservation r' = bc_reservation r /\ bc_shard r' = bc_shard r /\ bc_gen r' = bc_gen r.
Proof. intros [] []. split_and!; congruence. Qed.
Lemma succeeded_receiptOn fl c r : names r c -> succeededAt fl c -> receiptOn fl (cm_id c) r (succeededFor r).
Proof. intros [] (d & Hd & br & kind & Hbr & Hfp & Hs). exists d, br. split_and!; try congruence. exists kind. congruence. Qed.
Lemma rejected_receiptOn fl c r : names r c -> rejectedAt fl c -> receiptOn fl (cm_id c) r rejectedWith.
Proof. intros [] (d & br & Hd & Hbr & Hfp & Hs). exists d, br. split_and!; congruence. Qed.
Lemma sameCommand_finalized resource clk r : sameCommand r (finalizedRow resource clk r).
Proof. done. Qed.
Lemma sameCommand_terminal s category clk r : sameCommand r (terminalRow s category clk r).
Proof. done. Qed.

(** The lease and the directory entry of command [k] change with it. *)
Lemma frame_create k d d' row row' l l' e e' res :
  commands d !! k = Some row -> sameCommand row row' -> leases d !! k = Some l -> ql_expires l' = ql_expires l ->
  dirs d !! res = Some e -> dr_command e = Some k -> dr_command e' = Some k -> (dr_state e = DirActive -> dr_state e' = DirActive) ->
  tables d' = (<[k := row']> (commands d), <[k := l']> (leases d), <[res := e']> (dirs d)) -> frame k d d'.
Proof.
  intros Hr Hsame Hl Hx He Hk Hk' Ha [= Hc Hle Hd]. split.
  - intros j Hj. by rewrite Hc, lookup_insert_ne.
  - intros r Hr0. assert (r = row) as -> by congruence. exists row'. by rewrite Hc, lookup_insert_eq.
  - intros j l0 Hl0. rewrite Hle. destruct (decide (k = j)) as [<-|Hne].
    + rewrite lookup_insert_eq. assert (l0 = l) as -> by congruence. exists l'. by split_and!.
    + rewrite lookup_insert_ne by done. exists l0. split_and!; [done..|]. by split; [..|left].
  - intros j e0 He0. rewrite Hd. destruct (decide (res = j)) as [<-|Hne].
    + rewrite lookup_insert_eq. assert (e0 = e) as -> by congruence. exists e'. split_and!; [done|split; [congruence|done]|done].
    + rewrite lookup_insert_ne by done. exists e0. split_and!; [done|by split|done].
Qed.
(** The invariant after a step of a create command [c] that gives its row,
    lease and entry the values [row'], [l'] and [e']. *)
Lemma inv_create w c x t d' row row' l l' e e' :
  SagaInv w -> sw_time w <= t -> backed (sw_ctl w) c x -> commands (sw_ctl w) !! cm_id c = Some row -> bc_op row = OperationCreateReservation ->
  leases (sw_ctl w) !! cm_id c = Some l -> dirs (sw_ctl w) !! cm_reservation c = Some e ->
  sameCommand row row' -> ql_owner l' = ql_owner l -> ql_run l' = ql_run l -> ql_expires l' = ql_expires l ->
  dr_command e' = dr_command e -> dr_owner e' = dr_owner e -> dr_run e' = dr_run e -> (dr_hint e' = dr_hint e \/ dr_hint e' = Some (shardID (cm_route c), generation (cm_route c))) ->
  (dr_state e = DirActive -> dr_state e' = DirActive) ->
  tables d' = (<[cm_id c := row']> (commands (sw_ctl w)), <[cm_id c := l']> (leases (sw_ctl w)), <[cm_reservation c := e']> (dirs (sw_ctl w))) ->
  (names row' c -> createStands t (sw_fleet w) (cm_id c) row' l' e') ->
  SagaInv (mkSaga d' (sw_fleet w) t (sw_issued w) (sw_receipts w) (sw_claimed w) (sw_seen w)).
Proof.
  intros Hi Ht (r0 & Hr0 & Hn & _) Hr Hop Hl He Hsame Lo Lr Lx Ec Eo Er Eh Ea Ht' Hs. assert (r0 = row) as -> by congruence.
  pose proof (si_rows _ Hi _ _ Hr) as Hst. unfold stands in Hst. rewrite bool_decide_true in Hst by done. destruct Hst as (l1 & e1 & Hl1 & [] & He1 & [Gc Go Gr Gh] & _).
  rewrite (nm_reservation _ _ Hn) in He1. assert (l1 = l) as -> by congruence. assert (e1 = e) as -> by congruence.
  pose proof (names_same _ _ _ Hsame Hn) as Hn'. pose proof Hn as []. pose proof Hsame as []. pose proof Ht' as Ht''. injection Ht'' as Hc Hle Hd.
  apply (inv_control w (cm_id c)); try done; [| |congruence| |by left|by left].
  - eapply frame_create; [exact Hr|exact Hsame|exact Hl|exact Lx|exact He|exact Gc|by rewrite Ec|exact Ea|exact Ht'].
  - intros r. rewrite Hc, lookup_insert_eq. intros [= <-]. unfold stands. rewrite bool_decide_true by congruence. exists l', e'.
    rewrite Hle, Hd, lookup_insert_eq. assert (bc_reservation row' = cm_reservation c) as -> by congruence. rewrite lookup_insert_eq.
    split_and!; [done|split; congruence|done| |by apply Hs]. split; try congruence. destruct Eh; congruence.
  - intros j e0. rewrite Hd. destruct (decide (cm_reservation c = j)) as [<-|Hne]; [left; eauto|]. rewrite lookup_insert_ne by done. left. eauto.
Qed.
Lemma updMap_insert {A} (m : gmap uuid A) k p f x : m !! k = Some x -> updMap m k p f = <[k := if p x then f x else x]> m.
Proof. intros H. unfold updMap. rewrite H. destruct (p x); [done|]. by rewrite insert_id. Qed.
Lemma create_rows w c x row :
  SagaInv w -> backed (sw_ctl w) c x -> commands (sw_ctl w) !! cm_id c = Some row -> bc_op row = OperationCreateReservation ->
  exists l e, leases (sw_ctl w) !! cm_id c = Some l /\ dirs (sw_ctl w) !! cm_reservation c = Some e /\ entryFor (cm_id c) row e /\
    createStands (sw_time w) (sw_fleet w) (cm_id c) row l e.
Proof.
  intros Hi (r0 & Hr0 & Hn & _) Hr Hop. assert (r0 = row) as -> by congruence. pose proof (si_rows _ Hi _ _ Hr) as Hst. unfold stands in Hst.
  rewrite bool_decide_true in Hst by done. destruct Hst as (l & e & Hl & _ & He & Hef & Hs). rewrite (nm_reservation _ _ Hn) in He. eauto 10.
Qed.
Lemma backed_create w c x row :
  SagaInv w -> backed (sw_ctl w) c x -> commands (sw_ctl w) !! cm_id c = Some row -> lifecycleOp (cm_op c) = false -> bc_op row = OperationCreateReservation.
Proof.
  intros Hi (r0 & Hr0 & Hn & Hx) Hrow Hlf. assert (r0 = row) as -> by congruence. rewrite (nm_op _ _ Hn). eapply backed_op; [|by exists row|done].
  intros k r1 Hr1. by eapply stands_op, (si_rows _ Hi).
Qed.
Lemma step_finalizeCreate w c x t r d :
  SagaInv w -> sw_time w <= t -> backed (sw_ctl w) c x -> lifecycleOp (cm_op c) = false -> succeededAt (sw_fleet w) c -> cr_resource r = cm_reservation c ->
  finalizeCreate t c r (sw_ctl w) = Ok (tt, d) -> SagaInv (mkSaga d (sw_fleet w) t (sw_issued w) (sw_receipts w) (sw_claimed w) (sw_seen w)).
Proof.
  intros Hi Ht Hb Hlf Hs Hres H. apply finalizeCreate_Ok in H as (row & Hrow & _ & _ & Hterm & Hd). rewrite Hres in Hd.
  pose proof (backed_create w c x row Hi Hb Hrow Hlf) as Hop.
  destruct (create_rows w c x row Hi Hb Hrow Hop) as (l & e & Hl & He & [Ec Eo Er Eh] & Hst).
  rewrite (updMap_insert _ _ _ _ _ Hl), (updMap_insert _ _ _ _ _ He) in Hd.
  assert (Hact : (bool_decide (dr_command e = Some (cm_id c)) && bool_decide (dr_state e ∈ [DirPending; DirActive])) = true /\
    (counts l = true \/ ql_state l = LeaseReleased)).
  { rewrite bool_decide_true by done. unfold createStands in Hst. destruct (bc_state row); try done.
    - destruct Hst as [-> Hp]. split; [done|]. left. unfold counts. by rewrite Hp.
    - destruct Hst as (-> & [Hp|Hp] & _); (split; [done|]); [left|by right]. unfold counts. by rewrite Hp. }
  destruct Hact as [Hact Hq]. rewrite Hact in Hd. refine (inv_create w c x t d row _ l _ e _ Hi Ht Hb Hrow Hop Hl He _ _ _ _ _ _ _ _ _ Hd _); try done; try by destruct (counts l).
  - by right.
  - intros Hn. unfold createStands. simpl. split_and!; [done| |by apply succeeded_receiptOn]. destruct Hq as [->|Hq]; [by left|].
    destruct (counts l) eqn:E; [by left|by right].
Qed.

(** The command that made an active entry has succeeded. *)
Lemma active_lease w j e :
  SagaInv w -> dirs (sw_ctl w) !! j = Some e -> dr_state e = DirActive ->
  exists k r l, dr_command e = Some k /\ commands (sw_ctl w) !! k = Some r /\ bc_op r = OperationCreateReservation /\ bc_reservation r = j /\ bc_state r = StateFinalized /\
    leases (sw_ctl w) !! k = Some l /\ (ql_state l = LeaseActiveHold \/ ql_state l = LeaseReleased).
Proof.
  intros Hi He Ha. destruct (si_dirs _ Hi j e He) as (k & r & Hk & Hr & Hop & Hres). pose proof (si_rows _ Hi _ _ Hr) as Hst. unfold stands in Hst.
  rewrite bool_decide_true in Hst by done. destruct Hst as (l & e0 & Hl & _ & He0 & _ & Hs). rewrite Hres in He0. assert (e0 = e) as -> by congruence.
  exists k, r, l. split_and!; try done; unfold createStands in Hs; destruct (bc_state r); try done; destruct Hs as (Hd & Hs); try congruence. by destruct Hs.
Qed.
Lemma freeable_hold l : ql_state l = LeaseActiveHold \/ ql_state l = LeaseReleased -> freeable l = true.
Proof. unfold freeable. by intros [-> | ->]. Qed.
(** The invariant after a step of a lifecycle command. *)
Lemma inv_lifecycle w c x t d' row row' (leases' : gmap uuid LeaseRow) :
  SagaInv w -> sw_time w <= t -> backed (sw_ctl w) c x -> commands (sw_ctl w) !! cm_id c = Some row -> lifecycleOp (bc_op row) = true -> sameCommand row row' ->
  (forall j l, leases (sw_ctl w) !! j = Some l -> exists l', leases' !! j = Some l' /\ ql_expires l' = ql_expires l /\ (j <> cm_id c -> sameLease l l')) ->
  tables d' = (<[cm_id c := row']> (commands (sw_ctl w)), leases', dirs (sw_ctl w)) -> (names row' c -> lifecycleStands (sw_fleet w) (cm_id c) row') ->
  SagaInv (mkSaga d' (sw_fleet w) t (sw_issued w) (sw_receipts w) (sw_claimed w) (sw_seen w)).
Proof.
  intros Hi Ht (r0 & Hr0 & Hn & _) Hr Hop Hsame Hle [= Hc Hl Hd] Hs. assert (r0 = row) as -> by congruence.
  pose proof (si_rows _ Hi _ _ Hr) as Hst. unfold stands in Hst. rewrite bool_decide_false in Hst by (intros Heq; by rewrite Heq in Hop). destruct Hst as (_ & He & _).
  pose proof (names_same _ _ _ Hsame Hn) as Hn'. apply (inv_control w (cm_id c)); try done; [| |congruence| |by left|by left].
  - split; [intros j Hj; by rewrite Hc, lookup_insert_ne| |by rewrite Hl|].
    + intros r Hr1. assert (r = row) as -> by congruence. exists row'. by rewrite Hc, lookup_insert_eq.
    + intros j e He0. exists e. rewrite Hd. split_and!; [done|by split|done].
  - intros r. rewrite Hc, lookup_insert_eq. intros [= <-]. unfold stands. rewrite (sc_op _ _ Hsame). rewrite bool_decide_false by (intros Heq; by rewrite Heq in Hop).
    rewrite Hd, (sc_reservation _ _ Hsame). auto.
  - intros j e. rewrite Hd. left. eauto.
Qed.
Lemma step_lifecycleFinalized w c x t resource row d :
  SagaInv w -> sw_time w <= t -> backed (sw_ctl w) c x -> commands (sw_ctl w) !! cm_id c = Some row -> lifecycleOp (cm_op c) = true -> succeededAt (sw_fleet w) c ->
  lifecycleFinalized t c resource row (sw_ctl w) d -> SagaInv (mkSaga d (sw_fleet w) t (sw_issued w) (sw_receipts w) (sw_claimed w) (sw_seen w)).
Proof.
  intros Hi Ht Hb Hrow Hop Hs Hd. pose proof Hb as (r0 & Hr0 & Hn & _). assert (r0 = row) as -> by congruence. rewrite <- (nm_op _ _ Hn) in Hop.
  eapply (inv_lifecycle w c x t d row); [done..|exact (sameCommand_finalized resource t row)| |exact Hd|].
  - intros j l Hl. pose proof (si_rows _ Hi _ _ Hrow) as Hst. unfold stands in Hst. rewrite bool_decide_false in Hst by (intros Heq; by rewrite Heq in Hop).
    destruct Hst as (_ & (e & He & Ha) & _). rewrite (nm_reservation _ _ Hn) in He. rewrite He. simpl.
    destruct (active_lease w _ e Hi He Ha) as (k & r & l0 & -> & _ & _ & _ & _ & Hl0 & Hq). simpl. rewrite lookup_updMap. destruct (decide (j = k)) as [->|Hne].
    + assert (l0 = l) as -> by congruence. rewrite Hl. simpl. rewrite (freeable_hold _ Hq). eexists. split; [done|]. split; [done|]. intros _. split; try done. by right.
    + exists l. split_and!; [done..|]. by split; [..|left].
  - intros Hn'. unfold lifecycleStands. simpl. by apply succeeded_receiptOn.
Qed.
Lemma step_finalize w t c r d :
  SagaInv w -> sw_time w <= t -> (c, r) ∈ sw_receipts w -> Finalize t c r (sw_ctl w) = Ok (tt, d) ->
  SagaInv (mkSaga d (sw_fleet w) t (sw_issued w) (sw_receipts w) (sw_claimed w) (sw_seen w)).
Proof.
  intros Hi Ht Hin H. destruct (si_receipts _ Hi _ _ Hin) as [Hc Hs]. pose proof (si_issued _ Hi _ Hc) as Hb. unfold Finalize in H.
  destruct (receiptFor c r) eqn:Er; [|done]. simpl in H. assert (Hres : cr_resource r = cm_reservation c) by (unfold receiptFor in Er; by bsplit).
  fold (lifecycleOp (cm_op c)) in H. destruct (lifecycleOp (cm_op c)) eqn:El.
  - apply finalizeLifecycle_Ok in H as (row & Hrow & _ & _ & _ & Hd). by eapply step_lifecycleFinalized.
  - by eapply step_finalizeCreate.
Qed.

(** *** The reconciler *)
Lemma repairCreate_step w c x t d :
  SagaInv w -> sw_time w <= t -> backed (sw_ctl w) c x -> lifecycleOp (cm_op c) = false -> succeededAt (sw_fleet w) c ->
  repairCreate t c (sw_ctl w) = Ok (tt, d) -> SagaInv (mkSaga d (sw_fleet w) t (sw_issued w) (sw_receipts w) (sw_claimed w) (sw_seen w)).
Proof.
  intros Hi Ht Hb Hlf Hs H. apply repairCreate_Ok in H as (row & l & e & Hrow & Hterm & Hl & He & Hk & _ & Hd).
  pose proof (backed_create w c x row Hi Hb Hrow Hlf) as Hop.
  refine (inv_create w c x t d row _ l _ e _ Hi Ht Hb Hrow Hop Hl He _ _ _ _ _ _ _ _ _ Hd _); try done; [by right|].
  intros Hn. unfold createStands. simpl. split_and!; [done|by left|by apply succeeded_receiptOn].
Qed.
Lemma repairFinalize_step w c x t r d :
  SagaInv w -> sw_time w <= t -> backed (sw_ctl w) c x -> succeededAt (sw_fleet w) c ->
  repairFinalize t c r (sw_ctl w) = Ok (tt, d) -> SagaInv (mkSaga d (sw_fleet w) t (sw_issued w) (sw_receipts w) (sw_claimed w) (sw_seen w)).
Proof.
  intros Hi Ht Hb Hs H. unfold repairFinalize in H. destruct (receiptFor c r); [|done]. simpl in H. destruct (lifecycleOp (cm_op c)) eqn:El.
  - apply repairLifecycle_Ok in H as (row & Hrow & _ & Hd). by eapply step_lifecycleFinalized.
  - by eapply repairCreate_step.
Qed.
(** A terminal failure: rejected on the shard, or expired. *)
Definition terminalCause (fl : Fleet) (c : Command) (target : CommandState) (quota : LeaseState) : Prop :=
  (target = StateFailed /\ quota = LeaseReleased /\ rejectedAt fl c) \/ (target = StateExpired /\ quota = LeaseExpired /\ cm_op c = OperationCreateReservation).
Lemma terminal_step w c x t target category quota d :
  SagaInv w -> sw_time w <= t -> backed (sw_ctl w) c x -> terminalCause (sw_fleet w) c target quota ->
  terminal t c target category quota (sw_ctl w) = Ok (tt, d) -> SagaInv (mkSaga d (sw_fleet w) t (sw_issued w) (sw_receipts w) (sw_claimed w) (sw_seen w)).
Proof.
  intros Hi Ht Hb Hcause H. apply terminal_Ok in H as (row & Hrow & Hnf & Hd). pose proof Hb as (r0 & Hr0 & Hn & _). assert (r0 = row) as -> by congruence.
  unfold terminated in Hd. case_bool_decide as Hop.
  - destruct Hd as (l & e & Hl & Hx & He & Hk & Hst & Hd). assert (Hop' : bc_op row = OperationCreateReservation) by (rewrite (nm_op _ _ Hn); done).
    refine (inv_create w c x t d row _ l _ e _ Hi Ht Hb Hrow Hop' Hl He _ _ _ _ _ _ _ _ _ Hd _); try done; [by left| |].
    + intros Ha. exfalso. rewrite Ha in Hst. by apply elem_of_cons in Hst as [?|Hst%list_elem_of_singleton].
    + intros Hn'. unfold createStands. simpl. destruct Hcause as [(-> & -> & Hr)|(-> & -> & _)]; split_and!; try done; [by apply rejected_receiptOn|by apply Hx].
  - assert (Hlf : lifecycleOp (bc_op row) = true).
    { destruct (lifecycleOp (bc_op row)) eqn:E; [done|]. rewrite (nm_op _ _ Hn) in E. pose proof (backed_create w c x row Hi Hb Hrow E) as Heq. by rewrite (nm_op _ _ Hn) in Heq. }
    eapply (inv_lifecycle w c x t d row); [done..|exact (sameCommand_terminal target category t row)| |exact Hd|].
    + intros j l Hl. exists l. split_and!; [done..|]. by split; [..|left].
    + intros Hn'. unfold lifecycleStands. simpl. destruct Hcause as [(-> & -> & Hr)|(_ & _ & ?)]; [by apply rejected_receiptOn|done].
Qed.
Lemma step_repair w now t c ob out m d :
  SagaInv w -> sw_time w <= t -> (c, ob) ∈ sw_seen w -> decision now t c ob = Some (out, m) -> m (sw_ctl w) = Ok (tt, d) ->
  SagaInv (mkSaga d (sw_fleet w) t (sw_issued w) (sw_receipts w) (sw_claimed w) (sw_seen w)).
Proof.
  intros Hi Ht Hin Hdec H. destruct (si_seen _ Hi _ _ Hin) as (Hc & Hcom & Hrej). pose proof (si_claimed _ Hi _ Hc) as Hb.
  unfold decision in Hdec. destruct (ob_kind ob) eqn:Ek; try done.
  - destruct (_ || _) eqn:E; [done|]. injection Hdec as <- <-. bsplit. eapply terminal_step; [exact Hi|exact Ht|exact Hb|by right|exact H].
  - injection Hdec as <- <-. eapply repairFinalize_step; [exact Hi|exact Ht|exact Hb|by apply Hcom|exact H].
  - injection Hdec as <- <-. eapply terminal_step; [exact Hi|exact Ht|exact Hb|left; split_and!; [done..|by apply Hrej]|exact H].
Qed.

Lemma ResolveHandle_Ok d s h : ResolveHandle reg d s = Ok h -> h = s.
Proof. unfold ResolveHandle, registryResolve. intros H. repeat case_match; simplify_eq; done. Qed.
(** What an inspection reports is on the shard of the command. *)
Lemma Inspect_Ok c d fl ob :
  Inspect reg c d fl = Ok ob ->
  (ob_kind ob = ObservationCommitted -> succeededAt fl (cd_command c)) /\ (ob_kind ob = ObservationRejected -> rejectedAt fl (cd_command c)) /\
  (ob_kind ob = ObservationMissing -> exists sh, fl !! shardID (cm_route (cd_command c)) = Some sh /\ breceipts sh !! cm_id (cd_command c) = None).
Proof.
  unfold Inspect. destruct (validCandidate c) eqn:Ev; [|done]. simpl. unfold inspectorInspect. destruct (ResolveHandle _ _ _) as [s|] eqn:Es; [|done]. apply ResolveHandle_Ok in Es as ->.
  simpl. destruct (fl !! _) as [sh|] eqn:Ef; [|done]. unfold inspectReceipt. destruct (breceipts sh !! _) as [br|] eqn:Eb; simpl.
  - destruct (_ || _) eqn:Ei; [done|]. assert (Hnil : cm_id (cd_command c) <> uuidNil) by (unfold validCandidate in Ev; by bsplit).
    clear Ei. destruct (bk_state br) as [|kind id|code] eqn:Est; simpl.
    + destruct (validObservation _ _); [|done]. by intros [= <-].
    + destruct (bool_decide (cm_op _ = _)); simpl; [done|]. unfold validObservation. simpl. rewrite (bool_decide_false (cm_id (cd_command c) = uuidNil)) by done. simpl.
      rewrite bool_decide_true by done. simpl. destruct (negb (bk_fp br =? cm_fp (cd_command c))%N) eqn:Efp; [done|]. destruct (bool_decide (id = _)) eqn:Hid; simpl; [|done].
      intros [= <-]. simpl. split; [|done]. intros _. exists sh. split; [done|]. exists br, kind. bsplit. split_and!; congruence.
    + unfold validObservation. simpl. rewrite (bool_decide_true (cm_id (cd_command c) = cm_id (cd_command c))) by done. simpl.
      destruct (negb (bk_fp br =? cm_fp (cd_command c))%N) eqn:Efp; simpl; [done|]. destruct (_ && _); simpl; [|done].
      intros [= <-]. simpl. split_and!; [done| |done]. intros _. exists sh, br. bsplit. split_and!; try done. by exists code.
  - intros [= <-]. simpl. split_and!; [done..|]. eauto.
Qed.
Lemma step_inspect w t c ob :
  SagaInv w -> sw_time w <= t -> c ∈ sw_claimed w -> Inspect reg c (sw_ctl w) (sw_fleet w) = Ok ob ->
  SagaInv (mkSaga (sw_ctl w) (sw_fleet w) t (sw_issued w) (sw_receipts w) (sw_claimed w) ((c, ob) :: sw_seen w)).
Proof.
  intros Hi Ht Hc (Hcom & Hrej & _)%Inspect_Ok. destruct Hi as [Fl Is Rc Cl Se Ro Id Ke Di Sh Ma]. split; simpl; try done.
  - intros c' ob' [[= -> ->]|Hin]%elem_of_cons; [done|by apply Se].
  - intros k r Hr. eapply stands_tables; [exact Ht|done|by apply Ro].
Qed.

(** A claim changes no more than who works on a command, and until when. *)
Lemma inv_restated w k r r' :
  SagaInv w -> commands (sw_ctl w) !! k = Some r -> sameCommand r r' -> bc_state r' = bc_state r ->
  SagaInv (mkSaga (set_commands (sw_ctl w) (<[k := r']> (commands (sw_ctl w)))) (sw_fleet w) (sw_time w) (sw_issued w) (sw_receipts w) (sw_claimed w) (sw_seen w)).
Proof.
  intros Hi Hr Hsame Hst. apply (inv_control w k); try done; [| |congruence| |by left|by left]; simpl.
  - split; simpl; [intros j Hj; by rewrite lookup_insert_ne| | |].
    + intros r0 Hr0. assert (r0 = r) as -> by congruence. exists r'. by rewrite lookup_insert_eq.
    + intros j l Hl. exists l. split_and!; [done..|]. by split; [..|left].
    + intros j e He. exists e. split_and!; [done|by split|done].
  - intros r0. rewrite lookup_insert_eq. intros [= <-]. pose proof (si_rows _ Hi _ _ Hr) as Hs. unfold stands in *. rewrite (sc_op _ _ Hsame). case_bool_decide.
    + destruct Hs as (l & e & Hl & [Lo Lr] & He & [Ec Eo Er Eh] & Hs). exists l, e. pose proof Hsame as [Sop Sow Sru Sre Ske Sfp Ssh Sge]. rewrite Sre.
      split_and!; try done; [split; congruence|split; congruence|].
      unfold createStands in *. rewrite Hst. destruct (bc_state r); try done; destruct Hs as (? & ? & Hro); split_and!; try done.
      * eapply receiptOn_same; [exact Hsame|intros st; by apply succeededFor_same|done].
      * eapply receiptOn_same; [exact Hsame|done|done].
    + destruct Hs as (Hop & He & Hs). rewrite (sc_reservation _ _ Hsame). split_and!; try done. unfold lifecycleStands in *. rewrite Hst. destruct (bc_state r); try done.
      * eapply receiptOn_same; [exact Hsame|intros st; by apply succeededFor_same|done].
      * eapply receiptOn_same; [exact Hsame|done|done].
  - intros j e He. left. eauto.
Qed.
Lemma inv_claimRows w worker until clk rows :
  SagaInv w -> (forall kr, kr ∈ rows -> commands (sw_ctl w) !! kr.1 = Some kr.2) ->
  SagaInv (mkSaga (claimRows worker until clk rows (sw_ctl w)) (sw_fleet w) (sw_time w) (sw_issued w) (sw_receipts w) (sw_claimed w) (sw_seen w)) /\
  (forall k r, commands (sw_ctl w) !! k = Some r -> exists r', commands (claimRows worker until clk rows (sw_ctl w)) !! k = Some r' /\ sameCommand r r' /\ bc_state r' = bc_state r).
Proof.
  intros Hi. induction rows as [|[k r] rows IH]; intros Hrows.
  - split; [|intros k r Hr; by exists r]. apply inv_tables; [done|done|by destruct (sw_ctl w)|done|by left|done|by left].
  - destruct IH as [Hi1 Hkeep]; [intros kr Hkr; apply Hrows; by right|]. specialize (Hrows (k, r) (list_elem_of_here _ _)). simpl in Hrows.
    destruct (Hkeep k r Hrows) as (r1 & Hr1 & Hsame & Hst). split.
    + apply (inv_restated _ k r1 (leasedRow worker until clk r)) in Hi1; [exact Hi1|exact Hr1| |done]. destruct Hsame. by split.
    + intros k0 r0 Hr0. simpl. destruct (decide (k = k0)) as [<-|Hne]; [rewrite lookup_insert_eq; assert (r0 = r) as -> by congruence; by eexists|].
      rewrite lookup_insert_ne by done. by apply Hkeep.
Qed.
Lemma candidatesOf_Ok clk d rows cs c :
  candidatesOf clk d rows = Ok cs -> c ∈ cs -> exists k r, (k, r) ∈ rows /\ cm_id (cd_command c) = k /\ names r (cd_command c) /\
    (forall l, leases d !! k = Some l -> cd_expires c = ql_expires l).
Proof.
  revert cs. induction rows as [|[k r] rows IH]; simpl; intros cs; [intros [= <-]; by intros ?%elem_of_nil|].
  destruct (negb _); [done|]. destruct (routeOf _ _ _) as [route|] eqn:Er; [|done]. simpl. destruct (candidatesOf clk d rows) as [cs'|]; [|done].
  intros [= <-] [->|Hin]%elem_of_cons.
  - apply routeOf_Ok in Er as (-> & _). exists k, r. split_and!; [by left|done|done|]. simpl. by intros l ->.
  - destruct (IH cs' eq_refl Hin) as (k0 & r0 & ? & ?). exists k0, r0. split; [by right|done].
Qed.
Lemma Claim_Ok worker batch ttl t d cs d' :
  Claim worker batch ttl t d = Ok (cs, d') ->
  exists rows, candidatesOf t d rows = Ok cs /\ d' = claimRows worker (t + ttl) t rows d /\ forall kr, kr ∈ rows -> commands d !! kr.1 = Some kr.2.
Proof.
  intros H. unfold Claim in H. apply sbind_Ok in H as (? & ? & [_ <-]%guardS_Ok & H). apply sbind_Ok in H as (? & ? & [<- <-]%shard_Ok & H). cbv zeta in H.
  apply sbind_Ok in H as (cs' & ? & [Hcs <-]%reads_Ok & H). apply sbind_Ok in H as (? & d1 & <-%modify_Ok & [<- <-]%sret_Ok).
  eexists. split; [exact Hcs|]. split; [done|]. intros [k r] Hin. unfold byId in Hin. rewrite sortBy_Permutation in Hin. unfold claimable in Hin. apply elem_of_take in Hin as (i & Hin & _).
  apply list_elem_of_lookup_2 in Hin. rewrite sortBy_Permutation in Hin. by apply list_elem_of_filter in Hin as [_ Hin%elem_of_map_to_list].
Qed.
Lemma step_claim w worker batch ttl t cs d :
  SagaInv w -> sw_time w <= t -> Claim worker batch ttl t (sw_ctl w) = Ok (cs, d) ->
  SagaInv (mkSaga d (sw_fleet w) t (sw_issued w) (sw_receipts w) (cs ++ sw_claimed w) (sw_seen w)).
Proof.
  intros Hi Ht (rows & Hcs & -> & Hrows)%Claim_Ok.
  destruct (inv_claimRows w worker (t + ttl) t rows Hi Hrows) as [Hi1 Hkeep]. apply (inv_tables _ (claimRows worker (t + ttl) t rows (sw_ctl w)) t (sw_issued w) (cs ++ sw_claimed w)) in Hi1; try done.
  - by left.
  - set_solver.
  - simpl. intros c [Hc|Hc]%elem_of_app; [right|by left]. destruct (candidatesOf_Ok _ _ _ _ _ Hcs Hc) as (k & r & Hin & Hk & Hn & Hl).
    specialize (Hrows _ Hin). simpl in Hrows. destruct (Hkeep k r Hrows) as (r' & Hr' & Hsame & _). exists r'. rewrite Hk. split_and!; [done|by eapply names_same|].
    rewrite (sc_op _ _ Hsame). intros Hop. pose proof (si_rows _ Hi _ _ Hrows) as Hs. unfold stands in Hs. rewrite bool_decide_true in Hs by done.
    destruct Hs as (l & _ & Hl0 & _). exists l. split; [done|]. by rewrite (Hl l Hl0).
Qed.

(** ** Every history *)
Lemma start_inv w : sagaStart w -> SagaInv w.
Proof.
  intros [Hc Hl Hd Hs Hi Hr Hcl Hse]. split.
  - intros s d Hsd. by apply pristine_ShInv, (Hs s d).
  - rewrite Hi. by intros c ?%elem_of_nil.
  - rewrite Hr. by intros c r ?%elem_of_nil.
  - rewrite Hcl. by intros c ?%elem_of_nil.
  - rewrite Hse. by intros c ob ?%elem_of_nil.
  - rewrite Hc. by intros k r ?%lookup_empty_Some.
  - rewrite Hc. by intros k [r ?%lookup_empty_Some].
  - rewrite Hc. by intros k k' r r' ?%lookup_empty_Some.
  - rewrite Hd. by intros j e ?%lookup_empty_Some.
  - intros s sh k br Hsd Hbr. destruct (Hs s sh Hsd) as [_ Hb]. rewrite Hb in Hbr. by apply lookup_empty_Some in Hbr.
  - intros s sh j row Hsd Hrow. destruct (Hs s sh Hsd) as [Hp _]. by rewrite (pr_resv _ Hp) in Hrow.
Qed.
Lemma commandStep_inv w w' : SagaInv w -> commandStep w w' -> SagaInv w'.
Proof. intros Hi []; eauto using step_reserve, step_lifecycle, step_execute, step_finalize, step_shard. Qed.
Lemma repairStep_inv w w' : SagaInv w -> repairStep w w' -> SagaInv w'.
Proof. intros Hi []; eauto using step_claim, step_inspect, step_repair. Qed.
Lemma sagaStep_inv w w' : SagaInv w -> sagaStep w w' -> SagaInv w'.
Proof.
  intros Hi []; [by eapply commandStep_inv|by eapply repairStep_inv|]. apply inv_tables; try done; by left.
Qed.
Lemma sagaRun_inv w w' : SagaInv w -> sagaRun w w' -> SagaInv w'.
Proof. intros Hi H. induction H; eauto using sagaStep_inv. Qed.
End Saga.
