(* ===== verification/CommandQuota.v ===== *)
(** * Booking command saga: quota

    How many holds a user may have: what the commands do to the leases that the
    quota query counts, over histories without repairs; and what a repair does
    to a lease that has been released. *)

From S2P Require Import Prelude Transaction SegmentMask BookingDomain Sharding PaymentDomain PaymentDb PaymentClaims PaymentFinalize PaymentControl PaymentWorker BookingDb ShardDb ShardBooking ShardPayment ShardExpiry ShardLogic ShardDurable ShardInvariant ShardCalls ShardHistory ShardProperties ShardReplay ShardReceipts CommandDb CommandControl PhysicalRouter CommandReconcile CommandLogic CommandSaga.
Import ShardTypes.

(** ** Counting over a table *)
Section Counting.
Context {A B : Type}.
Implicit Types (g : uuid * A -> option B) (m : gmap uuid A).
Definition keyed g (kl : uuid * A) : option (uuid * B) := (fun x => (kl.1, x)) <$> g kl.
Lemma omap_keyed g l : omap g l = (omap (keyed g) l).*2.
Proof. induction l as [|kl l IH]; [done|]. csimpl. unfold keyed at 1. destruct (g kl); csimpl; by rewrite IH. Qed.
Lemma keyed_NoDup g m : NoDup (omap (keyed g) (map_to_list m)).
Proof.
  apply (NoDup_fmap_1 fst). assert (Hsub : forall l : list (uuid * A), (omap (keyed g) l).*1 `sublist_of` l.*1).
  { induction l as [|kl l IH]; [done|]. csimpl. unfold keyed at 1. destruct (g kl); csimpl; by constructor. }
  exact (sublist_NoDup _ _ (NoDup_fst_map_to_list m) (Hsub _)).
Qed.
Lemma omap_rows_sub g g' m m' :
  (forall k l' x, m' !! k = Some l' -> g' (k, l') = Some x -> exists l, m !! k = Some l /\ g (k, l) = Some x) ->
  omap g' (map_to_list m') ⊆+ omap g (map_to_list m).
Proof.
  intros H. rewrite (omap_keyed g'), (omap_keyed g). apply fmap_submseteq, NoDup_submseteq; [apply keyed_NoDup|]. intros [k x] Hin.
  apply list_elem_of_omap in Hin as ([k' l'] & Hl'%elem_of_map_to_list & Hg). unfold keyed in Hg. destruct (g' _) as [y|] eqn:E; [|done]. simpl in Hg. injection Hg as <- <-.
  destruct (H _ _ _ Hl' E) as (l & Hl & Hx). apply list_elem_of_omap. exists (k', l). split; [by apply elem_of_map_to_list|]. unfold keyed. by rewrite Hx.
Qed.
Lemma omap_rows_insert g m k l : m !! k = None -> omap g (map_to_list (<[k := l]> m)) ≡ₚ option_list (g (k, l)) ++ omap g (map_to_list m).
Proof. intros Hk. rewrite (map_to_list_insert _ _ _ Hk). simpl. by destruct (g (k, l)). Qed.
End Counting.

(** ** Holds *)
Definition holdOf (user : uuid) (d : ControlDb) (kl : uuid * LeaseRow) : option (uuid * Z) :=
  match commands d !! kl.1 with
  | Some c => if bool_decide (ql_owner kl.2 = user) && countedLease (ql_state kl.2) && negb (legacyFor user (bc_reservation c) d)
              then Some (ql_run kl.2, ql_count kl.2) else None
  | None => None
  end.
Lemma activePhysical_holds user d : activePhysical user d = omap (holdOf user d) (map_to_list (leases d)).
Proof. done. Qed.

(** A lease is that of a command and counts passengers. *)
Definition leased (d : ControlDb) : Prop := forall k l, leases d !! k = Some l -> is_Some (commands d !! k) /\ 0 < ql_count l.
(** The legacy claims stay and no new lease counts. *)
Record fewer (d d' : ControlDb) : Prop := {
  fw_env : cenv d' = cenv d;
  fw_leases : forall k l', leases d' !! k = Some l' -> exists l, leases d !! k = Some l /\ ql_owner l' = ql_owner l /\ ql_run l' = ql_run l /\
    ql_count l' = ql_count l /\ (countedLease (ql_state l') = true -> countedLease (ql_state l) = true);
  fw_commands : forall k r, commands d !! k = Some r -> exists r', commands d' !! k = Some r' /\ bc_reservation r' = bc_reservation r }.
Lemma fewer_leased d d' : fewer d d' -> leased d -> leased d'.
Proof.
  intros [_ Hl Hc] H k l' Hl'. destruct (Hl k l' Hl') as (l & Hl0 & _ & _ & -> & _). destruct (H k l Hl0) as [[r Hr] Hp]. split; [|done].
  destruct (Hc k r Hr) as (r' & ? & _). eauto.
Qed.
Lemma fewer_refl d : fewer d d.
Proof. split; [done| |]; eauto 10. Qed.
Lemma fewer_physical d d' user : leased d -> fewer d d' -> activePhysical user d' ⊆+ activePhysical user d.
Proof.
  intros Hd [He Hl Hc]. rewrite !activePhysical_holds. apply omap_rows_sub. intros k l' x Hl' Hx. destruct (Hl k l' Hl') as (l & Hl0 & Ho & Hr & Hn & Hs).
  exists l. split; [done|]. destruct (Hd k l Hl0) as [[r Hrow] _]. destruct (Hc k r Hrow) as (r' & Hrow' & Hres). unfold holdOf, legacyFor in *. simpl in *.
  rewrite Hrow. rewrite Hrow', Hres, He, Ho, Hr, Hn in Hx. destruct (countedLease (ql_state l')) eqn:E; [by rewrite (Hs eq_refl)|].
  rewrite andb_false_r in Hx. done.
Qed.
Lemma physical_positive user d rc : leased d -> rc ∈ activePhysical user d -> 0 < rc.2.
Proof.
  intros Hd. rewrite activePhysical_holds. intros ([k l] & Hl%elem_of_map_to_list & Hx)%list_elem_of_omap. unfold holdOf in Hx. simpl in Hx.
  destruct (commands d !! k); [|done]. destruct (_ && _); [|done]. injection Hx as <-. by apply (Hd k l).
Qed.

(** ** Within the limits *)
Definition holdsOfRun (run : uuid) (l : list (uuid * Z)) : nat := length (filter (fun rc => rc.1 = run) l).
(** The holds [L] and [P] of a user, if there are any in [P]. *)
Record limits (o : Options) (L P : list (uuid * Z)) : Prop := {
  lm_holds : P <> [] -> Z.of_nat (length (L ++ P)) <= op_holds o;
  lm_passengers : P <> [] -> sumCounts (L ++ P) <= op_passengers o;
  lm_run : forall run, run ∈ P.*1 -> Z.of_nat (holdsOfRun run (L ++ P)) <= op_runHolds o }.
Lemma sumCounts_app a b : sumCounts (a ++ b) = sumCounts a + sumCounts b.
Proof. unfold sumCounts. induction a as [|x a IH]; simpl; [done|]. rewrite IH. lia. Qed.
#[export] Instance sumCounts_Permutation : Proper (Permutation ==> eq) sumCounts.
Proof. intros a b H. unfold sumCounts. induction H; simpl; lia. Qed.
Lemma sumCounts_sub a b : a ⊆+ b -> (forall rc, rc ∈ b -> 0 < rc.2) -> sumCounts a <= sumCounts b.
Proof.
  intros (c & Hp)%submseteq_Permutation Hpos. rewrite Hp, sumCounts_app. assert (Hc : 0 <= sumCounts c); [|lia].
  assert (Hpos' : forall rc, rc ∈ c -> 0 < rc.2) by (intros rc Hrc; apply Hpos; rewrite Hp; set_solver). clear - Hpos'. unfold sumCounts.
  induction c as [|x c IH]; simpl; [done|]. pose proof (Hpos' x (list_elem_of_here _ _)). specialize (IH (fun rc Hrc => Hpos' rc (list_elem_of_further _ _ _ Hrc))). lia.
Qed.
Lemma holdsOfRun_app run a b : holdsOfRun run (a ++ b) = (holdsOfRun run a + holdsOfRun run b)%nat.
Proof. unfold holdsOfRun. by rewrite filter_app, length_app. Qed.
Lemma holdsOfRun_sub run a b : a ⊆+ b -> (holdsOfRun run a <= holdsOfRun run b)%nat.
Proof. intros (c & Hp)%submseteq_Permutation. unfold holdsOfRun. rewrite Hp, filter_app, length_app. lia. Qed.
Lemma limits_sub o L P P' : P' ⊆+ P -> (forall rc, rc ∈ P -> 0 < rc.2) -> limits o L P -> limits o L P'.
Proof.
  intros Hs Hpos [H1 H2 H3]. assert (Hne : P' <> [] -> P <> []) by (intros Hn ->; by apply submseteq_nil_r in Hs). split.
  - intros Hn%Hne%H1. pose proof (submseteq_length _ _ Hs). rewrite length_app in *. lia.
  - intros Hn%Hne%H2. pose proof (sumCounts_sub _ _ Hs Hpos). rewrite sumCounts_app in *. lia.
  - intros run Hin. assert (Hin' : run ∈ P.*1).
    { apply list_elem_of_fmap in Hin as (rc & -> & Hrc). apply list_elem_of_fmap_2. by eapply elem_of_submseteq. }
    specialize (H3 run Hin'). pose proof (holdsOfRun_sub run _ _ Hs). rewrite holdsOfRun_app in *. lia.
Qed.
(** One more hold that the quota query lets through. *)
Lemma limits_cons o L P run n :
  Z.of_nat (length (L ++ P)) + 1 <= op_holds o -> Z.of_nat (holdsOfRun run (L ++ P)) + 1 <= op_runHolds o -> sumCounts (L ++ P) + n <= op_passengers o ->
  limits o L P -> limits o L ((run, n) :: P).
Proof.
  intros H1 H2 H3 [_ _ Hr]. rewrite length_app in H1. rewrite holdsOfRun_app in H2. rewrite sumCounts_app in H3. split.
  - intros _. rewrite length_app. simpl. lia.
  - intros _. rewrite sumCounts_app. change (sumCounts ((run, n) :: P)) with (n + sumCounts P). lia.
  - intros run'. rewrite fmap_cons, holdsOfRun_app. simpl. change (holdsOfRun run' ((run, n) :: P)) with (holdsOfRun run' ([(run, n)] ++ P)). rewrite holdsOfRun_app.
    destruct (decide (run' = run)) as [->|Hne].
    + intros _. unfold holdsOfRun at 2. rewrite filter_cons_True by done. simpl. lia.
    + intros Hin. assert (Hin' : run' ∈ P.*1) by set_solver. specialize (Hr run' Hin'). rewrite holdsOfRun_app in Hr. unfold holdsOfRun at 2.
      rewrite filter_cons_False by (simpl; congruence). simpl. lia.
Qed.

Record QuotaInv (o : Options) (d : ControlDb) : Prop := {
  qi_leased : leased d; qi_limits : forall user, limits o (activeLegacy user d) (activePhysical user d) }.
Lemma fewer_inv o d d' : fewer d d' -> QuotaInv o d -> QuotaInv o d'.
Proof.
  intros Hf [Hl Hu]. split; [by eapply fewer_leased|]. intros user. unfold activeLegacy. rewrite (fw_env _ _ Hf).
  eapply limits_sub; [by apply fewer_physical| |apply Hu]. intros rc. by apply physical_positive.
Qed.
Lemma reserved_inv o q c d d' : 0 < rr_count q -> overQuota o q d = false -> reservedAs q c d d' -> QuotaInv o d -> QuotaInv o d'.
Proof.
  intros Hpos Hq [Rc Rl Rd Ru (row & Hrow & Hn & _) (l & Hl & Lo & Lr & Ls & _ & Lc) _ _ _ Ro Rr Re] [Hle Hu].
  assert (Hle' : leased d').
  { intros k l0. rewrite Hl, Hrow. destruct (decide (cm_id c = k)) as [<-|Hne].
    - rewrite !lookup_insert_eq. intros [= <-]. split; [done|lia].
    - rewrite !lookup_insert_ne by done. apply Hle. }
  split; [done|]. intros user. unfold activeLegacy. rewrite Re. fold (activeLegacy user d).
  rewrite (activePhysical_holds user d'), Hl. pose proof (omap_rows_insert (holdOf user d') (leases d) (cm_id c) l Rl) as Hp.
  set (old := omap (holdOf user d') (map_to_list (leases d))) in *.
  assert (Hold : old ⊆+ activePhysical user d).
  { rewrite activePhysical_holds. apply omap_rows_sub. intros k l' x Hl' Hx. exists l'. split; [done|]. destruct (Hle k l' Hl') as [[r Hr] _].
    unfold holdOf, legacyFor in *. simpl in *. rewrite Re in Hx. rewrite Hrow, lookup_insert_ne in Hx by congruence. done. }
  assert (Hlim : limits o (activeLegacy user d) old) by (eapply limits_sub; [exact Hold|intros rc; by apply physical_positive|apply Hu]).
  eapply limits_sub; [rewrite Hp; reflexivity| |].
  { intros rc Hrc. rewrite <- Hp in Hrc. rewrite <- Hl in Hrc. by apply (physical_positive user d'). }
  destruct (holdOf user d' (cm_id c, l)) as [[run n]|] eqn:Eh; [|done]. simpl. unfold holdOf in Eh. simpl in Eh. rewrite Hrow, lookup_insert_eq in Eh.
  destruct (_ && _) eqn:Eb; [|done]. injection Eh as <- <-. bsplit. subst user. unfold overQuota in Hq. cbv zeta in Hq. bsplit.
  assert (Howner : rr_owner q = ql_owner l) by congruence. rewrite Howner in *. rewrite <- Rr, <- Lr in *. rewrite Lc.
  assert (Hsub : activeLegacy (ql_owner l) d ++ old ⊆+ countedHolds (ql_owner l) d) by (apply submseteq_app; done).
  pose proof (submseteq_length _ _ Hsub). pose proof (holdsOfRun_sub (ql_run l) _ _ Hsub). unfold holdsOfRun in *.
  pose proof (sumCounts_sub _ _ Hold (fun rc => physical_positive _ d rc Hle)). unfold countedHolds in *. rewrite !sumCounts_app in *.
  apply limits_cons; [lia|unfold holdsOfRun; lia|rewrite sumCounts_app; lia|done].
Qed.

(** ** The commands *)
Definition sameEnv (d d' : ControlDb) : Prop := cenv d' = cenv d.
#[export] Instance sameEnv_preorder : PreOrder sameEnv.
Proof. split; [done|]. unfold sameEnv. congruence. Qed.
Create HintDb control discriminated.
Lemma env_updCommand k f d d' : updCommand k f d = Some d' -> sameEnv d d'.
Proof. by intros (r & _ & ->)%updCommand_Some. Qed.
Lemma env_ifAny (s : ControlDb -> option ControlDb) : (forall d d', s d = Some d' -> sameEnv d d') -> forall d, sameEnv d (ifAny s d).
Proof. intros H d. unfold ifAny. destruct (s d) as [d'|] eqn:E; [by apply H|done]. Qed.
Lemma env_updLease k from f d d' : updLease k from f d = Some d' -> sameEnv d d'.
Proof. by intros (l & _ & _ & ->)%updLease_Some. Qed.
Lemma env_updDirectory k c from f d d' : updDirectory k c from f d = Some d' -> sameEnv d d'.
Proof. by intros (e & _ & _ & _ & ->)%updDirectory_Some. Qed.
Lemma env_putReservationLocator k r d d' : putReservationLocator k r d = Some d' -> sameEnv d d'.
Proof. unfold putReservationLocator. intros H. by repeat case_match; simplify_eq. Qed.
Lemma env_putOrderLocator k r d d' : putOrderLocator k r d = Some d' -> sameEnv d d'.
Proof. unfold putOrderLocator. intros H. by repeat case_match; simplify_eq. Qed.
Lemma env_putTicketLocator k r d d' : putTicketLocator k r d = Some d' -> sameEnv d d'.
Proof. unfold putTicketLocator. intros H. by repeat case_match; simplify_eq. Qed.
Lemma env_putTicketCode k r d d' : putTicketCode k r d = Some d' -> sameEnv d d'.
Proof. unfold putTicketCode. intros H. by repeat case_match; simplify_eq. Qed.
Lemma env_releaseQuota j clk d : sameEnv d (releaseQuota j clk d).
Proof. unfold releaseQuota. destruct (dirs d !! j) as [e|]; [|done]. destruct (dr_command e); [|done]. apply env_ifAny. intros ? ?. apply env_updLease. Qed.
#[export] Hint Resolve env_updCommand env_updLease env_updDirectory env_putReservationLocator env_putOrderLocator env_putTicketLocator env_putTicketCode : control.

(** One statement after the other. *)
Ltac follow_env :=
  repeat first [ apply respects_bind; [apply _| |intros ?] | apply respects_reads; apply _ | apply respects_guard; apply _ | apply respects_ret; apply _
               | apply respects_shard; apply _ | apply respects_raise | apply respects_one; intros ? ?; eauto with control
               | apply respects_modify; intros ?; try apply env_ifAny; intros; eauto with control ].

Section Commands.
Context {hashing : Hashing}.
Lemma env_insFinalEvent k d : sameEnv d (insFinalEvent k d).
Proof. unfold insFinalEvent. by destruct (finals d !! _). Qed.
Lemma finalizeCreate_env clk c r : respects sameEnv (finalizeCreate clk c r).
Proof. unfold finalizeCreate, cx. follow_env. apply env_insFinalEvent. Qed.
Lemma insertTicketLocators_env c r l : respects sameEnv (insertTicketLocators c r l).
Proof. induction l as [|[t k] l IH]; simpl; unfold cx; follow_env. done. Qed.
Lemma advanceReservation_env e c : respects sameEnv (advanceReservationLifecycle e c).
Proof.
  intros d s d'. unfold advanceReservationLifecycle. cbv zeta. intros H. apply sbind_Ok in H as (? & ? & [<- <-]%shard_Ok & H).
  destruct (advanceLifecycle _ _ _ _ _ d) as [[st d1]|] eqn:E; [|by apply raise_Ok in H]. assert (Hd : sameEnv d d1).
  { unfold advanceLifecycle in E. by repeat case_match; simplify_eq. }
  case_bool_decide; [|by apply raise_Ok in H]. by apply sbind_Ok in H as (? & ? & <-%modify_Ok & [_ <-]%sret_Ok).
Qed.
#[local] Opaque advanceReservationLifecycle.
Lemma finalizeLifecycle_env clk c r : respects sameEnv (finalizeLifecycle clk c r).
Proof.
  unfold finalizeLifecycle, cx. follow_env; [apply advanceReservation_env| |apply env_releaseQuota|apply env_insFinalEvent].
  case_bool_decide; [follow_env; apply insertTicketLocators_env|]. case_bool_decide; follow_env. done.
Qed.

(** A finalization counts no lease that did not count. *)
Lemma Finalize_fewer clk c r d d' : Finalize clk c r d = Ok (tt, d') -> fewer d d'.
Proof.
  unfold Finalize. destruct (receiptFor c r); [|done]. simpl. destruct (_ || _); intros H.
  - pose proof (finalizeLifecycle_env clk c r d _ _ H) as He. apply finalizeLifecycle_Ok in H as (row & Hrow & _ & _ & _ & [= Hc Hl Hd]). split; [done| |].
    + intros k l'. rewrite Hl. destruct (dirs d !! cm_reservation c ≫= dr_command) as [k0|]; [|eauto 10]. rewrite lookup_updMap.
      destruct (decide (k = k0)) as [->|]; [|eauto 10]. destruct (leases d !! k0) as [l|]; [|done]. simpl. intros [= <-]. exists l. by destruct (freeable l).
    + intros k r0 Hr0. rewrite Hc. destruct (decide (cm_id c = k)) as [<-|Hne]; [|rewrite lookup_insert_ne by done; eauto].
      rewrite lookup_insert_eq. assert (r0 = row) as -> by congruence. eauto.
  - pose proof (finalizeCreate_env clk c r d _ _ H) as He. apply finalizeCreate_Ok in H as (row & Hrow & _ & _ & _ & [= Hc Hl Hd]). split; [done| |].
    + intros k l'. rewrite Hl, lookup_updMap. destruct (decide (k = cm_id c)) as [->|]; [|eauto 10]. destruct (leases d !! cm_id c) as [l|]; [|done]. simpl. intros [= <-].
      exists l. destruct (counts l) eqn:E; [|done]. split_and!; done.
    + intros k r0 Hr0. rewrite Hc. destruct (decide (cm_id c = k)) as [<-|Hne]; [|rewrite lookup_insert_ne by done; eauto].
      rewrite lookup_insert_eq. assert (r0 = row) as -> by congruence. eauto.
Qed.
Lemma ReserveLifecycle_fewer id clk q d c d' : ReserveLifecycle id clk q d = Ok (c, d') -> fewer d d'.
Proof.
  intros [[_ ->]|(Hc & _ & _ & Hl & Hd & He & (row & Hrow & _) & _)]%ReserveLifecycle_Ok; [apply fewer_refl|]. split; [done|rewrite Hl; eauto 10|].
  intros k r Hr. rewrite Hrow, lookup_insert_ne by congruence. eauto.
Qed.

Context {C : Type} (claim : option (IssueTicketsCommand -> list uuid -> list string -> C -> res ShardErr unit * C)) (o : Options) (reg : Registry).
Lemma commandStep_quota w w' : QuotaInv o (sw_ctl w) -> commandStep claim o w w' -> QuotaInv o (sw_ctl w').
Proof.
  intros Hq []; simpl; try done.
  - assert (Hpos : 0 < rr_count q) by (unfold validReserveRequest in *; bsplit; lia).
    match goal with H : Reserve _ _ _ _ _ _ = _ |- _ => apply Reserve_Ok in H as [[_ ->]|(_ & Hov & _ & Hr)] end; [done|]. by eapply reserved_inv.
  - eapply fewer_inv; [by eapply ReserveLifecycle_fewer|done].
  - eapply fewer_inv; [by eapply Finalize_fewer|done].
Qed.


(** ** Repairs of released leases *)
Lemma inspect_committed w c k r kind :
  SagaInv w -> commands (sw_ctl w) !! k = Some r -> validCandidate c = true -> cm_id (cd_command c) = k -> names r (cd_command c) ->
  bc_op r <> OperationConfirmReservation -> is_ok (ResolveHandle reg (sw_ctl w) (bc_shard r)) = true ->
  receiptOn (sw_fleet w) k r (fun s => s = BSucceeded kind (bc_reservation r)) ->
  Inspect reg c (sw_ctl w) (sw_fleet w) =
    Ok (observed ObservationCommitted k (bc_fp r) (bc_reservation r) "" (mkReceipt k (bc_fp r) (bc_reservation r) ReceiptCommitted uuidNil 0 [] [] 0 0 "" 0)).
Proof.
  intros Hi Hr Hv Hk Hn Hop Hres (sh & br & Hs & Hbr & Hfp & Hst). destruct Hn as [N1 N2 N3 N4 N5 N6 N7].
  assert (Hnil : k <> uuidNil) by (unfold validCandidate in Hv; rewrite <- Hk; by bsplit).
  destruct (si_shards _ Hi _ _ _ _ Hs Hbr) as [Hrun|(r0 & [R1 R2 R3 R4 R5 R6 R7 R8 R9])]; [exfalso; eapply (si_ids _ Hi); [|exact Hrun]; eauto|].
  assert (r0 = r) as -> by congruence. unfold Inspect, inspectorInspect. rewrite Hv, <- N6. simpl. destruct (ResolveHandle _ _ _) as [s|] eqn:Es; [|done]. apply ResolveHandle_Ok in Es as ->.
  simpl. rewrite Hs. unfold inspectReceipt. rewrite Hk, Hbr, R3, R5, R6, <- N1, <- N3, <- N7, Hst. rewrite !bool_decide_true by done. rewrite Z.eqb_refl. simpl.
  rewrite (bool_decide_false (bc_op r = _)) by done. simpl. unfold validObservation. simpl. rewrite (bool_decide_false (k = uuidNil)) by done. simpl.
  rewrite Hk, <- N4, <- N5, Hfp, N.eqb_refl, !bool_decide_true by done. done.
Qed.

(** a lease that was released when its reservation was confirmed or
    cancelled counts again: the finalized create command is a candidate of the
    reconciler for as long as its lease is not an active hold, and its repair
    succeeds and makes the lease an active hold. *)
Theorem released_hold_recounted w0 w k r l e c clk now :
  sagaStart w0 -> sagaRun claim o reg w0 w -> commands (sw_ctl w) !! k = Some r -> bc_op r = OperationCreateReservation -> bc_state r = StateFinalized ->
  leases (sw_ctl w) !! k = Some l -> ql_state l = LeaseReleased -> bc_lease r = None -> dirOf k (sw_ctl w) = Some e ->
  candidateOf clk (sw_ctl w) (k, r) = Ok c -> validCandidate c = true -> is_ok (ResolveHandle reg (sw_ctl w) (bc_shard r)) = true ->
  rlocs (sw_ctl w) !! bc_reservation r = Some (locatorOf (cd_command c)) ->
  eligible clk (sw_ctl w) k r = true /\
  exists d' l', Repair reg now clk c (sw_ctl w, sw_fleet w) = ((OutcomeFinalized, None), d') /\ leases d' !! k = Some l' /\ countedLease (ql_state l') = true.
Proof.
  intros Hst Hrun Hr Hop Hs Hl Hq Hfree Hdir Hc Hv Hres Hloc. assert (Hi : SagaInv w) by (eapply sagaRun_inv, Hrun; by apply start_inv). split.
  { unfold eligible. rewrite Hfree, bool_decide_true, Hl, Hdir, Hs, Hq by done. by destruct e. }
  assert (Hn : cm_id (cd_command c) = k /\ names r (cd_command c)).
  { unfold candidateOf in Hc. destruct (negb _); [done|]. destruct (routeOf _ _ _) as [route|] eqn:Er; [|done]. apply routeOf_Ok in Er as (-> & _). by injection Hc as <-. }
  destruct Hn as [Hk Hn]. pose proof (si_rows _ Hi _ _ Hr) as Hst'. unfold stands in Hst'. rewrite bool_decide_true in Hst' by done.
  destruct Hst' as (l0 & e0 & Hl0 & _ & He0 & [Ec _ _ _] & Hcs). unfold createStands in Hcs. rewrite Hs in Hcs. destruct Hcs as (Hact & _ & sh & br & Hsh & Hbr & Hfp & kind & Hkind).
  unfold Repair. rewrite (inspect_committed w c k r kind Hi Hr Hv Hk Hn); [|by rewrite Hop|done|by exists sh, br]. destruct Hn as [N1 N2 N3 N4 N5 N6 N7].
  unfold decision, observed. cbn [ob_kind ob_receipt cr_command]. rewrite (bool_decide_false (k = uuidNil)) by (unfold validCandidate in Hv; rewrite <- Hk; by bsplit).
  unfold repairFinalize, receiptFor. cbn [cr_status cr_command cr_resource cr_fp]. rewrite Hk, <- N4, <- N5, <- N1, Hop, N.eqb_refl, !bool_decide_true by done.
  simpl. unfold commit, repairCreate, rx, lockAndVerify, updCommand, updDirectory, putReservationLocator, updLease, guardS, reads, one, modify, mbind, Txn_bind, mret, Txn_ret.
  rewrite Hk, <- N4, <- N5, Hr, N.eqb_refl, bool_decide_true by done. simpl. rewrite Hs. simpl. rewrite Hr. simpl. rewrite He0. simpl.
  rewrite Ec, Hact, bool_decide_true by done. simpl. rewrite Hloc. simpl. rewrite !bool_decide_true by done. simpl. rewrite Hl, Hq. simpl. eexists _, _. split; [done|].
  pose proof (insFinalEvent_tables k) as Ht. match goal with |- leases (insFinalEvent k ?d) !! _ = _ /\ _ => specialize (Ht d) end. injection Ht as _ -> _. simpl. by rewrite lookup_insert_eq.
Qed.
End Commands.
