(* ===== verification/CommandProperties.v ===== *)
(** * Booking command saga: what it promises

    The control database and the shards agree; the coordinator and the
    reconciler are runs of the saga; the quota of a user is kept as long as
    nothing is repaired; a saga cut short is completed by the next attempt; and
    what the error paths answer. *)

From S2P Require Import Prelude Transaction SegmentMask BookingDomain Sharding PaymentDomain PaymentDb PaymentClaims PaymentFinalize PaymentControl PaymentWorker BookingDb ShardDb ShardBooking ShardPayment ShardExpiry ShardLogic ShardDurable ShardInvariant ShardCalls ShardHistory ShardProperties ShardReplay ShardReceipts CommandDb CommandControl PhysicalRouter CommandReconcile CommandLogic CommandSaga.
Import ShardTypes.

Section Properties.
Context {hashing : Hashing} {C : Type}.
Context (claim : option (IssueTicketsCommand -> list uuid -> list string -> C -> res ShardErr unit * C)).
Context (o : Options) (reg : Registry).
Abbreviation run := (sagaRun claim o reg).

(** ** Agreement *)
Lemma made_by w k r :
  SagaInv w -> commands (sw_ctl w) !! k = Some r -> bc_op r = OperationCreateReservation -> receiptOn (sw_fleet w) k r (succeededFor r) ->
  exists sh, sw_fleet w !! bc_shard r = Some sh /\ madeReservation (sw_ctl w) sh k r.
Proof.
  intros Hi Hr Hop (sh & br & Hs & Hbr & _ & Hst). exists sh. split; [done|]. destruct (si_shards _ Hi _ _ _ _ Hs Hbr) as [Hrun|(r0 & Hr0)].
  - exfalso. eapply (si_ids _ Hi); [|exact Hrun]. eauto.
  - assert (r0 = r) as -> by (pose proof (ro_row _ _ _ _ _ _ Hr0); congruence). by apply (ro_made _ _ _ _ _ _ Hr0).
Qed.
(** One create command for a reservation. *)
Lemma create_unique w k k' r r' :
  SagaInv w -> commands (sw_ctl w) !! k = Some r -> commands (sw_ctl w) !! k' = Some r' -> bc_op r = OperationCreateReservation ->
  bc_op r' = OperationCreateReservation -> bc_reservation r' = bc_reservation r -> k' = k.
Proof.
  intros Hi Hr Hr' Hop Hop' Heq. pose proof (si_rows _ Hi _ _ Hr) as H1. pose proof (si_rows _ Hi _ _ Hr') as H2. unfold stands in H1, H2.
  rewrite bool_decide_true in H1, H2 by done. destruct H1 as (_ & e1 & _ & _ & He1 & [Hc1 _ _ _] & _). destruct H2 as (_ & e2 & _ & _ & He2 & [Hc2 _ _ _] & _).
  rewrite Heq in He2. congruence.
Qed.
Lemma reservation_of w s sh k r row :
  SagaInv w -> commands (sw_ctl w) !! k = Some r -> bc_op r = OperationCreateReservation -> sw_fleet w !! s = Some sh -> resv sh !! bc_reservation r = Some row ->
  bc_shard r = s /\ receiptOn (sw_fleet w) k r (succeededFor r).
Proof.
  intros Hi Hr Hop Hs Hrow. destruct (si_made _ Hi _ _ _ _ Hs Hrow) as (k' & r' & Hr' & Hop' & Heq & Hsh & Hro).
  assert (k' = k) as -> by (by eapply create_unique). by assert (r' = r) as -> by congruence.
Qed.

(** C14: whatever coordinators, the reconciler, the payment gateway and the
    expirer do, in any interleaving and with any of them stopping anywhere: a
    create command has its quota lease and its directory entry, which names the
    shard and the generation it was routed to; while it is reserved both are
    pending; when it is finalized the entry is active and the reservation is on
    that shard, the user's; when it has failed its quota is free and no shard
    has the reservation; when it has expired its quota is free and any
    reservation it left on a shard is overdue.  Every reservation on a shard is
    that of exactly one create command, routed to that shard, and belongs to
    its user. *)
Theorem booking_saga_agrees w0 w :
  sagaStart w0 -> run w0 w ->
  (forall k r, commands (sw_ctl w) !! k = Some r -> bc_op r = OperationCreateReservation ->
     exists l e, leases (sw_ctl w) !! k = Some l /\ dirs (sw_ctl w) !! bc_reservation r = Some e /\ entryFor k r e /\
       match bc_state r with
       | StateReserved => dr_state e = DirPending /\ ql_state l = LeasePending
       | StateFinalized => dr_state e = DirActive /\ exists sh row, sw_fleet w !! bc_shard r = Some sh /\ resv sh !! bc_reservation r = Some row /\
           rv_user row = bc_owner r /\ rv_run row = bc_run r /\ rv_gen row = bc_gen r
       | StateFailed => dr_state e = DirFailed /\ countedLease (ql_state l) = false /\ forall s sh, sw_fleet w !! s = Some sh -> resv sh !! bc_reservation r = None
       | StateExpired => dr_state e = DirFailed /\ countedLease (ql_state l) = false /\
           forall s sh row, sw_fleet w !! s = Some sh -> resv sh !! bc_reservation r = Some row -> rv_expires row <= sw_time w
       | _ => False
       end) /\
  (forall s sh j row, sw_fleet w !! s = Some sh -> resv sh !! j = Some row ->
     exists k r, commands (sw_ctl w) !! k = Some r /\ bc_op r = OperationCreateReservation /\ bc_reservation r = j /\ bc_shard r = s /\ rv_user row = bc_owner r /\
       forall k' r', commands (sw_ctl w) !! k' = Some r' -> bc_op r' = OperationCreateReservation -> bc_reservation r' = j -> k' = k).
Proof.
  intros Hst Hrun. assert (Hi : SagaInv w) by (eapply sagaRun_inv, Hrun; by apply start_inv). split.
  - intros k r Hr Hop. pose proof (si_rows _ Hi _ _ Hr) as Hs. unfold stands in Hs. rewrite bool_decide_true in Hs by done. destruct Hs as (l & e & Hl & _ & He & Hef & Hs).
    exists l, e. split_and!; [done..|]. unfold createStands in Hs. destruct (bc_state r); try done.
    + destruct Hs as (Hd & _ & Hro). split; [done|]. destruct (made_by w k r Hi Hr Hop Hro) as (sh & Hsh & row & l0 & Hrow & Hu & Hrn & Hg & _). eauto 10.
    + destruct Hs as (Hd & Hq & Hro). rewrite Hq. split_and!; [done..|]. intros s sh Hsh. apply eq_None_not_Some. intros [row Hrow].
      destruct (reservation_of w s sh k r row Hi Hr Hop Hsh Hrow) as (_ & d & br & Hd1 & Hbr & _ & kind & Hk).
      destruct Hro as (d' & br' & Hd2 & Hbr' & _ & code & Hc). congruence.
    + destruct Hs as (Hd & Hq & Hx). rewrite Hq. split_and!; [done..|]. intros s sh row Hsh Hrow.
      destruct (reservation_of w s sh k r row Hi Hr Hop Hsh Hrow) as (<- & Hro). destruct (made_by w k r Hi Hr Hop Hro) as (sh' & Hsh' & row' & l0 & Hrow' & _ & _ & _ & Hl0 & Hx').
      assert (sh' = sh) as -> by congruence. assert (row' = row) as -> by congruence. assert (l0 = l) as -> by congruence. lia.
  - intros s sh j row Hs Hrow. destruct (si_made _ Hi _ _ _ _ Hs Hrow) as (k & r & Hr & Hop & Heq & Hsh & Hro). exists k, r. split_and!; try done.
    + destruct (made_by w k r Hi Hr Hop Hro) as (sh' & Hsh' & row' & l0 & Hrow' & Hu & _). subst j s. assert (sh' = sh) as -> by congruence. congruence.
    + intros k' r' Hr' Hop' Heq'. eapply create_unique; [done|exact Hr|exact Hr'|done|done|congruence].
Qed.

(** ** The coordinator and the reconciler are runs of the saga *)
Definition reaches (w : Saga) (t : Z) (x : SagaWorld) : Prop := exists w', run w w' /\ sw_ctl w' = x.1 /\ sw_fleet w' = x.2 /\ sw_time w' <= t.
Lemma reaches_here w t : sw_time w <= t -> reaches w t (sw_ctl w, sw_fleet w).
Proof. intros Ht. exists w. split; [apply rtc_refl|done]. Qed.
Lemma reaches_step w w' t x : sagaStep claim o reg w w' -> reaches w' t x -> reaches w t x.
Proof. intros Hs (w1 & Hr & Hx). exists w1. split; [by eapply rtc_l|done]. Qed.
(** Where the databases are those of a world. *)
Ltac here := first [by apply reaches_here; simpl; lia | apply (reaches_here (mkSaga _ _ _ _ _ _ _)); simpl; lia].
Lemma onShardReceipt_reaches w e c fin :
  c ∈ sw_issued w -> sw_time w <= sg_finalize e -> reaches w (sg_finalize e) (onShardReceipt e c fin (sw_ctl w) (sw_fleet w)).2.
Proof.
  intros Hc Ht. unfold onShardReceipt. destruct (Execute _ _ _ _ _ _) as [r fl] eqn:E.
  pose proof (ss_execute claim o w _ _ _ _ (sw_time w) _ _ _ ltac:(lia) Hc E) as Hstep. eapply reaches_step; [by apply ss_command|]. clear Hstep.
  destruct r as [v|x]; [|here]. destruct (receiptFor c v); [|here]. destruct fin; [|here]. simpl. unfold commit.
  destruct (Finalize _ _ _ _) as [[[] d']|x] eqn:Ef; [|here]. eapply reaches_step; [apply ss_command; eapply (ss_finalize claim o _ (sg_finalize e))|]; [done|by left|exact Ef|].
  here.
Qed.
(** The clock of the control database during a call. *)
Record timely (w : Saga) (e : SagaEnv) : Prop := {
  ty_reserve : sw_time w <= sg_reserve e; ty_finalize : sg_reserve e <= sg_finalize e; ty_id : ~ ofRun (id_command (sg_ids e)) }.
Lemma ExecuteCreate_reaches w e q : timely w e -> reaches w (sg_finalize e) (ExecuteCreate o e q (sw_ctl w, sw_fleet w)).2.
Proof.
  intros [T1 T2 T3]. unfold ExecuteCreate. destruct (validReserveRequest q) eqn:Ev; [|here]. simpl. unfold commit.
  destruct (Reserve _ _ _ _ _ _) as [[c d1]|x] eqn:E; [|here]. eapply reaches_step; [apply ss_command; by eapply ss_reserve|].
  destruct (validCommandForRequest c q); [|here]. simpl. case_bool_decide; [here|].
  destruct (terminalState _); [here|].
  pose proof (onShardReceipt_reaches (mkSaga d1 (sw_fleet w) (sg_reserve e) (c :: sw_issued w) (sw_receipts w) (sw_claimed w) (sw_seen w)) e c true
    (list_elem_of_here _ _) T2) as Hon. simpl in Hon. by destruct (onShardReceipt _ _ _ _ _).
Qed.
Lemma ExecuteLifecycle_reaches w e q : timely w e -> reaches w (sg_finalize e) (ExecuteLifecycle e q (sw_ctl w, sw_fleet w)).2.
Proof.
  intros [T1 T2 T3]. unfold ExecuteLifecycle. destruct (validLifecycleRequest q) eqn:Ev; [|here]. simpl. unfold commit.
  destruct (ReserveLifecycle _ _ _ _) as [[c d1]|x] eqn:E; [|here]. eapply reaches_step; [apply ss_command; by eapply ss_lifecycle|].
  destruct (validLifecycleCommand c q); [|here]. simpl. destruct (terminalState _); [here|].
  set (fin := negb (bool_decide (cm_state c = StateFinalized))).
  pose proof (onShardReceipt_reaches (mkSaga d1 (sw_fleet w) (sg_reserve e) (c :: sw_issued w) (sw_receipts w) (sw_claimed w) (sw_seen w)) e c fin
    (list_elem_of_here _ _) T2) as Hon. simpl in Hon. by destruct (onShardReceipt _ _ _ _ _).
Qed.
Lemma repairAll_reaches w now clk cs :
  (forall c, c ∈ cs -> c ∈ sw_claimed w) -> sw_time w <= clk -> reaches w clk (repairAll reg now clk cs (sw_ctl w, sw_fleet w)).2.
Proof.
  revert w. induction cs as [|c cs IH]; intros w Hin Ht; [here|]. simpl. unfold Repair.
  assert (Hrest : forall c', c' ∈ cs -> c' ∈ sw_claimed w) by (intros c' Hc'; apply Hin; by right).
  destruct (Inspect reg c _ _) as [ob|x] eqn:Ei; [|specialize (IH w Hrest Ht); by destruct (repairAll _ _ _ _ _)].
  pose proof (ss_inspect reg w clk c ob Ht (Hin c (list_elem_of_here _ _)) Ei) as H1. set (w1 := mkSaga _ _ _ _ _ _ _) in H1.
  pose proof (IH w1 Hrest ltac:(simpl; lia)) as IH1. destruct (decision now clk c ob) as [[out m]|] eqn:Ed.
  2: { eapply reaches_step; [by apply ss_reconcile|]. simpl in IH1. by destruct (repairAll _ _ _ _ _). }
  eapply reaches_step; [apply ss_reconcile, H1|]. unfold commit. destruct (m (sw_ctl w)) as [[[] d']|x] eqn:Em; [|simpl in IH1; by destruct (repairAll _ _ _ _ _)].
  pose proof (ss_repair reg w1 now clk c ob out m d' ltac:(simpl; lia) (list_elem_of_here _ _) Ed Em) as H2. set (w2 := mkSaga _ _ _ _ _ _ _) in H2.
  eapply reaches_step; [apply ss_reconcile, H2|]. specialize (IH w2 Hrest ltac:(simpl; lia)). simpl in IH. by destruct (repairAll _ _ _ _ _).
Qed.

(** C15: every call of the coordinator, for a new reservation or for a
    confirmation or cancellation, and every round of the reconciler leaves the
    control database and the shards in a state that a run of the saga reaches,
    as long as the clock of the control database does not go back. *)
Theorem calls_are_saga_runs w e :
  timely w e ->
  (forall q, reaches w (sg_finalize e) (ExecuteCreate o e q (sw_ctl w, sw_fleet w)).2) /\
  (forall q, reaches w (sg_finalize e) (ExecuteLifecycle e q (sw_ctl w, sw_fleet w)).2) /\
  (forall worker batch ttl now, reaches w (sg_reserve e) (RunOnceReconcile reg worker batch ttl now (sg_reserve e) (sw_ctl w, sw_fleet w)).2).
Proof.
  intros Ht. pose proof (ty_reserve _ _ Ht). split_and!; [intros q; by apply ExecuteCreate_reaches|intros q; by apply ExecuteLifecycle_reaches|]. intros worker batch ttl now.
  unfold RunOnceReconcile, commit. destruct (Claim _ _ _ _ _) as [[cs d]|x] eqn:E; [|here].
  pose proof (ss_claim reg w _ _ _ _ _ _ (ty_reserve _ _ Ht) E) as H1. set (w1 := mkSaga _ _ _ _ _ _ _) in H1. eapply reaches_step; [apply ss_reconcile, H1|].
  destruct (batch <? _); [by apply (reaches_here w1)|]. assert (Hin : forall c, c ∈ cs -> c ∈ sw_claimed w1) by (simpl; set_solver).
  pose proof (repairAll_reaches w1 now (sg_reserve e) cs Hin ltac:(simpl; lia)) as Hall. simpl in Hall. by destruct (repairAll _ _ _ _ _).
Qed.

(** ** One command for a request *)
Definition rowsKept (d d' : ControlDb) : Prop := forall k r, commands d !! k = Some r -> exists r', commands d' !! k = Some r' /\ sameCommand r r'.
#[local] Instance rowsKept_preorder : PreOrder rowsKept.
Proof.
  split; [intros d k r Hr; by exists r|]. intros d1 d2 d3 H1 H2 k r Hr. destruct (H1 k r Hr) as (r' & Hr' & []). destruct (H2 k r' Hr') as (r2 & Hr2 & []).
  exists r2. split; [done|]. split; congruence.
Qed.
Lemma rowsKept_insert d d' k r r' : commands d !! k = Some r -> sameCommand r r' -> commands d' = <[k := r']> (commands d) -> rowsKept d d'.
Proof.
  intros Hr Hs Hd j r0 Hr0. rewrite Hd. destruct (decide (k = j)) as [<-|Hne]; [|rewrite lookup_insert_ne by done; by exists r0].
  rewrite lookup_insert_eq. assert (r0 = r) as -> by congruence. eauto.
Qed.
Lemma rowsKept_new d d' k r' : commands d !! k = None -> commands d' = <[k := r']> (commands d) -> rowsKept d d'.
Proof. intros Hr Hd j r0 Hr0. rewrite Hd, lookup_insert_ne by congruence. by exists r0. Qed.
Lemma Reserve_rows ids now clk q d c d' : Reserve o ids now clk q d = Ok (c, d') -> rowsKept d d'.
Proof. intros [[_ ->]|(_ & _ & _ & [Rc _ _ _ (row & Hrow & _) _ _ _ _ _ _ _])]%Reserve_Ok; [reflexivity|by eapply rowsKept_new]. Qed.
Lemma ReserveLifecycle_rows id clk q d c d' : ReserveLifecycle id clk q d = Ok (c, d') -> rowsKept d d'.
Proof. intros [[_ ->]|(Hc & _ & _ & _ & _ & _ & (row & Hrow & _) & _)]%ReserveLifecycle_Ok; [reflexivity|by eapply rowsKept_new]. Qed.
Lemma lifecycleFinalized_rows clk c resource row d d' : commands d !! cm_id c = Some row -> lifecycleFinalized clk c resource row d d' -> rowsKept d d'.
Proof. intros Hrow [= Hc _ _]. eapply rowsKept_insert; [exact Hrow|apply sameCommand_finalized|exact Hc]. Qed.
Lemma Finalize_rows clk c r d d' : Finalize clk c r d = Ok (tt, d') -> rowsKept d d'.
Proof.
  unfold Finalize. destruct (receiptFor c r); [|done]. simpl. destruct (_ || _).
  - intros (row & Hrow & _ & _ & _ & Hd)%finalizeLifecycle_Ok. by eapply lifecycleFinalized_rows.
  - intros (row & Hrow & _ & _ & _ & [= Hc _ _])%finalizeCreate_Ok. eapply rowsKept_insert; [exact Hrow|apply sameCommand_finalized|exact Hc].
Qed.
Lemma repairFinalize_rows clk c r d d' : repairFinalize clk c r d = Ok (tt, d') -> rowsKept d d'.
Proof.
  unfold repairFinalize. destruct (receiptFor c r); [|done]. simpl. destruct (lifecycleOp _).
  - intros (row & Hrow & _ & Hd)%repairLifecycle_Ok. by eapply lifecycleFinalized_rows.
  - intros (row & l & e & Hrow & _ & _ & _ & _ & _ & [= Hc _ _])%repairCreate_Ok. eapply rowsKept_insert; [exact Hrow|apply sameCommand_finalized|exact Hc].
Qed.
Lemma terminal_rows clk c target category quota d d' : terminal clk c target category quota d = Ok (tt, d') -> rowsKept d d'.
Proof.
  intros (row & Hrow & _ & Hd)%terminal_Ok. unfold terminated in Hd. eapply rowsKept_insert; [exact Hrow|apply (sameCommand_terminal target category clk)|].
  case_bool_decide; [destruct Hd as (l & e & _ & _ & _ & _ & _ & Hd)|]; by injection Hd.
Qed.
Lemma decision_rows now clk c ob out m d d' : decision now clk c ob = Some (out, m) -> m d = Ok (tt, d') -> rowsKept d d'.
Proof.
  unfold decision. destruct (ob_kind ob); [|done| |].
  - destruct (_ || _); [done|]. intros [= <- <-]. apply terminal_rows.
  - intros [= <- <-]. apply repairFinalize_rows.
  - intros [= <- <-]. apply terminal_rows.
Qed.
Lemma Claim_rows w worker batch ttl clk cs d' : SagaInv w -> Claim worker batch ttl clk (sw_ctl w) = Ok (cs, d') -> rowsKept (sw_ctl w) d'.
Proof.
  intros Hi H. destruct (Claim_Ok _ _ _ _ _ _ _ H) as (rows & _ & -> & Hrows). intros k r Hr.
  destruct (inv_claimRows w worker (clk + ttl) clk rows Hi Hrows) as [_ Hkeep]. destruct (Hkeep k r Hr) as (r' & ? & ? & _). eauto.
Qed.
Lemma sagaStep_rows w w' : SagaInv w -> sagaStep claim o reg w w' -> rowsKept (sw_ctl w) (sw_ctl w').
Proof.
  intros Hi [w1 []|w1 []|]; simpl; try reflexivity;
    eauto using Reserve_rows, ReserveLifecycle_rows, Finalize_rows, Claim_rows, decision_rows. intros k r Hr. by exists r.
Qed.
Lemma sagaRun_rows w w' : SagaInv w -> run w w' -> rowsKept (sw_ctl w) (sw_ctl w').
Proof.
  intros Hi H. induction H as [|w w1 w2 Hs Hr IH]; [reflexivity|]. transitivity (sw_ctl w1); [by apply sagaStep_rows|]. apply IH. by eapply sagaStep_inv.
Qed.
Lemma byKey_unique w owner op key k r :
  SagaInv w -> commands (sw_ctl w) !! k = Some r -> bc_owner r = owner -> bc_op r = op -> bc_key r = key ->
  byKey owner op key (sw_ctl w) = Some (k, r).
Proof.
  intros Hi Hr Ho Hop Hk. destruct (byKey owner op key (sw_ctl w)) as [[k' r']|] eqn:E.
  - apply byKey_Some in E as (Hr' & Ho' & Hop' & Hk'). assert (k' = k) as -> by (eapply (si_keys _ Hi); [exact Hr|exact Hr'|]; split_and!; congruence). congruence.
  - exfalso. unfold byKey in E. apply head_None in E. eapply (not_elem_of_nil (k, r)). rewrite <- E. apply list_elem_of_filter. split; [done|by apply elem_of_map_to_list].
Qed.

(** The command a call of the coordinator answers for. *)
Definition requestRow (q : ReserveRequest) (d : ControlDb) (k : uuid) (r : CmdRow) : Prop :=
  commands d !! k = Some r /\ bc_owner r = rr_owner q /\ bc_op r = rr_op q /\ bc_key r = rr_key q /\ bc_fp r = rr_fp q.
Lemma Reserve_row ids now clk q d c d' :
  Reserve o ids now clk q d = Ok (c, d') -> exists r, requestRow q d' (cm_id c) r /\ bc_reservation r = cm_reservation c.
Proof.
  intros [[Hl ->]|(_ & _ & _ & Hr)]%Reserve_Ok.
  - apply loadExisting_Ok in Hl as (r & l & Hrow & [] & Hop & _ & _ & _ & _ & Ho & Hk & Hf). exists r. split; [by split_and!|done].
  - destruct Hr as [_ _ _ _ (row & Hrow & [] & _ & _ & Hk & Hf) _ _ _ Rop Rown _ _]. exists row. split; [|done]. split_and!; [by rewrite Hrow, lookup_insert_eq|congruence..].
Qed.
Lemma onShardReceipt_Ok e c fin d fl r d' fl' : onShardReceipt e c fin d fl = (Ok r, (d', fl')) -> cr_resource r = cm_reservation c /\ rowsKept d d'.
Proof.
  unfold onShardReceipt. destruct (Execute _ _ _ _ _ _) as [[v|x] fl1]; [|done]. destruct (receiptFor c v) eqn:Er; [|done]. unfold receiptFor in Er. simpl.
  destruct fin; simpl; [|intros [= <- <- _]; split; [by bsplit|reflexivity]]. unfold commit. destruct (Finalize _ _ _ _) as [[[] d1]|x] eqn:Ef; [|done].
  intros [= <- <- _]. split; [by bsplit|by eapply Finalize_rows].
Qed.
Lemma ExecuteCreate_Ok e q d fl res d' fl' :
  ExecuteCreate o e q (d, fl) = (Ok res, (d', fl')) ->
  exists c d1, Reserve o (sg_ids e) (sg_now e) (sg_reserve e) q d = Ok (c, d1) /\ rs_command res = cm_id c /\ rs_reservation res = cm_reservation c /\ rowsKept d1 d' /\
    rr_op q = OperationCreateReservation.
Proof.
  unfold ExecuteCreate. destruct (validReserveRequest q) eqn:Ev; [|done]. assert (Hop : rr_op q = OperationCreateReservation) by (unfold validReserveRequest in Ev; by bsplit).
  simpl. unfold commit at 1. destruct (Reserve _ _ _ _ _ _) as [[c d1]|x] eqn:E; [|done].
  destruct (validCommandForRequest c q); [|done]. simpl. case_bool_decide; [intros [= <- <- _]; exists c, d1; by split_and!; [..|reflexivity|]|].
  destruct (terminalState _); [done|]. destruct (onShardReceipt _ _ _ _ _) as [[r|x] [d2 fl2]] eqn:Eo; [|done]. apply onShardReceipt_Ok in Eo as [Hr Hk].
  intros [= <- <- _]. exists c, d1. by split_and!.
Qed.
(** A request whose command is there is given that command. *)
Lemma Reserve_known w ids now clk q k r c d' :
  SagaInv w -> commands (sw_ctl w) !! k = Some r -> bc_owner r = rr_owner q -> bc_op r = rr_op q -> bc_key r = rr_key q ->
  rr_op q = OperationCreateReservation -> Reserve o ids now clk q (sw_ctl w) = Ok (c, d') ->
  cm_id c = k /\ cm_reservation c = bc_reservation r /\ bc_fp r = rr_fp q.
Proof.
  intros Hi Hr Ho Hop Hk Hcr H. assert (Hl : exists l, leases (sw_ctl w) !! k = Some l).
  { pose proof (si_rows _ Hi _ _ Hr) as Hs. unfold stands in Hs. rewrite bool_decide_true in Hs by congruence. destruct Hs as (l & e & Hl & _). eauto. }
  destruct Hl as [l Hl]. assert (Hx : loadExistingCommand q (sw_ctl w) <> Ok None).
  { unfold loadExistingCommand. rewrite (byKey_unique w _ _ _ k r Hi Hr Ho Hop Hk), Hl. destruct (_ || _); [done|]. by destruct (routeOf _ _ _). }
  apply Reserve_Ok in H as [[H ->]|(H & _)]; [|done]. apply loadExisting_Ok in H as (r' & l' & Hr' & [] & Hop' & _ & _ & _ & _ & Ho' & Hk' & Hf').
  assert (cm_id c = k) as Heq by (eapply (si_keys _ Hi); [exact Hr|exact Hr'|]; split_and!; congruence). rewrite Heq in Hr'. split_and!; congruence.
Qed.

(** C16: a request for a reservation is answered with one reservation: two
    successful calls of the coordinator with the same user and idempotency key
    are answered with the same command and the same reservation, whatever
    coordinators, the reconciler and the shards have done in between; and their
    fingerprints are the same. *)
Theorem create_request_answered_once w0 w1 w2 w3 e1 e2 q1 q2 res1 res2 d' fl' :
  sagaStart w0 -> run w0 w1 -> run w1 w2 -> run w2 w3 ->
  ExecuteCreate o e1 q1 (sw_ctl w1, sw_fleet w1) = (Ok res1, (sw_ctl w2, sw_fleet w2)) ->
  ExecuteCreate o e2 q2 (sw_ctl w3, sw_fleet w3) = (Ok res2, (d', fl')) ->
  rr_owner q1 = rr_owner q2 -> rr_key q1 = rr_key q2 ->
  rr_fp q1 = rr_fp q2 /\ rs_command res1 = rs_command res2 /\ rs_reservation res1 = rs_reservation res2.
Proof.
  intros Hst H01 H12 H23 E1 E2 Ho Hk. assert (I2 : SagaInv w2) by (eapply sagaRun_inv, H12; eapply sagaRun_inv, H01; by apply start_inv).
  assert (I3 : SagaInv w3) by (by eapply sagaRun_inv). apply ExecuteCreate_Ok in E1 as (c1 & d1 & R1 & -> & -> & K1 & Hop1).
  apply ExecuteCreate_Ok in E2 as (c2 & d2 & R2 & -> & -> & _ & Hop2). destruct (Reserve_row _ _ _ _ _ _ _ R1) as (r1 & (Hr1 & Hr1o & Hr1p & Hr1k & Hr1f) & <-).
  destruct (K1 _ _ Hr1) as (r2 & Hr2 & []). destruct (sagaRun_rows _ _ I2 H23 _ _ Hr2) as (r3 & Hr3 & []).
  apply (Reserve_known w3 _ _ _ q2 (cm_id c1) r3) in R2 as (Hid & Hres & Hfp); [split_and!; congruence|done|done|congruence..].
Qed.

(** ** A saga cut short *)
Lemma Execute_succeeded router ttl now clk c fl rz :
  cm_op c = OperationCreateReservation -> validCommand c = true -> router (cm_run c) false = Some rz -> sameRoute (rz_route rz) (cm_route c) = true ->
  rz_shard rz = shardID (cm_route c) -> succeededAt fl c -> Execute router ttl now clk c fl = (Ok (committedReceipt c), fl).
Proof.
  intros Hop Hv Hr Hsame Hsh (d & Hd & br & kind & Hbr & Hfp & Hs). unfold Execute. rewrite Hv, Hr, Hsame. simpl. unfold executeOnce, onShard. rewrite Hsh, bool_decide_true by done.
  simpl. rewrite Hd. unfold executeTx, loadReceipt, reads, mbind, Txn_bind. rewrite Hbr, Hfp, N.eqb_refl, Hs, Hop. simpl. rewrite bool_decide_true by done. simpl. by rewrite insert_id.
Qed.
Lemma finalizeCreate_total clk c d row :
  commands d !! cm_id c = Some row -> names row c -> terminalState (bc_state row) = false -> rlocs d !! cm_reservation c = None -> assignedTo (cm_route c) d = true ->
  exists d', finalizeCreate clk c (committedReceipt c) d = Ok (tt, d').
Proof.
  intros Hr [_ _ _ Nres Nfp _ _] Ht Hloc Ha. unfold finalizeCreate, cx, lockFinalizable, reads, one, modify, mbind, Txn_bind. rewrite Hr. simpl.
  rewrite Nfp, Nres, N.eqb_refl, bool_decide_true, Ht by done. simpl. unfold updCommand. rewrite Hr.
  unfold ifAny, updDirectory. simpl. unfold putReservationLocator. destruct (dirs d !! cm_reservation c) as [e|]; simpl; [destruct (_ && _)|]; simpl;
    rewrite Hloc; unfold assignedTo in *; simpl; rewrite Ha; eauto.
Qed.

(** C17: a saga that was cut short after the shard had committed is completed by
    the next call with the same request: when the command is there, reserved,
    its shard has its receipt, the router still leads to that shard and the run
    is still assigned to it, the coordinator answers with the reservation of the
    first attempt, books nothing on any shard, and leaves the command
    finalized and its directory entry active. *)
Theorem interrupted_create_completes w0 w e q c rz :
  sagaStart w0 -> run w0 w -> validReserveRequest q = true -> users (cenv (sw_ctl w)) !! rr_owner q = Some true ->
  loadExistingCommand q (sw_ctl w) = Ok (Some c) -> cm_state c = StateReserved -> validCommandForRequest c q = true -> validCommand c = true ->
  succeededAt (sw_fleet w) c -> sg_router e (cm_run c) false = Some rz -> sameRoute (rz_route rz) (cm_route c) = true -> rz_shard rz = shardID (cm_route c) ->
  rlocs (sw_ctl w) !! cm_reservation c = None -> assignedTo (cm_route c) (sw_ctl w) = true ->
  exists d' row entry,
    ExecuteCreate o e q (sw_ctl w, sw_fleet w) = (Ok (mkResult (cm_id c) (cm_reservation c) uuidNil 0 0 false), (d', sw_fleet w)) /\
    commands d' !! cm_id c = Some row /\ bc_state row = StateFinalized /\ dirs d' !! cm_reservation c = Some entry /\ dr_state entry = DirActive.
Proof.
  intros Hst Hrun Hv Hu Hl Hs Hvc Hvx Hsu Hro Hsame Hsh Hloc Ha. assert (Hi : SagaInv w) by (eapply sagaRun_inv, Hrun; by apply start_inv).
  pose proof Hl as Hl2. apply loadExisting_Ok in Hl2 as (r & l & Hr & Hn & Hop & Hcs & _ & Hlease & _). assert (Hcreate : rr_op q = OperationCreateReservation) by (unfold validReserveRequest in Hv; by bsplit).
  destruct (finalizeCreate_total (sg_finalize e) c (sw_ctl w) r) as [d' Hf]; [done|done|by rewrite <- Hcs, Hs|done|done|].
  assert (Hcop : cm_op c = OperationCreateReservation) by (rewrite <- (nm_op _ _ Hn); congruence).
  pose proof Hf as Hf2. apply finalizeCreate_Ok in Hf2 as (row & Hrow & _ & _ & _ & [= Hc _ Hd]). assert (row = r) as -> by congruence.
  pose proof (si_rows _ Hi _ _ Hr) as Hstand. unfold stands in Hstand. rewrite bool_decide_true in Hstand by congruence. destruct Hstand as (l0 & en & Hl0 & _ & Hen & [Ec _ _ _] & Hcst).
  unfold createStands in Hcst. rewrite <- Hcs, Hs in Hcst. destruct Hcst as [Hp _]. rewrite (nm_reservation _ _ Hn) in Hen.
  exists d', (finalizedRow (cm_reservation c) (sg_finalize e) r), (dirActive (shardID (cm_route c)) (generation (cm_route c)) (sg_finalize e) en). split_and!; [|by rewrite Hc, lookup_insert_eq|done| |done].
  - unfold ExecuteCreate. rewrite Hv. simpl. unfold commit at 1, Reserve, guardS, shard, reads, mbind, Txn_bind. rewrite Hu. simpl. rewrite Hl. unfold mret, Txn_ret. rewrite Hvc, Hs. simpl.
    unfold onShardReceipt. rewrite (Execute_succeeded _ _ _ _ c _ rz) by done. unfold receiptFor, committedReceipt. simpl. rewrite !bool_decide_true, N.eqb_refl by done. simpl.
    unfold commit, Finalize, receiptFor. simpl. rewrite !bool_decide_true, N.eqb_refl by done. rewrite Hcop. simpl. unfold committedReceipt in Hf. by rewrite Hf.
  - rewrite Hd, lookup_updMap, decide_True by done. rewrite Hen. simpl. rewrite Ec, Hp, (bool_decide_true (Some (cm_id c) = Some (cm_id c))) by done. done.
Qed.

(** ** Error paths *)

(** a command that has failed or expired is never reported as a failure of
    the shard: the check of the command against the request comes first and
    accepts neither state, so the coordinator's answer for a terminal command
    is never given, and the retry of a request whose command is terminal is
    answered as an invalid command, for reservations, confirmations and
    cancellations. *)
Theorem terminal_command_reported_invalid e q lq w :
  (ExecuteCreate o e q w).1 <> Err (ErrShardExecution None) /\ (ExecuteLifecycle e lq w).1 <> Err (ErrShardExecution None) /\
  (forall c, validReserveRequest q = true -> users (cenv w.1) !! rr_owner q = Some true -> loadExistingCommand q w.1 = Ok (Some c) ->
     terminalState (cm_state c) = true -> ExecuteCreate o e q w = (Err ErrInvalidCommand, w)) /\
  (forall c, validLifecycleRequest lq = true -> loadExistingLifecycleCommand lq w.1 = Ok (Some c) ->
     terminalState (cm_state c) = true -> ExecuteLifecycle e lq w = (Err ErrInvalidCommand, w)).
Proof.
  destruct w as [d fl]. assert (Hlive : forall s, terminalState s = true -> liveState s = false) by (by intros []).
  assert (Hon : forall c fin d1, (onShardReceipt e c fin d1 fl).1 <> Err (ErrShardExecution None)).
  { intros c fin d1. unfold onShardReceipt. destruct (Execute _ _ _ _ _ _) as [[v|x] fl1]; [|done]. destruct (receiptFor c v); [|done]. destruct fin; [|done]. simpl.
    by destruct (commit _ _) as [[[]|x] d2]. }
  split_and!.
  - unfold ExecuteCreate. destruct (validReserveRequest q); [|done]. simpl. destruct (commit _ _) as [[c|x] d1]; [|done]. destruct (validCommandForRequest c q) eqn:Ev; [|done]. simpl.
    case_bool_decide; [done|]. destruct (terminalState (cm_state c)) eqn:Et; [|specialize (Hon c true d1); destruct (onShardReceipt _ _ _ _ _) as [[]]; naive_solver].
    unfold validCommandForRequest in Ev. rewrite (Hlive _ Et), andb_false_r in Ev. done.
  - unfold ExecuteLifecycle. destruct (validLifecycleRequest lq); [|done]. simpl. destruct (commit _ _) as [[c|x] d1]; [|done]. destruct (validLifecycleCommand c lq) eqn:Ev; [|done]. simpl.
    destruct (terminalState (cm_state c)) eqn:Et.
    + unfold validLifecycleCommand in Ev. rewrite (Hlive _ Et), andb_false_r in Ev. done.
    + match goal with |- context [onShardReceipt e c ?b d1 fl] => specialize (Hon c b d1); destruct (onShardReceipt e c b d1 fl) as [[]] end; naive_solver.
  - simpl. intros c Hv Hu Hl Ht. unfold ExecuteCreate. rewrite Hv. simpl. unfold commit, Reserve, guardS, shard, reads, mbind, Txn_bind. rewrite Hu. simpl. rewrite Hl. unfold mret, Txn_ret.
    unfold validCommandForRequest. by rewrite (Hlive _ Ht), andb_false_r.
  - simpl. intros c Hv Hl Ht. unfold ExecuteLifecycle. rewrite Hv. simpl. unfold commit, ReserveLifecycle, reads, mbind, Txn_bind. rewrite Hl. unfold mret, Txn_ret.
    unfold validLifecycleCommand. by rewrite (Hlive _ Ht), andb_false_r.
Qed.

(** A committed confirmation is never repaired: its inspection fails, and the
    control database stays as it is. *)
Theorem committed_confirmation_not_repaired now clk c d fl sh br kind id :
  cm_op (cd_command c) = OperationConfirmReservation -> fl !! shardID (cm_route (cd_command c)) = Some sh ->
  breceipts sh !! cm_id (cd_command c) = Some br -> bk_state br = BSucceeded kind id ->
  exists err, Repair reg now clk c (d, fl) = ((OutcomeDeferred, Some err), d).
Proof.
  intros Hop Hs Hbr Hst. unfold Repair, Inspect. destruct (validCandidate c); [|by eexists]. simpl. unfold inspectorInspect.
  destruct (ResolveHandle _ _ _) as [s|] eqn:Es; [|by eexists]. apply ResolveHandle_Ok in Es as ->. simpl. rewrite Hs. unfold inspectReceipt. rewrite Hbr.
  destruct (_ || _); [by eexists|]. rewrite Hst, Hop. by eexists.
Qed.

(** *** Ticket codes *)
Lemma putTicketLocator_ready t r d d' :
  putTicketLocator t r d = Some d' -> (codesReady d = false -> codesReady d' = false) /\ (tlocs d !! t = None -> codeClaimed t d = false -> codesReady d' = false).
Proof.
  unfold putTicketLocator. destruct (tlocs d !! t); [destruct (_ && _); [|done]; intros [= <-]; by split|]. destruct (_ || _); [done|]. intros [= <-]. simpl.
  split; [by intros ->|]. intros _ Hc. replace (codeClaimed t (set_tlocs d _)) with (codeClaimed t d) by done. rewrite Hc. apply andb_false_r.
Qed.
Lemma putTicketCode_ready k t d d' : putTicketCode k t d = Some d' -> codesReady d' = codesReady d.
Proof. unfold putTicketCode. intros H. by repeat case_match; simplify_eq. Qed.
Lemma insertTicketLocators_ready c r l d u d' : insertTicketLocators c r l d = Ok (u, d') -> codesReady d = false -> codesReady d' = false.
Proof.
  revert d. induction l as [|[t k] l IH]; intros d; simpl; [by intros [_ <-]%sret_Ok|]. unfold cx. intros H Hd.
  apply sbind_Ok in H as (? & d1 & H1%one_Ok%putTicketLocator_ready & H). apply sbind_Ok in H as (? & d2 & H2%one_Ok%putTicketCode_ready & H).
  eapply IH; [exact H|]. rewrite H2. by apply (proj1 H1).
Qed.
Definition codeTables (d : ControlDb) := (tlocs d, codesOf d, codesReady d).
Lemma advanceReservation_codes e c d s d' : advanceReservationLifecycle e c d = Ok (s, d') -> codeTables d' = codeTables d.
Proof.
  unfold advanceReservationLifecycle. cbv zeta. intros H. apply sbind_Ok in H as (? & ? & [<- <-]%shard_Ok & H).
  destruct (advanceLifecycle _ _ _ _ _ d) as [[st d1]|] eqn:E; [|by apply raise_Ok in H]. assert (Hd : codeTables d1 = codeTables d).
  { unfold advanceLifecycle in E. by repeat case_match; simplify_eq. }
  case_bool_decide; [|by apply raise_Ok in H]. by apply sbind_Ok in H as (? & ? & <-%modify_Ok & [_ <-]%sret_Ok).
Qed.
Lemma releaseQuota_codes j clk d : codeTables (releaseQuota j clk d) = codeTables d.
Proof. unfold releaseQuota, ifAny, updLease. by repeat case_match. Qed.
Lemma insFinalEvent_codes k d : codeTables (insFinalEvent k d) = codeTables d.
Proof. unfold insFinalEvent. by destruct (finals d !! _). Qed.

(** finalizing a confirmation on a physical shard withdraws the readiness of
    the ticket codes, although the codes are claimed in the same transaction:
    the locator of a ticket is inserted before its code. *)
Theorem confirmation_withdraws_code_readiness clk c r d d' t tickets :
  cm_op c = OperationConfirmReservation -> Finalize clk c r d = Ok (tt, d') -> cr_tickets r = t :: tickets -> tlocs d !! t = None -> codeClaimed t d = false ->
  codesReady d' = false.
Proof.
  intros Hop H Ht Hnew Hcode. unfold Finalize in H. destruct (receiptFor c r); [|done]. rewrite Hop in H. simpl in H. unfold finalizeLifecycle, cx in H.
  apply sbind_Ok in H as ([] & ? & [_ <-]%reads_Ok & H). apply sbind_Ok in H as (? & d1 & (row & _ & ->)%one_Ok%updCommand_Some & H).
  apply sbind_Ok in H as (status & d2 & H2%advanceReservation_codes & H). injection H2 as Hl2 Hc2 _. rewrite Hop in H. simpl in *.
  apply sbind_Ok in H as (? & d3 & H3 & H). apply sbind_Ok in H3 as (? & ? & [Hv <-]%guardS_Ok & H3). apply sbind_Ok in H3 as (? & d4 & H4%one_Ok & H3).
  apply sbind_Ok in H as (? & d5 & <-%modify_Ok & <-%modify_Ok). assert (H4' : codeTables d4 = codeTables d2) by (unfold putOrderLocator in H4; by repeat case_match; simplify_eq).
  injection H4' as Hl4 Hc4 _. pose proof (insFinalEvent_codes (cm_id c) (releaseQuota (cm_reservation c) clk d3)) as He. rewrite releaseQuota_codes in He. injection He as _ _ ->.
  rewrite Ht in H3. unfold validConfirmationReceipt in Hv. bsplit. destruct (cr_codes r) as [|k codes]; [simpl in *; rewrite Ht in *; simpl in *; lia|]. simpl in H3. unfold cx in H3.
  apply sbind_Ok in H3 as (? & d6 & Hloc%one_Ok%putTicketLocator_ready & H3). apply sbind_Ok in H3 as (? & d7 & Hput%one_Ok%putTicketCode_ready & H3).
  eapply insertTicketLocators_ready; [exact H3|]. rewrite Hput. apply (proj2 Hloc); [congruence|]. unfold codeClaimed in *. congruence.
Qed.
End Properties.
