(* ===== verification/CommandScenarios.v ===== *)
(** * Booking command saga: scenarios

    One user books two seats of one train run through the coordinator, cancels
    or confirms them, and the reconciler comes by.  The witnesses of the
    properties of the saga and of the physical router. *)

From S2P Require Import Prelude Transaction SegmentMask BookingDomain Sharding PaymentDomain PaymentDb PaymentClaims PaymentFinalize PaymentControl PaymentWorker PaymentLogic PaymentSafety PaymentHistory BookingDb ShardDb ShardBooking ShardPayment ShardExpiry ShardLogic ShardDurable ShardInvariant ShardCalls ShardHistory ShardProperties ShardReplay ShardIssuance ShardScenarios ShardReceipts CommandDb CommandControl PhysicalRouter CommandReconcile CommandLogic CommandSaga CommandQuota CommandProperties.
Import ShardTypes SamplePayment SampleShard.

Module SampleSaga.
Definition opts : Options := mkOptions 2000 2 2 6.
Definition registry : Registry := {[ ShardPhysicalZero ]}.
Definition catalogued : CatShard := mkCatShard "postgres" true true "healthy" "active" 1 2 1.
Definition control : ControlDb :=
  mkControlDb (mkControlEnv {[ 30%N := true ]} {[ 61%N := 30%N; 62%N := 30%N ]} {[ 20%N := mkAssignmentRow ShardPhysicalZero 1 "stable" None ]}
    {[ ShardPhysicalZero := catalogued ]} ∅) ∅ ∅ ∅ ∅ ∅ ∅ ∅ ∅ true ∅.
(** Random identifiers are large, name-based ones of the sample are not. *)
Definition random (n : N) : uuid := (2 ^ 62 + n)%N.
Definition call (n : N) (t : Z) : SagaEnv := mkSagaEnv (mkNewIDs (random n) 10 (random (n + 1))) router 2000 t t t t (t + 1).
Definition booking : ReserveRequest := mkReserveRequest 30 20 OperationCreateReservation 5 7 2 (mkPayload 0 2 "standard" [61; 62]%N 1000 1).
Definition cancellation : LifecycleRequest := mkLifecycleRequest 30 10 OperationCancelReservation 8 9.
Definition confirmation : LifecycleRequest := mkLifecycleRequest 30 10 OperationConfirmReservation 8 9.
Definition start : Saga := mkSaga control fleet 0 [] [] [] [].
Definition nobody : option (IssueTicketsCommand -> list uuid -> list string -> unit -> res ShardErr unit * unit) := None.

Definition booked : res SagaErr Result * SagaWorld := ExecuteCreate opts (call 1 50) booking (control, fleet).
Definition cancelled : res SagaErr Result * SagaWorld := ExecuteLifecycle (call 3 60) cancellation booked.2.
Definition confirmed : res SagaErr Result * SagaWorld := ExecuteLifecycle (call 3 60) confirmation booked.2.
Definition leaseStates (d : ControlDb) : list LeaseState := (fun kl => ql_state kl.2) <$> map_to_list (leases d).

Lemma digestOf_below m s : (1 < m)%N -> (digestOf m s < m)%N.
Proof.
  intros Hm. unfold digestOf. assert (H : forall l h, (h < m)%N -> (foldl (fun h c => ((h * 257 + N_of_ascii c + 1) mod m)%N) h l < m)%N).
  { induction l as [|c l IH]; intros h Hh; [done|]. simpl. apply IH. apply N.mod_lt. lia. }
  by apply H.
Qed.
Lemma random_not_ofRun n : ~ ofRun (random n).
Proof.
  intros (run & gen & H). unfold cancelRunCommand in H. simpl in H. unfold random in H.
  pose proof (digestOf_below (2 ^ 61 - 1) (bytesBE 16 run +:+ ("train-run.cancel:" +:+ decimal gen)) ltac:(vm_compute; done)). simpl in *. lia.
Qed.
Lemma start_ok : sagaStart start.
Proof.
  split; try reflexivity. intros s d Hs. split.
  - by apply (fleet_pristine s d).
  - simpl in Hs. unfold fleet in Hs. by apply lookup_singleton_Some in Hs as [_ <-].
Qed.
Lemma timely_call w n t : sw_time w <= t -> timely w (call n t).
Proof. intros Ht. split; simpl; [done|lia|apply random_not_ofRun]. Qed.
End SampleSaga.
Import SampleSaga.

Example scenario_booked :
  booked.1 = Ok (mkResult (random 1) 10 uuidNil 0 0 false) /\ leaseStates booked.2.1 = [LeaseActiveHold] /\
  rs_released <$> (match cancelled.1 with Ok r => Some r | Err _ => None end) = Some 2 /\ leaseStates cancelled.2.1 = [LeaseReleased].
Proof. vm_compute. auto. Qed.

(** ** Runs *)
Abbreviation run_ := (sagaRun nobody opts registry).
Lemma run_booked : exists w, run_ start w /\ sw_ctl w = booked.2.1 /\ sw_fleet w = booked.2.2 /\ sw_time w <= 51.
Proof. exact (ExecuteCreate_reaches nobody opts registry start (call 1 50) booking (timely_call start 1 50 ltac:(simpl; lia))). Qed.
Lemma run_cancelled : exists w, run_ start w /\ sw_ctl w = cancelled.2.1 /\ sw_fleet w = cancelled.2.2.
Proof.
  destruct run_booked as (w & Hr & Hc & Hf & Ht). pose proof (ExecuteLifecycle_reaches nobody opts registry w (call 3 60) cancellation (timely_call w 3 60 ltac:(lia))) as H.
  rewrite Hc, Hf in H. destruct H as (w' & Hr' & Hc' & Hf' & _). exists w'. split; [by transitivity w|]. unfold cancelled. by destruct booked as [x []].
Qed.
(** The command of the booking reserved and executed, but not finalized. *)
Definition reservedBooking : Command * ControlDb :=
  match Reserve opts (sg_ids (call 1 50)) 50 50 booking control with Ok x => x | Err _ => (create 0 0, control) end.
Definition executedBooking : res ExecErr Receipt * Fleet := Execute router 2000 50 50 reservedBooking.1 fleet.
Definition interrupted : Saga :=
  mkSaga reservedBooking.2 executedBooking.2 50 [reservedBooking.1] (match executedBooking.1 with Ok v => [(reservedBooking.1, v)] | Err _ => [] end) [] [].
Lemma reservedBooking_Ok : Reserve opts (sg_ids (call 1 50)) 50 50 booking control = Ok reservedBooking.
Proof. vm_compute. reflexivity. Qed.
Lemma run_interrupted : rtc (commandStep nobody opts) start interrupted.
Proof.
  eapply rtc_l; [|eapply rtc_once].
  - eapply (ss_reserve nobody opts start (sg_ids (call 1 50)) booking 50 50); [simpl; lia|apply random_not_ofRun|vm_compute; reflexivity|].
    simpl sw_ctl. rewrite reservedBooking_Ok. apply f_equal, surjective_pairing.
  - refine (ss_execute nobody opts (mkSaga reservedBooking.2 fleet 50 [reservedBooking.1] [] [] []) router 2000 50 50 50 reservedBooking.1 executedBooking.1 executedBooking.2 _ _ _);
      [simpl; lia|left|]. apply surjective_pairing.
Qed.
Lemma run_interrupted_saga : run_ start interrupted.
Proof. eapply rtc_subrel, run_interrupted. intros w w' H. by apply ss_command. Qed.

(** ** Witnesses *)
Lemma booking_saga_agrees_witness :
  exists w r, run_ start w /\ commands (sw_ctl w) !! random 1 = Some r /\ bc_state r = StateFinalized /\
    exists sh row, sw_fleet w !! ShardPhysicalZero = Some sh /\ resv sh !! 10%N = Some row /\ rv_user row = 30%N.
Proof.
  destruct run_booked as (w & Hr & Hc & Hf & _). destruct (booking_saga_agrees nobody opts registry start w start_ok Hr) as [Hcreate _].
  destruct (commands booked.2.1 !! random 1) as [r|] eqn:E; [|vm_compute in E; discriminate]. exists w, r. split; [exact Hr|]. rewrite Hc. split; [exact E|].
  rewrite Hc in Hcreate. specialize (Hcreate _ _ E). vm_compute in E. injection E as <-. split; [reflexivity|].
  destruct (Hcreate eq_refl) as (l & e & _ & _ & _ & _ & sh & row & Hs & Hrow & Hu & _). exists sh, row. split; [exact Hs|]. split; [exact Hrow|exact Hu].
Defined.

Lemma calls_are_saga_runs_witness :
  booked.1 = Ok (mkResult (random 1) 10 uuidNil 0 0 false) /\ reaches nobody opts registry start 51 booked.2.
Proof.
  split; [vm_compute; reflexivity|]. destruct (calls_are_saga_runs nobody opts registry start (call 1 50)) as (H & _).
  - apply timely_call. simpl. lia.
  - exact (H booking).
Defined.


Definition cancelledRow : CmdRow := default (reservedRow (create 0 0) 0 0) (commands cancelled.2.1 !! random 1).
Definition cancelledLease : LeaseRow := default (mkLeaseRow 0 0 0 0 LeasePending 0 None) (leases cancelled.2.1 !! random 1).
Definition cancelledEntry : uuid * DirRow := default (uuidNil, mkDirRow 0 0 None DirPending None None None None) (dirOf (random 1) cancelled.2.1).
Definition cancelledCandidate : Candidate := match candidateOf 70 cancelled.2.1 (random 1, cancelledRow) with Ok c => c | Err _ => mkCandidate (create 0 0) 0 end.
Lemma released_hold_recounted_witness :
  leaseStates cancelled.2.1 = [LeaseReleased] /\
  exists d' l', Repair registry 70 70 cancelledCandidate cancelled.2 = ((OutcomeFinalized, None), d') /\ leases d' !! random 1 = Some l' /\ countedLease (ql_state l') = true.
Proof.
  split; [vm_compute; reflexivity|]. destruct run_cancelled as (w & Hr & Hc & Hf). assert (Hw : cancelled.2 = (sw_ctl w, sw_fleet w)) by (rewrite Hc, Hf; apply surjective_pairing).
  rewrite Hw. apply (released_hold_recounted nobody opts registry start w (random 1) cancelledRow cancelledLease cancelledEntry cancelledCandidate 70 70 start_ok Hr);
    rewrite ?Hc; vm_compute; reflexivity.
Defined.

Lemma create_request_answered_once_witness :
  exists res, (ExecuteCreate opts (call 5 900) booking booked.2).1 = Ok res /\ rs_command res = random 1 /\ rs_reservation res = 10%N.
Proof.
  set (again := ExecuteCreate opts (call 5 900) booking booked.2). assert (Hres : exists res, again.1 = Ok res) by (vm_compute; eexists; reflexivity).
  destruct Hres as [res Hres]. exists res. split; [exact Hres|]. destruct run_booked as (w & Hr & Hc & Hf & _).
  destruct (create_request_answered_once nobody opts registry start start w w (call 1 50) (call 5 900) booking booking
    (mkResult (random 1) 10 uuidNil 0 0 false) res again.2.1 again.2.2) as (_ & H1 & H2).
  - exact start_ok.
  - apply rtc_refl.
  - exact Hr.
  - apply rtc_refl.
  - rewrite Hc, Hf. rewrite <- surjective_pairing. change (booked = (Ok (mkResult (random 1) 10 uuidNil 0 0 false), booked.2)).
    rewrite (surjective_pairing booked) at 1. apply (f_equal (fun x => (x, booked.2))). vm_compute. reflexivity.
  - rewrite Hc, Hf. rewrite <- !surjective_pairing. change (again = (Ok res, again.2)). rewrite <- Hres. apply surjective_pairing.
  - reflexivity.
  - reflexivity.
  - split; [symmetry; exact H1|symmetry; exact H2].
Defined.

Definition foundBooking : Command := match loadExistingCommand booking reservedBooking.2 with Ok (Some c) => c | _ => create 0 0 end.
Lemma interrupted_create_completes_witness :
  leaseStates (sw_ctl interrupted) = [LeasePending] /\
  exists d' row, ExecuteCreate opts (call 5 900) booking (sw_ctl interrupted, sw_fleet interrupted) =
    (Ok (mkResult (random 1) 10 uuidNil 0 0 false), (d', sw_fleet interrupted)) /\ commands d' !! random 1 = Some row /\ bc_state row = StateFinalized.
Proof.
  split; [vm_compute; reflexivity|].
  destruct (interrupted_create_completes nobody opts registry start interrupted (call 5 900) booking foundBooking (mkResolution route ShardPhysicalZero true))
    as (d' & row & entry & He & Hrow & Hs & _).
  - exact start_ok.
  - exact run_interrupted_saga.
  - vm_compute. reflexivity.
  - vm_compute. reflexivity.
  - vm_compute. reflexivity.
  - vm_compute. reflexivity.
  - vm_compute. reflexivity.
  - vm_compute. reflexivity.
  - eexists. split; [vm_compute; reflexivity|]. eexists _, _. split; [vm_compute; reflexivity|]. split; vm_compute; reflexivity.
  - vm_compute. reflexivity.
  - vm_compute. reflexivity.
  - vm_compute. reflexivity.
  - vm_compute. reflexivity.
  - vm_compute. reflexivity.
  - exists d', row. assert (Hid : cm_id foundBooking = random 1 /\ cm_reservation foundBooking = 10%N) by (vm_compute; split; reflexivity).
    destruct Hid as [Hid Hres]. rewrite Hid, Hres in *. split; [exact He|]. split; [exact Hrow|exact Hs].
Defined.

(** The confirmation of the booking, step by step. *)
Definition confirming : Command * ControlDb :=
  match ReserveLifecycle (random 3) 60 confirmation booked.2.1 with Ok x => x | Err _ => (create 0 0, control) end.
Definition confirmReceipt : Receipt := match (Execute router 2000 60 60 confirming.1 booked.2.2).1 with Ok r => r | Err _ => zeroReceipt end.
Definition finalizedConfirmation : ControlDb := match Finalize 61 confirming.1 confirmReceipt confirming.2 with Ok (_, d) => d | Err _ => control end.
Lemma confirmation_withdraws_code_readiness_witness :
  codesReady confirming.2 = true /\ size (codesOf finalizedConfirmation) = 2%nat /\ codesReady finalizedConfirmation = false.
Proof.
  split; [vm_compute; reflexivity|]. split; [vm_compute; reflexivity|]. destruct (cr_tickets confirmReceipt) as [|t ts] eqn:Et; [vm_compute in Et; discriminate|].
  apply (confirmation_withdraws_code_readiness 61 confirming.1 confirmReceipt confirming.2 finalizedConfirmation t ts); [vm_compute; reflexivity|vm_compute; reflexivity|exact Et|..];
    vm_compute in Et; injection Et as <- _; vm_compute; reflexivity.
Defined.

(** ** The router *)
Definition asked (t : Z) : RouterCall := mkRouterCall t control 20 false (map fst (map_to_list (runRouter registry 100 []))).
Definition askedAgain : RouterCall := mkRouterCall 60 (set_cenv control (mkControlEnv ∅ ∅ ∅ ∅ ∅)) 20 false [].
Lemma physical_routes_are_recent_witness :
  load registry (rc_db askedAgain) 20 = None /\ exists p, p ∈ [asked 10; askedAgain] /\ rc_now p <= 60 < rc_now p + 100 /\
    load registry (rc_db p) 20 = Some (mkResolution route ShardPhysicalZero true).
Proof.
  split; [vm_compute; reflexivity|].
  destruct (physical_routes_are_recent registry 100 [asked 10] askedAgain (mkResolution route ShardPhysicalZero true)) as (_ & _ & (p & Hp & _ & Ht & Hl) & _).
  - apply (rh_snoc registry 100 []); [apply rh_nil|]. intros run. simpl. split; [intros Hn; by apply elem_of_nil in Hn|]. intros [x Hx]. discriminate.
  - intros p Hp. apply list_elem_of_singleton in Hp as ->. simpl. lia.
  - lia.
  - vm_compute. reflexivity.
  - exists p. split; [exact Hp|]. split; [exact Ht|exact Hl].
Defined.
