(* ===== verification/CrashProgram.v ===== *)
(** * Programs that cross databases

    The operations of the migration engine run a sequence of database-local
    transactions against several databases.  A program is the tree of those
    transactions: every one is atomic, other clients of the databases act
    between them, and the process may stop at any point (a crash, a lost
    connection, an elapsed deadline), which leaves what was committed.

    [execute] runs a program alone to its end; [runs] is every run of it with
    interference and crashes; [wp] is the program logic for [runs], with an
    invariant that also holds wherever the program stops. *)

From S2P Require Import Prelude Transaction.

(** ** Programs *)
Inductive Prog (W E A : Type) : Type :=
| Finish (r : res E A)
| Step {X : Type} (f : W -> X * W) (k : X -> Prog W E A).
Arguments Finish {W E A} _.
Arguments Step {W E A X} _ _.

#[export] Instance Prog_ret W E : MRet (Prog W E) := fun A a => Finish (Ok a).
#[export] Instance Prog_bind W E : MBind (Prog W E) := fun A B k =>
  fix go (p : Prog W E A) : Prog W E B :=
    match p with
    | Finish (Ok a) => k a
    | Finish (Err e) => Finish (Err e)
    | Step f k' => Step f (fun x => go (k' x))
    end.
Definition stop {W E A} (e : E) : Prog W E A := Finish (Err e).
Definition failWhen {W E} (b : bool) (e : E) : Prog W E unit := if b then stop e else mret tt.
Definition ofRes {W E A} (r : res E A) : Prog W E A := Finish r.
(** One transaction: its result, and the state it commits. *)
Definition atomic {W E A} (f : W -> res E A * W) : Prog W E A := Step f Finish.

(** ** Runs *)
Section Runs.
Context {W E : Type}.

Fixpoint execute {A} (p : Prog W E A) (w : W) : res E A * W :=
  match p with
  | Finish r => (r, w)
  | Step f k => let '(x, w') := f w in execute (k x) w'
  end.

Variable env : W -> W -> Prop.
(** [None]: the process stopped on the way. *)
Inductive runs {A} : Prog W E A -> W -> option (res E A) -> W -> Prop :=
| runs_crash p w w' : rtc env w w' -> runs p w None w'
| runs_finish r w w' : rtc env w w' -> runs (Finish r) w (Some r) w'
| runs_step X (f : W -> X * W) k w w1 x w2 o w' :
    rtc env w w1 -> f w1 = (x, w2) -> runs (k x) w2 o w' -> runs (Step f k) w o w'.

(** A run alone is one of them. *)
Lemma execute_runs {A} (p : Prog W E A) w : runs p w (Some (execute p w).1) (execute p w).2.
Proof.
  revert w. induction p as [r|X f k IH]; intros w; cbn [execute].
  - apply runs_finish, rtc_refl.
  - destruct (f w) as [x w'] eqn:Hf. econstructor; [apply rtc_refl|done|apply IH].
Qed.

(** ** The program logic *)
Variable I : W -> Prop.
Hypothesis I_env : forall w w', env w w' -> I w -> I w'.

Lemma I_rtc w w' : rtc env w w' -> I w -> I w'.
Proof. induction 1; eauto. Qed.

Fixpoint wp {A} (p : Prog W E A) (Q : res E A -> W -> Prop) (w : W) : Prop :=
  match p with
  | Finish r => forall w', rtc env w w' -> I w' -> Q r w'
  | Step f k => forall w1, rtc env w w1 -> I w1 -> let '(x, w2) := f w1 in I w2 /\ wp (k x) Q w2
  end.

Lemma wp_sound {A} (p : Prog W E A) Q w o w' :
  wp p Q w -> I w -> runs p w o w' -> I w' /\ forall r, o = Some r -> Q r w'.
Proof.
  intros Hp Hi Hr. revert Hp Hi. induction Hr as [p w w' He|r w w' He|X f k w w1 x w2 o w' He Hf _ IH]; intros Hp Hi.
  - split; [by eapply I_rtc|done].
  - pose proof (I_rtc _ _ He Hi). split; [done|]. intros r' [= <-]. by apply Hp.
  - specialize (Hp w1 He (I_rtc _ _ He Hi)). rewrite Hf in Hp. destruct Hp as [Hi2 Hp]. by apply IH.
Qed.

Lemma wp_mono {A} (p : Prog W E A) (Q Q' : res E A -> W -> Prop) w :
  (forall r w, I w -> Q r w -> Q' r w) -> wp p Q w -> wp p Q' w.
Proof.
  intros HQ. revert w. induction p as [r|X f k IH]; intros w Hp; cbn [wp] in *.
  - intros w' He Hi. apply HQ; eauto.
  - intros w1 He Hi. specialize (Hp w1 He Hi). destruct (f w1) as [x w2]. destruct Hp as [? ?]. eauto.
Qed.

(** The rule of sequencing: an error ends the program. *)
Lemma wp_bind {A B} (p : Prog W E A) (k : A -> Prog W E B) Q w :
  wp p (fun r w' => match r with Ok a => wp (k a) Q w' | Err e => Q (Err e) w' end) w -> wp (p ≫= k) Q w.
Proof.
  revert w. induction p as [[a|e]|X f k' IH]; intros w Hp; cbn [wp mbind Prog_bind] in *.
  - destruct (k a) as [r|X f k']; cbn [wp] in *.
    + intros w' He Hi. exact (Hp w' He Hi w' (rtc_refl _ _) Hi).
    + intros w1 He Hi. exact (Hp w1 He Hi w1 (rtc_refl _ _) Hi).
  - done.
  - intros w1 He Hi. specialize (Hp w1 He Hi). destruct (f w1) as [x w2]. destruct Hp as [? Hp]. split; [done|]. by apply IH.
Qed.

Lemma wp_ret {A} (a : A) (Q : res E A -> W -> Prop) w :
  (forall w', rtc env w w' -> I w' -> Q (Ok a) w') -> wp (mret a : Prog W E A) Q w.
Proof. done. Qed.
Lemma wp_stop {A} (e : E) (Q : res E A -> W -> Prop) (w : W) :
  (forall w', rtc env w w' -> I w' -> Q (Err e) w') -> wp (stop e : Prog W E A) Q w.
Proof. done. Qed.
Lemma wp_failWhen (b : bool) (e : E) (Q : res E unit -> W -> Prop) w :
  (forall w', rtc env w w' -> I w' -> Q (if b then Err e else Ok tt) w') -> wp (failWhen b e) Q w.
Proof. by destruct b. Qed.
Lemma wp_atomic {A} (f : W -> res E A * W) (Q : res E A -> W -> Prop) w :
  (forall w1, rtc env w w1 -> I w1 -> I (f w1).2 /\ forall w', rtc env (f w1).2 w' -> I w' -> Q (f w1).1 w') ->
  wp (atomic f) Q w.
Proof. intros H w1 He Hi. specialize (H w1 He Hi). by destruct (f w1) as [x w2]. Qed.

(** *** Triples: what holds when the program returns a value *)
Definition stable (P : W -> Prop) : Prop := forall w w', env w w' -> P w -> P w'.
Lemma stable_rtc P w w' : stable P -> rtc env w w' -> P w -> P w'.
Proof. intros HP. induction 1; eauto. Qed.
Lemma stable_true : stable (fun _ => True).
Proof. by intros w w' _ _. Qed.
Lemma stable_and P Q : stable P -> stable Q -> stable (fun w => P w /\ Q w).
Proof. intros HP HQ w w' He [? ?]. eauto. Qed.
Lemma stable_pure (phi : Prop) : stable (fun _ => phi).
Proof. by intros w w' _ H. Qed.
Lemma stable_exists {X} (P : X -> W -> Prop) : (forall x, stable (P x)) -> stable (fun w => exists x, P x w).
Proof. intros HP w w' He [x ?]. exists x. by eapply HP. Qed.

Definition triple {A} (P : W -> Prop) (p : Prog W E A) (Q : A -> W -> Prop) : Prop :=
  forall w, P w -> wp p (fun r w' => match r with Ok a => Q a w' | Err _ => True end) w.
Lemma triple_bind {A B} P (p : Prog W E A) Q (k : A -> Prog W E B) R :
  triple P p Q -> (forall a, triple (Q a) (k a) R) -> triple P (p ≫= k) R.
Proof.
  intros Hp Hk w HP. apply wp_bind. eapply wp_mono; [|by apply Hp]. intros [a|e] w' _ HQ; [by apply Hk|done].
Qed.
Lemma triple_mono {A} (P P' : W -> Prop) (p : Prog W E A) (Q Q' : A -> W -> Prop) :
  (forall w, P' w -> P w) -> (forall a w, I w -> Q a w -> Q' a w) -> triple P p Q -> triple P' p Q'.
Proof. intros HP HQ Hp w H. eapply wp_mono; [|by apply Hp, HP]. intros [a|e] w' Hi H'; eauto. Qed.
Lemma triple_pre {A} (P P' : W -> Prop) (p : Prog W E A) Q : (forall w, P' w -> P w) -> triple P p Q -> triple P' p Q.
Proof. intros HP. apply triple_mono; auto. Qed.
Lemma triple_post {A} (P : W -> Prop) (p : Prog W E A) (Q Q' : A -> W -> Prop) : (forall a w, I w -> Q a w -> Q' a w) -> triple P p Q -> triple P p Q'.
Proof. intros HQ. apply triple_mono; auto. Qed.
Lemma triple_ret {A} (a : A) (Q : A -> W -> Prop) : stable (Q a) -> triple (Q a) (mret a : Prog W E A) Q.
Proof. intros HQ w H w' He _. by eapply stable_rtc. Qed.
Lemma triple_stop {A} (e : E) P (Q : A -> W -> Prop) : triple P (stop e : Prog W E A) Q.
Proof. intros w H w' He _. done. Qed.
Lemma triple_failWhen (b : bool) (e : E) P : stable P -> triple P (failWhen b e : Prog W E unit) (fun _ w => P w /\ b = false).
Proof. intros HP w H. destruct b; cbn; intros w' He _; [done|]. split; [by eapply stable_rtc|done]. Qed.
Lemma triple_ofRes {A} (r : res E A) P : stable P -> triple P (ofRes r : Prog W E A) (fun a w => P w /\ r = Ok a).
Proof. intros HP w H w' He _. destruct r; [|done]. split; [by eapply stable_rtc|done]. Qed.
Lemma triple_atomic {A} (f : W -> res E A * W) P (Q : A -> W -> Prop) :
  stable P -> (forall a, stable (Q a)) ->
  (forall w, I w -> P w -> I (f w).2 /\ forall a, (f w).1 = Ok a -> Q a (f w).2) -> triple P (atomic f) Q.
Proof.
  intros HP HQ H w Hw w1 He Hi. specialize (H w1 Hi (stable_rtc _ _ _ HP He Hw)). destruct (f w1) as [x w2] eqn:Hf.
  destruct H as [H1 H2]. split; [done|]. intros w' He' _. destruct x as [a|e]; [|done]. eapply stable_rtc; eauto.
Qed.
(** A program that ends in a call whose result is thrown away. *)
Lemma triple_pull {A} (phi : Prop) (P : W -> Prop) (p : Prog W E A) Q :
  (phi -> triple P p Q) -> triple (fun w => P w /\ phi) p Q.
Proof. intros H w [HP Hphi]. by apply H. Qed.
Lemma triple_pullE {A X} (P : X -> W -> Prop) (p : Prog W E A) Q :
  (forall x, triple (P x) p Q) -> triple (fun w => exists x, P x w) p Q.
Proof. intros H w [x HP]. by eapply H. Qed.
Lemma triple_sound {A} P (p : Prog W E A) Q w o w' :
  triple P p Q -> P w -> I w -> runs p w o w' -> I w' /\ forall a, o = Some (Ok a) -> Q a w'.
Proof.
  intros Hp HP Hi Hr. destruct (wp_sound p _ w o w' (Hp w HP) Hi Hr) as [? HQ]. split; [done|].
  intros a ->. exact (HQ _ eq_refl).
Qed.
End Runs.

(** ** Executing *)
Lemma execute_bind {W E A B} (p : Prog W E A) (k : A -> Prog W E B) w :
  execute (p ≫= k) w = match execute p w with (Ok a, w') => execute (k a) w' | (Err e, w') => (Err e, w') end.
Proof.
  revert w. induction p as [[a|e]|X f k' IH]; intros w; cbn [mbind Prog_bind execute]; try done.
  destruct (f w) as [x w']. apply IH.
Qed.

(** ** A sequence of calls

    [forEach]: a loop over a list that stops at the first error. *)
Fixpoint forEach {W E A B} (f : A -> Prog W E B) (l : list A) : Prog W E (list B) :=
  match l with
  | [] => mret []
  | x :: l => b ← f x; bs ← forEach f l; mret (b :: bs)
  end.
