(* ===== verification/MigrationDb.v ===== *)
(** * Physical migration: the tables

    The tables a train run's move between two physical booking shards reads and
    writes.  On a shard ([src/migrations/booking-shard/000001_booking_shard.up.sql],
    [000002_payment_ticket_issuance.up.sql]) the migration sees the fifteen
    authoritative tables as JSON rows, and owns the write fence, the
    target-write evidence, the capture state, the mutation journal, the apply
    receipts and the outbox staging area.  In the control database
    ([src/migrations/000009_physical_shard_control_plane.up.sql]) it owns the
    migration ledger and its checkpoints, and moves the assignment, the
    reservation directory, the booking commands and the shard locators.

    Foreign keys to train_run_booking_snapshots(train_run_id,
    assignment_generation) are modelled with their ON UPDATE CASCADE and ON
    DELETE RESTRICT, and so are the fence's generation guard and the capture
    triggers.  Every other constraint of the shard tables and of the control
    database is an arbitrary predicate: a statement (a commit, in the control
    database) whose result it refuses fails.  gen_random_uuid() is a function
    of the environment.  A journal entry's primary_key is its entity_id;
    row_version and metadata are not modelled. *)

From S2P Require Import Prelude Transaction Sharding PaymentDomain PaymentDb BookingDb ShardDb CommandDb.
Import ShardTypes Physical.

Inductive MErr :=
| ErrInvalidInput | ErrInvalidLimits | ErrInvalidState | ErrInvalidBatch | ErrJournalGap | ErrValidationFailed | ErrCheckpointConflict
| ErrReverseMigrationRequired | ErrGenerationNotNewer | ErrTargetEvidenceMissing | ErrRetentionWindowOpen | ErrCleanupLimitExceeded
| ErrCleanupConflict | ErrShardOperation | ErrApplyReceiptConflict | ErrMachine (e : PhysicalError)
| errUnavailable | errState | errUnsupportedMigrationSource.
#[export] Instance PhysicalError_eq_dec : EqDecision PhysicalError.
Proof. solve_decision. Defined.
#[export] Instance MErr_eq_dec : EqDecision MErr.
Proof. solve_decision. Defined.

(** ** Rows as JSON

    [rw_cols]: the columns other than id, train_run_id and
    assignment_generation. *)
Inductive JV := JNull | JBool (b : bool) | JNum (z : Z) | JText (s : string) | JUuid (u : uuid) | JTime (z : Z).
#[export] Instance JV_eq_dec : EqDecision JV.
Proof. solve_decision. Defined.
Record Row := mkRow { rw_run : uuid; rw_gen : Z; rw_cols : gmap string JV }.
#[export] Instance Row_eq_dec : EqDecision Row.
Proof. solve_decision. Defined.

Record tableSpec := mkSpec { ts_name : string; ts_columns : list string }.
Definition snapshotsTable : string := "train_run_booking_snapshots".
Definition outboxTable : string := "outbox_events".
Definition migrationTables : list tableSpec := [
  mkSpec snapshotsTable ["train_id"; "route_id"; "service_date"; "segment_count"; "route_version"; "booking_policy_version"; "source_version"; "status"; "bookable"; "active"; "source_updated_at"; "created_at"; "updated_at"];
  mkSpec "booking_seat_catalog" ["train_id"; "coach_id"; "seat_id"; "coach_order"; "seat_order"; "seat_class"; "active"; "source_version"; "source_updated_at"; "created_at"; "updated_at"];
  mkSpec "booking_fare_snapshots" ["segment_count"; "from_stop_index"; "to_stop_index"; "seat_class"; "amount_minor"; "currency"; "source_version"; "active"; "source_updated_at"; "created_at"; "updated_at"];
  mkSpec "seat_inventory" ["segment_count"; "seat_id"; "seat_class"; "occupied_segments"; "version"; "created_at"; "updated_at"];
  mkSpec "reservations" ["user_id"; "segment_count"; "from_stop_index"; "to_stop_index"; "seat_class"; "status"; "expires_at"; "total_amount_minor"; "currency"; "payment_intent_id"; "payment_amount_minor"; "payment_currency"; "payment_grace_expires_at"; "created_at"; "updated_at"];
  mkSpec "reservation_seats" ["reservation_id"; "segment_count"; "seat_id"; "passenger_id"; "fare_snapshot_id"; "segment_mask"; "fare_amount_minor"; "currency"; "created_at"; "updated_at"];
  mkSpec "ticket_orders" ["reservation_id"; "user_id"; "status"; "total_amount_minor"; "currency"; "payment_intent_id"; "payment_currency"; "authorized_amount_minor"; "captured_amount_minor"; "refunded_amount_minor"; "created_at"; "updated_at"];
  mkSpec "tickets" ["ticket_order_id"; "reservation_seat_id"; "ticket_code"; "status"; "created_at"; "updated_at"];
  mkSpec "idempotency_records" ["user_id"; "operation"; "key_hash"; "request_fingerprint"; "status"; "resource_type"; "resource_id"; "expires_at"; "created_at"; "updated_at"];
  mkSpec "booking_command_receipts" ["command_id"; "command_type"; "request_fingerprint"; "status"; "result_type"; "result_id"; "result_source_version"; "result_booking_policy_version"; "error_code"; "started_at"; "completed_at"; "created_at"; "updated_at"];
  mkSpec "payment_command_receipts" ["command_id"; "payment_intent_id"; "reservation_id"; "operation"; "request_fingerprint"; "amount_minor"; "currency"; "status"; "result_resource_id"; "result_status"; "error_code"; "created_at"; "committed_at"; "updated_at"];
  mkSpec "ticket_issuance_receipts" ["issuance_id"; "payment_intent_id"; "reservation_id"; "payment_operation_id"; "ticket_order_id"; "capture_proof_hash"; "amount_minor"; "currency"; "issued_ticket_count"; "created_at"];
  mkSpec "payment_refund_receipts" ["refund_operation_id"; "payment_intent_id"; "reservation_id"; "ticket_order_id"; "refund_proof_hash"; "captured_amount_minor"; "refunded_amount_minor"; "currency"; "refunded_at"; "created_at"];
  mkSpec "payment_compensation_receipts" ["compensation_id"; "payment_intent_id"; "reservation_id"; "ticket_order_id"; "refund_receipt_id"; "released_seat_count"; "cancelled_ticket_count"; "applied_at"; "created_at"];
  mkSpec outboxTable ["aggregate_type"; "aggregate_id"; "event_type"; "event_version"; "payload"; "status"; "attempts"; "next_attempt_at"; "locked_at"; "locked_by"; "lease_token"; "created_at"; "updated_at"; "published_at"]].
Definition findTable (name : string) : option tableSpec := find (fun s => bool_decide (ts_name s = name)) migrationTables.

(** normalizeRow: the target's generation, and an outbox event that a relay
    holds becomes pending. *)
Definition normalizeRow (r : Row) (table : string) (generation : Z) : Row :=
  mkRow (rw_run r) generation
    (if bool_decide (table = outboxTable) && bool_decide (rw_cols r !! "status"%string = Some (JText "processing"))
     then <["lease_token" := JNull]> (<["locked_by" := JNull]> (<["locked_at" := JNull]> (<["status" := JText "pending"]> (rw_cols r))))
     else rw_cols r).

(** ** The shard *)
Record Fence := mkFence { fn_gen : Z; fn_state : string; fn_enabled : bool }.
#[export] Instance Fence_eq_dec : EqDecision Fence.
Proof. solve_decision. Defined.
(** successful_write_count, and the three baseline counts once initialised. *)
Record Evid := mkEvid { ed_writes : Z; ed_base : option (Z * Z * Z) }.
(** [cs_disabled]: disabled_at IS NOT NULL. *)
Record CaptureState := mkCapture { cs_migration : uuid; cs_gen : Z; cs_enabled : bool; cs_next : Z; cs_disabled : bool }.
Record JEntry := mkJEntry { je_id : uuid; je_seq : Z; je_table : string; je_op : string; je_entity : uuid }.
(** The journal by (migration_id, mutation_sequence). *)
Record JRow := mkJRow { jr_run : uuid; jr_gen : Z; jr_entry : JEntry }.
(** By (migration_id, source_journal_id). *)
Record Receipt := mkReceipt { ar_run : uuid; ar_gen : Z; ar_seq : Z; ar_fp : digest }.
Record Store := mkStore {
  rowsOf : gmap (string * uuid) Row; fenceOf : gmap uuid Fence; evidenceOf : gmap (uuid * Z) Evid; captureOf : gmap uuid CaptureState;
  journalOf : gmap (uuid * Z) JRow; receiptsOf : gmap (uuid * uuid) Receipt; stagingOf : gmap (uuid * uuid) Row }.
Definition set_rows d v := mkStore v (fenceOf d) (evidenceOf d) (captureOf d) (journalOf d) (receiptsOf d) (stagingOf d).
Definition set_fence d v := mkStore (rowsOf d) v (evidenceOf d) (captureOf d) (journalOf d) (receiptsOf d) (stagingOf d).
Definition set_evid d v := mkStore (rowsOf d) (fenceOf d) v (captureOf d) (journalOf d) (receiptsOf d) (stagingOf d).
Definition set_capture d v := mkStore (rowsOf d) (fenceOf d) (evidenceOf d) v (journalOf d) (receiptsOf d) (stagingOf d).
Definition set_journal d v := mkStore (rowsOf d) (fenceOf d) (evidenceOf d) (captureOf d) v (receiptsOf d) (stagingOf d).
Definition set_receipts d v := mkStore (rowsOf d) (fenceOf d) (evidenceOf d) (captureOf d) (journalOf d) v (stagingOf d).
Definition set_staging d v := mkStore (rowsOf d) (fenceOf d) (evidenceOf d) (captureOf d) (journalOf d) (receiptsOf d) v.

(** What the databases supply: gen_random_uuid() for a journal entry, the
    constraints that are not modelled, SHA-256 of a journal entry and of a batch
    of rows, the md5 of the rows of a table, the length of a row's JSON text,
    clock_timestamp(), and whether the server and its schema (version 2, its
    tables and its capture triggers) are ready. *)
Record StoreEnv := mkStoreEnv {
  se_random : uuid -> Z -> uuid; se_ok : Store -> bool; se_fp : JEntry -> digest; se_batchFp : list (string * uuid * Row) -> digest;
  se_md5 : list (uuid * Row) -> digest; se_length : Row -> Z; se_now : Z; se_ready : bool }.

(** *** Reading *)
Definition inScope (run : uuid) (gen : Z) (r : Row) : bool := bool_decide (rw_run r = run) && (rw_gen r =? gen).
(** The rows of a table in the scope of a run and generation, by id. *)
Definition tableRows (d : Store) (table : string) (run : uuid) (gen : Z) : list (uuid * Row) :=
  byId (omap (fun kr => if bool_decide (kr.1.1 = table) && inScope run gen kr.2 then Some (kr.1.2, kr.2) else None) (map_to_list (rowsOf d))).
Definition countRows (d : Store) (table : string) (run : uuid) (gen : Z) : Z := Z.of_nat (length (tableRows d table run gen)).
Definition rowIn (d : Store) (table : string) (i run : uuid) (gen : Z) : option Row :=
  match rowsOf d !! (table, i) with Some r => if inScope run gen r then Some r else None | None => None end.
Definition snapshotAt (d : Store) (run : uuid) (gen : Z) : bool := negb (countRows d snapshotsTable run gen =? 0).

(** *** Capture triggers *)
Definition capturedTable (table : string) : bool :=
  bool_decide (is_Some (findTable table)) && negb (bool_decide (table = outboxTable)).
Definition captureEnabled (d : Store) (run : uuid) : bool :=
  match captureOf d !! run with Some c => cs_enabled c | None => false end.
(** booking_shard_capture_mutation and booking_shard_capture_payment_mutation:
    [None] is the exception they raise. *)
Definition captureMutation (env : StoreEnv) (table op : string) (i run : uuid) (gen : Z) (d : Store) : option Store :=
  if negb (capturedTable table) then Some d else
  match captureOf d !! run with
  | None => Some d
  | Some c =>
      if negb (cs_enabled c) then Some d else
      if negb (gen =? cs_gen c) then None else
      let seq := cs_next c + 1 in
      let id := se_random env (cs_migration c) seq in
      if existsRow (journalOf d) (fun k j => bool_decide (je_id (jr_entry j) = id)) || bool_decide (is_Some (journalOf d !! (cs_migration c, seq)))
      then None
      else Some (set_journal
        (set_capture d (<[run := mkCapture (cs_migration c) (cs_gen c) true seq (cs_disabled c)]> (captureOf d)))
        (<[(cs_migration c, seq) := mkJRow run gen (mkJEntry id seq table op i)]> (journalOf d)))
  end.

(** *** Statements on rows *)
Definition checked (env : StoreEnv) (d : Store) : option Store := if se_ok env d then Some d else None.
(** The columns an INSERT lists; one that the JSON object lacks is NULL. *)
Definition project (spec : tableSpec) (r : Row) : Row :=
  mkRow (rw_run r) (rw_gen r) (list_to_map ((fun c => (c, default JNull (rw_cols r !! c))) <$> ts_columns spec)).
(** booking_shard_set_updated_at, on the tables that have the column. *)
Definition touch (env : StoreEnv) (r : Row) : Row :=
  mkRow (rw_run r) (rw_gen r)
    (if bool_decide (is_Some (rw_cols r !! "updated_at"%string)) then <["updated_at" := JTime (se_now env)]> (rw_cols r) else rw_cols r).

(** ON UPDATE CASCADE from a snapshot whose generation changes. *)
Definition regen (run : uuid) (old new : Z) (g : Z) (r : uuid) : Z := if bool_decide (r = run) && (g =? old) then new else g.
Definition cascadeGen (run : uuid) (old new : Z) (d : Store) : Store :=
  mkStore
    ((fun r => mkRow (rw_run r) (regen run old new (rw_gen r) (rw_run r)) (rw_cols r)) <$> rowsOf d)
    (map_imap (fun r f => Some (mkFence (regen run old new (fn_gen f) r) (fn_state f) (fn_enabled f))) (fenceOf d))
    (kmap (fun k => (k.1, regen run old new k.2 k.1)) (evidenceOf d))
    (map_imap (fun r c => Some (mkCapture (cs_migration c) (regen run old new (cs_gen c) r) (cs_enabled c) (cs_next c) (cs_disabled c))) (captureOf d))
    ((fun j => mkJRow (jr_run j) (regen run old new (jr_gen j) (jr_run j)) (jr_entry j)) <$> journalOf d)
    ((fun a => mkReceipt (ar_run a) (regen run old new (ar_gen a) (ar_run a)) (ar_seq a) (ar_fp a)) <$> receiptsOf d)
    (stagingOf d).
Definition childRows (d : Store) (run : uuid) (gen : Z) : bool :=
  existsRow (rowsOf d) (fun k r => negb (bool_decide (k.1 = snapshotsTable)) && capturedTable k.1 && inScope run gen r).
(** The update of the generation of a snapshot.  The cascade reaches the
    booking tables before migration_capture_state, so the trigger of a row it
    touches there raises while a capture is enabled; the snapshot's own trigger
    runs last.  The new pair is unique. *)
Definition moveSnapshot (env : StoreEnv) (i run : uuid) (old new : Z) (d : Store) : option Store :=
  if snapshotAt d run new || (captureEnabled d run && childRows d run old) then None else
  captureMutation env snapshotsTable "UPDATE" i run new (cascadeGen run old new d).

(** upsertSQL: INSERT ... ON CONFLICT (id) DO UPDATE, for one row. *)
Definition upsertRow (env : StoreEnv) (spec : tableSpec) (i : uuid) (r : Row) (d : Store) : option Store :=
  let t := ts_name spec in
  match rowsOf d !! (t, i) with
  | None =>
      match captureMutation env t "INSERT" i (rw_run r) (rw_gen r) (set_rows d (<[(t, i) := project spec r]> (rowsOf d))) with
      | Some d' => checked env d'
      | None => None
      end
  | Some old =>
      let put d := set_rows d (<[(t, i) := touch env (project spec r)]> (rowsOf d)) in
      match
        if bool_decide (t = snapshotsTable) && negb (bool_decide (rw_run old = rw_run r) && (rw_gen old =? rw_gen r)) then
          if bool_decide (rw_run old = rw_run r) then option_map put (moveSnapshot env i (rw_run r) (rw_gen old) (rw_gen r) d) else None
        else captureMutation env t "UPDATE" i (rw_run r) (rw_gen r) (put d)
      with
      | Some d' => checked env d'
      | None => None
      end
  end.
(** DELETE ... WHERE id, train_run_id and assignment_generation. *)
Definition deleteRow (env : StoreEnv) (table : string) (i run : uuid) (gen : Z) (d : Store) : option Store :=
  match rowIn d table i run gen with
  | None => Some d
  | Some _ =>
      match captureMutation env table "DELETE" i run gen (set_rows d (base.delete (table, i) (rowsOf d))) with
      | Some d' => checked env d'
      | None => None
      end
  end.
(** DELETE ... WHERE train_run_id and assignment_generation. *)
Fixpoint deleteAll (env : StoreEnv) (table : string) (run : uuid) (gen : Z) (ids : list uuid) (d : Store) : option Store :=
  match ids with
  | [] => Some d
  | i :: ids => match deleteRow env table i run gen d with Some d' => deleteAll env table run gen ids d' | None => None end
  end.
Definition deleteTable (env : StoreEnv) (table : string) (run : uuid) (gen : Z) (d : Store) : option Store :=
  deleteAll env table run gen (tableRows d table run gen).*1 d.

(** What refers to a snapshot: ON DELETE RESTRICT. *)
Definition referenced (d : Store) (run : uuid) (gen : Z) : bool :=
  existsRow (rowsOf d) (fun k r => negb (bool_decide (k.1 = snapshotsTable)) && inScope run gen r) ||
  match fenceOf d !! run with Some f => fn_gen f =? gen | None => false end ||
  bool_decide (is_Some (evidenceOf d !! (run, gen))) ||
  match captureOf d !! run with Some c => cs_gen c =? gen | None => false end ||
  existsRow (journalOf d) (fun _ j => bool_decide (jr_run j = run) && (jr_gen j =? gen)) ||
  existsRow (receiptsOf d) (fun _ a => bool_decide (ar_run a = run) && (ar_gen a =? gen)).
Definition deleteSnapshot (env : StoreEnv) (run : uuid) (gen : Z) (d : Store) : option Store :=
  if negb (snapshotAt d run gen) then Some d else if referenced d run gen then None else deleteTable env snapshotsTable run gen d.

(** *** Statements on the fence and the evidence *)
(** UPDATE train_run_write_fences ... WHERE train_run_id,
    assignment_generation and state IN (...): one row, or none. *)
Definition updFence (run : uuid) (gen : Z) (from : list string) (state : string) (enabled : bool) (d : Store) : option Store :=
  match fenceOf d !! run with
  | Some f => if (fn_gen f =? gen) && bool_decide (fn_state f ∈ from) then Some (set_fence d (<[run := mkFence gen state enabled]> (fenceOf d))) else None
  | None => None
  end.
(** INSERT a standby fence ... ON CONFLICT DO UPDATE ... WHERE NOT
    write_enabled: the number of rows; [None] violates the foreign key or the
    generation guard. *)
Definition standbyFence (run : uuid) (gen : Z) (d : Store) : option (nat * Store) :=
  let put := set_fence d (<[run := mkFence gen "standby" false]> (fenceOf d)) in
  match fenceOf d !! run with
  | None => if snapshotAt d run gen then Some (1%nat, put) else None
  | Some f =>
      if fn_enabled f then Some (0%nat, d) else
      if (gen <? fn_gen f) || negb (snapshotAt d run gen) then None else Some (1%nat, put)
  end.
Definition insEvidence (run : uuid) (gen : Z) (d : Store) : option Store :=
  match evidenceOf d !! (run, gen) with
  | Some _ => Some d
  | None => if snapshotAt d run gen then Some (set_evid d (<[(run, gen) := mkEvid 0 None]> (evidenceOf d))) else None
  end.
(** UPDATE ... WHERE successful_write_count = 0 AND NOT baseline_initialized. *)
Definition setBaseline (run : uuid) (gen reservations receipts outbox : Z) (d : Store) : option Store :=
  match evidenceOf d !! (run, gen) with
  | Some (mkEvid 0 None) => Some (set_evid d (<[(run, gen) := mkEvid 0 (Some (reservations, receipts, outbox))]> (evidenceOf d)))
  | _ => None
  end.

(** ** The control database *)
Inductive CleanupState := CleanupNotRequested | CleanupEligible | CleanupConfirmed | CleanupRunning | CleanupCompleted | CleanupFailed.
#[export] Instance CleanupState_eq_dec : EqDecision CleanupState.
Proof. solve_decision. Defined.
(** physical_shard_migrations. *)
Record MigRow := mkMigRow {
  mg_parent : option uuid; mg_run : uuid; mg_source : string; mg_target : string; mg_sgen : Z; mg_tgen : Z; mg_reverse : bool;
  mg_state : PhysicalState; mg_start : option Z; mg_last : option Z; mg_final : option Z; mg_copied : Z; mg_replayed : Z;
  mg_version : Z; mg_fencedAt : option Z; mg_enabledAt : option Z; mg_switchedAt : option Z; mg_writes : Z; mg_rollbackGen : option Z;
  mg_window : Z; mg_deadline : option Z; mg_retention : option Z; mg_cleanup : CleanupState; mg_hash : option digest;
  mg_cleanedAt : option Z; mg_completedAt : option Z }.
(** physical_shard_migration_checkpoints by (migration_id, checkpoint_kind);
    object_name is always migration_engine. *)
Inductive Cursor := CursorEmpty | CursorAt (index : nat) (id : uuid) | CursorComplete.
#[export] Instance Cursor_eq_dec : EqDecision Cursor.
Proof. solve_decision. Defined.
Inductive CheckpointValue := CpCursor (c : Cursor) | CpPrepared | CpNumber (z : Z).
Record Checkpoint := mkCheckpoint { ck_value : CheckpointValue; ck_source : option Z; ck_target : option Z; ck_rows : Z; ck_completed : bool }.
(** [md_base]: the tables of the booking commands, with the assignments, whose
    a_migration is active_physical_migration_id, and the shard catalog.
    [md_events]: the outbox events by migration and type, from which their ids
    are derived. *)
Record MigDb := mkMigDb {
  md_base : ControlDb; md_migs : gmap uuid MigRow; md_checks : gmap (uuid * string) Checkpoint; md_events : gset (uuid * string) }.
Definition set_base d v := mkMigDb v (md_migs d) (md_checks d) (md_events d).
Definition set_migs d v := mkMigDb (md_base d) v (md_checks d) (md_events d).
Definition set_checks d v := mkMigDb (md_base d) (md_migs d) v (md_events d).
Definition set_events d v := mkMigDb (md_base d) (md_migs d) (md_checks d) v.

(** physical_shard_migrations_one_active_idx. *)
Definition isActive (s : PhysicalState) : bool :=
  match s with
  | PhysicalStateCompleted | PhysicalStateReverseMigrationRequired | PhysicalStateFailed | PhysicalStateRolledBack => false
  | _ => true
  end.
Definition oneActive (k : uuid) (r : MigRow) (d : MigDb) : bool :=
  negb (isActive (mg_state r)) ||
  negb (existsRow (md_migs d) (fun k' r' => negb (bool_decide (k' = k)) && bool_decide (mg_run r' = mg_run r) && isActive (mg_state r'))).
(** The CHECKs of the ledger. *)
Definition nonNeg (o : option Z) : bool := match o with Some z => 0 <=? z | None => true end.
Definition migCheck (r : MigRow) : bool :=
  (0 <? mg_sgen r) && (mg_sgen r <? mg_tgen r) && negb (bool_decide (mg_source r = mg_target r)) && isPhysicalState (mg_state r) &&
  (0 <=? mg_copied r) && (0 <=? mg_replayed r) && (0 <=? mg_version r) && (0 <=? mg_writes r) &&
  match mg_rollbackGen r with Some g => mg_tgen r <? g | None => true end && (1 <=? mg_window r) && (mg_window r <=? 86400) &&
  nonNeg (mg_start r) && nonNeg (mg_last r) && nonNeg (mg_final r) &&
  match mg_final r, mg_last r with Some f, Some l => l <=? f | _, _ => true end &&
  match mg_enabledAt r with Some e => match mg_fencedAt r with Some f => f <=? e | None => false end | None => true end &&
  match mg_switchedAt r with Some s => match mg_enabledAt r with Some e => e <=? s | None => false end | None => true end &&
  match mg_deadline r with
  | Some dl => match mg_switchedAt r, mg_retention r with Some s, Some rt => (s <? dl) && (dl <=? rt) | _, _ => false end
  | None => true
  end &&
  Bool.eqb (bool_decide (is_Some (mg_hash r)))
    match mg_cleanup r with CleanupConfirmed | CleanupRunning | CleanupCompleted => true | _ => false end &&
  Bool.eqb (bool_decide (is_Some (mg_cleanedAt r))) (bool_decide (mg_cleanup r = CleanupCompleted)).
(** The row with its CHECKs, and the index. *)
Definition putMig (k : uuid) (r : MigRow) (d : MigDb) : option MigDb :=
  if migCheck r && oneActive k r d then Some (set_migs d (<[k := r]> (md_migs d))) else None.
Definition updMig (k : uuid) (f : MigRow -> MigRow) (d : MigDb) : option MigDb :=
  match md_migs d !! k with Some r => putMig k (f r) d | None => None end.
(** INSERT ... ON CONFLICT DO UPDATE of a checkpoint. *)
Definition putCheckpoint (k : uuid) (kind : string) (v : Checkpoint) (d : MigDb) : MigDb := set_checks d (<[(k, kind) := v]> (md_checks d)).
(** INSERT INTO outbox_events ... ON CONFLICT (id) DO NOTHING. *)
Definition addEvent (k : uuid) (type : string) (d : MigDb) : MigDb := set_events d ({[(k, type)]} ∪ md_events d).

Definition assignmentOf (d : MigDb) (run : uuid) : option AssignmentRow := runAssignments (cenv (md_base d)) !! run.
Definition putAssignment (run : uuid) (a : AssignmentRow) (d : MigDb) : MigDb :=
  let e := cenv (md_base d) in
  set_base d (set_cenv (md_base d) (mkControlEnv (users e) (passengersOf e) (<[run := a]> (runAssignments e)) (shardCatalog e) (legacyClaims e))).
(** UPDATE train_run_shard_assignments ... WHERE train_run_id AND a condition:
    one row, or none. *)
Definition updAssignment (run : uuid) (p : AssignmentRow -> bool) (f : AssignmentRow -> AssignmentRow) (d : MigDb) : option MigDb :=
  match assignmentOf d run with Some a => if p a then Some (putAssignment run (f a) d) else None | None => None end.

(** ** The databases together *)
Record World := mkWorld { ctl : MigDb; stores : gmap string Store }.
Definition set_ctl (w : World) d := mkWorld d (stores w).
Definition set_store (w : World) s d := mkWorld (ctl w) (<[s := d]> (stores w)).
