(* ===== verification/MigrationEngine.v ===== *)
(** * Physical migration: the engine

    [src/internal/sharding/physicalmigration/model.go] and [engine.go]: the
    durable record of a migration, the changes the engine asks the control
    store for, the interfaces of the control store and of the shard
    operations, and the engine that advances, rolls back, completes and
    reverses a migration over them.  Every call of an interface is a program
    over the databases ([CrashProgram]): the engine may stop between any two of
    their transactions.  Row and sequence counters stay below 2^63. *)

From S2P Require Import Prelude Transaction CrashProgram Sharding PaymentDomain PaymentDb BookingDb ShardDb CommandDb MigrationDb.
Import Physical.

(** ** model.go *)
Record Limits := mkLimits { OperationTimeout : Z; BaseCopyBatch : Z; JournalBatchLimit : Z; ValidationRows : Z; ValidationTables : Z }.

Record MigRecord := mkMigRecord {
  rc_id : uuid; rc_parent : uuid; rc_run : uuid; rc_source : string; rc_target : string; rc_sgen : Z; rc_tgen : Z; rc_retained : Z;
  rc_sproto : Z; rc_sschema : Z; rc_tproto : Z; rc_tschema : Z; rc_state : PhysicalState; rc_cursor : Cursor; rc_copied : Z; rc_start : Z;
  rc_last : Z; rc_final : Z; rc_replayed : Z; rc_version : Z; rc_writes : Z; rc_reverse : bool }.

(** The empty state. *)
Definition noState : PhysicalState := PhysicalStateOther "".
Record Change := mkChange {
  ch_id : uuid; ch_expected : PhysicalState; ch_next : PhysicalState; ch_expectedCursor : Cursor; ch_cursor : Cursor; ch_copied : Z;
  ch_start : option Z; ch_expectedReplay : option Z; ch_last : option Z; ch_replayed : Z; ch_final : option Z; ch_version : Z;
  ch_writes : option Z; ch_rollback : Z }.
Definition emptyChange : Change := mkChange 0%N noState noState CursorEmpty CursorEmpty 0 None None None 0 None 0 None 0.

Record ReversePlan := mkReversePlan { rp_original : uuid; rp_id : uuid; rp_generation : Z; rp_writes : Z }.
(** JSONRow: table, id and data. *)
Definition JSONRow : Type := string * uuid * Row.
Record BaseBatch := mkBaseBatch {
  bb_object : string; bb_cursor : Cursor; bb_next : Cursor; bb_rows : Z; bb_done : bool; bb_fp : digest; bb_payload : list JSONRow }.
(** [jn_payload]: the current source row, [None] for no data. *)
Record JournalEntry := mkJournalEntry { jn_entry : JEntry; jn_fp : digest; jn_payload : option Row }.
Record JournalBatch := mkJournalBatch { jb_entries : list JournalEntry; jb_sequence : Z }.
Record ValidationRequest := mkValidationRequest { vq_migration : MigRecord; vq_rows : Z; vq_tables : Z; vq_final : bool }.
Record ValidationResult := mkValidationResult { vr_passed : bool; vr_rows : Z; vr_tables : Z; vr_truncated : bool; vr_version : Z }.

Definition ApplyChange (r : MigRecord) (c : Change) : MigRecord :=
  mkMigRecord (rc_id r) (rc_parent r) (rc_run r) (rc_source r) (rc_target r) (rc_sgen r) (rc_tgen r) (rc_retained r) (rc_sproto r)
    (rc_sschema r) (rc_tproto r) (rc_tschema r)
    (if bool_decide (ch_next c = noState) then rc_state r else ch_next c)
    (if bool_decide (ch_cursor c = CursorEmpty) then rc_cursor r else ch_cursor c)
    (rc_copied r + ch_copied c) (default (rc_start r) (ch_start c)) (default (rc_last r) (ch_last c)) (default (rc_final r) (ch_final c))
    (rc_replayed r + ch_replayed c) (rc_version r + ch_version c) (default (rc_writes r) (ch_writes c)) (rc_reverse r).

(** The interfaces: what the engine calls. *)
Record ControlStore (W : Type) := mkControlStore {
  LoadRecord : uuid -> Prog W MErr MigRecord;
  Persist : Change -> Prog W MErr MigRecord;
  BeginDrain : Change -> Prog W MErr MigRecord;
  SwitchAssignment : Change -> Prog W MErr MigRecord;
  RollbackControl : Change -> Prog W MErr MigRecord;
  CompletionEligible : uuid -> Prog W MErr unit;
  CompleteControl : Change -> Prog W MErr MigRecord;
  CreateReverse : ReversePlan -> Prog W MErr MigRecord }.
Arguments LoadRecord {W}. Arguments Persist {W}. Arguments BeginDrain {W}. Arguments SwitchAssignment {W}. Arguments RollbackControl {W}.
Arguments CompletionEligible {W}. Arguments CompleteControl {W}. Arguments CreateReverse {W}. Arguments mkControlStore {W}.
Record ShardOperations (W : Type) := mkShardOperations {
  Preflight : MigRecord -> Prog W MErr unit;
  PrepareTarget : MigRecord -> Prog W MErr unit;
  EnableCapture : MigRecord -> Prog W MErr Z;
  ReadBaseBatch : MigRecord -> Cursor -> Z -> Prog W MErr BaseBatch;
  ApplyBaseBatch : MigRecord -> BaseBatch -> Prog W MErr unit;
  ReadJournal : MigRecord -> Z -> Z -> Z -> Prog W MErr JournalBatch;
  ApplyJournal : MigRecord -> JournalEntry -> Prog W MErr bool;
  CaptureOutbox : MigRecord -> Z -> Prog W MErr unit;
  Validate : ValidationRequest -> Prog W MErr ValidationResult;
  FenceSource : MigRecord -> Prog W MErr Z;
  EnableTarget : MigRecord -> Prog W MErr unit;
  TargetWriteCount : MigRecord -> Prog W MErr Z;
  TargetCommandOutboxEvidence : MigRecord -> Prog W MErr Z;
  RollbackBeforeTargetWrites : MigRecord -> Z -> Prog W MErr unit;
  DisableCapture : MigRecord -> Prog W MErr unit;
  RetainSource : MigRecord -> Prog W MErr unit }.
Arguments Preflight {W}. Arguments PrepareTarget {W}. Arguments EnableCapture {W}. Arguments ReadBaseBatch {W}. Arguments ApplyBaseBatch {W}.
Arguments ReadJournal {W}. Arguments ApplyJournal {W}. Arguments CaptureOutbox {W}. Arguments Validate {W}. Arguments FenceSource {W}.
Arguments EnableTarget {W}. Arguments TargetWriteCount {W}. Arguments TargetCommandOutboxEvidence {W}. Arguments RollbackBeforeTargetWrites {W}.
Arguments DisableCapture {W}. Arguments RetainSource {W}. Arguments mkShardOperations {W}.

(** ** engine.go *)
Definition NewEngine (limits : Limits) : res MErr Limits :=
  failif (OperationTimeout limits <=? 0) || (BaseCopyBatch limits <=? 0) || (JournalBatchLimit limits <=? 0) || (ValidationRows limits <=? 0) ||
         (ValidationTables limits <=? 0) with ErrInvalidLimits else
  Ok limits.

Definition isPhysicalEndpoint (shardID : string) : bool :=
  bool_decide (shardID = "physical-shard-0"%string) || bool_decide (shardID = "physical-shard-1"%string).
Definition validEndpointVersion (shardID : string) (protocolVersion schemaVersion : Z) : bool :=
  if negb (protocolVersion =? 1) then false else
  if bool_decide (shardID ∈ ["legacy"; "shard-0"; "shard-1"]) then schemaVersion =? 8 else
  if bool_decide (shardID ∈ ["physical-shard-0"; "physical-shard-1"]) then schemaVersion =? 2 else false.
Definition validateRecord (r : MigRecord) : res MErr unit :=
  failif bool_decide (rc_id r = uuidNil) || bool_decide (rc_run r = uuidNil) || bool_decide (rc_source r = ""%string) ||
         bool_decide (rc_target r = ""%string) || bool_decide (rc_source r = rc_target r) || (rc_sgen r <=? 0) || (rc_tgen r <=? rc_sgen r) ||
         bool_decide (rc_state r = noState) with ErrInvalidInput else
  failif negb (validEndpointVersion (rc_source r) (rc_sproto r) (rc_sschema r)) ||
         negb (validEndpointVersion (rc_target r) (rc_tproto r) (rc_tschema r)) ||
         (negb (isPhysicalEndpoint (rc_source r)) && negb (isPhysicalEndpoint (rc_target r))) ||
         (negb (isPhysicalEndpoint (rc_target r)) && negb (rc_reverse r)) with ErrInvalidInput else
  failif rc_reverse r && ((rc_retained r <=? 0) || (rc_tgen r <=? rc_retained r)) with ErrInvalidInput else
  Ok tt.

Definition makeTransition (r : MigRecord) (next : PhysicalState) (patch : Change) : res MErr Change :=
  match RestorePhysical (mkSnapshot (rc_state r) (rc_tgen r) (0 <? rc_writes r)) with
  | Err e => Err (ErrMachine e)
  | Ok machine =>
      match Transition machine next with
      | Err e => Err (ErrMachine e)
      | Ok _ =>
          Ok (mkChange (rc_id r) (rc_state r) next (ch_expectedCursor patch) (ch_cursor patch) (ch_copied patch) (ch_start patch)
                (ch_expectedReplay patch) (ch_last patch) (ch_replayed patch) (ch_final patch) (ch_version patch) (ch_writes patch) (ch_rollback patch))
      end
  end.

(** A patch that sets only the fields named. *)
Definition patchSequence (start last expected : Z) : Change :=
  mkChange 0%N noState noState CursorEmpty CursorEmpty 0 (Some start) (Some expected) (Some last) 0 None 0 None 0.
Definition patchVersion (delta : Z) : Change := mkChange 0%N noState noState CursorEmpty CursorEmpty 0 None None None 0 None delta None 0.
Definition patchFinal (sequence : Z) : Change := mkChange 0%N noState noState CursorEmpty CursorEmpty 0 None None None 0 (Some sequence) 0 None 0.
Definition patchRollback (generation : Z) : Change := mkChange 0%N noState noState CursorEmpty CursorEmpty 0 None None None 0 None 0 (Some 0) generation.
(** The change that checkpoints a journal batch. *)
Definition replayChange (r : MigRecord) (next : PhysicalState) (last rows : Z) : Change :=
  mkChange (rc_id r) (rc_state r) next CursorEmpty CursorEmpty 0 None (Some (rc_last r)) (Some last) rows None 0 None 0.
Definition copyChange (r : MigRecord) (next : PhysicalState) (batch : BaseBatch) : Change :=
  mkChange (rc_id r) (rc_state r) next (rc_cursor r) (bb_next batch) (bb_rows batch) None None None 0 None 0 None 0.

Section Engine.
Context {W : Type} (control : ControlStore W) (shards : ShardOperations W) (limits : Limits).

Definition transition (r : MigRecord) (next : PhysicalState) (patch : Change) : Prog W MErr MigRecord :=
  change ← ofRes (makeTransition r next patch); Persist control change.

Definition validateResult (r : MigRecord) (final : bool) : Prog W MErr ValidationResult :=
  _ ← CaptureOutbox shards r (ValidationRows limits);
  result ← Validate shards (mkValidationRequest r (ValidationRows limits) (ValidationTables limits) final);
  _ ← failWhen (negb (vr_passed result) || vr_truncated result || (vr_rows result <? 0) || (ValidationRows limits <? vr_rows result) ||
                (vr_tables result <? 0) || (ValidationTables limits <? vr_tables result) || (vr_version result <=? rc_version r)) ErrValidationFailed;
  mret result.

Definition validate (r : MigRecord) (final : bool) (next : PhysicalState) : Prog W MErr MigRecord :=
  result ← validateResult r final; transition r next (patchVersion (vr_version result - rc_version r)).

(** The loop over the entries of a batch: each has the expected sequence. *)
Fixpoint applyEntries (r : MigRecord) (expected : Z) (entries : list JournalEntry) : Prog W MErr unit :=
  match entries with
  | [] => mret tt
  | e :: entries =>
      let j := jn_entry e in
      _ ← failWhen (bool_decide (je_id j = uuidNil) || bool_decide (je_entity j = uuidNil) || negb (je_seq j =? expected) ||
                    bool_decide (je_table j = ""%string) || negb (bool_decide (je_op j ∈ ["INSERT"; "UPDATE"; "DELETE"]%string))) ErrJournalGap;
      _ ← ApplyJournal shards r e;
      applyEntries r (expected + 1) entries
  end.

Definition readAndApplyJournal (r : MigRecord) (through : Z) : Prog W MErr (JournalBatch * Z) :=
  batch ← ReadJournal shards r (rc_last r) through (JournalBatchLimit limits);
  _ ← failWhen ((JournalBatchLimit limits <? Z.of_nat (length (jb_entries batch))) || (jb_sequence batch <? rc_last r)) ErrInvalidBatch;
  _ ← applyEntries r (rc_last r + 1) (jb_entries batch);
  let lastSeq := match last (jb_entries batch) with Some e => je_seq (jn_entry e) | None => rc_last r end in
  _ ← failWhen ((jb_sequence batch <? lastSeq) || (bool_decide (rc_state r = PhysicalStateSourceFenced) && (rc_final r <? lastSeq))) ErrInvalidBatch;
  mret (batch, lastSeq).

Definition replayOneBatch (r : MigRecord) : Prog W MErr MigRecord :=
  let through := if bool_decide (rc_state r = PhysicalStateSourceFenced) then rc_final r else 0 in
  '(batch, lastSeq) ← readAndApplyJournal r through;
  let next := if bool_decide (rc_state r = PhysicalStateCatchingUp) && (lastSeq =? jb_sequence batch) then PhysicalStateValidatingOnline else rc_state r in
  let next := if bool_decide (rc_state r = PhysicalStateSourceFenced) && (lastSeq =? rc_final r) then PhysicalStateFinalCatchup else next in
  Persist control (replayChange r next lastSeq (Z.of_nat (length (jb_entries batch)))).

Definition copyOneBatch (r : MigRecord) : Prog W MErr MigRecord :=
  batch ← ReadBaseBatch shards r (rc_cursor r) (BaseCopyBatch limits);
  _ ← failWhen (negb (bool_decide (bb_cursor batch = rc_cursor r)) || (bb_rows batch <? 0) || (BaseCopyBatch limits <? bb_rows batch) ||
                bool_decide (bb_next batch = CursorEmpty) ||
                (negb (bb_done batch) && ((bb_rows batch =? 0) || bool_decide (bb_next batch = bb_cursor batch)))) ErrInvalidBatch;
  _ ← ApplyBaseBatch shards r batch;
  Persist control (copyChange r (if bb_done batch then PhysicalStateCatchingUp else rc_state r) batch).

(** The body of [Advance] on a loaded record. *)
Definition advanceRecord (r : MigRecord) : Prog W MErr MigRecord :=
  match rc_state r with
  | PhysicalStatePlanned => transition r PhysicalStatePreparingTarget emptyChange
  | PhysicalStatePreparingTarget =>
      _ ← Preflight shards r; _ ← PrepareTarget shards r; transition r PhysicalStateCaptureEnabled emptyChange
  | PhysicalStateCaptureEnabled =>
      sequence ← EnableCapture shards r;
      _ ← failWhen (sequence <? 0) ErrInvalidBatch;
      transition r PhysicalStateBaseCopying (patchSequence sequence sequence (rc_last r))
  | PhysicalStateBaseCopying => copyOneBatch r
  | PhysicalStateCatchingUp | PhysicalStateSourceFenced => replayOneBatch r
  | PhysicalStateValidatingOnline =>
      '(batch, lastSeq) ← readAndApplyJournal r 0;
      if negb (lastSeq =? rc_last r) || negb (jb_sequence batch =? rc_last r) then
        _ ← failWhen (lastSeq =? rc_last r) ErrJournalGap;
        Persist control (replayChange r (rc_state r) lastSeq (Z.of_nat (length (jb_entries batch))))
      else
        result ← validateResult r false;
        change ← ofRes (makeTransition r PhysicalStateDraining (patchVersion (vr_version result - rc_version r)));
        BeginDrain control change
  | PhysicalStateDraining =>
      sequence ← FenceSource shards r;
      _ ← failWhen (sequence <? rc_last r) ErrInvalidBatch;
      transition r PhysicalStateSourceFenced (patchFinal sequence)
  | PhysicalStateFinalCatchup => validate r true PhysicalStateFinalValidating
  | PhysicalStateFinalValidating => _ ← EnableTarget shards r; transition r PhysicalStateTargetEnabled emptyChange
  | PhysicalStateTargetEnabled =>
      change ← ofRes (makeTransition r PhysicalStateSwitchingAssignment emptyChange); SwitchAssignment control change
  | PhysicalStateSwitchingAssignment => transition r PhysicalStateRollbackWindow emptyChange
  | _ => stop ErrInvalidState
  end.
Definition Advance (id : uuid) : Prog W MErr MigRecord :=
  _ ← failWhen (bool_decide (id = uuidNil)) ErrInvalidInput;
  r ← LoadRecord control id;
  _ ← ofRes (validateRecord r);
  advanceRecord r.

Definition rollbackRecord (r : MigRecord) : Prog W MErr MigRecord :=
  _ ← failWhen (bool_decide (rc_state r = PhysicalStateCompleted) || bool_decide (rc_state r = PhysicalStateReverseMigrationRequired)) ErrReverseMigrationRequired;
  _ ← failWhen (0 <? rc_writes r) ErrReverseMigrationRequired;
  if bool_decide (rc_state r = PhysicalStatePlanned) || bool_decide (rc_state r = PhysicalStatePreparingTarget) then
    change ← ofRes (makeTransition r PhysicalStateRolledBack emptyChange); RollbackControl control change
  else
    writes ← TargetWriteCount shards r;
    _ ← failWhen (writes <? 0) ErrInvalidBatch;
    _ ← failWhen (0 <? writes) ErrReverseMigrationRequired;
    _ ← (if bool_decide (rc_state r = PhysicalStateTargetEnabled) || bool_decide (rc_state r = PhysicalStateSwitchingAssignment) ||
            bool_decide (rc_state r = PhysicalStateRollbackWindow) then
           commandEvidence ← TargetCommandOutboxEvidence shards r;
           _ ← failWhen (commandEvidence <? 0) ErrInvalidBatch;
           failWhen (0 <? commandEvidence) ErrReverseMigrationRequired
         else mret tt);
    _ ← failWhen (rc_tgen r =? MaxInt64) ErrGenerationNotNewer;
    _ ← RollbackBeforeTargetWrites shards r (rc_tgen r + 1);
    change ← ofRes (makeTransition r PhysicalStateRolledBack (patchRollback (rc_tgen r + 1)));
    RollbackControl control change.
Definition Rollback (id : uuid) : Prog W MErr MigRecord :=
  _ ← failWhen (bool_decide (id = uuidNil)) ErrInvalidInput;
  r ← LoadRecord control id;
  _ ← ofRes (validateRecord r);
  rollbackRecord r.

Definition Complete (id : uuid) : Prog W MErr MigRecord :=
  _ ← failWhen (bool_decide (id = uuidNil)) ErrInvalidInput;
  r ← LoadRecord control id;
  _ ← failWhen (negb (bool_decide (rc_state r = PhysicalStateRollbackWindow))) ErrInvalidState;
  _ ← CompletionEligible control id;
  _ ← TargetWriteCount shards r;
  _ ← DisableCapture shards r;
  _ ← RetainSource shards r;
  change ← ofRes (makeTransition r PhysicalStateCompleted emptyChange);
  CompleteControl control change.

Definition PlanReverse (originalID reverseID : uuid) (generation : Z) : Prog W MErr MigRecord :=
  _ ← failWhen (bool_decide (originalID = uuidNil) || bool_decide (reverseID = uuidNil) || bool_decide (reverseID = originalID)) ErrInvalidInput;
  r ← LoadRecord control originalID;
  _ ← ofRes (validateRecord r);
  _ ← failWhen (generation <=? rc_tgen r) ErrGenerationNotNewer;
  _ ← failWhen (negb (bool_decide (rc_state r = PhysicalStateRollbackWindow)) && negb (bool_decide (rc_state r = PhysicalStateCompleted)) &&
                negb (bool_decide (rc_state r = PhysicalStateReverseMigrationRequired))) ErrInvalidState;
  writes ← TargetWriteCount shards r;
  commandEvidence ← TargetCommandOutboxEvidence shards r;
  _ ← failWhen (commandEvidence <? 0) ErrInvalidBatch;
  _ ← failWhen (negb (Bool.eqb (writes =? 0) (commandEvidence =? 0))) ErrTargetEvidenceMissing;
  reverse ← CreateReverse control (mkReversePlan originalID reverseID generation writes);
  _ ← ofRes (validateRecord reverse);
  _ ← failWhen (negb (bool_decide (rc_parent reverse = originalID)) || negb (bool_decide (rc_source reverse = rc_target r)) ||
                negb (bool_decide (rc_target reverse = rc_source r)) || negb (rc_sgen reverse =? rc_tgen r) || negb (rc_tgen reverse =? generation) ||
                negb (rc_reverse reverse) || negb (bool_decide (rc_state reverse = PhysicalStatePlanned))) ErrCheckpointConflict;
  mret reverse.
End Engine.
