(* ===== verification/MigrationControl.v ===== *)
(** * Physical migration: the control store

    [src/internal/sharding/physicalmigration/postgres/control.go]: the durable
    ledger of the migrations, with the transactions that checkpoint one, begin
    its drain, switch the assignment of its run, roll it back, complete it and
    plan its reverse; and the retained source's cleanup gate.

    A transaction whose commit violates a constraint that is not modelled
    ([ce_ok]: among them the deferred triggers on the assignment and the guard
    against nonterminal operator commands) is rolled back. *)

From S2P Require Import Prelude Transaction CrashProgram Sharding PaymentDomain PaymentDb BookingDb ShardDb ShardBooking CommandDb MigrationDb MigrationEngine.
Import ShardTypes Physical.

Record CtlEnv := mkCtlEnv { ce_now : Z; ce_ok : MigDb -> bool }.
Abbreviation CT A := (Txn MigDb MErr A).
Definition onControl {A} (env : CtlEnv) (t : CT A) : Prog World MErr A := atomic (fun w =>
  match t (ctl w) with
  | Ok (a, d) => if ce_ok env d then (Ok a, set_ctl w d) else (Err ErrCheckpointConflict, w)
  | Err e => (Err e, w)
  end).

(** loadMigrationSQL with scanRecord. *)
Definition loadMigration (id : uuid) (d : MigDb) : res MErr MigRecord :=
  match md_migs d !! id with
  | None => Err ErrCheckpointConflict
  | Some m =>
      match shardCatalog (cenv (md_base d)) !! mg_source m, shardCatalog (cenv (md_base d)) !! mg_target m with
      | Some s, Some t =>
          Ok (mkMigRecord id (default uuidNil (mg_parent m)) (mg_run m) (mg_source m) (mg_target m) (mg_sgen m) (mg_tgen m)
                (match mg_parent m with Some p => match md_migs d !! p with Some q => mg_sgen q | None => 0 end | None => 0 end)
                (ks_protocol s) (ks_schema s) (ks_protocol t) (ks_schema t) (mg_state m)
                (match md_checks d !! (id, "base_copy"%string) with Some (mkCheckpoint (CpCursor c) _ _ _ _) => c | _ => CursorEmpty end)
                (mg_copied m) (default 0 (mg_start m)) (default 0 (mg_last m)) (default 0 (mg_final m)) (mg_replayed m) (mg_version m)
                (mg_writes m) (mg_reverse m))
      | _, _ => Err ErrCheckpointConflict
      end
  end.

Definition stateTime (now : Z) (next at' : PhysicalState) (old : option Z) : option Z :=
  if bool_decide (next = at') then Some (default now old) else old.
Definition savedRow (now : Z) (r : MigRecord) (m : MigRow) : MigRow :=
  mkMigRow (mg_parent m) (mg_run m) (mg_source m) (mg_target m) (mg_sgen m) (mg_tgen m) (mg_reverse m) (rc_state r) (Some (rc_start r))
    (Some (rc_last r)) (if rc_final r =? 0 then None else Some (rc_final r)) (rc_copied r) (rc_replayed r) (rc_version r)
    (stateTime now (rc_state r) PhysicalStateSourceFenced (mg_fencedAt m)) (stateTime now (rc_state r) PhysicalStateTargetEnabled (mg_enabledAt m))
    (mg_switchedAt m) (Z.max (mg_writes m) (rc_writes r)) (mg_rollbackGen m) (mg_window m) (mg_deadline m) (mg_retention m) (mg_cleanup m)
    (mg_hash m) (mg_cleanedAt m) (mg_completedAt m).
Definition saveRecord (env : CtlEnv) (r : MigRecord) (expected : PhysicalState) : CT unit :=
  one ErrCheckpointConflict (fun d =>
    match md_migs d !! rc_id r with
    | Some m => if bool_decide (mg_state m = expected) then putMig (rc_id r) (savedRow (ce_now env) r m) d else None
    | None => None
    end).

Section Control.
Variable env : CtlEnv.

Definition Load (id : uuid) : Prog World MErr MigRecord :=
  _ ← failWhen (bool_decide (id = uuidNil)) ErrInvalidInput;
  onControl env (reads (loadMigration id)).

Definition replayCompleted (s : PhysicalState) : bool :=
  bool_decide (s ∈ [PhysicalStateFinalCatchup; PhysicalStateFinalValidating; PhysicalStateTargetEnabled; PhysicalStateSwitchingAssignment;
                    PhysicalStateRollbackWindow; PhysicalStateCompleted]).
Definition persistTx (c : Change) : CT MigRecord :=
  r ← reads (loadMigration (ch_id c));
  _ ← guardS (negb (bool_decide (rc_state r = ch_expected c)) ||
              (bool_decide (rc_state r = PhysicalStateBaseCopying) && negb (bool_decide (rc_cursor r = ch_expectedCursor c))) ||
              match ch_expectedReplay c with Some z => negb (rc_last r =? z) | None => false end) ErrCheckpointConflict;
  let r := ApplyChange r c in
  _ ← saveRecord env r (ch_expected c);
  _ ← (if bool_decide (ch_cursor c = CursorEmpty) then mret tt
       else modify (putCheckpoint (rc_id r) "base_copy"
         (mkCheckpoint (CpCursor (rc_cursor r)) None None (rc_copied r) (negb (bool_decide (rc_state r = PhysicalStateBaseCopying))))));
  _ ← (if bool_decide (rc_state r = PhysicalStateCaptureEnabled) && bool_decide (ch_expected c = PhysicalStatePreparingTarget)
       then modify (putCheckpoint (rc_id r) "target_prepare" (mkCheckpoint CpPrepared None None 0 true)) else mret tt);
  _ ← (match ch_last c with
       | Some _ => modify (putCheckpoint (rc_id r) "journal_replay"
           (mkCheckpoint (CpNumber (rc_last r)) (Some (if 0 <? rc_final r then rc_final r else rc_last r)) (Some (rc_last r)) (rc_replayed r)
              (replayCompleted (rc_state r))))
       | None => mret tt
       end);
  _ ← (if 0 <? ch_version c then
         modify (putCheckpoint (rc_id r) (if bool_decide (rc_state r = PhysicalStateFinalValidating) then "final_validation" else "online_validation")
           (mkCheckpoint (CpNumber (rc_version r)) None None 0 true))
       else mret tt);
  mret r.
Definition Persist' (c : Change) : Prog World MErr MigRecord :=
  _ ← failWhen (bool_decide (ch_id c = uuidNil) || bool_decide (ch_expected c = noState) || bool_decide (ch_next c = noState)) ErrInvalidInput;
  onControl env (persistTx c).

(** A load that reports every failure as a conflict. *)
Definition lockMigration (id : uuid) : CT MigRecord := reads (fun d => match loadMigration id d with Ok r => Ok r | Err _ => Err ErrCheckpointConflict end).
Definition withState (state : string) (a : AssignmentRow) : AssignmentRow := mkAssignmentRow (a_shard a) (a_generation a) state (a_migration a).
Definition assignedRow (shard : string) (gen : Z) (id : uuid) (a : AssignmentRow) : bool :=
  bool_decide (a_shard a = shard) && (a_generation a =? gen) && bool_decide (a_migration a = Some id).

Definition beginDrainTx (c : Change) : CT MigRecord :=
  r ← lockMigration (ch_id c);
  _ ← guardS (negb (bool_decide (rc_state r = ch_expected c))) ErrCheckpointConflict;
  _ ← one ErrCheckpointConflict (updAssignment (rc_run r)
        (fun a => assignedRow (rc_source r) (rc_sgen r) (rc_id r) a && bool_decide (a_state a ∈ ["migrating"; "draining"])) (withState "draining"));
  let r := ApplyChange r c in
  _ ← saveRecord env r (ch_expected c);
  _ ← modify (putCheckpoint (rc_id r) "online_validation" (mkCheckpoint (CpNumber (rc_version r)) None None 0 true));
  mret r.
Definition BeginDrain' (c : Change) : Prog World MErr MigRecord :=
  _ ← failWhen (negb (bool_decide (ch_expected c = PhysicalStateValidatingOnline)) || negb (bool_decide (ch_next c = PhysicalStateDraining))) ErrInvalidInput;
  onControl env (beginDrainTx c).

(** The rows of the run that do not agree with its source. *)
Definition movable (r : DirRow) : bool := bool_decide (dr_state r ∈ [DirPending; DirActive; DirMoving]).
Definition liveCommand (r : CmdRow) : bool := negb (bool_decide (bc_state r ∈ [StateFailed; StateExpired])).
Definition elsewhere (run : uuid) (shard : string) (gen : Z) (route : ShardRoute) : bool :=
  bool_decide (trainRunID route = run) && (negb (bool_decide (shardID route = shard)) || negb (generation route =? gen)).
Definition directoryMismatch (run : uuid) (shard : string) (gen : Z) (d : ControlDb) : bool :=
  existsRow (dirs d) (fun _ r => bool_decide (dr_run r = run) && movable r && negb (bool_decide (dr_hint r = Some (shard, gen)))) ||
  existsRow (commands d) (fun k r => bool_decide (bc_run r = run) && liveCommand r &&
    negb match dirs d !! bc_reservation r with Some e => bool_decide (dr_command e = Some k) | None => false end) ||
  existsRow (rlocs d) (fun _ r => elsewhere run shard gen (l_route r)) ||
  existsRow (olocs d) (fun _ r => elsewhere run shard gen (ol_route r)) ||
  existsRow (tlocs d) (fun _ r => elsewhere run shard gen (tl_route r)).

Definition movedDir (shard : string) (gen : Z) (r : DirRow) : DirRow :=
  mkDirRow (dr_run r) (dr_owner r) (dr_command r) (if bool_decide (dr_state r = DirMoving) then DirActive else dr_state r) (Some (shard, gen)) None
    (dr_active r) (dr_tombstoned r).
Definition movedCommand (shard : string) (gen : Z) (r : CmdRow) : CmdRow :=
  mkCmdRow (bc_op r) (bc_owner r) (bc_run r) (bc_reservation r) (bc_key r) (bc_fp r) shard gen (bc_state r) (bc_lease r) (bc_result r) (bc_error r)
    (bc_finalized r) (bc_updated r).
Definition movedRoute (run : uuid) (shard : string) (gen : Z) (route : ShardRoute) : ShardRoute :=
  if bool_decide (trainRunID route = run) then mkShardRoute run shard gen else route.
(** The three locator tables. *)
Definition moveLocators (run : uuid) (shard : string) (gen : Z) (d : ControlDb) : ControlDb :=
  let d := set_rlocs d ((fun r => mkLocatorRow (movedRoute run shard gen (l_route r)) (l_owner r)) <$> rlocs d) in
  let d := set_olocs d ((fun r => mkOrderLocatorRow (ol_reservation r) (movedRoute run shard gen (ol_route r)) (ol_owner r) (ol_status r) (ol_total r)
                                    (ol_currency r) (ol_created r)) <$> olocs d) in
  set_tlocs d ((fun r => mkTicketLocatorRow (tl_order r) (tl_reservation r) (movedRoute run shard gen (tl_route r)) (tl_owner r)) <$> tlocs d).
(** The directory and the commands of the run that satisfy [p] and [q]. *)
Definition moveDirectory (run : uuid) (shard : string) (gen : Z) (p : DirRow -> bool) (q : CmdRow -> bool) (d : ControlDb) : ControlDb :=
  let d := set_dirs d ((fun r => if bool_decide (dr_run r = run) && p r then movedDir shard gen r else r) <$> dirs d) in
  set_commands d ((fun r => if bool_decide (bc_run r = run) && q r then movedCommand shard gen r else r) <$> commands d).

Definition switchedRow (now : Z) (m : MigRow) : MigRow :=
  mkMigRow (mg_parent m) (mg_run m) (mg_source m) (mg_target m) (mg_sgen m) (mg_tgen m) (mg_reverse m) (mg_state m) (mg_start m) (mg_last m)
    (mg_final m) (mg_copied m) (mg_replayed m) (mg_version m) (mg_fencedAt m) (mg_enabledAt m) (Some (default now (mg_switchedAt m))) (mg_writes m)
    (mg_rollbackGen m) (mg_window m) (Some (default (now + mg_window m) (mg_deadline m))) (Some (default (now + mg_window m) (mg_retention m)))
    (mg_cleanup m) (mg_hash m) (mg_cleanedAt m) (mg_completedAt m).
Definition switchTx (c : Change) : CT MigRecord :=
  r ← reads (loadMigration (ch_id c));
  _ ← guardS (negb (bool_decide (rc_state r = ch_expected c)) || negb (bool_decide (ch_next c = PhysicalStateSwitchingAssignment))) ErrCheckpointConflict;
  d ← shard;
  _ ← guardS (match assignmentOf d (rc_run r) with Some a => negb (assignedRow (rc_source r) (rc_sgen r) (rc_id r) a) | None => true end) ErrCheckpointConflict;
  _ ← guardS (directoryMismatch (rc_run r) (rc_source r) (rc_sgen r) (md_base d)) ErrCheckpointConflict;
  _ ← modify (fun d => set_base d (moveLocators (rc_run r) (rc_target r) (rc_tgen r)
                                     (moveDirectory (rc_run r) (rc_target r) (rc_tgen r) movable liveCommand (md_base d))));
  _ ← one ErrCheckpointConflict (updAssignment (rc_run r) (assignedRow (rc_source r) (rc_sgen r) (rc_id r))
        (fun a => mkAssignmentRow (rc_target r) (rc_tgen r) "rollback_window" (a_migration a)));
  let r := ApplyChange r c in
  _ ← saveRecord env r (ch_expected c);
  _ ← one ErrCheckpointConflict (updMig (rc_id r) (switchedRow (ce_now env)));
  _ ← modify (addEvent (rc_id r) (if rc_reverse r then "physical_shard_migration.reverse_cutover" else "physical_shard_migration.cutover"));
  mret r.
Definition SwitchAssignment' (c : Change) : Prog World MErr MigRecord := onControl env (switchTx c).

Definition rolledBackRow (gen : Z) (m : MigRow) : MigRow :=
  mkMigRow (mg_parent m) (mg_run m) (mg_source m) (mg_target m) (mg_sgen m) (mg_tgen m) (mg_reverse m) (mg_state m) (mg_start m) (mg_last m)
    (mg_final m) (mg_copied m) (mg_replayed m) (mg_version m) (mg_fencedAt m) (mg_enabledAt m) (mg_switchedAt m) (mg_writes m)
    (Some gen) (mg_window m) (mg_deadline m) (mg_retention m) (mg_cleanup m) (mg_hash m) (mg_cleanedAt m) (mg_completedAt m).
Definition rollbackTx (c : Change) : CT MigRecord :=
  r ← reads (loadMigration (ch_id c));
  _ ← guardS (negb (bool_decide (rc_state r = ch_expected c))) ErrCheckpointConflict;
  if bool_decide (rc_state r = PhysicalStatePlanned) || bool_decide (rc_state r = PhysicalStatePreparingTarget) then
    _ ← guardS (negb (ch_rollback c =? 0)) ErrCheckpointConflict;
    _ ← one ErrCheckpointConflict (updAssignment (rc_run r) (assignedRow (rc_source r) (rc_sgen r) (rc_id r))
          (fun a => mkAssignmentRow (a_shard a) (a_generation a) "stable" None));
    let r := ApplyChange r c in
    _ ← saveRecord env r (ch_expected c);
    mret r
  else
    let switched := bool_decide (rc_state r = PhysicalStateSwitchingAssignment) || bool_decide (rc_state r = PhysicalStateRollbackWindow) in
    let expectedShard := if switched then rc_target r else rc_source r in
    let expectedGen := if switched then rc_tgen r else rc_sgen r in
    d ← shard;
    _ ← guardS ((ch_rollback c <=? rc_tgen r) ||
                match assignmentOf d (rc_run r) with Some a => negb (assignedRow expectedShard expectedGen (rc_id r) a) | None => true end) ErrCheckpointConflict;
    _ ← one ErrCheckpointConflict (updAssignment (rc_run r) (assignedRow expectedShard expectedGen (rc_id r))
          (fun a => mkAssignmentRow (rc_source r) (ch_rollback c) "stable" None));
    let r' := ApplyChange r c in
    _ ← saveRecord env r' (ch_expected c);
    _ ← one ErrCheckpointConflict (updMig (rc_id r) (rolledBackRow (ch_rollback c)));
    _ ← modify (fun d => set_base d (moveLocators (rc_run r) (rc_source r) (ch_rollback c)
                                       (moveDirectory (rc_run r) (rc_source r) (ch_rollback c) (fun _ => true) (fun _ => true) (md_base d))));
    _ ← modify (addEvent (rc_id r) "physical_shard_migration.rolled_back");
    mret r'.
Definition Rollback' (c : Change) : Prog World MErr MigRecord :=
  _ ← failWhen (negb (bool_decide (ch_next c = PhysicalStateRolledBack))) ErrInvalidInput;
  onControl env (rollbackTx c).

Definition CompletionEligible' (id : uuid) : Prog World MErr unit := onControl env (
  d ← shard;
  match md_migs d !! id with
  | None => raise ErrCheckpointConflict
  | Some m =>
      guardS (negb (bool_decide (mg_state m = PhysicalStateRollbackWindow) &&
                    match mg_deadline m with
                    | Some dl => (dl <=? ce_now env) && match mg_retention m with Some rt => dl <=? rt | None => false end
                    | None => false
                    end)) ErrRetentionWindowOpen
  end).

Definition completedRow (now : Z) (m : MigRow) : MigRow :=
  mkMigRow (mg_parent m) (mg_run m) (mg_source m) (mg_target m) (mg_sgen m) (mg_tgen m) (mg_reverse m) (mg_state m) (mg_start m) (mg_last m)
    (mg_final m) (mg_copied m) (mg_replayed m) (mg_version m) (mg_fencedAt m) (mg_enabledAt m) (mg_switchedAt m) (mg_writes m) (mg_rollbackGen m)
    (mg_window m) (mg_deadline m) (mg_retention m) (mg_cleanup m) (mg_hash m) (mg_cleanedAt m) (Some (default now (mg_completedAt m))).
Definition completeTx (c : Change) : CT MigRecord :=
  r ← lockMigration (ch_id c);
  _ ← guardS (negb (bool_decide (rc_state r = ch_expected c))) ErrCheckpointConflict;
  d ← shard;
  _ ← guardS (negb match md_migs d !! rc_id r with Some m => match mg_deadline m with Some dl => dl <=? ce_now env | None => false end | None => false end)
        ErrRetentionWindowOpen;
  _ ← one ErrRetentionWindowOpen (updAssignment (rc_run r) (assignedRow (rc_target r) (rc_tgen r) (rc_id r))
        (fun a => mkAssignmentRow (a_shard a) (a_generation a) "stable" None));
  let r := ApplyChange r c in
  _ ← saveRecord env r (ch_expected c);
  _ ← one ErrCheckpointConflict (updMig (rc_id r) (completedRow (ce_now env)));
  _ ← modify (addEvent (rc_id r) "physical_shard_migration.completed");
  mret r.
Definition Complete' (c : Change) : Prog World MErr MigRecord :=
  _ ← failWhen (negb (bool_decide (ch_expected c = PhysicalStateRollbackWindow)) || negb (bool_decide (ch_next c = PhysicalStateCompleted))) ErrInvalidInput;
  onControl env (completeTx c).

Definition reverseRequired (writes : Z) (m : MigRow) : MigRow :=
  mkMigRow (mg_parent m) (mg_run m) (mg_source m) (mg_target m) (mg_sgen m) (mg_tgen m) (mg_reverse m) PhysicalStateReverseMigrationRequired
    (mg_start m) (mg_last m) (mg_final m) (mg_copied m) (mg_replayed m) (mg_version m) (mg_fencedAt m) (mg_enabledAt m) (mg_switchedAt m)
    (Z.max (mg_writes m) writes) (mg_rollbackGen m) (mg_window m) (mg_deadline m) (mg_retention m) (mg_cleanup m) (mg_hash m) (mg_cleanedAt m)
    (mg_completedAt m).
(** A planned row: the columns of the INSERT, the defaults of the others. *)
Definition plannedRow (parent : option uuid) (run : uuid) (source target : string) (sgen tgen : Z) (reverse : bool) : MigRow :=
  mkMigRow parent run source target sgen tgen reverse PhysicalStatePlanned None None None 0 0 0 None None None 0 None 300 None None
    CleanupNotRequested None None None.
Definition createReverseTx (p : ReversePlan) : CT MigRecord :=
  original ← reads (loadMigration (rp_original p));
  d ← shard;
  _ ← guardS (match md_migs d !! rc_id original with
              | Some m => bool_decide (mg_cleanup m = CleanupRunning) || bool_decide (mg_cleanup m = CleanupCompleted)
              | None => true
              end) ErrCleanupConflict;
  _ ← guardS ((rp_generation p <=? rc_tgen original) ||
              negb (bool_decide (rc_state original ∈ [PhysicalStateRollbackWindow; PhysicalStateCompleted; PhysicalStateReverseMigrationRequired])))
        ErrGenerationNotNewer;
  _ ← one ErrCheckpointConflict (updMig (rc_id original) (reverseRequired (rp_writes p)));
  _ ← one ErrCheckpointConflict (fun d =>
        match md_migs d !! rp_id p with
        | Some _ => Some d
        | None => putMig (rp_id p) (plannedRow (Some (rc_id original)) (rc_run original) (rc_target original) (rc_source original) (rc_tgen original)
                                      (rp_generation p) true) d
        end);
  reverse ← lockMigration (rp_id p);
  _ ← guardS (negb (bool_decide (rc_parent reverse = rc_id original)) || negb (bool_decide (rc_run reverse = rc_run original)) ||
              negb (bool_decide (rc_source reverse = rc_target original)) || negb (bool_decide (rc_target reverse = rc_source original)) ||
              negb (rc_sgen reverse =? rc_tgen original) || negb (rc_tgen reverse =? rp_generation p) || negb (rc_reverse reverse) ||
              negb (bool_decide (rc_state reverse = PhysicalStatePlanned))) ErrCheckpointConflict;
  _ ← one ErrCheckpointConflict (updAssignment (rc_run original)
        (fun a => bool_decide (a_shard a = rc_target original) && (a_generation a =? rc_tgen original) &&
                  bool_decide (a_migration a ∈ [None; Some (rc_id original); Some (rp_id p)]) &&
                  bool_decide (a_state a ∈ ["rollback_window"; "migrating"]))
        (fun a => mkAssignmentRow (a_shard a) (a_generation a) "migrating" (Some (rp_id p))));
  mret reverse.
Definition CreateReverse' (p : ReversePlan) : Prog World MErr MigRecord :=
  _ ← failWhen (bool_decide (rp_original p = uuidNil) || bool_decide (rp_id p = uuidNil) || (rp_generation p <=? 0) || (rp_writes p <? 0)) ErrInvalidInput;
  onControl env (createReverseTx p).

Definition cleaningRow (hash : digest) (m : MigRow) : MigRow :=
  mkMigRow (mg_parent m) (mg_run m) (mg_source m) (mg_target m) (mg_sgen m) (mg_tgen m) (mg_reverse m) (mg_state m) (mg_start m) (mg_last m)
    (mg_final m) (mg_copied m) (mg_replayed m) (mg_version m) (mg_fencedAt m) (mg_enabledAt m) (mg_switchedAt m) (mg_writes m) (mg_rollbackGen m)
    (mg_window m) (mg_deadline m) (mg_retention m) CleanupRunning (Some hash) (mg_cleanedAt m) (mg_completedAt m).
Definition beginCleanupTx (id : uuid) (hash : digest) : CT unit :=
  d ← shard;
  match md_migs d !! id with
  | None => raise ErrCleanupConflict
  | Some m =>
      _ ← guardS (negb (bool_decide (mg_state m = PhysicalStateCompleted)) ||
                  negb match mg_retention m with Some rt => rt <=? ce_now env | None => false end ||
                  negb (bool_decide (mg_cleanup m ∈ [CleanupNotRequested; CleanupEligible; CleanupConfirmed; CleanupRunning]))) ErrCleanupConflict;
      _ ← guardS (bool_decide (mg_cleanup m = CleanupRunning) && negb (bool_decide (mg_hash m = Some hash))) ErrCleanupConflict;
      _ ← guardS (existsRow (md_migs d) (fun _ q => bool_decide (mg_parent q = Some id) && mg_reverse q &&
                    negb (bool_decide (mg_state q ∈ [PhysicalStateFailed; PhysicalStateRolledBack])))) ErrCleanupConflict;
      one ErrCleanupConflict (updMig id (cleaningRow hash))
  end.
Definition BeginCleanup (id : uuid) (hash : digest) : Prog World MErr unit :=
  _ ← failWhen (bool_decide (id = uuidNil) || (hash =? 0)%N) ErrInvalidInput;
  onControl env (beginCleanupTx id hash).

Definition NewControl : ControlStore World :=
  mkControlStore Load Persist' BeginDrain' SwitchAssignment' Rollback' CompletionEligible' Complete' CreateReverse'.
End Control.
