(* ===== verification/MigrationShards.v ===== *)
(** * Physical migration: the shard operations

    [src/internal/sharding/physicalmigration/postgres/shards.go] and
    [data_plane.go]: the database-local operations of a migration on its source
    and its target.  A method that reads outside a transaction takes one step
    per query; a transaction is one step.  The bounded validator is in
    [MigrationValidator]. *)

From S2P Require Import Prelude Transaction CrashProgram Sharding PaymentDomain PaymentDb BookingDb ShardDb CommandDb MigrationDb MigrationEngine.

Abbreviation ST A := (Txn Store MErr A).
Definition onStore {A} (id : string) (t : ST A) : Prog World MErr A := atomic (fun w =>
  match stores w !! id with
  | None => (Err ErrShardOperation, w)
  | Some d => match t d with Ok (a, d') => (Ok a, set_store w id d') | Err e => (Err e, w) end
  end).

(** ** Cursors and batches *)
Definition parseBaseCursor (c : Cursor) : res MErr (nat * uuid) :=
  match c with
  | CursorEmpty => Ok (0%nat, uuidNil)
  | CursorComplete => Ok (length migrationTables, uuidNil)
  | CursorAt i id => failif (length migrationTables <=? i)%nat with ErrInvalidInput else Ok (i, id)
  end.
Definition encodeBaseCursor (index : nat) (id : uuid) : Cursor := CursorAt index id.
(** ... AND (cursor IS the nil UUID OR id > cursor) ORDER BY id LIMIT limit. *)
Definition pageRows (d : Store) (table : string) (run : uuid) (gen : Z) (after : uuid) (limit : Z) : list (uuid * Row) :=
  take (Z.to_nat limit) (filter (fun ir => bool_decide (after = uuidNil) || (after <? ir.1)%N = true) (tableRows d table run gen)).

Section Shards.
(** The environments of the shards. *)
Variable envs : string -> StoreEnv.

(** JSONBaseCopier.Read: the first table from the cursor on that has a page. *)
Fixpoint readTables (r : MigRecord) (cursor : Cursor) (limit : Z) (specs : list tableSpec) (index : nat) (after : uuid) : Prog World MErr BaseBatch :=
  match specs with
  | [] => mret (mkBaseBatch "complete" cursor CursorComplete 0 true (se_batchFp (envs (rc_source r)) []) [])
  | spec :: specs =>
      page ← onStore (rc_source r) (reads (fun d => Ok (pageRows d (ts_name spec) (rc_run r) (rc_sgen r) after limit)));
      match last page with
      | Some (lastID, _) =>
          let payload := (fun ir => (ts_name spec, ir.1, ir.2)) <$> page in
          mret (mkBaseBatch (ts_name spec) cursor (encodeBaseCursor index lastID) (Z.of_nat (length page)) false
                  (se_batchFp (envs (rc_source r)) payload) payload)
      | None => readTables r cursor limit specs (S index) uuidNil
      end
  end.
Definition readBase (r : MigRecord) (cursor : Cursor) (limit : Z) : Prog World MErr BaseBatch :=
  match parseBaseCursor cursor with
  | Err _ => stop ErrInvalidInput
  | Ok (index, after) =>
      _ ← failWhen (limit <=? 0) ErrInvalidInput;
      readTables r cursor limit (drop index migrationTables) index after
  end.

(** ** JSONBaseCopier.Apply *)
Fixpoint applyRows (env : StoreEnv) (gen : Z) (rows : list JSONRow) : ST unit :=
  match rows with
  | [] => mret tt
  | (table, id, r) :: rows =>
      match findTable table with
      | None => raise ErrInvalidBatch
      | Some spec =>
          _ ← guardS (bool_decide (id = uuidNil)) ErrInvalidBatch;
          _ ← one ErrShardOperation (upsertRow env spec id (normalizeRow r (ts_name spec) gen));
          applyRows env gen rows
      end
  end.
Definition applyBaseTx (env : StoreEnv) (r : MigRecord) (batch : BaseBatch) : ST unit :=
  _ ← applyRows env (rc_tgen r) (bb_payload batch);
  if bool_decide (bb_object batch = snapshotsTable) && negb (bool_decide (bb_payload batch = [])) then
    _ ← counted ErrShardOperation (standbyFence (rc_run r) (rc_tgen r));
    _ ← one ErrShardOperation (insEvidence (rc_run r) (rc_tgen r));
    if rc_reverse r then one ErrShardOperation (deleteSnapshot env (rc_run r) (rc_retained r)) else mret tt
  else mret tt.
Definition applyBase (r : MigRecord) (batch : BaseBatch) : Prog World MErr unit :=
  _ ← failWhen (negb (Z.of_nat (length (bb_payload batch)) =? bb_rows batch) || negb (se_batchFp (envs (rc_target r)) (bb_payload batch) =? bb_fp batch)%N)
        ErrInvalidBatch;
  onStore (rc_target r) (applyBaseTx (envs (rc_target r)) r batch).

(** ** Preflight and preparation *)
Definition preflight (r : MigRecord) : Prog World MErr unit :=
  _ ← failWhen (negb (rc_sproto r =? 1) || negb (rc_tproto r =? 1) || negb (rc_sschema r =? 2) || negb (rc_tschema r =? 2)) ErrCheckpointConflict;
  _ ← onStore (rc_source r) (reads (fun d =>
        failif negb (se_ready (envs (rc_source r)) && snapshotAt d (rc_run r) (rc_sgen r) &&
                     match fenceOf d !! rc_run r with
                     | Some f => (fn_gen f =? rc_sgen r) && bool_decide (fn_state f = "active"%string) && fn_enabled f
                     | None => false
                     end) with ErrCheckpointConflict else Ok tt));
  onStore (rc_target r) (reads (fun d =>
    failif negb (se_ready (envs (rc_target r)) && match fenceOf d !! rc_run r with Some f => negb (fn_enabled f) | None => true end)
      with ErrCheckpointConflict else Ok tt)).

(** The fence of the run in a generation, not enabled, in one of the states. *)
Definition idleFence (d : Store) (run : uuid) (gen : Z) (states : list string) : bool :=
  match fenceOf d !! run with Some f => (fn_gen f =? gen) && negb (fn_enabled f) && bool_decide (fn_state f ∈ states) | None => false end.
(** Snapshots of the run in a generation that is none of [gens]. *)
Definition otherSnapshots (d : Store) (run : uuid) (gens : list Z) : bool :=
  existsRow (rowsOf d) (fun k r => bool_decide (k.1 = snapshotsTable) && bool_decide (rw_run r = run) && negb (bool_decide (rw_gen r ∈ gens))).
Definition otherFence (d : Store) (run : uuid) (gens : list Z) : bool :=
  match fenceOf d !! run with Some f => negb (bool_decide (fn_gen f ∈ gens)) | None => false end.

(** The tables prepareRetainedPredecessor empties, in its order. *)
Definition retainedTables : list string := [outboxTable; "payment_compensation_receipts"; "payment_refund_receipts"; "ticket_issuance_receipts";
  "payment_command_receipts"; "tickets"; "ticket_orders"; "booking_command_receipts"; "idempotency_records"; "reservation_seats"; "reservations";
  "seat_inventory"; "booking_fare_snapshots"; "booking_seat_catalog"]%string.
Definition retainedCount (d : Store) (run : uuid) (gen : Z) : Z :=
  foldr (fun t n => countRows d t run gen + n) 0 retainedTables + (if bool_decide (is_Some (evidenceOf d !! (run, gen))) then 1 else 0) +
  Z.of_nat (length (filter (fun kj => bool_decide (jr_run kj.2 = run) && (jr_gen kj.2 =? gen) = true) (map_to_list (journalOf d)))) +
  Z.of_nat (length (filter (fun ka => bool_decide (ar_run ka.2 = run) && (ar_gen ka.2 =? gen) = true) (map_to_list (receiptsOf d)))).
Fixpoint deleteTables (env : StoreEnv) (tables : list string) (run : uuid) (gen : Z) : ST unit :=
  match tables with
  | [] => mret tt
  | t :: tables => _ ← one ErrShardOperation (deleteTable env t run gen); deleteTables env tables run gen
  end.
Definition disableCaptureAt (p : CaptureState -> bool) (run : uuid) (d : Store) : Store :=
  match captureOf d !! run with
  | Some c => if p c then set_capture d (<[run := mkCapture (cs_migration c) (cs_gen c) false (cs_next c) true]> (captureOf d)) else d
  | None => d
  end.
Definition deleteReceipts (run : uuid) (gen : Z) (d : Store) : Store :=
  set_receipts d (filter (fun ka => bool_decide (ar_run ka.2 = run) && (ar_gen ka.2 =? gen) = false) (receiptsOf d)).
Definition deleteJournal (run : uuid) (gen : Z) (d : Store) : Store :=
  set_journal d (filter (fun kj => bool_decide (jr_run kj.2 = run) && (jr_gen kj.2 =? gen) = false) (journalOf d)).
Definition deleteCapture (p : CaptureState -> bool) (run : uuid) (gen : Z) (d : Store) : Store :=
  match captureOf d !! run with
  | Some c => if (cs_gen c =? gen) && p c then set_capture d (base.delete run (captureOf d)) else d
  | None => d
  end.
(** UPDATE ... SET active = false, bookable = false. *)
Fixpoint quiesceSnapshots (env : StoreEnv) (rows : list (uuid * Row)) : ST unit :=
  match rows with
  | [] => mret tt
  | (i, r) :: rows =>
      _ ← one ErrShardOperation (upsertRow env (mkSpec snapshotsTable (default [] (ts_columns <$> findTable snapshotsTable))) i
            (mkRow (rw_run r) (rw_gen r) (<["active" := JBool false]> (<["bookable" := JBool false]> (rw_cols r)))));
      quiesceSnapshots env rows
  end.
Definition prepareRetainedPredecessor (env : StoreEnv) (r : MigRecord) (limit : Z) : ST unit :=
  d ← shard;
  let run := rc_run r in let old := rc_retained r in let new := rc_tgen r in
  let conflicts := otherSnapshots d run [old; new] || otherFence d run [old; new] in
  let fences := idleFence d run old ["quiescing"; "retained"] in
  let preparedFences := idleFence d run new ["standby"; "disabled"] in
  if (countRows d snapshotsTable run old =? 0) && negb fences && (countRows d snapshotsTable run new =? 1) && preparedFences && negb conflicts then mret tt else
  _ ← guardS (negb (countRows d snapshotsTable run old =? 1) || negb fences || negb (countRows d snapshotsTable run new =? 0) || preparedFences || conflicts)
        ErrCheckpointConflict;
  _ ← guardS (limit <? retainedCount d run old) ErrCleanupLimitExceeded;
  _ ← modify (disableCaptureAt (fun c => cs_gen c =? old) run);
  _ ← deleteTables env retainedTables run old;
  _ ← modify (deleteReceipts run old);
  _ ← modify (deleteJournal run old);
  _ ← modify (fun d => set_evid d (base.delete (run, old) (evidenceOf d)));
  _ ← modify (deleteCapture (fun _ => true) run old);
  d ← shard;
  _ ← quiesceSnapshots env (tableRows d snapshotsTable run old);
  modify (fun d => match fenceOf d !! run with
                   | Some f => if fn_gen f =? old then set_fence d (<[run := mkFence old "retained" false]> (fenceOf d)) else d
                   | None => d
                   end).
(** DefaultTargetPreparer; MaxCleanupRows is not set by NewDefaultShards. *)
Definition maxCleanupRows : Z := 10000.
Definition prepare (r : MigRecord) : Prog World MErr unit :=
  if rc_reverse r then
    _ ← failWhen ((rc_retained r <=? 0) || (rc_tgen r <=? rc_retained r)) ErrInvalidInput;
    onStore (rc_target r) (prepareRetainedPredecessor (envs (rc_target r)) r maxCleanupRows)
  else onStore (rc_target r) (reads (fun d =>
    failif match fenceOf d !! rc_run r with Some f => negb (fn_gen f =? rc_tgen r) || fn_enabled f | None => false end ||
           otherSnapshots d (rc_run r) [rc_tgen r] with ErrCheckpointConflict else Ok tt)).

Definition prepareTargetTx (env : StoreEnv) (r : MigRecord) (i : uuid) (snapshot : Row) : ST unit :=
  match findTable snapshotsTable with
  | None => raise ErrShardOperation
  | Some spec =>
      _ ← one ErrShardOperation (upsertRow env spec i (normalizeRow snapshot snapshotsTable (rc_tgen r)));
      n ← counted ErrShardOperation (standbyFence (rc_run r) (rc_tgen r));
      _ ← guardS (negb (n =? 1)%nat) ErrShardOperation;
      _ ← one ErrShardOperation (insEvidence (rc_run r) (rc_tgen r));
      d ← shard;
      _ ← guardS (match evidenceOf d !! (rc_run r, rc_tgen r) with Some e => negb (ed_writes e =? 0) | None => true end) ErrReverseMigrationRequired;
      if rc_reverse r then one ErrShardOperation (deleteSnapshot env (rc_run r) (rc_retained r)) else mret tt
  end.
Definition prepareTarget (r : MigRecord) : Prog World MErr unit :=
  _ ← prepare r;
  snapshot ← onStore (rc_source r) (reads (fun d =>
    match tableRows d snapshotsTable (rc_run r) (rc_sgen r) with x :: _ => Ok x | [] => Err ErrShardOperation end));
  onStore (rc_target r) (prepareTargetTx (envs (rc_target r)) r snapshot.1 snapshot.2).

(** ** Capture *)
Definition foreignCapture (d : Store) (run migration : uuid) : bool :=
  existsRow (captureOf d) (fun k c => negb (bool_decide (k = run)) && bool_decide (cs_migration c = migration)).
Definition installCapture (r : MigRecord) (d : Store) : option Store :=
  match captureOf d !! rc_run r with
  | Some _ => Some d
  | None =>
      if foreignCapture d (rc_run r) (rc_id r) || negb (snapshotAt d (rc_run r) (rc_sgen r)) then None
      else Some (set_capture d (<[rc_run r := mkCapture (rc_id r) (rc_sgen r) false 0 false]> (captureOf d)))
  end.
Definition resetCapture (r : MigRecord) (d : Store) : option Store :=
  match captureOf d !! rc_run r with
  | Some c =>
      if cs_enabled c || bool_decide (cs_migration c = rc_id r) then Some d else
      if foreignCapture d (rc_run r) (rc_id r) || negb (snapshotAt d (rc_run r) (rc_sgen r)) then None
      else Some (set_capture d (<[rc_run r := mkCapture (rc_id r) (rc_sgen r) false 0 false]> (captureOf d)))
  | None => Some d
  end.
Definition startCapture (r : MigRecord) (d : Store) : option Store :=
  match captureOf d !! rc_run r with
  | Some c =>
      if bool_decide (cs_migration c = rc_id r) && (cs_gen c =? rc_sgen r)
      then Some (set_capture d (<[rc_run r := mkCapture (cs_migration c) (cs_gen c) true (cs_next c) false]> (captureOf d))) else None
  | None => None
  end.
Definition enableCapture (r : MigRecord) : Prog World MErr Z :=
  _ ← onStore (rc_source r) (
    _ ← one ErrShardOperation (installCapture r);
    _ ← one ErrShardOperation (resetCapture r);
    one ErrShardOperation (startCapture r));
  mret 0.

(** ** The journal *)
Definition captureSequence (r : MigRecord) (d : Store) : res MErr Z :=
  match captureOf d !! rc_run r with
  | Some c => failif negb (bool_decide (cs_migration c = rc_id r) && (cs_gen c =? rc_sgen r)) with ErrShardOperation else Ok (cs_next c)
  | None => Err ErrShardOperation
  end.
Definition journalRows (d : Store) (r : MigRecord) (after through limit : Z) : list JEntry :=
  take (Z.to_nat limit) (sortBy (fun a b => je_seq a <=? je_seq b)
    (omap (fun kj => if bool_decide (kj.1.1 = rc_id r) && bool_decide (jr_run kj.2 = rc_run r) && (jr_gen kj.2 =? rc_sgen r) &&
                        (after <? je_seq (jr_entry kj.2)) && (je_seq (jr_entry kj.2) <=? through) then Some (jr_entry kj.2) else None)
       (map_to_list (journalOf d)))).
Definition loadMutationPayload (r : MigRecord) (e : JEntry) : Prog World MErr (option Row) :=
  match findTable (je_table e) with
  | None => stop ErrInvalidBatch
  | Some spec => onStore (rc_source r) (reads (fun d => Ok (rowIn d (ts_name spec) (je_entity e) (rc_run r) (rc_sgen r))))
  end.
Definition loadEntry (r : MigRecord) (e : JEntry) : Prog World MErr JournalEntry :=
  payload ← (if bool_decide (je_op e = "DELETE"%string) then mret None else loadMutationPayload r e);
  mret (mkJournalEntry e (se_fp (envs (rc_source r)) e) payload).
Definition readJournal (r : MigRecord) (after throughSequence limit : Z) : Prog World MErr JournalBatch :=
  sourceSequence ← onStore (rc_source r) (reads (captureSequence r));
  let through := if (0 <? throughSequence) && (throughSequence <? sourceSequence) then throughSequence else sourceSequence in
  entries ← onStore (rc_source r) (reads (fun d => Ok (journalRows d r after through limit)));
  loaded ← forEach (loadEntry r) entries;
  mret (mkJournalBatch loaded through).

(** JSONMutationApplier. *)
Definition applyMutation (env : StoreEnv) (r : MigRecord) (e : JournalEntry) : ST unit :=
  match findTable (je_table (jn_entry e)) with
  | None => raise ErrInvalidBatch
  | Some spec =>
      match jn_payload e with
      | Some row =>
          if bool_decide (je_op (jn_entry e) = "DELETE"%string)
          then one ErrShardOperation (deleteRow env (ts_name spec) (je_entity (jn_entry e)) (rc_run r) (rc_tgen r))
          else one ErrShardOperation (upsertRow env spec (je_entity (jn_entry e)) (normalizeRow row (ts_name spec) (rc_tgen r)))
      | None => one ErrShardOperation (deleteRow env (ts_name spec) (je_entity (jn_entry e)) (rc_run r) (rc_tgen r))
      end
  end.
Definition applyJournalTx (env : StoreEnv) (r : MigRecord) (e : JournalEntry) : ST bool :=
  let j := jn_entry e in
  let fingerprint := if (jn_fp e =? 0)%N then se_fp env j else jn_fp e in
  d ← shard;
  match receiptsOf d !! (rc_id r, je_id j) with
  | Some a =>
      _ ← guardS (negb (bool_decide (ar_run a = rc_run r)) || negb (ar_gen a =? rc_tgen r) || negb (ar_seq a =? je_seq j) ||
                  negb (ar_fp a =? fingerprint)%N) ErrApplyReceiptConflict;
      mret true
  | None =>
      _ ← guardS (existsRow (receiptsOf d) (fun k a => bool_decide (k.1 = rc_id r) && (ar_seq a =? je_seq j)) ||
                  negb (snapshotAt d (rc_run r) (rc_tgen r)) || (je_seq j <=? 0)) ErrShardOperation;
      _ ← modify (fun d => set_receipts d (<[(rc_id r, je_id j) := mkReceipt (rc_run r) (rc_tgen r) (je_seq j) fingerprint]> (receiptsOf d)));
      _ ← applyMutation env r e;
      mret false
  end.
Definition applyJournal (r : MigRecord) (e : JournalEntry) : Prog World MErr bool :=
  onStore (rc_target r) (applyJournalTx (envs (rc_target r)) r e).
End Shards.
