(* ===== verification/MigrationValidator.v ===== *)
(** * Physical migration: the bounded validator

    [src/internal/sharding/physicalmigration/postgres/data_plane.go],
    BoundedValidator: the semantic invariants of the two shards in the scope of
    the run, then table by table the count, the ids and the digest of the rows,
    within the row bound.  The generation and updated_at are left out of the
    digest, and of an outbox event also the relay's lease, because they differ
    on purpose.  md5 is [se_md5] of the ordered rows.  Every query is a step of
    its own. *)

From S2P Require Import Prelude Transaction CrashProgram Sharding PaymentDomain PaymentDb BookingDb ShardDb CommandDb MigrationDb MigrationEngine MigrationShards.

(** ** Columns *)
Definition col (c : string) (r : Row) : JV := default JNull (rw_cols r !! c).
Definition textIn (c : string) (l : list string) (r : Row) : bool := match col c r with JText s => bool_decide (s ∈ l) | _ => false end.
Definition numOf (v : JV) : Z := match v with JNum z => z | _ => 0 end.
(** Bit strings as text. *)
Fixpoint bitOr (a b : string) : string :=
  match a, b with
  | String x a, String y b => String (if bool_decide (x = "1"%char) || bool_decide (y = "1"%char) then "1"%char else "0"%char) (bitOr a b)
  | _, _ => EmptyString
  end.
Fixpoint zeroBits (n : nat) : string := match n with O => EmptyString | S n => String "0"%char (zeroBits n) end.
(** The rows of a table, whatever their scope. *)
Definition allRows (d : Store) (table : string) : list (uuid * Row) :=
  omap (fun kr => if bool_decide (kr.1.1 = table) then Some (kr.1.2, kr.2) else None) (map_to_list (rowsOf d)).
Definition idPresent (d : Store) (table : string) (v : JV) : bool := existsb (fun ir => bool_decide (JUuid ir.1 = v)) (allRows d table).

(** ** The semantic invariants *)
Section Semantics.
Context (d : Store) (run : uuid) (gen : Z).
Definition scoped (table : string) : list (uuid * Row) := tableRows d table run gen.
(** Rows of the run in another generation. *)
Definition foreignRows (table : string) : bool :=
  existsb (fun ir => bool_decide (rw_run ir.2 = run) && negb (rw_gen ir.2 =? gen)) (allRows d table).
Definition activeReservation (v : JV) : bool :=
  existsb (fun ir => bool_decide (JUuid ir.1 = v) && textIn "status" ["held"; "payment_pending"; "payment_review"; "confirmed"; "refund_pending"] ir.2)
    (scoped "reservations").
Definition expectedBits (seat : JV) : option string :=
  foldr (fun ir acc =>
    if bool_decide (col "seat_id" ir.2 = seat) && activeReservation (col "reservation_id" ir.2) then
      match col "segment_mask" ir.2 with JText m => Some (match acc with Some s => bitOr m s | None => m end) | _ => acc end
    else acc) None (scoped "reservation_seats").
Definition inventoryViolation : bool :=
  existsb (fun ir => negb (bool_decide (col "occupied_segments" ir.2 =
             JText (default (zeroBits (Z.to_nat (numOf (col "segment_count" ir.2)))) (expectedBits (col "seat_id" ir.2)))))) (scoped "seat_inventory").
Definition fareViolation : bool :=
  existsb (fun ir =>
    let seats := filter (fun s => col "reservation_id" s.2 = JUuid ir.1) (allRows d "reservation_seats") in
    negb (foldr (fun s n => numOf (col "fare_amount_minor" s.2) + n) 0 seats =? numOf (col "total_amount_minor" ir.2)) ||
    bool_decide (seats = []) || negb (forallb (fun s => bool_decide (col "currency" s.2 = col "currency" ir.2)) seats)) (scoped "reservations").
Definition idempotencyViolation : bool :=
  existsb (fun ir => textIn "status" ["completed"] ir.2 &&
             negb (existsb (fun rv => bool_decide (JUuid rv.1 = col "resource_id" ir.2)) (scoped "reservations"))) (scoped "idempotency_records").
Definition receiptViolation : bool :=
  existsb (fun ir => textIn "status" ["succeeded"] ir.2 &&
    negb ((textIn "result_type" ["reservation"] ir.2 && idPresent d "reservations" (col "result_id" ir.2)) ||
          (textIn "result_type" ["train_run"] ir.2 && bool_decide (col "result_id" ir.2 = JUuid (rw_run ir.2))) ||
          (textIn "result_type" ["fare"] ir.2 && idPresent d "booking_fare_snapshots" (col "result_id" ir.2)) ||
          (textIn "result_type" ["seat"] ir.2 &&
             existsb (fun s => bool_decide (col "seat_id" s.2 = col "result_id" ir.2)) (allRows d "booking_seat_catalog")))) (scoped "booking_command_receipts").
Definition outboxViolation : bool :=
  existsb (fun ir =>
    (textIn "aggregate_type" ["reservation"] ir.2 && negb (idPresent d "reservations" (col "aggregate_id" ir.2))) ||
    (textIn "aggregate_type" ["ticket"] ir.2 && negb (idPresent d "tickets" (col "aggregate_id" ir.2))) ||
    (textIn "aggregate_type" ["train_run"] ir.2 && negb (bool_decide (col "aggregate_id" ir.2 = JUuid (rw_run ir.2)))) ||
    (textIn "aggregate_type" ["booking_command"] ir.2 &&
       negb (existsb (fun r => bool_decide (col "command_id" r.2 = col "aggregate_id" ir.2)) (allRows d "booking_command_receipts")))) (scoped outboxTable).
Definition fenceAt : bool := match fenceOf d !! run with Some f => fn_gen f =? gen | None => false end.
Definition semanticInvariantViolations : nat :=
  length (filter (fun b => b = true) ((foreignRows ∘ ts_name <$> migrationTables) ++
    [negb (countRows d snapshotsTable run gen =? 1); negb fenceAt; inventoryViolation; fareViolation; idempotencyViolation; receiptViolation; outboxViolation])).
End Semantics.

(** ** The digests *)
Definition digestRow (table : string) (r : Row) : Row :=
  let c := base.delete "updated_at"%string (rw_cols r) in
  mkRow (rw_run r) 0
    (if bool_decide (table = outboxTable) then
       <["status" := if bool_decide (col "status" r = JText "processing") then JText "pending" else col "status" r]>
         (base.delete "lease_token"%string (base.delete "locked_by"%string (base.delete "locked_at"%string c)))
     else c).
Definition boundedTableDigest (env : StoreEnv) (d : Store) (table : string) (run : uuid) (gen : Z) (limit : Z) : Z * digest * list uuid :=
  let rows := take (Z.to_nat limit) (tableRows d table run gen) in
  (Z.of_nat (length rows), se_md5 env ((fun ir => (ir.1, digestRow table ir.2)) <$> rows), rows.*1).

Section Validator.
Variable envs : string -> StoreEnv.
Fixpoint validateTables (q : ValidationRequest) (specs : list tableSpec) (remaining : Z) (result : ValidationResult) : Prog World MErr ValidationResult :=
  let r := vq_migration q in
  match specs with
  | [] => mret result
  | spec :: specs =>
      if remaining <=? 0 then mret (mkValidationResult false (vr_rows result) (vr_tables result) true (vr_version result)) else
      s ← onStore (rc_source r) (reads (fun d => Ok (boundedTableDigest (envs (rc_source r)) d (ts_name spec) (rc_run r) (rc_sgen r) (remaining + 1))));
      t ← onStore (rc_target r) (reads (fun d => Ok (boundedTableDigest (envs (rc_target r)) d (ts_name spec) (rc_run r) (rc_tgen r) (remaining + 1))));
      let count := s.1.1 + t.1.1 in
      if remaining <? count then mret (mkValidationResult false (vr_rows result) (vr_tables result + 1) true (vr_version result)) else
      validateTables q specs (remaining - count)
        (mkValidationResult (vr_passed result && bool_decide (s = t)) (vr_rows result + count) (vr_tables result + 1) (vr_truncated result) (vr_version result))
  end.
Definition boundedValidate (q : ValidationRequest) : Prog World MErr ValidationResult :=
  let r := vq_migration q in
  _ ← failWhen ((vq_rows q <=? 0) || (vq_tables q <=? 0) || (vq_tables q <? Z.of_nat (length migrationTables))) ErrInvalidInput;
  vs ← onStore (rc_source r) (reads (fun d => Ok (semanticInvariantViolations d (rc_run r) (rc_sgen r))));
  vt ← onStore (rc_target r) (reads (fun d => Ok (semanticInvariantViolations d (rc_run r) (rc_tgen r))));
  validateTables q migrationTables (vq_rows q)
    (mkValidationResult ((vs =? 0)%nat && (vt =? 0)%nat) 0 0 false (rc_version r + 1)).
End Validator.
