(* ===== verification/MigrationCutover.v ===== *)
(** * Physical migration: fences, evidence and the outbox

    [src/internal/sharding/physicalmigration/postgres/shards.go]: the bounded
    capture of the source's outbox, the fence of the source, the enabling of
    the target, the evidence of target writes, the rollback before any of
    them, and the retirement of the source; and the instance of the engine's
    shard operations. *)

From S2P Require Import Prelude Transaction CrashProgram Sharding PaymentDomain PaymentDb BookingDb ShardDb CommandDb MigrationDb MigrationEngine MigrationShards MigrationValidator.

Definition captureOutboxBatchRows : nat := 64.
Definition captureOutboxBatchBytes : Z := 5 * 1024 * 1024.
Definition captureOutboxTotalBytes : Z := 64 * 1024 * 1024.
Definition captureOutboxGlobalBytes : Z := 256 * 1024 * 1024.

(** ** The outbox *)
Definition boundedCaptureBytes (total next : Z) : res MErr Z :=
  failif (total <? 0) || (next <? 0) || (captureOutboxTotalBytes - next <? total) with ErrCleanupLimitExceeded else Ok (total + next).
Definition enforceOutboxStagingBudget (env : StoreEnv) : ST unit :=
  d ← shard;
  guardS (captureOutboxGlobalBytes <? foldr (fun kr n => se_length env kr.2 + n) 0 (map_to_list (stagingOf d))) ErrCleanupLimitExceeded.
Definition resetStaging (migration : uuid) (d : Store) : Store := set_staging d (filter (fun kr => kr.1.1 <> migration) (stagingOf d)).
(** Pages of at most [captureOutboxBatchRows] rows. *)
Fixpoint pages {A} (fuel : nat) (l : list A) : list (list A) :=
  match fuel, l with
  | S fuel, _ :: _ => take captureOutboxBatchRows l :: pages fuel (drop captureOutboxBatchRows l)
  | _, _ => []
  end.
(** The bytes of a page, added to the total. *)
Fixpoint pageBytes (env : StoreEnv) (rows : list (uuid * Row)) (total batch : Z) : res MErr Z :=
  match rows with
  | [] => Ok total
  | (_, r) :: rows =>
      let batch := batch + se_length env r in
      let* total := boundedCaptureBytes total (se_length env r) in
      failif captureOutboxBatchBytes <? batch with ErrCleanupLimitExceeded else
      pageBytes env rows total batch
  end.
Fixpoint stageRows (migration : uuid) (rows : list (uuid * Row)) (d : Store) : Store :=
  match rows with
  | [] => d
  | (i, r) :: rows => stageRows migration rows (set_staging d (<[(migration, i) := r]> (stagingOf d)))
  end.
(** INSERT INTO outbox_events of the staged rows: a duplicate id is an error. *)
Fixpoint promoteRows (env : StoreEnv) (spec : tableSpec) (rows : list (uuid * Row)) (d : Store) : option Store :=
  match rows with
  | [] => Some d
  | (i, r) :: rows =>
      match rowsOf d !! (ts_name spec, i) with
      | Some _ => None
      | None => match upsertRow env spec i r d with Some d' => promoteRows env spec rows d' | None => None end
      end
  end.
Definition stagedRows (migration : uuid) (d : Store) : list (uuid * Row) :=
  byId (omap (fun kr => if bool_decide (kr.1.1 = migration) then Some (kr.1.2, kr.2) else None) (map_to_list (stagingOf d))).

Section Cutover.
Variable envs : string -> StoreEnv.

Fixpoint stagePages (r : MigRecord) (maxRows : Z) (ps : list (list (uuid * Row))) (total bytes : Z) : Prog World MErr Z :=
  match ps with
  | [] => mret total
  | page :: ps =>
      bytes ← ofRes (pageBytes (envs (rc_source r)) page bytes 0);
      let total := total + Z.of_nat (length page) in
      _ ← failWhen (maxRows <? total) ErrCleanupLimitExceeded;
      _ ← onStore (rc_target r) (
        _ ← modify (stageRows (rc_id r) page); enforceOutboxStagingBudget (envs (rc_target r)));
      stagePages r maxRows ps total bytes
  end.
Definition promoteTx (env : StoreEnv) (r : MigRecord) (total : Z) : ST unit :=
  match findTable outboxTable with
  | None => raise ErrShardOperation
  | Some spec =>
      _ ← one ErrShardOperation (deleteTable env outboxTable (rc_run r) (rc_tgen r));
      d ← shard;
      let staged := stagedRows (rc_id r) d in
      _ ← one ErrShardOperation (promoteRows env spec staged);
      _ ← guardS (negb (Z.of_nat (length staged) =? total)) ErrShardOperation;
      modify (resetStaging (rc_id r))
  end.
(** The source's rows are read from one repeatable-read snapshot. *)
Definition captureOutbox (r : MigRecord) (maxRows : Z) : Prog World MErr unit :=
  _ ← failWhen (maxRows <=? 0) ErrInvalidInput;
  _ ← onStore (rc_target r) (_ ← modify (resetStaging (rc_id r)); enforceOutboxStagingBudget (envs (rc_target r)));
  rows ← onStore (rc_source r) (reads (fun d =>
    Ok ((fun ir => (ir.1, normalizeRow ir.2 outboxTable (rc_tgen r))) <$> tableRows d outboxTable (rc_run r) (rc_sgen r))));
  total ← stagePages r maxRows (pages (length rows) rows) 0 0;
  onStore (rc_target r) (promoteTx (envs (rc_target r)) r total).

(** ** Fences *)
Definition fenceSource (r : MigRecord) : Prog World MErr Z :=
  onStore (rc_source r) (
    _ ← one ErrShardOperation (updFence (rc_run r) (rc_sgen r) ["active"; "quiescing"] "quiescing" false);
    reads (fun d => match captureOf d !! rc_run r with
                    | Some c => failif negb (bool_decide (cs_migration c = rc_id r) && (cs_gen c =? rc_sgen r) && cs_enabled c) with ErrShardOperation else Ok (cs_next c)
                    | None => Err ErrShardOperation
                    end)).

(** The reservations, command receipts and outbox events of a run. *)
Definition currentCounts (d : Store) (run : uuid) (gen : Z) : Z * Z * Z :=
  (countRows d "reservations" run gen, countRows d "booking_command_receipts" run gen, countRows d outboxTable run gen).
Definition enableTargetTx (r : MigRecord) : ST unit :=
  d ← shard;
  match evidenceOf d !! (rc_run r, rc_tgen r) with
  | None => raise ErrTargetEvidenceMissing
  | Some e =>
      _ ← guardS (negb (ed_writes e =? 0)) ErrReverseMigrationRequired;
      _ ← (match ed_base e with
           | Some _ => mret tt
           | None => let '(a, b, c) := currentCounts d (rc_run r) (rc_tgen r) in
                     one ErrTargetEvidenceMissing (setBaseline (rc_run r) (rc_tgen r) a b c)
           end);
      one ErrShardOperation (updFence (rc_run r) (rc_tgen r) ["standby"; "active"] "active" true)
  end.
Definition enableTarget (r : MigRecord) : Prog World MErr unit := onStore (rc_target r) (enableTargetTx r).

(** ** Evidence *)
Definition targetWriteCount (r : MigRecord) : Prog World MErr Z := onStore (rc_target r) (reads (fun d =>
  match evidenceOf d !! (rc_run r, rc_tgen r) with Some e => Ok (ed_writes e) | None => Err ErrTargetEvidenceMissing end)).
Definition targetCommandOutboxEvidence (r : MigRecord) : Prog World MErr Z := onStore (rc_target r) (reads (fun d =>
  match evidenceOf d !! (rc_run r, rc_tgen r) with
  | Some e =>
      match ed_base e with
      | Some (a, b, c) => let '(x, y, z) := currentCounts d (rc_run r) (rc_tgen r) in Ok (Z.max 0 (x - a) + Z.max 0 (y - b) + Z.max 0 (z - c))
      | None => Err ErrTargetEvidenceMissing
      end
  | None => Err ErrTargetEvidenceMissing
  end)).

(** ** Rollback *)
Definition disableTargetTx (r : MigRecord) : ST unit :=
  d ← shard;
  match fenceOf d !! rc_run r, evidenceOf d !! (rc_run r, rc_tgen r) with
  | Some f, Some e =>
      _ ← guardS (negb (fn_gen f =? rc_tgen r)) ErrTargetEvidenceMissing;
      _ ← guardS (negb (ed_writes e =? 0)) ErrReverseMigrationRequired;
      let now := currentCounts d (rc_run r) (rc_tgen r) in
      _ ← (match ed_base e with
           | Some _ => mret tt
           | None =>
               _ ← guardS (fn_enabled f || negb (bool_decide (fn_state f ∈ ["standby"; "disabled"]))) ErrTargetEvidenceMissing;
               let '(a, b, c) := now in one ErrTargetEvidenceMissing (setBaseline (rc_run r) (rc_tgen r) a b c)
           end);
      _ ← guardS (negb (bool_decide (default now (ed_base e) = now))) ErrReverseMigrationRequired;
      one ErrShardOperation (updFence (rc_run r) (rc_tgen r) ["standby"; "active"; "disabled"] "disabled" false)
  | _, _ => raise ErrTargetEvidenceMissing
  end.
Definition disableZeroWriteTarget (r : MigRecord) : Prog World MErr unit := onStore (rc_target r) (disableTargetTx r).

Definition rebindTx (env : StoreEnv) (r : MigRecord) (generation : Z) : ST unit :=
  _ ← modify (disableCaptureAt (fun c => bool_decide (cs_migration c = rc_id r) && bool_decide (cs_gen c ∈ [rc_sgen r; generation])) (rc_run r));
  d ← shard;
  _ ← (match tableRows d snapshotsTable (rc_run r) (rc_sgen r) with
       | [] => guardS (negb (countRows d snapshotsTable (rc_run r) generation =? 1)) ErrCheckpointConflict
       | [(i, _)] => one ErrShardOperation (moveSnapshot env i (rc_run r) (rc_sgen r) generation)
       | _ => raise ErrCheckpointConflict
       end);
  one ErrShardOperation (updFence (rc_run r) generation ["quiescing"; "retained"; "active"] "active" true).
Definition rebindRollbackSource (r : MigRecord) (generation : Z) : Prog World MErr unit :=
  onStore (rc_source r) (rebindTx (envs (rc_source r)) r generation).
Definition rollbackBeforeTargetWrites (r : MigRecord) (generation : Z) : Prog World MErr unit :=
  _ ← failWhen (generation <=? rc_tgen r) ErrGenerationNotNewer;
  _ ← disableZeroWriteTarget r;
  rebindRollbackSource r generation.

(** ** The end of a migration *)
Definition disableCapture (r : MigRecord) : Prog World MErr unit := onStore (rc_source r) (one ErrShardOperation (fun d =>
  match captureOf d !! rc_run r with
  | Some c => if bool_decide (cs_migration c = rc_id r) && (cs_gen c =? rc_sgen r) && (cs_enabled c || cs_disabled c)
              then Some (disableCaptureAt (fun _ => true) (rc_run r) d) else None
  | None => None
  end)).
Definition retainSource (r : MigRecord) : Prog World MErr unit :=
  onStore (rc_source r) (one ErrShardOperation (updFence (rc_run r) (rc_sgen r) ["quiescing"; "retained"] "retained" false)).

(** NewDefaultShards. *)
Definition NewDefaultShards : ShardOperations World :=
  mkShardOperations (preflight envs) (prepareTarget envs) enableCapture (readBase envs) (applyBase envs) (readJournal envs) (applyJournal envs)
    captureOutbox (boundedValidate envs) fenceSource enableTarget targetWriteCount targetCommandOutboxEvidence rollbackBeforeTargetWrites
    disableCapture retainSource.
End Cutover.
