(* ===== verification/MigrationLedger.v ===== *)
(** * Physical migration: what the control transactions do to the ledger

    A control transaction changes one row of the ledger: its identity stays,
    its state becomes the one the change names.  Assignments go to a shard of
    that migration. *)

From S2P Require Import Prelude Transaction CrashProgram Sharding PaymentDomain PaymentDb BookingDb ShardDb ShardLogic ShardBooking CommandDb MigrationDb MigrationEngine MigrationControl.
Import Physical.

(** What never changes in a row of the ledger. *)
Definition sameIdentity (m m' : MigRow) : Prop :=
  mg_parent m' = mg_parent m /\ mg_run m' = mg_run m /\ mg_source m' = mg_source m /\ mg_target m' = mg_target m /\ mg_sgen m' = mg_sgen m /\
  mg_tgen m' = mg_tgen m /\ mg_reverse m' = mg_reverse m.
#[export] Instance sameIdentity_preorder : PreOrder sameIdentity.
Proof. unfold sameIdentity. split; [by intros m|intros a b c; intuition congruence]. Qed.

Definition aloneActive (k : uuid) (m : MigRow) (migs : gmap uuid MigRow) : Prop :=
  isActive (mg_state m) = true -> forall k' m', migs !! k' = Some m' -> k' <> k -> mg_run m' = mg_run m -> isActive (mg_state m') = false.
Lemma oneActive_spec k m d : oneActive k m d = true -> aloneActive k m (md_migs d).
Proof.
  unfold oneActive, aloneActive. intros H Ha k' m' Hl Hne Hr. rewrite Ha in H. cbn in H. apply negb_true_iff in H.
  apply (proj1 (existsRow_false _ _)) with (k := k') (x := m') in H; [|done].
  rewrite bool_decide_eq_false_2, bool_decide_eq_true_2 in H by done. by destruct (isActive _).
Qed.
Lemma putMig_Some k m d d' :
  putMig k m d = Some d' -> migCheck m = true /\ aloneActive k m (md_migs d) /\ d' = set_migs d (<[k := m]> (md_migs d)).
Proof. unfold putMig. destruct (_ && _) eqn:H; [|done]. intros [= <-]. apply andb_true_iff in H as [? ?%oneActive_spec]. done. Qed.
Lemma updMig_Some k f d d' :
  updMig k f d = Some d' -> exists m, md_migs d !! k = Some m /\ migCheck (f m) = true /\ aloneActive k (f m) (md_migs d) /\
    d' = set_migs d (<[k := f m]> (md_migs d)).
Proof. unfold updMig. destruct (md_migs d !! k) as [m|]; [|done]. intros (? & ? & ?)%putMig_Some. by exists m. Qed.
Lemma updAssignment_Some run p f d d' :
  updAssignment run p f d = Some d' -> exists a, assignmentOf d run = Some a /\ p a = true /\ d' = putAssignment run (f a) d.
Proof. unfold updAssignment. destruct (assignmentOf d run) as [a|]; [|done]. destruct (p a) eqn:Hp; [|done]. intros [= <-]. by exists a. Qed.
Lemma assignmentOf_put run a d k : assignmentOf (putAssignment run a d) k = if decide (k = run) then Some a else assignmentOf d k.
Proof. unfold assignmentOf, putAssignment. cbn. destruct (decide (k = run)) as [->|]; [by rewrite lookup_insert_eq|by rewrite lookup_insert_ne]. Qed.

(** ** Loading *)
Definition recOf (id : uuid) (m : MigRow) (r : MigRecord) : Prop :=
  rc_id r = id /\ rc_run r = mg_run m /\ rc_source r = mg_source m /\ rc_target r = mg_target m /\ rc_sgen r = mg_sgen m /\ rc_tgen r = mg_tgen m /\
  rc_state r = mg_state m /\ rc_reverse r = mg_reverse m /\ rc_parent r = default uuidNil (mg_parent m) /\ rc_writes r = mg_writes m /\
  rc_last r = default 0 (mg_last m) /\ rc_final r = default 0 (mg_final m) /\ rc_version r = mg_version m.
Lemma loadMigration_Ok id d r : loadMigration id d = Ok r -> exists m, md_migs d !! id = Some m /\ recOf id m r.
Proof.
  unfold loadMigration. destruct (md_migs d !! id) as [m|]; [|done]. destruct (shardCatalog (cenv (md_base d)) !! mg_source m), (shardCatalog (cenv (md_base d)) !! mg_target m); try done.
  intros [= <-]. exists m. split; [done|]. unfold recOf. cbn. done.
Qed.
Lemma lockMigration_Ok id d r d' : lockMigration id d = Ok (r, d') -> d' = d /\ exists m, md_migs d !! id = Some m /\ recOf id m r.
Proof.
  unfold lockMigration. intros [H <-]%reads_Ok. split; [done|]. destruct (loadMigration id d) eqn:Hl; [|done]. injection H as <-. by apply loadMigration_Ok.
Qed.
Lemma ApplyChange_rec r c :
  let r' := ApplyChange r c in
  rc_id r' = rc_id r /\ rc_run r' = rc_run r /\ rc_source r' = rc_source r /\ rc_target r' = rc_target r /\ rc_sgen r' = rc_sgen r /\
  rc_tgen r' = rc_tgen r /\ rc_reverse r' = rc_reverse r /\ rc_state r' = (if bool_decide (ch_next c = noState) then rc_state r else ch_next c) /\
  rc_writes r' = default (rc_writes r) (ch_writes c).
Proof. done. Qed.

(** ** Ledger steps *)
(** Row [id] goes from [m] to a row of the same identity in state [next] with
    at least [writes] target writes; assignments go to a shard of [m] or stay. *)
Definition assignedFrom (m : MigRow) (d d' : MigDb) : Prop :=
  forall run a, assignmentOf d' run = Some a ->
    a_shard a = mg_source m \/ a_shard a = mg_target m \/ exists b, assignmentOf d run = Some b /\ a_shard a = a_shard b.
Definition ledgerStep (id : uuid) (m : MigRow) (next : PhysicalState) (d d' : MigDb) : Prop :=
  exists m', md_migs d !! id = Some m /\ md_migs d' = <[id := m']> (md_migs d) /\ sameIdentity m m' /\ mg_state m' = next /\
    mg_writes m <= mg_writes m' /\ aloneActive id m' (md_migs d) /\ assignedFrom m d d'.
Definition nextOf (m : MigRow) (c : Change) : PhysicalState := if bool_decide (ch_next c = noState) then mg_state m else ch_next c.

Lemma assignedFrom_same m d d' : (forall k, assignmentOf d' k = assignmentOf d k) -> assignedFrom m d d'.
Proof. intros H run a Ha. right. right. exists a. by rewrite <- H. Qed.
Lemma assignedFrom_put m d run a : a_shard a = mg_source m \/ a_shard a = mg_target m -> assignedFrom m d (putAssignment run a d).
Proof. intros Ha k b. rewrite assignmentOf_put. case_decide; [intros [= <-]; tauto|]. intros Hb. eauto. Qed.
Lemma assignedFrom_keepShard m d run a b : assignmentOf d run = Some b -> a_shard a = a_shard b -> assignedFrom m d (putAssignment run a d).
Proof. intros Hb Ha k c. rewrite assignmentOf_put. destruct (decide (k = run)) as [->|]; [intros [= <-]|]; eauto. Qed.
Lemma assignedFrom_trans m d d1 d2 : assignedFrom m d d1 -> assignedFrom m d1 d2 -> assignedFrom m d d2.
Proof.
  intros H1 H2 run a Ha. destruct (H2 run a Ha) as [?|[?|(b & Hb & E)]]; auto. rewrite E. exact (H1 run b Hb).
Qed.

Lemma saveRecord_step env r expected d u d' m id :
  recOf id m r -> md_migs d !! id = Some m -> forall c, saveRecord env (ApplyChange r c) expected d = Ok (u, d') ->
  ledgerStep id m (nextOf m c) d d' /\ expected = mg_state m.
Proof.
  intros Hr Hm c H. unfold saveRecord in H. apply one_Ok in H. destruct Hr as (Hid & Hrun & Hs & Ht & Hsg & Htg & Hst & Hrev & Hpar & Hw & _).
  rewrite (proj1 (ApplyChange_rec r c)), Hid, Hm in H. case_bool_decide as He; [|done]. split; [|by rewrite He].
  apply putMig_Some in H as (_ & Ha & ->). eexists. split_and!; [done|reflexivity| |cbn|cbn; lia|done|].
  - unfold sameIdentity. by cbn.
  - unfold nextOf. by rewrite Hst.
  - by apply assignedFrom_same.
Qed.

(** A later update of the same row that keeps its identity and state. *)
Lemma ledgerStep_update id m next d d1 d2 f :
  ledgerStep id m next d d1 -> updMig id f d1 = Some d2 ->
  (forall x, sameIdentity x (f x) /\ mg_state (f x) = mg_state x /\ mg_writes x <= mg_writes (f x)) -> ledgerStep id m next d d2.
Proof.
  intros (m' & Hm & Hd & Hi & Hs & Hw & Ha & Has) (x & Hx & _ & _ & ->)%updMig_Some Hf. rewrite Hd, lookup_insert_eq in Hx. injection Hx as <-.
  destruct (Hf m') as (Hi' & Hs' & Hw'). exists (f m'). cbn. rewrite Hd, insert_insert_eq. split_and!; try done; [by etrans|congruence|lia|].
  intros Hact k' x Hx Hne Hr. apply (Ha ltac:(congruence) k' x Hx Hne). rewrite Hr. apply Hi'.
Qed.
(** A later step that keeps the ledger. *)
Lemma ledgerStep_keep id m next d d1 d2 :
  ledgerStep id m next d d1 -> md_migs d2 = md_migs d1 -> (forall k, assignmentOf d2 k = assignmentOf d1 k) -> ledgerStep id m next d d2.
Proof.
  intros (m' & Hm & Hd & Hi & Hs & Hw & Ha & Has) H2 HA. exists m'. rewrite H2. split_and!; try done.
  eapply assignedFrom_trans; [exact Has|by apply assignedFrom_same].
Qed.
(** An earlier step that keeps the ledger. *)
Lemma ledgerStep_after id m next d d1 d2 :
  md_migs d1 = md_migs d -> assignedFrom m d d1 -> ledgerStep id m next d1 d2 -> ledgerStep id m next d d2.
Proof.
  intros H1 HA (m' & Hm & Hd & Hi & Hs & Hw & Ha & Has). exists m'. rewrite <- H1. split_and!; try done. by eapply assignedFrom_trans.
Qed.
Lemma moveLocators_env run s g d : cenv (moveLocators run s g d) = cenv d.
Proof. done. Qed.
Lemma moveDirectory_env run s g p q d : cenv (moveDirectory run s g p q d) = cenv d.
Proof. done. Qed.

(** ** The transactions *)
Definition keepsLedger (d d' : MigDb) : Prop := md_migs d' = md_migs d /\ md_base d' = md_base d.
#[export] Instance keepsLedger_preorder : PreOrder keepsLedger.
Proof. split; [done|]. intros a b c [? ?] [? ?]. split; congruence. Qed.
Lemma putCheckpoint_keeps k kind v : respects keepsLedger (modify (putCheckpoint k kind v) : CT unit).
Proof. by apply respects_modify. Qed.
Lemma addEvent_keeps k t : respects keepsLedger (modify (addEvent k t) : CT unit).
Proof. by apply respects_modify. Qed.
Lemma ledgerStep_tail id m next d d1 d2 : ledgerStep id m next d d1 -> keepsLedger d1 d2 -> ledgerStep id m next d d2.
Proof. intros H [H1 H2]. eapply ledgerStep_keep; [done|done|]. intros k. unfold assignmentOf. by rewrite H2. Qed.

Lemma persistTx_step env c d r' d' :
  persistTx env c d = Ok (r', d') -> exists m, ledgerStep (ch_id c) m (nextOf m c) d d' /\ ch_expected c = mg_state m.
Proof.
  unfold persistTx. intros (r & ? & [(m & Hm & Hr)%loadMigration_Ok <-]%reads_Ok & H)%sbind_Ok.
  apply sbind_Ok in H as (? & ? & [_ <-]%guardS_Ok & H). apply sbind_Ok in H as (? & d1 & H1 & H).
  eapply saveRecord_step in H1 as [H1 He]; [|done|done]. exists m. split; [|done]. eapply ledgerStep_tail; [exact H1|].
  match type of H with ?t d1 = _ => assert (Ht : respects keepsLedger t); [|exact (Ht _ _ _ H)] end.
  repeat first [apply putCheckpoint_keeps | apply respects_ret; apply _ | apply respects_bind; [apply _| |intros ?] | case_match].
Qed.
Lemma beginDrainTx_step env c d r' d' :
  beginDrainTx env c d = Ok (r', d') -> exists m, ledgerStep (ch_id c) m (nextOf m c) d d' /\ ch_expected c = mg_state m.
Proof.
  unfold beginDrainTx. intros (r & ? & (-> & m & Hm & Hr)%lockMigration_Ok & H)%sbind_Ok.
  apply sbind_Ok in H as (? & ? & [_ <-]%guardS_Ok & H). apply sbind_Ok in H as (? & d0 & (a & Ha & Hp & ->)%one_Ok%updAssignment_Some & H).
  apply sbind_Ok in H as (? & d1 & H1 & H). apply sbind_Ok in H as (? & ? & <-%modify_Ok & [_ <-]%sret_Ok).
  eapply saveRecord_step in H1 as [H1 He]; [|done|done]. exists m. split; [|done]. refine (ledgerStep_tail _ _ _ _ d1 _ _ _); [|by split].
  eapply ledgerStep_after; [..|exact H1]; [done|]. by eapply assignedFrom_keepShard.
Qed.
Lemma switchTx_step env c d r' d' :
  switchTx env c d = Ok (r', d') -> exists m, ledgerStep (ch_id c) m PhysicalStateSwitchingAssignment d d' /\ ch_expected c = mg_state m.
Proof.
  unfold switchTx. intros (r & ? & [(m & Hm & Hr)%loadMigration_Ok <-]%reads_Ok & H)%sbind_Ok.
  apply sbind_Ok in H as (? & ? & [Hg <-]%guardS_Ok & H). apply sbind_Ok in H as (? & ? & [<- <-]%shard_Ok & H).
  apply sbind_Ok in H as (? & ? & [_ <-]%guardS_Ok & H). apply sbind_Ok in H as (? & ? & [_ <-]%guardS_Ok & H).
  apply sbind_Ok in H as (? & d1 & <-%modify_Ok & H). apply sbind_Ok in H as (? & d2 & (a & Ha & Hp & ->)%one_Ok%updAssignment_Some & H).
  apply sbind_Ok in H as (? & d3 & H3 & H). apply sbind_Ok in H as (? & d4 & H4%one_Ok & H).
  apply sbind_Ok in H as (? & ? & <-%modify_Ok & [_ <-]%sret_Ok).
  apply orb_false_iff in Hg as [_ Hn%negb_false_iff%bool_decide_eq_true].
  eapply saveRecord_step in H3 as [H3 He]; [|done|done]. exists m. split; [|done]. refine (ledgerStep_tail _ _ _ _ d4 _ _ _); [|by split].
  rewrite (proj1 (ApplyChange_rec r c)), (proj1 Hr) in H4. eapply ledgerStep_update; [|exact H4|].
  - unfold nextOf in H3. rewrite Hn in H3. cbn in H3. eapply ledgerStep_after; [..|exact H3]; [done|].
    eapply assignedFrom_trans; [|apply assignedFrom_put; right; apply Hr]. by apply assignedFrom_same.
  - intros row. unfold sameIdentity. cbn. by split_and!.
Qed.
Lemma completeTx_step env c d r' d' :
  completeTx env c d = Ok (r', d') -> exists m, ledgerStep (ch_id c) m (nextOf m c) d d' /\ ch_expected c = mg_state m.
Proof.
  unfold completeTx. intros (r & ? & (-> & m & Hm & Hr)%lockMigration_Ok & H)%sbind_Ok.
  apply sbind_Ok in H as (? & ? & [_ <-]%guardS_Ok & H). apply sbind_Ok in H as (? & ? & [<- <-]%shard_Ok & H).
  apply sbind_Ok in H as (? & ? & [_ <-]%guardS_Ok & H). apply sbind_Ok in H as (? & d0 & (a & Ha & Hp & ->)%one_Ok%updAssignment_Some & H).
  apply sbind_Ok in H as (? & d1 & H1 & H). apply sbind_Ok in H as (? & d2 & H2%one_Ok & H).
  apply sbind_Ok in H as (? & ? & <-%modify_Ok & [_ <-]%sret_Ok).
  eapply saveRecord_step in H1 as [H1 He]; [|done|done]. exists m. split; [|done]. refine (ledgerStep_tail _ _ _ _ d2 _ _ _); [|by split].
  rewrite (proj1 (ApplyChange_rec r c)), (proj1 Hr) in H2. eapply ledgerStep_update; [|exact H2|].
  - eapply ledgerStep_after; [..|exact H1]; [done|]. by eapply assignedFrom_keepShard.
  - intros row. unfold sameIdentity. cbn. by split_and!.
Qed.
Lemma rollbackTx_step env c d r' d' :
  rollbackTx env c d = Ok (r', d') -> exists m, ledgerStep (ch_id c) m (nextOf m c) d d' /\ ch_expected c = mg_state m.
Proof.
  unfold rollbackTx. intros (r & ? & [(m & Hm & Hr)%loadMigration_Ok <-]%reads_Ok & H)%sbind_Ok.
  apply sbind_Ok in H as (? & ? & [_ <-]%guardS_Ok & H). destruct (_ || _) in H.
  - apply sbind_Ok in H as (? & ? & [_ <-]%guardS_Ok & H). apply sbind_Ok in H as (? & d0 & (a & Ha & Hp & ->)%one_Ok%updAssignment_Some & H).
    apply sbind_Ok in H as (? & d1 & H1 & [_ <-]%sret_Ok). eapply saveRecord_step in H1 as [H1 He]; [|done|done]. exists m. split; [|done].
    eapply ledgerStep_after; [..|exact H1]; [done|]. by eapply assignedFrom_keepShard.
  - cbv zeta in H. apply sbind_Ok in H as (? & ? & [<- <-]%shard_Ok & H). apply sbind_Ok in H as (? & ? & [_ <-]%guardS_Ok & H).
    apply sbind_Ok in H as (? & d0 & (a & Ha & Hp & ->)%one_Ok%updAssignment_Some & H).
    apply sbind_Ok in H as (? & d1 & H1 & H). apply sbind_Ok in H as (? & d2 & H2%one_Ok & H).
    apply sbind_Ok in H as (? & d3 & <-%modify_Ok & H). apply sbind_Ok in H as (? & d4 & <-%modify_Ok & [_ <-]%sret_Ok).
    eapply saveRecord_step in H1 as [H1 He]; [|done|done]. exists m. split; [|done].
    rewrite (proj1 Hr) in H2. refine (ledgerStep_keep _ _ _ _ d2 _ _ _ _); [|done|done]. eapply ledgerStep_update; [|exact H2|].
    + eapply ledgerStep_after; [..|exact H1]; [done|]. apply assignedFrom_put. left. apply Hr.
    + intros row. unfold sameIdentity. cbn. by split_and!.
Qed.

(** The reverse plan: the original gives its place to a planned migration of
    the opposite direction. *)
Lemma createReverseTx_step p d r' d' :
  createReverseTx p d = Ok (r', d') ->
  exists m, md_migs d !! rp_original p = Some m /\ mg_state m ∈ [PhysicalStateRollbackWindow; PhysicalStateCompleted; PhysicalStateReverseMigrationRequired] /\
    assignedFrom m d d' /\
    let migs := <[rp_original p := reverseRequired (rp_writes p) m]> (md_migs d) in
    let planned := plannedRow (Some (rp_original p)) (mg_run m) (mg_target m) (mg_source m) (mg_tgen m) (rp_generation p) true in
    (md_migs d' = migs \/ migs !! rp_id p = None /\ md_migs d' = <[rp_id p := planned]> migs /\ aloneActive (rp_id p) planned migs).
Proof.
  unfold createReverseTx. intros (r & ? & [(m & Hm & Hr)%loadMigration_Ok <-]%reads_Ok & H)%sbind_Ok.
  destruct Hr as (Hid & Hrun & Hs & Ht & Hsg & Htg & Hst & _). rewrite Hid, Hrun, Hs, Ht, Htg, Hst in H.
  apply sbind_Ok in H as (? & ? & [<- <-]%shard_Ok & H). apply sbind_Ok in H as (? & ? & [_ <-]%guardS_Ok & H).
  apply sbind_Ok in H as (? & ? & [Hg <-]%guardS_Ok & H). apply orb_false_iff in Hg as [_ Hg%negb_false_iff%bool_decide_eq_true].
  apply sbind_Ok in H as (? & d1 & (m1 & Hm1 & _ & _ & ->)%one_Ok%updMig_Some & H). rewrite Hm in Hm1. injection Hm1 as <-.
  apply sbind_Ok in H as (? & d2 & H2%one_Ok & H). apply sbind_Ok in H as (? & ? & (-> & _)%lockMigration_Ok & H).
  apply sbind_Ok in H as (? & ? & [_ <-]%guardS_Ok & H). apply sbind_Ok in H as (? & d3 & (a & Ha & _ & ->)%one_Ok%updAssignment_Some & [_ <-]%sret_Ok).
  exists m. cbn [md_migs putAssignment set_base].
  assert (Hd2 : (forall k, assignmentOf d2 k = assignmentOf d k) /\
    (d2 = set_migs d (<[rp_original p := reverseRequired (rp_writes p) m]> (md_migs d)) \/
     <[rp_original p := reverseRequired (rp_writes p) m]> (md_migs d) !! rp_id p = None /\
     md_migs d2 = <[rp_id p := plannedRow (Some (rp_original p)) (mg_run m) (mg_target m) (mg_source m) (mg_tgen m) (rp_generation p) true]>
       (<[rp_original p := reverseRequired (rp_writes p) m]> (md_migs d)) /\
     aloneActive (rp_id p) (plannedRow (Some (rp_original p)) (mg_run m) (mg_target m) (mg_source m) (mg_tgen m) (rp_generation p) true)
       (<[rp_original p := reverseRequired (rp_writes p) m]> (md_migs d)))).
  { cbn [md_migs set_migs] in H2. destruct (_ !! rp_id p) as [q|] eqn:Hq in H2.
    - injection H2 as <-. auto.
    - apply putMig_Some in H2 as (_ & Hal & ->). split; [done|right]. done. }
  destruct Hd2 as [Has Hd2]. split_and!; [done|done| |].
  - eapply assignedFrom_trans; [by apply assignedFrom_same|]. by eapply assignedFrom_keepShard.
  - destruct Hd2 as [->|(? & ? & ?)]; [by left|by right].
Qed.
Lemma beginCleanupTx_step env id hash d u d' :
  beginCleanupTx env id hash d = Ok (u, d') -> exists m, ledgerStep id m (mg_state m) d d'.
Proof.
  unfold beginCleanupTx. intros (? & ? & [<- <-]%shard_Ok & H)%sbind_Ok. destruct (md_migs d !! id) as [m|] eqn:Hm; [|by apply raise_Ok in H].
  apply sbind_Ok in H as (? & ? & [_ <-]%guardS_Ok & H). apply sbind_Ok in H as (? & ? & [_ <-]%guardS_Ok & H).
  apply sbind_Ok in H as (? & ? & [_ <-]%guardS_Ok & (m' & Hm' & _ & Ha & ->)%one_Ok%updMig_Some). rewrite Hm in Hm'. injection Hm' as <-.
  exists m, (cleaningRow hash m). split_and!; try done. by apply assignedFrom_same.
Qed.
