(* ===== verification/MigrationAdmin.v ===== *)
(** * Physical migration: the operator's commands

    [src/cmd/physical-shard-admin/backend.go] and [main.go]: the commands that
    plan, advance, cut over, roll back and reverse a migration and clean its
    retained source up, each a program over the control database and the two
    physical shards; the commands that only inspect are not modelled.  The
    adapter for a run that lives in the control database
    ([physicalmigration/controlsource]) is a parameter. *)

From S2P Require Import Prelude Transaction CrashProgram Sharding PaymentDomain PaymentDb BookingDb ShardDb ShardBooking CommandDb MigrationDb MigrationEngine MigrationControl MigrationShards MigrationValidator MigrationCutover.
Import Physical.

Definition validShard (value : string) : bool := bool_decide (value = "physical-shard-0"%string) || bool_decide (value = "physical-shard-1"%string).
Definition validControlSource (value : string) : bool := bool_decide (value ∈ ["legacy"; "shard-0"; "shard-1"]).

(** What a command runs in: the control database's, the shards' and the
    process's environments. *)
Record AdminEnv := mkAdminEnv {
  ae_ctl : CtlEnv; ae_stores : string -> StoreEnv; ae_legacy : ShardOperations World; ae_legacyCleanup : MigRecord -> Z -> Prog World MErr unit;
  ae_hash : uuid -> digest; ae_clock : Z }.

Definition adminLimits : Limits := mkLimits 1 500 500 100000 64.

(** expectedState. *)
Definition expectedState (command : string) : list PhysicalState :=
  if bool_decide (command = "enable-capture"%string) then [PhysicalStatePlanned; PhysicalStatePreparingTarget] else
  if bool_decide (command = "start-base-copy"%string) then [PhysicalStateCaptureEnabled] else
  if bool_decide (command = "resume-base-copy"%string) then [PhysicalStateBaseCopying] else
  if bool_decide (command = "replay-journal"%string) then [PhysicalStateCatchingUp] else
  if bool_decide (command = "validate-online"%string) then [PhysicalStateValidatingOnline] else
  if bool_decide (command = "begin-quiesce"%string) then [PhysicalStateDraining] else
  if bool_decide (command = "final-catchup"%string) then [PhysicalStateSourceFenced] else
  if bool_decide (command = "cutover"%string) then
    [PhysicalStateFinalCatchup; PhysicalStateFinalValidating; PhysicalStateTargetEnabled; PhysicalStateSwitchingAssignment] else
  if bool_decide (command = "start-reverse-migration"%string) then [PhysicalStatePlanned] else [].
(** The position among the fourteen states of [Physical.forward], -1 for
    none. *)
Fixpoint rankIn (l : list PhysicalState) (s : PhysicalState) (i : Z) : Z :=
  match l with [] => -1 | x :: l => if bool_decide (x = s) then i else rankIn l s (i + 1) end.
Definition phaseRank (s : PhysicalState) : Z := rankIn forward s 0.
Definition maxStateRank (l : list PhysicalState) : Z := foldr (fun s n => Z.max (phaseRank s) n) (-1) l.

(** Which shard operations a record needs: those of the two physical shards,
    or the adapter's. *)
Inductive OpsKind := PhysicalPair | ControlSource.
Definition shardOperations (r : MigRecord) : res MErr OpsKind :=
  if validControlSource (rc_target r) then
    failif negb (rc_reverse r) || negb (validShard (rc_source r)) with errUnsupportedMigrationSource else Ok ControlSource
  else
    failif negb (validShard (rc_target r)) with errUnavailable else
    if validShard (rc_source r) then
      failif bool_decide (rc_source r = rc_target r) with errUnavailable else Ok PhysicalPair
    else failif negb (validControlSource (rc_source r)) with errUnsupportedMigrationSource else Ok ControlSource.

Section Admin.
Variable env : AdminEnv.
Let control : ControlStore World := NewControl (ae_ctl env).

Definition engineOps (k : OpsKind) : ShardOperations World :=
  match k with PhysicalPair => NewDefaultShards (ae_stores env) | ControlSource => ae_legacy env end.
Definition engine (id : uuid) : Prog World MErr (OpsKind * MigRecord) :=
  r ← LoadRecord control id;
  ops ← ofRes (shardOperations r);
  mret (ops, r).

Definition advance (id : uuid) (allowed : list PhysicalState) : Prog World MErr MigRecord :=
  '(ops, r) ← engine id;
  if negb (bool_decide (allowed = [])) && negb (bool_decide (rc_state r ∈ allowed)) then
    if maxStateRank allowed <? phaseRank (rc_state r) then mret r else stop errState
  else Advance control (engineOps ops) adminLimits id.
Definition rollback (id : uuid) : Prog World MErr MigRecord := '(ops, _) ← engine id; Rollback control (engineOps ops) id.
Definition cutover (id : uuid) : Prog World MErr MigRecord :=
  '(ops, r) ← engine id;
  if bool_decide (rc_state r = PhysicalStateCompleted) then mret r else
  if bool_decide (rc_state r = PhysicalStateRollbackWindow) then Complete control (engineOps ops) id else
  if negb (bool_decide (rc_state r ∈ expectedState "cutover")) then stop errState else
  Advance control (engineOps ops) adminLimits id.
Definition planReverse (id reverse : uuid) (generation : Z) : Prog World MErr MigRecord :=
  '(ops, _) ← engine id; PlanReverse control (engineOps ops) id reverse generation.

(** plan: the migration's row, with the assignment it is planned for. *)
Definition planTx (id run : uuid) (target : string) : CT unit :=
  d ← shard;
  match assignmentOf d run with
  | None => raise errUnavailable
  | Some a =>
      let replay := match loadMigration id d with
                    | Ok r => bool_decide (a_migration a = Some id) && bool_decide (rc_run r = run) && bool_decide (rc_source r = a_shard a) &&
                              bool_decide (rc_target r = target) && (rc_sgen r =? a_generation a) && (rc_tgen r =? wrap64 (a_generation a + 1))
                    | Err _ => false
                    end in
      if replay then mret tt else
      _ ← guardS (negb (validShard (a_shard a)) && negb (validControlSource (a_shard a))) errUnsupportedMigrationSource;
      _ ← guardS (negb (bool_decide (a_migration a = None)) || negb (bool_decide (a_state a = "stable"%string)) || bool_decide (a_shard a = target) ||
                  (a_generation a =? MaxInt64)) errState;
      _ ← guardS (match shardCatalog (cenv (md_base d)) !! target with
                  | Some s => negb (ks_enabled s && ks_write s && bool_decide (ks_state s = "active"%string) && bool_decide (ks_kind s = "postgres"%string))
                  | None => true
                  end) errUnavailable;
      _ ← one errState (fun d => match md_migs d !! id with
                                 | Some _ => None
                                 | None => putMig id (plannedRow None run (a_shard a) target (a_generation a) (wrap64 (a_generation a + 1)) false) d
                                 end);
      one errState (updAssignment run (fun b => (a_generation b =? a_generation a) && bool_decide (a_migration b = None))
        (fun b => mkAssignmentRow (a_shard b) (a_generation b) "migrating" (Some id)))
  end.
Definition plan (id run : uuid) (target : string) : Prog World MErr MigRecord :=
  _ ← failWhen (negb (validShard target)) ErrInvalidInput;
  _ ← onControl (ae_ctl env) (planTx id run target);
  LoadRecord control id.

(** fixedCleanupStatements. *)
Definition cleanupTx (senv : StoreEnv) (r : MigRecord) (resuming : bool) : ST unit :=
  d ← shard;
  let run := rc_run r in let gen := rc_sgen r in
  let retained := match fenceOf d !! run with
                  | Some f => negb (fn_enabled f) && bool_decide (fn_state f = "retained"%string) && (fn_gen f =? gen)
                  | None => false
                  end in
  _ ← guardS (negb retained && (negb resuming || snapshotAt d run gen)) errState;
  _ ← deleteTables senv ["tickets"; "ticket_orders"; "reservation_seats"; outboxTable] run gen;
  _ ← modify (deleteReceipts run gen);
  _ ← modify (deleteJournal run gen);
  _ ← modify (deleteCapture (fun c => negb (cs_enabled c)) run gen);
  _ ← modify (fun d => set_evid d (base.delete (run, gen) (evidenceOf d)));
  _ ← modify (fun d => match fenceOf d !! run with
                       | Some f => if (fn_gen f =? gen) && negb (fn_enabled f) && bool_decide (fn_state f = "retained"%string)
                                   then set_fence d (base.delete run (fenceOf d)) else d
                       | None => d
                       end);
  _ ← deleteTables senv ["booking_command_receipts"; "idempotency_records"; "reservations"; "seat_inventory"; "booking_fare_snapshots";
                         "booking_seat_catalog"] run gen;
  one errUnavailable (deleteSnapshot senv run gen).
Definition cleanedRow (now : Z) (m : MigRow) : MigRow :=
  mkMigRow (mg_parent m) (mg_run m) (mg_source m) (mg_target m) (mg_sgen m) (mg_tgen m) (mg_reverse m) (mg_state m) (mg_start m) (mg_last m)
    (mg_final m) (mg_copied m) (mg_replayed m) (mg_version m) (mg_fencedAt m) (mg_enabledAt m) (mg_switchedAt m) (mg_writes m) (mg_rollbackGen m)
    (mg_window m) (mg_deadline m) (mg_retention m) CleanupCompleted (mg_hash m) (Some (default now (mg_cleanedAt m))) (mg_completedAt m).
Definition finishCleanup (id : uuid) (hash : digest) : Prog World MErr unit := onControl (ae_ctl env) (one errUnavailable (fun d =>
  match md_migs d !! id with
  | Some m =>
      if bool_decide (mg_state m = PhysicalStateCompleted) && bool_decide (mg_cleanup m = CleanupRunning) && bool_decide (mg_hash m = Some hash) &&
         match mg_retention m with Some rt => rt <=? ce_now (ae_ctl env) | None => false end
      then putMig id (cleanedRow (ce_now (ae_ctl env)) m) d else None
  | None => None
  end)).
Definition cleanup (id : uuid) (limit : Z) : Prog World MErr unit :=
  r ← LoadRecord control id;
  m ← onControl (ae_ctl env) (reads (fun d => match md_migs d !! id with Some m => Ok m | None => Err errUnavailable end));
  if bool_decide (mg_cleanup m = CleanupCompleted) then mret tt else
  _ ← failWhen (negb (match mg_retention m with Some rt => rt <=? ae_clock env | None => false end && bool_decide (rc_state r = PhysicalStateCompleted))) errState;
  _ ← BeginCleanup (ae_ctl env) id (ae_hash env id);
  _ ← (if validControlSource (rc_source r) then ae_legacyCleanup env r limit
       else if negb (validShard (rc_source r)) then stop errUnavailable
       else onStore (rc_source r) (cleanupTx (ae_stores env (rc_source r)) r (bool_decide (mg_cleanup m = CleanupRunning))));
  finishCleanup id (ae_hash env id).

(** The commands that change something. *)
Inductive Command :=
| CmdPlan (id run : uuid) (target : string)
| CmdAdvance (name : string) (id : uuid)
| CmdRollback (id : uuid)
| CmdCutover (id : uuid)
| CmdPlanReverse (id reverse : uuid) (generation : Z)
| CmdCleanup (id : uuid) (limit : Z).
Definition Execute (c : Command) : Prog World MErr unit :=
  match c with
  | CmdPlan id run target => _ ← plan id run target; mret tt
  | CmdAdvance name id => _ ← advance id (expectedState name); mret tt
  | CmdRollback id => _ ← rollback id; mret tt
  | CmdCutover id => _ ← cutover id; mret tt
  | CmdPlanReverse id reverse generation => _ ← planReverse id reverse generation; mret tt
  | CmdCleanup id limit => cleanup id limit
  end.
End Admin.

(** ** Histories of commands

    Operators run one command at a time, each in an environment of its own;
    other clients act meanwhile; any command may stop half way. *)
Inductive history (others : World -> World -> Prop) : World -> World -> Prop :=
| history_start w : history others w w
| history_command w w1 env c o w2 : history others w w1 -> runs others (Execute env c) w1 o w2 -> history others w w2.
