(* ===== verification/MigrationFences.v ===== *)
(** * Physical migration: what the shard transactions do to the write fences

    Only a handful of statements write a fence; the others keep it, except that
    the cascade of a snapshot's generation moves the generation of the fence
    that refers to it.  Every shard transaction of a migration gets its effect
    on the fences here. *)

From S2P Require Import Prelude Transaction CrashProgram Sharding PaymentDomain PaymentDb BookingDb ShardDb CommandDb MigrationDb MigrationEngine MigrationShards MigrationValidator MigrationCutover MigrationControl MigrationAdmin.

(** ** Transactions that keep every fence *)
Definition sameFences (d d' : Store) : Prop := fenceOf d' = fenceOf d.
#[export] Instance sameFences_preorder : PreOrder sameFences.
Proof. split; [done|]. intros a b c H1 H2. unfold sameFences in *. congruence. Qed.

(** The fence of [run] may take the generation [gen]; nothing else changes. *)
Definition fenceMoves (run : uuid) (gen : Z) (d d' : Store) : Prop :=
  forall k, fenceOf d' !! k = fenceOf d !! k \/
    (k = run /\ exists f, fenceOf d !! k = Some f /\ fn_gen f <> gen /\ fenceOf d' !! k = Some (mkFence gen (fn_state f) (fn_enabled f))).
#[export] Instance fenceMoves_preorder run gen : PreOrder (fenceMoves run gen).
Proof.
  split; [by left|]. intros a b c H1 H2 k. destruct (H1 k) as [E1|(Hk & f & Ef & Hg & E1)], (H2 k) as [E2|(Hk' & f' & Ef' & Hg' & E2)].
  - left. congruence.
  - right. split; [done|]. exists f'. split_and!; [congruence|done|done].
  - right. split; [done|]. exists f. split_and!; [done|done|congruence].
  - rewrite E1 in Ef'. injection Ef' as <-. by destruct Hg'.
Qed.
Lemma sameFences_moves run gen d d' : sameFences d d' -> fenceMoves run gen d d'.
Proof. intros H k. left. by rewrite H. Qed.

Lemma capture_fences env t op i run gen d d' : captureMutation env t op i run gen d = Some d' -> sameFences d d'.
Proof.
  unfold captureMutation. intros Hs. repeat case_match; by inversion Hs.
Qed.
Lemma checked_Some env d d' : checked env d = Some d' -> d' = d.
Proof. unfold checked. case_match; congruence. Qed.
Lemma cascade_fence run old new d k :
  fenceOf (cascadeGen run old new d) !! k = (fun f => mkFence (regen run old new (fn_gen f) k) (fn_state f) (fn_enabled f)) <$> fenceOf d !! k.
Proof. cbn. rewrite map_lookup_imap. by destruct (fenceOf d !! k). Qed.
Lemma regen_spec run old new g k : regen run old new g k = g \/ (k = run /\ g = old /\ regen run old new g k = new).
Proof. unfold regen. case_bool_decide; cbn; [|by left]. destruct (Z.eqb_spec g old); [by right|by left]. Qed.
Lemma cascade_moves run old new d : old <> new -> fenceMoves run new d (cascadeGen run old new d).
Proof.
  intros Hne k. rewrite cascade_fence. destruct (fenceOf d !! k) as [f|]; cbn; [|by left].
  destruct (regen_spec run old new (fn_gen f) k) as [->|(-> & <- & ->)]; [left; by destruct f|right]. split; [done|]. by exists f.
Qed.
Lemma moveSnapshot_fences env i run old new d d' :
  moveSnapshot env i run old new d = Some d' ->
  forall k, fenceOf d' !! k = (fun f => mkFence (regen run old new (fn_gen f) k) (fn_state f) (fn_enabled f)) <$> fenceOf d !! k.
Proof. unfold moveSnapshot. destruct (_ || _); [done|]. intros H%capture_fences k. by rewrite H, cascade_fence. Qed.

Lemma upsert_moves env spec i r d d' : upsertRow env spec i r d = Some d' -> fenceMoves (rw_run r) (rw_gen r) d d'.
Proof.
  unfold upsertRow. destruct (rowsOf d !! (ts_name spec, i)) as [old|].
  - destruct (bool_decide (ts_name spec = snapshotsTable) && _) eqn:Hm.
    + apply andb_true_iff in Hm as [_ Hm]. case_bool_decide as Hr; [|done]. cbn in Hm.
      destruct (moveSnapshot _ _ _ _ _ _) as [d1|] eqn:H1; [|done]. cbn. intros ->%checked_Some k. cbn.
      rewrite (moveSnapshot_fences _ _ _ _ _ _ _ H1), <- cascade_fence. apply cascade_moves. lia.
    + destruct (captureMutation _ _ _ _ _ _ _) as [d1|] eqn:H1; [|done]. intros ->%checked_Some.
      apply capture_fences in H1. by apply sameFences_moves.
  - destruct (captureMutation _ _ _ _ _ _ _) as [d1|] eqn:H1; [|done]. intros ->%checked_Some.
    apply capture_fences in H1. by apply sameFences_moves.
Qed.
Lemma deleteRow_fences env t i run gen d d' : deleteRow env t i run gen d = Some d' -> sameFences d d'.
Proof.
  unfold deleteRow. case_match; [|by intros [= <-]]. destruct (captureMutation _ _ _ _ _ _ _) as [d1|] eqn:H1; [|done].
  intros ->%checked_Some. by apply capture_fences in H1.
Qed.
Lemma deleteAll_fences env t run gen l d d' : deleteAll env t run gen l d = Some d' -> sameFences d d'.
Proof.
  revert d. induction l as [|i l IH]; intros d; cbn [deleteAll]; [by intros [= <-]|].
  destruct (deleteRow _ _ _ _ _ _) as [d1|] eqn:H1; [|done]. intros H2. etrans; [by eapply deleteRow_fences|by apply IH].
Qed.
Lemma deleteTable_fences env t run gen d d' : deleteTable env t run gen d = Some d' -> sameFences d d'.
Proof. apply deleteAll_fences. Qed.
Lemma deleteSnapshot_fences env run gen d d' : deleteSnapshot env run gen d = Some d' -> sameFences d d'.
Proof. unfold deleteSnapshot. repeat case_match; [by intros [= <-]|done|apply deleteTable_fences]. Qed.
Lemma insEvidence_fences run gen d d' : insEvidence run gen d = Some d' -> sameFences d d'.
Proof. unfold insEvidence. intros Hs. repeat case_match; by inversion Hs. Qed.
Lemma setBaseline_fences run gen a b c d d' : setBaseline run gen a b c d = Some d' -> sameFences d d'.
Proof. unfold setBaseline. intros Hs. repeat case_match; by inversion Hs. Qed.
Lemma disableCaptureAt_fences p run d : sameFences d (disableCaptureAt p run d).
Proof. unfold disableCaptureAt. repeat case_match; done. Qed.
Lemma deleteCapture_fences p run gen d : sameFences d (deleteCapture p run gen d).
Proof. unfold deleteCapture. repeat case_match; done. Qed.
Lemma stageRows_fences m l d : sameFences d (stageRows m l d).
Proof. revert d. induction l as [|[i r] l IH]; intros d; cbn [stageRows]; [done|]. etrans; [|apply IH]. done. Qed.

(** An update of a fence. *)
Lemma updFence_Some run gen from st en d d' :
  updFence run gen from st en d = Some d' ->
  exists f, fenceOf d !! run = Some f /\ fn_gen f = gen /\ fn_state f ∈ from /\ fenceOf d' = <[run := mkFence gen st en]> (fenceOf d).
Proof.
  unfold updFence. destruct (fenceOf d !! run) as [f|]; [|done]. destruct (_ && _) eqn:Hc; [|done]. intros [= <-].
  apply andb_true_iff in Hc as [?%Z.eqb_eq ?%bool_decide_eq_true]. by exists f.
Qed.
Lemma standbyFence_Some run gen d n d' :
  standbyFence run gen d = Some (n, d') ->
  (forall f, fenceOf d !! run = Some f -> fn_enabled f = true) /\ n = 0%nat /\ d' = d \/
  (forall f, fenceOf d !! run = Some f -> fn_enabled f = false) /\ n = 1%nat /\ fenceOf d' = <[run := mkFence gen "standby" false]> (fenceOf d).
Proof.
  unfold standbyFence. destruct (fenceOf d !! run) as [f|].
  - destruct (fn_enabled f) eqn:He; [intros [= <- <-]; left; naive_solver|]. case_match; [done|]. intros [= <- <-]. right. naive_solver.
  - case_match; [|done]. intros [= <- <-]. right. naive_solver.
Qed.

(** ** The transactions *)
Lemma respects_weaken {S} (R R' : S -> S -> Prop) {E A} (m : Txn S E A) : (forall d d', R d d' -> R' d d') -> respects R m -> respects R' m.
Proof. intros HR Hm d a d' H. eapply HR, Hm, H. Qed.

Ltac respect :=
  repeat first
    [ apply respects_ret | apply respects_raise | apply respects_shard | apply respects_guard | apply respects_reads
    | apply respects_bind; [apply _| |intros ?]
    | apply respects_one; intros ? ? | apply respects_counted; intros ? ? ? | apply respects_modify; intros ?
    | progress cbv zeta | case_match ]; try apply _.

Lemma applyRows_moves env run gen l :
  Forall (fun x : JSONRow => rw_run x.2 = run) l -> respects (fenceMoves run gen) (applyRows env gen l).
Proof.
  induction l as [|[[t i] r] l IH]; cbn [applyRows]; [intros _; respect|]. intros [Hr Hl]%Forall_cons. cbn in Hr.
  destruct (findTable t) as [spec|]; [|respect]. apply respects_bind; [apply _|respect|intros _]. apply respects_bind; [apply _| |by intros _; apply IH].
  apply respects_one. intros d d' H%upsert_moves. cbn in H. by rewrite Hr in H.
Qed.
Lemma deleteTables_fences env l run gen : respects sameFences (deleteTables env l run gen).
Proof. induction l as [|t l IH]; cbn [deleteTables]; [respect|]. apply respects_bind; [apply _| |done]. apply respects_one, deleteTable_fences. Qed.
Lemma applyMutation_moves env r e :
  (forall row, jn_payload e = Some row -> rw_run row = rc_run r) -> respects (fenceMoves (rc_run r) (rc_tgen r)) (applyMutation env r e).
Proof.
  intros Hp. unfold applyMutation. destruct (findTable _) as [t|]; [|respect].
  assert (Hdel : respects (fenceMoves (rc_run r) (rc_tgen r))
    (one ErrShardOperation (deleteRow env (ts_name t) (je_entity (jn_entry e)) (rc_run r) (rc_tgen r)) : ST unit)).
  { apply respects_one. intros d d' H1%deleteRow_fences. by apply sameFences_moves. }
  destruct (jn_payload e) as [row|]; [|done]. case_match; [done|].
  apply respects_one. intros d d' H1%upsert_moves. cbn in H1. by rewrite (Hp row eq_refl) in H1.
Qed.
Lemma applyJournalTx_moves env r e :
  (forall row, jn_payload e = Some row -> rw_run row = rc_run r) -> respects (fenceMoves (rc_run r) (rc_tgen r)) (applyJournalTx env r e).
Proof.
  intros Hp. unfold applyJournalTx. apply respects_bind; [apply _|respect|intros d]. case_match; [respect|].
  apply respects_bind; [apply _|respect|intros _]. apply respects_bind; [apply _| |intros _].
  - apply respects_modify. intros d1. by apply sameFences_moves.
  - apply respects_bind; [apply _|by apply applyMutation_moves|intros ?; respect].
Qed.
Lemma upsert_other env spec i r d d' : ts_name spec <> snapshotsTable -> upsertRow env spec i r d = Some d' -> sameFences d d'.
Proof.
  intros Ht. unfold upsertRow. rewrite (bool_decide_eq_false_2 _ Ht). cbn [andb].
  destruct (rowsOf d !! (ts_name spec, i)); destruct (captureMutation _ _ _ _ _ _ _) as [d1|] eqn:H1; try done;
    intros ->%checked_Some; by apply capture_fences in H1.
Qed.
Lemma findTable_name t spec : findTable t = Some spec -> ts_name spec = t.
Proof. unfold findTable. intros [_ H%bool_decide_eq_true]%find_some. done. Qed.
Lemma promoteRows_fences env spec l d d' : ts_name spec <> snapshotsTable -> promoteRows env spec l d = Some d' -> sameFences d d'.
Proof.
  intros Ht. revert d. induction l as [|[i r] l IH]; intros d; cbn [promoteRows]; [by intros [= <-]|].
  case_match; [done|]. destruct (upsertRow _ _ _ _ _) as [d1|] eqn:H1; [|done]. intros H2. etrans; [by eapply upsert_other|by apply IH].
Qed.
Lemma promoteTx_fences env r total : respects sameFences (promoteTx env r total).
Proof.
  unfold promoteTx. destruct (findTable outboxTable) as [spec|] eqn:Hf; [|respect]. apply findTable_name in Hf.
  apply respects_bind; [apply _|apply respects_one, deleteTable_fences|intros _]. apply respects_bind; [apply _|respect|intros d].
  apply respects_bind; [apply _| |intros _]; [|respect; done].
  apply respects_one. intros d1 d2. apply promoteRows_fences. by rewrite Hf.
Qed.

(** The transactions that write a fence. *)
Lemma applyBaseTx_fences env r batch d u d' :
  Forall (fun x : JSONRow => rw_run x.2 = rc_run r) (bb_payload batch) -> applyBaseTx env r batch d = Ok (u, d') ->
  (forall k, k <> rc_run r -> fenceOf d' !! k = fenceOf d !! k) /\
  (fenceMoves (rc_run r) (rc_tgen r) d d' \/
   (forall f, fenceOf d !! rc_run r = Some f -> fn_enabled f = false) /\ fenceOf d' !! rc_run r = Some (mkFence (rc_tgen r) "standby" false)).
Proof.
  intros Hp. unfold applyBaseTx. intros (u1 & d1 & H1 & H)%sbind_Ok. apply (applyRows_moves _ _ _ _ Hp) in H1.
  assert (Hne : forall k, k <> rc_run r -> fenceOf d1 !! k = fenceOf d !! k) by (intros k Hk; destruct (H1 k) as [?|[? _]]; [done|congruence]).
  assert (Hen : forall f1, fenceOf d1 !! rc_run r = Some f1 -> exists f, fenceOf d !! rc_run r = Some f /\ fn_enabled f = fn_enabled f1).
  { intros f1 E1. destruct (H1 (rc_run r)) as [E|(_ & f & Ef & _ & E)]; [exists f1; by rewrite <- E|].
    exists f. split; [done|]. rewrite E in E1. by injection E1 as <-. }
  destruct (_ && _); [|apply sret_Ok in H as [_ <-]; auto].
  apply sbind_Ok in H as (n & d2 & H2%counted_Ok & H). apply sbind_Ok in H as (u2 & d3 & H3%one_Ok%insEvidence_fences & H).
  assert (H4 : sameFences d3 d').
  { destruct (rc_reverse r); [apply one_Ok in H; by eapply deleteSnapshot_fences|by apply sret_Ok in H as [_ <-]]. }
  assert (Hd : fenceOf d' = fenceOf d2) by (rewrite H4, H3; done).
  apply standbyFence_Some in H2 as [(He & -> & ->)|(He & -> & Hf)]; rewrite Hd.
  - split; [done|left]. intros k. rewrite Hd. apply H1.
  - rewrite Hf. split; [intros k Hk; rewrite lookup_insert_ne; auto|right]. split; [|by rewrite lookup_insert_eq].
    intros f Hf'. destruct (H1 (rc_run r)) as [E|(_ & f0 & Ef & _ & E)].
    + apply He. congruence.
    + specialize (He _ E). cbn in He. congruence.
Qed.
Lemma prepareTargetTx_fences env r i snap d u d' :
  rw_run snap = rc_run r -> prepareTargetTx env r i snap d = Ok (u, d') ->
  (forall k, k <> rc_run r -> fenceOf d' !! k = fenceOf d !! k) /\ fenceOf d' !! rc_run r = Some (mkFence (rc_tgen r) "standby" false).
Proof.
  intros Hr. unfold prepareTargetTx. destruct (findTable _) as [spec|]; [|by intros []%raise_Ok].
  intros (u1 & d1 & H1%one_Ok%upsert_moves & H)%sbind_Ok. cbn in H1. rewrite Hr in H1.
  apply sbind_Ok in H as (n & d2 & H2%counted_Ok & H). apply sbind_Ok in H as (u2 & d3 & [Hn <-]%guardS_Ok & H).
  apply sbind_Ok in H as (u4 & d4 & H4%one_Ok%insEvidence_fences & H). apply sbind_Ok in H as (? & ? & [<- <-]%shard_Ok & H).
  apply sbind_Ok in H as (u5 & d5 & [_ <-]%guardS_Ok & H).
  assert (H5 : sameFences d4 d').
  { destruct (rc_reverse r); [apply one_Ok in H; by eapply deleteSnapshot_fences|by apply sret_Ok in H as [_ <-]]. }
  apply standbyFence_Some in H2 as [(_ & -> & _)|(_ & -> & Hf)]; [done|].
  assert (Hd : fenceOf d' = fenceOf d2) by (rewrite H5, H4; done). rewrite Hd, Hf. split; [|by rewrite lookup_insert_eq].
  intros k Hk. rewrite lookup_insert_ne by done. destruct (H1 k) as [?|[? _]]; [done|congruence].
Qed.
Lemma quiesce_fences env run gen l :
  Forall (fun ir : uuid * Row => rw_run ir.2 = run /\ rw_gen ir.2 = gen) l -> respects (fenceMoves run gen) (quiesceSnapshots env l).
Proof.
  induction l as [|[i r] l IH]; cbn [quiesceSnapshots]; [intros _; respect|]. intros [[Hr Hg] Hl]%Forall_cons. cbn in Hr, Hg.
  apply respects_bind; [apply _| |by intros _; apply IH]. apply respects_one. intros d d' H%upsert_moves. cbn in H. by rewrite Hr, Hg in H.
Qed.
Lemma elem_of_byId {A} (l : list (uuid * A)) x : x ∈ byId l <-> x ∈ l.
Proof. apply elem_of_sortBy. Qed.
Lemma inScope_true run gen r : inScope run gen r = true <-> rw_run r = run /\ rw_gen r = gen.
Proof. unfold inScope. rewrite andb_true_iff, bool_decide_eq_true, Z.eqb_eq. done. Qed.
Lemma elem_of_tableRows d t run gen i r :
  (i, r) ∈ tableRows d t run gen <-> rowsOf d !! (t, i) = Some r /\ rw_run r = run /\ rw_gen r = gen.
Proof.
  unfold tableRows. rewrite elem_of_byId, list_elem_of_omap. split.
  - intros ([[t' i'] r'] & Hin%elem_of_map_to_list & H). cbn in H. destruct (_ && _) eqn:Hc; [|done]. injection H as -> ->.
    apply andb_true_iff in Hc as [->%bool_decide_eq_true Hs%inScope_true]. done.
  - intros (Hl & Hs). exists ((t, i), r). split; [by apply elem_of_map_to_list|]. cbn.
    rewrite bool_decide_eq_true_2 by done. by rewrite (proj2 (inScope_true _ _ _) Hs).
Qed.
Lemma tableRows_scope d t run gen : Forall (fun ir : uuid * Row => rw_run ir.2 = run /\ rw_gen ir.2 = gen) (tableRows d t run gen).
Proof. apply Forall_forall. by intros [i r] (_ & ?)%elem_of_tableRows. Qed.

(** The end of the preparation: the fence of the old generation is retained. *)
Lemma retainedTx_fences env r limit d u d' :
  prepareRetainedPredecessor env r limit d = Ok (u, d') ->
  (forall k, k <> rc_run r -> fenceOf d' !! k = fenceOf d !! k) /\
  (fenceOf d' !! rc_run r = fenceOf d !! rc_run r \/
   exists f, fenceOf d !! rc_run r = Some f /\ fn_enabled f = false /\ fenceOf d' !! rc_run r = Some (mkFence (rc_retained r) "retained" false)).
Proof.
  unfold prepareRetainedPredecessor. intros (? & ? & [<- <-]%shard_Ok & H)%sbind_Ok. cbv zeta in H.
  destruct (_ && _) in H; [apply sret_Ok in H as [_ <-]; auto|].
  apply sbind_Ok in H as (? & ? & [Hg <-]%guardS_Ok & H). apply sbind_Ok in H as (? & ? & [_ <-]%guardS_Ok & H).
  apply sbind_Ok in H as (? & d1 & <-%modify_Ok & H). apply sbind_Ok in H as (? & d2 & H2%deleteTables_fences & H).
  apply sbind_Ok in H as (? & ? & <-%modify_Ok & H). apply sbind_Ok in H as (? & ? & <-%modify_Ok & H).
  apply sbind_Ok in H as (? & ? & <-%modify_Ok & H). apply sbind_Ok in H as (? & d3 & <-%modify_Ok & H).
  apply sbind_Ok in H as (? & ? & [<- <-]%shard_Ok & H).
  apply sbind_Ok in H as (? & d4 & H4 & <-%modify_Ok). apply (quiesce_fences _ _ _ _ (tableRows_scope _ _ _ _)) in H4.
  assert (Hd : forall k, fenceOf d4 !! k = fenceOf d !! k).
  { assert (Hf : fenceOf d2 = fenceOf d) by (rewrite H2; apply disableCaptureAt_fences).
    intros k. destruct (H4 k) as [->|(-> & f & Hl & Hne & _)].
    - rewrite (deleteCapture_fences _ _ _ _). cbn. by rewrite Hf.
    - exfalso. rewrite (deleteCapture_fences _ _ _ _) in Hl. cbn in Hl. rewrite Hf in Hl.
      unfold idleFence in Hg. rewrite Hl in Hg. destruct (Z.eqb_spec (fn_gen f) (rc_retained r)); [done|].
      cbn in Hg. rewrite !orb_true_r in Hg. done. }
  destruct (fenceOf d4 !! rc_run r) as [f|] eqn:Hf; [|split; [done|left; by rewrite <- Hd, Hf]].
  destruct (Z.eqb_spec (fn_gen f) (rc_retained r)) as [Hgen|]; [|split; [done|left; by rewrite Hd]].
  cbn. split; [intros k Hk; by rewrite lookup_insert_ne|right]. exists f. rewrite <- Hd, Hf, lookup_insert_eq. split_and!; try done.
  unfold idleFence in Hg. rewrite <- Hd, Hf in Hg. destruct (fn_enabled f); [|done]. cbn in Hg. rewrite andb_false_r in Hg. cbn in Hg.
  rewrite !orb_true_r in Hg. done.
Qed.

(** The fence of one run is replaced. *)
Definition fenceSet (run : uuid) (f : Fence) (d d' : Store) : Prop := fenceOf d' = <[run := f]> (fenceOf d).
Lemma enableTargetTx_fences r d u d' :
  enableTargetTx r d = Ok (u, d') ->
  exists f, fenceOf d !! rc_run r = Some f /\ fn_gen f = rc_tgen r /\ fn_state f ∈ ["standby"; "active"]%string /\
    fenceSet (rc_run r) (mkFence (rc_tgen r) "active" true) d d'.
Proof.
  unfold enableTargetTx. intros (? & ? & [<- <-]%shard_Ok & H)%sbind_Ok. destruct (evidenceOf d !! _) as [e|]; [|by apply raise_Ok in H].
  apply sbind_Ok in H as (? & ? & [_ <-]%guardS_Ok & H). apply sbind_Ok in H as (? & d1 & H1 & H%one_Ok).
  assert (Hs : sameFences d d1).
  { destruct (ed_base e) as [b|]; [by apply sret_Ok in H1 as [_ <-]|]. cbn in H1. apply one_Ok in H1. by eapply setBaseline_fences. }
  apply updFence_Some in H as (f & Hf & Hg & Hst & H). unfold fenceSet. rewrite <- Hs. by exists f.
Qed.
Lemma disableTargetTx_fences r d u d' :
  disableTargetTx r d = Ok (u, d') ->
  exists f, fenceOf d !! rc_run r = Some f /\ fn_gen f = rc_tgen r /\ fn_state f ∈ ["standby"; "active"; "disabled"]%string /\
    fenceSet (rc_run r) (mkFence (rc_tgen r) "disabled" false) d d'.
Proof.
  unfold disableTargetTx. intros (? & ? & [<- <-]%shard_Ok & H)%sbind_Ok.
  destruct (fenceOf d !! rc_run r) as [f0|] eqn:Hf0; [|by apply raise_Ok in H]. destruct (evidenceOf d !! _) as [e|]; [|by apply raise_Ok in H].
  apply sbind_Ok in H as (? & ? & [_ <-]%guardS_Ok & H). apply sbind_Ok in H as (? & ? & [_ <-]%guardS_Ok & H).
  apply sbind_Ok in H as (? & d1 & H1 & H). apply sbind_Ok in H as (? & ? & [_ <-]%guardS_Ok & H%one_Ok).
  assert (Hs : sameFences d d1).
  { destruct (ed_base e) as [b|]; [by apply sret_Ok in H1 as [_ <-]|].
    apply sbind_Ok in H1 as (? & ? & [_ <-]%guardS_Ok & H1). cbn in H1. apply one_Ok in H1. by eapply setBaseline_fences. }
  apply updFence_Some in H as (f & Hf & Hg & Hst & H). unfold fenceSet. rewrite <- Hs, <- Hf0, <- Hs. by exists f.
Qed.
Lemma rebindTx_fences env r generation d u d' :
  rebindTx env r generation d = Ok (u, d') ->
  exists f, fenceOf d !! rc_run r = Some f /\ fn_state f ∈ ["quiescing"; "retained"; "active"]%string /\
    (forall k, k <> rc_run r -> fenceOf d' !! k = fenceOf d !! k) /\ fenceOf d' !! rc_run r = Some (mkFence generation "active" true).
Proof.
  unfold rebindTx. intros (u1 & d0 & <-%modify_Ok & H)%sbind_Ok. apply sbind_Ok in H as (dd & d3 & [<- <-]%shard_Ok & H).
  apply sbind_Ok in H as (? & d1 & H1 & H%one_Ok). set (d0 := disableCaptureAt _ _ d) in *.
  assert (H0 : fenceOf d0 = fenceOf d) by apply disableCaptureAt_fences.
  assert (Hm : forall k, (k <> rc_run r -> fenceOf d1 !! k = fenceOf d !! k) /\
    forall f1, fenceOf d1 !! k = Some f1 -> exists f, fenceOf d !! k = Some f /\ fn_state f = fn_state f1).
  { intros k. rewrite <- H0. destruct (tableRows d0 snapshotsTable _ _) as [|[i row] [|]].
    - apply guardS_Ok in H1 as [_ <-]. naive_solver.
    - apply one_Ok in H1. pose proof (moveSnapshot_fences _ _ _ _ _ _ _ H1 k) as Hk. rewrite Hk. destruct (fenceOf d0 !! k) as [f|]; [|done].
      cbn. split; [|intros ? [= <-]; by exists f]. intros Hne. destruct (regen_spec (rc_run r) (rc_sgen r) generation (fn_gen f) k) as [->|[? _]]; [|done].
      by destruct f.
    - by apply raise_Ok in H1. }
  apply updFence_Some in H as (f1 & Hf & Hg & Hst & H). destruct (Hm (rc_run r)) as [_ Hs]. destruct (Hs f1 Hf) as (f & Hf' & Hst').
  exists f. rewrite Hst'. split_and!; [done|done| |by rewrite H, lookup_insert_eq].
  intros k Hk. rewrite H, lookup_insert_ne by done. by apply Hm.
Qed.
Lemma fenceSourceTx_fences r d q d' :
  (_ ← one ErrShardOperation (updFence (rc_run r) (rc_sgen r) ["active"; "quiescing"] "quiescing" false);
   reads (fun d => match captureOf d !! rc_run r with
                   | Some c => failif negb (bool_decide (cs_migration c = rc_id r) && (cs_gen c =? rc_sgen r) && cs_enabled c) with ErrShardOperation else Ok (cs_next c)
                   | None => Err ErrShardOperation
                   end) : ST Z) d = Ok (q, d') ->
  exists f, fenceOf d !! rc_run r = Some f /\ fn_gen f = rc_sgen r /\ fenceSet (rc_run r) (mkFence (rc_sgen r) "quiescing" false) d d'.
Proof.
  intros (? & d1 & H%one_Ok & [_ <-]%reads_Ok)%sbind_Ok. apply updFence_Some in H as (f & Hf & Hg & _ & H). by exists f.
Qed.
Lemma cleanupTx_fences env r resuming d u d' :
  cleanupTx env r resuming d = Ok (u, d') ->
  (forall k, k <> rc_run r -> fenceOf d' !! k = fenceOf d !! k) /\
  (fenceOf d' !! rc_run r = fenceOf d !! rc_run r \/
   exists f, fenceOf d !! rc_run r = Some f /\ fn_state f = "retained"%string /\ fenceOf d' !! rc_run r = None).
Proof.
  unfold cleanupTx. intros (? & ? & [<- <-]%shard_Ok & H)%sbind_Ok. cbv zeta in H.
  apply sbind_Ok in H as (? & ? & [_ <-]%guardS_Ok & H). apply sbind_Ok in H as (? & d1 & H1%deleteTables_fences & H).
  apply sbind_Ok in H as (? & ? & <-%modify_Ok & H). apply sbind_Ok in H as (? & ? & <-%modify_Ok & H).
  apply sbind_Ok in H as (? & ? & <-%modify_Ok & H). apply sbind_Ok in H as (? & d2 & <-%modify_Ok & H).
  apply sbind_Ok in H as (? & d3 & <-%modify_Ok & H). apply sbind_Ok in H as (? & d4 & H4%deleteTables_fences & H5%one_Ok%deleteSnapshot_fences).
  set (d2 := set_evid _ _) in *.
  assert (H2 : fenceOf d2 = fenceOf d) by (unfold d2; cbn; rewrite (deleteCapture_fences _ _ _ _); cbn; exact H1).
  unfold sameFences in *. rewrite H5, H4. clear H4 H5. rewrite H2. destruct (fenceOf d !! rc_run r) as [f|] eqn:Hf; [|rewrite <- Hf, <- H2; auto].
  destruct (_ && _) eqn:Hc; [|rewrite <- Hf, <- H2; auto]. apply andb_true_iff in Hc as [_ Hst%bool_decide_eq_true]. cbn. split.
  - intros k Hk. by rewrite lookup_delete_ne.
  - right. exists f. by rewrite lookup_delete_eq.
Qed.
