(* ===== verification/MigrationWriters.v ===== *)
(** * Physical migration: one writer at most

    The invariant of the two shards' write fences under every history of the
    operator's commands, whatever they are interrupted by, and the triples of
    the engine's operations that keep it. *)

From S2P Require Import Prelude Transaction CrashProgram Sharding PaymentDomain PaymentDb BookingDb ShardDb ShardLogic ShardBooking CommandDb MigrationDb MigrationEngine MigrationControl MigrationLedger MigrationShards MigrationValidator MigrationCutover MigrationAdmin MigrationFences.
Import Physical.

(** ** The invariant *)
Definition writeFence (w : World) (s : string) (run : uuid) : option Fence := stores w !! s ≫= fun d => fenceOf d !! run.
(** Other clients: they write neither the ledger, nor the assignments, nor a
    fence. *)
Definition bystanders (w w' : World) : Prop :=
  md_migs (ctl w') = md_migs (ctl w) /\ runAssignments (cenv (md_base (ctl w'))) = runAssignments (cenv (md_base (ctl w))) /\
  forall s, fenceOf <$> stores w' !! s = fenceOf <$> stores w !! s.

(** The target is prepared; the source is fenced. *)
Definition preparedPhase (s : PhysicalState) : bool :=
  match s with
  | PhysicalStateCaptureEnabled | PhysicalStateBaseCopying | PhysicalStateCatchingUp | PhysicalStateValidatingOnline | PhysicalStateDraining => true
  | _ => false
  end.
Definition fencedPhase (s : PhysicalState) : bool :=
  match s with
  | PhysicalStateSourceFenced | PhysicalStateFinalCatchup | PhysicalStateFinalValidating | PhysicalStateTargetEnabled
  | PhysicalStateSwitchingAssignment | PhysicalStateRollbackWindow => true
  | _ => false
  end.
Definition idle (f : Fence) (states : list string) : Prop := fn_enabled f = false /\ fn_state f ∈ states.
(** The fences of source and target in a phase.  In the fenced phase either a
    rollback has disabled the target, or the source is out of service. *)
Definition phaseOk (s : PhysicalState) (tgen : Z) (source target : option Fence) : Prop :=
  (preparedPhase s = true -> exists f, target = Some f /\ fn_gen f = tgen /\ idle f ["standby"; "disabled"]) /\
  (fencedPhase s = true -> exists f, target = Some f /\ fn_gen f = tgen /\
     (idle f ["disabled"] \/ fn_state f ∈ ["standby"; "active"] /\ forall g, source = Some g -> idle g ["quiescing"; "retained"])).
Definition migPhase (w : World) (m : MigRow) : Prop :=
  phaseOk (mg_state m) (mg_tgen m) (writeFence w (mg_source m) (mg_run m)) (writeFence w (mg_target m) (mg_run m)).

Record FenceInv (w : World) : Prop := mkFenceInv {
  fi_shards : forall s, is_Some (stores w !! s) -> validShard s = true;
  fi_assigned : forall run a, assignmentOf (ctl w) run = Some a -> validShard (a_shard a) = true;
  fi_ends : forall id m, md_migs (ctl w) !! id = Some m -> validShard (mg_source m) = true /\ validShard (mg_target m) = true /\ mg_source m <> mg_target m;
  fi_alone : forall id m, md_migs (ctl w) !! id = Some m -> aloneActive id m (md_migs (ctl w));
  fi_state : forall s run f, writeFence w s run = Some f -> fn_enabled f = true -> fn_state f = "active"%string;
  fi_writer : forall s s' run f f', writeFence w s run = Some f -> writeFence w s' run = Some f' -> fn_enabled f = true -> fn_enabled f' = true -> s = s';
  fi_phase : forall id m, md_migs (ctl w) !! id = Some m -> migPhase w m }.

Lemma bystanders_fence w w' s run : bystanders w w' -> writeFence w' s run = writeFence w s run.
Proof.
  intros (_ & _ & H). specialize (H s). unfold writeFence. destruct (stores w !! s), (stores w' !! s); cbn in *; congruence.
Qed.
Lemma FenceInv_env w w' : bystanders w w' -> FenceInv w -> FenceInv w'.
Proof.
  intros Hb [H1 H2 H3 H4 H5 H6 H7]. pose proof Hb as (Hm & Ha & Hs). pose proof (fun s run => bystanders_fence w w' s run Hb) as Hf. split.
  - intros s Hs'. apply H1. specialize (Hs s). destruct (stores w !! s), (stores w' !! s); by destruct Hs'.
  - intros run a. unfold assignmentOf. rewrite Ha. apply H2.
  - rewrite Hm. apply H3.
  - rewrite Hm. apply H4.
  - intros s run f. rewrite Hf. apply H5.
  - intros s s' run f f'. rewrite !Hf. apply H6.
  - rewrite Hm. intros id m Hl. unfold migPhase. rewrite !Hf. exact (H7 id m Hl).
Qed.

Lemma two_shards a b s : validShard a = true -> validShard b = true -> a <> b -> validShard s = true -> s = a \/ s = b.
Proof. unfold validShard. intros Ha Hb Hne Hs. repeat case_bool_decide; naive_solver. Qed.
Lemma phase_active s : preparedPhase s = true \/ fencedPhase s = true -> isActive s = true.
Proof. destruct s; cbn; naive_solver. Qed.
Lemma phaseOk_inactive s tgen S T : isActive s = false -> phaseOk s tgen S T.
Proof. intros H. split; intros Hp; exfalso; (assert (isActive s = true) by (apply phase_active; auto)); congruence. Qed.
(** Two states of one phase. *)
Lemma phaseOk_state s s' tgen S T :
  (preparedPhase s' = true -> preparedPhase s = true) -> (fencedPhase s' = true -> fencedPhase s = true) -> phaseOk s tgen S T -> phaseOk s' tgen S T.
Proof. intros Hp Hf [H1 H2]. split; auto. Qed.

Lemma writeFence_set w s d s' run : writeFence (set_store w s d) s' run = if decide (s' = s) then fenceOf d !! run else writeFence w s' run.
Proof. unfold writeFence, set_store. cbn. destruct (decide (s' = s)) as [->|]; [by rewrite lookup_insert_eq|by rewrite lookup_insert_ne]. Qed.
Lemma writeFence_at w s d run : stores w !! s = Some d -> writeFence w s run = fenceOf d !! run.
Proof. intros H. unfold writeFence. by rewrite H. Qed.

(** A transaction on a shard that changes the fence of one run. *)
Lemma inv_store w s d d' run :
  FenceInv w -> stores w !! s = Some d -> (forall k, k <> run -> fenceOf d' !! k = fenceOf d !! k) ->
  (forall f, fenceOf d' !! run = Some f -> fn_enabled f = true ->
     fn_state f = "active"%string /\ forall s' f', s' <> s -> writeFence w s' run = Some f' -> fn_enabled f' = false) ->
  (forall id m, md_migs (ctl w) !! id = Some m -> mg_run m = run -> isActive (mg_state m) = true -> migPhase (set_store w s d') m) ->
  FenceInv (set_store w s d').
Proof.
  intros Hi Hs Hk Hen Hph. destruct Hi as [H1 H2 H3 H4 H5 H6 H7].
  assert (Hne : forall s' k, k <> run -> writeFence (set_store w s d') s' k = writeFence w s' k).
  { intros s' k Hk'. rewrite writeFence_set. destruct (decide (s' = s)) as [->|]; [|done]. by rewrite (writeFence_at _ _ _ _ Hs), Hk. }
  split; try done.
  - intros s' [x Hx]. cbn in Hx. destruct (decide (s' = s)) as [->|Hs']; [by apply H1|]. rewrite lookup_insert_ne in Hx by done. apply H1. by exists x.
  - intros s' k f Hf He. destruct (decide (k = run)) as [->|Hk']; [|rewrite Hne in Hf by done; by eapply H5].
    rewrite writeFence_set in Hf. destruct (decide (s' = s)) as [->|]; [by apply Hen|by eapply H5].
  - intros s1 s2 k f1 f2 Hf1 Hf2 He1 He2. destruct (decide (k = run)) as [->|Hk']; [|rewrite Hne in Hf1, Hf2 by done; by eapply H6].
    rewrite writeFence_set in Hf1, Hf2. destruct (decide (s1 = s)) as [->|Hs1], (decide (s2 = s)) as [->|Hs2]; [done| | |by eapply H6].
    + destruct (Hen _ Hf1 He1) as [_ Ho]. specialize (Ho _ _ Hs2 Hf2). congruence.
    + destruct (Hen _ Hf2 He2) as [_ Ho]. specialize (Ho _ _ Hs1 Hf1). congruence.
  - intros id m Hm. destruct (isActive (mg_state m)) eqn:Ha; [|by apply phaseOk_inactive].
    destruct (decide (mg_run m = run)) as [Hr|Hr]; [by eapply Hph|]. unfold migPhase. rewrite !Hne by done. by eapply H7.
Qed.
(** When the migration [id] of the run is active, it is the only one. *)
Lemma alone_phase w id m run (P : MigRow -> Prop) :
  FenceInv w -> md_migs (ctl w) !! id = Some m -> mg_run m = run -> isActive (mg_state m) = true -> P m ->
  forall id' m', md_migs (ctl w) !! id' = Some m' -> mg_run m' = run -> isActive (mg_state m') = true -> P m'.
Proof.
  intros Hi Hm Hr Ha HP id' m' Hm' Hr' Ha'. destruct (decide (id' = id)) as [->|Hne]; [congruence|].
  pose proof (fi_alone w Hi id m Hm Ha id' m' Hm' Hne ltac:(congruence)). congruence.
Qed.
(** A control transaction that moves one migration. *)
Lemma inv_ledger w id m next d' :
  FenceInv w -> ledgerStep id m next (ctl w) d' ->
  phaseOk next (mg_tgen m) (writeFence w (mg_source m) (mg_run m)) (writeFence w (mg_target m) (mg_run m)) -> FenceInv (set_ctl w d').
Proof.
  intros [H1 H2 H3 H4 H5 H6 H7] (m' & Hm & Hd & Hi & Hst & _ & Hal & Has) Hph. destruct (H3 id m Hm) as (Hv1 & Hv2 & Hne).
  pose proof Hi as (_ & Er & Es & Et & _ & Eg & _).
  split; try done; cbn [ctl set_ctl].
  - intros run a Ha. destruct (Has run a Ha) as [->|[->|(b & Hb & ->)]]; [done|done|by eapply H2].
  - rewrite Hd. intros k x [[<- <-]|[Hk Hx]]%lookup_insert_Some; [by rewrite Es, Et|by eapply H3].
  - rewrite Hd. intros k x Hx Hax k' y Hy Hne' Hr. apply lookup_insert_Some in Hx as [[<- <-]|[Hk Hx]].
    + rewrite lookup_insert_ne in Hy by done. by eapply Hal.
    + apply lookup_insert_Some in Hy as [[<- <-]|[Hk' Hy]]; [|by eapply (H4 k x)].
      destruct (isActive (mg_state m')) eqn:Ha'; [|done]. pose proof (Hal Ha' k x Hx ltac:(done) ltac:(done)). congruence.
  - rewrite Hd. intros k x [[<- <-]|[Hk Hx]]%lookup_insert_Some; [|by eapply H7]. unfold migPhase. cbn. by rewrite Hst, Er, Es, Et, Eg.
Qed.
