(* ===== verification/MigrationSafety.v ===== *)
(** * Physical migration: the engine keeps the writer invariant

    Triples, under the invariant of [MigrationWriters], of the shard
    operations, of the control store and of the engine built from them, and the
    theorem: no history of commands, with any interruption, leaves a run with
    two enabled write fences. *)

From S2P Require Import Prelude Transaction CrashProgram Sharding PaymentDomain PaymentDb BookingDb ShardDb ShardLogic ShardBooking CommandDb MigrationDb MigrationEngine MigrationControl MigrationLedger MigrationShards MigrationValidator MigrationCutover MigrationAdmin MigrationFences MigrationWriters.
Import Physical.

Abbreviation tri := (triple bystanders FenceInv).
Abbreviation settled := (stable bystanders).

Definition At (id : uuid) (m : MigRow) (w : World) : Prop := md_migs (ctl w) !! id = Some m.
Lemma At_stable id m : settled (At id m).
Proof. intros w w' (H & _) Hm. unfold At. by rewrite H. Qed.
Lemma fence_stable s run f : settled (fun w => writeFence w s run = f).
Proof. intros w w' Hb H. by rewrite (bystanders_fence _ _ _ _ Hb). Qed.
#[local] Hint Resolve At_stable fence_stable stable_and stable_pure stable_true stable_exists : core.

(** ** Single transactions *)
Lemma t_store {A} P s (t : ST A) (Q : A -> World -> Prop) :
  settled P -> (forall a, settled (Q a)) ->
  (forall w d a d', FenceInv w -> P w -> stores w !! s = Some d -> t d = Ok (a, d') -> FenceInv (set_store w s d') /\ Q a (set_store w s d')) ->
  tri P (onStore s t) Q.
Proof.
  intros HP HQ H. apply triple_atomic; [done|done|]. intros w Hi Hw. destruct (stores w !! s) as [d|] eqn:Hs; [|by cbn].
  destruct (t d) as [[a d']|e] eqn:Ht; [|by cbn]. cbn. destruct (H w d a d' Hi Hw Hs Ht) as [? ?]. split; [done|]. by intros ? [= <-].
Qed.
Lemma set_store_bystanders w s d d' : stores w !! s = Some d -> sameFences d d' -> bystanders w (set_store w s d').
Proof.
  intros Hs Hf. split_and!; [done|done|]. intros s'. cbn. destruct (decide (s' = s)) as [->|]; [|by rewrite lookup_insert_ne].
  rewrite lookup_insert_eq, Hs. cbn. by rewrite Hf.
Qed.
Lemma t_keep {A} P s (t : ST A) : settled P -> respects sameFences t -> tri P (onStore s t) (fun _ => P).
Proof.
  intros HP Ht. apply t_store; [done|done|]. intros w d a d' Hi Hw Hs H. apply Ht in H. pose proof (set_store_bystanders _ _ _ _ Hs H) as Hb.
  split; [by eapply FenceInv_env|by eapply HP].
Qed.
Lemma t_read {A} P s (f : Store -> res MErr A) : settled P -> tri P (onStore s (reads f)) (fun a w => P w /\ exists d, f d = Ok a).
Proof.
  intros HP. apply t_store; [done|intros a; auto|]. intros w d a d' Hi Hw Hs [Hf <-]%reads_Ok.
  pose proof (set_store_bystanders w s d d Hs eq_refl) as Hb. split; [by eapply FenceInv_env|]. split; [by eapply HP|by exists d].
Qed.
Lemma t_control {A} env P (t : CT A) (Q : A -> World -> Prop) :
  settled P -> (forall a, settled (Q a)) ->
  (forall w a d', FenceInv w -> P w -> t (ctl w) = Ok (a, d') -> FenceInv (set_ctl w d') /\ Q a (set_ctl w d')) ->
  tri P (onControl env t) Q.
Proof.
  intros HP HQ H. apply triple_atomic; [done|done|]. intros w Hi Hw. destruct (t (ctl w)) as [[a d']|e] eqn:Ht; [|by cbn].
  destruct (ce_ok env d'); [|by cbn]. cbn. destruct (H w a d' Hi Hw Ht) as [? ?]. split; [done|]. by intros ? [= <-].
Qed.
(** A control transaction that moves the migration it was loaded for. *)
Lemma t_ledger {A} env id m (P : World -> Prop) next (t : CT A) :
  settled P -> (forall w, P w -> At id m w) ->
  (forall d a d', t d = Ok (a, d') -> exists m0, md_migs d !! id = Some m0 /\ (m0 = m -> ledgerStep id m next d d')) ->
  (forall w, FenceInv w -> P w -> phaseOk next (mg_tgen m) (writeFence w (mg_source m) (mg_run m)) (writeFence w (mg_target m) (mg_run m))) ->
  tri P (onControl env t) (fun _ _ => True).
Proof.
  intros HP Hat Ht Hph. apply t_control; [done|by auto|]. intros w a d' Hi Hw H. split; [|done].
  destruct (Ht _ _ _ H) as (m0 & Hm0 & Hstep). pose proof (Hat w Hw) as Hm. unfold At in Hm. rewrite Hm in Hm0. injection Hm0 as ->.
  eapply inv_ledger; [done|by apply Hstep|]. by apply Hph.
Qed.
Lemma t_load env id P : settled P -> tri P (LoadRecord (NewControl env) id) (fun r w => P w /\ exists m, At id m w /\ recOf id m r).
Proof.
  intros HP. eapply triple_bind; [by apply (triple_failWhen bystanders FenceInv)|]. intros []. cbn beta.
  apply t_control; [auto|intros r; auto|]. intros w r d' Hi [Hw _] [(m & Hm & Hr)%loadMigration_Ok <-]%reads_Ok.
  destruct w as [c st]. cbn in *. eauto.
Qed.

(** ** Programs that leave the fences and the ledger alone *)
Definition quiet {A} (p : Prog World MErr A) : Prop := forall P, settled P -> tri P p (fun _ => P).
Lemma quiet_bind {A B} (p : Prog World MErr A) (k : A -> Prog World MErr B) : quiet p -> (forall a, quiet (k a)) -> quiet (p ≫= k).
Proof. intros Hp Hk P HP. eapply triple_bind; [by apply Hp|]. intros a. by apply Hk. Qed.
Lemma quiet_ret {A} (a : A) : quiet (mret a).
Proof. intros P HP. by apply (triple_ret bystanders FenceInv a (fun _ => P)). Qed.
Lemma quiet_stop {A} e : quiet (stop e : Prog World MErr A).
Proof. intros P HP. apply triple_stop. Qed.
Lemma quiet_failWhen b e : quiet (failWhen b e).
Proof. destruct b; [apply quiet_stop|apply quiet_ret]. Qed.
Lemma quiet_ofRes {A} (x : res MErr A) : quiet (ofRes x).
Proof. destruct x; [apply quiet_ret|apply quiet_stop]. Qed.
Lemma quiet_store {A} s (t : ST A) : respects sameFences t -> quiet (onStore s t).
Proof. intros Ht P HP. by apply t_keep. Qed.
Lemma quiet_reads {A} s (f : Store -> res MErr A) : quiet (onStore s (reads f)).
Proof. apply quiet_store, respects_reads, _. Qed.
Lemma quiet_forEach {A B} (f : A -> Prog World MErr B) l : (forall a, quiet (f a)) -> quiet (forEach f l).
Proof. intros Hf. induction l; cbn [forEach]; [apply quiet_ret|]. apply quiet_bind; [done|intros ?]. apply quiet_bind; [done|intros ?]. apply quiet_ret. Qed.

Ltac quiet :=
  repeat first
    [ apply quiet_ret | apply quiet_stop | apply quiet_failWhen | apply quiet_ofRes | apply quiet_reads
    | apply quiet_bind; [|intros ?] | progress cbv zeta | case_match ].

(** ** The shard operations *)
Section Quiet.
Context (envs : string -> StoreEnv) (r : MigRecord).
Lemma quiet_preflight : quiet (preflight envs r).
Proof. unfold preflight. quiet. Qed.
Lemma quiet_enableCapture : quiet (enableCapture r).
Proof.
  unfold enableCapture. apply quiet_bind; [|intros ?; apply quiet_ret]. apply quiet_store.
  apply respects_bind; [apply _| |intros ?; apply respects_bind; [apply _| |intros ?]]; apply respects_one; intros d d' H;
    unfold installCapture, resetCapture, startCapture in H; repeat case_match; by inversion H.
Qed.
Lemma quiet_readTables cursor limit specs index after : quiet (readTables envs r cursor limit specs index after).
Proof. revert index after. induction specs as [|spec specs IH]; intros index after; cbn [readTables]; [quiet|]. apply quiet_bind; [quiet|intros page]. case_match; [quiet|apply IH]. Qed.
Lemma quiet_readBase cursor limit : quiet (readBase envs r cursor limit).
Proof. unfold readBase. destruct (parseBaseCursor cursor) as [[i a]|]; [|quiet]. apply quiet_bind; [quiet|intros ?]. apply quiet_readTables. Qed.
Lemma quiet_readJournal after through limit : quiet (readJournal envs r after through limit).
Proof.
  unfold readJournal. apply quiet_bind; [quiet|intros q]. cbv zeta. apply quiet_bind; [quiet|intros es]. apply quiet_bind; [|intros ?; quiet].
  apply quiet_forEach. intros e. unfold loadEntry, loadMutationPayload. quiet.
Qed.
Lemma quiet_budget env : respects sameFences (enforceOutboxStagingBudget env).
Proof. unfold enforceOutboxStagingBudget. respect. Qed.
Lemma quiet_stagePages maxRows ps total bytes : quiet (stagePages envs r maxRows ps total bytes).
Proof.
  revert total bytes. induction ps as [|page ps IH]; intros total bytes; cbn [stagePages]; [quiet|]. apply quiet_bind; [quiet|intros b]. cbv zeta.
  apply quiet_bind; [quiet|intros ?]. apply quiet_bind; [|by intros ?; apply IH]. apply quiet_store. apply respects_bind; [apply _| |intros ?; apply quiet_budget].
  apply respects_modify. intros d. apply stageRows_fences.
Qed.
Lemma quiet_captureOutbox maxRows : quiet (captureOutbox envs r maxRows).
Proof.
  unfold captureOutbox. apply quiet_bind; [quiet|intros ?]. apply quiet_bind; [|intros ?].
  { apply quiet_store. apply respects_bind; [apply _| |intros ?; apply quiet_budget]. by apply respects_modify. }
  apply quiet_bind; [quiet|intros rows]. apply quiet_bind; [apply quiet_stagePages|intros total]. apply quiet_store, promoteTx_fences.
Qed.
Lemma quiet_validateTables q specs remaining result : quiet (validateTables envs q specs remaining result).
Proof.
  revert remaining result. induction specs as [|spec specs IH]; intros remaining result; cbn [validateTables]; [quiet|]. cbv zeta. case_match; [quiet|].
  apply quiet_bind; [quiet|intros s]. apply quiet_bind; [quiet|intros t]. case_match; [quiet|apply IH].
Qed.
Lemma quiet_boundedValidate q : quiet (boundedValidate envs q).
Proof.
  unfold boundedValidate. cbv zeta. apply quiet_bind; [quiet|intros ?]. apply quiet_bind; [quiet|intros vs]. apply quiet_bind; [quiet|intros vt].
  apply quiet_validateTables.
Qed.
Lemma quiet_disableCapture : quiet (disableCapture r).
Proof.
  unfold disableCapture. apply quiet_store, respects_one. intros d d' H. destruct (captureOf d !! _) as [c|]; [|done]. destruct (_ && _); [|done].
  injection H as <-. apply disableCaptureAt_fences.
Qed.
End Quiet.

Lemma t_ret {A} (a : A) (P : World -> Prop) (Q : A -> World -> Prop) : settled P -> (forall w, P w -> Q a w) -> tri P (mret a : Prog World MErr A) Q.
Proof. intros HP HQ w H w' He _. apply HQ. by eapply stable_rtc. Qed.

(** What the readers return is in the scope of the run. *)
Section Readers.
Context (envs : string -> StoreEnv) (r : MigRecord) (P : World -> Prop).
Hypothesis HP : settled P.
Definition ofRun (run : uuid) (l : list JSONRow) : Prop := Forall (fun x : JSONRow => rw_run x.2 = run) l.
Lemma pageRows_run d t gen after limit : Forall (fun ir : uuid * Row => rw_run ir.2 = rc_run r) (pageRows d t (rc_run r) gen after limit).
Proof.
  unfold pageRows. apply Forall_take, Forall_forall. intros x [_ Hx]%list_elem_of_filter.
  pose proof (tableRows_scope d t (rc_run r) gen) as Hs. rewrite Forall_forall in Hs. by apply Hs.
Qed.
Lemma t_readTables cursor limit specs index after :
  tri P (readTables envs r cursor limit specs index after) (fun batch w => P w /\ ofRun (rc_run r) (bb_payload batch)).
Proof.
  revert index after. induction specs as [|spec specs IH]; intros index after; cbn [readTables].
  - apply t_ret; [done|]. intros w Hw. split; [done|]. constructor.
  - eapply triple_bind; [by apply t_read|]. intros page. cbn beta. apply triple_pull. intros (d & [= <-]).
    destruct (last _) as [[i x]|]; [|apply IH]. apply t_ret; [done|]. intros w Hw. split; [done|]. cbn.
    unfold ofRun. rewrite Forall_fmap. eapply Forall_impl; [apply pageRows_run|]. by intros [? ?].
Qed.
Lemma t_readBase cursor limit : tri P (readBase envs r cursor limit) (fun batch w => P w /\ ofRun (rc_run r) (bb_payload batch)).
Proof.
  unfold readBase. destruct (parseBaseCursor cursor) as [[i a]|]; [|apply triple_stop].
  eapply triple_bind; [by apply quiet_failWhen|]. intros ?. apply t_readTables.
Qed.
Definition entryOfRun (run : uuid) (e : JournalEntry) : Prop := forall row, jn_payload e = Some row -> rw_run row = run.
Lemma t_loadEntry e : tri P (loadEntry envs r e) (fun x w => P w /\ entryOfRun (rc_run r) x).
Proof.
  unfold loadEntry. apply triple_bind with (Q := fun o w => P w /\ forall row, o = Some row -> rw_run row = rc_run r).
  - destruct (bool_decide _); [apply t_ret; [done|]; intros w Hw; by split|].
    unfold loadMutationPayload. destruct (findTable _); [|apply triple_stop].
    eapply triple_post; [|by apply t_read]. intros o w _ [Hw (d & [= <-])]. split; [done|]. intros row. unfold rowIn.
    intros Hr. destruct (rowsOf d !! _) as [x|]; [|done]. destruct (inScope _ _ x) eqn:Hin; [|done]. injection Hr as <-. by apply inScope_true in Hin as [? _].
  - intros o. cbn beta. apply triple_pull. intros Ho. apply t_ret; [done|]. intros w Hw. by split.
Qed.
Lemma t_readJournal after through limit :
  tri P (readJournal envs r after through limit) (fun b w => P w /\ Forall (entryOfRun (rc_run r)) (jb_entries b)).
Proof.
  unfold readJournal. eapply triple_bind; [by apply quiet_reads|]. intros q. cbv zeta. eapply triple_bind; [by apply quiet_reads|]. intros es.
  apply triple_bind with (Q := fun l w => P w /\ Forall (entryOfRun (rc_run r)) l).
  - induction es as [|e es IH]; cbn [forEach]; [apply t_ret; [done|]; intros w Hw; by split|].
    eapply triple_bind; [apply t_loadEntry|]. intros x. cbn beta. apply triple_pull. intros Hx.
    eapply triple_bind; [apply IH|]. intros xs. cbn beta. apply triple_pull. intros Hxs.
    apply t_ret; [done|]. intros w Hw. split; [done|by constructor].
  - intros l. cbn beta. apply triple_pull. intros Hl. apply t_ret; [done|]. intros w Hw. by split.
Qed.
End Readers.
