(* ===== verification/MigrationOperations.v ===== *)
(** * Physical migration: the operations that touch a fence

    Triples of the shard operations that write a fence or the rows a fence
    refers to, in the states in which the engine calls them. *)

From S2P Require Import Prelude Transaction CrashProgram Sharding PaymentDomain PaymentDb BookingDb ShardDb ShardLogic ShardBooking CommandDb MigrationDb MigrationEngine MigrationControl MigrationLedger MigrationShards MigrationValidator MigrationCutover MigrationAdmin MigrationFences MigrationWriters MigrationSafety.
Import Physical.
#[local] Hint Resolve At_stable fence_stable stable_and stable_pure stable_true stable_exists : core.

(** What the fence a transaction leaves on [s] must satisfy. *)
Definition writerOk (w : World) (s : string) (run : uuid) (o : option Fence) : Prop :=
  forall f, o = Some f -> fn_enabled f = true ->
    fn_state f = "active"%string /\ forall s' f', s' <> s -> writeFence w s' run = Some f' -> fn_enabled f' = false.
Lemma writerOk_same w s d run : FenceInv w -> stores w !! s = Some d -> writerOk w s run (fenceOf d !! run).
Proof.
  intros Hi Hs f Hf He. rewrite <- (writeFence_at w s d run Hs) in Hf. split; [by eapply fi_state|]. intros s' f' Hne Hf'.
  destruct (fn_enabled f') eqn:He'; [|done]. by destruct Hne; eapply fi_writer.
Qed.
Lemma writerOk_idle w s run f : fn_enabled f = false -> writerOk w s run (Some f).
Proof. intros H g [= <-]. congruence. Qed.

(** The state of a fence, one by one. *)
Ltac states :=
  repeat match goal with
         | H : fn_state _ ∈ _ :: _ |- _ => apply elem_of_cons in H as [H|H]
         | H : fn_state _ ∈ [] |- _ => by apply not_elem_of_nil in H
         end; try congruence.

(** The transactions of the one active migration of a run. *)
Lemma active_store w s d d' id m :
  FenceInv w -> At id m w -> isActive (mg_state m) = true -> stores w !! s = Some d ->
  (forall k, k <> mg_run m -> fenceOf d' !! k = fenceOf d !! k) -> writerOk w s (mg_run m) (fenceOf d' !! mg_run m) ->
  migPhase (set_store w s d') m -> FenceInv (set_store w s d').
Proof.
  intros Hi Hm Ha Hs Hk Hw Hp. eapply inv_store; [done..|]. intros id' m' Hm' Hr' Ha'.
  exact (alone_phase w id m (mg_run m) (migPhase (set_store w s d')) Hi Hm eq_refl Ha Hp id' m' Hm' Hr' Ha').
Qed.
Lemma At_set_store id m w s d : At id m w -> At id m (set_store w s d).
Proof. done. Qed.
Lemma fenceMoves_same run gen d d' f : fenceMoves run gen d d' -> fenceOf d !! run = Some f -> fn_gen f = gen -> sameFences d d'.
Proof.
  intros H Hf Hg. apply map_eq. intros k. destruct (H k) as [?|(-> & g & Hg' & Hne & _)]; [done|]. rewrite Hf in Hg'. by injection Hg' as <-.
Qed.

Section Operations.
Context (envs : string -> StoreEnv) (id : uuid) (m : MigRow) (r : MigRecord).
Hypothesis Hr : recOf id m r.
Hypothesis Hact : isActive (mg_state m) = true.

Lemma rec_run : rc_run r = mg_run m.
Proof. apply Hr. Qed.
Lemma rec_source : rc_source r = mg_source m.
Proof. apply Hr. Qed.
Lemma rec_target : rc_target r = mg_target m.
Proof. apply Hr. Qed.
Lemma rec_tgen : rc_tgen r = mg_tgen m.
Proof. apply Hr. Qed.
Lemma rec_sgen : rc_sgen r = mg_sgen m.
Proof. apply Hr. Qed.

(** A phase that asks nothing of the fences. *)
Lemma free_phase w : preparedPhase (mg_state m) = false -> fencedPhase (mg_state m) = false -> migPhase w m.
Proof. intros H1 H2. split; congruence. Qed.
Lemma source_ne w : FenceInv w -> At id m w -> mg_source m <> mg_target m.
Proof. intros Hi Hm. by apply (fi_ends w Hi id m). Qed.
Lemma phase_at w : FenceInv w -> At id m w -> migPhase w m.
Proof. intros Hi Hm. exact (fi_phase w Hi id m Hm). Qed.
Lemma writeFence_target w d : FenceInv w -> At id m w -> writeFence (set_store w (mg_target m) d) (mg_source m) (mg_run m) = writeFence w (mg_source m) (mg_run m).
Proof. intros Hi Hm. rewrite writeFence_set. rewrite decide_False; [done|by eapply source_ne]. Qed.
Lemma writeFence_own w s d run : writeFence (set_store w s d) s run = fenceOf d !! run.
Proof. rewrite writeFence_set. by rewrite decide_True. Qed.
(** The other shard of a migration's two. *)
Lemma other_shard w s f run : FenceInv w -> At id m w -> writeFence w s run = Some f -> s = mg_source m \/ s = mg_target m.
Proof.
  intros Hi Hm Hf. destruct (fi_ends w Hi id m Hm) as (H1 & H2 & Hne). apply two_shards; [done..|]. apply (fi_shards w Hi).
  unfold writeFence in Hf. destruct (stores w !! s); [done|discriminate].
Qed.

(** *** PrepareTarget *)
Definition standbyTarget (w : World) : Prop := writeFence w (mg_target m) (mg_run m) = Some (mkFence (mg_tgen m) "standby" false).
Lemma standby_stable : settled standbyTarget.
Proof. apply fence_stable. Qed.
#[local] Hint Resolve standby_stable : core.
Lemma t_prepareTarget :
  preparedPhase (mg_state m) = false -> fencedPhase (mg_state m) = false ->
  tri (At id m) (prepareTarget envs r) (fun _ w => At id m w /\ standbyTarget w).
Proof.
  intros H1 H2. unfold prepareTarget. apply triple_bind with (Q := fun _ => At id m); [|intros _].
  - unfold prepare. destruct (rc_reverse r); [|by apply quiet_reads]. eapply triple_bind; [by apply quiet_failWhen|]. intros ?. cbn beta.
    apply t_store; [done|done|]. intros w d u d' Hi Hm Hs (Hk & Hf)%retainedTx_fences. rewrite rec_run in Hk, Hf.
    split; [|done]. eapply active_store; [done..| |by apply free_phase].
    destruct Hf as [->|(f & Hf & He & ->)]; [by apply writerOk_same|by apply writerOk_idle].
  - eapply triple_bind; [by apply t_read|]. intros [i snap]. cbn beta. apply triple_pull. intros (d0 & Hsnap).
    assert (Hrun : rw_run snap = rc_run r).
    { pose proof (tableRows_scope d0 snapshotsTable (rc_run r) (rc_sgen r)) as Hsc. destruct (tableRows _ _ _ _) as [|x l]; [done|].
      injection Hsnap as ->. by apply Forall_cons in Hsc as [[? _] _]. }
    apply t_store; [done|auto|]. intros w d u d' Hi Hm Hs [Hk Hf]%(prepareTargetTx_fences _ _ _ _ _ _ _ Hrun).
    rewrite rec_run, rec_tgen in *. rewrite rec_target in *. split.
    + eapply active_store; [done..| |by apply free_phase]. rewrite Hf. by apply writerOk_idle.
    + split; [done|]. unfold standbyTarget. by rewrite writeFence_own.
Qed.

(** *** Copy and replay *)
Lemma target_fence w : FenceInv w -> At id m w -> preparedPhase (mg_state m) = true \/ fencedPhase (mg_state m) = true ->
  exists f, writeFence w (mg_target m) (mg_run m) = Some f /\ fn_gen f = mg_tgen m.
Proof. intros Hi Hm H. destruct (phase_at w Hi Hm) as [Hp Hf]. destruct H as [H|H]; [destruct (Hp H) as (f & ? & ? & _)|destruct (Hf H) as (f & ? & ? & _)]; by exists f. Qed.
Lemma t_applyBase batch : preparedPhase (mg_state m) = true -> ofRun (rc_run r) (bb_payload batch) -> tri (At id m) (applyBase envs r batch) (fun _ => At id m).
Proof.
  intros H1 Hp. unfold applyBase. eapply triple_bind; [by apply quiet_failWhen|]. intros ?. cbn beta. apply t_store; [done|done|].
  intros w d u d' Hi Hm Hs [Hk Hf]%(applyBaseTx_fences _ _ _ _ _ _ Hp). rewrite rec_run, rec_tgen in *. rewrite rec_target in *.
  split; [|done]. destruct (target_fence w Hi Hm ltac:(auto)) as (f & Ht & Hg). rewrite (writeFence_at _ _ _ _ Hs) in Ht.
  destruct Hf as [Hmv|[_ Hf]].
  - eapply FenceInv_env; [|exact Hi]. eapply set_store_bystanders; [done|]. by eapply fenceMoves_same.
  - eapply active_store; [done..| |]; [rewrite Hf; by apply writerOk_idle|]. split; [|intros Hfen; by destruct (mg_state m)].
    intros _. rewrite writeFence_own, Hf. eexists. split; [done|]. cbn. split; [done|]. split; [done|set_solver].
Qed.
Lemma t_applyJournal e : preparedPhase (mg_state m) = true \/ fencedPhase (mg_state m) = true -> entryOfRun (rc_run r) e ->
  tri (At id m) (applyJournal envs r e) (fun _ => At id m).
Proof.
  intros H1 Hp. apply t_store; [done|done|]. intros w d u d' Hi Hm Hs Hmv%(applyJournalTx_moves _ _ _ Hp).
  rewrite rec_run, rec_tgen in *. rewrite rec_target in *. split; [|done].
  destruct (target_fence w Hi Hm H1) as (f & Ht & Hg). rewrite (writeFence_at _ _ _ _ Hs) in Ht.
  eapply FenceInv_env; [|exact Hi]. eapply set_store_bystanders; [done|]. by eapply fenceMoves_same.
Qed.

(** *** FenceSource, EnableTarget, RetainSource *)
Lemma t_fenceSource : preparedPhase (mg_state m) = true ->
  tri (At id m) (fenceSource r) (fun _ w => At id m w /\ writeFence w (mg_source m) (mg_run m) = Some (mkFence (mg_sgen m) "quiescing" false)).
Proof.
  intros H1. apply t_store; [done|auto|]. intros w d q d' Hi Hm Hs (f & Hf & Hg & Hset)%fenceSourceTx_fences. unfold fenceSet in Hset.
  rewrite rec_run, rec_sgen in *. rewrite rec_source in *. rewrite writeFence_own, Hset, lookup_insert_eq. split; [|done].
  eapply active_store; [done..| | |]; rewrite ?Hset.
  - intros k Hk. by rewrite lookup_insert_ne.
  - rewrite lookup_insert_eq. by apply writerOk_idle.
  - destruct (phase_at w Hi Hm) as [Hp _]. split; [|intros Hfen; by destruct (mg_state m)]. intros _. rewrite writeFence_set, decide_False; [by apply Hp|].
    intros E. by apply (source_ne w Hi Hm).
Qed.
Lemma t_enableTarget : fencedPhase (mg_state m) = true -> tri (At id m) (enableTarget r) (fun _ => At id m).
Proof.
  intros H1. apply t_store; [done|auto|]. intros w d q d' Hi Hm Hs (f & Hf & Hg & Hst & Hset)%enableTargetTx_fences. unfold fenceSet in Hset.
  rewrite rec_run, rec_tgen in *. rewrite rec_target in *. split; [|done].
  destruct (phase_at w Hi Hm) as [_ Hp]. destruct (Hp H1) as (f' & Hf' & Hg' & Hcase). rewrite (writeFence_at _ _ _ _ Hs), Hf in Hf'. injection Hf' as <-.
  destruct Hcase as [[_ Hdis]|[_ Hsrc]]; [states|].
  eapply active_store; [done..| | |]; rewrite ?Hset.
  - intros k Hk. by rewrite lookup_insert_ne.
  - rewrite lookup_insert_eq. intros g [= <-] _. split; [done|]. intros s' f' Hne Hs'.
    destruct (other_shard w s' f' _ Hi Hm Hs') as [-> | ->]; [|done]. by destruct (Hsrc f' Hs').
  - split; [intros Hpre; by destruct (mg_state m)|]. intros _. rewrite writeFence_own, Hset, lookup_insert_eq, writeFence_target by done.
    eexists. split; [done|]. split; [done|]. right. split; [cbn; set_solver|done].
Qed.
Lemma t_retainSource : fencedPhase (mg_state m) = true -> tri (At id m) (retainSource r) (fun _ => At id m).
Proof.
  intros H1. apply t_store; [done|auto|]. intros w d q d' Hi Hm Hs (f & Hf & Hg & Hst & Hset)%one_Ok%updFence_Some.
  rewrite rec_run, rec_sgen in *. rewrite rec_source in *. split; [|done].
  eapply active_store; [done..| | |]; rewrite ?Hset.
  - intros k Hk. by rewrite lookup_insert_ne.
  - rewrite lookup_insert_eq. by apply writerOk_idle.
  - destruct (phase_at w Hi Hm) as [_ Hp]. split; [intros Hpre; by destruct (mg_state m)|]. intros _. destruct (Hp H1) as (f' & Hf' & Hg' & Hcase).
    rewrite writeFence_own, Hset, lookup_insert_eq, writeFence_set, decide_False by (intros E; by apply (source_ne w Hi Hm)).
    exists f'. split; [done|]. split; [done|]. destruct Hcase as [?|[? _]]; [by left|right]. split; [done|]. intros g [= <-]. split; [done|cbn; set_solver].
Qed.
End Operations.

(** *** Rollback

    The engine rolls the shards back before it asks the state machine, so the
    migration may be over and another one of the run active. *)
Section Rollback.
Context (envs : string -> StoreEnv) (id : uuid) (m : MigRow) (r : MigRecord).
Hypothesis Hr : recOf id m r.

(** Another migration of the run has the same ends or the opposite ones. *)
Lemma ends_agree w id' m' :
  FenceInv w -> At id m w -> At id' m' w ->
  (mg_source m' = mg_source m /\ mg_target m' = mg_target m) \/ (mg_source m' = mg_target m /\ mg_target m' = mg_source m).
Proof.
  intros Hi Hm Hm'. destruct (fi_ends w Hi id m Hm) as (H1 & H2 & H3), (fi_ends w Hi id' m' Hm') as (K1 & K2 & K3).
  destruct (two_shards _ _ _ H1 H2 H3 K1), (two_shards _ _ _ H1 H2 H3 K2); auto; congruence.
Qed.
Definition disabledTarget (w : World) : Prop := writeFence w (mg_target m) (mg_run m) = Some (mkFence (mg_tgen m) "disabled" false).
Lemma disabled_stable : settled disabledTarget.
Proof. apply fence_stable. Qed.
#[local] Hint Resolve disabled_stable : core.

Lemma disable_phase w d d' f id' m' :
  FenceInv w -> At id m w -> At id' m' w -> mg_run m' = mg_run m -> stores w !! mg_target m = Some d ->
  fenceOf d !! mg_run m = Some f -> fn_gen f = mg_tgen m -> fn_state f ∈ ["standby"; "active"; "disabled"]%string ->
  fenceOf d' !! mg_run m = Some (mkFence (mg_tgen m) "disabled" false) -> migPhase (set_store w (mg_target m) d') m'.
Proof.
  intros Hi Hm Hm' Hrun Hs Hf Hg Hst Hd. destruct (fi_ends w Hi id m Hm) as (_ & _ & Hne). pose proof (phase_at id' m' w Hi Hm') as [Hp Hq].
  unfold migPhase. rewrite Hrun in *. destruct (ends_agree w id' m' Hi Hm Hm') as [[Es Et]|[Es Et]]; rewrite Es, Et in *.
  - assert (Hgen : forall f', writeFence w (mg_target m) (mg_run m) = Some f' -> fn_gen f' = mg_tgen m' -> mg_tgen m = mg_tgen m').
    { intros f'. rewrite (writeFence_at _ _ _ _ Hs), Hf. congruence. }
    assert (Hidle : forall l, "disabled"%string ∈ l -> idle (mkFence (mg_tgen m) "disabled" false) l) by done.
    rewrite writeFence_own, Hd. split; intros H.
    + destruct (Hp H) as (f' & Hf' & Hg' & _). eexists. split; [done|]. split; [by eapply Hgen|]. apply Hidle. set_solver.
    + destruct (Hq H) as (f' & Hf' & Hg' & _). eexists. split; [done|]. split; [by eapply Hgen|]. left. apply Hidle. set_solver.
  - rewrite !writeFence_set, (decide_False (P := mg_source m = mg_target m)), decide_True by done. split; [done|]. intros H.
    destruct (Hq H) as (f' & Hf' & Hg' & [?|[_ Hsrc]]); [by exists f'; auto|].
    rewrite (writeFence_at _ _ _ _ Hs) in Hsrc. destruct (Hsrc f Hf) as [_ Hst']. states.
Qed.
Lemma rebind_phase w d d' f f' id' m' :
  FenceInv w -> At id m w -> disabledTarget w -> At id' m' w -> mg_run m' = mg_run m -> stores w !! mg_source m = Some d ->
  fenceOf d !! mg_run m = Some f -> fn_state f ∈ ["quiescing"; "retained"; "active"]%string ->
  fenceOf d' !! mg_run m = Some f' -> migPhase (set_store w (mg_source m) d') m'.
Proof.
  intros Hi Hm Hdis Hm' Hrun Hs Hf Hst Hd. destruct (fi_ends w Hi id m Hm) as (_ & _ & Hne). pose proof (phase_at id' m' w Hi Hm') as [Hp Hq].
  unfold migPhase, disabledTarget in *. rewrite Hrun in *. destruct (ends_agree w id' m' Hi Hm Hm') as [[Es Et]|[Es Et]]; rewrite Es, Et in *.
  - rewrite !writeFence_set, (decide_False (P := mg_target m = mg_source m)), decide_True by congruence. split; [done|]. intros H.
    destruct (Hq H) as (g & Hg & Hgen & Hcase). exists g. split; [done|]. split; [done|left]. destruct Hcase as [?|[Hs' _]]; [done|].
    rewrite Hdis in Hg. injection Hg as <-. cbn in Hs'. set_solver.
  - split; intros H; exfalso; rewrite (writeFence_at _ _ _ _ Hs), Hf in *.
    + destruct (Hp H) as (g & [= <-] & _ & _ & Hs'). states.
    + destruct (Hq H) as (g & [= <-] & _ & [[_ Hs']|[_ Hsrc]]); [states|]. destruct (Hsrc _ Hdis) as [_ Hs']. cbn in Hs'. set_solver.
Qed.
Lemma t_rollbackBeforeTargetWrites generation : tri (At id m) (rollbackBeforeTargetWrites envs r generation) (fun _ => At id m).
Proof.
  pose proof Hr as (_ & Erun & Es & Et & _ & Eg & _). unfold rollbackBeforeTargetWrites.
  eapply triple_bind; [by apply quiet_failWhen|]. intros ?. cbn beta. apply triple_bind with (Q := fun _ w => At id m w /\ disabledTarget w); [|intros ?].
  - apply t_store; [done|auto|]. intros w d u d' Hi Hm Hs (f & Hf & Hg & Hst & Hset)%disableTargetTx_fences. unfold fenceSet in Hset.
    rewrite Erun, Eg in *. rewrite Et in *. assert (Hd : fenceOf d' !! mg_run m = Some (mkFence (mg_tgen m) "disabled" false)) by (by rewrite Hset, lookup_insert_eq).
    split; [|split; [done|]; unfold disabledTarget; by rewrite writeFence_own]. apply inv_store with (d := d) (run := mg_run m); [done|done| | |].
    + intros k Hk. by rewrite Hset, lookup_insert_ne.
    + change (writerOk w (mg_target m) (mg_run m) (fenceOf d' !! mg_run m)). rewrite Hd. by apply writerOk_idle.
    + intros id' m' Hm' Hrun _. by eapply disable_phase.
  - apply t_store; [auto|auto|]. intros w d v d' Hi [Hm Hdis] Hs (f & Hf & Hst & Hk & Hd)%rebindTx_fences.
    rewrite Erun in *. rewrite Es in *. split; [|done]. apply inv_store with (d := d) (run := mg_run m); [done|done|done| |].
    + rewrite Hd. intros g [= <-] _. split; [done|]. intros s' f' Hne Hs'. destruct (other_shard id m w s' f' _ Hi Hm Hs') as [-> | ->]; [done|].
      unfold disabledTarget in Hdis. rewrite Hdis in Hs'. by injection Hs' as <-.
    + intros id' m' Hm' Hrun _. by eapply rebind_phase.
Qed.
End Rollback.
