(* ===== verification/MigrationOneWriter.v ===== *)
(** * Physical migration: never two writers

    The engine and the operator's commands keep the invariant of the write
    fences, so no history of commands, with any interruption, leaves a run with
    two enabled fences: a crash can cause an outage, never two writers
    ([src/internal/sharding/physicalmigration/postgres/shards.go],
    [docs/single-writer-fencing.md]). *)

From S2P Require Import Prelude Transaction CrashProgram Sharding PaymentDomain PaymentDb BookingDb ShardDb ShardLogic ShardBooking CommandDb MigrationDb MigrationEngine MigrationControl MigrationLedger MigrationShards MigrationValidator MigrationCutover MigrationAdmin MigrationFences MigrationWriters MigrationSafety MigrationOperations.
Import Physical.
#[local] Hint Resolve At_stable fence_stable stable_and stable_pure stable_true stable_exists : core.

Abbreviation keeps P p := (tri P p (fun _ _ => True)).
Lemma makeTransition_Ok r next patch c : makeTransition r next patch = Ok c -> ch_id c = rc_id r /\ ch_next c = next.
Proof. unfold makeTransition. repeat case_match; try done. by intros [= <-]. Qed.
Lemma nextOf_next m c next : ch_next c = next -> next <> noState -> nextOf m c = next.
Proof. intros <- H. unfold nextOf. by rewrite bool_decide_eq_false_2. Qed.

(** *** Planned rows *)
Record LedgerOk (w : World) (migs : gmap uuid MigRow) : Prop := mkLedgerOk {
  lo_ends : forall id m, migs !! id = Some m -> validShard (mg_source m) = true /\ validShard (mg_target m) = true /\ mg_source m <> mg_target m;
  lo_alone : forall id m, migs !! id = Some m -> aloneActive id m migs;
  lo_phase : forall id m, migs !! id = Some m -> migPhase w m }.
Lemma inv_newRows w d' :
  FenceInv w -> (forall run a, assignmentOf d' run = Some a -> validShard (a_shard a) = true) -> LedgerOk w (md_migs d') -> FenceInv (set_ctl w d').
Proof. intros [] Ha []. by split. Qed.
Lemma inv_LedgerOk w : FenceInv w -> LedgerOk w (md_migs (ctl w)).
Proof. intros []. by split. Qed.
(** A row of the ledger is written: its ends are valid, its index holds, its phase fits. *)
Lemma LedgerOk_insert w migs k m :
  LedgerOk w migs -> validShard (mg_source m) = true -> validShard (mg_target m) = true -> mg_source m <> mg_target m -> aloneActive k m migs ->
  migPhase w m -> LedgerOk w (<[k := m]> migs).
Proof.
  intros [He Ha Hp] H1 H2 H3 Hal Hph. split.
  - intros i x [[<- <-]|[Hk Hx]]%lookup_insert_Some; [done|by eapply He].
  - intros i x Hx Hact j y Hy Hne Hr. apply lookup_insert_Some in Hx as [[<- <-]|[Hk Hx]].
    + rewrite lookup_insert_ne in Hy by done. by eapply Hal.
    + apply lookup_insert_Some in Hy as [[<- <-]|[Hk' Hy]]; [|by eapply (Ha i x)].
      destruct (isActive (mg_state m)) eqn:Hm; [|done]. pose proof (Hal Hm i x Hx ltac:(done) ltac:(done)). congruence.
  - intros i x [[<- <-]|[Hk Hx]]%lookup_insert_Some; [done|by eapply Hp].
Qed.
Lemma inv_createReverse w p r' d' : FenceInv w -> createReverseTx p (ctl w) = Ok (r', d') -> FenceInv (set_ctl w d').
Proof.
  intros Hi (m & Hm & _ & Has & Hd)%createReverseTx_step. destruct (fi_ends w Hi _ m Hm) as (H1 & H2 & H3). apply inv_newRows; [done| |].
  - intros run a Ha. destruct (Has run a Ha) as [->|[->|(b & Hb & ->)]]; [done|done|by eapply fi_assigned].
  - assert (Hok : LedgerOk w (<[rp_original p := reverseRequired (rp_writes p) m]> (md_migs (ctl w)))).
    { apply LedgerOk_insert; [by apply inv_LedgerOk|done..|by apply phaseOk_inactive]. }
    destruct Hd as [->|(Hn & -> & Hal)]; [done|]. apply LedgerOk_insert; [done..|by apply not_eq_sym|done|by split].
Qed.
Lemma inv_plan w id run target u d' : FenceInv w -> validShard target = true -> planTx id run target (ctl w) = Ok (u, d') -> FenceInv (set_ctl w d').
Proof.
  intros Hi Ht. unfold planTx. intros (? & ? & [<- <-]%shard_Ok & H)%sbind_Ok. destruct (assignmentOf (ctl w) run) as [a|] eqn:Ha; [|by apply raise_Ok in H].
  cbv zeta in H. pose proof (fi_assigned w Hi run a Ha) as Hs.
  match type of H with (if ?b then _ else _) _ = _ => destruct b end; [apply sret_Ok in H as [_ <-]; by destruct w|].
  apply sbind_Ok in H as (? & ? & [_ <-]%guardS_Ok & H). apply sbind_Ok in H as (? & ? & [Hg <-]%guardS_Ok & H).
  apply sbind_Ok in H as (? & ? & [_ <-]%guardS_Ok & H). apply sbind_Ok in H as (? & d1 & H1%one_Ok & (b & Hb & _ & ->)%one_Ok%updAssignment_Some).
  destruct (md_migs (ctl w) !! id) as [old|]; [done|]. apply putMig_Some in H1 as (_ & Hal & ->).
  apply orb_false_iff in Hg as [[_ Hne%bool_decide_eq_false]%orb_false_iff _]. apply inv_newRows; [done| |].
  - intros k c. rewrite assignmentOf_put. destruct (decide (k = run)) as [->|]; [|by eapply fi_assigned]. intros [= <-]. cbn.
    exact (fi_assigned w Hi run b Hb).
  - cbn. apply LedgerOk_insert; [by apply inv_LedgerOk|done..|by split].
Qed.

Section Engine.
Context (ce : CtlEnv) (envs : string -> StoreEnv) (limits : Limits).
Let control : ControlStore World := NewControl ce.
Let shards : ShardOperations World := NewDefaultShards envs.

Section Record.
Context (id : uuid) (m : MigRow) (r : MigRecord).
Hypothesis Hr : recOf id m r.
Definition fencesFit (next : PhysicalState) (w : World) : Prop :=
  phaseOk next (mg_tgen m) (writeFence w (mg_source m) (mg_run m)) (writeFence w (mg_target m) (mg_run m)).
Lemma rec_state : rc_state r = mg_state m.
Proof. apply Hr. Qed.

(** *** The control store *)
Lemma t_change (P : World -> Prop) c (t : CT MigRecord) :
  (forall d a d', t d = Ok (a, d') -> exists m0, ledgerStep (ch_id c) m0 (nextOf m0 c) d d') -> ch_id c = rc_id r ->
  settled P -> (forall w, P w -> At id m w) -> (forall w, FenceInv w -> P w -> fencesFit (nextOf m c) w) -> keeps P (onControl ce t).
Proof.
  intros Ht Hid HP Hat Hph. pose proof (proj1 Hr) as Eid. rewrite Eid in Hid. eapply t_ledger; [done|exact Hat| |exact Hph].
  intros d a d' H. destruct (Ht d a d' H) as (m0 & Hs). rewrite Hid in Hs. pose proof Hs as (_ & Hm0 & _). exists m0. split; [done|]. by intros ->.
Qed.
Lemma t_persist (P : World -> Prop) c next :
  ch_id c = rc_id r -> ch_next c = next -> next <> noState -> settled P -> (forall w, P w -> At id m w) ->
  (forall w, FenceInv w -> P w -> fencesFit next w) -> keeps P (Persist control c).
Proof.
  intros Hid Hn Hne HP Hat Hph. eapply triple_bind; [by apply quiet_failWhen|]. intros ?. cbn beta. eapply t_change with (c := c); [|done..|].
  - intros d x d' (m0 & ? & _)%persistTx_step. by exists m0.
  - by rewrite (nextOf_next m c next).
Qed.
Lemma t_transition (P : World -> Prop) next patch :
  next <> noState -> settled P -> (forall w, P w -> At id m w) -> (forall w, FenceInv w -> P w -> fencesFit next w) ->
  keeps P (transition control r next patch).
Proof.
  intros Hne HP Hat Hph. eapply triple_bind; [by apply triple_ofRes|]. intros c. cbn beta. apply triple_pull. intros [Hid Hn]%makeTransition_Ok.
  by eapply t_persist.
Qed.
(** A state of the same phase. *)
Lemma fit_same w next : (preparedPhase next = true -> preparedPhase (mg_state m) = true) -> (fencedPhase next = true -> fencedPhase (mg_state m) = true) ->
  FenceInv w -> At id m w -> fencesFit next w.
Proof. intros H1 H2 Hi Hm. eapply phaseOk_state; [exact H1|exact H2|]. exact (fi_phase w Hi id m Hm). Qed.
Lemma fit_inactive w next : isActive next = false -> fencesFit next w.
Proof. apply phaseOk_inactive. Qed.
Lemma t_control_read {A} P (t : CT A) : settled P -> respects eq t -> tri P (onControl ce t) (fun _ => P).
Proof.
  intros HP Ht. apply t_control; [done|done|]. intros w a d' Hi Hw <-%Ht. by destruct w.
Qed.

(** *** Advance *)
Lemma t_validateResult final P : settled P -> tri P (validateResult shards limits r final) (fun _ => P).
Proof.
  intros HP. apply quiet_bind; [apply quiet_captureOutbox|intros ?|done]. apply quiet_bind; [apply quiet_boundedValidate|intros ?].
  apply quiet_bind; [apply quiet_failWhen|intros ?; apply quiet_ret].
Qed.
Lemma t_applyEntries expected entries :
  isActive (mg_state m) = true -> preparedPhase (mg_state m) = true \/ fencedPhase (mg_state m) = true -> Forall (entryOfRun (rc_run r)) entries ->
  tri (At id m) (applyEntries shards r expected entries) (fun _ => At id m).
Proof.
  intros Ha Hp. revert expected. induction entries as [|e entries IH]; intros expected Hes; cbn [applyEntries].
  - by apply quiet_ret.
  - apply Forall_cons in Hes as [He Hes]. cbv zeta. eapply triple_bind; [by apply quiet_failWhen|]. intros ?. cbn beta.
    eapply triple_bind; [by eapply t_applyJournal|]. intros ?. cbn beta. by apply IH.
Qed.
Lemma t_readAndApplyJournal through :
  isActive (mg_state m) = true -> preparedPhase (mg_state m) = true \/ fencedPhase (mg_state m) = true ->
  tri (At id m) (readAndApplyJournal shards limits r through) (fun _ => At id m).
Proof.
  intros Ha Hp. unfold readAndApplyJournal. eapply triple_bind; [by apply t_readJournal|]. intros batch. cbn beta. apply triple_pull. intros Hes.
  eapply triple_bind; [by apply quiet_failWhen|]. intros ?. cbn beta. eapply triple_bind; [by apply t_applyEntries|]. intros ?. cbn beta zeta.
  eapply triple_bind; [by apply quiet_failWhen|]. intros ?. by apply quiet_ret.
Qed.
Lemma t_copyOneBatch : mg_state m = PhysicalStateBaseCopying -> keeps (At id m) (copyOneBatch control shards limits r).
Proof.
  intros Est. unfold copyOneBatch. eapply triple_bind; [by apply t_readBase|]. intros batch. cbn beta. apply triple_pull. intros Hb.
  eapply triple_bind; [by apply quiet_failWhen|]. intros ?. cbn beta. eapply triple_bind; [by eapply t_applyBase; rewrite ?Est|]. intros ?. cbn beta.
  eapply t_persist; [done|reflexivity|..]; rewrite ?rec_state, ?Est; [by case_match|done|done|]. intros w Hi Hm. apply fit_same; rewrite ?Est; try done; by case_match.
Qed.
Lemma t_replayOneBatch :
  mg_state m = PhysicalStateCatchingUp \/ mg_state m = PhysicalStateSourceFenced -> keeps (At id m) (replayOneBatch control shards limits r).
Proof.
  intros Est. unfold replayOneBatch. cbv zeta. eapply triple_bind; [apply t_readAndApplyJournal; destruct Est as [-> | ->]; auto|]. intros [batch lastSeq]. cbn beta.
  eapply t_persist; [done|reflexivity|..]; rewrite ?rec_state; [..|intros w Hi Hm; apply fit_same; [..|done|done]]; try done;
    destruct Est as [-> | ->]; repeat case_match; done.
Qed.
Lemma t_advanceRecord : keeps (At id m) (advanceRecord control shards limits r).
Proof.
  unfold advanceRecord. rewrite rec_state. destruct (mg_state m) eqn:Est; try apply triple_stop.
  - eapply t_transition; try done; intros w Hi Hm; by apply fit_same; rewrite ?Est.
  - eapply triple_bind; [by apply quiet_preflight|]. intros ?. cbn beta. eapply triple_bind; [by eapply t_prepareTarget; rewrite ?Est|]. intros ?. cbn beta.
    eapply t_transition; [done|auto using standby_stable|by intros w [? _]|]. intros w Hi [Hm Hs]. split; [|done]. intros _.
    eexists. split; [exact Hs|]. split; [done|]. split; [done|cbn; set_solver].
  - eapply triple_bind; [by apply quiet_enableCapture|]. intros q. cbn beta. eapply triple_bind; [by apply quiet_failWhen|]. intros ?. cbn beta.
    eapply t_transition; try done; intros w Hi Hm; by apply fit_same; rewrite ?Est.
  - by apply t_copyOneBatch.
  - apply t_replayOneBatch. auto.
  - eapply triple_bind; [apply t_readAndApplyJournal; rewrite Est; auto|]. intros [batch lastSeq]. cbn beta. case_match.
    + eapply triple_bind; [by apply quiet_failWhen|]. intros ?. cbn beta. eapply t_persist; [done|reflexivity|..]; rewrite ?rec_state, ?Est; try done.
      intros w Hi Hm. by apply fit_same; rewrite ?Est.
    + eapply triple_bind; [by apply t_validateResult|]. intros result. cbn beta. eapply triple_bind; [by apply triple_ofRes|]. intros c. cbn beta.
      apply triple_pull. intros [Hid Hn]%makeTransition_Ok. eapply triple_bind; [by apply quiet_failWhen|]. intros ?. cbn beta.
      eapply t_change with (c := c); [|done..|]; [intros d x d' (m0 & ? & _)%beginDrainTx_step; by exists m0|].
      intros w Hi Hm. rewrite (nextOf_next m c _ Hn) by done. by apply fit_same; rewrite ?Est.
  - eapply triple_bind; [by eapply t_fenceSource; rewrite ?Est|]. intros q. cbn beta. eapply triple_bind; [apply quiet_failWhen; auto|]. intros ?. cbn beta.
    eapply t_transition; [done|auto|by intros w [? _]|]. intros w Hi [Hm Hq]. split; [done|]. intros _.
    destruct (fi_phase w Hi id m Hm) as [Hp _]. rewrite Est in Hp. destruct (Hp eq_refl) as (f & Hf & Hg & He & Hs). exists f. split; [done|]. split; [done|].
    states; [right|left; split; [done|rewrite Hs; set_solver]]. split; [rewrite Hs; set_solver|]. rewrite Hq. intros g [= <-]. split; [done|cbn; set_solver].
  - apply t_replayOneBatch. auto.
  - eapply triple_bind; [by apply t_validateResult|]. intros result. cbn beta. eapply t_transition; try done;
      intros w Hi Hm; by apply fit_same; rewrite ?Est.
  - eapply triple_bind; [by eapply t_enableTarget; rewrite ?Est|]. intros ?. cbn beta. eapply t_transition; try done;
      intros w Hi Hm; by apply fit_same; rewrite ?Est.
  - eapply triple_bind; [by apply triple_ofRes|]. intros c. cbn beta. apply triple_pull. intros [Hid Hn]%makeTransition_Ok.
    eapply t_change with (c := c); [|done..|].
    + intros d x d' (m0 & Hs & _)%switchTx_step. exists m0. by rewrite (nextOf_next m0 c _ Hn).
    + intros w Hi Hm. rewrite (nextOf_next m c _ Hn) by done. by apply fit_same; rewrite ?Est.
  - eapply t_transition; try done; intros w Hi Hm; by apply fit_same; rewrite ?Est.
Qed.

(** *** Rollback *)
Lemma t_rollbackControl c : ch_id c = rc_id r -> ch_next c = PhysicalStateRolledBack -> keeps (At id m) (RollbackControl control c).
Proof.
  intros Hid Hn. eapply triple_bind; [by apply quiet_failWhen|]. intros ?. cbn beta. eapply t_change with (c := c); [|done..|].
  - intros d x d' (m0 & ? & _)%rollbackTx_step. by exists m0.
  - intros w Hi Hm. rewrite (nextOf_next m c _ Hn) by done. by apply fit_inactive.
Qed.
Lemma t_rollbackRecord : keeps (At id m) (rollbackRecord control shards r).
Proof.
  unfold rollbackRecord. do 2 (eapply triple_bind; [by apply quiet_failWhen|]; intros ?; cbn beta). case_match.
  - eapply triple_bind; [by apply triple_ofRes|]. intros c. cbn beta. apply triple_pull. intros [Hid Hn]%makeTransition_Ok. by apply t_rollbackControl.
  - eapply triple_bind; [by apply quiet_reads|]. intros writes. cbn beta. do 2 (eapply triple_bind; [by apply quiet_failWhen|]; intros ?; cbn beta).
    apply triple_bind with (Q := fun _ => At id m); [|intros ?].
    { case_match; [|by apply quiet_ret]. eapply triple_bind; [by apply quiet_reads|]. intros evidence. cbn beta.
      eapply triple_bind; [by apply quiet_failWhen|]. intros ?. by apply quiet_failWhen. }
    eapply triple_bind; [by apply quiet_failWhen|]. intros ?. cbn beta. eapply triple_bind; [by eapply t_rollbackBeforeTargetWrites|]. intros ?. cbn beta.
    eapply triple_bind; [by apply triple_ofRes|]. intros c. cbn beta. apply triple_pull. intros [Hid Hn]%makeTransition_Ok. by apply t_rollbackControl.
Qed.
End Record.

(** A command loads its record and works on it. *)
Lemma t_withRecord {A} id (k : MigRecord -> Prog World MErr A) :
  (forall m r, recOf id m r -> keeps (At id m) (k r)) -> keeps (fun _ => True) (r ← LoadRecord control id; k r).
Proof.
  intros H. eapply triple_bind; [by apply t_load|]. intros r. cbn beta. eapply triple_pre with (P := fun w => exists m, At id m w /\ recOf id m r); [by intros w [_ ?]|].
  apply triple_pullE. intros m. apply triple_pull. intros Hr. by eapply H.
Qed.
Lemma t_Advance id : keeps (fun _ => True) (Advance control shards limits id).
Proof.
  eapply triple_bind; [by apply quiet_failWhen|]. intros ?. cbn beta. apply t_withRecord. intros m r Hr.
  eapply triple_bind; [by apply quiet_ofRes|]. intros ?. cbn beta. by apply t_advanceRecord.
Qed.
Lemma t_Rollback id : keeps (fun _ => True) (Rollback control shards id).
Proof.
  eapply triple_bind; [by apply quiet_failWhen|]. intros ?. cbn beta. apply t_withRecord. intros m r Hr.
  eapply triple_bind; [by apply quiet_ofRes|]. intros ?. cbn beta. by apply t_rollbackRecord.
Qed.
Lemma t_Complete id : keeps (fun _ => True) (Complete control shards id).
Proof.
  eapply triple_bind; [by apply quiet_failWhen|]. intros ?. cbn beta. apply t_withRecord. intros m r Hr.
  eapply triple_bind; [by apply triple_failWhen|]. intros ?. cbn beta. apply triple_pull. intros Hst%negb_false_iff%bool_decide_eq_true.
  rewrite (rec_state id m r Hr) in Hst. eapply triple_bind; [apply t_control_read; [done|]|].
  { respect. }
  intros ?. cbn beta. eapply triple_bind; [by apply quiet_reads|]. intros ?. cbn beta. eapply triple_bind; [by apply quiet_disableCapture|]. intros ?. cbn beta.
  eapply triple_bind; [by eapply t_retainSource; rewrite ?Hst|]. intros ?. cbn beta. eapply triple_bind; [by apply triple_ofRes|]. intros c. cbn beta.
  apply triple_pull. intros [Hid Hn]%makeTransition_Ok. eapply triple_bind; [by apply quiet_failWhen|]. intros ?. cbn beta.
  eapply t_change with (c := c); [exact Hr|intros d x d' (m0 & ? & _)%completeTx_step; by exists m0|done..|].
  intros w Hi Hm. rewrite (nextOf_next m c _ Hn) by done. by apply fit_inactive.
Qed.

Lemma t_PlanReverse original reverse generation : keeps (fun _ => True) (PlanReverse control shards original reverse generation).
Proof.
  eapply triple_bind; [by apply quiet_failWhen|]. intros ?. cbn beta. apply t_withRecord. intros m r Hr.
  eapply triple_bind; [by apply quiet_ofRes|]. intros ?. cbn beta. do 2 (eapply triple_bind; [by apply quiet_failWhen|]; intros ?; cbn beta).
  eapply triple_bind; [by apply quiet_reads|]. intros writes. cbn beta. eapply triple_bind; [by apply quiet_reads|]. intros evidence. cbn beta.
  do 2 (eapply triple_bind; [by apply quiet_failWhen|]; intros ?; cbn beta). apply triple_bind with (Q := fun _ _ => True).
  - eapply triple_bind; [by apply quiet_failWhen|]. intros ?. cbn beta. apply t_control; [done|by auto|]. intros w x d' Hi _ H. split; [|done].
    by eapply inv_createReverse.
  - intros rev. eapply triple_bind; [by apply quiet_ofRes|]. intros ?. cbn beta. eapply triple_bind; [by apply quiet_failWhen|]. intros ?. cbn beta.
    by apply quiet_ret.
Qed.
End Engine.

(** *** The commands *)
Section Commands.
Variable env : AdminEnv.
Let control : ControlStore World := NewControl (ae_ctl env).

(** The migrations are between the two physical shards, so the adapter is not
    used. *)
Lemma t_engine id : tri (fun _ => True) (engine env id) (fun x w => exists m, At id m w /\ recOf id m x.2 /\ x.1 = PhysicalPair).
Proof.
  unfold engine. eapply triple_bind; [by apply t_load|]. intros r. cbn beta.
  eapply triple_pre with (P := fun w => exists m, (At id m w /\ recOf id m r)); [by intros w [_ ?]|]. apply triple_pullE. intros m. apply triple_pull. intros Hr.
  eapply triple_bind; [by apply triple_ofRes|]. intros k. cbn beta. apply triple_pull. intros Hk.
  intros w Hm w' He Hi. pose proof (stable_rtc _ _ _ _ (At_stable id m) He Hm) as Hm'. exists m. split; [done|]. split; [done|]. cbn [fst].
  destruct (fi_ends w' Hi id m Hm') as (Hs & Ht & _). pose proof Hr as (_ & _ & Es & Et & _). unfold shardOperations in Hk. rewrite Es, Et, Hs, Ht in Hk.
  assert (Hv : validControlSource (mg_target m) = false).
  { unfold validShard in Ht. apply orb_true_iff in Ht as [->%bool_decide_eq_true | ->%bool_decide_eq_true]; reflexivity. }
  rewrite Hv in Hk. cbn in Hk. by case_bool_decide; [|injection Hk as <-].
Qed.
Lemma t_withEngine {A} id (k : OpsKind * MigRecord -> Prog World MErr A) :
  (forall r, keeps (fun _ => True) (k (PhysicalPair, r))) -> keeps (fun _ => True) (x ← engine env id; k x).
Proof.
  intros H. eapply triple_bind; [apply t_engine|]. intros [kind r]. cbn beta. apply triple_pullE. intros m.
  eapply triple_pre with (P := fun _ => True /\ kind = PhysicalPair); [by intros w (_ & _ & ?)|]. apply triple_pull. intros ->. apply H.
Qed.
Lemma t_plan id run target : keeps (fun _ => True) (plan env id run target).
Proof.
  unfold plan. eapply triple_bind; [by apply triple_failWhen|]. intros ?. cbn beta. apply triple_pull. intros Ht%negb_false_iff.
  apply triple_bind with (Q := fun _ _ => True); [|intros ?; eapply triple_post; [|by apply t_load]; done].
  apply t_control; [done|by auto|]. intros w x d' Hi _ H. split; [|done]. by eapply inv_plan.
Qed.

(** *** Cleanup of the retained source *)
(** A row of the migration with the run and the source of the record. *)
Definition sourceOf (id : uuid) (r : MigRecord) (w : World) : Prop := exists m, At id m w /\ (mg_run m = rc_run r /\ mg_source m = rc_source r).
Lemma sourceOf_stable id r : settled (sourceOf id r).
Proof. unfold sourceOf. auto. Qed.
#[local] Hint Resolve sourceOf_stable : core.
(** Changing bookkeeping columns of a row keeps the invariant. *)
Lemma inv_sameState w id m d' : FenceInv w -> ledgerStep id m (mg_state m) (ctl w) d' -> FenceInv (set_ctl w d').
Proof. intros Hi Hs. eapply inv_ledger; [done|done|]. destruct Hs as (_ & Hm & _). exact (fi_phase w Hi id m Hm). Qed.
Lemma sourceOf_step w id m next r d' : ledgerStep id m next (ctl w) d' -> sourceOf id r w -> sourceOf id r (set_ctl w d').
Proof.
  intros (m' & Hm & Hd & (_ & Er & Es & _) & _) (x & Hx & E1 & E2). unfold At in Hx. rewrite Hm in Hx. injection Hx as <-.
  exists m'. split; [unfold At; cbn; by rewrite Hd, lookup_insert_eq|]. by rewrite Er, Es.
Qed.
Lemma finishCleanup_step id hash d u d' :
  (one errUnavailable (fun d =>
    match md_migs d !! id with
    | Some m =>
        if bool_decide (mg_state m = PhysicalStateCompleted) && bool_decide (mg_cleanup m = CleanupRunning) && bool_decide (mg_hash m = Some hash) &&
           match mg_retention m with Some rt => rt <=? ce_now (ae_ctl env) | None => false end
        then putMig id (cleanedRow (ce_now (ae_ctl env)) m) d else None
    | None => None
    end) : CT unit) d = Ok (u, d') -> exists m, ledgerStep id m (mg_state m) d d'.
Proof.
  intros H%one_Ok. destruct (md_migs d !! id) as [m|] eqn:Hm; [|done]. destruct (_ && _) in H; [|done]. apply putMig_Some in H as (_ & Ha & ->).
  exists m, (cleanedRow (ce_now (ae_ctl env)) m). split_and!; try done. by apply assignedFrom_same.
Qed.
Lemma t_cleanupTx id r resuming :
  keeps (sourceOf id r) (onStore (rc_source r) (cleanupTx (ae_stores env (rc_source r)) r resuming)).
Proof.
  apply t_store; [done|done|]. intros w d u d' Hi (m & Hm & Er & Es0) Hs [Hk Hf]%cleanupTx_fences. rewrite <- Er in *. rewrite <- Es0 in *. split; [|done].
  apply inv_store with (d := d) (run := mg_run m); [done|done|done| |].
  - change (writerOk w (mg_source m) (mg_run m) (fenceOf d' !! mg_run m)). destruct Hf as [->|(f & _ & _ & ->)]; [by apply writerOk_same|done].
  - intros id' m' Hm' Hrun Ha'. pose proof (phase_at id' m' w Hi Hm') as [Hp Hq]. destruct (fi_ends w Hi id m Hm) as (_ & _ & Hne).
    destruct Hf as [Hf|(f & Hf & Hst & Hd)].
    { assert (E : forall s, writeFence (set_store w (mg_source m) d') s (mg_run m) = writeFence w s (mg_run m)).
      { intros s. rewrite writeFence_set. destruct (decide _) as [->|]; [|done]. by rewrite (writeFence_at _ _ _ _ Hs). }
      unfold migPhase. rewrite Hrun, !E, <- Hrun. by split. }
    unfold migPhase. rewrite Hrun in *. destruct (ends_agree id m w id' m' Hi Hm Hm') as [[Es Et]|[Es Et]]; rewrite Es, Et in *.
    + rewrite !writeFence_set, (decide_False (P := mg_target m = mg_source m)), decide_True, Hd by congruence. split; [done|]. intros H.
      destruct (Hq H) as (g & Hg & Hgen & Hcase). exists g. split; [done|]. split; [done|]. destruct Hcase as [?|[? _]]; [by left|by right].
    + split; intros H; exfalso; rewrite (writeFence_at _ _ _ _ Hs), Hf in *.
      * destruct (Hp H) as (g & [= <-] & _ & _ & Hs'). states.
      * destruct (Hq H) as (g & [= <-] & _ & [[_ Hs']|[Hs' _]]); states.
Qed.
Lemma t_cleanup id limit : keeps (fun _ => True) (cleanup env id limit).
Proof.
  unfold cleanup. apply triple_bind with (Q := fun r w => sourceOf id r w /\ validShard (rc_source r) = true).
  { eapply triple_post; [|by apply t_load]. intros r w Hi (_ & m & Hm & _ & Er & Es & _). rewrite Es. destruct (fi_ends w Hi id m Hm) as (? & _).
    split; [|done]. exists m. by rewrite Er, Es. }
  intros r. cbn beta. apply triple_pull. intros Hs. eapply triple_bind; [apply t_control_read; [done|apply respects_reads, _]|]. intros m. cbn beta.
  case_match; [eapply triple_post; [|by apply quiet_ret]; done|]. eapply triple_bind; [by apply quiet_failWhen|]. intros ?. cbn beta.
  apply triple_bind with (Q := fun _ => sourceOf id r); [|intros ?].
  { eapply triple_bind; [by apply quiet_failWhen|]. intros ?. cbn beta. apply t_control; [done|done|].
    intros w x d' Hi Hw (m0 & Hst)%beginCleanupTx_step. split; [by eapply inv_sameState|by eapply sourceOf_step]. }
  assert (Hv : validControlSource (rc_source r) = false).
  { unfold validShard in Hs. apply orb_true_iff in Hs as [->%bool_decide_eq_true | ->%bool_decide_eq_true]; reflexivity. }
  rewrite Hv, Hs. cbn [negb]. eapply triple_bind; [by apply t_cleanupTx|]. intros ?. cbn beta. apply t_control; [done|done|].
  intros w x d' Hi _ (m0 & Hst)%finishCleanup_step. split; [by eapply inv_sameState|done].
Qed.
Lemma t_Execute c : keeps (fun _ => True) (Execute env c).
Proof.
  destruct c as [id run target|name id|id|id|id reverse generation|id limit]; cbn [Execute]; [..|apply t_cleanup];
    (eapply triple_bind; [|intros ?; by apply quiet_ret]).
  - apply t_plan.
  - apply t_withEngine. intros r. case_match; [case_match; [by apply quiet_ret|apply triple_stop]|]. apply t_Advance.
  - apply t_withEngine. intros r. apply t_Rollback.
  - apply t_withEngine. intros r. repeat case_match; [by apply quiet_ret|apply t_Complete|apply triple_stop|apply t_Advance].
  - apply t_withEngine. intros r. apply t_PlanReverse.
Qed.
End Commands.

(** ** The theorem *)
Lemma inv_history w w' : history bystanders w w' -> FenceInv w -> FenceInv w'.
Proof.
  induction 1 as [|w w1 env c o w2 _ IH Hr]; [done|]. intros Hi. specialize (IH Hi).
  exact (proj1 (triple_sound bystanders FenceInv FenceInv_env _ _ _ _ _ _ (t_Execute env c) I IH Hr)).
Qed.
(** A system before its first migration. *)
Definition startWorld (w : World) : Prop :=
  md_migs (ctl w) = ∅ /\ (forall s, is_Some (stores w !! s) -> validShard s = true) /\
  (forall run a, assignmentOf (ctl w) run = Some a -> validShard (a_shard a) = true) /\
  (forall s run f, writeFence w s run = Some f -> fn_enabled f = true -> fn_state f = "active"%string /\
     forall s' f', writeFence w s' run = Some f' -> fn_enabled f' = true -> s' = s).
Lemma startWorld_inv w : startWorld w -> FenceInv w.
Proof.
  intros (Hm & Hs & Ha & Hf). split; try done; try (intros id m H; rewrite Hm in H; by rewrite lookup_empty in H).
  - intros s run f H He. by apply (Hf s run f).
  - intros s s' run f f' H H' He He'. destruct (Hf s run f H He) as [_ Ho]. symmetry. by eapply Ho.
Qed.

