(* ===== verification/MigrationGaps.v ===== *)
(** * Physical migration: where the commands stop short

    Paths of the engine and of the operator's commands that do not lead where
    their callers expect: a rollback repeated after the migration is over, the
    reverse of a completed migration, a second migration to a shard that was
    rolled back, and the cleanup of a source with payments. *)

From S2P Require Import Prelude Transaction CrashProgram Sharding PaymentDomain PaymentDb BookingDb ShardDb ShardLogic ShardBooking CommandDb MigrationDb MigrationEngine MigrationControl MigrationLedger MigrationShards MigrationValidator MigrationCutover MigrationAdmin MigrationFences MigrationWriters.
Import Physical.

Lemma execute_store {A} s (t : ST A) w d a d' : stores w !! s = Some d -> t d = Ok (a, d') -> execute (onStore s t) w = (Ok a, set_store w s d').
Proof. intros Hs Ht. cbn. by rewrite Hs, Ht. Qed.

Lemma execute_pass b (e : MErr) (w : World) : b = false -> execute (failWhen b e) w = (Ok tt, w).
Proof. by intros ->. Qed.

Lemma execute_next {A B} (p : Prog World MErr A) (k : A -> Prog World MErr B) w a w1 : execute p w = (Ok a, w1) -> execute (p ≫= k) w = execute (k a) w1.
Proof. intros H. by rewrite execute_bind, H. Qed.

(** ** A rollback repeated *)
Section StaleRollback.
Context (control : ControlStore World) (envs : string -> StoreEnv) (r : MigRecord) (w : World) (d d' : Store).
(** The migration is rolled back already; its target is still at its
    generation without a write. *)
Hypothesis Hstate : rc_state r = PhysicalStateRolledBack.
Hypothesis Hwrites : rc_writes r = 0.
Hypothesis Hgen : rc_tgen r <> MaxInt64.
Hypothesis Hstore : stores w !! rc_target r = Some d.
Hypothesis Hne : rc_source r <> rc_target r.
Hypothesis Hdisable : disableTargetTx r d = Ok (tt, d').

Lemma disable_evidence : exists e, evidenceOf d !! (rc_run r, rc_tgen r) = Some e /\ ed_writes e = 0.
Proof.
  unfold disableTargetTx in Hdisable. apply sbind_Ok in Hdisable as (? & ? & [<- <-]%shard_Ok & H).
  destruct (fenceOf d !! rc_run r); [|by apply raise_Ok in H]. destruct (evidenceOf d !! _) as [e|]; [|by apply raise_Ok in H].
  apply sbind_Ok in H as (? & ? & [_ <-]%guardS_Ok & H). apply sbind_Ok in H as (? & ? & [Hw%negb_false_iff%Z.eqb_eq <-]%guardS_Ok & _). by exists e.
Qed.
Lemma rolledBack_no_exit patch : exists e, makeTransition r PhysicalStateRolledBack patch = Err e.
Proof.
  unfold makeTransition, RestorePhysical. rewrite Hstate, Hwrites. cbn -[Z.leb]. destruct (rc_tgen r <=? 0); cbn; eauto.
Qed.
(** A rollback repeated on a migration that is rolled back already fails,
    but only after it has disabled the target's fence at that generation: the
    engine acts on the shards before it asks the state machine, so the writer of
    a successor with the same generation is stopped. *)
Theorem stale_rollback_disables :
  exists e w', execute (rollbackRecord control (NewDefaultShards envs) r) w = (Err e, w') /\
    writeFence w' (rc_target r) (rc_run r) = Some (mkFence (rc_tgen r) "disabled" false).
Proof.
  destruct disable_evidence as (e & He & Hw). unfold rollbackRecord. rewrite Hstate, Hwrites, !bool_decide_eq_false_2 by done. cbn [orb].
  rewrite 2 (execute_next _ _ _ tt w) by done. rewrite (execute_next _ _ w 0 (set_store w (rc_target r) d)).
  2: { apply execute_store with (d := d); [done|]. unfold reads. by rewrite He, Hw. }
  rewrite !(execute_next _ _ _ tt (set_store w (rc_target r) d)) by (done || by apply execute_pass, Z.eqb_neq).
  set (w1 := set_store (set_store w (rc_target r) d) (rc_target r) d').
  assert (Hf : writeFence w1 (rc_target r) (rc_run r) = Some (mkFence (rc_tgen r) "disabled" false)).
  { unfold w1. rewrite writeFence_set, decide_True by done. apply disableTargetTx_fences in Hdisable as (f & _ & _ & _ & ->). by rewrite lookup_insert_eq. }
  assert (Hrb : execute (rollbackBeforeTargetWrites envs r (rc_tgen r + 1)) (set_store w (rc_target r) d) = execute (rebindRollbackSource envs r (rc_tgen r + 1)) w1).
  { unfold rollbackBeforeTargetWrites. rewrite (execute_next _ _ _ tt (set_store w (rc_target r) d)) by (apply execute_pass; lia).
    rewrite (execute_next _ _ _ tt w1); [done|]. apply execute_store with (d := d); [cbn; by rewrite lookup_insert_eq|done]. }
  rewrite execute_bind. cbn [RollbackBeforeTargetWrites NewDefaultShards]. rewrite Hrb. cbn [rebindRollbackSource onStore atomic execute].
  destruct (stores w1 !! rc_source r) as [ds|]; [|by exists ErrShardOperation, w1].
  destruct (rebindTx _ r _ ds) as [[u d2]|x]; [|by exists x, w1]. destruct (rolledBack_no_exit (patchRollback (rc_tgen r + 1))) as (x & Hx).
  rewrite execute_bind, Hx. exists x, (set_store w1 (rc_source r) d2). split; [done|]. rewrite writeFence_set, decide_False by done. exact Hf.
Qed.
End StaleRollback.

(** ** The reverse of a completed migration *)
Lemma completeTx_stable env c d r' d' :
  completeTx env c d = Ok (r', d') -> exists m a, md_migs d !! ch_id c = Some m /\ assignmentOf d' (mg_run m) = Some a /\ a_state a = "stable"%string.
Proof.
  unfold completeTx. intros (r & ? & (-> & m & Hm & Hr)%lockMigration_Ok & H)%sbind_Ok.
  apply sbind_Ok in H as (? & ? & [_ <-]%guardS_Ok & H). apply sbind_Ok in H as (? & ? & [<- <-]%shard_Ok & H).
  apply sbind_Ok in H as (? & ? & [_ <-]%guardS_Ok & H). apply sbind_Ok in H as (? & d0 & (a & Ha & Hp & ->)%one_Ok%updAssignment_Some & H).
  apply sbind_Ok in H as (? & d1 & H1 & H). apply sbind_Ok in H as (? & d2 & (m2 & _ & _ & _ & ->)%one_Ok%updMig_Some & H).
  apply sbind_Ok in H as (? & ? & <-%modify_Ok & [_ <-]%sret_Ok). unfold saveRecord in H1. apply one_Ok in H1.
  destruct (md_migs _ !! _) in H1; [|done]. destruct (bool_decide _) in H1; [|done]. apply putMig_Some in H1 as (_ & _ & ->).
  pose proof Hr as (_ & Er & _). exists m, (mkAssignmentRow (a_shard a) (a_generation a) "stable" None). split; [done|]. split; [|done].
  rewrite <- Er. cbn. change (assignmentOf (putAssignment (rc_run r) (mkAssignmentRow (a_shard a) (a_generation a) "stable" None) d) (rc_run r) =
    Some (mkAssignmentRow (a_shard a) (a_generation a) "stable" None)). by rewrite assignmentOf_put, decide_True.
Qed.
Lemma createReverseTx_assigned p d r' d' :
  createReverseTx p d = Ok (r', d') -> exists m a, md_migs d !! rp_original p = Some m /\ assignmentOf d (mg_run m) = Some a /\
    a_state a ∈ ["rollback_window"; "migrating"]%string.
Proof.
  unfold createReverseTx. intros (r & ? & [(m & Hm & Hr)%loadMigration_Ok <-]%reads_Ok & H)%sbind_Ok.
  apply sbind_Ok in H as (? & ? & [<- <-]%shard_Ok & H). apply sbind_Ok in H as (? & ? & [_ <-]%guardS_Ok & H).
  apply sbind_Ok in H as (? & ? & [_ <-]%guardS_Ok & H). apply sbind_Ok in H as (? & d1 & (m1 & _ & _ & _ & ->)%one_Ok%updMig_Some & H).
  apply sbind_Ok in H as (? & d2 & H2%one_Ok & H). apply sbind_Ok in H as (? & ? & (-> & _)%lockMigration_Ok & H).
  apply sbind_Ok in H as (? & ? & [_ <-]%guardS_Ok & H). apply sbind_Ok in H as (? & d3 & (a & Ha & Hp & _)%one_Ok%updAssignment_Some & _).
  pose proof Hr as (_ & Er & _). exists m, a. split; [done|]. split; [|by apply andb_true_iff in Hp as [_ ?%bool_decide_eq_true]].
  rewrite <- Er, <- Ha. destruct (md_migs _ !! rp_id p) in H2; [by injection H2 as <-|]. by apply putMig_Some in H2 as (_ & _ & ->).
Qed.
(** The reverse of a migration that [Complete] has just completed is always
    refused: completion makes the assignment stable, and the reverse plan asks
    for one in its rollback window or migrating, although the engine and the
    store both list the completed state as one a reverse can start from. *)
Theorem completed_has_no_reverse env c d r' d' p x :
  completeTx env c d = Ok (r', d') -> rp_original p = ch_id c -> createReverseTx p d' <> Ok x.
Proof.
  intros Hc Hp Hx. destruct x as [r2 d2]. pose proof (completeTx_step _ _ _ _ _ Hc) as (m0 & (m' & Hm0 & Hd & Hi & _) & _).
  apply completeTx_stable in Hc as (m & a & Hm & Ha & Hs). rewrite Hm in Hm0. injection Hm0 as <-.
  apply createReverseTx_assigned in Hx as (m2 & a2 & Hm2 & Ha2 & Hs2). rewrite Hp, Hd, lookup_insert_eq in Hm2. injection Hm2 as <-.
  destruct Hi as (_ & Er & _). rewrite Er, Ha in Ha2. injection Ha2 as <-. rewrite Hs in Hs2. set_solver.
Qed.

(** ** A second migration to a rolled-back target *)
(** After a rollback has disabled a target, preparing the same shard for a
    later migration of the run, whose generation is higher, is refused: the
    disabled fence stays at the old generation. *)
Theorem rolled_back_target_is_refused envs r r2 d d' w :
  disableTargetTx r d = Ok (tt, d') -> rc_run r2 = rc_run r -> rc_target r2 = rc_target r -> rc_reverse r2 = false -> rc_tgen r < rc_tgen r2 ->
  stores w !! rc_target r = Some d' -> execute (prepareTarget envs r2) w = (Err ErrCheckpointConflict, w).
Proof.
  intros (f & _ & _ & _ & Hf)%disableTargetTx_fences Er Et Hrev Hg Hs. unfold fenceSet in Hf. unfold prepareTarget, prepare. rewrite execute_bind, Hrev.
  cbn [execute onStore atomic]. rewrite Et, Hs. unfold reads. rewrite Hf, Er, lookup_insert_eq. cbn [fn_gen]. rewrite (proj2 (Z.eqb_neq _ _)) by lia. done.
Qed.

(** ** The cleanup of a source with payments *)
(** The rows of a table other than the ones deleted stay. *)
Definition sameTable (t : string) (d d' : Store) : Prop := forall i, rowsOf d' !! (t, i) = rowsOf d !! (t, i).
#[export] Instance sameTable_preorder t : PreOrder (sameTable t).
Proof. split; [done|]. intros a b c H1 H2 i. by rewrite H2. Qed.
Lemma capture_rows env t op i run gen d d' : captureMutation env t op i run gen d = Some d' -> rowsOf d' = rowsOf d.
Proof. unfold captureMutation. intros H. repeat case_match; by inversion H. Qed.
Lemma deleteRow_other env t t' i run gen d d' : t' <> t -> deleteRow env t' i run gen d = Some d' -> sameTable t d d'.
Proof.
  intros Hne. unfold deleteRow. destruct (rowIn _ _ _ _ _); [|by intros [= <-]]. destruct (captureMutation _ _ _ _ _ _ _) as [d1|] eqn:H1; [|done].
  intros ->%checked_Some j. rewrite (capture_rows _ _ _ _ _ _ _ _ H1). cbn. rewrite lookup_delete_ne; [done|]. congruence.
Qed.
Lemma deleteAll_other env t t' run gen l d d' : t' <> t -> deleteAll env t' run gen l d = Some d' -> sameTable t d d'.
Proof.
  intros Hne. revert d. induction l as [|i l IH]; intros d; cbn [deleteAll]; [by intros [= <-]|].
  destruct (deleteRow _ _ _ _ _ _) as [d1|] eqn:H1; [|done]. intros H2. etrans; [by eapply deleteRow_other|by apply IH].
Qed.
Lemma deleteTables_other env t l run gen : t ∉ l -> respects (sameTable t) (deleteTables env l run gen).
Proof.
  induction l as [|t' l IH]; intros Hl; cbn [deleteTables]; [apply respects_ret, _|]. apply not_elem_of_cons in Hl as [Hne Hl].
  apply respects_bind; [apply _| |intros _; by apply IH]. apply respects_one. intros d d'. unfold deleteTable. by apply deleteAll_other.
Qed.
(** The tables of the payment saga. *)
Definition paymentTables : list string := ["payment_command_receipts"; "ticket_issuance_receipts"; "payment_refund_receipts"; "payment_compensation_receipts"]%string.
Lemma cleanupTx_rows env r resuming d u d' :
  cleanupTx env r resuming d = Ok (u, d') -> exists d1, (forall t, t ∈ (snapshotsTable :: paymentTables) -> sameTable t d d1) /\ deleteSnapshot env (rc_run r) (rc_sgen r) d1 = Some d'.
Proof.
  unfold cleanupTx. intros (? & ? & [<- <-]%shard_Ok & H)%sbind_Ok. cbv zeta in H.
  apply sbind_Ok in H as (? & ? & [_ <-]%guardS_Ok & H). apply sbind_Ok in H as (? & d1 & H1 & H).
  apply sbind_Ok in H as (? & ? & <-%modify_Ok & H). apply sbind_Ok in H as (? & ? & <-%modify_Ok & H).
  apply sbind_Ok in H as (? & ? & <-%modify_Ok & H). apply sbind_Ok in H as (? & d2 & <-%modify_Ok & H).
  apply sbind_Ok in H as (? & d3 & <-%modify_Ok & H). apply sbind_Ok in H as (? & d4 & H4 & H5%one_Ok).
  exists d4. split; [|done]. intros t Ht i.
  assert (Hn : (t ∉ ["tickets"; "ticket_orders"; "reservation_seats"; outboxTable]%string) /\
    (t ∉ ["booking_command_receipts"; "idempotency_records"; "reservations"; "seat_inventory"; "booking_fare_snapshots"; "booking_seat_catalog"]%string)).
  { unfold paymentTables in Ht. repeat (apply elem_of_cons in Ht as [->|Ht]; [split; by apply (bool_decide_unpack _)|]). by apply not_elem_of_nil in Ht. }
  rewrite (deleteTables_other env t _ _ _ (proj2 Hn) _ _ _ H4), <- (deleteTables_other env t _ _ _ (proj1 Hn) _ _ _ H1).
  repeat (cbn; unfold deleteCapture; case_match); done.
Qed.
Lemma snapshotAt_row d run gen : snapshotAt d run gen = true <-> exists i r, rowsOf d !! (snapshotsTable, i) = Some r /\ inScope run gen r = true.
Proof.
  unfold snapshotAt, countRows. rewrite negb_true_iff, Z.eqb_neq. split.
  - intros H. destruct (tableRows d snapshotsTable run gen) as [|[i r] l] eqn:Hl; [done|].
    assert (Hin : (i, r) ∈ tableRows d snapshotsTable run gen) by (rewrite Hl; by left).
    apply elem_of_tableRows in Hin as (Hi & Hs). exists i, r. split; [done|by apply inScope_true].
  - intros (i & r & Hi & Hs%inScope_true) H.
    assert (Hin : (i, r) ∈ tableRows d snapshotsTable run gen) by (by apply elem_of_tableRows).
    destruct (tableRows d snapshotsTable run gen); [by apply not_elem_of_nil in Hin|done].
Qed.
(** The cleanup of a retained source never succeeds while the run has a row
    of the payment saga there: the fixed list of deletions leaves those four
    tables out, and the snapshot they refer to cannot be deleted. *)
Theorem cleanup_refuses_payments env r resuming d t i row x :
  t ∈ paymentTables -> rowsOf d !! (t, i) = Some row -> inScope (rc_run r) (rc_sgen r) row = true ->
  snapshotAt d (rc_run r) (rc_sgen r) = true -> cleanupTx env r resuming d <> Ok x.
Proof.
  intros Ht Hrow Hscope (j & srow & Hsrow & Hss)%snapshotAt_row Hx. destruct x as [u d'].
  apply cleanupTx_rows in Hx as (d1 & Hsame & Hdel). unfold deleteSnapshot in Hdel.
  assert (Hat : snapshotAt d1 (rc_run r) (rc_sgen r) = true).
  { apply snapshotAt_row. exists j, srow. split; [|done]. rewrite (Hsame snapshotsTable); [done|by left]. }
  assert (Hne : t <> snapshotsTable) by (intros ->; revert Ht; by apply (bool_decide_unpack (snapshotsTable ∉ paymentTables))).
  assert (Href : existsRow (rowsOf d1) (fun k r' => negb (bool_decide (k.1 = snapshotsTable)) && inScope (rc_run r) (rc_sgen r) r') = true).
  { destruct (existsRow _ _) eqn:He; [done|]. pose proof (proj1 (existsRow_false _ _) He (t, i) row) as Hf.
    rewrite (Hsame t) in Hf by (by right). specialize (Hf Hrow). cbn in Hf. rewrite bool_decide_eq_false_2, Hscope in Hf by done. done. }
  unfold referenced in Hdel. rewrite Hat, Href in Hdel. done.
Qed.
