(* ===== verification/MigrationMirror.v ===== *)
(** * Physical migration: what a copy of a run is

    The contents of a row, the mirror of the source's rows on the target, the
    journal of the source and the receipts of the target; what the clients of
    the two shards may do meanwhile, and how the journal grows with it. *)

From S2P Require Import Prelude Transaction CrashProgram Sharding PaymentDomain PaymentDb BookingDb ShardDb ShardLogic ShardBooking CommandDb MigrationDb MigrationEngine MigrationControl MigrationLedger MigrationShards MigrationValidator MigrationCutover MigrationFences MigrationGaps.

(** ** Contents *)
(** The columns a migration copies, but for updated_at, which the target's
    trigger sets. *)
Definition contents (spec : tableSpec) (r : Row) : gmap string JV := base.delete "updated_at"%string (rw_cols (project spec r)).
Definition contentOf (t : string) (o : option Row) : option (gmap string JV) :=
  match findTable t with Some spec => contents spec <$> o | None => None end.

Lemma project_lookup spec r c :
  rw_cols (project spec r) !! c = if decide (c ∈ ts_columns spec) then Some (default JNull (rw_cols r !! c)) else None.
Proof.
  cbn. induction (ts_columns spec) as [|x l IH]; cbn; [by rewrite lookup_empty, decide_False by apply not_elem_of_nil|].
  destruct (decide (c = x)) as [->|Hne].
  - rewrite lookup_insert_eq, decide_True; [done|by left].
  - rewrite lookup_insert_ne, IH by done. apply decide_ext. rewrite elem_of_cons. naive_solver.
Qed.
Lemma contents_ext spec r r' : (forall c, c <> "updated_at"%string -> rw_cols r !! c = rw_cols r' !! c) -> contents spec r = contents spec r'.
Proof.
  intros H. apply map_eq. intros c. unfold contents. destruct (decide (c = "updated_at"%string)) as [->|Hne]; [by rewrite !lookup_delete_eq|].
  rewrite !lookup_delete_ne, !project_lookup by done. by rewrite H.
Qed.
Lemma contents_project spec r : contents spec (project spec r) = contents spec r.
Proof.
  apply map_eq. intros c. unfold contents. destruct (decide (c = "updated_at"%string)) as [->|Hne]; [by rewrite !lookup_delete_eq|].
  rewrite !lookup_delete_ne, !project_lookup by done. by destruct (decide (c ∈ ts_columns spec)).
Qed.
Lemma contents_touch env spec r : contents spec (touch env r) = contents spec r.
Proof. apply contents_ext. intros c Hc. cbn. case_match; [by rewrite lookup_insert_ne|done]. Qed.
Lemma contents_normalize spec r t gen : t <> outboxTable -> contents spec (normalizeRow r t gen) = contents spec r.
Proof. intros Ht. apply contents_ext. intros c _. cbn. by rewrite (bool_decide_eq_false_2 _ Ht). Qed.

(** ** What the statements on rows do *)
(** Everything but rows, capture and journal stays. *)
Definition rowsOnly (d d' : Store) : Prop := fenceOf d' = fenceOf d /\ receiptsOf d' = receiptsOf d.
Definition onlyJournal (d d' : Store) : Prop := rowsOnly d d' /\ rowsOf d' = rowsOf d.
Lemma capture_only env t op i run gen d d' : captureMutation env t op i run gen d = Some d' -> onlyJournal d d'.
Proof. unfold captureMutation. intros H. repeat case_match; by inversion H. Qed.
(** An upsert that does not move a snapshot to another generation. *)
Definition keepsGeneration (spec : tableSpec) (i : uuid) (r : Row) (d : Store) : Prop :=
  ts_name spec = snapshotsTable -> forall old, rowsOf d !! (ts_name spec, i) = Some old -> rw_run old = rw_run r /\ rw_gen old = rw_gen r.
Lemma upsert_effect env spec i r d d' :
  upsertRow env spec i r d = Some d' -> keepsGeneration spec i r d ->
  exists x op, op <> "DELETE"%string /\ rw_run x = rw_run r /\ rw_gen x = rw_gen r /\ contents spec x = contents spec r /\
    captureMutation env (ts_name spec) op i (rw_run r) (rw_gen r) (set_rows d (<[(ts_name spec, i) := x]> (rowsOf d))) = Some d'.
Proof.
  unfold upsertRow. intros H Hk. destruct (rowsOf d !! (ts_name spec, i)) as [old|] eqn:Ho.
  - destruct (bool_decide (ts_name spec = snapshotsTable) && negb (bool_decide (rw_run old = rw_run r) && (rw_gen old =? rw_gen r))) eqn:Hm.
    + exfalso. apply andb_true_iff in Hm as [Ht%bool_decide_eq_true Hm]. destruct (Hk Ht old Ho) as [Er Eg].
      rewrite (bool_decide_eq_true_2 _ Er), Eg, Z.eqb_refl in Hm. done.
    + destruct (captureMutation _ _ _ _ _ _ _) as [d1|] eqn:Hc; [|done]. apply checked_Some in H as ->.
      exists (touch env (project spec r)), "UPDATE"%string. split_and!; [done..|by rewrite contents_touch, contents_project|done].
  - destruct (captureMutation _ _ _ _ _ _ _) as [d1|] eqn:Hc; [|done]. apply checked_Some in H as ->.
    exists (project spec r), "INSERT"%string. split_and!; [done..|by rewrite contents_project|done].
Qed.
Lemma delete_effect env t i run gen d d' :
  deleteRow env t i run gen d = Some d' ->
  (rowIn d t i run gen = None /\ d' = d) \/
  (rowIn d t i run gen <> None /\ captureMutation env t "DELETE" i run gen (set_rows d (base.delete (t, i) (rowsOf d))) = Some d').
Proof.
  unfold deleteRow. destruct (rowIn d t i run gen); [|intros [= <-]; by left]. destruct (captureMutation _ _ _ _ _ _ _) as [d1|]; [|done].
  intros ->%checked_Some. by right.
Qed.
Lemma rowIn_rows d d' t i run gen : rowsOf d' = rowsOf d -> rowIn d' t i run gen = rowIn d t i run gen.
Proof. unfold rowIn. by intros ->. Qed.
Lemma rowIn_insert d t i x run gen t' i' :
  rowIn (set_rows d (<[(t, i) := x]> (rowsOf d))) t' i' run gen =
  if decide ((t', i') = (t, i)) then (if inScope run gen x then Some x else None) else rowIn d t' i' run gen.
Proof. unfold rowIn. cbn. destruct (decide _) as [->|Hne]; [by rewrite lookup_insert_eq|by rewrite lookup_insert_ne]. Qed.
Lemma rowIn_delete d t i run gen t' i' :
  rowIn (set_rows d (base.delete (t, i) (rowsOf d))) t' i' run gen = if decide ((t', i') = (t, i)) then None else rowIn d t' i' run gen.
Proof. unfold rowIn. cbn. destruct (decide _) as [->|Hne]; [by rewrite lookup_delete_eq|by rewrite lookup_delete_ne]. Qed.

(** ** One migration of one run *)
Section Copy.
Context (id run : uuid) (sgen tgen : Z).

Definition srcRow (S : Store) (t : string) (i : uuid) : option Row := rowIn S t i run sgen.
Definition tgtRow (T : Store) (t : string) (i : uuid) : option Row := rowIn T t i run tgen.
(** The target has the source's row. *)
Definition mirror (S T : Store) (t : string) (i : uuid) : Prop := contentOf t (tgtRow T t i) = contentOf t (srcRow S t i).
(** A journal entry of the migration for a row, after a sequence number. *)
Definition hasEntry (S : Store) (t : string) (i : uuid) (lo : Z) : Prop :=
  exists seq j, lo < seq /\ journalOf S !! (id, seq) = Some j /\ je_table (jr_entry j) = t /\ je_entity (jr_entry j) = i.
Definition nextSeq (S : Store) : Z := match captureOf S !! run with Some c => cs_next c | None => 0 end.
(** The capture is on and the journal is that of the source's changes: a row
    whose last entry is a deletion is gone. *)
Record JournalOk (S : Store) : Prop := mkJournalOk {
  jo_capture : exists c, captureOf S !! run = Some c /\ cs_migration c = id /\ cs_gen c = sgen /\ cs_enabled c = true;
  jo_seq : forall seq j, journalOf S !! (id, seq) = Some j -> 1 <= seq <= nextSeq S /\ je_seq (jr_entry j) = seq /\ capturedTable (je_table (jr_entry j)) = true;
  jo_next : 0 <= nextSeq S;
  jo_delete : forall seq j, journalOf S !! (id, seq) = Some j -> je_op (jr_entry j) = "DELETE"%string ->
    srcRow S (je_table (jr_entry j)) (je_entity (jr_entry j)) = None \/ hasEntry S (je_table (jr_entry j)) (je_entity (jr_entry j)) seq }.
(** The entries with a receipt are the first [k]. *)
Definition applied (T : Store) (k : Z) : Prop := forall n, (exists e a, receiptsOf T !! (id, e) = Some a /\ ar_seq a = n) <-> 1 <= n <= k.
Definition synced (S T : Store) (k : Z) : Prop := forall t i, capturedTable t = true -> mirror S T t i \/ hasEntry S t i k.
Definition writable (d : Store) : Prop := exists f, fenceOf d !! run = Some f /\ fn_enabled f = true.
(** The run has no snapshot of another generation on the target. *)
Definition oneGeneration (T : Store) : Prop := forall i row, rowsOf T !! (snapshotsTable, i) = Some row -> rw_run row = run -> rw_gen row = tgen.

(** *** The clients of the source *)
(** A statement of a client on a row of the run. *)
Inductive rowStatement (S S' : Store) : Prop :=
| st_upsert env spec i r : findTable (ts_name spec) = Some spec -> rw_run r = run -> rw_gen r = sgen ->
    (forall old, rowsOf S !! (ts_name spec, i) = Some old -> rw_run old = run /\ rw_gen old = sgen) -> upsertRow env spec i r S = Some S' -> rowStatement S S'
| st_delete env t i : t <> snapshotsTable -> deleteRow env t i run sgen S = Some S' -> rowStatement S S'.
(** A change of something else. *)
Definition quietSource (S S' : Store) : Prop :=
  (forall t i, capturedTable t = true -> srcRow S' t i = srcRow S t i) /\ captureOf S' !! run = captureOf S !! run /\
  (forall seq, journalOf S' !! (id, seq) = journalOf S !! (id, seq)) /\ fenceOf S' !! run = fenceOf S !! run.
(** Clients change rows of the run only while its fence is enabled. *)
Definition sourceStep (S S' : Store) : Prop := quietSource S S' \/ (writable S /\ rowStatement S S').
(** The target has no client of the run until its fence is enabled; clients do
    not write fences. *)
Definition quietTarget (T T' : Store) : Prop :=
  (forall t i, capturedTable t = true -> tgtRow T' t i = tgtRow T t i) /\ (forall e, receiptsOf T' !! (id, e) = receiptsOf T !! (id, e)) /\
  fenceOf T' !! run = fenceOf T !! run /\ (oneGeneration T -> oneGeneration T').
Definition targetStep (T T' : Store) : Prop := quietTarget T T' \/ (writable T /\ fenceOf T' !! run = fenceOf T !! run).

(** *** How the journal grows *)
Record grows (S S' : Store) : Prop := mkGrows {
  gr_journal : JournalOk S -> JournalOk S' /\ nextSeq S <= nextSeq S';
  gr_log : forall seq j, journalOf S !! (id, seq) = Some j -> journalOf S' !! (id, seq) = Some j;
  gr_rows : JournalOk S -> forall t i, capturedTable t = true -> srcRow S' t i = srcRow S t i \/ hasEntry S' t i (nextSeq S);
  gr_snapshots : forall i, srcRow S snapshotsTable i <> None -> srcRow S' snapshotsTable i <> None }.

Lemma hasEntry_weaken S t i lo lo' : lo' <= lo -> hasEntry S t i lo -> hasEntry S t i lo'.
Proof. intros Hle (seq & j & ? & ?). exists seq, j. split; [lia|done]. Qed.
Lemma log_entries S S' :
  (forall seq j, journalOf S !! (id, seq) = Some j -> journalOf S' !! (id, seq) = Some j) -> forall t i lo, hasEntry S t i lo -> hasEntry S' t i lo.
Proof. intros H t i lo (seq & j & ? & ? & ?). exists seq, j. auto. Qed.
Lemma gr_entries S S' t i lo : grows S S' -> hasEntry S t i lo -> hasEntry S' t i lo.
Proof. intros H. eapply log_entries, H. Qed.
Lemma unchanged_grows S S' :
  (forall t i, capturedTable t = true -> srcRow S' t i = srcRow S t i) -> captureOf S' !! run = captureOf S !! run ->
  (forall seq, journalOf S' !! (id, seq) = journalOf S !! (id, seq)) -> grows S S'.
Proof.
  intros Hr Hc Hj. pose proof (log_entries S S' (fun seq j H => eq_trans (Hj seq) H)) as He.
  assert (Hn : nextSeq S' = nextSeq S) by (unfold nextSeq; by rewrite Hc).
  split; [|by intros seq j; rewrite Hj|by left; auto|intros i; by rewrite Hr].
  intros [J1 J2 J3 J4]. split; [|lia]. split; [by rewrite Hc|intros seq j; rewrite Hj, Hn; apply J2|by rewrite Hn|].
  intros seq j. rewrite Hj. intros Hl Ho. destruct (J4 seq j Hl Ho) as [Hnone|]; [left|right; auto]. rewrite Hr; [done|]. by apply (J2 seq j Hl).
Qed.
(** Without a capture of the migration the journal says nothing. *)
Lemma idle_grows S S' :
  ~ JournalOk S -> (forall seq, journalOf S' !! (id, seq) = journalOf S !! (id, seq)) ->
  (forall i, srcRow S snapshotsTable i <> None -> srcRow S' snapshotsTable i <> None) -> grows S S'.
Proof. intros Hn Hj Hs. split; try done. intros seq j. by rewrite Hj. Qed.
(** An enabled capture writes the next entry. *)
Lemma entry_grows d1 S c e t op i :
  captureOf d1 = captureOf S -> journalOf d1 = journalOf S -> captureOf S !! run = Some c -> cs_gen c = sgen -> cs_enabled c = true -> capturedTable t = true ->
  (forall t' i', (t', i') <> (t, i) -> srcRow d1 t' i' = srcRow S t' i') -> (op = "DELETE"%string -> srcRow d1 t i = None) ->
  (t = snapshotsTable -> srcRow d1 t i <> None) -> journalOf S !! (cs_migration c, cs_next c + 1) = None ->
  grows S (set_journal (set_capture d1 (<[run := mkCapture (cs_migration c) (cs_gen c) true (cs_next c + 1) (cs_disabled c)]> (captureOf d1)))
    (<[(cs_migration c, cs_next c + 1) := mkJRow run sgen (mkJEntry e (cs_next c + 1) t op i)]> (journalOf d1))).
Proof.
  intros Ec Ej Hc Hg Hen Hct Hrows Hdel Hsnap Hfree. set (S' := set_journal _ _).
  assert (Hs : forall t' i', srcRow S' t' i' = srcRow d1 t' i') by (intros; by apply rowIn_rows).
  assert (HJ : journalOf S' = <[(cs_migration c, cs_next c + 1) := mkJRow run sgen (mkJEntry e (cs_next c + 1) t op i)]> (journalOf S)) by (unfold S'; cbn; by rewrite Ej).
  assert (HN : nextSeq S' = cs_next c + 1) by (unfold nextSeq, S'; cbn; by rewrite lookup_insert_eq).
  assert (Hn : nextSeq S = cs_next c) by (unfold nextSeq; by rewrite Hc).
  assert (Hlog : forall seq j, journalOf S !! (id, seq) = Some j -> journalOf S' !! (id, seq) = Some j).
  { intros seq j Hl. rewrite HJ, lookup_insert_ne; [done|]. intros [= E1 E2]. congruence. }
  pose proof (log_entries S S' Hlog) as He.
  assert (Hnew : JournalOk S -> forall lo, lo <= cs_next c -> hasEntry S' t i lo).
  { intros J lo Hlo. destruct (jo_capture S J) as (c' & Hc' & Hid & _). rewrite Hc in Hc'. injection Hc' as <-.
    exists (cs_next c + 1). eexists. split; [lia|]. split; [by rewrite HJ, Hid, lookup_insert_eq|done]. }
  split; [|done| |].
  - intros J. pose proof (Hnew J) as Hnew'. destruct J as [(c' & Hc' & Hid & _ & _) J2 J3 J4]. rewrite Hc in Hc'. injection Hc' as <-. split; [|lia]. split.
    + eexists. split; [unfold S'; cbn; by rewrite lookup_insert_eq|]. done.
    + intros seq j. rewrite HJ, Hid. intros [[[= <-] <-]|[Hne Hl]]%lookup_insert_Some; [cbn; rewrite HN; split_and!; [lia|lia|done|done]|].
      destruct (J2 seq j Hl) as (? & ? & ?). split_and!; [lia|lia|done|done].
    + lia.
    + intros seq j. rewrite HJ, Hid. intros [[[= <-] <-]|[Hne Hl]]%lookup_insert_Some; cbn; intros Ho; [left; rewrite Hs; auto|].
      destruct (J2 seq j Hl) as ([? ?] & _). destruct (J4 seq j Hl Ho) as [Hnone|]; [|right; auto].
      destruct (decide ((je_table (jr_entry j), je_entity (jr_entry j)) = (t, i))) as [[= -> ->]|Hd]; [right; apply Hnew'; lia|left; by rewrite Hs, Hrows].
  - intros J t' i' _. destruct (decide ((t', i') = (t, i))) as [[= -> ->]|Hne]; [right; apply Hnew; [done|lia]|left; by rewrite Hs, Hrows].
  - intros j Hj. rewrite Hs. destruct (decide ((snapshotsTable, j) = (t, i))) as [[= <- <-]|Hne]; [by apply Hsnap|by rewrite Hrows].
Qed.
Lemma captured_grows env t op i d1 S S' :
  captureMutation env t op i run sgen d1 = Some S' -> captureOf d1 = captureOf S -> journalOf d1 = journalOf S ->
  (forall t' i', (t', i') <> (t, i) -> srcRow d1 t' i' = srcRow S t' i') -> (op = "DELETE"%string -> srcRow d1 t i = None) ->
  (t = snapshotsTable -> srcRow d1 t i <> None) -> grows S S'.
Proof.
  intros Hc Ec Ej Hrows Hdel Hsnap.
  assert (Hsn : forall j, srcRow S snapshotsTable j <> None -> srcRow d1 snapshotsTable j <> None).
  { intros j Hj. destruct (decide ((snapshotsTable, j) = (t, i))) as [[= <- <-]|Hne]; [by apply Hsnap|by rewrite Hrows]. }
  unfold captureMutation in Hc. destruct (capturedTable t) eqn:Hct; cbn [negb] in Hc.
  2: { injection Hc as <-. apply unchanged_grows; [|by rewrite Ec|by rewrite Ej]. intros t' i' Ht'. apply Hrows. congruence. }
  rewrite Ec in Hc. destruct (captureOf S !! run) as [c|] eqn:Hcap.
  2: { injection Hc as <-. apply idle_grows; [|by rewrite Ej|done]. intros [(c & Hc & _) _ _ _]. congruence. }
  destruct (cs_enabled c) eqn:Hen; cbn [negb] in Hc.
  2: { injection Hc as <-. apply idle_grows; [|by rewrite Ej|done]. intros [(c' & Hc & _ & _ & He) _ _ _]. congruence. }
  destruct (Z.eqb_spec sgen (cs_gen c)) as [Hg|]; cbn [negb] in Hc; [|done]. destruct (_ || _) eqn:Hfree in Hc; [done|]. injection Hc as <-.
  apply orb_false_iff in Hfree as [_ Hfree%bool_decide_eq_false]. rewrite Ej in Hfree. rewrite <- Ec.
  apply entry_grows; try done. destruct (journalOf S !! _); [|done]. by destruct Hfree.
Qed.
Lemma statement_grows S S' : rowStatement S S' -> grows S S' /\ fenceOf S' = fenceOf S.
Proof.
  intros [env spec i r Hf Hr Hg Hold H|env t i Ht H].
  - apply upsert_effect in H as (x & op & Hop & Hxr & Hxg & _ & Hc); [|intros _ old Ho; rewrite Hr, Hg; by apply Hold]. rewrite Hr, Hg in Hc.
    split; [|by apply capture_only in Hc as [[? _] _]].
    eapply captured_grows; [exact Hc|done|done| |done|]; unfold srcRow.
    + intros t' i' Hne. by rewrite rowIn_insert, decide_False.
    + intros _. rewrite rowIn_insert, decide_True by done. rewrite (proj2 (inScope_true run sgen x)); [done|]. by rewrite Hxr, Hxg.
  - apply delete_effect in H as [[_ ->]|[_ Hc]]; [split; [by apply unchanged_grows|done]|]. split; [|by apply capture_only in Hc as [[? _] _]].
    eapply captured_grows; [exact Hc|done|done| | |done]; unfold srcRow.
    + intros t' i' Hne. by rewrite rowIn_delete, decide_False.
    + intros _. by rewrite rowIn_delete, decide_True.
Qed.
Lemma step_grows S S' : sourceStep S S' -> grows S S' /\ fenceOf S' !! run = fenceOf S !! run.
Proof.
  intros [(Hr & Hc & Hj & Hf)|[_ H]]; [split; [by apply unchanged_grows|done]|]. destruct (statement_grows S S' H) as [? ->]. done.
Qed.
(** Without a writer the source's rows stay. *)
Lemma step_fenced S S' : ~ writable S -> sourceStep S S' -> quietSource S S'.
Proof. intros Hn [?|[? _]]; done. Qed.
End Copy.
