(* ===== verification/MigrationReplay.v ===== *)
(** * Physical migration: what a copy and a replay do to the mirror

    The transactions of the copy on the target: what a batch of the base copy
    and an entry of the journal write, when the two shards may have moved on
    since they were read.  A batch or an entry is right about the source if, row
    by row, it has what the source has or a later entry of the journal has it. *)

From S2P Require Import Prelude Transaction CrashProgram Sharding PaymentDomain PaymentDb BookingDb ShardDb ShardLogic ShardBooking CommandDb MigrationDb MigrationEngine MigrationControl MigrationLedger MigrationShards MigrationValidator MigrationCutover MigrationFences MigrationGaps MigrationMirror.

(** ** Pages *)
(** What a page holds, up to its last row. *)
#[export] Instance byIdOrder_trans {A} : Transitive (fun x y : uuid * A => Is_true (x.1 <=? y.1)%N).
Proof. intros x y z Hxy%Is_true_true Hyz%Is_true_true. apply Is_true_true. lia. Qed.
#[export] Instance byIdOrder_total {A} : Total (fun x y : uuid * A => Is_true (x.1 <=? y.1)%N).
Proof. intros x y. destruct (N.leb_spec x.1 y.1); [by left|right; apply Is_true_true; lia]. Qed.
Lemma byId_sorted {A} (l : list (uuid * A)) : StronglySorted (fun x y => Is_true (x.1 <=? y.1)%N) (byId l).
Proof. apply StronglySorted_merge_sort; apply _. Qed.
Lemma sorted_filter {A} (R : A -> A -> Prop) (P : A -> Prop) `{!forall x, Decision (P x)} l : StronglySorted R l -> StronglySorted R (filter P l).
Proof.
  induction 1 as [|x l Hl IH Hx]; [constructor|]. rewrite filter_cons. case_decide; [|done]. constructor; [done|].
  apply Forall_forall. intros y [_ Hy]%list_elem_of_filter. by rewrite Forall_forall in Hx; apply Hx.
Qed.
Lemma last_elem {A} (l : list A) x : last l = Some x -> x ∈ l.
Proof. intros [l' ->]%last_Some. apply elem_of_app. right. by left. Qed.
Lemma rowIn_Some d t i run gen x : rowIn d t i run gen = Some x <-> (i, x) ∈ tableRows d t run gen.
Proof.
  rewrite elem_of_tableRows. unfold rowIn. destruct (rowsOf d !! (t, i)) as [r|]; [|naive_solver]. destruct (inScope run gen r) eqn:Hs.
  - apply inScope_true in Hs as [? ?]. naive_solver.
  - split; [done|]. intros ([= ->] & Hs'%inScope_true). congruence.
Qed.
Definition pastOf (after i : uuid) : bool := bool_decide (after = uuidNil) || (after <? i)%N.
Lemma page_sound d t run gen after limit i x : (i, x) ∈ pageRows d t run gen after limit -> rowIn d t i run gen = Some x.
Proof. unfold pageRows. intros H. apply rowIn_Some. apply elem_of_take in H as (k & Hk & _). apply list_elem_of_lookup_2, list_elem_of_filter in Hk. apply Hk. Qed.
Lemma page_complete d t run gen after limit i x :
  0 < limit -> rowIn d t i run gen = Some x -> pastOf after i = true ->
  exists l y, last (pageRows d t run gen after limit) = Some (l, y) /\ ((i <= l)%N -> (i, x) ∈ pageRows d t run gen after limit).
Proof.
  intros Hlim Hx%rowIn_Some Hp. unfold pageRows. set (l0 := filter _ _).
  assert (Hin : (i, x) ∈ l0) by (apply list_elem_of_filter; done).
  assert (Hsort : StronglySorted (fun x y : uuid * Row => Is_true (x.1 <=? y.1)%N) l0) by (apply sorted_filter, byId_sorted).
  destruct (last (take (Z.to_nat limit) l0)) as [[j y]|] eqn:Hl.
  2: { apply last_None in Hl. destruct l0 as [|z l0]; [by apply not_elem_of_nil in Hin|]. destruct (Z.to_nat limit) eqn:E; [lia|done]. }
  exists j, y. split; [done|]. intros Hle. apply last_elem in Hl. rewrite <- (take_drop (Z.to_nat limit) l0) in Hin, Hsort.
  apply elem_of_app in Hin as [?|Hin]; [done|]. pose proof (StronglySorted_app_1_elem_of _ _ _ _ _ Hsort Hl Hin) as Hle'%Is_true_true. cbn in Hle'. assert (i = j) as -> by lia.
  assert (Hy : rowIn d t j run gen = Some y) by (eapply page_sound; exact Hl). apply rowIn_Some in Hx. congruence.
Qed.

(** ** Positions of the base copy *)
Definition position (c : Cursor) : nat * uuid :=
  match c with CursorEmpty => (0%nat, uuidNil) | CursorAt i id => (i, id) | CursorComplete => (length migrationTables, uuidNil) end.
(** Table number [k], row [i] is not read yet. *)
Definition ahead (c : Cursor) (k : nat) (i : uuid) : bool :=
  let '(n, a) := position c in (n <? k)%nat || (k =? n)%nat && pastOf a i.
Definition beyond (c : Cursor) (t : string) (i : uuid) : bool :=
  match list_find (fun s => ts_name s = t) migrationTables with Some (k, _) => ahead c k i | None => false end.
Lemma captured_spec t : capturedTable t = true -> t <> outboxTable /\ exists spec, findTable t = Some spec.
Proof. unfold capturedTable. intros [[spec ?]%bool_decide_eq_true ?%negb_true_iff%bool_decide_eq_false]%andb_true_iff. eauto. Qed.
Lemma findTable_Some t spec : findTable t = Some spec -> ts_name spec = t /\ findTable (ts_name spec) = Some spec.
Proof. intros H. pose proof (find_some _ _ H) as [_ E%bool_decide_eq_true]. by rewrite E. Qed.
Lemma table_names : NoDup (ts_name <$> migrationTables).
Proof. apply (bool_decide_unpack _). by vm_compute. Qed.
Lemma table_index k spec : migrationTables !! k = Some spec -> list_find (fun s => ts_name s = ts_name spec) migrationTables = Some (k, spec).
Proof.
  intros Hk. apply list_find_Some. split_and!; [done|done|]. intros j y Hj Hlt E.
  assert (j = k); [|lia]. eapply NoDup_lookup; [apply table_names|..]; rewrite list_lookup_fmap; [by rewrite Hj|rewrite Hk; cbn; by rewrite E].
Qed.

Section Replay.
Context (id run : uuid) (sgen tgen : Z).
#[local] Abbreviation srcRow := (srcRow run sgen).
#[local] Abbreviation tgtRow := (tgtRow run tgen).
#[local] Abbreviation mirror := (mirror run sgen tgen).
#[local] Abbreviation hasEntry := (hasEntry id).
#[local] Abbreviation nextSeq := (MigrationMirror.nextSeq run).
#[local] Abbreviation JournalOk := (JournalOk id run sgen).
#[local] Abbreviation applied := (applied id).
#[local] Abbreviation synced := (synced id run sgen tgen).
#[local] Abbreviation writable := (writable run).
#[local] Abbreviation oneGeneration := (oneGeneration run tgen).

(** ** Writes on the target *)
(** Row [i] of table [t] becomes a copy of [o]; nothing else of the run changes. *)
Record wrote (T T' : Store) (t : string) (i : uuid) (o : option Row) : Prop := mkWrote {
  wr_fence : fenceOf T' = fenceOf T;
  wr_receipts : receiptsOf T' = receiptsOf T;
  wr_generation : oneGeneration T';
  wr_others : forall t' i', (t', i') <> (t, i) -> tgtRow T' t' i' = tgtRow T t' i';
  wr_row : capturedTable t = true -> contentOf t (tgtRow T' t i) = contentOf t o }.

Lemma target_upsert env spec i row T T' :
  findTable (ts_name spec) = Some spec -> rw_run row = run -> oneGeneration T ->
  upsertRow env spec i (normalizeRow row (ts_name spec) tgen) T = Some T' -> wrote T T' (ts_name spec) i (Some row).
Proof.
  intros Hf Hr Hone H.
  assert (Hk : keepsGeneration spec i (normalizeRow row (ts_name spec) tgen) T).
  { intros Ht old Ho. unfold upsertRow in H. cbn [rw_run rw_gen normalizeRow] in *. rewrite Ho, Hr, (bool_decide_eq_true_2 _ Ht) in H. rewrite Hr.
    destruct (decide (rw_run old = run)) as [E|E]; [split; [done|]; rewrite Ht in Ho; by eapply Hone|].
    by rewrite (bool_decide_eq_false_2 _ E) in H. }
  apply upsert_effect in H as (x & op & _ & Hxr & Hxg & Hxc & Hc); [|done]. cbn in Hxr, Hxg. apply capture_only in Hc as [[Hfe Hre] Hro]. cbn in Hfe, Hre, Hro.
  assert (Hrow : forall t' i', tgtRow T' t' i' = rowIn (set_rows T (<[(ts_name spec, i) := x]> (rowsOf T))) t' i' run tgen) by (intros; by apply rowIn_rows).
  split; [done|done| | |].
  - intros j y. rewrite Hro. intros [[_ <-]|[_ Hy]]%lookup_insert_Some Hrun; [done|by eapply Hone].
  - intros t' i' Hne. by rewrite Hrow, rowIn_insert, decide_False.
  - intros [Hno _]%captured_spec. rewrite Hrow, rowIn_insert, decide_True by done. rewrite (proj2 (inScope_true run tgen x)) by (rewrite Hxr, Hr; done).
    unfold contentOf. rewrite Hf. cbn [fmap option_fmap option_map]. by rewrite Hxc, contents_normalize.
Qed.
Lemma target_delete env t i T T' : oneGeneration T -> deleteRow env t i run tgen T = Some T' -> wrote T T' t i None.
Proof.
  intros Hone [[Hn ->]|[_ Hc]]%delete_effect.
  { split; [done|done|done|done|]. intros _. unfold MigrationMirror.tgtRow. by rewrite Hn. }
  apply capture_only in Hc as [[Hfe Hre] Hro]. cbn in Hfe, Hre, Hro.
  assert (Hrow : forall t' i', tgtRow T' t' i' = rowIn (set_rows T (base.delete (t, i) (rowsOf T))) t' i' run tgen) by (intros; by apply rowIn_rows).
  split; [done|done| | |].
  - intros j y. rewrite Hro. intros [_ Hy]%lookup_delete_Some. by eapply Hone.
  - intros t' i' Hne. by rewrite Hrow, rowIn_delete, decide_False.
  - intros _. by rewrite Hrow, rowIn_delete, decide_True.
Qed.

(** ** The journal *)
Definition inJournal (S : Store) (e : JEntry) : Prop := exists j, journalOf S !! (id, je_seq e) = Some j /\ jr_entry j = e.
(** The payload is the source's row, unless the row has an entry after [bnd]. *)
Definition entryOk (S : Store) (bnd : Z) (e : JournalEntry) : Prop :=
  inJournal S (jn_entry e) /\ je_seq (jn_entry e) <= bnd /\
  (je_op (jn_entry e) <> "DELETE"%string ->
   (forall row, jn_payload e = Some row -> rw_run row = run) /\
   (srcRow S (je_table (jn_entry e)) (je_entity (jn_entry e)) = jn_payload e \/ hasEntry S (je_table (jn_entry e)) (je_entity (jn_entry e)) bnd)).
Definition isDelete (e : JournalEntry) : bool := bool_decide (je_op (jn_entry e) = "DELETE"%string).
Definition written (e : JournalEntry) : option Row := if isDelete e then None else jn_payload e.

Lemma applyMutation_wrote env r e T u T' :
  rc_run r = run -> rc_tgen r = tgen -> oneGeneration T -> (forall row, written e = Some row -> rw_run row = run) ->
  applyMutation env r e T = Ok (u, T') -> wrote T T' (je_table (jn_entry e)) (je_entity (jn_entry e)) (written e).
Proof.
  intros Er Et Hone Hrow. unfold applyMutation, written, isDelete in *. rewrite Er, Et. destruct (findTable _) as [spec|] eqn:Hf; [|by intros ?%raise_Ok].
  apply findTable_Some in Hf as [<- Hf]. destruct (jn_payload e) as [row|].
  - case_bool_decide as Hop; intros H%one_Ok; [by eapply target_delete|]. eapply target_upsert; [done|by apply Hrow|done|exact H].
  - intros H%one_Ok. rewrite Tauto.if_same. by eapply target_delete.
Qed.
(** An entry is applied at most once, in the order of the journal. *)
Lemma replay_step env r e S T b T' k bnd :
  rc_id r = id -> rc_run r = run -> rc_tgen r = tgen -> JournalOk S -> oneGeneration T -> applied T k -> synced S T k -> je_seq (jn_entry e) <= k + 1 ->
  entryOk S bnd e -> applyJournalTx env r e T = Ok (b, T') ->
  exists k', k <= k' /\ je_seq (jn_entry e) <= k' /\ applied T' k' /\ synced S T' k' /\ oneGeneration T' /\ fenceOf T' = fenceOf T /\
    (k <= nextSeq S -> k' <= nextSeq S).
Proof.
  intros Eid Er Et HJ Hone Happ Hsync Hseq ((j & Hj & Ej) & Hbnd & Hpay). unfold applyJournalTx. rewrite Eid. intros (? & ? & [<- <-]%shard_Ok & H)%sbind_Ok.
  pose proof (jo_seq _ _ _ _ HJ _ _ Hj) as (Hpos & _ & Hct). rewrite Ej in Hct.
  destruct (receiptsOf T !! (id, je_id (jn_entry e))) as [a|] eqn:Ha.
  { apply sbind_Ok in H as (? & ? & [Hg <-]%guardS_Ok & [_ <-]%sret_Ok). apply orb_false_iff in Hg as [[_ Hg%negb_false_iff%Z.eqb_eq]%orb_false_iff _].
    exists k. split_and!; try done. apply (Happ (je_seq (jn_entry e))). eauto. }
  apply sbind_Ok in H as (? & ? & [Hg <-]%guardS_Ok & H). apply sbind_Ok in H as (? & T1 & <-%modify_Ok & H). apply sbind_Ok in H as (? & ? & H & [_ <-]%sret_Ok).
  apply orb_false_iff in Hg as [[Hg _]%orb_false_iff _].
  assert (Hk : je_seq (jn_entry e) = k + 1).
  { destruct (decide (1 <= je_seq (jn_entry e) <= k)) as [(y & a & Hx & Ex)%Happ|]; [|lia].
    pose proof (proj1 (existsRow_false _ _) Hg (id, y) a Hx) as Hf. cbn in Hf. rewrite bool_decide_eq_true_2, Ex, Z.eqb_refl in Hf by done. done. }
  set (T1 := set_receipts T _) in H.
  assert (Hsrc : srcRow S (je_table (jn_entry e)) (je_entity (jn_entry e)) = written e \/ hasEntry S (je_table (jn_entry e)) (je_entity (jn_entry e)) (k + 1)).
  { unfold written, isDelete. case_bool_decide as Hop.
    - pose proof (jo_delete _ _ _ _ HJ _ j Hj) as Hd. rewrite Ej, Hk in Hd. by apply Hd.
    - destruct (Hpay Hop) as [_ [?|?]]; [by left|right]. eapply hasEntry_weaken; [|done]. lia. }
  apply applyMutation_wrote in H as [Hfe Hre Hg1 Hoth Hrow]; [|done|done|done|].
  2: { unfold written, isDelete. case_bool_decide as Hop; [done|]. by apply Hpay. }
  exists (k + 1). split_and!; [lia|lia| | |done|done|lia].
  - intros n. rewrite Hre. unfold T1. cbn. split.
    + intros (y & a & [[[= <-] <-]|[_ Hx]]%lookup_insert_Some & <-); [cbn; lia|]. assert (1 <= ar_seq a <= k); [|lia]. apply Happ. eauto.
    + intros Hn. destruct (decide (n = k + 1)) as [->|]; [eexists _, _; split; [apply lookup_insert_eq|done]|].
      destruct (proj2 (Happ n)) as (y & a & Hx & <-); [lia|]. exists y, a. split; [|done]. rewrite lookup_insert_ne; [done|]. congruence.
  - intros t i Ht. destruct (decide ((t, i) = (je_table (jn_entry e), je_entity (jn_entry e)))) as [[= -> ->]|Hne].
    + destruct Hsrc as [Hs|]; [left|by right]. unfold MigrationMirror.mirror. by rewrite Hrow, Hs.
    + destruct (Hsync t i Ht) as [Hm|(q & y & Hq & Hx & Et' & Ei)]; [left|right].
      * unfold MigrationMirror.mirror. by rewrite Hoth.
      * exists q, y. split; [|done]. assert (q <> k + 1); [|lia]. intros ->. apply Hne. rewrite <- Hk, Hj in Hx. injection Hx as <-. rewrite Ej in *. by rewrite Et', Ei.
Qed.

(** ** The base copy *)
(** Behind the cursor every row is a copy or has an entry; ahead of it the
    target may still have nothing. *)
Definition copied (S T : Store) (c : Cursor) : Prop := forall t i, capturedTable t = true ->
  mirror S T t i \/ hasEntry S t i 0 \/ (beyond c t i = true /\ (tgtRow T t i = None \/ (t = snapshotsTable /\ srcRow S t i <> None))).
(** The rows between the cursors are in the batch, or the source has none, or
    the row has an entry. *)
Record batchOk (S : Store) (c next : Cursor) (rows : list JSONRow) : Prop := mkBatchOk {
  bo_run : Forall (fun x : JSONRow => rw_run x.2 = run) rows;
  bo_rows : forall t i x, capturedTable t = true -> (t, i, x) ∈ rows -> srcRow S t i = Some x \/ hasEntry S t i 0;
  bo_gaps : forall t i, capturedTable t = true -> beyond c t i = true -> beyond next t i = false -> (forall x, (t, i, x) ∉ rows) ->
    srcRow S t i = None \/ hasEntry S t i 0 }.

Lemma applyRows_wrote env rows T u T' :
  Forall (fun x : JSONRow => rw_run x.2 = run) rows -> oneGeneration T -> applyRows env tgen rows T = Ok (u, T') ->
  fenceOf T' = fenceOf T /\ receiptsOf T' = receiptsOf T /\ oneGeneration T' /\
  forall t i, capturedTable t = true ->
    (tgtRow T' t i = tgtRow T t i /\ forall x, (t, i, x) ∉ rows) \/ exists x, (t, i, x) ∈ rows /\ contentOf t (tgtRow T' t i) = contentOf t (Some x).
Proof.
  revert T. induction rows as [|[[t0 i0] r0] rows IH]; intros T Hrun Hone; cbn [applyRows].
  { intros [_ <-]%sret_Ok. split_and!; try done. intros t i _. left. split; [done|]. intros x. apply not_elem_of_nil. }
  apply Forall_cons in Hrun as [Hr0 Hrun]. cbn in Hr0. destruct (findTable t0) as [spec|] eqn:Hf; [|by intros ?%raise_Ok].
  apply findTable_Some in Hf as [<- Hf]. intros (? & ? & [_ <-]%guardS_Ok & H)%sbind_Ok. apply sbind_Ok in H as (? & T1 & H1%one_Ok & H).
  apply target_upsert in H1 as [Hfe Hre Hg Hoth Hrow]; [|done..]. destruct (IH T1 Hrun Hg H) as (Hf' & Hr' & Hg' & Hrows). split_and!; [congruence..|done|].
  intros t i Ht. destruct (Hrows t i Ht) as [[Hsame Hnin]|(y & Hin & Hc)]; [|right; exists y; split; [by right|done]].
  destruct (decide ((t, i) = (ts_name spec, i0))) as [[= -> ->]|Hne].
  - right. exists r0. split; [by left|]. rewrite Hsame. by apply Hrow.
  - left. rewrite Hsame, Hoth by done. split; [done|]. intros y [[= -> -> ->]|Hin]%elem_of_cons; [done|by eapply Hnin].
Qed.
Lemma no_other_snapshot T gen : oneGeneration T -> gen <> tgen -> snapshotAt T run gen = false.
Proof.
  intros Hone Hne. destruct (snapshotAt T run gen) eqn:H; [|done]. apply snapshotAt_row in H as (i & row & Hrow & [Hr Hg]%inScope_true).
  pose proof (Hone i row Hrow Hr). congruence.
Qed.
(** A step that only touches the fence and the evidence, and enables no writer. *)
Definition fenceOnly (T T' : Store) : Prop := rowsOf T' = rowsOf T /\ receiptsOf T' = receiptsOf T /\ (~ writable T -> ~ writable T').
#[local] Instance fenceOnly_preorder : PreOrder fenceOnly.
Proof. split; [done|]. intros a b c (? & ? & ?) (? & ? & ?). unfold fenceOnly. split_and!; [congruence..|auto]. Qed.
Lemma standby_fenceOnly gen T n T' : standbyFence run gen T = Some (n, T') -> fenceOnly T T'.
Proof.
  intros H. pose proof (standbyFence_Some _ _ _ _ _ H) as [(_ & _ & ->)|(_ & _ & Hf)]; [done|].
  split_and!; [unfold standbyFence in H; repeat case_match; by simplify_eq..|]. intros _ (f & Hl & He). by rewrite Hf, lookup_insert_eq in Hl; injection Hl as <-.
Qed.
Lemma evidence_fenceOnly gen T T' : insEvidence run gen T = Some T' -> fenceOnly T T'.
Proof. unfold insEvidence. intros H. repeat case_match; by simplify_eq. Qed.
Lemma standbyTx_fenceOnly env r T u T' :
  rc_run r = run -> rc_tgen r = tgen -> (rc_reverse r = true -> rc_retained r <> tgen) -> oneGeneration T ->
  (_ ← counted ErrShardOperation (standbyFence (rc_run r) (rc_tgen r)); _ ← one ErrShardOperation (insEvidence (rc_run r) (rc_tgen r));
   if rc_reverse r then one ErrShardOperation (deleteSnapshot env (rc_run r) (rc_retained r)) else mret tt) T = Ok (u, T') -> fenceOnly T T'.
Proof.
  intros -> -> Hret Hone (? & T2 & H2%counted_Ok%standby_fenceOnly & H)%sbind_Ok. apply sbind_Ok in H as (? & T3 & H3%one_Ok%evidence_fenceOnly & H).
  assert (H4 : fenceOnly T T3) by (by etrans). destruct (rc_reverse r); [|apply sret_Ok in H as [_ <-]; done].
  apply one_Ok in H. unfold deleteSnapshot in H. rewrite no_other_snapshot in H; [by injection H as <-| |by apply Hret].
  intros j y. rewrite (proj1 H4). apply Hone.
Qed.
Lemma applyBase_wrote env r batch T u T' :
  rc_run r = run -> rc_tgen r = tgen -> (rc_reverse r = true -> rc_retained r <> tgen) ->
  Forall (fun x : JSONRow => rw_run x.2 = run) (bb_payload batch) -> oneGeneration T -> applyBaseTx env r batch T = Ok (u, T') ->
  (~ writable T -> ~ writable T') /\ receiptsOf T' = receiptsOf T /\ oneGeneration T' /\
  forall t i, capturedTable t = true ->
    (tgtRow T' t i = tgtRow T t i /\ forall x, (t, i, x) ∉ bb_payload batch) \/
    exists x, (t, i, x) ∈ bb_payload batch /\ contentOf t (tgtRow T' t i) = contentOf t (Some x).
Proof.
  intros Er Et Hret Hrun Hone. unfold applyBaseTx. intros (? & T1 & H1 & H)%sbind_Ok. rewrite Et in H1.
  destruct (applyRows_wrote _ _ _ _ _ Hrun Hone H1) as (Hfe & Hre & Hg & Hrows). assert (Hw1 : ~ writable T -> ~ writable T1) by (unfold MigrationMirror.writable; by rewrite Hfe).
  assert (H2 : fenceOnly T1 T') by (destruct (_ && _) in H; [by eapply standbyTx_fenceOnly|by apply sret_Ok in H as [_ <-]]).
  destruct H2 as (Er2 & Ere2 & Hw2). split_and!; [auto|congruence|intros j y; rewrite Er2; apply Hg|].
  intros t i Ht. replace (tgtRow T' t i) with (tgtRow T1 t i) by (symmetry; by apply rowIn_rows). by apply Hrows.
Qed.
Lemma base_step env r batch S T u T' c next :
  rc_run r = run -> rc_tgen r = tgen -> (rc_reverse r = true -> rc_retained r <> tgen) -> oneGeneration T ->
  copied S T c -> batchOk S c next (bb_payload batch) -> applyBaseTx env r batch T = Ok (u, T') ->
  (~ writable T -> ~ writable T') /\ receiptsOf T' = receiptsOf T /\ oneGeneration T' /\ copied S T' c /\ copied S T' next.
Proof.
  intros Er Et Hret Hone Hcop [Hrun Hrows Hgaps] H. apply applyBase_wrote in H as (Hw & Hre & Hg & Hwr); try done.
  assert (Hkey : forall t i, capturedTable t = true -> mirror S T' t i \/ hasEntry S t i 0 \/
    ((beyond c t i = true /\ (beyond next t i = false -> srcRow S t i = None \/ hasEntry S t i 0)) /\
     (tgtRow T' t i = None \/ (t = snapshotsTable /\ srcRow S t i <> None)))).
  { intros t i Ht. destruct (Hwr t i Ht) as [[Hsame Hnin]|(x & Hin & Hc)].
    - destruct (Hcop t i Ht) as [Hm|[He|[Hb Hn]]]; [left|by right; left|right; right].
      + unfold MigrationMirror.mirror in *. by rewrite Hsame.
      + rewrite Hsame. split; [|done]. split; [done|]. intros Hb'. by apply Hgaps.
    - destruct (Hrows t i x Ht Hin) as [Hs|]; [left|by right; left]. unfold MigrationMirror.mirror. by rewrite Hs. }
  split_and!; try done.
  - intros t i Ht. destruct (Hkey t i Ht) as [?|[?|[[? _] ?]]]; auto.
  - intros t i Ht. destruct (Hkey t i Ht) as [?|[?|[[Hb Hn] Ho]]]; auto. destruct (beyond next t i) eqn:Hb'; [by auto|].
    destruct (Hn eq_refl) as [Hs|?]; [left|by auto]. unfold MigrationMirror.mirror. destruct Ho as [->|[_ ?]]; [by rewrite Hs|done].
Qed.

(** ** The clients meanwhile *)
#[local] Abbreviation sourceStep := (sourceStep id run sgen).
#[local] Abbreviation targetStep := (targetStep id run tgen).
#[local] Abbreviation quietTarget := (quietTarget id run tgen).
#[local] Abbreviation grows := (grows id run sgen).

Lemma quiet_target T T' : ~ writable T -> targetStep T T' -> quietTarget T T' /\ ~ writable T'.
Proof. intros Hw [H|[? _]]; [|done]. split; [done|]. destruct H as (_ & _ & Hf & _). unfold MigrationMirror.writable. by rewrite Hf. Qed.
Lemma applied_quiet T T' k : quietTarget T T' -> applied T k -> applied T' k.
Proof. intros (_ & Hr & _) H n. rewrite <- (H n). by setoid_rewrite Hr. Qed.
Lemma mirror_moves S S' T T' t i :
  JournalOk S -> grows S S' -> quietTarget T T' -> capturedTable t = true -> mirror S T t i -> mirror S' T' t i \/ hasEntry S' t i (nextSeq S).
Proof.
  intros HJ Hg (Hr & _) Ht Hm. destruct (gr_rows _ _ _ _ _ Hg HJ t i Ht) as [Hs|?]; [left|by right]. unfold MigrationMirror.mirror. by rewrite Hs, Hr.
Qed.
Lemma synced_moves S S' T T' k : JournalOk S -> grows S S' -> quietTarget T T' -> k <= nextSeq S -> synced S T k -> synced S' T' k.
Proof.
  intros HJ Hg Hq Hk H t i Ht. destruct (H t i Ht) as [Hm|He]; [|right; by eapply gr_entries].
  destruct (mirror_moves S S' T T' t i HJ Hg Hq Ht Hm) as [?|?]; [by left|right]. by eapply hasEntry_weaken.
Qed.
Lemma row_or_entry S S' t i lo (o : option Row) :
  JournalOk S -> grows S S' -> lo <= nextSeq S -> capturedTable t = true -> srcRow S t i = o \/ hasEntry S t i lo -> srcRow S' t i = o \/ hasEntry S' t i lo.
Proof.
  intros HJ Hg Hlo Ht [Hs|He]; [|right; by eapply gr_entries]. destruct (gr_rows _ _ _ _ _ Hg HJ t i Ht) as [->|He]; [by left|right].
  by eapply hasEntry_weaken.
Qed.
Lemma snapshot_stays S S' t i : grows S S' -> t = snapshotsTable /\ srcRow S t i <> None -> t = snapshotsTable /\ srcRow S' t i <> None.
Proof. intros Hg [-> H]. split; [done|]. by apply (gr_snapshots _ _ _ _ _ Hg). Qed.
Lemma copied_moves S S' T T' c : JournalOk S -> grows S S' -> quietTarget T T' -> copied S T c -> copied S' T' c.
Proof.
  intros HJ Hg Hq H t i Ht. pose proof (jo_next _ _ _ _ HJ) as Hn. destruct (H t i Ht) as [Hm|[He|[Hb Ho]]].
  - destruct (mirror_moves S S' T T' t i HJ Hg Hq Ht Hm) as [?|?]; [by left|right; left]. by eapply hasEntry_weaken.
  - right. left. by eapply gr_entries.
  - right. right. split; [done|]. destruct Ho as [Ho|Ho]; [left|right; by eapply snapshot_stays]. destruct Hq as (-> & _); done.
Qed.
Lemma entryOk_moves S S' bnd e : JournalOk S -> grows S S' -> bnd <= nextSeq S -> entryOk S bnd e -> entryOk S' bnd e.
Proof.
  intros HJ Hg Hb ((j & Hj & Ej) & Hle & Hp). pose proof (jo_seq _ _ _ _ HJ _ _ Hj) as (_ & _ & Hct). rewrite Ej in Hct. split_and!; [|done|].
  - exists j. split; [by eapply gr_log|done].
  - intros Hop. destruct (Hp Hop) as [? ?]. split; [done|]. by eapply row_or_entry.
Qed.
Lemma batchOk_moves S S' c next rows : JournalOk S -> grows S S' -> batchOk S c next rows -> batchOk S' c next rows.
Proof.
  intros HJ Hg [H1 H2 H3]. pose proof (jo_next _ _ _ _ HJ) as Hn. split; [done| |].
  - intros t i x Ht Hin. eapply row_or_entry; eauto.
  - intros t i Ht Hb Hb' Hnin. eapply row_or_entry; eauto.
Qed.
Lemma all_synced S T k : JournalOk S -> nextSeq S <= k -> synced S T k -> forall t i, capturedTable t = true -> mirror S T t i.
Proof. intros HJ Hk H t i Ht. destruct (H t i Ht) as [?|(q & j & Hq & Hj & _)]; [done|]. pose proof (jo_seq _ _ _ _ HJ _ _ Hj). lia. Qed.
End Replay.
