(* ===== verification/MigrationPhases.v ===== *)
(** * Physical migration: what a copy has reached in each state

    For every state of a migration between the start of the capture and the
    final validation, what holds of its source and its target; that no client
    of the two shards disturbs it; and what the checkpoints of the control store
    ([src/internal/sharding/physicalmigration/postgres/control.go]) change of
    the state, the sequence numbers and the cursor. *)

From S2P Require Import Prelude Transaction CrashProgram Sharding PaymentDomain PaymentDb BookingDb ShardDb ShardLogic ShardBooking CommandDb MigrationDb MigrationEngine MigrationControl MigrationLedger MigrationShards MigrationValidator MigrationCutover MigrationFences MigrationGaps MigrationMirror MigrationReplay.
Import Physical.

(** The checkpoint of the base copy. *)
Definition cursorOf (id : uuid) (d : MigDb) : Cursor :=
  match md_checks d !! (id, "base_copy"%string) with Some (mkCheckpoint (CpCursor c) _ _ _ _) => c | _ => CursorEmpty end.

(** ** What a migration has reached in each state *)
Section Phases.
Context (id run : uuid) (sgen tgen : Z).
#[local] Abbreviation JournalOk := (JournalOk id run sgen).
#[local] Abbreviation nextSeq := (MigrationMirror.nextSeq run).
#[local] Abbreviation writable := (writable run).
#[local] Abbreviation sourceStep := (sourceStep id run sgen).
#[local] Abbreviation targetStep := (targetStep id run tgen).

(** The source before the capture: the migration has no journal. *)
Definition uncaptured (S : Store) : Prop :=
  (forall seq, journalOf S !! (id, seq) = None) /\
  (forall c, captureOf S !! run = Some c -> cs_enabled c = false /\ (cs_migration c = id -> cs_next c = 0)).
(** The target before the copy: a snapshot of the source's, no other row. *)
Definition clean (S T : Store) : Prop := forall t i, capturedTable t = true ->
  tgtRow run tgen T t i = None \/ (t = snapshotsTable /\ srcRow run sgen S t i <> None).
Definition standby (T : Store) : Prop := ~ writable T /\ oneGeneration run tgen T.
Definition Prepared (S T : Store) : Prop := standby T /\ applied id T 0 /\ clean S T /\ (uncaptured S \/ JournalOk S).
Definition Copying (c : Cursor) (S T : Store) : Prop := standby T /\ JournalOk S /\ applied id T 0 /\ copied id run sgen tgen S T c.
Definition Replaying (last : Z) (S T : Store) : Prop :=
  standby T /\ JournalOk S /\ exists k, last <= k <= nextSeq S /\ applied id T k /\ synced id run sgen tgen S T k.
Definition Fenced (last final : Z) (S T : Store) : Prop := Replaying last S T /\ ~ writable S /\ nextSeq S = final.
Definition mirrored (S T : Store) : Prop := forall t i, capturedTable t = true -> mirror run sgen tgen S T t i.
Definition Closed (S T : Store) : Prop := ~ writable S /\ (~ writable T -> mirrored S T).

Definition phase (state : PhysicalState) (last final : Z) (c : Cursor) (S T : Store) : Prop :=
  match state with
  | PhysicalStatePlanned | PhysicalStatePreparingTarget => False
  | PhysicalStateCaptureEnabled => c = CursorEmpty /\ Prepared S T
  | PhysicalStateBaseCopying => last = 0 /\ Copying c S T
  | PhysicalStateCatchingUp | PhysicalStateValidatingOnline | PhysicalStateDraining => Replaying last S T
  | PhysicalStateSourceFenced => Fenced last final S T
  | PhysicalStateFinalCatchup => ~ writable T /\ Closed S T
  | PhysicalStateFinalValidating => Closed S T
  | _ => True
  end.

(** *** None of it is disturbed by the clients *)
Definition undisturbed (X : Store -> Store -> Prop) : Prop := forall S S' T T', sourceStep S S' -> targetStep T T' -> X S T -> X S' T'.
Lemma undisturbed_and X Y : undisturbed X -> undisturbed Y -> undisturbed (fun S T => X S T /\ Y S T).
Proof. intros HX HY S S' T T' Hs Ht [? ?]. split; [by eapply HX|by eapply HY]. Qed.
Lemma undisturbed_pure (phi : Prop) : undisturbed (fun _ _ => phi).
Proof. by intros S S' T T' _ _ H. Qed.
Lemma undisturbed_exists {A} (X : A -> Store -> Store -> Prop) : (forall a, undisturbed (X a)) -> undisturbed (fun S T => exists a, X a S T).
Proof. intros HX S S' T T' Hs Ht [a H]. exists a. by eapply HX. Qed.
Lemma standby_quiet T T' : standby T -> targetStep T T' -> quietTarget id run tgen T T' /\ standby T'.
Proof. intros [Hw Hg] Ht. destruct (quiet_target id run tgen T T' Hw Ht) as [Hq Hw']. split; [done|]. split; [done|]. by apply Hq. Qed.
Lemma capture_idle env t op i gen d d' :
  (forall c, captureOf d !! run = Some c -> cs_enabled c = false) -> captureMutation env t op i run gen d = Some d' -> d' = d.
Proof. intros Hc. unfold captureMutation. destruct (capturedTable t); cbn; [|congruence]. destruct (captureOf d !! run) as [c|]; [|congruence]. rewrite (Hc c eq_refl). cbn. congruence. Qed.
Lemma uncaptured_step S S' : sourceStep S S' -> uncaptured S -> uncaptured S'.
Proof.
  intros [(_ & Hc & Hj & _)|[_ H]] [Hn He]; [split; [intros; by rewrite Hj|intros c; rewrite Hc; apply He]|].
  assert (Hi : forall c, captureOf S !! run = Some c -> cs_enabled c = false) by (intros c Hc; by apply He).
  destruct H as [env spec i r Hf Hr Hg Hold H|env t i Ht H].
  - apply upsert_effect in H as (x & op & _ & _ & _ & _ & Hcap); [|intros _ old Ho; rewrite Hr, Hg; by apply Hold]. rewrite Hr, Hg in Hcap.
    by apply capture_idle in Hcap as ->.
  - apply delete_effect in H as [[_ ->]|[_ Hcap]]; [done|]. by apply capture_idle in Hcap as ->.
Qed.
Lemma Prepared_undisturbed : undisturbed Prepared.
Proof.
  intros S S' T T' Hs Ht (Hst & Ha & Hcl & Hj). destruct (standby_quiet T T' Hst Ht) as [Hq Hst']. destruct (step_grows _ _ _ _ _ Hs) as [Hg _].
  split_and!; [done|by eapply applied_quiet| |].
  - intros t i Hc. destruct (Hcl t i Hc) as [Hn|Hn]; [left|right; by eapply snapshot_stays]. destruct Hq as (-> & _); done.
  - destruct Hj as [?|?]; [left; by eapply uncaptured_step|right; by apply Hg].
Qed.
Lemma Copying_undisturbed c : undisturbed (Copying c).
Proof.
  intros S S' T T' Hs Ht (Hst & HJ & Ha & Hc). destruct (standby_quiet T T' Hst Ht) as [Hq Hst']. destruct (step_grows _ _ _ _ _ Hs) as [Hg _].
  split_and!; [done|by apply Hg|by eapply applied_quiet|by eapply copied_moves].
Qed.
Lemma Replaying_undisturbed last : undisturbed (Replaying last).
Proof.
  intros S S' T T' Hs Ht (Hst & HJ & k & Hk & Ha & Hsy). destruct (standby_quiet T T' Hst Ht) as [Hq Hst']. destruct (step_grows _ _ _ _ _ Hs) as [Hg _].
  destruct (gr_journal _ _ _ _ _ Hg HJ) as [HJ' Hn]. split_and!; [done|done|]. exists k. split_and!; [lia|lia|by eapply applied_quiet|].
  eapply synced_moves; [exact HJ|done..|lia|done].
Qed.
Lemma source_fenced_step S S' : ~ writable S -> sourceStep S S' -> ~ writable S' /\ nextSeq S' = nextSeq S /\ forall t i, capturedTable t = true -> srcRow run sgen S' t i = srcRow run sgen S t i.
Proof.
  intros Hw Hs. destruct (step_fenced _ _ _ _ _ Hw Hs) as (Hr & Hc & _ & Hf). unfold MigrationMirror.writable, MigrationMirror.nextSeq in *. rewrite Hf, Hc. done.
Qed.
Lemma Fenced_undisturbed last final : undisturbed (Fenced last final).
Proof.
  intros S S' T T' Hs Ht (Hr & Hw & Hn). destruct (source_fenced_step S S' Hw Hs) as (Hw' & Hn' & _). split_and!; [by eapply Replaying_undisturbed|done|congruence].
Qed.
Lemma Closed_undisturbed : undisturbed Closed.
Proof.
  intros S S' T T' Hs Ht [Hw Hm]. destruct (source_fenced_step S S' Hw Hs) as (Hw' & _ & Hr). split; [done|]. intros Hw2.
  assert (Hwt : ~ writable T).
  { intros Hwt. apply Hw2. destruct Ht as [(_ & _ & Hf & _)|[_ Hf]]; unfold MigrationMirror.writable in *; by rewrite Hf. }
  destruct (quiet_target id run tgen T T' Hwt Ht) as [(Hq & _) _]. intros t i Hc. unfold mirror. rewrite Hq, Hr by done. by apply (Hm Hwt).
Qed.
Lemma unwritable_undisturbed : undisturbed (fun _ T => ~ writable T).
Proof. intros S S' T T' _ Ht Hw. by eapply quiet_target. Qed.
Lemma phase_undisturbed state last final c : undisturbed (phase state last final c).
Proof.
  destruct state; cbn [phase]; try apply undisturbed_pure; eauto using Replaying_undisturbed, Fenced_undisturbed, Closed_undisturbed, undisturbed_and,
    undisturbed_pure, Prepared_undisturbed, Copying_undisturbed, unwritable_undisturbed.
Qed.

(** *** What the validation, the capture and the fence change *)
#[export] Instance quietTarget_preorder : PreOrder (quietTarget id run tgen).
Proof.
  split; [done|]. intros a b d (H1 & H2 & H3 & H4) (K1 & K2 & K3 & K4). unfold quietTarget. split_and!; [|congruence..|auto].
  intros t i Ht. by rewrite K1, H1.
Qed.
(** Only outbox events change. *)
Lemma quiet_outbox T T' :
  fenceOf T' = fenceOf T -> receiptsOf T' = receiptsOf T -> (forall t i, t <> outboxTable -> rowsOf T' !! (t, i) = rowsOf T !! (t, i)) -> quietTarget id run tgen T T'.
Proof.
  intros Hf Hr Hrows. unfold quietTarget. rewrite Hf, Hr. split_and!; [|done|done|].
  - intros t i [Hne _]%captured_spec. unfold tgtRow, rowIn. by rewrite Hrows.
  - intros H i row. rewrite Hrows by done. apply H.
Qed.
Lemma outbox_upsert env spec i r T T' : ts_name spec = outboxTable -> upsertRow env spec i r T = Some T' -> quietTarget id run tgen T T'.
Proof.
  intros Hn (x & op & _ & _ & _ & _ & Hc)%upsert_effect; [|intros E; by rewrite Hn in E]. apply capture_only in Hc as [[Hf Hr] Hrows]. apply quiet_outbox; [done|done|].
  intros t j Ht. rewrite Hrows. cbn. rewrite lookup_insert_ne; [done|]. rewrite Hn. congruence.
Qed.
Lemma outbox_delete env g T T' : deleteTable env outboxTable run g T = Some T' -> quietTarget id run tgen T T'.
Proof.
  unfold deleteTable. generalize (tableRows T outboxTable run g).*1. intros l. revert T. induction l as [|i l IH]; intros T; cbn [deleteAll]; [by intros [= <-]|].
  destruct (deleteRow _ _ _ _ _ _) as [d1|] eqn:H1; [|done]. intros H2. etrans; [|by apply IH].
  apply delete_effect in H1 as [[_ ->]|[_ Hc]]; [done|]. apply capture_only in Hc as [[Hf Hr] Hrows]. apply quiet_outbox; [done|done|].
  intros t j Ht. rewrite Hrows. cbn. rewrite lookup_delete_ne; [done|]. congruence.
Qed.
Lemma outbox_promote env spec rows T T' : ts_name spec = outboxTable -> promoteRows env spec rows T = Some T' -> quietTarget id run tgen T T'.
Proof.
  intros Hn. revert T. induction rows as [|[i r] rows IH]; intros T; cbn [promoteRows]; [by intros [= <-]|]. case_match; [done|].
  destruct (upsertRow _ _ _ _ _) as [d1|] eqn:H1; [|done]. intros H2. etrans; [by eapply outbox_upsert|by apply IH].
Qed.
Lemma staging_quiet k rows T : quietTarget id run tgen T (stageRows k rows T).
Proof. revert T. induction rows as [|[i r] rows IH]; intros T; cbn [stageRows]; [done|]. etrans; [|apply IH]. done. Qed.
Lemma budget_quiet env : respects (quietTarget id run tgen) (enforceOutboxStagingBudget env).
Proof. unfold enforceOutboxStagingBudget. respect. Qed.
Lemma promoteTx_quiet env r total : rc_run r = run -> respects (quietTarget id run tgen) (promoteTx env r total).
Proof.
  intros Er. unfold promoteTx. destruct (findTable outboxTable) as [spec|] eqn:Hf; [|respect]. apply findTable_Some in Hf as [Hn _].
  apply respects_bind; [apply _|apply respects_one; intros d d' H; rewrite Er in H; by eapply outbox_delete|intros ?].
  apply respects_bind; [apply _|apply respects_shard, _|intros ?]. cbv zeta.
  apply respects_bind; [apply _|apply respects_one; intros d d' H; by eapply outbox_promote|intros ?].
  apply respects_bind; [apply _|apply respects_guard, _|intros ?]. by apply respects_modify.
Qed.

Lemma grows_Replaying S S' T last : grows id run sgen S S' -> Replaying last S T -> Replaying last S' T.
Proof.
  intros Hg (Hst & HJ & k & Hk & Ha & Hsy). destruct (gr_journal _ _ _ _ _ Hg HJ) as [HJ' Hn]. split_and!; [done|done|]. exists k. split_and!; [lia|lia|done|].
  eapply synced_moves; [exact HJ|done|reflexivity|lia|done].
Qed.
(** The fence of the source keeps its rows and its journal. *)
Lemma fence_grows S S' gen from st en : updFence run gen from st en S = Some S' -> grows id run sgen S S' /\ nextSeq S' = nextSeq S /\ (en = false -> ~ writable S').
Proof.
  intros H. pose proof (updFence_Some _ _ _ _ _ _ _ H) as (f & _ & _ & _ & Hf). unfold updFence in H. repeat case_match; try done. injection H as <-.
  split_and!; [by apply unchanged_grows|done|]. intros -> (g & Hg & He). rewrite Hf, lookup_insert_eq in Hg. by injection Hg as <-.
Qed.
(** The capture starts. *)
Lemma installed r S S1 : installCapture r S = Some S1 -> rc_run r = run -> rc_id r = id -> uncaptured S -> uncaptured S1 /\ forall t i, srcRow run sgen S1 t i = srcRow run sgen S t i.
Proof.
  unfold installCapture. intros H Er Eid Hu. rewrite Er, Eid in H. destruct (captureOf S !! run) as [c|] eqn:Hc; [injection H as <-; done|]. destruct (_ || _) in H; [done|].
  injection H as <-. split; [|done]. destruct Hu as [Hn He]. split; [done|]. intros c. cbn. rewrite lookup_insert_eq. by intros [= <-].
Qed.
Lemma resetted r S S1 : resetCapture r S = Some S1 -> rc_run r = run -> rc_id r = id -> uncaptured S -> uncaptured S1 /\ forall t i, srcRow run sgen S1 t i = srcRow run sgen S t i.
Proof.
  unfold resetCapture. intros H Er Eid Hu. rewrite Er, Eid in H. destruct (captureOf S !! run) as [c|] eqn:Hc; [|injection H as <-; done]. destruct (_ || _) in H; [injection H as <-; done|].
  destruct (_ || _) in H; [done|]. injection H as <-. split; [|done]. destruct Hu as [Hn He]. split; [done|]. intros c'. cbn. rewrite lookup_insert_eq. by intros [= <-].
Qed.
Lemma started r S S1 : startCapture r S = Some S1 -> rc_run r = run -> rc_id r = id -> rc_sgen r = sgen -> uncaptured S -> JournalOk S1 /\ forall t i, srcRow run sgen S1 t i = srcRow run sgen S t i.
Proof.
  unfold startCapture. intros H Er Eid Es [Hn He]. rewrite Er, Eid, Es in H. destruct (captureOf S !! run) as [c|] eqn:Hc; [|done]. destruct (_ && _) eqn:Hb in H; [|done]. injection H as <-.
  apply andb_true_iff in Hb as [Hid%bool_decide_eq_true Hg%Z.eqb_eq]. destruct (He c eq_refl) as [_ H0]. split; [|done].
  assert (Hnx : MigrationMirror.nextSeq run (set_capture S (<[run := mkCapture (cs_migration c) (cs_gen c) true (cs_next c) false]> (captureOf S))) = 0).
  { unfold MigrationMirror.nextSeq. cbn. rewrite lookup_insert_eq. by apply H0. }
  split; [eexists; cbn; rewrite lookup_insert_eq; done|intros seq j; cbn; by rewrite Hn|by rewrite Hnx|intros seq j; cbn; by rewrite Hn].
Qed.
(** A capture that is on stays as it is. *)
Lemma captured_again r S S' :
  (_ ← one ErrShardOperation (installCapture r); _ ← one ErrShardOperation (resetCapture r); one ErrShardOperation (startCapture r)) S = Ok (tt, S') ->
  rc_run r = run -> JournalOk S -> grows id run sgen S S'.
Proof.
  intros (? & S1 & H1%one_Ok & H)%sbind_Ok Er HJ. apply sbind_Ok in H as (? & S2 & H2%one_Ok & H3%one_Ok).
  pose proof (jo_capture _ _ _ _ HJ) as (c & Hc & Hid & Hg & Hen). unfold installCapture in H1. rewrite Er, Hc in H1. injection H1 as <-.
  unfold resetCapture in H2. rewrite Er, Hc, Hen in H2. injection H2 as <-. unfold startCapture in H3. rewrite Er, Hc in H3. destruct (_ && _) in H3; [|done].
  injection H3 as <-. set (S' := set_capture S _). assert (Hn : nextSeq S' = nextSeq S) by (unfold MigrationMirror.nextSeq, S'; cbn; by rewrite lookup_insert_eq, Hc).
  split; [|done|by left|done]. intros [J1 J2 J3 J4]. split; [|lia]. split; [|by rewrite Hn|by rewrite Hn|done].
  eexists. unfold S'. cbn. rewrite lookup_insert_eq. split; [done|]. done.
Qed.
End Phases.

(** ** What a checkpoint of the engine changes *)
Record changed (ch : Change) (m m' : MigRow) (c c' : Cursor) : Prop := mkChanged {
  cg_identity : sameIdentity m m';
  cg_state : mg_state m' = nextOf m ch;
  cg_last : default 0 (mg_last m') = default (default 0 (mg_last m)) (ch_last ch);
  cg_final : default 0 (mg_final m') = default (default 0 (mg_final m)) (ch_final ch);
  cg_cursor : c' = if bool_decide (ch_cursor ch = CursorEmpty) then c else ch_cursor ch }.
Lemma loadMigration_cursor id d r : loadMigration id d = Ok r -> rc_cursor r = cursorOf id d.
Proof.
  unfold loadMigration. destruct (md_migs d !! id) as [m|]; [|done].
  destruct (shardCatalog (cenv (md_base d)) !! mg_source m), (shardCatalog (cenv (md_base d)) !! mg_target m); try done. by intros [= <-].
Qed.
Lemma saveRecord_effect env r ch m id d u d' expected :
  recOf id m r -> md_migs d !! id = Some m -> saveRecord env (ApplyChange r ch) expected d = Ok (u, d') ->
  exists m', md_migs d' !! id = Some m' /\ sameIdentity m m' /\ mg_state m' = nextOf m ch /\
    default 0 (mg_last m') = default (default 0 (mg_last m)) (ch_last ch) /\ default 0 (mg_final m') = default (default 0 (mg_final m)) (ch_final ch) /\
    cursorOf id d' = cursorOf id d.
Proof.
  intros Hr Hm H. unfold saveRecord in H. apply one_Ok in H. destruct Hr as (Hid & _ & _ & _ & _ & _ & Hst & _ & _ & _ & Hl & Hf & _).
  rewrite (proj1 (ApplyChange_rec r ch)), Hid, Hm in H. case_bool_decide; [|done]. apply putMig_Some in H as (_ & _ & ->).
  eexists. split; [cbn; apply lookup_insert_eq|]. split_and!; [by unfold sameIdentity|cbn; unfold nextOf; by rewrite Hst|cbn; by rewrite Hl|cbn|done].
  rewrite Hf. by destruct (Z.eqb_spec (default (default 0 (mg_final m)) (ch_final ch)) 0) as [->|].
Qed.
(** What the other checkpoints keep. *)
Definition keepsCopy (id : uuid) (d d' : MigDb) : Prop := md_migs d' = md_migs d /\ cursorOf id d' = cursorOf id d.
#[export] Instance keepsCopy_preorder id : PreOrder (keepsCopy id).
Proof. split; [done|]. intros a b c [? ?] [? ?]. split; congruence. Qed.
Lemma checkpoint_keeps id k kind v : kind <> "base_copy"%string -> respects (keepsCopy id) (modify (putCheckpoint k kind v) : CT unit).
Proof. intros Hk. apply respects_modify. intros d. split; [done|]. unfold cursorOf. cbn. rewrite lookup_insert_ne; [done|]. congruence. Qed.
Lemma persistTx_effect env ch d r' d' m :
  persistTx env ch d = Ok (r', d') -> md_migs d !! ch_id ch = Some m ->
  exists m', md_migs d' !! ch_id ch = Some m' /\ changed ch m m' (cursorOf (ch_id ch) d) (cursorOf (ch_id ch) d').
Proof.
  unfold persistTx. intros (r & ? & [Hload <-]%reads_Ok & H)%sbind_Ok Hm. pose proof (loadMigration_cursor _ _ _ Hload) as Hcur.
  apply loadMigration_Ok in Hload as (m0 & Hm0 & Hr). rewrite Hm in Hm0. injection Hm0 as <-.
  apply sbind_Ok in H as (? & ? & [_ <-]%guardS_Ok & H). apply sbind_Ok in H as (? & d1 & H1 & H).
  eapply saveRecord_effect in H1 as (m' & Hm' & Hid & Hst & Hl & Hf & Hc1); [|done|done]. apply sbind_Ok in H as (? & d2 & H2 & H).
  assert (Htail : keepsCopy (ch_id ch) d2 d').
  { match type of H with ?t d2 = _ => assert (Ht : respects (keepsCopy (ch_id ch)) t); [|exact (Ht _ _ _ H)] end.
    repeat first [apply checkpoint_keeps; by repeat case_bool_decide | apply respects_ret; apply _ | apply respects_bind; [apply _| |intros ?] | case_match]. }
  destruct Htail as [Hmt Hct]. exists m'. rewrite (proj1 (ApplyChange_rec r ch)), (proj1 Hr) in H2.
  assert (H2' : md_migs d2 = md_migs d1 /\ cursorOf (ch_id ch) d2 = if bool_decide (ch_cursor ch = CursorEmpty) then cursorOf (ch_id ch) d else ch_cursor ch).
  { destruct (decide (ch_cursor ch = CursorEmpty)) as [Hcc|Hcc].
    - rewrite (bool_decide_eq_true_2 _ Hcc) in *. by apply sret_Ok in H2 as [_ <-].
    - rewrite (bool_decide_eq_false_2 _ Hcc) in *. apply modify_Ok in H2 as <-. split; [done|]. unfold cursorOf. cbn [md_checks putCheckpoint set_checks].
      rewrite lookup_insert_eq. cbn. by rewrite bool_decide_eq_false_2. }
  destruct H2' as [Hm2 Hc2]. split; [by rewrite Hmt, Hm2|]. split; [done..|]. by rewrite Hct, Hc2.
Qed.
Lemma beginDrainTx_effect env ch d r' d' m :
  beginDrainTx env ch d = Ok (r', d') -> ch_cursor ch = CursorEmpty -> md_migs d !! ch_id ch = Some m ->
  exists m', md_migs d' !! ch_id ch = Some m' /\ changed ch m m' (cursorOf (ch_id ch) d) (cursorOf (ch_id ch) d').
Proof.
  unfold beginDrainTx. intros (r & ? & (-> & m0 & Hm0 & Hr)%lockMigration_Ok & H)%sbind_Ok Hcur Hm. rewrite Hm in Hm0. injection Hm0 as <-.
  apply sbind_Ok in H as (? & ? & [_ <-]%guardS_Ok & H). apply sbind_Ok in H as (? & d0 & (a & _ & _ & ->)%one_Ok%updAssignment_Some & H).
  apply sbind_Ok in H as (? & d1 & H1 & H). apply sbind_Ok in H as (? & d2 & H2 & [_ <-]%sret_Ok).
  eapply saveRecord_effect in H1 as (m' & Hm' & Hid & Hst & Hl & Hf & Hc1); [|done|exact Hm].
  apply (checkpoint_keeps (ch_id ch)) in H2 as [Hm2 Hc2]; [|done]. exists m'. split; [by rewrite Hm2|]. split; [done..|].
  rewrite Hc2, Hc1, bool_decide_eq_true_2 by done. done.
Qed.
