(* ===== verification/MigrationConvergence.v ===== *)
(** * Physical migration: the target catches up with its source

    The base copy runs while clients of the source change its rows; the capture
    triggers write what they change to the journal, which is replayed until
    nothing is left.  Here the engine is run by any sequence of [Advance]s, each
    of which may stop anywhere, between the writes of clients: when the final
    catch-up is reached the target has the rows of the source in every captured
    table ([src/internal/sharding/physicalmigration/engine.go],
    [postgres/shards.go], [postgres/data_plane.go]).  outbox_events is not
    captured: it is copied by CaptureOutbox at every validation. *)

From S2P Require Import Prelude Transaction CrashProgram Sharding PaymentDomain PaymentDb BookingDb ShardDb ShardLogic ShardBooking CommandDb MigrationDb MigrationEngine MigrationControl MigrationLedger MigrationShards MigrationValidator MigrationCutover MigrationFences MigrationGaps MigrationMirror MigrationReplay MigrationPhases.
Import Physical.

Section Convergence.
Context (id run : uuid) (ps pt : string) (sgen tgen : Z).
Hypothesis Hends : ps <> pt.
#[local] Abbreviation phase := (phase id run sgen tgen).
#[local] Abbreviation undisturbed := (undisturbed id run sgen tgen).
#[local] Abbreviation JournalOk := (JournalOk id run sgen).
#[local] Abbreviation nextSeq := (nextSeq run).
#[local] Abbreviation writable := (writable run).

(** ** The clients and the invariant *)
(** What others do between two steps of the engine: the row of the migration
    and its cursor stay, the clients of the two shards write as they may. *)
Record clients (w w' : World) : Prop := mkClients {
  cl_mig : md_migs (ctl w') !! id = md_migs (ctl w) !! id;
  cl_cursor : cursorOf id (ctl w') = cursorOf id (ctl w);
  cl_source : forall S, stores w !! ps = Some S -> exists S', stores w' !! ps = Some S' /\ sourceStep id run sgen S S';
  cl_target : forall T, stores w !! pt = Some T -> exists T', stores w' !! pt = Some T' /\ targetStep id run tgen T T' }.

Definition identity (m : MigRow) : Prop := mg_run m = run /\ mg_source m = ps /\ mg_target m = pt /\ mg_sgen m = sgen /\ mg_tgen m = tgen.
Definition phaseOf (m : MigRow) (c : Cursor) : Store -> Store -> Prop := phase (mg_state m) (default 0 (mg_last m)) (default 0 (mg_final m)) c.
(** The migration is at [m] and [c], and [X] holds of its shards. *)
Definition holds (m : MigRow) (c : Cursor) (X : Store -> Store -> Prop) (w : World) : Prop :=
  md_migs (ctl w) !! id = Some m /\ cursorOf id (ctl w) = c /\ exists S T, stores w !! ps = Some S /\ stores w !! pt = Some T /\ X S T.
Definition copyInv (w : World) : Prop := exists m c, identity m /\ holds m c (phaseOf m c) w.

Lemma holds_stable m c X : undisturbed X -> stable clients (holds m c X).
Proof.
  intros HX w w' [Hm Hc Hs Ht] (H1 & H2 & S & T & HS & HT & H). destruct (Hs S HS) as (S' & HS' & Hss), (Ht T HT) as (T' & HT' & Htt).
  split_and!; [by rewrite Hm|by rewrite Hc|]. exists S', T'. split_and!; [done..|by eapply HX].
Qed.
Lemma copyInv_env w w' : clients w w' -> copyInv w -> copyInv w'.
Proof. intros Hc (m & c & Hid & H). exists m, c. split; [done|]. eapply holds_stable; [apply phase_undisturbed|done|done]. Qed.
Lemma holds_mono m c (X Y : Store -> Store -> Prop) w : (forall S T, X S T -> Y S T) -> holds m c X w -> holds m c Y w.
Proof. intros H (? & ? & S & T & ? & ? & ?). split_and!; [done..|]. exists S, T. auto. Qed.

(** ** Single steps *)
Abbreviation tri := (triple clients copyInv).
Section Record.
Context (m : MigRow) (c : Cursor).
Hypothesis Hm : identity m.
#[local] Hint Resolve holds_stable : core.

(** What the invariant says at [m] and [c]. *)
Lemma inv_at X w : copyInv w -> holds m c X w -> exists S T, stores w !! ps = Some S /\ stores w !! pt = Some T /\ phaseOf m c S T /\ X S T.
Proof.
  intros (m' & c' & _ & H1 & H2 & S' & T' & HS' & HT' & Hp) (H3 & H4 & S & T & HS & HT & HX). rewrite H3 in H1. injection H1 as <-.
  rewrite H4 in H2. subst c'. rewrite HS in HS'. rewrite HT in HT'. injection HS' as <-. injection HT' as <-. exists S, T. done.
Qed.
Lemma to_inv X w : holds m c X w -> (forall S T, X S T -> phaseOf m c S T) -> copyInv w.
Proof. intros H HX. exists m, c. split; [done|]. by eapply holds_mono. Qed.

Lemma k_source {A} X (t : ST A) (Y : A -> Store -> Store -> Prop) :
  undisturbed X -> (forall a, undisturbed (Y a)) ->
  (forall S T a S', phaseOf m c S T -> X S T -> t S = Ok (a, S') -> phaseOf m c S' T /\ Y a S' T) ->
  tri (holds m c X) (onStore ps t) (fun a => holds m c (Y a)).
Proof.
  intros HX HY H. apply triple_atomic; [auto|auto|]. intros w Hi Hw. destruct (inv_at X w Hi Hw) as (S & T & HS & HT & Hp & HXX). rewrite HS.
  destruct (t S) as [[a S']|e] eqn:Ht; [|by cbn]. cbn [fst snd]. destruct (H S T a S' Hp HXX Ht) as [Hp' HY'].
  assert (Hh : forall Z : Store -> Store -> Prop, Z S' T -> holds m c Z (set_store w ps S')).
  { intros Z HZ. destruct Hw as (? & ? & _). split_and!; [done..|]. exists S', T. cbn. rewrite lookup_insert_eq, lookup_insert_ne by done. done. }
  split; [exists m, c; split; [done|]; by apply Hh|]. intros b [= <-]. by apply Hh.
Qed.
Lemma k_target {A} X (t : ST A) (Y : A -> Store -> Store -> Prop) :
  undisturbed X -> (forall a, undisturbed (Y a)) ->
  (forall S T a T', phaseOf m c S T -> X S T -> t T = Ok (a, T') -> phaseOf m c S T' /\ Y a S T') ->
  tri (holds m c X) (onStore pt t) (fun a => holds m c (Y a)).
Proof.
  intros HX HY H. apply triple_atomic; [auto|auto|]. intros w Hi Hw. destruct (inv_at X w Hi Hw) as (S & T & HS & HT & Hp & HXX). rewrite HT.
  destruct (t T) as [[a T']|e] eqn:Ht; [|by cbn]. cbn [fst snd]. destruct (H S T a T' Hp HXX Ht) as [Hp' HY'].
  assert (Hh : forall Z : Store -> Store -> Prop, Z S T' -> holds m c Z (set_store w pt T')).
  { intros Z HZ. destruct Hw as (? & ? & _). split_and!; [done..|]. exists S, T'. cbn. rewrite lookup_insert_eq, lookup_insert_ne by done. done. }
  split; [exists m, c; split; [done|]; by apply Hh|]. intros b [= <-]. by apply Hh.
Qed.
Lemma k_read {A} X (f : Store -> res MErr A) (Y : A -> Store -> Store -> Prop) :
  undisturbed X -> (forall a, undisturbed (Y a)) -> (forall S T a, phaseOf m c S T -> X S T -> f S = Ok a -> Y a S T) ->
  tri (holds m c X) (onStore ps (reads f)) (fun a => holds m c (Y a)).
Proof. intros HX HY H. apply k_source; [done|done|]. intros S T a S' Hp HXX [Hf <-]%reads_Ok. split; [done|by eapply H]. Qed.
(** A checkpoint: the next state's phase. *)
Lemma k_control {A} X ce (t : CT A) :
  undisturbed X ->
  (forall d a d', t d = Ok (a, d') -> md_migs d !! id = Some m -> cursorOf id d = c ->
     exists m', md_migs d' !! id = Some m' /\ identity m' /\ forall S T, phaseOf m c S T -> X S T -> phaseOf m' (cursorOf id d') S T) ->
  tri (holds m c X) (onControl ce t) (fun _ _ => True).
Proof.
  intros HX H. apply triple_atomic; [auto|intros a; apply stable_true|]. intros w Hi Hw. destruct (t (ctl w)) as [[a d']|e] eqn:Ht; [|by cbn].
  destruct (ce_ok ce d'); [|by cbn]. cbn [fst snd]. split; [|done]. pose proof Hw as (H1 & H2 & _). destruct (H _ _ _ Ht H1 H2) as (m' & Hm' & Hid & Hp').
  destruct (inv_at X w Hi Hw) as (S & T & HS & HT & Hp & HXX). exists m', (cursorOf id d'). split; [done|]. split_and!; [done|done|].
  exists S, T. split_and!; [done|done|]. by apply Hp'.
Qed.
(** Where the phase is absurd there is nothing to run. *)
Lemma k_absurd {A} X (p : Prog World MErr A) Q : undisturbed X -> (forall S T, ~ phaseOf m c S T) -> tri (holds m c X) p Q.
Proof.
  intros HX Hno w Hw. assert (Hf : forall w', rtc clients w w' -> copyInv w' -> False).
  { intros w' He Hi. destruct (inv_at X w' Hi (stable_rtc _ _ _ _ (holds_stable m c X HX) He Hw)) as (S & T & _ & _ & Hp & _). by eapply Hno. }
  destruct p; cbn; intros w' He Hi; by destruct (Hf w' He Hi).
Qed.

(** The phase may be used from the start. *)
Lemma k_inv {A} X (p : Prog World MErr A) Q : undisturbed X -> tri (holds m c (fun S T => X S T /\ phaseOf m c S T)) p Q -> tri (holds m c X) p Q.
Proof.
  intros HX H w Hw. assert (Hp : forall w', rtc clients w w' -> copyInv w' -> holds m c (fun S T => X S T /\ phaseOf m c S T) w').
  { intros w' He Hi. pose proof (stable_rtc _ _ _ _ (holds_stable m c X HX) He Hw) as Hw'. destruct (inv_at X w' Hi Hw') as (S & T & HS & HT & Hph & HXX).
    destruct Hw' as (? & ? & _). split_and!; [done..|]. by exists S, T. }
  destruct p; cbn; intros w' He Hi; exact (H w' (Hp w' He Hi) w' (rtc_refl _ _) Hi).
Qed.

(** *** Steps like a client's *)
Definition still {A} (p : Prog World MErr A) : Prop := forall X, undisturbed X -> tri (holds m c X) p (fun _ => holds m c X).
Lemma quietSource_refl S : quietSource id run sgen S S.
Proof. done. Qed.
Lemma still_target {A} (t : ST A) : respects (quietTarget id run tgen) t -> still (onStore pt t).
Proof.
  intros Ht X HX. apply k_target; [done|done|]. intros S T a T' Hp HXX H%Ht. split; [eapply phase_undisturbed|eapply HX]; try done; by left.
Qed.
Lemma still_read {A} s (f : Store -> res MErr A) : s = ps \/ s = pt -> still (onStore s (reads f)).
Proof.
  intros [-> | ->] X HX; [by apply k_read|]. apply k_target; [done|done|]. intros S T a T' Hp HXX [_ <-]%reads_Ok. done.
Qed.
Lemma still_bind {A B} (p : Prog World MErr A) (k : A -> Prog World MErr B) : still p -> (forall a, still (k a)) -> still (p ≫= k).
Proof. intros Hp Hk X HX. eapply triple_bind; [by apply Hp|]. intros a. by apply Hk. Qed.
Lemma still_ret {A} (a : A) : still (mret a).
Proof. intros X HX. apply (triple_ret clients copyInv a (fun _ => holds m c X)). by apply holds_stable. Qed.
Lemma still_stop {A} e : still (stop e : Prog World MErr A).
Proof. intros X HX. apply triple_stop. Qed.
Lemma still_failWhen b e : still (failWhen b e).
Proof. destruct b; [apply still_stop|apply still_ret]. Qed.
Lemma still_ofRes {A} (x : res MErr A) : still (ofRes x).
Proof. destruct x; [apply still_ret|apply still_stop]. Qed.

(** *** Checkpoints *)
Context (r : MigRecord).
Hypothesis Hr : recOf id m r.
Lemma changed_identity ch m' c' : changed ch m m' c c' -> identity m'.
Proof. intros [(_ & E1 & E2 & E3 & E4 & E5 & _) _ _ _ _]. unfold identity in *. by rewrite E1, E2, E3, E4, E5. Qed.
Lemma changed_phase ch m' c' S T :
  changed ch m m' c c' ->
  phase (nextOf m ch) (default (rc_last r) (ch_last ch)) (default (rc_final r) (ch_final ch)) (if bool_decide (ch_cursor ch = CursorEmpty) then c else ch_cursor ch) S T ->
  phaseOf m' c' S T.
Proof. destruct Hr as (_ & _ & _ & _ & _ & _ & _ & _ & _ & _ & El & Ef & _). rewrite El, Ef. intros [_ Es Ea Eb Ec]. unfold phaseOf. by rewrite Es, Ea, Eb, Ec. Qed.
Lemma k_persist X ce ch :
  ch_id ch = id -> undisturbed X ->
  (forall S T, phaseOf m c S T -> X S T ->
     phase (nextOf m ch) (default (rc_last r) (ch_last ch)) (default (rc_final r) (ch_final ch)) (if bool_decide (ch_cursor ch = CursorEmpty) then c else ch_cursor ch) S T) ->
  tri (holds m c X) (Persist (NewControl ce) ch) (fun _ _ => True).
Proof.
  intros Hid HX H. eapply triple_bind; [by apply still_failWhen|]. intros u. cbn beta. apply k_control; [done|]. intros d a d' Ht Hd Hc.
  rewrite <- Hid in Hd. destruct (persistTx_effect _ _ _ _ _ _ Ht Hd) as (m' & Hm' & Hch). rewrite Hid, Hc in *. exists m'.
  split_and!; [done|by eapply changed_identity|]. intros S T Hp HXX. eapply changed_phase; [done|]. by apply H.
Qed.
Lemma makeTransition_fields next patch ch :
  makeTransition r next patch = Ok ch ->
  ch_id ch = rc_id r /\ ch_next ch = next /\ ch_cursor ch = ch_cursor patch /\ ch_last ch = ch_last patch /\ ch_final ch = ch_final patch.
Proof. unfold makeTransition. repeat case_match; try done. by intros [= <-]. Qed.
Lemma next_state ch next : ch_next ch = next -> next <> noState -> nextOf m ch = next.
Proof. intros <- H. unfold nextOf. by rewrite bool_decide_eq_false_2. Qed.
Lemma k_transition X ce next patch :
  next <> noState -> undisturbed X -> ch_cursor patch = CursorEmpty ->
  (forall S T, phaseOf m c S T -> X S T -> phase next (default (rc_last r) (ch_last patch)) (default (rc_final r) (ch_final patch)) c S T) ->
  tri (holds m c X) (transition (NewControl ce) r next patch) (fun _ _ => True).
Proof.
  intros Hne HX Hcur H. eapply triple_bind; [by apply triple_ofRes, holds_stable|]. intros ch. cbn beta. apply triple_pull.
  intros (Hid & Hn & Hc & Hl & Hf)%makeTransition_fields. apply k_persist; [rewrite Hid; apply Hr|done|]. intros S T Hp HXX.
  rewrite (next_state ch next), Hl, Hf, Hc, Hcur by done. by apply H.
Qed.
Lemma rec_fields : rc_id r = id /\ rc_run r = run /\ rc_source r = ps /\ rc_target r = pt /\ rc_sgen r = sgen /\ rc_tgen r = tgen.
Proof. destruct Hr as (E1 & E2 & E3 & E4 & E5 & E6 & _), Hm as (F1 & F2 & F3 & F4 & F5). split_and!; congruence. Qed.

(** ** Reading a batch of the base copy *)
Context (envs : string -> StoreEnv) (limits : Limits) (ce : CtlEnv).
(** The tables before [index] have no row ahead of the cursor but what the journal has. *)
Definition passed (index : nat) (S : Store) : Prop := JournalOk S /\ forall t i k spec, capturedTable t = true ->
  list_find (fun s => ts_name s = t) migrationTables = Some (k, spec) -> (k < index)%nat -> ahead c k i = true ->
  srcRow run sgen S t i = None \/ hasEntry id S t i 0.
Definition pageOk (t : string) (after : uuid) (page : list (uuid * Row)) (S : Store) : Prop := capturedTable t = true ->
  (forall i x, (i, x) ∈ page -> srcRow run sgen S t i = Some x \/ hasEntry id S t i 0) /\
  (forall i, pastOf after i = true -> (forall l y, last page = Some (l, y) -> (i <= l)%N) -> (forall x, (i, x) ∉ page) -> srcRow run sgen S t i = None \/ hasEntry id S t i 0).
Lemma passed_undisturbed index : undisturbed (fun S _ => passed index S).
Proof.
  intros S S' T T' Hs _ [HJ H]. destruct (step_grows _ _ _ _ _ Hs) as [Hg _]. split; [by apply Hg|]. intros t i k spec Ht Hf Hk Ha.
  eapply row_or_entry; [done|done|by apply (jo_next _ _ _ _ HJ)|done|by eapply H].
Qed.
Lemma pageOk_undisturbed index t after page : undisturbed (fun S _ => passed index S /\ pageOk t after page S).
Proof.
  intros S S' T T' Hs Hq [Hp H]. split; [by eapply (passed_undisturbed index S S' T T')|]. destruct Hp as [HJ _]. destruct (step_grows _ _ _ _ _ Hs) as [Hg _].
  pose proof (jo_next _ _ _ _ HJ) as Hn. intros Ht. destruct (H Ht) as [H1 H2]. split.
  - intros i x Hin. eapply row_or_entry; eauto.
  - intros i Hp Hl Hnin. eapply row_or_entry; eauto.
Qed.
Lemma pageRows_ok S t after limit : 0 < limit -> pageOk t after (pageRows S t run sgen after limit) S.
Proof.
  intros Hlim _. split; [intros i x Hx; left; by eapply page_sound|]. intros i Hp Hl Hnin. left. destruct (srcRow run sgen S t i) as [x|] eqn:Hx; [|done].
  destruct (page_complete _ _ _ _ _ _ _ _ Hlim Hx Hp) as (l & y & Hy & Hin). exfalso. by eapply Hnin, Hin, Hl.
Qed.
Lemma find_lt t k spec : list_find (fun s => ts_name s = t) migrationTables = Some (k, spec) -> (k < length migrationTables)%nat /\ migrationTables !! k = Some spec /\ ts_name spec = t.
Proof. intros (Hl & Ht & _)%list_find_Some. split; [by eapply lookup_lt_Some|done]. Qed.
Lemma drop_here {A} (l : list A) n x l' : drop n l = x :: l' -> l !! n = Some x /\ drop (S n) l = l'.
Proof.
  intros H. split; [|by rewrite <- Nat.add_1_r, <- drop_drop, H]. pose proof (lookup_drop l n 0) as E. rewrite H, Nat.add_0_r in E. done.
Qed.
Lemma passed_complete index S : (length migrationTables <= index)%nat -> passed index S -> batchOk id run sgen S c CursorComplete [].
Proof.
  intros Hlen [_ H]. split; [done|by intros t i x _ Hx%not_elem_of_nil|]. intros t i Ht Hb _ _. unfold beyond in Hb.
  destruct (list_find _ _) as [[k spec]|] eqn:Hf; [|done]. eapply H; [done|done| |done]. apply find_lt in Hf. lia.
Qed.
Lemma passed_next index t after S spec :
  migrationTables !! index = Some spec -> ts_name spec = t -> (forall i, ahead c index i = true -> pastOf after i = true) ->
  passed index S -> pageOk t after [] S -> passed (Datatypes.S index) S.
Proof.
  intros Hidx Et Haft [HJ H] Hpg. split; [done|]. intros t' i k spec' Ht Hf Hk Ha. destruct (decide (k = index)) as [->|]; [|eapply H; [done|done|lia|done]].
  apply find_lt in Hf as (_ & Hf & En). rewrite Hidx in Hf. injection Hf as <-. rewrite En in Et. subst t'. apply (Hpg Ht); [by apply Haft|done|].
  intros x. apply not_elem_of_nil.
Qed.
Lemma passed_page index t after page S spec l y :
  migrationTables !! index = Some spec -> ts_name spec = t -> (forall i, ahead c index i = true -> pastOf after i = true) -> last page = Some (l, y) ->
  Forall (fun ir : uuid * Row => rw_run ir.2 = run) page -> passed index S -> pageOk t after page S ->
  batchOk id run sgen S c (CursorAt index l) ((fun ir : uuid * Row => (t, ir.1, ir.2)) <$> page).
Proof.
  intros Hidx Et Haft Hlast Hrun [HJ H] Hpg. split.
  - rewrite Forall_fmap. by eapply Forall_impl; [exact Hrun|].
  - intros t' i x Ht ([j z] & [= -> -> ->] & Hin)%list_elem_of_fmap. by apply (Hpg Ht).
  - intros t' i Ht Hb Hb' Hnin. unfold beyond in *. destruct (list_find _ _) as [[k spec']|] eqn:Hf; [|done]. cbn in Hb'.
    apply orb_false_iff in Hb' as [Hk%Nat.ltb_ge Hb']. destruct (decide (k = index)) as [->|]; [|eapply H; [done|done|lia|done]].
    apply find_lt in Hf as (_ & Hf & En). rewrite Hidx in Hf. injection Hf as <-. rewrite En in Et. subst t'. rewrite Nat.eqb_refl in Hb'. cbn in Hb'.
    apply (Hpg Ht); [by apply Haft| |].
    + intros l' y' Hl'. rewrite Hlast in Hl'. injection Hl' as <- <-. unfold pastOf in Hb'. apply orb_false_iff in Hb' as [_ ?%N.ltb_ge]. done.
    + intros x Hin. apply (Hnin x). apply list_elem_of_fmap. by exists (i, x).
Qed.
Definition readOk (batch : BaseBatch) (S T : Store) : Prop :=
  (JournalOk S /\ batchOk id run sgen S c (bb_next batch) (bb_payload batch)) /\ (bb_done batch = true -> bb_next batch = CursorComplete).
Lemma readOk_undisturbed batch : undisturbed (readOk batch).
Proof.
  apply undisturbed_and; [|apply undisturbed_pure]. intros S S' T T' Hs _ [HJ H]. destruct (step_grows _ _ _ _ _ Hs) as [Hg _].
  split; [by apply Hg|by eapply batchOk_moves].
Qed.
Lemma k_ret {A} (a : A) X (Y : A -> Store -> Store -> Prop) :
  undisturbed X -> (forall S T, X S T -> Y a S T) -> tri (holds m c X) (mret a : Prog World MErr A) (fun a => holds m c (Y a)).
Proof. intros HX H w Hw w' He _. eapply holds_mono; [apply H|]. eapply stable_rtc; [by apply holds_stable|done|done]. Qed.
Lemma k_readTables limit specs index after :
  0 < limit -> drop index migrationTables = specs -> (forall i, ahead c index i = true -> pastOf after i = true) ->
  tri (holds m c (fun S _ => passed index S)) (readTables envs r c limit specs index after) (fun batch => holds m c (readOk batch)).
Proof.
  destruct rec_fields as (_ & Erun & Esrc & _ & Esg & _). intros Hlim. revert index after. induction specs as [|spec specs IH]; intros index after Hd Haft; cbn [readTables].
  - apply k_ret; [apply passed_undisturbed|]. intros S T Hp. split; [|done]. split; [by apply Hp|]. eapply passed_complete; [|exact Hp].
    apply (f_equal length) in Hd. rewrite length_drop in Hd. cbn [length] in Hd. lia.
  - rewrite Esrc, Erun, Esg. apply drop_here in Hd as [Hidx Hd].
    apply triple_bind with (Q := fun page => holds m c (fun S _ => (passed index S /\ pageOk (ts_name spec) after page S) /\ Forall (fun ir : uuid * Row => rw_run ir.2 = run) page)).
    + apply k_read; [apply passed_undisturbed|intros page; apply undisturbed_and; [apply pageOk_undisturbed|apply undisturbed_pure]|].
      intros S T page _ Hp [= <-]. split; [split; [done|by apply pageRows_ok]|]. apply Forall_forall. intros [i x] Hx%page_sound%rowIn_Some%elem_of_tableRows. apply Hx.
    + intros page. cbn beta. destruct (last page) as [[l y]|] eqn:Hlast.
      * apply k_ret; [apply undisturbed_and; [apply pageOk_undisturbed|apply undisturbed_pure]|]. intros S T [[Hp Hpg] Hrun]. split; [|done].
        split; [by apply Hp|]. cbn [bb_next bb_payload]. by eapply passed_page.
      * apply last_None in Hlast as ->. eapply triple_pre; [|apply (IH (Datatypes.S index) uuidNil); [done|done]].
        intros w. apply holds_mono. intros S T [[Hp Hpg] _]. by eapply passed_next.
Qed.
Lemma k_readBase limit :
  rc_cursor r = c -> (forall S T, phaseOf m c S T -> JournalOk S) ->
  tri (holds m c (fun _ _ => True)) (readBase envs r (rc_cursor r) limit) (fun batch => holds m c (readOk batch)).
Proof.
  intros Hc HJ. rewrite Hc. unfold readBase. destruct (parseBaseCursor c) as [[index after]|] eqn:Hp; [|apply triple_stop].
  assert (Hpos : position c = (index, after)).
  { unfold position, parseBaseCursor in *. destruct c as [|n a|]; [congruence| |congruence]. destruct (length migrationTables <=? n)%nat; congruence. }
  eapply triple_bind; [by apply triple_failWhen, holds_stable, undisturbed_pure|]. intros ?. cbn beta. apply triple_pull. intros Hlim%Z.leb_gt.
  apply k_inv; [apply undisturbed_pure|]. eapply triple_pre; [|apply k_readTables; [done|done|]].
  - intros w. apply holds_mono. intros S T [_ Hph]. split; [by eapply HJ|]. intros t i k spec _ _ Hk Ha. unfold ahead in Ha. rewrite Hpos in Ha.
    apply orb_true_iff in Ha as [Ha%Nat.ltb_lt|[Ha%Nat.eqb_eq _]%andb_true_iff]; lia.
  - intros i Ha. unfold ahead in Ha. rewrite Hpos, Nat.ltb_irrefl, Nat.eqb_refl in Ha. done.
Qed.
#[local] Abbreviation control := (NewControl ce).
#[local] Abbreviation shards := (NewDefaultShards envs).
Hypothesis Hcursor : rc_cursor r = c.
Hypothesis Hretained : rc_reverse r = true -> rc_retained r <> tgen.

Lemma Copying_done S T : Copying id run sgen tgen CursorComplete S T -> Replaying id run sgen tgen 0 S T.
Proof.
  intros (Hst & HJ & Ha & Hc). split_and!; [done|done|]. exists 0. pose proof (jo_next _ _ _ _ HJ). split_and!; [done|done|done|].
  intros t i Ht. destruct (Hc t i Ht) as [?|[?|[Hb _]]]; [by left|by right|]. exfalso. unfold beyond in Hb.
  destruct (list_find _ _) as [[k spec]|] eqn:Hf; [|done]. apply find_lt in Hf as [Hk _]. unfold ahead in Hb. cbn [position] in Hb.
  apply orb_true_iff in Hb as [Hb%Nat.ltb_lt|[Hb%Nat.eqb_eq _]%andb_true_iff]; lia.
Qed.
Lemma k_copyOneBatch : mg_state m = PhysicalStateBaseCopying -> tri (holds m c (fun _ _ => True)) (copyOneBatch control shards limits r) (fun _ _ => True).
Proof.
  intros Hst. destruct rec_fields as (Eid & Erun & _ & Etgt & _ & Etg). assert (Est : rc_state r = PhysicalStateBaseCopying) by (rewrite <- Hst; apply Hr).
  assert (El : rc_last r = default 0 (mg_last m)) by apply Hr.
  assert (Hph : forall S T, phaseOf m c S T -> rc_last r = 0 /\ Copying id run sgen tgen c S T) by (unfold phaseOf; rewrite Hst, El; done).
  eapply triple_bind; [apply k_readBase; [done|]; intros S T [_ (_ & ? & _)]%Hph; done|]. intros batch. cbn beta.
  eapply triple_bind; [by apply triple_failWhen, holds_stable, readOk_undisturbed|]. intros ?. cbn beta. apply triple_pull.
  intros [[_ Hne%bool_decide_eq_false]%orb_false_iff _]%orb_false_iff.
  apply triple_bind with (Q := fun _ => holds m c (fun S T => Copying id run sgen tgen (bb_next batch) S T /\ (bb_done batch = true -> bb_next batch = CursorComplete))).
  - eapply triple_bind; [apply still_failWhen, readOk_undisturbed|]. intros u. cbn beta. rewrite Etgt.
    apply k_target; [apply readOk_undisturbed|intros ?; apply undisturbed_and; [apply Copying_undisturbed|apply undisturbed_pure]|].
    intros S T x T' Hp [[HJ Hb] Hdone] H. destruct (Hph S T Hp) as (Hl & [Hw Hg] & _ & Ha & Hc).
    destruct (base_step id run sgen tgen _ r batch S T x T' c (bb_next batch) Erun Etg Hretained Hg Hc Hb H) as (Hw' & Hre & Hg' & Hc1 & Hc2).
    assert (Ha' : applied id T' 0) by (unfold applied; by rewrite Hre). unfold phaseOf. rewrite Hst, <- El. cbn [MigrationPhases.phase].
    unfold Copying, standby. split_and!; auto.
  - intros u. cbn beta. apply k_persist; [done|apply undisturbed_and; [apply Copying_undisturbed|apply undisturbed_pure]|].
    intros S T [Hl _]%Hph [Hcop Hdone]. cbn [copyChange ch_last ch_final ch_cursor default]. rewrite (bool_decide_eq_false_2 _ Hne), Hl.
    erewrite next_state; [|cbn; reflexivity|by destruct (bb_done batch); rewrite ?Est]. rewrite Est. destruct (bb_done batch) eqn:Hd; cbn [MigrationPhases.phase]; [|done].
    rewrite Hdone in Hcop by done. by apply Copying_done.
Qed.

(** ** Reading the journal *)
Definition bounded (q : Z) (S : Store) : Prop := JournalOk S /\ q <= nextSeq S.
Lemma bounded_undisturbed q : undisturbed (fun S _ => bounded q S).
Proof. intros S S' T T' Hs _ [HJ Hq]. destruct (step_grows _ _ _ _ _ Hs) as [Hg _]. destruct (gr_journal _ _ _ _ _ Hg HJ) as [? ?]. split; [done|lia]. Qed.
Definition entriesOk (q : Z) (es : list JEntry) (l : list JournalEntry) (S T : Store) : Prop :=
  bounded q S /\ Forall (fun e => inJournal id S e /\ je_seq e <= q) es /\ Forall (entryOk id run sgen S q) l.
Lemma entriesOk_undisturbed q es l : undisturbed (entriesOk q es l).
Proof.
  intros S S' T T' Hs Ht (Hb & He & Hl). split_and!; [by eapply (bounded_undisturbed q S S' T T')| |]; destruct Hb as [HJ Hq]; destruct (step_grows _ _ _ _ _ Hs) as [Hg _].
  - eapply Forall_impl; [exact He|]. intros e [(j & Hj & Ej) ?]. split; [|done]. exists j. split; [by eapply gr_log|done].
  - eapply Forall_impl; [exact Hl|]. intros e. by apply entryOk_moves.
Qed.
Lemma k_loadEntry q e es l :
  tri (holds m c (entriesOk q (e :: es) l)) (loadEntry envs r e) (fun x => holds m c (entriesOk q es (l ++ [x]))).
Proof.
  destruct rec_fields as (_ & Erun & Esrc & _ & Esg & _). unfold loadEntry.
  apply triple_bind with (Q := fun o => holds m c (fun S T => entriesOk q es (l ++ [mkJournalEntry e (se_fp (envs (rc_source r)) e) o]) S T)).
  - case_bool_decide as Hop.
    + apply k_ret; [apply entriesOk_undisturbed|]. intros S T (Hb & [[? ?] He]%Forall_cons & Hl). split_and!; [done|done|].
      apply Forall_app. split; [done|]. apply Forall_singleton. split_and!; done.
    + unfold loadMutationPayload. destruct (findTable (je_table e)) as [spec|] eqn:Hf; [|apply triple_stop]. apply findTable_Some in Hf as [En _].
      rewrite Esrc, Erun, Esg, En. apply k_read; [apply entriesOk_undisturbed|intros o; apply entriesOk_undisturbed|].
      intros S T o _ (Hb & [[? ?] He]%Forall_cons & Hl) [= <-]. split_and!; [done|done|]. apply Forall_app. split; [done|]. apply Forall_singleton.
      split_and!; [done|done|]. intros _. cbn [jn_entry jn_payload]. split; [|by left]. intros row (_ & ? & _)%rowIn_Some%elem_of_tableRows. done.
  - intros o. cbn beta. apply k_ret; [apply entriesOk_undisturbed|done].
Qed.
Lemma k_loadEntries q es l : tri (holds m c (entriesOk q es l)) (forEach (loadEntry envs r) es) (fun l' => holds m c (entriesOk q [] (l ++ l'))).
Proof.
  revert l. induction es as [|e es IH]; intros l; cbn [forEach].
  - apply k_ret; [apply entriesOk_undisturbed|]. intros S T. by rewrite app_nil_r.
  - eapply triple_bind; [apply k_loadEntry|]. intros x. cbn beta. eapply triple_bind; [apply IH|]. intros xs. cbn beta.
    apply k_ret; [apply entriesOk_undisturbed|]. intros S T. by rewrite <- app_assoc.
Qed.
Lemma journalRows_ok S after through limit q :
  JournalOk S -> through <= q -> Forall (fun e => inJournal id S e /\ je_seq e <= q) (journalRows S r after through limit).
Proof.
  intros HJ Hq. destruct rec_fields as (Eid & _). unfold journalRows. apply Forall_take, Forall_forall. intros e He%elem_of_sortBy. apply list_elem_of_omap in He as ([[k seq] j] & Hj & He).
  apply elem_of_map_to_list in Hj. cbn in He. destruct (_ && _) eqn:Hc in He; [|done]. injection He as <-.
  apply andb_true_iff in Hc as [Hc Hle%Z.leb_le]. do 3 (apply andb_true_iff in Hc as [Hc _]). apply bool_decide_eq_true in Hc. rewrite Eid in Hc. subst k.
  destruct (jo_seq _ _ _ _ HJ _ _ Hj) as (_ & Es & _). split; [|lia]. exists j. by rewrite Es.
Qed.
Lemma k_readJournal after through limit :
  (forall S T, phaseOf m c S T -> JournalOk S) ->
  tri (holds m c (fun _ _ => True)) (readJournal envs r after through limit) (fun b => holds m c (fun S T => exists q, entriesOk q [] (jb_entries b) S T)).
Proof.
  intros HJ. destruct rec_fields as (Eid & Erun & Esrc & _ & Esg & _). unfold readJournal. rewrite Esrc.
  apply triple_bind with (Q := fun q => holds m c (fun S _ => bounded q S)).
  - apply k_read; [apply undisturbed_pure|intros q; apply bounded_undisturbed|]. intros S T q Hp _ Hq. split; [by eapply HJ|]. unfold captureSequence in Hq.
    rewrite Erun in Hq. unfold MigrationMirror.nextSeq. destruct (captureOf S !! run) as [cs|]; [|done]. destruct (negb _); [done|]. by injection Hq as <-.
  - intros q. cbn beta. cbv zeta. set (th := if (0 <? through) && (through <? q) then through else q). assert (Hth : th <= q) by (unfold th; destruct (_ && _) eqn:E; [apply andb_true_iff in E as [_ ?%Z.ltb_lt]; lia|done]).
    apply triple_bind with (Q := fun es => holds m c (entriesOk q es [])).
    + apply k_read; [apply bounded_undisturbed|intros es; apply entriesOk_undisturbed|]. intros S T es _ Hb [= <-]. split_and!; [done| |done].
      apply journalRows_ok; [apply Hb|done].
    + intros es. cbn beta. eapply triple_bind; [apply k_loadEntries|]. intros l. cbn beta.
      apply k_ret; [apply entriesOk_undisturbed|]. intros S T H. exists q. done.
Qed.

(** ** Replaying *)
Section Replay.
#[local] Abbreviation Replaying := (Replaying id run sgen tgen).
Hypothesis Hrep : forall S T, phaseOf m c S T -> Replaying (rc_last r) S T.
Hypothesis Hkeep : forall S T T', phaseOf m c S T -> Replaying (rc_last r) S T' -> phaseOf m c S T'.

Lemma Replaying_weaken a b S T : a <= b -> Replaying b S T -> Replaying a S T.
Proof. intros Hle (? & ? & k & ? & ?). split_and!; [done..|]. exists k. split; [lia|done]. Qed.
Definition toReplay (entries : list JournalEntry) (done : Z) (S T : Store) : Prop := (exists q, entriesOk q [] entries S T) /\ Replaying done S T.
Lemma toReplay_undisturbed entries done : undisturbed (toReplay entries done).
Proof. apply undisturbed_and; [apply undisturbed_exists; intros q; apply entriesOk_undisturbed|apply Replaying_undisturbed]. Qed.
Lemma k_applyJournal e entries done :
  rc_last r <= done -> je_seq (jn_entry e) = done + 1 ->
  tri (holds m c (toReplay (e :: entries) done)) (applyJournal envs r e) (fun _ => holds m c (toReplay entries (je_seq (jn_entry e)))).
Proof.
  intros Hd Hseq. destruct rec_fields as (Eid & Erun & _ & Etgt & _ & Etg). unfold applyJournal. rewrite Etgt.
  apply k_target; [apply toReplay_undisturbed|intros b; apply toReplay_undisturbed|].
  intros S T b T' Hp [(q & Hb & Hes & [He Hl]%Forall_cons) ([Hw Hg] & HJ & k & Hk & Ha & Hsy)] H.
  destruct (replay_step id run sgen tgen _ r e S T b T' k q Eid Erun Etg HJ Hg Ha Hsy ltac:(lia) He H) as (k' & Hkk & Hsk & Ha' & Hsy' & Hg' & Hf & Hn).
  assert (Hr' : Replaying (je_seq (jn_entry e)) S T').
  { split_and!; [|done|exists k'; split_and!; [done|apply Hn; lia|done|done]]. split; [unfold MigrationMirror.writable; by rewrite Hf|done]. }
  split; [eapply Hkeep; [done|]; eapply Replaying_weaken; [|done]; lia|]. split; [|done]. by exists q.
Qed.
Definition lastSeqOf (d : Z) (entries : list JournalEntry) : Z := match last entries with Some e => je_seq (jn_entry e) | None => d end.
Lemma lastSeqOf_cons d e entries : lastSeqOf d (e :: entries) = lastSeqOf (je_seq (jn_entry e)) entries.
Proof. unfold lastSeqOf. rewrite last_cons. by destruct (last entries). Qed.
Lemma k_applyEntries entries expected :
  rc_last r < expected ->
  tri (holds m c (toReplay entries (expected - 1))) (applyEntries shards r expected entries) (fun _ => holds m c (Replaying (lastSeqOf (expected - 1) entries))).
Proof.
  revert expected. induction entries as [|e entries IH]; intros expected Hexp; cbn [applyEntries].
  - apply k_ret; [apply toReplay_undisturbed|]. intros S T [_ ?]. done.
  - cbv zeta. eapply triple_bind; [by apply triple_failWhen, holds_stable, toReplay_undisturbed|]. intros u. cbn beta. apply triple_pull.
    intros [[[_ Hseq%negb_false_iff%Z.eqb_eq]%orb_false_iff _]%orb_false_iff _]%orb_false_iff.
    eapply triple_bind; [apply k_applyJournal; lia|]. intros b. cbn beta. rewrite lastSeqOf_cons, Hseq.
    pose proof (IH (expected + 1) ltac:(lia)) as H. rewrite Z.add_simpl_r in H. exact H.
Qed.
Lemma k_readAndApplyJournal through :
  tri (holds m c (fun _ _ => True)) (readAndApplyJournal shards limits r through) (fun x => holds m c (Replaying x.2)).
Proof.
  eapply triple_bind; [apply k_readJournal; intros S T (_ & ? & _)%Hrep; done|]. intros batch. cbn beta.
  assert (Hu : undisturbed (fun S T => exists q, entriesOk q [] (jb_entries batch) S T)) by (apply undisturbed_exists; intros q; apply entriesOk_undisturbed).
  eapply triple_bind; [by apply still_failWhen|]. intros u. cbn beta. eapply triple_bind; [apply k_inv; [done|]; eapply triple_pre; [|apply k_applyEntries; lia]|].
  { intros w. apply holds_mono. intros S T [Hq Hp]. split; [done|]. eapply Replaying_weaken; [|by apply Hrep]. lia. }
  intros u'. cbn beta. rewrite Z.add_simpl_r. eapply triple_bind; [apply still_failWhen, Replaying_undisturbed|]. intros u2. cbn beta.
  apply k_ret; [apply Replaying_undisturbed|done].
Qed.
End Replay.

(** ** The steps of the engine *)
#[local] Abbreviation idle := (fun _ _ : Store => True).
Lemma idle_undisturbed : undisturbed idle.
Proof. apply undisturbed_pure. Qed.
#[local] Hint Resolve idle_undisturbed : core.
Lemma rec_at : rc_state r = mg_state m /\ rc_last r = default 0 (mg_last m) /\ rc_final r = default 0 (mg_final m).
Proof. destruct Hr as (_ & _ & _ & _ & _ & _ & ? & _ & _ & _ & ? & ? & _). done. Qed.
(** The replay in the states that replay. *)
Definition replays : Prop := mg_state m = PhysicalStateCatchingUp \/ mg_state m = PhysicalStateValidatingOnline \/ mg_state m = PhysicalStateSourceFenced.
Lemma k_replay through : replays -> tri (holds m c idle) (readAndApplyJournal shards limits r through) (fun x => holds m c (Replaying id run sgen tgen x.2)).
Proof.
  intros Hst. destruct rec_at as (_ & El & Ef). apply k_readAndApplyJournal; unfold phaseOf; rewrite El; destruct Hst as [Hst|[Hst|Hst]]; rewrite Hst; cbn [MigrationPhases.phase]; try done.
  - by intros S T [? _].
  - intros S T T' (_ & ? & ?) ?. done.
Qed.
Lemma k_persistReplay next lastSeq rows :
  next <> noState ->
  (forall S T, phaseOf m c S T -> Replaying id run sgen tgen lastSeq S T -> phase next lastSeq (rc_final r) c S T) ->
  tri (holds m c (Replaying id run sgen tgen lastSeq)) (Persist control (replayChange r next lastSeq rows)) (fun _ _ => True).
Proof.
  intros Hne H. apply k_persist; [apply Hr|apply Replaying_undisturbed|]. intros S T Hp Hrep. cbn [replayChange ch_last ch_final ch_cursor default].
  rewrite bool_decide_eq_true_2 by done. erewrite next_state; [|cbn; reflexivity|done]. by apply H.
Qed.
Lemma fenced_mirrors lastSeq S T :
  Fenced id run sgen tgen (rc_last r) (rc_final r) S T -> Replaying id run sgen tgen lastSeq S T -> lastSeq = rc_final r -> ~ writable T /\ Closed run sgen tgen S T.
Proof.
  intros (_ & Hw & Hn) ([Hwt _] & HJ & k & Hk & _ & Hsy) ->. split; [done|]. split; [done|]. intros _ t i. eapply all_synced; [done| |done]. lia.
Qed.
Lemma k_replayOneBatch : mg_state m = PhysicalStateCatchingUp \/ mg_state m = PhysicalStateSourceFenced -> tri (holds m c idle) (replayOneBatch control shards limits r) (fun _ _ => True).
Proof.
  intros Hst. destruct rec_at as (Es & El & Ef). unfold replayOneBatch. cbv zeta. eapply triple_bind; [apply k_replay; unfold replays; tauto|].
  intros [batch lastSeq]. cbn beta. cbn [snd]. rewrite Es.
  destruct Hst as [Hst|Hst]; rewrite Hst; cbn [bool_decide andb]; rewrite ?(bool_decide_eq_true_2 (_ = _)) by done; cbn [andb].
  - rewrite (bool_decide_eq_false_2 (PhysicalStateCatchingUp = PhysicalStateSourceFenced)) by done. cbn [andb].
    apply k_persistReplay; [by destruct (_ =? _)|]. intros S T _ H. by destruct (_ =? _).
  - rewrite (bool_decide_eq_false_2 (PhysicalStateSourceFenced = PhysicalStateCatchingUp)) by done. cbn [andb].
    apply k_persistReplay; [by destruct (_ =? _)|]. intros S T Hp H. unfold phaseOf in Hp. rewrite Hst, <- El, <- Ef in Hp. cbn [MigrationPhases.phase] in Hp.
    destruct (Z.eqb_spec lastSeq (rc_final r)) as [E|E]; cbn [MigrationPhases.phase].
    + by eapply fenced_mirrors.
    + destruct Hp as (_ & ? & ?). done.
Qed.
Lemma still_reads {A} (f : Store -> res MErr A) : still (onStore (rc_source r) (reads f)) /\ still (onStore (rc_target r) (reads f)).
Proof. destruct rec_fields as (_ & _ & Esrc & Etgt & _). split; apply still_read; auto. Qed.
Lemma still_stagePages maxRows pgs total bytes : still (stagePages envs r maxRows pgs total bytes).
Proof.
  destruct rec_fields as (_ & _ & _ & Etgt & _). revert total bytes. induction pgs as [|page pgs IH]; intros total bytes; cbn [stagePages]; [apply still_ret|].
  apply still_bind; [apply still_ofRes|intros b]. cbv zeta. apply still_bind; [apply still_failWhen|intros ?]. apply still_bind; [|intros ?; apply IH].
  rewrite Etgt. apply still_target, respects_bind; [apply _|apply respects_modify; intros d; apply staging_quiet|intros ?; apply budget_quiet].
Qed.
Lemma still_captureOutbox maxRows : still (captureOutbox envs r maxRows).
Proof.
  destruct rec_fields as (_ & Erun & _ & Etgt & _). unfold captureOutbox. apply still_bind; [apply still_failWhen|intros ?]. apply still_bind; [|intros ?].
  { rewrite Etgt. apply still_target, respects_bind; [apply _|by apply respects_modify|intros ?; apply budget_quiet]. }
  apply still_bind; [apply still_reads|intros rows]. apply still_bind; [apply still_stagePages|intros total]. rewrite Etgt. by apply still_target, promoteTx_quiet.
Qed.
Lemma still_validateTables rows tables final specs rem res : still (validateTables envs (mkValidationRequest r rows tables final) specs rem res).
Proof.
  revert rem res. induction specs as [|spec specs IH]; intros rem res; cbn [validateTables]; [apply still_ret|]. cbv zeta. cbn [vq_migration].
  case_match; [apply still_ret|]. apply still_bind; [apply still_reads|intros s']. apply still_bind; [apply still_reads|intros t'].
  case_match; [apply still_ret|apply IH].
Qed.
Lemma still_validateResult final : still (validateResult shards limits r final).
Proof.
  apply still_bind; [apply still_captureOutbox|intros ?]. apply still_bind; [|intros ?; apply still_bind; [apply still_failWhen|intros ?; apply still_ret]].
  cbn [Validate NewDefaultShards]. unfold boundedValidate. cbv zeta. cbn [vq_migration]. apply still_bind; [apply still_failWhen|intros ?].
  apply still_bind; [apply still_reads|intros vs]. apply still_bind; [apply still_reads|intros vt]. apply still_validateTables.
Qed.
(** ValidatingOnline. *)
Lemma k_beginDrain X ch :
  ch_id ch = id -> ch_cursor ch = CursorEmpty -> undisturbed X ->
  (forall S T, phaseOf m c S T -> X S T -> phase (nextOf m ch) (default (rc_last r) (ch_last ch)) (default (rc_final r) (ch_final ch)) c S T) ->
  tri (holds m c X) (BeginDrain control ch) (fun _ _ => True).
Proof.
  intros Hid Hcur HX H. eapply triple_bind; [by apply still_failWhen|]. intros u. cbn beta. apply k_control; [done|]. intros d a d' Ht Hd Hc.
  rewrite <- Hid in Hd. destruct (beginDrainTx_effect _ _ _ _ _ _ Ht Hcur Hd) as (m' & Hm' & Hch). rewrite Hid, Hc in *. exists m'.
  split_and!; [done|by eapply changed_identity|]. intros S T Hp HXX. eapply changed_phase; [done|]. rewrite bool_decide_eq_true_2 by done. by apply H.
Qed.
Lemma k_validatingOnline : mg_state m = PhysicalStateValidatingOnline -> tri (holds m c idle) (advanceRecord control shards limits r) (fun _ _ => True).
Proof.
  intros Hst. destruct rec_at as (Es & El & Ef). unfold advanceRecord. rewrite Es, Hst.
  eapply triple_bind; [apply k_replay; unfold replays; tauto|]. intros [batch lastSeq]. cbn beta. cbn [snd]. destruct (_ || _).
  - eapply triple_bind; [apply still_failWhen, Replaying_undisturbed|]. intros u. cbn beta. apply k_persistReplay; [done|]. intros S T _ H. done.
  - eapply triple_bind; [apply still_validateResult, Replaying_undisturbed|]. intros result. cbn beta.
    eapply triple_bind; [by apply triple_ofRes, holds_stable, Replaying_undisturbed|]. intros ch. cbn beta. apply triple_pull.
    intros (Hid & Hn & Hc & Hl & Hf)%makeTransition_fields. apply k_beginDrain; [rewrite Hid; apply Hr|by rewrite Hc|apply Replaying_undisturbed|].
    intros S T Hp _. rewrite (next_state ch _ Hn), Hl by done. unfold phaseOf in Hp. rewrite Hst, <- El in Hp. exact Hp.
Qed.
(** CaptureEnabled. *)
Lemma capture_prepared S T u S' :
  (_ ← one ErrShardOperation (installCapture r); _ ← one ErrShardOperation (resetCapture r); one ErrShardOperation (startCapture r)) S = Ok (u, S') ->
  Prepared id run sgen tgen S T -> Prepared id run sgen tgen S' T /\ JournalOk S'.
Proof.
  destruct rec_fields as (Eid & Erun & _ & _ & Esg & _). intros H (Hst & Ha & Hcl & [Hu|HJ]).
  - apply sbind_Ok in H as (? & S1 & H1%one_Ok & H). apply sbind_Ok in H as (? & S2 & H2%one_Ok & H3%one_Ok).
    apply (installed id run sgen) in H1 as [Hu1 E1]; [|done..]. apply (resetted id run sgen) in H2 as [Hu2 E2]; [|done..]. apply (started id run sgen) in H3 as [HJ E3]; [|done..].
    split; [|done]. split_and!; [done|done| |by right]. intros t i Ht. rewrite E3, E2, E1. by apply Hcl.
  - destruct u. apply (captured_again id run sgen) in H as Hg; [|done|done]. destruct (gr_journal _ _ _ _ _ Hg HJ) as [HJ' _]. split; [|done].
    split_and!; [done|done| |by right]. intros t i Ht. destruct (Hcl t i Ht) as [?|?]; [by left|right; by eapply snapshot_stays].
Qed.
Lemma JournalOk_undisturbed : undisturbed (fun S _ => JournalOk S).
Proof. intros S S' T T' Hs _ HJ. destruct (step_grows _ _ _ _ _ Hs) as [Hg _]. by apply Hg. Qed.
Lemma beyond_empty t i : capturedTable t = true -> beyond CursorEmpty t i = true.
Proof.
  intros [_ (spec & Hf)]%captured_spec. apply find_some in Hf as [Hin%list_elem_of_In Ht%bool_decide_eq_true]. unfold beyond.
  destruct (list_find_elem_of (fun s => ts_name s = t) _ _ Hin Ht) as [[k x] ->]. unfold ahead. cbn. destruct k; done.
Qed.
Lemma k_captureEnabled : mg_state m = PhysicalStateCaptureEnabled -> tri (holds m c idle) (advanceRecord control shards limits r) (fun _ _ => True).
Proof.
  intros Hst. destruct rec_at as (Es & _), rec_fields as (_ & _ & Esrc & _). unfold advanceRecord. rewrite Es, Hst.
  assert (Hph : forall S T, phaseOf m c S T <-> c = CursorEmpty /\ Prepared id run sgen tgen S T) by (unfold phaseOf; rewrite Hst; done).
  apply triple_bind with (Q := fun seq => holds m c (fun S _ => JournalOk S /\ seq = 0)).
  - cbn [EnableCapture NewDefaultShards]. unfold enableCapture. rewrite Esrc. apply triple_bind with (Q := fun _ => holds m c (fun S _ => JournalOk S)).
    + apply k_source; [done|intros ?; apply JournalOk_undisturbed|]. intros S T u S' [Hc Hp]%Hph _ H. rewrite Hph.
      destruct (capture_prepared S T u S' H Hp) as [? ?]. done.
    + intros ?. cbn beta. apply k_ret; [apply JournalOk_undisturbed|done].
  - intros seq. cbn beta. eapply triple_bind; [apply still_failWhen, undisturbed_and; [apply JournalOk_undisturbed|apply undisturbed_pure]|]. intros u. cbn beta.
    apply k_transition; [done|apply undisturbed_and; [apply JournalOk_undisturbed|apply undisturbed_pure]|done|].
    intros S T [-> (Hst' & Ha & Hcl & _)]%Hph [HJ ->]. cbn. split; [done|]. split_and!; [done|done|done|]. intros t i Ht. right. right.
    split; [by apply beyond_empty|by apply Hcl].
Qed.
(** Draining. *)
Lemma k_draining : mg_state m = PhysicalStateDraining -> tri (holds m c idle) (advanceRecord control shards limits r) (fun _ _ => True).
Proof.
  intros Hst. destruct rec_at as (Es & El & Ef), rec_fields as (_ & Erun & Esrc & _). unfold advanceRecord. rewrite Es, Hst.
  assert (Hph : forall S T, phaseOf m c S T <-> Replaying id run sgen tgen (rc_last r) S T) by (unfold phaseOf; rewrite Hst, El; done).
  assert (Hu : forall seq, undisturbed (fun S _ => ~ writable S /\ nextSeq S = seq)).
  { intros seq S S' T T' Hs _ [Hw Hn]. destruct (source_fenced_step _ _ _ _ _ Hw Hs) as (Hw' & Hn' & _). split; [done|congruence]. }
  apply triple_bind with (Q := fun seq => holds m c (fun S _ => ~ writable S /\ nextSeq S = seq)).
  - cbn [FenceSource NewDefaultShards]. unfold fenceSource. rewrite Esrc, Erun. apply k_source; [done|done|].
    intros S T seq S' Hp%Hph _ (? & S1 & H1%one_Ok & [H2 <-]%reads_Ok)%sbind_Ok. apply (fence_grows id run sgen) in H1 as (Hg & _ & Hw). rewrite Hph.
    split; [by eapply grows_Replaying|]. split; [by apply Hw|]. unfold MigrationMirror.nextSeq. destruct (captureOf S1 !! run) as [cs|]; [|done].
    destruct (negb _) in H2; [done|]. by injection H2.
  - intros seq. cbn beta. eapply triple_bind; [by apply still_failWhen|]. intros u. cbn beta. apply k_transition; [done|done|done|].
    intros S T Hp%Hph [Hw Hn]. done.
Qed.
(** The end. *)
Lemma enabled_writable S u T T' : rc_run r = run -> enableTargetTx r T = Ok (u, T') -> Closed run sgen tgen S T -> Closed run sgen tgen S T'.
Proof.
  intros Erun H [Hw _]. split; [done|]. intros Hn. exfalso. apply Hn. unfold enableTargetTx in H. apply sbind_Ok in H as (? & ? & [<- <-]%shard_Ok & H).
  destruct (evidenceOf T !! _) as [e|]; [|by apply raise_Ok in H]. apply sbind_Ok in H as (? & ? & [_ <-]%guardS_Ok & H).
  apply sbind_Ok in H as (? & T1 & _ & H%one_Ok). rewrite Erun in H. apply updFence_Some in H as (f & _ & _ & _ & Hf). exists (mkFence (rc_tgen r) "active" true).
  by rewrite Hf, lookup_insert_eq.
Qed.
Definition settledState (s : PhysicalState) : Prop := forall last final c S T, phase s last final c S T.
Lemma k_toSettled X next patch :
  next <> noState -> settledState next -> ch_cursor patch = CursorEmpty -> undisturbed X -> tri (holds m c X) (transition control r next patch) (fun _ _ => True).
Proof. intros Hne Hs Hc HX. apply k_transition; [done|done|done|]. intros. apply Hs. Qed.
Lemma k_switch : tri (holds m c idle) (ch ← ofRes (makeTransition r PhysicalStateSwitchingAssignment emptyChange); SwitchAssignment control ch) (fun _ _ => True).
Proof.
  eapply triple_bind; [by apply triple_ofRes, holds_stable|]. intros ch. cbn beta. apply triple_pull. intros (Hid & _)%makeTransition_fields.
  apply k_control; [done|]. intros d a d' (m0 & (m' & Hm0 & Hd' & Hi & Hs & _) & _)%switchTx_step Hd Hc. rewrite Hid, (proj1 Hr) in *.
  rewrite Hd in Hm0. injection Hm0 as <-. exists m'. split; [by rewrite Hd', lookup_insert_eq|]. split.
  - destruct Hi as (_ & E1 & E2 & E3 & E4 & E5 & _). unfold identity in *. by rewrite E1, E2, E3, E4, E5.
  - intros S T _ _. unfold phaseOf. by rewrite Hs.
Qed.
Lemma k_advanceRecord : tri (holds m c idle) (advanceRecord control shards limits r) (fun _ _ => True).
Proof.
  destruct rec_at as (Es & El & Ef), rec_fields as (_ & Erun & _ & Etgt & _). destruct (mg_state m) eqn:Hst.
  - apply k_absurd; [done|]. intros S T. unfold phaseOf. rewrite Hst. by intros [].
  - apply k_absurd; [done|]. intros S T. unfold phaseOf. rewrite Hst. by intros [].
  - by apply k_captureEnabled.
  - unfold advanceRecord. rewrite Es. by apply k_copyOneBatch.
  - unfold advanceRecord. rewrite Es. apply k_replayOneBatch. auto.
  - by apply k_validatingOnline.
  - by apply k_draining.
  - unfold advanceRecord. rewrite Es. apply k_replayOneBatch. auto.
  - unfold advanceRecord. rewrite Es. eapply triple_bind; [by apply still_validateResult|]. intros result. cbn beta. apply k_transition; [done|done|done|].
    intros S T Hp _. unfold phaseOf in Hp. rewrite Hst in Hp. apply Hp.
  - unfold advanceRecord. rewrite Es. apply triple_bind with (Q := fun _ => holds m c idle).
    + cbn [EnableTarget NewDefaultShards]. unfold enableTarget. rewrite Etgt. apply k_target; [done|done|]. intros S T u T' Hp _ H. split; [|done].
      unfold phaseOf in *. rewrite Hst in *. by eapply enabled_writable.
    + intros u. cbn beta. apply k_toSettled; [done|by intros ? ? ? ? ?|done..].
  - unfold advanceRecord. rewrite Es. apply k_switch.
  - unfold advanceRecord. rewrite Es. apply k_toSettled; [done|by intros ? ? ? ? ?|done..].
  - unfold advanceRecord. rewrite Es. apply triple_stop.
  - unfold advanceRecord. rewrite Es. apply triple_stop.
  - unfold advanceRecord. rewrite Es. apply triple_stop.
  - unfold advanceRecord. rewrite Es. apply triple_stop.
  - unfold advanceRecord. rewrite Es. apply triple_stop.
  - unfold advanceRecord. rewrite Es. apply triple_stop.
Qed.
End Record.

(** ** Advancing *)
Lemma validate_retained r u : validateRecord r = Ok u -> rc_reverse r = true -> rc_retained r <> rc_tgen r.
Proof.
  unfold validateRecord. intros H Hrev. rewrite Hrev in H. destruct ((rc_retained r <=? 0) || (rc_tgen r <=? rc_retained r)) eqn:Hg.
  - cbn [andb] in H. repeat (case_match; try done).
  - apply orb_false_iff in Hg as [_ Hg%Z.leb_gt]. lia.
Qed.
Lemma k_load ce : tri (fun _ => True) (LoadRecord (NewControl ce) id) (fun r w => exists m, (holds m (rc_cursor r) (fun _ _ => True) w /\ (identity m /\ recOf id m r))).
Proof.
  assert (Hs : forall m c, stable clients (holds m c (fun _ _ => True))) by (intros m c; apply holds_stable, undisturbed_pure).
  eapply triple_bind; [by apply triple_failWhen, stable_true|]. intros u. cbn beta. apply triple_pull. intros _. apply triple_atomic; [apply stable_true| |].
  - intros r. apply stable_exists. intros m. apply stable_and; [done|apply stable_pure].
  - intros w Hi _. unfold reads. destruct (loadMigration id (ctl w)) as [r|e] eqn:Hl; [|by cbn]. destruct (ce_ok ce (ctl w)); [|by cbn]. cbn [fst snd].
    assert (Ew : set_ctl w (ctl w) = w) by (by destruct w). rewrite Ew. split; [done|]. intros r' [= <-]. pose proof (loadMigration_cursor _ _ _ Hl) as Hc.
    apply loadMigration_Ok in Hl as (m & Hm & Hr). destruct Hi as (m' & c' & Hid & Hm' & Hc' & S & T & HS & HT & _). rewrite Hm in Hm'. injection Hm' as <-.
    exists m. split; [|done]. split_and!; [done|congruence|]. by exists S, T.
Qed.
Lemma k_Advance ce envs limits : tri (fun _ => True) (Advance (NewControl ce) (NewDefaultShards envs) limits id) (fun _ _ => True).
Proof.
  eapply triple_bind; [by apply triple_failWhen, stable_true|]. intros u. cbn beta. eapply triple_bind; [eapply triple_pre; [|apply k_load]; done|]. intros r. cbn beta.
  apply triple_pullE. intros m. apply triple_pull. intros [Hid Hr]. eapply triple_bind; [by apply triple_ofRes, holds_stable, undisturbed_pure|].
  intros v. cbn beta. apply triple_pull. intros Hv. eapply k_advanceRecord; [exact Hid|exact Hr|done|]. intros Hrev.
  pose proof (validate_retained r v Hv Hrev) as Hne. destruct Hid as (_ & _ & _ & _ & E), Hr as (_ & _ & _ & _ & _ & E' & _). congruence.
Qed.
(** Any sequence of calls of [Advance], between them and in them the clients;
    each may stop anywhere. *)
Inductive advanced (w : World) : World -> Prop :=
| advanced_clients w' : rtc clients w w' -> advanced w w'
| advanced_call w1 ce envs limits o w' :
    advanced w w1 -> runs clients (Advance (NewControl ce) (NewDefaultShards envs) limits id) w1 o w' -> advanced w w'.
(** The capture is next: the target is prepared, nothing is copied. *)
Definition readyToCopy (w : World) : Prop := exists m S T,
  md_migs (ctl w) !! id = Some m /\ identity m /\ mg_state m = PhysicalStateCaptureEnabled /\ cursorOf id (ctl w) = CursorEmpty /\
  stores w !! ps = Some S /\ stores w !! pt = Some T /\ Prepared id run sgen tgen S T.
Lemma ready_inv w : readyToCopy w -> copyInv w.
Proof.
  intros (m & S & T & Hm & Hid & Hst & Hc & HS & HT & Hp). exists m, CursorEmpty. split; [done|]. split_and!; [done|done|]. exists S, T.
  split_and!; [done|done|]. unfold phaseOf. by rewrite Hst.
Qed.
Lemma advanced_inv w w' : advanced w w' -> copyInv w -> copyInv w'.
Proof.
  induction 1 as [w' H|w1 ce envs limits o w' _ IH H]; intros Hi; [by eapply I_rtc; [apply copyInv_env|..]|].
  by eapply (triple_sound clients copyInv copyInv_env _ _ _ _ _ _ (k_Advance ce envs limits)); [|apply IH|].
Qed.
End Convergence.

(** C21: Whatever sequence of Advance calls moves a migration from the start of
    its capture, each stopped anywhere, while clients insert, update and delete
    the run's rows on the source: when the final catch-up is reached, and until
    the target's fence is enabled, the source has no writer and the target has
    the source's rows, in every captured table and whatever they contain except
    updated_at. *)
Theorem target_has_source_rows id run ps pt sgen tgen w w' m S T :
  ps <> pt -> readyToCopy id run ps pt sgen tgen w -> advanced id run ps pt sgen tgen w w' ->
  md_migs (ctl w') !! id = Some m -> mg_state m = PhysicalStateFinalCatchup \/ mg_state m = PhysicalStateFinalValidating ->
  stores w' !! ps = Some S -> stores w' !! pt = Some T -> ~ writable run T ->
  ~ writable run S /\ forall t i, capturedTable t = true -> mirror run sgen tgen S T t i.
Proof.
  intros Hne Hready Hadv Hm Hst HS HT Hw. apply advanced_inv in Hadv as (m' & c & _ & Hm' & _ & S' & T' & HS' & HT' & Hp); [|done|by eapply ready_inv].
  rewrite Hm in Hm'. rewrite HS in HS'. rewrite HT in HT'. injection Hm' as <-. injection HS' as <-. injection HT' as <-. unfold phaseOf in Hp.
  assert (Hc : Closed run sgen tgen S T) by (destruct Hst as [Hst|Hst]; rewrite Hst in Hp; [apply Hp|exact Hp]). destruct Hc as [Hws Hmir].
  split; [done|]. intros t i Ht. by apply (Hmir Hw).
Qed.
