(* ===== verification/MigrationScenarios.v ===== *)
(** * Physical migration: scenarios

    Two physical shards with one run on the first, migrated to the second by
    the operator's commands: the concrete histories on which the theorems of the
    migration are instantiated. *)

From S2P Require Import Prelude Transaction CrashProgram Sharding PaymentDomain PaymentDb BookingDb ShardDb ShardLogic ShardBooking CommandDb MigrationDb MigrationEngine MigrationControl MigrationLedger MigrationShards MigrationValidator MigrationCutover MigrationAdmin MigrationFences MigrationWriters MigrationOneWriter MigrationGaps.
Import Physical.

Module MigrationSample.
Definition p0 : string := "physical-shard-0".
Definition p1 : string := "physical-shard-1".
Definition senv : StoreEnv :=
  mkStoreEnv (fun m s => (m * 1000 + Z.to_N s)%N) (fun _ => true) (fun j => (7 + je_id j)%N) (fun l => N.of_nat (length l)) (fun l => N.of_nat (length l))
    (fun _ => 10) 100 true.
Definition aenv (now : Z) : AdminEnv :=
  mkAdminEnv (mkCtlEnv now (fun _ => true)) (fun _ => senv) (NewDefaultShards (fun _ => senv)) (fun _ _ => mret tt) (fun i => (i + 1)%N) now.
Definition postgres : CatShard := mkCatShard "postgres" true true "healthy" "active" 1 2 1.
Definition cdb : ControlDb :=
  mkControlDb (mkControlEnv ∅ ∅ {[ 1%N := mkAssignmentRow p0 1 "stable" None ]} {[ p0 := postgres; p1 := postgres ]} ∅) ∅ ∅ ∅ ∅ ∅ ∅ ∅ ∅ false ∅.
Definition colsOf (t : string) : gmap string JV := match findTable t with Some s => list_to_map ((fun c => (c, JNull)) <$> ts_columns s) | None => ∅ end.
Definition row (t : string) : Row := mkRow 1 1 (colsOf t).
Definition s0 : Store :=
  mkStore {[ (snapshotsTable, 11%N) := row snapshotsTable; ("booking_seat_catalog"%string, 12%N) := row "booking_seat_catalog" ]}
    {[ 1%N := mkFence 1 "active" true ]} ∅ ∅ ∅ ∅ ∅.
Definition s1 : Store := mkStore ∅ ∅ ∅ ∅ ∅ ∅ ∅.
Definition w0 : World := mkWorld (mkMigDb cdb ∅ ∅ ∅) {[ p0 := s0; p1 := s1 ]}.

(** Commands run to their end, each at a time of its own. *)
Fixpoint go (cs : list (Z * Command)) (w : World) : list (res MErr unit) * World :=
  match cs with
  | [] => ([], w)
  | (n, c) :: cs => let '(r, w') := execute (Execute (aenv n) c) w in let '(l, w2) := go cs w' in (r :: l, w2)
  end.
Definition after (cs : list (Z * Command)) : World := (go cs w0).2.
(** From the plan to the rollback window. *)
Definition migrate (id : uuid) : list (Z * Command) := (pair 1) <$>
  [CmdPlan id 1 p1; CmdAdvance "enable-capture" id; CmdAdvance "enable-capture" id; CmdAdvance "start-base-copy" id; CmdAdvance "resume-base-copy" id;
   CmdAdvance "resume-base-copy" id; CmdAdvance "resume-base-copy" id; CmdAdvance "replay-journal" id; CmdAdvance "validate-online" id;
   CmdAdvance "begin-quiesce" id; CmdAdvance "final-catchup" id; CmdCutover id; CmdCutover id; CmdCutover id; CmdCutover id].

Lemma history_trans others w w1 w2 : history others w w1 -> history others w1 w2 -> history others w w2.
Proof. intros H1 H2. revert H1. induction H2; intros H1; [done|]. eapply history_command; [by apply IHhistory|done]. Qed.
Lemma go_history others cs w : history others w (go cs w).2.
Proof.
  revert w. induction cs as [|[n c] cs IH]; intros w; cbn [go]; [constructor|].
  destruct (execute (Execute (aenv n) c) w) as [r w'] eqn:He. specialize (IH w'). destruct (go cs w') as [l w2]. cbn in IH |- *.
  eapply history_trans; [|exact IH]. pose proof (execute_runs others (Execute (aenv n) c) w) as Hr. rewrite He in Hr.
  eapply history_command; [constructor|exact Hr].
Qed.
Lemma sample_start : startWorld w0.
Proof.
  assert (Hst : forall s d, stores w0 !! s = Some d -> s = p0 /\ d = s0 \/ s = p1 /\ d = s1).
  { intros s d H. unfold w0 in H. cbn [stores] in H. apply lookup_insert_Some in H as [[<- <-]|[_ [<- <-]%lookup_singleton_Some]]; auto. }
  assert (Hf : forall s run f, writeFence w0 s run = Some f -> s = p0 /\ run = 1%N /\ f = mkFence 1 "active" true).
  { intros s run f H. unfold writeFence in H. destruct (stores w0 !! s) as [d|] eqn:Hd; [|done]. cbn in H.
    destruct (Hst s d Hd) as [[-> ->]|[-> ->]]; cbn in H; [|by rewrite lookup_empty in H]. by apply lookup_singleton_Some in H as [<- <-]. }
  split_and!.
  - done.
  - intros s [d Hd]. by destruct (Hst s d Hd) as [[-> _]|[-> _]].
  - intros run a H. unfold assignmentOf, w0, cdb in H. cbn [ctl md_base cenv runAssignments] in H. by apply lookup_singleton_Some in H as [_ <-].
  - intros s run f H He. destruct (Hf _ _ _ H) as (-> & -> & ->). split; [done|]. intros s' f' H' _. by destruct (Hf _ _ _ H') as (-> & _).
Qed.


(** *** The first migration is rolled back, a second one moves the run, the
    first is rolled back again. *)
Definition moved : list (Z * Command) := take 2 (migrate 5) ++ [(1, CmdRollback 5)] ++ migrate 6.
Definition storeOf (w : World) (s : string) : Store := default s1 (stores w !! s).
Definition noRecord : MigRecord := mkMigRecord 0 0 0 "" "" 0 0 0 0 0 0 0 noState CursorEmpty 0 0 0 0 0 0 0 false.
Definition recordOf (w : World) (id : uuid) : MigRecord := match loadMigration id (ctl w) with Ok r => r | Err _ => noRecord end.
Definition stateAfter {A} (d : Store) (t : ST A) : Store := match t d with Ok (_, d') => d' | Err _ => d end.
Lemma stale_rollback_disables_witness :
  let w := after moved in let r := recordOf w 5 in
  writeFence w p1 1%N = Some (mkFence 2 "active" true) /\
  (exists e w', execute (rollbackRecord (NewControl (ae_ctl (aenv 1))) (NewDefaultShards (fun _ => senv)) r) w = (Err e, w') /\
     writeFence w' p1 1%N = Some (mkFence 2 "disabled" false)) /\
  (* no writer is left, although the second migration is in its rollback window *)
  writeFence (after (moved ++ [(1, CmdRollback 5)])) p1 1%N = Some (mkFence 2 "disabled" false) /\
  writeFence (after (moved ++ [(1, CmdRollback 5)])) p0 1%N = Some (mkFence 1 "quiescing" false) /\
  mg_state <$> md_migs (ctl (after (moved ++ [(1, CmdRollback 5)]))) !! 6%N = Some PhysicalStateRollbackWindow.
Proof.
  intros w r. split; [vm_compute; reflexivity|]. split; [|split_and!; vm_compute; reflexivity].
  pose (d := storeOf w p1).
  exact (stale_rollback_disables (NewControl (ae_ctl (aenv 1))) (fun _ => senv) r w d (stateAfter d (disableTargetTx r))
    ltac:(vm_compute; reflexivity) ltac:(vm_compute; reflexivity) ltac:(vm_compute; discriminate) ltac:(vm_compute; reflexivity)
    ltac:(vm_compute; discriminate) ltac:(vm_compute; reflexivity)).
Defined.

(** *** A completed migration has no reverse. *)
Definition completion : Change := mkChange 5 PhysicalStateRollbackWindow PhysicalStateCompleted CursorEmpty CursorEmpty 0 None None None 0 None 0 None 0.
Definition completed (d : MigDb) : MigDb := match completeTx (mkCtlEnv 400 (fun _ => true)) completion d with Ok (_, d') => d' | Err _ => d end.
Lemma completed_has_no_reverse_witness :
  let d := ctl (after (migrate 5)) in
  mg_state <$> md_migs (completed d) !! 5%N = Some PhysicalStateCompleted /\ forall x, createReverseTx (mkReversePlan 5 6 3 0) (completed d) <> Ok x.
Proof.
  intros d. split; [vm_compute; reflexivity|]. intros x.
  assert (Hc : exists r', completeTx (mkCtlEnv 400 (fun _ => true)) completion d = Ok (r', completed d)) by (eexists; vm_compute; reflexivity).
  destruct Hc as (r' & Hc). exact (completed_has_no_reverse _ completion d r' (completed d) (mkReversePlan 5 6 3 0) x Hc eq_refl).
Defined.

(** *** A rolled-back target is refused. *)
Definition rolledBack : World := after (migrate 5 ++ [(1, CmdRollback 5)]).
Definition laterRecord : MigRecord := mkMigRecord 6 0 1 p0 p1 3 4 0 1 2 1 2 PhysicalStatePreparingTarget CursorEmpty 0 0 0 0 0 0 0 false.
Lemma rolled_back_target_is_refused_witness :
  let w := after (migrate 5) in let r := recordOf w 5 in
  let w' := set_store w p1 (stateAfter (storeOf w p1) (disableTargetTx r)) in
  execute (prepareTarget (fun _ => senv) laterRecord) w' = (Err ErrCheckpointConflict, w').
Proof.
  intros w r w'.
  exact (rolled_back_target_is_refused (fun _ => senv) r laterRecord (storeOf w p1) (stateAfter (storeOf w p1) (disableTargetTx r)) w'
    ltac:(vm_compute; reflexivity) ltac:(vm_compute; reflexivity) ltac:(vm_compute; reflexivity) eq_refl ltac:(vm_compute; reflexivity)
    ltac:(vm_compute; reflexivity)).
Defined.

(** *** A retained source with a payment. *)
Definition paidStore : Store :=
  mkStore {[ (snapshotsTable, 11%N) := row snapshotsTable; ("payment_command_receipts"%string, 13%N) := row "payment_command_receipts" ]}
    {[ 1%N := mkFence 1 "retained" false ]} ∅ ∅ ∅ ∅ ∅.
Definition cleanRecord : MigRecord := mkMigRecord 5 0 1 p0 p1 1 2 0 1 2 1 2 PhysicalStateCompleted CursorEmpty 0 0 0 0 0 0 0 false.
Lemma cleanup_refuses_payments_witness : forall x, cleanupTx senv cleanRecord false paidStore <> Ok x.
Proof.
  intros x. exact (cleanup_refuses_payments senv cleanRecord false paidStore "payment_command_receipts" 13%N (row "payment_command_receipts") x
    ltac:(by apply (bool_decide_unpack _); vm_compute) ltac:(vm_compute; reflexivity) ltac:(vm_compute; reflexivity) ltac:(vm_compute; reflexivity)).
Defined.
End MigrationSample.
