(* ===== verification/MigrationCopySample.v ===== *)
(** * Physical migration: a copy while clients write

    A migration of the sample run: the seat catalog has been copied when a
    client adds a seat to it; the new seat reaches the target through the
    journal. *)

From S2P Require Import Prelude Transaction CrashProgram Sharding PaymentDomain PaymentDb BookingDb ShardDb ShardLogic ShardBooking CommandDb MigrationDb MigrationEngine MigrationControl MigrationLedger MigrationShards MigrationValidator MigrationCutover MigrationAdmin MigrationFences MigrationWriters MigrationGaps MigrationMirror MigrationReplay MigrationPhases MigrationConvergence MigrationScenarios.
Import Physical MigrationSample.

Module SampleCopy.
Definition ctlEnv : CtlEnv := mkCtlEnv 1 (fun _ => true).
Definition sampleLimits : Limits := adminLimits.
Definition advanceOnce : World -> World := fun w => (execute (Advance (NewControl ctlEnv) (NewDefaultShards (fun _ => senv)) sampleLimits 5%N) w).2.
Definition prepared : World := after (take 3 (migrate 5)).
Definition catalogCopied : World := Nat.iter 3 advanceOnce prepared.
Definition catalog : string := "booking_seat_catalog".
Definition withSeat (w : World) : World :=
  match findTable catalog, stores w !! p0 with
  | Some spec, Some d => match upsertRow senv spec 10%N (row catalog) d with Some d' => set_store w p0 d' | None => w end
  | _, _ => w
  end.
Definition caughtUp : World := Nat.iter 5 advanceOnce (withSeat catalogCopied).

Definition storeAt (w : World) (s : string) : Store := default s1 (stores w !! s).
Definition ledgerRow (w : World) : MigRow := default (plannedRow None 0 "" "" 0 0 false) (md_migs (ctl w) !! 5%N).
Definition others : World -> World -> Prop := clients 5 1 p0 p1 1 2.

Lemma prepared_rows : rowsOf (storeAt prepared p1) = {[ (snapshotsTable, 11%N) := mkRow 1 2 (colsOf snapshotsTable) ]}.
Proof. apply (bool_decide_unpack _). vm_compute. exact I. Qed.
(** A shard whose fence is not enabled has no writer. *)
Lemma standby_unwritable w s g st : fenceOf (storeAt w s) !! 1%N = Some (mkFence g st false) -> ~ writable 1 (storeAt w s).
Proof. intros H (f & Hf & He). rewrite H in Hf. by injection Hf as <-. Qed.
Lemma sample_ready : readyToCopy 5 1 p0 p1 1 2 prepared.
Proof.
  exists (ledgerRow prepared), (storeAt prepared p0), (storeAt prepared p1). split; [vm_compute; reflexivity|].
  split; [unfold identity; split_and!; vm_compute; reflexivity|]. do 4 (split; [vm_compute; reflexivity|]). split; [|split; [|split]].
  - split; [apply (standby_unwritable _ _ 2 "standby"); vm_compute; reflexivity|]. intros i x. rewrite prepared_rows. intros [_ <-]%lookup_singleton_Some _. done.
  - intros n. replace (receiptsOf (storeAt prepared p1)) with (∅ : gmap (uuid * uuid) Receipt) by (vm_compute; reflexivity).
    split; [intros (e & a & He & _); by rewrite lookup_empty in He|lia].
  - intros t i _. unfold tgtRow, rowIn. rewrite prepared_rows. destruct (decide ((t, i) = (snapshotsTable, 11%N))) as [[= -> ->]|Hne].
    + right. split; [done|]. replace (srcRow 1 1 _ _ _) with (Some (row snapshotsTable)) by (vm_compute; reflexivity). done.
    + left. by rewrite lookup_singleton_ne.
  - left. split.
    + intros seq. replace (journalOf (storeAt prepared p0)) with (∅ : gmap (uuid * Z) JRow) by (vm_compute; reflexivity). apply lookup_empty.
    + intros x. replace (captureOf (storeAt prepared p0)) with (∅ : gmap uuid CaptureState) by (vm_compute; reflexivity). by rewrite lookup_empty.
Qed.
Lemma sample_client : others catalogCopied (withSeat catalogCopied).
Proof.
  split; [vm_compute; reflexivity|vm_compute; reflexivity| |].
  - intros d Hd. exists (storeAt (withSeat catalogCopied) p0). split; [vm_compute; reflexivity|right].
    assert (d = storeAt catalogCopied p0) as -> by (unfold storeAt; by rewrite Hd). split.
    + exists (mkFence 1 "active" true). split; vm_compute; reflexivity.
    + pose (spec := default (mkSpec "" []) (findTable catalog)). apply (st_upsert 1 1 _ _ senv spec 10%N (row catalog)); try (vm_compute; reflexivity).
      intros old. replace (rowsOf _ !! _) with (@None Row) by (vm_compute; reflexivity). done.
  - intros d Hd. exists d. split; [|by left]. rewrite <- Hd. vm_compute. reflexivity.
Qed.
Lemma advance_advanced n w w1 : advanced 5 1 p0 p1 1 2 w w1 -> advanced 5 1 p0 p1 1 2 w (Nat.iter n advanceOnce w1).
Proof. intros H. induction n as [|n IH]; [done|]. eapply advanced_call; [exact IH|]. apply execute_runs. Qed.
Lemma advanced_then w w1 w2 : advanced 5 1 p0 p1 1 2 w w1 -> others w1 w2 -> advanced 5 1 p0 p1 1 2 w w2.
Proof.
  intros H Ho. eapply (advanced_call _ _ _ _ _ _ w w1 ctlEnv (fun _ => senv) sampleLimits None); [exact H|]. apply runs_crash. by apply rtc_once.
Qed.

(** The seat that was added behind the copy is on the target. *)
Lemma target_has_source_rows_witness :
  mirror 1 1 2 (storeAt caughtUp p0) (storeAt caughtUp p1) catalog 10%N /\ tgtRow 1 2 (storeAt caughtUp p1) catalog 10%N <> None /\
  tgtRow 1 2 (storeAt catalogCopied p1) catalog 10%N = None.
Proof.
  split; [|split; [|vm_compute; reflexivity]].
  2: { intros H. assert (Hb : bool_decide (is_Some (tgtRow 1 2 (storeAt caughtUp p1) catalog 10%N)) = true) by (vm_compute; reflexivity). by rewrite H in Hb. }
  refine (proj2 (target_has_source_rows 5 1 p0 p1 1 2 prepared caughtUp (ledgerRow caughtUp) (storeAt caughtUp p0) (storeAt caughtUp p1) _ sample_ready _ _ _ _ _ _) catalog 10%N _).
  - discriminate.
  - apply advance_advanced. eapply advanced_then; [|exact sample_client]. apply advance_advanced. by apply advanced_clients.
  - vm_compute. reflexivity.
  - left. vm_compute. reflexivity.
  - vm_compute. reflexivity.
  - vm_compute. reflexivity.
  - apply (standby_unwritable _ _ 2 "standby"). vm_compute. reflexivity.
  - vm_compute. reflexivity.
Defined.
End SampleCopy.
