(* ===== verification/MigrationBookings.v ===== *)
(** * Physical migration and the booking commands

    The switch of a run's assignment against the control tables the booking
    saga leaves: it asks for a directory entry of every live command, which
    only create commands have. *)

From S2P Require Import Prelude Transaction SegmentMask BookingDomain Sharding PaymentDomain PaymentDb PaymentClaims PaymentFinalize PaymentControl PaymentWorker PaymentLogic PaymentSafety PaymentHistory BookingDb ShardDb ShardBooking ShardPayment ShardExpiry ShardLogic ShardDurable ShardInvariant ShardCalls ShardHistory ShardProperties ShardReplay ShardIssuance ShardScenarios ShardReceipts CommandDb CommandControl PhysicalRouter CommandReconcile CommandLogic CommandSaga CommandQuota CommandProperties CommandScenarios.
From S2P Require Import CrashProgram MigrationDb MigrationEngine MigrationControl MigrationLedger.

Lemma switchTx_agrees env ch d r' d' :
  switchTx env ch d = Ok (r', d') -> exists m, md_migs d !! ch_id ch = Some m /\ directoryMismatch (mg_run m) (mg_source m) (mg_sgen m) (md_base d) = false.
Proof.
  unfold switchTx. intros (r & ? & [(m & Hm & Hr)%loadMigration_Ok <-]%reads_Ok & H)%sbind_Ok.
  apply sbind_Ok in H as (? & ? & [_ <-]%guardS_Ok & H). apply sbind_Ok in H as (? & ? & [<- <-]%shard_Ok & H).
  apply sbind_Ok in H as (? & ? & [_ <-]%guardS_Ok & H). apply sbind_Ok in H as (? & ? & [Hd <-]%guardS_Ok & _).
  exists m. split; [done|]. destruct Hr as (_ & <- & <- & _ & <- & _). exact Hd.
Qed.

Section Bookings.
Context {hashing : Hashing} {C : Type}.
Context (claim : option (IssueTicketsCommand -> list uuid -> list string -> C -> res ShardErr unit * C)).
Context (o : Options) (reg : Registry).

(** C22: Whatever the booking saga did, while a run has a confirmation or a
    cancellation command that has neither failed nor expired, finalized ones
    included, the assignment of the run is never switched: the query for
    directory mismatches counts the command, since directory entries name the
    create command of their reservation only. *)
Theorem lifecycle_command_blocks_cutover w0 w k row env ch d m x :
  sagaStart w0 -> sagaRun claim o reg w0 w -> commands (sw_ctl w) !! k = Some row -> bc_op row <> OperationCreateReservation ->
  liveCommand row = true -> md_base d = sw_ctl w -> md_migs d !! ch_id ch = Some m -> mg_run m = bc_run row -> switchTx env ch d <> Ok x.
Proof.
  intros Hs Hrun Hrow Hop Hlive Hbase Hm Hmr Hx. destruct x as [r' d']. apply switchTx_agrees in Hx as (m' & Hm' & Hmis).
  rewrite Hm in Hm'. injection Hm' as <-. unfold directoryMismatch in Hmis. rewrite Hbase, Hmr in Hmis.
  apply orb_false_iff in Hmis as [[[[_ Hc]%orb_false_iff _]%orb_false_iff _]%orb_false_iff _].
  pose proof (proj1 (existsRow_false _ _) Hc k row Hrow) as Hk. cbn beta in Hk. rewrite bool_decide_eq_true_2, Hlive in Hk by done. cbn [andb] in Hk.
  apply negb_false_iff in Hk. destruct (dirs (sw_ctl w) !! bc_reservation row) as [e|] eqn:He; [|done]. apply bool_decide_eq_true in Hk.
  assert (Hi : SagaInv w) by (eapply sagaRun_inv, Hrun; by apply start_inv). destruct (si_dirs w Hi _ e He) as (k' & row' & Hk' & Hr' & Hop' & _). congruence.
Qed.
End Bookings.

(** The booking of the sample is cancelled; its run cannot move any more. *)
Import ShardTypes SamplePayment SampleShard SampleSaga.
Module SampleCutover.
Definition targetEnabled : MigRow :=
  mkMigRow None 20 ShardPhysicalZero "physical-shard-1" 1 2 false Physical.PhysicalStateTargetEnabled (Some 0) (Some 0) (Some 0) 0 0 2 (Some 60) (Some 61) None 0
    None 300 None None CleanupNotRequested None None None.
Definition db : MigDb := mkMigDb cancelled.2.1 {[ 5%N := targetEnabled ]} ∅ ∅.
Definition switch : Change := mkChange 5 Physical.PhysicalStateTargetEnabled Physical.PhysicalStateSwitchingAssignment CursorEmpty CursorEmpty 0 None None None 0 None 0 None 0.
Definition cancelRow : CmdRow := default (reservedRow (create 0 0) 0 0) (commands cancelled.2.1 !! random 3).
Lemma lifecycle_command_blocks_cutover_witness :
  bc_state cancelRow = StateFinalized /\ forall x, switchTx (mkCtlEnv 70 (fun _ => true)) switch db <> Ok x.
Proof.
  split; [vm_compute; reflexivity|]. intros x. destruct run_cancelled as (w & Hr & Hc & Hf).
  apply (lifecycle_command_blocks_cutover nobody opts registry start w (random 3) cancelRow (mkCtlEnv 70 (fun _ => true)) switch db targetEnabled x start_ok Hr);
    rewrite ?Hc; first [vm_compute; reflexivity | vm_compute; discriminate].
Defined.
End SampleCutover.
